(* ===== verification/_CoqProject ===== *)
-Q . S2P
Prelude.v
Float64.v
Bytes.v
Hex.v
CounterBase.v
CounterLimits.v
ModExpCounters.v
CounterOps.v
CounterTheory.v
Rlp.v
L2Tx.v
TxCounters.v
BatchCounters.v
BatchTheory.v
L1InfoTree.v
SmtUtils.v
SmtTree.v
SmtDb.v
Smt.v
SmtRefine.v
SmtCreate.v
SmtCreateTheory.v
SmtCreateRuns.v
Kv.v
RetainList.v
SmtRead.v
SmtProof.v
SmtBatch.v
SmtBatchTheory.v
SmtBatchRuns.v
HermezDb.v
HermezTables.v
Etl.v
EtlTheory.v
EtlRuns.v
Membatch.v
MembatchTheory.v
SmtKeys.v
SmtMdbx.v
SmtEntity.v
SmtEntityTheory.v
Genesis.v
SmtWitness.v
SmtWitnessTheory.v
SmtPartial.v
SmtRebuild.v
