(* ===== verification/Prelude.v ===== *)
(** * A verification library for cdk-erigon

    cdk-erigon is an Ethereum execution client with the parts a zkEVM chain needs
    on top: it executes L2 transactions in blocks, groups blocks into batches that
    a prover can prove, keeps the state in a sparse Merkle tree, follows the
    batches on L1, and stores what it learns in tables of its own.  This library
    models those parts and states what makes them correct.  Definitions keep the
    names of the Go code; each file says which source it follows.

    ** The program's parts and the files that model them

    Prover counters (core/vm).  A prover has eight bounded resources.  While the
    interpreter executes, every opcode handler deducts what it will cost to prove.
    - [CounterBase]: [Counter], [CounterCollector], [Deduct], [multiCall]
      (zk_counters.go), and the calculus of spending used in the proofs.
    - [Float64], [CounterLimits]: the limits of each fork, computed in IEEE-754
      doubles as zk_counters_limits.go does.
    - [ModExpCounters]: virtual_counters_util.go, with its changes to [big.Int]
      arguments.
    - [CounterOps]: one definition per handler of zk_counters.go and the table
      of handlers; [CounterTheory]: what all of them guarantee.
    - [TxCounters]: the three collectors of a transaction
      (zk_transaction_counters.go); it uses [L2Tx] for the size of a transaction.
    - [BatchCounters], [BatchTheory]: the collector of a batch
      (zk_batch_counters.go).  It points to transaction counters that change
      after they were added, so they live in a heap; the operations pass the heap.

    Batch data (zk/tx, rlp).  Blocks go to L1 as bytes.
    - [Rlp]: the encoder buffer and the decoder stream of rlp/encode.go and
      rlp/decode.go, on lists of byte strings.
    - [L2Tx]: zk/tx/tx.go, from transactions and blocks to bytes and back.

    L1 info tree (zk/l1infotree).  [L1InfoTree]: the incremental tree, the tree
    rebuilt from all leaves, Merkle proofs.

    Sparse Merkle tree (smt/pkg).
    - [SmtUtils]: keys, paths, node values (utils/utils.go).
    - [SmtDb]: the store interface as the class [SmtDb] with its laws, and the
      in-memory store (db/mem-db.go); its keys are hex strings, for which there
      is [Hex] (hexutil.go and the printing of numbers).
    - [Smt]: [insert] in all its modes, [insertSingle], [Insert] (smt/smt.go).
    - [SmtTree]: the abstract tree, a canonical trie; [SmtRefine]: the store
      refines it.
    - [SmtCreate]: the tree of many keys built at once by three goroutines
      (smt/smt_create.go, utils/job_queue.go); [SmtCreateTheory]: what their steps
      do to the temporary tree; [SmtCreateRuns]: all runs of the three.
    - [SmtRead]: the traversal, the reading of a value (smt_state_reader.go) and the
      removal of orphaned nodes (smt.go); [SmtProof]: building and checking of proofs
      (proof.go).  What a proof is to contain is decided by [RetainList]
      (turbo/trie/retain_list.go).
    - [SmtBatch]: the insertion of many keys at once through a tree in memory
      (smt_batch.go); [SmtBatchTheory]: what its steps do to that tree;
      [SmtBatchRuns]: whole batches.
    - [SmtKeys]: the keys of accounts, storage and code, and the hash of a code
      (utils/utils.go).
    - [SmtMdbx]: the store over the key-value database (db/mdbx.go), with its batches,
      as an instance of the interface of [SmtDb].
    - [SmtEntity]: accounts, storage and code written entry by entry and in one batch
      (smt/entity_storage.go, [InsertStorage] of smt.go), the readers of accounts
      (smt_state_reader.go) and the strings of addresses (erigon-lib/common/address.go);
      [SmtEntityTheory]: what is written is read.
    - [Genesis]: the tree of the genesis block (core/genesis_write.go,
      genesis_write_zkevm.go).
    - [SmtWitness]: the building of witnesses, and of trees from them (witness.go), with the
      insertion of hash nodes (smt.go); [SmtWitnessTheory]: the operators of a tree, and
      how they are read; [SmtPartial]: stores that have only a part of a tree, against
      the interface [TreeStore] of [SmtRefine], which whole stores satisfy too;
      [SmtRebuild]: the way there and back.

    Key-value storage (erigon-lib).
    - [Kv]: the key-value interface of kv/kv_interface.go as the class [Kv] with the
      laws [KvLaws], loops over cursors, and a reference store.
    - [Etl]: the external merge sort (etl): buffers, files, heap, collector,
      [Transform]; [EtlTheory]: sorting and merging; [EtlRuns]: whole loads.
    - [Membatch]: writes kept in memory in front of a transaction
      (kv/membatch/mapmutation.go), flushed through [Etl]; [MembatchTheory]: they are
      as good as direct writes.

    Hermez database (zk/hermez_db).
    - [Bytes]: byte strings, the keys of utils.go.
    - [HermezDb]: blocks and batches, L1 sequences and verifications (db.go).
    - [HermezTables]: records and their encodings (zk/types/zk_types.go,
      zk/datastream/types/ger_update.go), L1 info updates and progress, injected
      batches, exit roots, tree depths, fork intervals (db.go).

    ** How Go is modelled

    Sized integers are integers of [Z] with an explicit wrap-around ([u64], [i64],
    ...).  Fallible code returns an [outcome]: a value, an error value with its
    text, or a panic.  A slice is the list of its elements: an index or a bound of a
    slice expression beyond its length panics.  Go checks the upper bound of a slice
    expression against the capacity, so where the code cuts a slice beyond its length
    and there is spare capacity behind it (a cut off block marker in zk/tx/tx.go, a short
    element of a proof in proof.go), it reads on where the model panics; no theorem rests
    on a value read there.  Mutable state is passed explicitly: collectors as values,
    transaction counters in a heap, databases as an abstract state behind a class.  The
    order in which Go visits a map is a parameter of the functions that do so, and the
    theorems hold for every order.
    Goroutines are functions from a common state to the next one, channels bounded
    lists in it; a relation lets any goroutine take the next step.
    Byte strings are lists of [Z] below 256.

    ** What is shown

    - [SmtRefine]: an insertion refines the update of a finite map, and the root
      after any sequence of insertions depends on the resulting map only and
      determines it.
    - [SmtCreateRuns]: under every schedule the bulk creation ends, without panic or
      deadlock, with the tree that insertions one by one give.
    - [SmtBatchRuns]: a batch that is not empty and is a good one ([good_batch]) refines
      the update of a map and leaves the root that its entries leave one by one; which
      hashes it deletes, and so when it fails to return; and the batches for which the
      root is lost.
    - [RetainList], [SmtRead], [SmtProof]: the list of keys answers as if it had no
      state; proofs that are built are accepted, and proofs that are accepted tell the
      truth; what reading gives for keys in the tree and, wrongly, for others; the
      removal of orphaned nodes removes the values.
    - [EtlRuns]: with the buffer of slices, what is loaded is a stable sort of what was
      collected, however it was spilled to files, and with the identity for a load
      function it leaves what writing it entry by entry leaves; where other uses lose
      entries.
    - [MembatchTheory]: a batch of writes refines the writes themselves; its size and
      count are exact; where [Has] and [ForEach] disagree with it.
    - [SmtKeys], [SmtMdbx]: the hash of a code determines it; the store over the
      database obeys the laws of [SmtDb], with and without a batch, so that a tree
      built in a batch is in the transaction after the commit and leaves no trace after
      a rollback; which codes cannot be stored.
    - [SmtEntityTheory], [Genesis]: writing the changes of the state refines the update of
      the contents of the tree by their entries; before and after a commit the readers
      return what was set; hashing in parallel agrees with the sequential loop; the
      root of the genesis block does not depend on the orders in which maps are visited.
    - [SmtRebuild]: a tree built from a witness has the root of the original and all nodes
      that are retained, if the root is a branch that is retained and codes are in the
      witness with their lengths; the witnesses on which this fails, by a panic or by
      another root.
    - [CounterTheory], [CounterLimits], [ModExpCounters]: handlers keep used plus
      remaining constant and never panic on deep enough stacks; the early exit of
      [multiCall] is harmless and bounds its work; the float64 computation of the
      limits is exact for every fork; the modexp estimate in closed form, which reveals that its products vanish.
    - [TxCounters], [BatchTheory]: after any run of a batch its cached sums are
      those recomputed from the transactions, the combined counters are exact, and
      the overflow check says exactly whether a limit is exceeded.
    - [Rlp], [L2Tx]: both codecs are inverse; the decoder of L2 data ends on every
      input; the inputs on which it panics or drops data silently.
    - [L1InfoTree]: the incremental tree, the rebuilt tree and the proofs agree with
      one specification, the tree over infinitely many leaves.
    - [HermezDb], [HermezTables]: two tables implement one map from blocks to
      batches; rollbacks end and are exact; tables that only grow; nearest entries;
      fork intervals; round trips of the records; and, where the code does not do
      what its comments say, what it does instead.

    ** Bounds, fuel and assumptions

    - A loop over a cursor has as fuel a bound on the entries of its table; the
      theorems ask only that the table is not larger, and the loops return.  A loop
      that deletes an entry per round has the same fuel.  A loop counting from one
      number to another has their difference as fuel.
    - The RLP decoder and the L2 data decoder have the length of their input as
      fuel: each round consumes a byte.  The walk down the sparse Merkle tree has
      its 256 levels, a traversal 257 nodes on a path.  Running out of fuel is an outcome
      of its own kind of error or a [Panic], which the theorems exclude.
    - Keccak and Poseidon are parameters.  Of Keccak only the length of its results is
      used, where addresses are printed; of Poseidon, that the nodes of the trees at hand
      have different non-zero hashes and the entries of the state at hand different keys,
      stated for those only, with an instance.
    - The bulk creation: distinct keys whose values are in the store, and a context
      that is not cancelled.  Its runs are proved to end; the search for the bit in
      which two leaves differ has 257 rounds, for at most 256 bits.
    - Batches: the branches and leaves of the old tree have hashes of their own, which no
      value has, since the nodes that a batch loads are deleted by their hash; no zero is
      written to an absent key whose remaining bits look like a hash in the branch where
      its path ends; and the tree does not become empty within the batch.  The last two
      are where the code goes wrong.  The walk down has 257 rounds.
    - Loading: the merge has as fuel the number of entries of its sources, one of which
      each round takes.  Lengths of keys and values are [int]s.
    - The store over the database: the depth, which the code never writes under the key
      it is read from, can be read; the channel given to [OpenBatch] stays open.
    - Codes have fewer than 2^50 bytes, so that the float64 in the number of their blocks
      is exact.
    - Witnesses: every leaf in a witness is an entry of the state, and its store knows the
      source of its key.  The functions of keycard-go that print and read bytes in
      hexadecimal are parameters: the first prints the digits in whatever case, and the
      second undoes it, with an instance.
    - Handlers of counters: sizes below stated bounds, so that an [int] does not
      wrap around.
    - Float64: no overflow to infinity and no subnormal numbers, which the values
      of the sources stay away from.

    ** Not modelled

    - The encoding of witnesses as bytes (CBOR), and the execution of blocks that decides
      which keys a witness retains.
    - Collectors made from files that an earlier run left behind, and tables that hold
      several values under a key.
    - The wrapping of the interpreter's jump table; the interpreter, the EVM and the
      precompiles themselves, which call third-party curve code.
    - Tables of the hermez database that are only written and read under one key.
    - JSON and protobuf forms of records; logging.
    - The transaction pool, the stages, the data stream client and server, the L1
      syncer, the RPC services, the executor client: concurrent or networked code
      over the parts above.
    - What is inherited unchanged from erigon, and mdbx. *)
From Stdlib Require Export ZArith Lia.
From stdpp Require Export base numbers list gmap strings.

#[global] Open Scope Z_scope.

(** ** Machine integers

    Go's sized integers are integers of [Z] kept in range by an explicit
    wrap-around after each operation. *)

Definition u8 (z : Z) : Z := z mod 2 ^ 8.
Definition u16 (z : Z) : Z := z mod 2 ^ 16.
Definition u32 (z : Z) : Z := z mod 2 ^ 32.
Definition u64 (z : Z) : Z := z mod 2 ^ 64.
Definition u256 (z : Z) : Z := z mod 2 ^ 256.

(** Go's [int] on a 64-bit platform. *)
Definition i64 (z : Z) : Z := (z + 2 ^ 63) mod 2 ^ 64 - 2 ^ 63.

(** ** Outcomes of Go code: a value, an error value, or a run-time panic. *)

Inductive outcome (A : Type) : Type :=
| Ok (a : A)
| Err (e : string)
| Panic.
Arguments Ok {A} _.
Arguments Err {A} _.
Arguments Panic {A}.

#[export] Instance outcome_ret : MRet outcome := fun A a => Ok a.
#[export] Instance outcome_bind : MBind outcome := fun A B f m =>
  match m with
  | Ok a => f a
  | Err e => Err e
  | Panic => Panic
  end.

(** The bind as rewrite rules, for terms that should not be computed with. *)
Lemma bind_ok {A B} (f : A -> outcome B) a : (Ok a ≫= f) = f a.
Proof. reflexivity. Qed.
Lemma bind_err {A B} (f : A -> outcome B) e : (Err e ≫= f) = Err e.
Proof. reflexivity. Qed.
Lemma bind_panic {A B} (f : A -> outcome B) : (Panic ≫= f) = Panic.
Proof. reflexivity. Qed.

Lemma bind_Ok_inv {A B} (m : outcome A) (k : A -> outcome B) r :
  (x ← m; k x) = Ok r -> exists x, m = Ok x /\ k x = Ok r.
Proof.
  destruct m as [x|e|]; [rewrite bind_ok; eauto|rewrite bind_err; discriminate|
    rewrite bind_panic; discriminate].
Qed.

Ltac bind_inv :=
  repeat match goal with
  | H : mbind _ _ = Ok _ |- _ => apply bind_Ok_inv in H as (? & ? & H); cbv beta zeta in H
  end.

(** A Go slice or array index: out of range panics. *)
Definition index {A} (l : list A) (i : Z) : outcome A :=
  if decide (0 <= i) then
    match l !! Z.to_nat i with
    | Some a => Ok a
    | None => Panic
    end
  else Panic.

(** ** Wrap-around lemmas *)

Lemma u64_range z : 0 <= u64 z < 2 ^ 64.
Proof. apply Z.mod_pos_bound; lia. Qed.

Lemma u64_small z : 0 <= z < 2 ^ 64 -> u64 z = z.
Proof. apply Z.mod_small. Qed.

Lemma i64_range z : - 2 ^ 63 <= i64 z < 2 ^ 63.
Proof.
  unfold i64. pose proof (Z.mod_pos_bound (z + 2 ^ 63) (2 ^ 64) ltac:(lia)). lia.
Qed.

Lemma i64_small z : - 2 ^ 63 <= z < 2 ^ 63 -> i64 z = z.
Proof. intros H. unfold i64. rewrite Z.mod_small; lia. Qed.

Lemma i64_i64_add a b : i64 (i64 a + b) = i64 (a + b).
Proof.
  unfold i64. f_equal.
  replace ((a + 2 ^ 63) mod 2 ^ 64 - 2 ^ 63 + b + 2 ^ 63)
    with ((a + 2 ^ 63) mod 2 ^ 64 + b) by lia.
  rewrite Zplus_mod_idemp_l. f_equal. lia.
Qed.

Lemma i64_add_i64 a b : i64 (a + i64 b) = i64 (a + b).
Proof. rewrite Z.add_comm, i64_i64_add. f_equal. lia. Qed.

Lemma i64_idem z : i64 (i64 z) = i64 z.
Proof. apply i64_small, i64_range. Qed.

Lemma i64_opp_i64 a b : i64 (a - i64 b) = i64 (a - b).
Proof.
  unfold i64. f_equal.
  replace (a - ((b + 2 ^ 63) mod 2 ^ 64 - 2 ^ 63) + 2 ^ 63)
    with (a + 2 ^ 64 - (b + 2 ^ 63) mod 2 ^ 64) by lia.
  rewrite Zminus_mod_idemp_r.
  replace (a + 2 ^ 64 - (b + 2 ^ 63)) with (a - b + 2 ^ 63) by lia. done.
Qed.

(** An [int] differs from the integer it wraps by a multiple of 2^64. *)
Lemma i64_multiple z : exists k, i64 z = z + k * 2 ^ 64.
Proof.
  exists (- ((z + 2 ^ 63) / 2 ^ 64)). unfold i64.
  pose proof (Z.div_mod (z + 2 ^ 63) (2 ^ 64) ltac:(lia)). lia.
Qed.

Lemma i64_add_multiple z k : i64 (z + k * 2 ^ 64) = i64 z.
Proof.
  unfold i64. replace (z + k * 2 ^ 64 + 2 ^ 63) with (z + 2 ^ 63 + k * 2 ^ 64) by lia.
  by rewrite Z.mod_add by lia.
Qed.

Create Rewrite HintDb go_int.
#[export] Hint Rewrite i64_i64_add i64_add_i64 i64_idem i64_opp_i64 : go_int.

(** ** Go slices *)

(** [s[i] = v] on a slice: out of range panics. *)
Definition store {A} (l : list A) (i : nat) (v : A) : outcome (list A) :=
  if decide (i < length l)%nat then Ok (<[i := v]> l) else Panic.

(** [s[i:j]] on a slice without spare capacity: out of range panics. *)
Definition slice {A} (l : list A) (i j : Z) : outcome (list A) :=
  if decide (0 <= i <= j /\ j <= Z.of_nat (length l))
  then Ok (take (Z.to_nat (j - i)) (drop (Z.to_nat i) l)) else Panic.

(** [for i := 0; i < n; i++ { body }], the body a state transformer. *)
Definition loop {A} (n : Z) (body : A -> A) (s : A) : A := Nat.iter (Z.to_nat n) body s.

(** A slice that is known to lie between two parts of the whole. *)
Lemma slice_at {A} (l pre mid post : list A) i j :
  l = pre ++ mid ++ post -> i = Z.of_nat (length pre) -> j = i + Z.of_nat (length mid) ->
  slice l i j = Ok mid.
Proof.
  intros -> -> ->. unfold slice. rewrite !length_app, decide_True by lia. f_equal.
  rewrite Nat2Z.id, drop_app_length. rewrite take_app_length' by lia. done.
Qed.

Lemma index_at {A} (l pre post : list A) x i :
  l = pre ++ x :: post -> i = Z.of_nat (length pre) -> index l i = Ok x.
Proof.
  intros -> ->. unfold index. rewrite decide_True, Nat2Z.id by lia.
  by rewrite list_lookup_middle.
Qed.
