(* ===== verification/Float64.v ===== *)
(** * IEEE-754 binary64 arithmetic as the Go sources use it

    The sources convert an [int] to [float64], divide or multiply, take
    [math.Floor] or [math.Ceil], and convert back.  A finite float64 is a
    dyadic rational [fman * 2 ^ fexp]; every operation computes the exact
    rational result and rounds it once, to nearest with ties to even, to 53
    significant bits.  All the quantities in the sources stay between 2^-64 and
    2^64 in magnitude, so the exponent range (overflow to infinity, subnormal
    numbers) never matters and is left out. *)
From S2P Require Import Prelude.

Record f64 := F64 { fman : Z; fexp : Z }.

(** A float as an exact fraction [fnum / fden], [fden] a power of two. *)
Definition fnum (x : f64) : Z := fman x * 2 ^ Z.max (fexp x) 0.
Definition fden (x : f64) : Z := 2 ^ Z.max (- fexp x) 0.

(** [n / d] rounded to the nearest integer, ties to even. *)
Definition rne (n d : Z) : Z :=
  let q := n / d in
  let r := n mod d in
  match Z.compare (2 * r) d with
  | Lt => q
  | Gt => q + 1
  | Eq => if Z.even q then q else q + 1
  end.

(** The position of the leading bit of the positive rational [a / d]. *)
Definition lead (a d : Z) : Z :=
  let l := Z.log2 a - Z.log2 d in
  if d * 2 ^ Z.max l 0 <=? a * 2 ^ Z.max (- l) 0 then l else l - 1.

(** The float64 nearest to [n / d], for [d > 0]. *)
Definition round_ratio (n d : Z) : f64 :=
  if n =? 0 then F64 0 0
  else
    let e := lead (Z.abs n) d - 52 in
    F64 (Z.sgn n * rne (Z.abs n * 2 ^ Z.max (- e) 0) (d * 2 ^ Z.max e 0)) e.

Definition of_int (n : Z) : f64 := round_ratio n 1.
Definition fdiv (x y : f64) : f64 :=
  round_ratio (Z.sgn (fnum y) * fnum x * fden y) (fden x * Z.abs (fnum y)).
Definition fmul (x y : f64) : f64 := round_ratio (fnum x * fnum y) (fden x * fden y).
Definition fadd (x y : f64) : f64 :=
  round_ratio (fnum x * fden y + fnum y * fden x) (fden x * fden y).
Definition fsub (x y : f64) : f64 :=
  round_ratio (fnum x * fden y - fnum y * fden x) (fden x * fden y).

(** [math.Floor] and [math.Ceil]: the result is an integer; float64 holds every
    one it produces here exactly because a float of at least 2^53 is itself an
    integer. *)
Definition Floor (x : f64) : Z := fnum x / fden x.
Definition Ceil (x : f64) : Z := - (- fnum x / fden x).

Lemma fnum_neg m s : 0 <= s -> fnum (F64 m (- s)) = m.
Proof. intros Hs. unfold fnum; simpl. rewrite Z.max_r, Z.pow_0_r; lia. Qed.

Lemma fden_neg m s : 0 <= s -> fden (F64 m (- s)) = 2 ^ s.
Proof. intros Hs. unfold fden; simpl. rewrite Z.opp_involutive, Z.max_l; lia. Qed.

(** ** Rounding a quotient of integers below 2^53 never crosses an integer *)

Definition cdiv (n d : Z) : Z := (n + d - 1) / d.

Lemma rne_spec n d : 0 < d -> 2 * Z.abs (rne n d * d - n) <= d.
Proof.
  intros Hd. unfold rne.
  pose proof (Z.div_mod n d ltac:(lia)). pose proof (Z.mod_pos_bound n d Hd).
  set (q := n / d) in *. set (r := n mod d) in *.
  destruct (Z.compare_spec (2 * r) d); [destruct (Z.even q)|..]; nia.
Qed.

Lemma rne_exact n d : 0 < d -> rne (n * d) d = n.
Proof.
  intros Hd. unfold rne. rewrite Z.div_mul, Z.mod_mul by lia.
  destruct (Z.compare_spec (2 * 0) d); [lia|done|lia].
Qed.

Lemma log2_bounds a : 0 < a -> 2 ^ Z.log2 a <= a < 2 * 2 ^ Z.log2 a.
Proof.
  intros Ha. pose proof (Z.log2_spec a Ha).
  rewrite Z.pow_succ_r in H by apply Z.log2_nonneg. lia.
Qed.

(** [2 ^ lead <= a / d], cleared of the possibly negative exponent. *)
Lemma lead_lower a d :
  0 < a -> 0 < d -> d * 2 ^ Z.max (lead a d) 0 <= a * 2 ^ Z.max (- lead a d) 0.
Proof.
  intros Ha Hd. unfold lead.
  pose proof (log2_bounds a Ha) as HA. pose proof (log2_bounds d Hd) as HD.
  set (la := Z.log2 a) in *. set (ld := Z.log2 d) in *.
  pose proof (Z.log2_nonneg a : 0 <= la). pose proof (Z.log2_nonneg d : 0 <= ld).
  case_match eqn:E; [lia|clear E].
  destruct (Z.le_gt_cases 0 (la - ld - 1)).
  - rewrite Z.max_l, Z.max_r by lia.
    assert (2 ^ la = 2 * (2 ^ ld * 2 ^ (la - ld - 1))) as E.
    { rewrite <- Z.pow_add_r, <- Z.pow_succ_r by lia. f_equal; lia. }
    pose proof (Z.pow_pos_nonneg 2 (la - ld - 1) ltac:(lia) ltac:(lia)). nia.
  - rewrite Z.max_r, Z.max_l by lia.
    assert (2 * 2 ^ ld = 2 ^ la * 2 ^ (- (la - ld - 1))) as E.
    { rewrite <- Z.pow_add_r, <- Z.pow_succ_r by lia. f_equal; lia. }
    pose proof (Z.pow_pos_nonneg 2 (- (la - ld - 1)) ltac:(lia) ltac:(lia)). nia.
Qed.

Lemma lead_le a d k : 0 < a -> 0 < d -> 0 <= k -> a < d * 2 ^ (k + 1) -> lead a d <= k.
Proof.
  intros Ha Hd Hk Hlt. destruct (Z.le_gt_cases (lead a d) k) as [|Hgt]; [done|].
  pose proof (lead_lower a d Ha Hd) as HL.
  rewrite Z.max_l, Z.max_r, Z.pow_0_r in HL by lia.
  pose proof (Z.pow_le_mono_r 2 (k + 1) (lead a d) ltac:(lia) ltac:(lia)). nia.
Qed.

(** The shape of a quotient below 2^53: a 53-bit significand [m] over [2 ^ s],
    off by at most half a unit. *)
Lemma round_ratio_small n d :
  0 < n -> 0 < d -> n < d * 2 ^ 53 ->
  exists m s, round_ratio n d = F64 m (- s) /\ 0 <= s /\ m = rne (n * 2 ^ s) d /\
    d * 2 ^ 52 <= n * 2 ^ s.
Proof.
  intros Hn Hd Hlt. unfold round_ratio.
  destruct (Z.eqb_spec n 0); [lia|]. rewrite Z.abs_eq, Z.sgn_pos, Z.mul_1_l by lia.
  pose proof (lead_le n d 52 Hn Hd ltac:(lia) Hlt) as Hl.
  pose proof (lead_lower n d Hn Hd) as HL.
  set (l := lead n d) in *.
  exists (rne (n * 2 ^ (52 - l)) d), (52 - l).
  rewrite Z.max_l, (Z.max_r (l - 52)), Z.pow_0_r, Z.mul_1_r by lia.
  replace (- (l - 52)) with (52 - l) by lia.
  repeat split; [f_equal; lia|lia|].
  assert (0 < 2 ^ (52 - Z.max l 0)) by (apply Z.pow_pos_nonneg; lia).
  replace (2 ^ 52) with (2 ^ Z.max l 0 * 2 ^ (52 - Z.max l 0))
    by (rewrite <- Z.pow_add_r by lia; f_equal; lia).
  replace (2 ^ (52 - l)) with (2 ^ Z.max (- l) 0 * 2 ^ (52 - Z.max l 0))
    by (rewrite <- Z.pow_add_r by lia; f_equal; lia).
  nia.
Qed.

(** An integer below 2^53 is represented exactly. *)
Lemma of_int_exact n :
  0 < n < 2 ^ 53 -> exists s, 0 <= s /\ of_int n = F64 (n * 2 ^ s) (- s).
Proof.
  intros [Hn Hlt]. destruct (round_ratio_small n 1 Hn ltac:(lia) ltac:(lia))
    as (m & s & Heq & Hs & -> & _).
  exists s. split; [done|]. unfold of_int. rewrite Heq. f_equal.
  rewrite <- (Z.mul_1_r (n * 2 ^ s)) at 1. by rewrite rne_exact by lia.
Qed.

(** The quotient of two such integers, as a fraction scaled by a common power
    of two. *)
Lemma fdiv_of_int n d :
  0 < n < 2 ^ 53 -> 0 < d < 2 ^ 53 ->
  exists K, 0 < K /\ fdiv (of_int n) (of_int d) = round_ratio (n * K) (d * K).
Proof.
  intros Hn Hd.
  destruct (of_int_exact n Hn) as (s & Hs & ->). destruct (of_int_exact d Hd) as (t & Ht & ->).
  unfold fdiv. rewrite !fnum_neg, !fden_neg by lia.
  pose proof (Z.pow_pos_nonneg 2 s ltac:(lia) Hs). pose proof (Z.pow_pos_nonneg 2 t ltac:(lia) Ht).
  rewrite Z.sgn_pos, Z.abs_eq by nia.
  exists (2 ^ s * 2 ^ t). split; [nia|]. f_equal; lia.
Qed.

(** What rounding does to a quotient that stays away from integers: it stays
    strictly between the same two consecutive ones. *)
Lemma round_ratio_between n d K :
  0 < n < 2 ^ 53 -> 0 < d -> 0 < K -> n mod d <> 0 ->
  exists m s, round_ratio (n * K) (d * K) = F64 m (- s) /\ 0 <= s /\
    n / d * 2 ^ s < m < (n / d + 1) * 2 ^ s.
Proof.
  intros [Hn Hlt] Hd HK Hr.
  assert (n * K < d * K * 2 ^ 53) by nia.
  destruct (round_ratio_small (n * K) (d * K)) as (m & s & Heq & Hs & -> & Hge); [nia..|].
  exists (rne (n * K * 2 ^ s) (d * K)), s. split; [done|]. split; [done|].
  pose proof (rne_spec (n * K * 2 ^ s) (d * K) ltac:(nia)) as HE.
  set (m := rne (n * K * 2 ^ s) (d * K)) in *. clearbody m.
  pose proof (Z.div_mod n d ltac:(lia)) as HD. pose proof (Z.mod_pos_bound n d Hd).
  set (q := n / d) in *. set (r := n mod d) in *. clearbody q r.
  pose proof (Z.pow_pos_nonneg 2 s ltac:(lia) Hs) as HP. set (P := 2 ^ s) in *. clearbody P.
  assert (2 * Z.abs (m * d - n * P) <= d).
  { replace (m * (d * K) - n * K * P) with ((m * d - n * P) * K) in HE by lia.
    rewrite Z.abs_mul, (Z.abs_eq K) in HE by lia. nia. }
  assert (d * 2 ^ 52 <= n * P) by nia.
  assert (d < 2 * P) by nia.
  split; nia.
Qed.

Lemma round_ratio_integer n d K :
  0 < n < 2 ^ 53 -> 0 < d -> 0 < K -> n mod d = 0 ->
  exists s, 0 <= s /\ round_ratio (n * K) (d * K) = F64 (n / d * 2 ^ s) (- s).
Proof.
  intros [Hn Hlt] Hd HK Hr.
  assert (n * K < d * K * 2 ^ 53) by nia.
  destruct (round_ratio_small (n * K) (d * K)) as (m & s & Heq & Hs & -> & Hge); [nia..|].
  exists s. split; [done|]. rewrite Heq. f_equal.
  rewrite (Z.div_mod n d ltac:(lia)) at 1. rewrite Hr.
  replace ((d * (n / d) + 0) * K * 2 ^ s) with (n / d * 2 ^ s * (d * K)) by lia.
  apply rne_exact. nia.
Qed.

(** ** The idioms of the sources *)

(** [int(math.Ceil(float64(n)/d))] *)
Definition ceil_div_f (n d : Z) : Z := Ceil (fdiv (of_int n) (of_int d)).
(** [int(math.Floor(float64(n)/d))] *)
Definition floor_div_f (n d : Z) : Z := Floor (fdiv (of_int n) (of_int d)).

Lemma ceil_div_f_0 d : 0 < d < 2 ^ 53 -> ceil_div_f 0 d = 0.
Proof.
  intros Hd. unfold ceil_div_f, fdiv. change (of_int 0) with (F64 0 0).
  change (fnum (F64 0 0)) with 0. by rewrite Z.mul_0_r, Z.mul_0_l.
Qed.

Lemma floor_div_f_0 d : 0 < d < 2 ^ 53 -> floor_div_f 0 d = 0.
Proof.
  intros Hd. unfold floor_div_f, fdiv. change (of_int 0) with (F64 0 0).
  change (fnum (F64 0 0)) with 0. by rewrite Z.mul_0_r, Z.mul_0_l.
Qed.

Lemma Ceil_between q m s :
  0 <= s -> q * 2 ^ s < m < (q + 1) * 2 ^ s -> Ceil (F64 m (- s)) = q + 1.
Proof.
  intros Hs Hm. unfold Ceil. rewrite fnum_neg, fden_neg by lia.
  pose proof (Z.pow_pos_nonneg 2 s ltac:(lia) Hs).
  rewrite <- (Z.div_unique (- m) (2 ^ s) (- q - 1) ((q + 1) * 2 ^ s - m)); lia.
Qed.

Lemma Floor_between q m s :
  0 <= s -> q * 2 ^ s <= m < (q + 1) * 2 ^ s -> Floor (F64 m (- s)) = q.
Proof.
  intros Hs Hm. unfold Floor. rewrite fnum_neg, fden_neg by lia.
  rewrite <- (Z.div_unique m (2 ^ s) q (m - q * 2 ^ s)); lia.
Qed.

Lemma Ceil_integer q s : 0 <= s -> Ceil (F64 (q * 2 ^ s) (- s)) = q.
Proof.
  intros Hs. unfold Ceil. rewrite fnum_neg, fden_neg by lia.
  pose proof (Z.pow_pos_nonneg 2 s ltac:(lia) Hs).
  rewrite <- Z.mul_opp_l, Z.div_mul; lia.
Qed.

(** Below 2^53 the floating-point idiom is the integer ceiling. *)
Lemma ceil_div_f_spec n d :
  0 <= n < 2 ^ 53 -> 0 < d < 2 ^ 53 -> ceil_div_f n d = cdiv n d.
Proof.
  intros Hn Hd. unfold cdiv.
  destruct (decide (n = 0)) as [->|Hn0].
  { rewrite ceil_div_f_0, Z.div_small by lia. done. }
  unfold ceil_div_f. destruct (fdiv_of_int n d) as (K & HK & ->); [lia..|].
  pose proof (Z.div_mod n d ltac:(lia)). pose proof (Z.mod_pos_bound n d ltac:(lia)).
  destruct (decide (n mod d = 0)) as [Hr|Hr].
  - destruct (round_ratio_integer n d K) as (s & Hs & ->); [lia..|].
    rewrite Ceil_integer by lia. apply (Z.div_unique _ _ _ (d - 1)); lia.
  - destruct (round_ratio_between n d K) as (m & s & -> & Hs & Hm); [lia..|].
    rewrite (Ceil_between (n / d)) by lia. apply (Z.div_unique _ _ _ (n mod d - 1)); lia.
Qed.

Lemma floor_div_f_spec n d :
  0 <= n < 2 ^ 53 -> 0 < d < 2 ^ 53 -> floor_div_f n d = n / d.
Proof.
  intros Hn Hd.
  destruct (decide (n = 0)) as [->|Hn0]; [by rewrite floor_div_f_0, Z.div_0_l by lia|].
  unfold floor_div_f. destruct (fdiv_of_int n d) as (K & HK & ->); [lia..|].
  destruct (decide (n mod d = 0)) as [Hr|Hr].
  - destruct (round_ratio_integer n d K) as (s & Hs & ->); [lia..|].
    pose proof (Z.pow_pos_nonneg 2 s ltac:(lia) Hs). apply Floor_between; nia.
  - destruct (round_ratio_between n d K) as (m & s & -> & Hs & Hm); [lia..|].
    apply Floor_between; lia.
Qed.

(** [int(math.Ceil(float64(n)/d)+k)]: the addition is a float64 one too. *)
Definition ceil_div_add_f (n d k : Z) : Z :=
  Floor (fadd (of_int (ceil_div_f n d)) (of_int k)).

Lemma fadd_of_int_Floor a b :
  0 < a -> 0 < b -> a + b < 2 ^ 53 -> Floor (fadd (of_int a) (of_int b)) = a + b.
Proof.
  intros Ha Hb Hab.
  destruct (of_int_exact a ltac:(lia)) as (s & Hs & ->).
  destruct (of_int_exact b ltac:(lia)) as (t & Ht & ->).
  unfold fadd. rewrite !fnum_neg, !fden_neg by lia.
  pose proof (Z.pow_pos_nonneg 2 s ltac:(lia) Hs). pose proof (Z.pow_pos_nonneg 2 t ltac:(lia) Ht).
  replace (a * 2 ^ s * 2 ^ t + b * 2 ^ t * 2 ^ s) with ((a + b) * (2 ^ s * 2 ^ t)) by lia.
  rewrite <- (Z.mul_1_l (2 ^ s * 2 ^ t)) at 2.
  destruct (round_ratio_integer (a + b) 1 (2 ^ s * 2 ^ t)) as (u & Hu & ->);
    [lia|lia|nia|apply Z.mod_1_r|].
  rewrite Z.div_1_r. pose proof (Z.pow_pos_nonneg 2 u ltac:(lia) Hu). apply Floor_between; nia.
Qed.

Lemma cdiv_bounds n d : 0 <= n -> 0 < d -> 0 <= cdiv n d <= n.
Proof.
  intros Hn Hd. unfold cdiv. split; [apply Z.div_pos; lia|].
  destruct (decide (n = 0)) as [->|]; [rewrite Z.div_small; lia|].
  apply Z.div_le_upper_bound; nia.
Qed.

Lemma ceil_div_f_bounds n d :
  0 <= n < 2 ^ 53 -> 0 < d < 2 ^ 53 -> 0 <= ceil_div_f n d <= n.
Proof. intros. rewrite ceil_div_f_spec by lia. apply cdiv_bounds; lia. Qed.

Lemma ceil_div_add_f_spec n d k :
  0 < n < 2 ^ 52 -> 0 < d < 2 ^ 53 -> 0 < k < 2 ^ 52 ->
  ceil_div_add_f n d k = cdiv n d + k.
Proof.
  intros Hn Hd Hk. unfold ceil_div_add_f. rewrite ceil_div_f_spec by lia.
  pose proof (cdiv_bounds n d ltac:(lia) ltac:(lia)).
  assert (0 < cdiv n d).
  { unfold cdiv. apply Z.div_str_pos. lia. }
  apply fadd_of_int_Floor; lia.
Qed.

Lemma fmul_of_int_Floor a b :
  0 < a -> 0 < b -> a * b < 2 ^ 53 -> Floor (fmul (of_int a) (of_int b)) = a * b.
Proof.
  intros Ha Hb Hab.
  destruct (of_int_exact a ltac:(nia)) as (s & Hs & ->).
  destruct (of_int_exact b ltac:(nia)) as (t & Ht & ->).
  unfold fmul. rewrite !fnum_neg, !fden_neg by lia.
  pose proof (Z.pow_pos_nonneg 2 s ltac:(lia) Hs). pose proof (Z.pow_pos_nonneg 2 t ltac:(lia) Ht).
  replace (a * 2 ^ s * (b * 2 ^ t)) with (a * b * (2 ^ s * 2 ^ t)) by lia.
  rewrite <- (Z.mul_1_l (2 ^ s * 2 ^ t)) at 2.
  destruct (round_ratio_integer (a * b) 1 (2 ^ s * 2 ^ t)) as (u & Hu & ->);
    [nia|lia|nia|apply Z.mod_1_r|].
  rewrite Z.div_1_r. pose proof (Z.pow_pos_nonneg 2 u ltac:(lia) Hu). apply Floor_between; nia.
Qed.

(** ** Taking a share off *)

Lemma cdiv_spec n d : 0 < d -> n <= d * cdiv n d < n + d.
Proof.
  intros Hd. unfold cdiv. pose proof (Z.div_mod (n + d - 1) d ltac:(lia)).
  pose proof (Z.mod_pos_bound (n + d - 1) d Hd). lia.
Qed.

Lemma cdiv_unique n d c : 0 < d -> n <= d * c < n + d -> cdiv n d = c.
Proof. intros Hd Hc. pose proof (cdiv_spec n d Hd). nia. Qed.

Lemma cdiv_scale n d g : 0 < d -> 0 < g -> cdiv (n * g) (d * g) = cdiv n d.
Proof. intros Hd Hg. apply cdiv_unique; [nia|]. pose proof (cdiv_spec n d Hd). nia. Qed.

Lemma Ceil_unique c m s : 0 <= s -> (c - 1) * 2 ^ s < m <= c * 2 ^ s -> Ceil (F64 m (- s)) = c.
Proof.
  intros Hs Hm. destruct (decide (m = c * 2 ^ s)) as [->|]; [by apply Ceil_integer|].
  rewrite (Ceil_between (c - 1)) by lia. lia.
Qed.

(** A product or a difference that is rounded: the significand [m] over [U] is off by half
    a unit, and [U] is large. *)
Lemma round_ratio_scaled n d K : 0 < n -> 0 < d -> 0 < K -> n < d * 2 ^ 53 ->
  exists m s, round_ratio (n * K) (d * K) = F64 m (- s) /\ 0 <= s /\
    2 * Z.abs (m * d - n * 2 ^ s) <= d /\ d * 2 ^ 52 <= n * 2 ^ s.
Proof.
  intros Hn Hd HK Hlt. destruct (round_ratio_small (n * K) (d * K)) as (m & s & Heq & Hs & -> & Hge); [nia..|].
  exists (rne (n * K * 2 ^ s) (d * K)), s. split; [done|]. split; [done|]. split; [|nia].
  pose proof (rne_spec (n * K * 2 ^ s) (d * K) ltac:(nia)) as HE. set (m := rne _ _) in *. clearbody m.
  replace (m * (d * K) - n * K * 2 ^ s) with ((m * d - n * 2 ^ s) * K) in HE by lia.
  rewrite Z.abs_mul, (Z.abs_eq K) in HE by lia. nia.
Qed.

Section share.
(** The share is [1 / b], rounded up to [M / S] by at most one part in 2^54. *)
Context (b M S n : Z) (Hb : 2 <= b <= 80) (HS : 0 < S) (Hup : S <= b * M) (Hclose : (b * M - S) * 2 ^ 54 <= S) (Hn : 0 < n < 2 ^ 40).

(** The rounded share [m / U] of [n]. *)
Context (m U : Z) (HU : 0 < U).
Context (Hm : 2 * Z.abs (m * S - n * M * U) <= S) (HmU : S * 2 ^ 52 <= n * M * U).

Lemma share_bounds : M <= S /\ 2 ^ 12 < U /\ 0 <= m.
Proof.
  assert (M <= S) by nia. split; [done|]. assert (S * 2 ^ 52 <= n * U * S) by nia.
  assert (2 ^ 52 <= n * U) by nia. split; [nia|]. assert (0 < M) by nia. nia.
Qed.

(** [b * m] is near [n * U]. *)
Lemma share_near : 2 * n * U - b <= 2 * b * m /\ 2 * b * m * 2 ^ 54 <= 2 * n * U * (2 ^ 54 + 1) + b * 2 ^ 54.
Proof.
  split.
  - assert (2 * (n * M * U) - S <= 2 * (m * S)) as H1 by lia. assert (n * U * S <= n * U * (b * M)) as H2 by nia.
    assert (S * (2 * n * U - b) <= S * (2 * b * m)) by nia. nia.
  - assert (2 * (m * S) <= 2 * (n * M * U) + S) as H1 by lia. assert (n * U * (b * M * 2 ^ 54) <= n * U * (S * (2 ^ 54 + 1))) as H2 by nia.
    assert (S * (2 * b * m * 2 ^ 54) <= S * (2 * n * U * (2 ^ 54 + 1) + b * 2 ^ 54)) by nia. nia.
Qed.

Lemma share_less : m < n * U.
Proof.
  destruct share_bounds as (_ & HU12 & Hm0). destruct share_near as [_ Hnear].
  assert (2 * m <= b * m) as H1 by (apply Z.mul_le_mono_nonneg_r; lia). assert (1 * U <= n * U) as H2 by (apply Z.mul_le_mono_nonneg_r; lia). lia.
Qed.

(** The rounded rest [r / W]. *)
Context (r W : Z) (HW : 0 < W).
Context (Hr : 2 * Z.abs (r * U - (n * U - m) * W) <= U) (HrW : U * 2 ^ 52 <= (n * U - m) * W).

Lemma rest_bounds : 2 ^ 12 <= W.
Proof. destruct share_bounds as (_ & _ & Hm0). assert (U * 2 ^ 52 <= n * U * W) by nia. assert (2 ^ 52 <= n * W) by nia. nia. Qed.

Lemma rest_lower c : b * (c - 1) < n * (b - 1) -> (c - 1) * W < r.
Proof.
  intros Hc. destruct share_bounds as (_ & HU12 & _). pose proof rest_bounds as HW12. destruct share_near as [_ Hnear].
  assert ((n * U - m) * W * 2 - U <= 2 * (r * U)) as H1 by lia.
  assert (2 * b * (n * U - m) * 2 ^ 54 >= 2 * U * (b * (c - 1) + 1) * 2 ^ 54 - 2 * n * U - b * 2 ^ 54) as H2 by nia.
  assert (2 * b * (n * U - m) >= 2 * U * b * (c - 1) + U) as H3 by nia.
  assert (b * W * (2 * (n * U - m)) >= W * (2 * U * b * (c - 1) + U)) as H4 by nia.
  assert (2 * b * (r * U) > 2 * b * (c - 1) * W * U) as H5 by nia. nia.
Qed.

Lemma rest_upper c : n * (b - 1) <= b * c < n * (b - 1) + b -> r <= c * W.
Proof.
  intros Hc. destruct share_bounds as (_ & HU12 & _). pose proof rest_bounds as HW12. destruct share_near as [Hnear _].
  assert (2 * (r * U) <= (n * U - m) * W * 2 + U) as H1 by lia.
  destruct (decide (b * c = n * (b - 1))) as [He|Hne].
  - assert (n = b * (n - c)) as Hk by lia. set (k := n - c) in *.
    assert (0 < k) by nia. assert (k * S <= n * M) as H2 by nia. assert (k * S * U <= n * M * U) as H3 by nia.
    assert (2 * (k * U * S) - S <= 2 * (m * S)) as H4 by lia. assert (2 * k * U - 1 <= 2 * m) as H5 by nia.
    assert (k * U <= m) as H6 by lia. assert (n * U - m <= c * U) as H7 by (replace n with (c + k) by lia; lia).
    apply (Z.mul_le_mono_nonneg_r _ _ W) in H7; [|lia].
    assert (U * (2 * r) <= U * (2 * (c * W) + 1)) as H8 by lia. apply Z.mul_le_mono_pos_l in H8; lia.
  - assert (n * (b - 1) + 1 <= b * c) as Hs by lia.
    assert (2 * b * (n * U - m) <= 2 * U * (b * c - 1) + b) as H2 by nia.
    assert (2 * b * (n * U - m) <= 2 * U * b * c - U) as H3 by nia.
    assert (W * (2 * b * (n * U - m)) <= W * (2 * U * b * c - U)) as H4 by nia.
    assert (2 * b * (r * U) <= 2 * b * c * W * U) as H5 by nia. nia.
Qed.
End share.

(** Taking off a share of one part in [b] in float64 and rounding up gives the exact
    result, if the share is a float64 that is not below the exact one. *)
Lemma deduct_exact b M s n : 2 <= b <= 80 -> 0 <= s -> 2 ^ s <= b * M -> (b * M - 2 ^ s) * 2 ^ 54 <= 2 ^ s -> 0 < n < 2 ^ 40 ->
  Ceil (fsub (of_int n) (fmul (of_int n) (F64 M (- s)))) = cdiv (n * (b - 1)) b.
Proof.
  intros Hb Hs Hup Hclose Hn. destruct (of_int_exact n ltac:(lia)) as (t & Ht & ->).
  pose proof (Z.pow_pos_nonneg 2 t ltac:(lia) Ht) as HT. pose proof (Z.pow_pos_nonneg 2 s ltac:(lia) Hs) as HS.
  unfold fmul. rewrite !fnum_neg, !fden_neg by lia. remember (2 ^ t) as T eqn:ET. remember (2 ^ s) as S eqn:ES. clear ES.
  replace (n * T * M) with (n * M * T) by lia. replace (T * S) with (S * T) by lia.
  assert (0 < M <= S) as HM by nia. assert (n * M < S * 2 ^ 53) as Hlt by nia.
  destruct (round_ratio_scaled (n * M) S T ltac:(nia) HS HT Hlt) as (m & u & -> & Hu & Hm & HmU).
  pose proof (Z.pow_pos_nonneg 2 u ltac:(lia) Hu) as HU.
  unfold fsub. rewrite !fnum_neg, !fden_neg by lia. rewrite <- ET. clear ET. remember (2 ^ u) as U eqn:EU. clear EU.
  destruct (share_bounds b M S n Hb HS Hup Hclose Hn m U HU Hm HmU) as (_ & _ & Hm0).
  replace (n * T * U - m * T) with ((n * U - m) * T) by lia. replace (T * U) with (U * T) by lia.
  pose proof (share_less b M S n Hb HS Hup Hclose Hn m U HU Hm HmU) as Hmlt. assert (n * U <= 2 ^ 40 * U) as HnU by (apply Z.mul_le_mono_nonneg_r; lia).
  assert (n * U - m < U * 2 ^ 53) as Hlt2 by lia.
  destruct (round_ratio_scaled (n * U - m) U T ltac:(lia) HU HT Hlt2) as (r & w & -> & Hw & Hr & HrW).
  pose proof (Z.pow_pos_nonneg 2 w ltac:(lia) Hw) as HW. pose proof (cdiv_spec (n * (b - 1)) b ltac:(lia)) as Hc.
  apply Ceil_unique; [done|]. split.
  - eapply (rest_lower b M S n Hb HS Hup Hclose Hn m U); eauto. lia.
  - eapply (rest_upper b M S n Hb HS Hup Hclose Hn m U); eauto.
Qed.
