(* ===== verification/Bytes.v ===== *)
(** * Byte strings: fixed-width integers and database keys (zk/hermez_db/utils.go)

    A byte is an integer of [Z] below 256; [bytes_ok] says so of a whole
    string.  [be_encode] is [binary.BigEndian.PutUint*] and [be_decode] is
    [binary.BigEndian.Uint*] and [big.Int.SetBytes]. *)
From S2P Require Import Prelude.

Definition byte_ok (b : Z) : Prop := 0 <= b < 256.
Definition bytes_ok (l : list Z) : Prop := Forall byte_ok l.

Fixpoint be_encode (w : nat) (z : Z) : list Z :=
  match w with
  | O => []
  | S w' => z / 256 ^ Z.of_nat w' mod 256 :: be_encode w' z
  end.

Definition be_decode (l : list Z) : Z := foldl (fun acc b => acc * 256 + b) 0 l.

(** The length of the shortest big-endian representation; 0 for 0. *)
Definition byte_length (z : Z) : Z := if z <=? 0 then 0 else Z.log2 z / 8 + 1.

(** [big.Int.Bytes] and [uint256.Int.Bytes]. *)
Definition big_bytes (z : Z) : list Z := be_encode (Z.to_nat (byte_length z)) z.

(** ** Round trips *)

Lemma be_encode_length w z : length (be_encode w z) = w.
Proof. induction w; simpl; auto. Qed.

Lemma be_encode_ok w z : bytes_ok (be_encode w z).
Proof.
  induction w; simpl; constructor; [|done]. unfold byte_ok. apply Z.mod_pos_bound. lia.
Qed.

Lemma be_decode_acc l a :
  foldl (fun acc b => acc * 256 + b) a l = a * 256 ^ Z.of_nat (length l) + be_decode l.
Proof.
  unfold be_decode. revert a. induction l as [|b l IH]; intros a.
  { change (256 ^ Z.of_nat (length [])) with 1. simpl. lia. }
  cbn [foldl length]. rewrite IH, (IH (0 * 256 + b)), Nat2Z.inj_succ, Z.pow_succ_r by lia. lia.
Qed.

Lemma be_decode_cons b l : be_decode (b :: l) = b * 256 ^ Z.of_nat (length l) + be_decode l.
Proof. unfold be_decode at 1. simpl. apply be_decode_acc. Qed.

Lemma be_decode_app l1 l2 :
  be_decode (l1 ++ l2) = be_decode l1 * 256 ^ Z.of_nat (length l2) + be_decode l2.
Proof. unfold be_decode at 1. rewrite foldl_app. apply be_decode_acc. Qed.

Lemma be_decode_encode w z : be_decode (be_encode w z) = z mod 256 ^ Z.of_nat w.
Proof.
  induction w as [|w IH]; [by rewrite Z.mod_1_r|].
  cbn [be_encode]. rewrite be_decode_cons, be_encode_length, IH, Nat2Z.inj_succ.
  assert (0 < 256 ^ Z.of_nat w) by (apply Z.pow_pos_nonneg; lia).
  rewrite Z.pow_succ_r, (Z.mul_comm 256), Z.rem_mul_r by lia. lia.
Qed.

Lemma be_decode_encode_small w z :
  0 <= z < 256 ^ Z.of_nat w -> be_decode (be_encode w z) = z.
Proof. intros H. by rewrite be_decode_encode, Z.mod_small. Qed.

Lemma be_decode_range l : bytes_ok l -> 0 <= be_decode l < 256 ^ Z.of_nat (length l).
Proof.
  induction 1 as [|b l Hb _ IH]; [done|].
  rewrite be_decode_cons. cbn [length]. rewrite Nat2Z.inj_succ, Z.pow_succ_r by lia.
  unfold byte_ok in Hb. nia.
Qed.

Lemma be_encode_mod w k z : (w <= k)%nat ->
  be_encode w (z mod 256 ^ Z.of_nat k) = be_encode w z.
Proof.
  induction w as [|w IH]; intros Hk; [done|]. cbn [be_encode]. rewrite IH by lia. f_equal.
  replace (Z.of_nat k) with (Z.of_nat w + (1 + Z.of_nat (k - w - 1))) by lia.
  assert (0 < 256 ^ Z.of_nat w) by (apply Z.pow_pos_nonneg; lia).
  assert (0 < 256 ^ Z.of_nat (k - w - 1)) by (apply Z.pow_pos_nonneg; lia).
  rewrite !Z.pow_add_r, Z.pow_1_r by lia.
  rewrite Z.rem_mul_r by lia.
  rewrite (Z.mul_comm (256 ^ Z.of_nat w) (_ mod _)), Z.div_add by lia.
  rewrite (Z.div_small (z mod 256 ^ Z.of_nat w)) by (apply Z.mod_pos_bound; lia).
  rewrite Z.add_0_l. apply Z.mod_mod_divide, Z.divide_factor_l.
Qed.

Lemma be_encode_decode l : bytes_ok l -> be_encode (length l) (be_decode l) = l.
Proof.
  induction 1 as [|b l Hb Hl IH]; [done|].
  cbn [length be_encode]. rewrite be_decode_cons.
  pose proof (be_decode_range l Hl). unfold byte_ok in Hb. f_equal.
  - rewrite Z.div_add_l, Z.div_small, Z.add_0_r, Z.mod_small; lia.
  - rewrite <- (be_encode_mod (length l) (length l)) by lia.
    rewrite Z.add_comm, Z.mod_add by (apply Z.pow_nonzero; lia).
    by rewrite Z.mod_small.
Qed.

Lemma bytes_ok_app l1 l2 : bytes_ok (l1 ++ l2) <-> bytes_ok l1 /\ bytes_ok l2.
Proof. apply Forall_app. Qed.

Lemma byte_length_pow z : 0 <= z -> z < 256 ^ byte_length z.
Proof.
  intros Hz. unfold byte_length. destruct (Z.leb_spec z 0).
  { change (256 ^ 0) with 1. lia. }
  change 256 with (2 ^ 8). pose proof (Z.log2_nonneg z).
  pose proof (Z.div_pos (Z.log2 z) 8 ltac:(lia) ltac:(lia)).
  rewrite <- Z.pow_mul_r by lia.
  pose proof (Z.log2_spec z ltac:(lia)) as [_ Hu].
  eapply Z.lt_le_trans; [exact Hu|]. apply Z.pow_le_mono_r; [lia|].
  pose proof (Z.div_mod (Z.log2 z) 8 ltac:(lia)).
  pose proof (Z.mod_pos_bound (Z.log2 z) 8 ltac:(lia)). lia.
Qed.

Lemma byte_length_nonneg z : 0 <= byte_length z.
Proof.
  unfold byte_length. destruct (Z.leb_spec z 0); [done|].
  pose proof (Z.div_pos (Z.log2 z) 8 (Z.log2_nonneg z) ltac:(lia)). lia.
Qed.

Lemma be_decode_big_bytes z : 0 <= z -> be_decode (big_bytes z) = z.
Proof.
  intros Hz. unfold big_bytes. apply be_decode_encode_small.
  rewrite Z2Nat.id by apply byte_length_nonneg. split; [done|]. by apply byte_length_pow.
Qed.

Create HintDb bytes.
Create Rewrite HintDb bytes.
#[export] Hint Resolve be_encode_ok : bytes.
#[export] Hint Rewrite be_encode_length : bytes.

(** ** zk/hermez_db/utils.go *)

Definition BytesToUint64 (b : list Z) : Z :=
  if (length b <? 8)%nat then 0 else be_decode (take 8 b).

Definition Uint64ToBytes (i : Z) : list Z := be_encode 8 i.

Definition BytesToUint8 (b : list Z) : Z :=
  match b with [] => 0 | x :: _ => x end.

Definition Uint8ToBytes (i : Z) : list Z := [i].

Definition SplitKey (data : list Z) : outcome (Z * Z) :=
  if negb (length data =? 16)%nat then Err "data length is not 16 bytes"
  else Ok (BytesToUint64 (take 8 data), BytesToUint64 (drop 8 data)).

Definition ConcatKey (l1BlockNo batchNo : Z) : list Z :=
  be_encode 8 l1BlockNo ++ be_encode 8 batchNo.

Definition emptyHash : list Z := replicate 32 0.

Definition ConcatGerKey (blockNo : Z) (l1BlockHash : list Z) : list Z :=
  if decide (l1BlockHash = emptyHash) then be_encode 8 blockNo
  else be_encode 8 blockNo ++ l1BlockHash.

Definition SplitGerKey (data : list Z) : outcome (Z * option (list Z)) :=
  if negb (length data =? 40)%nat && negb (length data =? 8)%nat
  then Err "data length is not 8 bytes or 40 bytes"
  else if (length data =? 8)%nat then Ok (BytesToUint64 data, None)
  else Ok (BytesToUint64 (take 8 data), Some (drop 8 data)).

Lemma BytesToUint64_encode i rest :
  0 <= i < 2 ^ 64 -> BytesToUint64 (be_encode 8 i ++ rest) = i.
Proof.
  intros Hi. unfold BytesToUint64. rewrite length_app, be_encode_length.
  destruct (Nat.ltb_spec (8 + length rest) 8); [lia|].
  rewrite take_app_le by (rewrite be_encode_length; lia).
  rewrite take_ge by (rewrite be_encode_length; lia).
  apply be_decode_encode_small. by change (256 ^ Z.of_nat 8) with (2 ^ 64).
Qed.

(** Database keys.  Splitting a concatenated pair of numbers, or a block
    number with an L1 block hash, gives the parts back; the all-zero hash comes
    back as an absent one, in a key of eight bytes. *)
Theorem key_round_trip a b h :
  0 <= a < 2 ^ 64 -> 0 <= b < 2 ^ 64 -> length h = 32%nat ->
  SplitKey (ConcatKey a b) = Ok (a, b) /\
  SplitGerKey (ConcatGerKey a h) = Ok (a, if decide (h = emptyHash) then None else Some h).
Proof.
  intros Ha Hb Hh. split.
  - unfold SplitKey, ConcatKey. rewrite length_app, !be_encode_length.
    change ((8 + 8 =? 16)%nat) with true. cbn [negb].
    rewrite take_app_length' by (by rewrite be_encode_length).
    rewrite drop_app_length' by (by rewrite be_encode_length).
    rewrite <- (app_nil_r (be_encode 8 a)), <- (app_nil_r (be_encode 8 b)).
    by rewrite !BytesToUint64_encode.
  - unfold SplitGerKey, ConcatGerKey. case_decide.
    + rewrite be_encode_length. change ((8 =? 8)%nat) with true. cbn [negb andb].
      rewrite <- (app_nil_r (be_encode 8 a)). by rewrite BytesToUint64_encode.
    + rewrite length_app, be_encode_length, Hh. change ((8 + 32 =? 40)%nat) with true.
      change ((8 + 32 =? 8)%nat) with false. cbn [negb andb].
      rewrite take_app_length' by (by rewrite be_encode_length).
      rewrite drop_app_length' by (by rewrite be_encode_length).
      rewrite <- (app_nil_r (be_encode 8 a)). by rewrite BytesToUint64_encode.
Qed.

Lemma key_round_trip_witness :
  SplitKey (ConcatKey 7 9) = Ok (7, 9) /\
  SplitGerKey (ConcatGerKey 7 (1 :: replicate 31 0)) = Ok (7, Some (1 :: replicate 31 0)).
Proof.
  destruct (key_round_trip 7 9 (1 :: replicate 31 0)) as [H1 H2];
    [lia|lia|reflexivity|]. split; [exact H1|exact H2].
Defined.
