(* ===== verification/Hex.v ===== *)
(** * Hexadecimal strings

    Printing of numbers in base 16 as [fmt] and [math/big] do it, parsing as
    [big.Int.SetString] does it, and the helpers of
    erigon-lib/common/hexutil/hexutil.go.  Parsing undoes printing, so the hex
    keys and values of the in-memory node store lose nothing. *)
From Stdlib Require Import Ascii.
From S2P Require Import Prelude.

Definition hexDigit (n : Z) : ascii :=
  match String.get (Z.to_nat n) "0123456789abcdef" with Some c => c | None => "0"%char end.

Fixpoint hexDigits (k : nat) (z : Z) : string :=
  match k with
  | O => EmptyString
  | S k' => String (hexDigit (z / 16 ^ Z.of_nat k' mod 16)) (hexDigits k' z)
  end.

(** [fmt.Sprintf("%x", z)] *)
Definition FormatHex (z : Z) : string :=
  hexDigits (if z =? 0 then 1 else Z.to_nat (Z.log2 z / 4 + 1)) z.

(** [uint256.Int.Hex] *)
Definition Hex (z : Z) : string := String "0" (String "x" (FormatHex z)).

Definition Remove0xPrefixIfExists (value : string) : string :=
  match value with
  | String a (String b rest) =>
      if Ascii.eqb a "0" && (Ascii.eqb b "x" || Ascii.eqb b "X") then rest else value
  | _ => value
  end.

Definition AddLeadingZeroToHexValueForByteCompletion (value : string) : string :=
  if Nat.odd (String.length value) then String "0" value else value.

Definition slen (s : string) : Z := Z.of_nat (String.length s).

(** A digit as [SetString(_, 16)] reads it. *)
Definition hexVal (c : ascii) : option Z :=
  let n := Z.of_nat (nat_of_ascii c) in
  if (48 <=? n) && (n <=? 57) then Some (n - 48)
  else if (97 <=? n) && (n <=? 102) then Some (n - 87)
  else if (65 <=? n) && (n <=? 70) then Some (n - 55)
  else None.

Fixpoint parseDigits (acc : Z) (s : string) : option Z :=
  match s with
  | EmptyString => Some acc
  | String c s => d ← hexVal c; parseDigits (acc * 16 + d) s
  end.

Definition parseNat (s : string) : option Z :=
  match s with EmptyString => None | _ => parseDigits 0 s end.

(** [new(big.Int).SetString(s, 16)]: [None] is the nil result of a failure. *)
Definition ParseHex (s : string) : option Z :=
  match s with
  | String c rest =>
      if Ascii.eqb c "-" then Z.opp <$> parseNat rest
      else if Ascii.eqb c "+" then parseNat rest
      else parseNat s
  | EmptyString => None
  end.

Lemma hexDigits_length k z : String.length (hexDigits k z) = k.
Proof. induction k; simpl; auto. Qed.


(** ** Parsing undoes printing *)

Lemma hexVal_hexDigit n : 0 <= n < 16 -> hexVal (hexDigit n) = Some n.
Proof.
  intros Hn. assert (forallb (fun k => match hexVal (hexDigit (Z.of_nat k)) with
    Some m => m =? Z.of_nat k | None => false end) (seq 0 16) = true) as H by reflexivity.
  rewrite forallb_forall in H. specialize (H (Z.to_nat n)).
  rewrite Z2Nat.id in H by lia. destruct (hexVal (hexDigit n)) as [m|].
  - f_equal. apply Z.eqb_eq, H, in_seq. lia.
  - discriminate H. apply in_seq. lia.
Qed.

Lemma parseDigits_hexDigits k : forall acc z, 0 <= z ->
  parseDigits acc (hexDigits k z) = Some (acc * 16 ^ Z.of_nat k + z mod 16 ^ Z.of_nat k).
Proof.
  induction k as [|k IH]; intros acc z Hz; [simpl; rewrite Z.mod_1_r; f_equal; lia|].
  cbn [hexDigits parseDigits]. rewrite hexVal_hexDigit by (apply Z.mod_pos_bound; lia). simpl.
  rewrite IH by done. f_equal. rewrite Nat2Z.inj_succ, Z.pow_succ_r by lia.
  rewrite (Z.mul_comm 16), Z.rem_mul_r by lia. lia.
Qed.

Lemma FormatHex_fits z : 0 <= z ->
  z < 16 ^ Z.of_nat (if z =? 0 then 1 else Z.to_nat (Z.log2 z / 4 + 1)).
Proof.
  intros Hz. destruct (Z.eqb_spec z 0) as [->|]; [done|].
  pose proof (Z.log2_nonneg z). pose proof (Z.div_pos (Z.log2 z) 4 ltac:(lia) ltac:(lia)).
  rewrite Z2Nat.id by lia. change 16 with (2 ^ 4). rewrite <- Z.pow_mul_r by lia.
  destruct (Z.log2_spec z ltac:(lia)) as [_ Hlt]. eapply Z.lt_le_trans; [exact Hlt|].
  apply Z.pow_le_mono_r; [lia|]. pose proof (Z.div_mod (Z.log2 z) 4 ltac:(lia)).
  pose proof (Z.mod_pos_bound (Z.log2 z) 4 ltac:(lia)). lia.
Qed.

Lemma hexDigit_plain n : 0 <= n < 16 -> Ascii.eqb (hexDigit n) "-" = false /\ Ascii.eqb (hexDigit n) "+" = false.
Proof.
  intros Hn. pose proof (hexVal_hexDigit n Hn) as H.
  split; apply Ascii.eqb_neq; intros E; rewrite E in H; discriminate H.
Qed.

Lemma ParseHex_FormatHex z : 0 <= z -> ParseHex (FormatHex z) = Some z.
Proof.
  intros Hz. pose proof (FormatHex_fits z Hz) as Hfit. unfold FormatHex.
  destruct (if z =? 0 then 1%nat else Z.to_nat (Z.log2 z / 4 + 1)) as [|k] eqn:Ek.
  - simpl in Hfit. assert (z = 0) as -> by lia. discriminate Ek.
  - pose proof (parseDigits_hexDigits (S k) 0 z Hz) as Hp. rewrite Z.mod_small in Hp by lia.
    cbn [hexDigits] in *. unfold ParseHex.
    destruct (hexDigit_plain (z / 16 ^ Z.of_nat k mod 16)) as [-> ->]; [apply Z.mod_pos_bound; lia|].
    exact Hp.
Qed.

Lemma FormatHex_inj a b : 0 <= a -> 0 <= b -> FormatHex a = FormatHex b -> a = b.
Proof.
  intros Ha Hb H. apply (f_equal ParseHex) in H. rewrite !ParseHex_FormatHex in H by done. by injection H.
Qed.
