(* ===== verification/CounterBase.v ===== *)
(** * Prover counters: the data and the collector (core/vm/zk_counters.go)

    The zkEVM prover has eight resources (steps, arithmetic, binary, memory
    alignment, keccak, padding, poseidon, sha256).  A [CounterCollector] keeps
    one [Counter] per resource; the whole component only ever changes it through
    [Deduct].  This file has the data, [Deduct], the guarded loop [multiCall],
    and the calculus of "spending" that the opcode file and the batch file
    use. *)
From S2P Require Import Prelude Float64.

(** ** Data *)

Inductive CounterKey := kS | kA | kB | kM | kK | kD | kP | kSHA.

#[export] Instance CounterKey_eq_dec : EqDecision CounterKey.
Proof. solve_decision. Defined.

Definition keyIndex (k : CounterKey) : nat :=
  match k with
  | kS => 0 | kA => 1 | kB => 2 | kM => 3 | kK => 4 | kD => 5 | kP => 6 | kSHA => 7
  end.

Definition CounterTypesCount : nat := 8.

Definition CounterKeyNames : list string := ["S"; "A"; "B"; "M"; "K"; "D"; "P"; "SHA"].

Record Counter := mkCounter {
  remaining : Z;
  used : Z;
  name : string;
  initialAmount : Z;
}.

(** A slice of pointers to counters.  Every collector builds its eight counters
    afresh, so no two slots share one. *)
Abbreviation Counters := (list Counter).

(** What the counters read of a transaction (the methods of [types.Transaction]
    that they call). *)
Record Transaction := mkTransaction {
  GetNonce : Z;
  GetPrice : Z;
  GetGas : Z;
  GetTo : option Z;
  GetValue : Z;
  GetData : list Z;
  GetChainID : Z;
  Protected : bool;
  RawV : Z;
  RawR : Z;
  RawS : Z;
}.

(** [CommonTx.IsContractDeploy] *)
Definition IsContractDeploy (tx : Transaction) : bool :=
  match GetTo tx with None => true | Some _ => false end.

Record CounterCollector := mkCollector {
  counters : Counters;
  smtLevels : Z;
  isDeploy : bool;
  transaction : option Transaction;
  forkId : Z;
}.

(** ** Operations on counters *)

Definition Counter_Clone (c : Counter) : Counter :=
  {| remaining := remaining c; used := used c; name := name c;
     initialAmount := initialAmount c |}.

Definition Used (c : Counter) : Z := used c.
Definition Limit (c : Counter) : Z := initialAmount c.

Definition set_used (n : Z) (c : Counter) : Counter :=
  {| remaining := remaining c; used := n; name := name c; initialAmount := initialAmount c |}.

(** The used field is reset, the remaining one is not. *)
Definition NullateUsed (cs : Counters) : Counters := map (set_used 0) cs.

Definition UsedAsArray (cs : Counters) : list Z := map used cs.

(** [res := Counters{}] has length zero, and the loop then assigns [res[k]]. *)
Definition NewCountersFromUsedArray (us : list Z) : outcome Counters :=
  foldl (fun acc kv => res ← acc; store res (fst kv)
           {| remaining := 0; used := snd kv; name := ""; initialAmount := 0 |})
    (Ok []) (imap pair us).

Definition Counters_Clone (cs : Counters) : outcome Counters :=
  foldl (fun acc kv => res ← acc; store res (fst kv) (Counter_Clone (snd kv)))
    (Ok []) (imap pair cs).

(** ** The collector *)

Definition set_counters (cs : Counters) (cc : CounterCollector) : CounterCollector :=
  {| counters := cs; smtLevels := smtLevels cc; isDeploy := isDeploy cc;
     transaction := transaction cc; forkId := forkId cc |}.

Definition isOverflown (cc : CounterCollector) : bool :=
  existsb (fun c => remaining c <? 0) (counters cc).

(** [2 ^ smtMaxLevel + 50000] has [Z.log2 _ + 1] binary digits. *)
Definition calculateSmtLevels (smtMaxLevel minValue : Z) (mcpReduction : f64) : Z :=
  let binary := 2 ^ smtMaxLevel + 50000 in
  let binaryLength := Z.log2 binary + 1 in
  let binaryLength := if binaryLength <? minValue then minValue else binaryLength in
  Floor (fmul (of_int binaryLength) mcpReduction).

Definition SetTransaction (tx : Transaction) (cc : CounterCollector) : CounterCollector :=
  {| counters := counters cc; smtLevels := smtLevels cc; isDeploy := IsContractDeploy tx;
     transaction := Some tx; forkId := forkId cc |}.

(** [used] and [remaining] are Go [int]s.  The amount is wrapped with them: an
    amount that overflowed before the call gives the same sums. *)
Definition deduct_counter (amount : Z) (c : Counter) : Counter :=
  {| remaining := i64 (remaining c - amount); used := i64 (used c + amount);
     name := name c; initialAmount := initialAmount c |}.

Definition Deduct (key : CounterKey) (amount : Z) (cc : CounterCollector) : CounterCollector :=
  set_counters (alter (deduct_counter amount) (keyIndex key) (counters cc)) cc.

(** The copy leaves [forkId] at its zero value, and the loop assigns into the
    empty slice. *)
Definition Collector_Clone (cc : CounterCollector) : outcome CounterCollector :=
  cs ← Counters_Clone (counters cc);
  Ok {| counters := cs; smtLevels := smtLevels cc; isDeploy := isDeploy cc;
        transaction := transaction cc; forkId := 0 |}.

(** Statements of a method body run in order on the collector. *)
Definition Op := CounterCollector -> CounterCollector.
Definition andThen (f g : Op) : Op := fun cc => g (f cc).
Definition skipOp : Op := fun cc => cc.
(** A statement that reads the collector's own fields. *)
Definition reading (f : CounterCollector -> Op) : Op := fun cc => f cc cc.

Declare Scope op_scope.
Delimit Scope op_scope with op.
Bind Scope op_scope with Op.
Notation "a ;; b" := (andThen a b) : op_scope.
Open Scope op_scope.

(** The loop stops early, every thousand rounds, once a counter is negative. *)
Fixpoint multiCallFrom (call : Op) (i : Z) (n : nat) (cc : CounterCollector) : CounterCollector :=
  match n with
  | O => cc
  | S n' =>
      if (i mod 1000 =? 0) && isOverflown cc then cc
      else multiCallFrom call (i + 1) n' (call cc)
  end.

Definition multiCall (call : Op) (times : Z) : Op :=
  multiCallFrom call 0 (Z.to_nat times).

(** ** Spending

    [spent w cc cc']: the collector [cc'] is [cc] after [w k] has been deducted
    from each counter [k]. *)

Definition keyAt (i : nat) : CounterKey :=
  match i with
  | 0 => kS | 1 => kA | 2 => kB | 3 => kM | 4 => kK | 5 => kD | 6 => kP | _ => kSHA
  end%nat.

Definition spent (w : CounterKey -> Z) (cc cc' : CounterCollector) : Prop :=
  counters cc' = imap (fun i c => deduct_counter (w (keyAt i)) c) (counters cc) /\
  smtLevels cc' = smtLevels cc /\ isDeploy cc' = isDeploy cc /\
  transaction cc' = transaction cc /\ forkId cc' = forkId cc.

(** A collector in the state its constructors and operations keep it in: eight
    counters, each an [int] pair whose sum is the initial amount modulo 2^64. *)
Definition counter_wf (c : Counter) : Prop :=
  i64 (remaining c) = remaining c /\ i64 (used c) = used c /\
  i64 (remaining c + used c) = initialAmount c.

Definition wf (cc : CounterCollector) : Prop :=
  length (counters cc) = CounterTypesCount /\ Forall counter_wf (counters cc).

(** Bounds on the configuration the collector was built with. *)
Definition params_ok (cc : CounterCollector) : Prop := 0 <= smtLevels cc <= 2 ^ 10.

(** An operation that deducts at most [n] from each counter, and never adds. *)
Class Spends (f : Op) (n : Z) : Prop := {
  spends_nonneg : 0 <= n;
  spends : forall cc, wf cc -> params_ok cc ->
    exists w, spent w cc (f cc) /\ forall k, 0 <= w k <= n;
}.

Lemma deduct_counter_0 c : counter_wf c -> deduct_counter 0 c = c.
Proof.
  intros (H1 & H2 & _). destruct c; unfold deduct_counter; simpl in *.
  rewrite Z.sub_0_r, Z.add_0_r. congruence.
Qed.

Lemma deduct_counter_add a b c :
  deduct_counter b (deduct_counter a c) = deduct_counter (a + b) c.
Proof.
  unfold deduct_counter; simpl. f_equal; autorewrite with go_int.
  - replace (i64 (remaining c - a) - b) with (i64 (remaining c - a) + - b) by lia.
    rewrite i64_i64_add. f_equal. lia.
  - f_equal. lia.
Qed.

Lemma deduct_counter_wf a c : counter_wf c -> counter_wf (deduct_counter a c).
Proof.
  intros (H1 & H2 & H3). unfold counter_wf, deduct_counter; simpl.
  rewrite !i64_idem. split; [done|]. split; [done|].
  rewrite i64_i64_add, i64_add_i64. rewrite <- H3. f_equal. lia.
Qed.

Lemma spent_wf w cc cc' : wf cc -> spent w cc cc' -> wf cc'.
Proof.
  intros [Hl Hc] [E _]. unfold wf. rewrite E, length_imap. split; [done|].
  apply Forall_lookup. intros i c Hi. rewrite list_lookup_imap in Hi.
  destruct (counters cc !! i) as [c0|] eqn:E0; simplify_eq/=.
  apply deduct_counter_wf. by eapply Forall_lookup_1.
Qed.

Lemma spent_params w cc cc' : params_ok cc -> spent w cc cc' -> params_ok cc'.
Proof. intros H (_ & E & _). unfold params_ok. by rewrite E. Qed.

Lemma spent_refl cc : wf cc -> spent (fun _ => 0) cc cc.
Proof.
  intros [_ Hc]. repeat split. apply list_eq. intros i. rewrite list_lookup_imap.
  destruct (counters cc !! i) as [c|] eqn:E; simpl; [|done].
  rewrite deduct_counter_0; [done|by eapply Forall_lookup_1].
Qed.

Lemma spent_trans w1 w2 cc1 cc2 cc3 :
  spent w1 cc1 cc2 -> spent w2 cc2 cc3 -> spent (fun k => w1 k + w2 k) cc1 cc3.
Proof.
  intros (E1 & S1 & D1 & T1 & F1) (E2 & S2 & D2 & T2 & F2).
  split; [|repeat split; congruence].
  rewrite E2, E1. apply list_eq. intros i. rewrite !list_lookup_imap.
  destruct (counters cc1 !! i) as [c|]; simpl; [|done]. by rewrite deduct_counter_add.
Qed.

Lemma keyIndex_keyAt k : keyAt (keyIndex k) = k.
Proof. by destruct k. Qed.

Lemma keyAt_keyIndex i : (i < CounterTypesCount)%nat -> keyIndex (keyAt i) = i.
Proof. unfold CounterTypesCount. do 8 (destruct i; [done|]). lia. Qed.

Lemma spent_deduct key a cc :
  wf cc -> spent (fun k => if decide (k = key) then a else 0) cc (Deduct key a cc).
Proof.
  intros [Hl Hc]. repeat split. simpl. apply list_eq. intros i. rewrite list_lookup_imap.
  destruct (decide (keyIndex key = i)) as [<-|Hne].
  - rewrite list_lookup_alter_eq. by rewrite keyIndex_keyAt, decide_True.
  - rewrite list_lookup_alter_ne by done.
    destruct (counters cc !! i) as [c|] eqn:E; simpl; [|done].
    pose proof (lookup_lt_Some _ _ _ E) as Hi. rewrite Hl in Hi.
    rewrite decide_False, deduct_counter_0; [done|by eapply Forall_lookup_1|].
    intros <-. by rewrite keyAt_keyIndex in Hne.
Qed.

(** ** The calculus: how the statements of the sources spend *)

Create HintDb spends discriminated.

Lemma spends_deduct k a : 0 <= a -> Spends (Deduct k a) a.
Proof.
  intros Ha. split; [done|]. intros cc Hwf _. eexists. split; [by apply spent_deduct|].
  intros k'. simpl. case_decide; lia.
Qed.

Lemma spends_skip : Spends skipOp 0.
Proof.
  split; [done|]. intros cc Hwf _. eexists. split; [by apply spent_refl|]. simpl. lia.
Qed.

Lemma spends_seq f g n m : Spends f n -> Spends g m -> Spends (f ;; g) (n + m).
Proof.
  intros [Hn Hf] [Hm Hg]. split; [lia|]. intros cc Hwf Hp.
  destruct (Hf cc Hwf Hp) as (w1 & H1 & B1).
  destruct (Hg (f cc)) as (w2 & H2 & B2); [by eapply spent_wf|by eapply spent_params|].
  exists (fun k => w1 k + w2 k). split; [by eapply spent_trans|].
  intros k. specialize (B1 k). specialize (B2 k). lia.
Qed.

Lemma spends_le f n m : Spends f n -> n <= m -> Spends f m.
Proof.
  intros [Hn Hf] Hle. split; [lia|]. intros cc Hwf Hp.
  destruct (Hf cc Hwf Hp) as (w & Hs & B). exists w. split; [done|].
  intros k. specialize (B k). lia.
Qed.

Lemma spends_if (b : bool) f g n m :
  Spends f n -> Spends g m -> Spends (if b then f else g) (n + m).
Proof.
  intros Hf Hg. pose proof (@spends_nonneg _ _ Hf). pose proof (@spends_nonneg _ _ Hg).
  destruct b; [eapply (spends_le f n)|eapply (spends_le g m)]; eauto; lia.
Qed.

Lemma spends_reading (F : CounterCollector -> Op) n :
  (forall cc, params_ok cc -> Spends (F cc) n) -> 0 <= n -> Spends (reading F) n.
Proof.
  intros HF Hn. split; [done|]. intros cc Hwf Hp. exact (@spends _ _ (HF cc Hp) cc Hwf Hp).
Qed.

(** A branch on the collector's own fields. *)
Lemma spends_reading_if (b : CounterCollector -> bool) f g n m :
  Spends f n -> Spends g m -> Spends (reading (fun cc => if b cc then f else g)) (n + m).
Proof.
  intros Hf Hg. pose proof (@spends_nonneg _ _ Hf). pose proof (@spends_nonneg _ _ Hg).
  apply spends_reading; [|lia]. intros cc _. by apply spends_if.
Qed.

(** A deduction proportional to the height of the state tree. *)
Lemma spends_levels k c :
  0 <= c -> Spends (reading (fun cc => Deduct k (c * smtLevels cc))) (c * 2 ^ 10).
Proof.
  intros Hc. apply spends_reading; [|lia]. intros cc Hp. unfold params_ok in Hp.
  eapply spends_le; [apply spends_deduct|]; nia.
Qed.

Lemma spends_level k : Spends (reading (fun cc => Deduct k (smtLevels cc))) (2 ^ 10).
Proof.
  apply spends_reading; [|lia]. intros cc Hp. unfold params_ok in Hp.
  eapply spends_le; [apply spends_deduct|]; lia.
Qed.

(** What a prefix of [m] rounds does; [multiCall] and plain loops are such
    prefixes. *)
Lemma spends_iter f n m :
  Spends f n -> Spends (Nat.iter m f) (Z.of_nat m * n).
Proof.
  intros Hf. pose proof (@spends_nonneg _ _ Hf). induction m as [|m IH].
  - apply spends_skip.
  - eapply spends_le; [apply (spends_seq (Nat.iter m f) f _ _ IH Hf)|lia].
Qed.

Lemma iter_succ_r {A} (f : A -> A) m x : Nat.iter (S m) f x = Nat.iter m f (f x).
Proof. induction m as [|m IH]; [done|]. simpl in *. by rewrite IH. Qed.

(** [multiCall] runs some number of the requested rounds; fewer only if it
    stopped on an overflow, at a round whose index is a multiple of 1000. *)
Lemma multiCallFrom_prefix f n : forall i cc,
  exists m, (m <= n)%nat /\ multiCallFrom f i n cc = Nat.iter m f cc /\
    (m = n \/ isOverflown (Nat.iter m f cc) = true) /\
    forall j, (j < m)%nat -> (i + Z.of_nat j) mod 1000 = 0 ->
      isOverflown (Nat.iter j f cc) = false.
Proof.
  induction n as [|n IH]; intros i cc.
  { exists 0%nat. repeat split; [lia|by left|]. lia. }
  cbn [multiCallFrom].
  destruct ((i mod 1000 =? 0) && isOverflown cc) eqn:E.
  { exists 0%nat. apply andb_true_iff in E as [_ E]. repeat split; [lia|by right|]. lia. }
  destruct (IH (i + 1) (f cc)) as (m & Hm & Heq & Hor & Hj).
  exists (S m). rewrite iter_succ_r. split; [lia|]. split; [done|]. split.
  { destruct Hor as [->|Ho]; [by left|by right]. }
  intros [|j] Hlt Hmod.
  - simpl. replace (i + Z.of_nat 0) with i in Hmod by lia.
    apply Z.eqb_eq in Hmod. rewrite Hmod in E. by apply andb_false_iff in E as [|].
  - rewrite iter_succ_r. apply Hj; [lia|]. rewrite <- Hmod. f_equal. lia.
Qed.

Lemma spends_multiCall f n t :
  Spends f n -> 0 <= t -> Spends (multiCall f t) (t * n).
Proof.
  intros Hf Ht. pose proof (@spends_nonneg _ _ Hf). split; [nia|]. intros cc Hwf Hp.
  destruct (multiCallFrom_prefix f (Z.to_nat t) 0 cc) as (m & Hm & Heq & _ & _).
  unfold multiCall. rewrite Heq.
  assert (Spends (Nat.iter m f) (t * n)) as [_ Hi].
  { eapply spends_le; [by apply spends_iter|]. nia. }
  by apply Hi.
Qed.

Lemma spends_loop f n t : Spends f n -> 0 <= t -> Spends (loop t f) (t * n).
Proof.
  intros Hf Ht. pose proof (@spends_nonneg _ _ Hf).
  eapply spends_le; [by apply spends_iter|]. nia.
Qed.

#[export] Hint Resolve spends_deduct spends_skip spends_seq spends_if spends_reading_if
  spends_levels spends_level spends_multiCall spends_loop : spends.
#[export] Hint Extern 1 (_ <= _) => lia : spends.

(** [spend]: derive the bound of a composite operation and compare it with the
    stated one. *)
Ltac spend :=
  intros; eapply spends_le; [eauto 40 with spends nocore|try lia].
