(* ===== verification/CounterLimits.v ===== *)
(** * Prover counters: the limits per fork (core/vm/zk_counters_limits.go) *)
From S2P Require Import Prelude Float64 CounterBase.

Definition ForkID10 : Z := 10.
Definition ForkID11 : Z := 11.

Definition stepDeduction : Z := 200.
(** The decimal constants, as the compiler rounds them to float64. *)
Definition baseSafetyPercentage : f64 := round_ratio 5 100.
Definition safetyPercentages : gmap Z f64 :=
  <[ForkID10 := round_ratio 25 1000]> (<[ForkID11 := round_ratio 125 10000]> ∅).

Definition preForkId10TotalSteps : Z := Z.shiftl 1 23.
Definition forkId10TotalSteps : Z := Z.shiftl 1 24.
Definition forkId11TotalSteps : Z := Z.shiftl 1 25.

Record counterLimits := mkLimits {
  totalSteps : Z; arith : Z; binary : Z; memAlign : Z;
  keccaks : Z; padding : Z; poseidon : Z; sha256 : Z;
}.

Definition MaxInt32 : Z := 2 ^ 31 - 1.
Definition unlimitedCounters : counterLimits :=
  mkLimits MaxInt32 MaxInt32 MaxInt32 MaxInt32 MaxInt32 MaxInt32 MaxInt32 MaxInt32.

Definition newCounter (n : string) (amount : Z) : Counter :=
  {| remaining := amount; used := 0; name := n; initialAmount := amount |}.

Definition createCountrsByLimits (c : counterLimits) : Counters :=
  [ newCounter "defaultTotalSteps" (totalSteps c);
    newCounter "arith" (arith c);
    newCounter "binary" (binary c);
    newCounter "memAlign" (memAlign c);
    newCounter "keccaks" (keccaks c);
    newCounter "padding" (padding c);
    newCounter "poseidon" (poseidon c);
    newCounter "sha256" (sha256 c) ].

Definition getTotalSteps (forkId : Z) : Z :=
  if forkId <? ForkID10 then preForkId10TotalSteps
  else
    let totalSteps :=
      if forkId =? ForkID10 then forkId10TotalSteps
      else if ForkID11 <=? forkId then forkId11TotalSteps
      else 0 in
    totalSteps - stepDeduction.

Definition applyDeduction (fork input : Z) : Z :=
  let deduction :=
    match safetyPercentages !! fork with
    | Some d => d
    | None => baseSafetyPercentage
    end in
  let asFloat := of_int input in
  let reduction := fmul asFloat deduction in
  let newValue := fsub asFloat reduction in
  Ceil newValue.

(** [math.Floor(x) * 44] is a float64 product of integers; below 2^53 it is the
    integer product. *)
Definition getCounterLimits (forkId : Z) : Counters :=
  let totalSteps := getTotalSteps forkId in
  createCountrsByLimits {|
    totalSteps := applyDeduction forkId totalSteps;
    arith := applyDeduction forkId (Z.shiftr totalSteps 5);
    binary := applyDeduction forkId (Z.shiftr totalSteps 4);
    memAlign := applyDeduction forkId (Z.shiftr totalSteps 5);
    keccaks := applyDeduction forkId
      (Floor (fmul (of_int (floor_div_f totalSteps 155286)) (of_int 44)));
    padding := applyDeduction forkId (floor_div_f totalSteps 56);
    poseidon := applyDeduction forkId (floor_div_f totalSteps 31);
    sha256 := applyDeduction forkId (floor_div_f (totalSteps - 1) 31488 * 7);
  |}.

Definition NewUnlimitedCounterCollector : CounterCollector :=
  {| counters := createCountrsByLimits unlimitedCounters; smtLevels := 256;
     isDeploy := false; transaction := None; forkId := 0 |}.

Definition NewCounterCollector (levels fork : Z) : CounterCollector :=
  {| counters := getCounterLimits fork; smtLevels := levels;
     isDeploy := false; transaction := None; forkId := fork |}.

Arguments applyDeduction : simpl never.
Arguments getCounterLimits : simpl never.

(** ** The limits in exact arithmetic *)

(** The safety margin in parts of ten thousand: 5%, 2.5% for fork 10, 1.25% for fork 11. *)
Definition margin (forkId : Z) : Z := if forkId =? 10 then 250 else if forkId =? 11 then 125 else 500.

(** What is left of [n] after the margin, rounded up. *)
Definition deducted (forkId n : Z) : Z := cdiv (n * (10000 - margin forkId)) 10000.

Definition exactSteps (forkId : Z) : Z :=
  if forkId <? 10 then 2 ^ 23 else (if forkId =? 10 then 2 ^ 24 else 2 ^ 25) - 200.

(** The eight limits, in the order of the keys. *)
Definition exactLimits (forkId : Z) : list Z :=
  let s := exactSteps forkId in
  map (deducted forkId) [s; s / 32; s / 16; s / 32; s / 155286 * 44; s / 56; s / 31; (s - 1) / 31488 * 7].

Lemma margin_bounds f : 125 <= margin f <= 500.
Proof. unfold margin. repeat case_match; lia. Qed.

Lemma exactSteps_bounds f : 2 ^ 23 <= exactSteps f < 2 ^ 26.
Proof. unfold exactSteps. repeat case_match; lia. Qed.

Lemma safetyPercentages_other f : f <> 10 -> f <> 11 -> safetyPercentages !! f = None.
Proof.
  intros H0 H1. unfold safetyPercentages, ForkID10, ForkID11.
  by rewrite !lookup_insert_ne, lookup_empty by done.
Qed.

(** The float64 computation of the margin is exact. *)
Lemma applyDeduction_exact f n : 0 <= n < 2 ^ 40 -> applyDeduction f n = deducted f n.
Proof.
  intros Hn. destruct (decide (n = 0)) as [->|Hn0].
  { unfold deducted. rewrite Z.mul_0_l. unfold applyDeduction. change (of_int 0) with (F64 0 0). unfold fmul, fsub. cbv zeta. by rewrite !Z.mul_0_l. }
  assert (forall b g M s p, p = F64 M (- s) -> 2 <= b <= 80 -> 0 <= s -> 2 ^ s <= b * M -> (b * M - 2 ^ s) * 2 ^ 54 <= 2 ^ s -> 0 < g ->
    b * g = 10000 -> margin f = g -> Ceil (fsub (of_int n) (fmul (of_int n) p)) = deducted f n) as Hshare.
  { intros b g M s p -> Hb Hs Hup Hclose Hg Hbg Hm. rewrite (deduct_exact b) by lia. unfold deducted. rewrite Hm, <- Hbg.
    replace (n * (b * g - g)) with (n * (b - 1) * g) by lia. symmetry. apply cdiv_scale; lia. }
  unfold applyDeduction. cbv zeta. destruct (decide (f = 10)) as [->|H10]; [|destruct (decide (f = 11)) as [->|H11]].
  - change (safetyPercentages !! 10) with (Some (round_ratio 25 1000)). by apply (Hshare 40 250 7205759403792794 58).
  - change (safetyPercentages !! 11) with (Some (round_ratio 125 10000)). by apply (Hshare 80 125 7205759403792794 59).
  - rewrite safetyPercentages_other by done. apply (Hshare 20 500 7205759403792794 57); try done.
    unfold margin. by rewrite (proj2 (Z.eqb_neq f 10)), (proj2 (Z.eqb_neq f 11)).
Qed.

Lemma getTotalSteps_exact f : getTotalSteps f = exactSteps f.
Proof.
  unfold getTotalSteps, exactSteps, ForkID10, ForkID11. destruct (Z.ltb_spec f 10); [done|]. destruct (Z.eqb_spec f 10); [done|].
  by rewrite (proj2 (Z.leb_le 11 f)) by lia.
Qed.

(** [math.Floor(float64(s)/155286)*44] *)
Lemma keccaks_exact s : 2 ^ 23 <= s < 2 ^ 26 -> Floor (fmul (of_int (floor_div_f s 155286)) (of_int 44)) = s / 155286 * 44.
Proof.
  intros Hs. rewrite floor_div_f_spec by lia. assert (1 <= s / 155286) by (apply Z.div_le_lower_bound; lia).
  assert (s / 155286 <= s) by (apply Z.div_le_upper_bound; lia). apply fmul_of_int_Floor; lia.
Qed.

Lemma deducted_bounds f n : 0 < n < 2 ^ 26 -> 0 < deducted f n < 2 ^ 26.
Proof. intros Hn. pose proof (margin_bounds f). unfold deducted. pose proof (cdiv_spec (n * (10000 - margin f)) 10000 ltac:(lia)). nia. Qed.

Lemma fresh_counter_wf n a : - 2 ^ 63 <= a < 2 ^ 63 -> counter_wf (newCounter n a).
Proof.
  intros Ha. unfold counter_wf; simpl. rewrite Z.add_0_r, !i64_small by lia. done.
Qed.

Lemma createCountrsByLimits_wf l :
  Forall (fun a => - 2 ^ 63 <= a < 2 ^ 63) (map initialAmount (createCountrsByLimits l)) ->
  Forall counter_wf (createCountrsByLimits l).
Proof.
  unfold createCountrsByLimits. cbn [map newCounter initialAmount]. rewrite !Forall_cons.
  intros. destruct_and!. repeat split; try (by apply Forall_nil); by apply fresh_counter_wf.
Qed.

(** Nothing is used yet, so what remains is the limit. *)
Lemma createCountrsByLimits_fresh l :
  map remaining (createCountrsByLimits l) = map initialAmount (createCountrsByLimits l) /\
  Forall (fun c => used c = 0) (createCountrsByLimits l).
Proof. split; [done|]. unfold createCountrsByLimits. repeat (apply Forall_cons; split; [done|]). by apply Forall_nil. Qed.

(** What the limits are taken from. *)
Lemma exactInputs_bounds f : let s := exactSteps f in
  Forall (fun n => 0 < n < 2 ^ 26) [s; s / 32; s / 16; s / 32; s / 155286 * 44; s / 56; s / 31; (s - 1) / 31488 * 7].
Proof.
  intros s. pose proof (exactSteps_bounds f : 2 ^ 23 <= s < 2 ^ 26) as Hs.
  repeat (apply Forall_cons; split); [lia|Z.to_euclidean_division_equations; lia..|by apply Forall_nil].
Qed.

Lemma exactLimits_range f : Forall (fun a => 0 < a < 2 ^ 26) (exactLimits f).
Proof. unfold exactLimits. apply Forall_map. eapply Forall_impl; [apply exactInputs_bounds|]. intros n Hn. by apply deducted_bounds. Qed.

Lemma getCounterLimits_values f :
  map initialAmount (getCounterLimits f) = exactLimits f /\ Forall counter_wf (getCounterLimits f).
Proof.
  assert (map initialAmount (getCounterLimits f) = exactLimits f) as H.
  { unfold getCounterLimits, exactLimits. cbv zeta. rewrite getTotalSteps_exact. pose proof (exactSteps_bounds f) as Hs. pose proof (exactInputs_bounds f) as Hin.
    cbv zeta in Hin. set (s := exactSteps f) in *. clearbody s. rewrite keccaks_exact, !floor_div_f_spec, !Z.shiftr_div_pow2 by lia.
    change (2 ^ 5) with 32. change (2 ^ 4) with 16. rewrite !Forall_cons in Hin. destruct_and! Hin.
    cbn [createCountrsByLimits newCounter map initialAmount totalSteps arith binary memAlign keccaks padding poseidon sha256].
    by rewrite !applyDeduction_exact by lia. }
  split; [exact H|]. apply createCountrsByLimits_wf.
  change (createCountrsByLimits _) with (getCounterLimits f). rewrite H.
  eapply Forall_impl; [apply exactLimits_range|]. simpl. lia.
Qed.

Lemma NewCounterCollector_wf levels f : wf (NewCounterCollector levels f).
Proof. split; [done|]. apply getCounterLimits_values. Qed.

Lemma NewUnlimitedCounterCollector_wf : wf NewUnlimitedCounterCollector.
Proof.
  split; [done|]. apply createCountrsByLimits_wf.
  repeat (apply Forall_cons; split; [simpl; unfold MaxInt32; lia|]). by apply Forall_nil.
Qed.

Lemma NewCounterCollector_fresh levels f :
  map remaining (counters (NewCounterCollector levels f)) = exactLimits f /\
  Forall (fun c => used c = 0) (counters (NewCounterCollector levels f)).
Proof.
  destruct (getCounterLimits_values f) as [H1 _]. unfold getCounterLimits in H1. cbv zeta in H1.
  match type of H1 with map _ (createCountrsByLimits ?l) = _ =>
    destruct (createCountrsByLimits_fresh l) as [H3 H4] end.
  cbn [counters NewCounterCollector]. unfold getCounterLimits. cbv zeta.
  split; [by rewrite H3|exact H4].
Qed.

(** C23: the limits in float64 are those of exact arithmetic.  For every fork id and every
    input below 2^40, taking off the safety margin in float64 and rounding up, with the
    decimal constants 0.05, 0.025 and 0.0125 rounded to float64, gives the exact result for
    the margins of 5%, 2.5% (fork 10) and 1.25% (fork 11); and the eight limits of a new
    collector are the exact margins taken off the exact quotients of the number of steps,
    which is 2^23 below fork 10, 2^24 - 200 for fork 10 and 2^25 - 200 from fork 11 on.  The
    margin of the forks above 11 is again 5%.  Nothing is used yet. *)
Theorem counter_limits f levels :
  (forall n, 0 <= n < 2 ^ 40 -> applyDeduction f n = deducted f n) /\
  map initialAmount (counters (NewCounterCollector levels f)) = exactLimits f /\
  map remaining (counters (NewCounterCollector levels f)) = exactLimits f /\
  Forall (fun c => used c = 0) (counters (NewCounterCollector levels f)) /\
  wf (NewCounterCollector levels f).
Proof.
  split; [apply applyDeduction_exact|]. split; [apply getCounterLimits_values|].
  split; [apply NewCounterCollector_fresh|]. split; [apply NewCounterCollector_fresh|].
  apply NewCounterCollector_wf.
Qed.

Lemma counter_limits_witness :
  applyDeduction 11 1000 = 988 /\ map initialAmount (counters (NewCounterCollector 80 9)) !! 0%nat = Some 7969178.
Proof.
  destruct (counter_limits 11 80) as [Hd _]. destruct (counter_limits 9 80) as (_ & Hl & _). split.
  - rewrite Hd by lia. reflexivity.
  - rewrite Hl. reflexivity.
Defined.

(** A later fork can have less room.  All eight limits of every fork from 12
    on are strictly below those of fork 11, although the number of total steps
    is the same: the reduced safety margin is listed for forks 10 and 11 only. *)
Theorem limits_drop_after_fork11 f levels :
  12 <= f ->
  getTotalSteps f = getTotalSteps 11 /\
  Forall2 Z.lt (map initialAmount (counters (NewCounterCollector levels f)))
    (map initialAmount (counters (NewCounterCollector levels 11))).
Proof.
  intros Hf. split.
  - unfold getTotalSteps, ForkID10, ForkID11.
    rewrite (proj2 (Z.ltb_ge f 10)), (proj2 (Z.eqb_neq f 10)), (proj2 (Z.leb_le 11 f)) by lia. done.
  - cbn [counters NewCounterCollector]. rewrite !(proj1 (getCounterLimits_values _)). unfold exactLimits, deducted, margin, exactSteps.
    rewrite (proj2 (Z.ltb_ge f 10)), (proj2 (Z.eqb_neq f 10)), (proj2 (Z.eqb_neq f 11)) by lia.
    vm_compute. repeat (apply Forall2_cons; split; [done|]). by apply Forall2_nil.
Qed.

Lemma limits_drop_after_fork11_witness :
  getTotalSteps 12 = getTotalSteps 11 /\
  Forall2 Z.lt (map initialAmount (counters (NewCounterCollector 80 12)))
    (map initialAmount (counters (NewCounterCollector 80 11))).
Proof. exact (limits_drop_after_fork11 12 80 ltac:(lia)). Defined.
