(* ===== verification/ModExpCounters.v ===== *)
(** * Counters of the modexp precompile (core/vm/virtual_counters_util.go)

    [big.Int] values are pointers and some of these functions change their
    argument; such an argument is threaded through as an extra result. *)
From S2P Require Import Prelude Float64.

(** [big.NewInt(0).SetUint64(uint64(in))] *)
Definition newInt (n : Z) : Z := u64 n.

(** The first argument is not used, and the product starts from zero. *)
Definition newMul (x : Z) (vals : list Z) : Z := foldl Z.mul (newInt 0) vals.

Definition combineResults (nTimesOdd nTimesEven firstDiv halfLoop fullLoop : Z) : Z :=
  let stepsEven := nTimesEven * halfLoop in
  let stepsOdd := nTimesOdd * fullLoop in
  firstDiv + stepsEven + stepsOdd.

(** [for x > 0 { x >>= 256; length++ }] with the loop bounded by [fuel]; the
    result is the length and what is left in [x]. *)
Fixpoint lenLoop (fuel : nat) (x length : Z) : Z * Z :=
  match fuel with
  | O => (length, x)
  | S f => if 0 <? x then lenLoop f (Z.shiftr x 256) (length + 1) else (length, x)
  end.

Definition computeLenThisBase (x : Z) : Z * Z :=
  if x =? 0 then (1, x) else lenLoop (Z.to_nat (Z.log2 x + 1)) x 0.

(** The pointers [q_b_m] and [r_b_m] are used twice and three times: each call
    of [computeLenThisBase] sees what the previous one left. *)
Definition setupAndFirstDivCounters (lenB lenM q_b_m r_b_m : Z) : Z * Z * Z :=
  let '(lq1, q1) := computeLenThisBase q_b_m in
  let '(lr1, r1) := computeLenThisBase r_b_m in
  let steps := newInt 84 + newInt 2 + newMul (newInt 10) [newInt lenB]
    + newMul (newInt 3) [newInt lenM]
    + newMul (newInt (8 + 19 * lenM)) [newInt lq1]
    + newMul (newInt 12) [newInt lr1] in
  let '(lr2, r2) := computeLenThisBase r1 in
  let '(lq2, q2) := computeLenThisBase q1 in
  let binaries := newInt 4 - newInt lenM + newInt lr2
    + newMul (newInt 2) [newInt lq2; newInt lenM] in
  let '(lq3, _) := computeLenThisBase q2 in
  let ariths := newInt (lenM * lq3) in
  (steps, binaries, ariths).

Definition halfLoopCounters (lenB lenM lenE lenQE2 : Z) : Z * Z * Z :=
  let steps := newInt 153 + newMul (newInt 82) [newInt lenM]
    + newMul (newInt 6) [newInt lenE]
    + newInt (Z.quot (80 * lenM * (lenM - 1)) 2)
    + newMul (newInt 19) [newInt (lenM * lenM)]
    + newMul (newInt 25) [lenQE2] in
  let binaries := newInt 9 + newMul (newInt 6) [newInt lenM]
    + newInt (Z.quot (23 * lenM * (lenM - 1)) 2)
    + newMul (newInt 2) [newInt (lenM * lenM)]
    + newMul (newInt 3) [lenQE2] in
  let ariths := newInt (-1) + newMul (newInt 2) [newInt lenM]
    + newInt (Z.quot (2 * lenM * (lenM - 1)) 2)
    + newInt (lenM * lenM) in
  (steps, binaries, ariths).

Definition fullLoopCounters (lenB lenM lenE lenQE2 : Z) : Z * Z * Z :=
  let steps := newInt 263 + newMul (newInt 114) [newInt lenM]
    + newMul (newInt 6) [newInt lenE]
    + newInt (Z.quot (80 * lenM * (lenM - 1)) 2)
    + newMul (newInt 57) [newInt (lenM * lenM)]
    + newMul (newInt 25) [lenQE2] in
  let binaries := newInt 17 + newMul (newInt 3) [newInt lenM]
    + newInt (Z.quot (23 * lenM * (lenM - 1)) 2)
    + newMul (newInt 6) [newInt (lenM * lenM)]
    + newMul (newInt 3) [lenQE2] in
  let ariths := newInt (-1) + newMul (newInt 2) [newInt lenM]
    + newInt (Z.quot (2 * lenM * (lenM - 1)) 2)
    + newMul (newInt 3) [newInt (lenM * lenM)] in
  (steps, binaries, ariths).

(** [for E > 0 { nTimesOdd += E & 1; E >>= 1 }]: the count and what is left of
    [E]. *)
Fixpoint oddLoop (fuel : nat) (E nTimesOdd : Z) : Z * Z :=
  match fuel with
  | O => (nTimesOdd, E)
  | S f => if 0 <? E then oddLoop f (Z.shiftr E 1) (nTimesOdd + Z.land E 1) else (nTimesOdd, E)
  end.

(** [big.Int.Div] and [Mod] are Euclidean, as [Z.div] and [Z.modulo] are for the
    positive divisor [M].  The last result is the caller's exponent after the
    call. *)
Definition expectedModExpCounters (lenB lenE lenM B E M : Z) : (Z * Z * Z) * Z :=
  let q_b_m := B / M in
  let r_b_m := B mod M in
  let lenQE2 := u64 (floor_div_f lenE 2) in
  let '(nTimesOdd, E') := oddLoop (Z.to_nat (Z.log2 E + 1)) E 0 in
  let nTimesEven := u64 lenE * 256 in
  let '(stepFirstDiv, binaryFirstDiv, arithFirstDiv) :=
    setupAndFirstDivCounters lenB lenM q_b_m r_b_m in
  let '(stepHalfLoop, binaryHalfLoop, arithHalfLoop) :=
    halfLoopCounters lenB lenM lenE lenQE2 in
  let '(stepFullLoop, binaryFullLoop, arithFullLoop) :=
    fullLoopCounters lenB lenM lenE lenQE2 in
  let steps := combineResults nTimesOdd nTimesEven stepFirstDiv stepHalfLoop stepFullLoop in
  let binary := combineResults nTimesOdd nTimesEven binaryFirstDiv binaryHalfLoop binaryFullLoop in
  let arith := combineResults nTimesOdd nTimesEven arithFirstDiv arithHalfLoop arithFullLoop in
  ((steps, binary, arith), E').

(** ** What the functions compute *)

Lemma newMul_0 x vals : newMul x vals = 0.
Proof.
  unfold newMul. change (newInt 0) with 0. induction vals as [|v vs IH]; [done|exact IH].
Qed.

(** The loops end: the fuel is the bit length of what is shifted. *)
Lemma shiftr_lt x k : 0 < x -> 0 < k -> 0 <= Z.shiftr x k < x.
Proof.
  intros Hx Hk. rewrite Z.shiftr_div_pow2 by lia.
  assert (2 <= 2 ^ k) by (apply (Z.pow_le_mono_r 2 1 k); lia).
  split; [apply Z.div_pos; lia|apply Z.div_lt; lia].
Qed.

Lemma log2_shiftr_fuel x k fuel :
  0 < x -> 0 < k -> (Z.to_nat (Z.log2 x + 1) <= S fuel)%nat ->
  Z.shiftr x k = 0 \/ (0 < Z.shiftr x k /\ (Z.to_nat (Z.log2 (Z.shiftr x k) + 1) <= fuel)%nat).
Proof.
  intros Hx Hk Hf. pose proof (shiftr_lt x k Hx Hk) as [H0 _].
  destruct (decide (Z.shiftr x k = 0)) as [E|Hne]; [by left|right].
  split; [lia|]. pose proof (Z.log2_nonneg x). pose proof (Z.log2_nonneg (Z.shiftr x k)).
  assert (Z.log2 (Z.shiftr x k) < Z.log2 x); [|lia].
  pose proof (Z.log2_shiftr x k ltac:(lia)) as HL.
  assert (k <= Z.log2 x).
  { destruct (Z.le_gt_cases k (Z.log2 x)); [done|].
    rewrite Z.shiftr_eq_0 in Hne by lia. done. }
  lia.
Qed.

Lemma lenLoop_done fuel : forall x n,
  0 <= x -> (x = 0 \/ (Z.to_nat (Z.log2 x + 1) <= fuel)%nat) -> snd (lenLoop fuel x n) = 0.
Proof.
  induction fuel as [|f IH]; intros x n Hx Hf; cbn [lenLoop].
  - destruct Hf as [->|Hf]; [done|]. pose proof (Z.log2_nonneg x). lia.
  - destruct (Z.ltb_spec 0 x); [|simpl; lia].
    destruct Hf as [->|Hf]; [lia|]. apply IH; [pose proof (shiftr_lt x 256); lia|].
    destruct (log2_shiftr_fuel x 256 f) as [|[_ ]]; auto; lia.
Qed.

Lemma computeLenThisBase_clears x : 0 <= x -> snd (computeLenThisBase x) = 0.
Proof.
  intros Hx. unfold computeLenThisBase. destruct (Z.eqb_spec x 0); [done|].
  apply lenLoop_done; [done|by right].
Qed.

Lemma oddLoop_done fuel : forall E n,
  0 <= E -> (E = 0 \/ (Z.to_nat (Z.log2 E + 1) <= fuel)%nat) -> snd (oddLoop fuel E n) = 0.
Proof.
  induction fuel as [|f IH]; intros E n Hx Hf; cbn [oddLoop].
  - destruct Hf as [->|Hf]; [done|]. pose proof (Z.log2_nonneg E). lia.
  - destruct (Z.ltb_spec 0 E); [|simpl; lia].
    destruct Hf as [->|Hf]; [lia|]. apply IH; [pose proof (shiftr_lt E 1); lia|].
    destruct (log2_shiftr_fuel E 1 f) as [|[_ ]]; auto; lia.
Qed.

(** The number of one bits of a natural number. *)
Fixpoint pop_count (p : positive) : Z :=
  match p with
  | xH => 1
  | xO p => pop_count p
  | xI p => pop_count p + 1
  end.
Definition popcount (z : Z) : Z := match z with Zpos p => pop_count p | _ => 0 end.

Lemma oddLoop_popcount fuel : forall E n,
  0 <= E -> (E = 0 \/ (Z.to_nat (Z.log2 E + 1) <= fuel)%nat) ->
  fst (oddLoop fuel E n) = n + popcount E.
Proof.
  induction fuel as [|f IH]; intros E n Hx Hf; cbn [oddLoop].
  - destruct Hf as [->|Hf]; [simpl; lia|]. pose proof (Z.log2_nonneg E). lia.
  - destruct (Z.ltb_spec 0 E); [|assert (E = 0) as -> by lia; simpl; lia].
    destruct Hf as [->|Hf]; [lia|].
    pose proof (log2_shiftr_fuel E 1 f ltac:(lia) ltac:(lia) Hf) as Hlog.
    rewrite IH; [|pose proof (shiftr_lt E 1); lia|destruct Hlog as [|[_ ]]; auto].
    destruct E as [|p|]; [lia| |lia].
    destruct p as [p|p|]; cbn [popcount pop_count].
    + change (Z.shiftr (Z.pos p~1) 1) with (Z.pos p). change (Z.land (Z.pos p~1) 1) with 1.
      cbn [popcount]. lia.
    + change (Z.shiftr (Z.pos p~0) 1) with (Z.pos p). change (Z.land (Z.pos p~0) 1) with 0.
      cbn [popcount]. lia.
    + change (Z.shiftr 1 1) with 0. change (Z.land 1 1) with 1. cbn [popcount]. lia.
Qed.

(** Modexp counters.  With the zero products the counters are closed formulas: nothing depends on
    the base, and only the steps depend on more than the modulus length through
    the exponent's length and its number of one bits. *)
Theorem expectedModExpCounters_closed lenB lenE lenM B E M :
  0 <= lenE < 2 ^ 20 -> 1 <= lenM < 2 ^ 20 -> 0 <= B -> 0 <= E -> 0 < M ->
  expectedModExpCounters lenB lenE lenM B E M =
    (let t := lenM * (lenM - 1) in
     (86 + 256 * lenE * (153 + 40 * t) + popcount E * (263 + 40 * t),
      5 - lenM + 256 * lenE * (9 + 23 * t / 2) + popcount E * (17 + 23 * t / 2),
      lenM + 256 * lenE * (2 ^ 64 - 1 + t + lenM * lenM)
        + popcount E * (2 ^ 64 - 1 + t)), 0).
Proof.
  intros HlE HlM HB HE HM. unfold expectedModExpCounters.
  assert (snd (oddLoop (Z.to_nat (Z.log2 E + 1)) E 0) = 0 /\
          fst (oddLoop (Z.to_nat (Z.log2 E + 1)) E 0) = popcount E) as [HO1 HO2].
  { split; [apply oddLoop_done|rewrite oddLoop_popcount]; auto; lia. }
  destruct (oddLoop _ _ _) as [no Er]; simpl in HO1, HO2; subst no Er.
  unfold setupAndFirstDivCounters.
  pose proof (computeLenThisBase_clears (B / M) ltac:(apply Z.div_pos; lia)) as Hq.
  pose proof (computeLenThisBase_clears (B mod M) ltac:(apply Z.mod_pos_bound; lia)) as Hr.
  destruct (computeLenThisBase (B / M)) as [lq1 q1], (computeLenThisBase (B mod M)) as [lr1 r1].
  simpl in Hq, Hr; subst q1 r1.
  change (computeLenThisBase 0) with (1, 0). cbv beta iota zeta. change (computeLenThisBase 0) with (1, 0).
  unfold halfLoopCounters, fullLoopCounters, combineResults. cbv beta iota zeta.
  rewrite !newMul_0.
  assert (0 <= lenM * (lenM - 1) < 2 ^ 40) by nia.
  set (t := lenM * (lenM - 1)) in *.
  replace (80 * lenM * (lenM - 1)) with (40 * t * 2) by lia.
  replace (2 * lenM * (lenM - 1)) with (t * 2) by lia.
  replace (23 * lenM * (lenM - 1)) with (23 * t) by lia.
  rewrite !Z.quot_mul, Z.quot_div_nonneg by lia.
  assert (0 <= 23 * t / 2 < 2 ^ 50) by (split; [apply Z.div_pos|apply Z.div_lt_upper_bound]; lia).
  assert (0 <= lenM * lenM < 2 ^ 40) by nia.
  unfold newInt. rewrite (u64_small lenE), (u64_small (40 * t)), (u64_small t),
    (u64_small (23 * t / 2)), (u64_small (lenM * lenM)), (u64_small lenM),
    (u64_small (lenM * 1)) by lia.
  change (u64 84) with 84. change (u64 2) with 2. change (u64 4) with 4. change (u64 1) with 1.
  change (u64 153) with 153. change (u64 263) with 263. change (u64 9) with 9.
  change (u64 17) with 17. change (u64 (-1)) with (2 ^ 64 - 1).
  f_equal. f_equal; [f_equal|]; lia.
Qed.

Lemma expectedModExpCounters_closed_witness :
  expectedModExpCounters 1 1 1 7 5 3 =
    ((86 + 256 * 153 + 2 * 263, 4 + 256 * 9 + 2 * 17,
      1 + 256 * 2 ^ 64 + 2 * (2 ^ 64 - 1)), 0).
Proof.
  rewrite (expectedModExpCounters_closed 1 1 1 7 5 3) by lia. reflexivity.
Defined.
