(* ===== verification/CounterOps.v ===== *)
(** * Prover counters: what each EVM operation spends (core/vm/zk_counters.go)

    One definition per method of [CounterCollector].  A method that only
    deducts is an [Op]; the handler of an opcode is an [executionFunc]: it reads
    the EVM stack and the interpreter's state, and either changes the collector
    or panics on a stack that is too short. *)
From S2P Require Import Prelude Float64 Bytes CounterBase ModExpCounters.

(** ** What the handlers read *)

Record ContractInfo := mkContract {
  IsCreate : bool;
  IsCreate2 : bool;
  CallerAddress : Z;
}.

(** [Stack] is [Stack.Data], the top of the stack last. *)
Record ScopeContext := mkScope {
  Stack : list Z;
  Contract : ContractInfo;
}.

(** The interpreter's [IntraBlockState], as the two queries the handlers make. *)
Record EVMInterpreter := mkInterpreter {
  GetCodeSize : Z -> Z;
  GetStateNonce : Z -> Z;
}.

(** [&st.Data[st.Len()-position]] *)
Definition PeekAt (st : list Z) (position : Z) : outcome Z :=
  index st (Z.of_nat (length st) - position).

(** [uint256.Int.Bytes20]: the low 160 bits. *)
Definition Bytes20 (z : Z) : Z := z mod 2 ^ 160.

Definition executionFunc :=
  EVMInterpreter -> ScopeContext -> CounterCollector -> outcome CounterCollector.

Definition ret (f : Op) : CounterCollector -> outcome CounterCollector := fun cc => Ok (f cc).

(** ** Constants *)

Definition MCPL : Z := 23.
Definition ForkId13Durian : Z := 13.

Definition fnec : Z := 0xFFFFFFFFFFFFFFFFFFFFFFFFFFFFFFFEBAAEDCE6AF48A03BBFD25E8CD0364141.
Definition fpec : Z := 0xFFFFFFFFFFFFFFFFFFFFFFFFFFFFFFFFFFFFFFFFFFFFFFFFFFFFFFFEFFFFFC2F.
Definition fnecMinusOne : Z := fnec - 1.
Definition fnecHalf : Z := fnec / 2.

(** The package variables of the secp256r1 curve.  [x.Sub(a, b)] stores its
    result in [x] and returns [x], so the three variables [SECP256R1_N],
    [SECP256R1_N_MINUS_ONE] and [SECP256R1_P_MINUS_ONE] are one and the same
    big integer; the heap below has one cell for it. *)
Definition secp256r1_N_hex : Z := 0xffffffff00000000ffffffffffffffffbce6faada7179e84f3b9cac2fc632551.
Definition SECP256R1_P : Z := 0xffffffff00000001000000000000000000000000ffffffffffffffffffffffff.
Definition SECP256R1_A : Z := 0xffffffff00000001000000000000000000000000fffffffffffffffffffffffc.
Definition SECP256R1_B : Z := 0x5ac635d8aa3a93e7b3ebbd55769886bc651d06b0cc53b0f63bce3c3e27d2604b.

Definition SECP256R1_N_cell : Z :=
  let cell := secp256r1_N_hex in
  let cell := cell - 1 in
  let cell := SECP256R1_P - 1 in
  cell.
Definition SECP256R1_N_MINUS_ONE : Z := SECP256R1_N_cell.
Definition SECP256R1_P_MINUS_ONE : Z := SECP256R1_N_cell.

(** The number of bytes from the first non-zero one on; all of them when there
    is none. *)
Fixpoint firstNonZero (input : list Z) (i : Z) : Z :=
  match input with
  | [] => 0
  | b :: rest => if b =? 0 then firstNonZero rest (i + 1) else i
  end.
Definition getRelevantNumberBytes (input : list Z) : Z :=
  Z.of_nat (length input) - firstNonZero input 0.

(** ** Helpers *)

Definition offsetUtil : Op :=
  Deduct kS 10 ;; Deduct kB 1.

Definition divArith : Op :=
  Deduct kS 40 ;; Deduct kB 3 ;; Deduct kA 1.

Definition SHRarith : Op :=
  Deduct kS 40 ;; Deduct kB 2 ;; Deduct kA 1 ;; divArith.

Definition SHLarith : Op :=
  Deduct kS 40 ;; Deduct kB 2 ;; Deduct kA 2.

Definition mLoadX : Op :=
  Deduct kS 30 ;; Deduct kB 2 ;; Deduct kM 1 ;; offsetUtil ;; SHRarith ;; SHLarith.

Definition opCode (scope : ScopeContext) : Op :=
  Deduct kS 12 ;;
  reading (fun cc =>
    if IsCreate (Contract scope) || IsCreate2 (Contract scope) || isDeploy cc
    then mLoadX ;; SHRarith else skipOp).

Definition addBatchHashData : Op :=
  Deduct kS 10.

Definition getLenBytes (l : Z) : Op :=
  Deduct kS (l * 7 + 12) ;; Deduct kB (l * 1) ;; multiCall SHRarith l.

Definition addHashTx : Op :=
  Deduct kS 10.

Definition addL2HashTx : Op :=
  Deduct kS 10.

Definition addBatchHashByteByByte : Op :=
  Deduct kS 25 ;; Deduct kB 1 ;; SHRarith ;; addBatchHashData.

Definition ecRecover (v r s : Z) (isPrecompiled : bool) : Op :=
  let upperLimit := if isPrecompiled then fnecMinusOne else fnecHalf in
  let fnecCheck := fnecMinusOne <? r in
  let upperLimitCheck := upperLimit <? s in
  if (u64 r =? 0) || (u64 s =? 0) || fnecCheck || upperLimitCheck
     || (negb (u64 v =? 27) && negb (u64 v =? 28))
  then Deduct kS 45 ;; Deduct kA 2 ;; Deduct kB 8
  else
    let rExp := u256 (r ^ 3) in
    let c := u256 (rExp + 7) mod fpec in
    (* a pointer: [Sqrt] returns its receiver *)
    match Some (Z.sqrt c) with
    | None => skipOp (* [r2.Uint64()] on a nil pointer: never reached *)
    | Some _ =>
        let r2 := 2 ^ 256 - 1 in
        if r2 <? fpec
        then Deduct kS 4527 ;; Deduct kA 1014 ;; Deduct kB 10
        else Deduct kS 6294 ;; Deduct kA 528 ;; Deduct kB 523 ;; Deduct kK 1
    end.

Definition failAssert : Op :=
  Deduct kS 2.

Definition consolidateBlock : Op :=
  Deduct kS 20 ;; Deduct kB 2 ;; Deduct kP (2 * MCPL).

Definition finishBatchProcessing : Op :=
  Deduct kS 200 ;; Deduct kK 2 ;; reading (fun cc => Deduct kP (smtLevels cc)) ;; Deduct kB 2.

Definition isColdAddress : Op :=
  Deduct kS 100 ;;
  reading (fun cc => if ForkId13Durian <=? forkId cc then Deduct kB (3 + 1) else Deduct kB (2 + 1)) ;;
  Deduct kP (2 * MCPL).

Definition addArith : Op :=
  Deduct kS 10 ;; Deduct kB 1.

Definition subArith : Op :=
  Deduct kS 10 ;; Deduct kB 1.

Definition mulArith : Op :=
  Deduct kS 40 ;; Deduct kB 1 ;; Deduct kA 1.

Definition fillBlockInfoTreeWithTxReceipt : Op :=
  Deduct kS 20 ;; Deduct kP (3 * MCPL).

Definition moveBalances (levels : Z) : Op :=
  Deduct kS 25 ;; Deduct kB (3 + 2) ;; Deduct kP (4 * levels).

Definition checkBytecodeStartsEF : Op :=
  Deduct kS 20 ;; mLoadX ;; SHRarith.

Definition mLoad32 : Op :=
  Deduct kS 40 ;; Deduct kB 2 ;; Deduct kM 1 ;; offsetUtil ;; SHRarith ;; SHLarith.

Definition hashPoseidonLinearFromMemoryLoop : Op :=
  Deduct kS 8 ;; mLoad32.

Definition hashPoseidonLinearFromMemory (memSize : Z) : Op :=
  Deduct kS 50 ;; Deduct kB (1 + 1) ;;
  Deduct kP (ceil_div_f (i64 (memSize + 1)) 56) ;;
  Deduct kD (ceil_div_f (i64 (memSize + 1)) 56) ;;
  divArith ;; multiCall hashPoseidonLinearFromMemoryLoop (Z.shiftr memSize 5) ;;
  mLoadX ;; SHRarith.

Definition maskAddress : Op :=
  Deduct kS 6 ;; Deduct kB 1.

Definition processContractCall (levels bytecodeLength : Z) (deploy create create2 : bool) : Op :=
  Deduct kS 40 ;; Deduct kB (4 + 1) ;; Deduct kP 1 ;; Deduct kD 1 ;;
  Deduct kP (2 * levels) ;; moveBalances levels ;;
  if deploy || create || create2 then
    Deduct kS 15 ;; Deduct kB 2 ;; Deduct kP (2 * levels) ;;
    checkBytecodeStartsEF ;; hashPoseidonLinearFromMemory bytecodeLength ;;
    if create then Deduct kS 40 ;; Deduct kK 1 ;; maskAddress
    else if create2 then
      Deduct kS 40 ;; divArith ;;
      Deduct kK (ceil_div_add_f (i64 (bytecodeLength + 1)) 136 1) ;;
      multiCall mLoad32 (Z.shiftr bytecodeLength 5) ;;
      mLoadX ;; SHRarith ;; Deduct kK 1 ;; maskAddress
    else skipOp
  else
    Deduct kP (ceil_div_f (i64 (bytecodeLength + 1)) 56) ;;
    Deduct kD (ceil_div_f (i64 (bytecodeLength + 1)) 56) ;;
    if 56 <=? bytecodeLength then divArith else skipOp.

Definition setupNewBlockInfoTree : Op :=
  Deduct kS 40 ;; Deduct kB 7 ;; Deduct kP (6 * MCPL).

Definition verifyMerkleProof : Op :=
  Deduct kS 250 ;; Deduct kB 1 ;; Deduct kK 33.

Definition processChangeL2Block (verify : bool) : Op :=
  Deduct kS 70 ;; Deduct kB (4 + 4) ;; reading (fun cc => Deduct kP (6 * smtLevels cc)) ;;
  Deduct kK 2 ;; consolidateBlock ;; setupNewBlockInfoTree ;;
  if verify then verifyMerkleProof else skipOp.

Definition readFromCallDataOffset : Op :=
  Deduct kS 25 ;; mLoadX.

Definition mStore32 : Op :=
  Deduct kS 80 ;; Deduct kB 1 ;; Deduct kM 1 ;; offsetUtil ;; multiCall SHRarith 2 ;;
  multiCall SHLarith 2.

Definition mStoreX : Op :=
  Deduct kS 80 ;; Deduct kB 1 ;; Deduct kM 1 ;; offsetUtil ;; multiCall SHRarith 2 ;;
  multiCall SHLarith 2.

Definition preEcRecover (v r s : Z) : Op :=
  Deduct kS 35 ;; Deduct kB 1 ;; multiCall readFromCallDataOffset 4 ;;
  ecRecover v r s true ;; mStore32 ;; mStoreX.

Definition ecAdd : Op :=
  Deduct kS 800 ;; Deduct kB 50 ;; Deduct kA 50.

Definition preECAdd : Op :=
  Deduct kS 50 ;; Deduct kB 1 ;; multiCall readFromCallDataOffset 4 ;; multiCall mStore32 4 ;;
  mStoreX ;; ecAdd.

Definition decodeChangeL2BlockTx : Op :=
  Deduct kS 20 ;; multiCall addBatchHashData 3.

Definition ecMul : Op :=
  Deduct kS 175000 ;; Deduct kB 20000 ;; Deduct kA 20000.

Definition preECMul : Op :=
  Deduct kS 50 ;; Deduct kB 1 ;; multiCall readFromCallDataOffset 3 ;; multiCall mStore32 4 ;;
  mStoreX ;; ecMul.

Definition ecPairing (inputsCount : Z) : Op :=
  Deduct kS (16 + inputsCount * 200000 + 175000) ;;
  Deduct kB (inputsCount * 4100 + 750) ;; Deduct kA (inputsCount * 15000 + 17500).

Definition preECPairing (inputsCount : Z) : Op :=
  Deduct kS 50 ;; Deduct kB 1 ;; multiCall readFromCallDataOffset 6 ;;
  divArith ;; mStore32 ;; mStoreX ;; ecPairing inputsCount.

Definition modExp (bLen mLen eLen base exponent modulus : Z) : Op :=
  reading (fun cc =>
    let '((steps, binary, arith), _) :=
      if ForkId13Durian <=? forkId cc then
        expectedModExpCounters (ceil_div_f bLen 32) (ceil_div_f eLen 32) (ceil_div_f mLen 32)
          base exponent modulus
      else
        expectedModExpCounters (ceil_div_f bLen 32) (ceil_div_f mLen 32) (ceil_div_f eLen 32)
          base exponent modulus in
    Deduct kS (i64 steps) ;; Deduct kB (i64 binary) ;; Deduct kA (i64 arith)).

Definition preModExpLoop : Op :=
  Deduct kS 8 ;; mStore32.

Definition preModExp (callDataLength returnDataLength bLen mLen eLen base exponent modulus : Z) : Op :=
  Deduct kS 100 ;; Deduct kB 20 ;; multiCall readFromCallDataOffset 4 ;; SHRarith ;;
  multiCall addArith 2 ;; multiCall divArith 3 ;; multiCall mulArith 3 ;; subArith ;;
  multiCall SHLarith 2 ;; multiCall mStoreX 2 ;;
  multiCall preModExpLoop (Z.shiftr callDataLength 5) ;;
  multiCall preModExpLoop (Z.shiftr returnDataLength 5) ;;
  if 0 <? u64 modulus then modExp bLen mLen eLen base exponent modulus else skipOp.

Definition preSha256Loop : Op :=
  Deduct kS 11 ;; readFromCallDataOffset.

Definition preSha256 (callDataLength : Z) : Op :=
  Deduct kS 100 ;; Deduct kB 1 ;; Deduct kSHA (ceil_div_f (i64 (callDataLength + 8)) 64) ;;
  multiCall divArith 2 ;; mStore32 ;; mStoreX ;;
  multiCall preSha256Loop (Z.shiftr callDataLength 5) ;;
  readFromCallDataOffset ;; SHRarith.

Definition identityLoop : Op :=
  Deduct kS 8 ;; readFromCallDataOffset ;; mStore32.

Definition identityReturnLoop : Op :=
  Deduct kS 12 ;; mLoad32 ;; mStore32.

Definition preIdentity (callDataLength returnDataLength : Z) : Op :=
  Deduct kS 45 ;; Deduct kB 2 ;; divArith ;;
  multiCall identityLoop (Z.shiftr callDataLength 5) ;;
  readFromCallDataOffset ;; mStoreX ;;
  multiCall identityReturnLoop (Z.shiftr returnDataLength 5) ;;
  mLoadX ;; mStoreX.

Definition abs : Op :=
  Deduct kS 10 ;; Deduct kB 2.

Definition utilMulMod : Op :=
  Deduct kS 50 ;; Deduct kB 4 ;; Deduct kA 2 ;; mulArith.

Definition getLenBits (inputLength : Z) : Op :=
  Deduct kS 12 ;; loop inputLength (Deduct kS 9 ;; Deduct kB 1 ;; divArith).

Definition expAd (inputLength : Z) : Op :=
  Deduct kS 30 ;; Deduct kB 2 ;; getLenBits inputLength ;;
  loop inputLength (Deduct kS 12 ;; Deduct kB 2 ;; divArith ;; mulArith ;; mulArith).

Definition saveMem (inputSize : Z) : Op :=
  if inputSize =? 0 then Deduct kS 12 ;; Deduct kB 1
  else Deduct kS 50 ;; Deduct kB 5 ;; mulArith ;; divArith.

Definition opCalldataCopyLoop : Op :=
  Deduct kS 30 ;; readFromCallDataOffset ;; offsetUtil ;; Deduct kM 1.

Definition opCodeCopyLoop : Op :=
  Deduct kS 30 ;; Deduct kB 2 ;; Deduct kM 1 ;; offsetUtil.

Definition returnDataCopyLoop : Op :=
  Deduct kS 10 ;; mLoad32 ;; mStore32.

Definition shrArithBit : Op :=
  Deduct kS 30 ;; Deduct kB 2 ;; divArith.

Definition shlArithBit : Op :=
  Deduct kS 50 ;; Deduct kB 2 ;; Deduct kA 2.

Definition computeGasSendCall : Op :=
  Deduct kS 25 ;; Deduct kB 2.

Definition saveCalldataPointer : Op :=
  Deduct kS 6.

Definition checkpointBlockInfoTree : Op :=
  Deduct kS 4.

Definition checkpointTouched : Op :=
  Deduct kS 2.

Definition isEmptyAccount : Op :=
  Deduct kS 30 ;; Deduct kB 3 ;; reading (fun cc => Deduct kP (3 * smtLevels cc)).

Definition returnLoop : Op :=
  Deduct kS 12 ;; mLoad32 ;; mStore32.

Definition revertTouched : Op :=
  Deduct kS 2.

Definition revertBlockInfoTree : Op :=
  Deduct kS 4.

Definition revertLoop : Op :=
  Deduct kS 12 ;; mLoad32 ;; mStore32.

Definition sha3Loop : Op :=
  Deduct kS 8 ;; mLoad32.

Definition checkJumpDest (scope : ScopeContext) : Op :=
  Deduct kS 10 ;; Deduct kB 1 ;;
  if IsCreate (Contract scope)
  then reading (fun cc => if isDeploy cc then Deduct kB 1 ;; mLoadX else skipOp)
  else skipOp.

Definition logLoop : Op :=
  Deduct kS 10 ;; mLoad32.

Definition fillBlockInfoTreeWithLog : Op :=
  Deduct kS 11 ;; Deduct kP MCPL ;; Deduct kB 1.

Definition readPush (num : Z) : Op :=
  if num =? 1 then Deduct kS 2
  else if num =? 2 then Deduct kS 4
  else if num =? 3 then Deduct kS 5
  else if num =? 4 then Deduct kS 6
  else if num =? 32 then Deduct kS 45
  else Deduct kS (6 + num * 2).

Definition opPush (num : Z) (scope : ScopeContext) : Op :=
  opCode scope ;; Deduct kS 2 ;;
  reading (fun cc =>
    if IsCreate (Contract scope) || isDeploy cc then
      if IsCreate (Contract scope) then Deduct kS 20 ;; mLoadX ;; SHRarith
      else Deduct kS 10 ;; loop num (Deduct kS 10 ;; SHLarith)
    else Deduct kS 10 ;; readPush num).

Definition isColdSlot : Op :=
  Deduct kS 20 ;; Deduct kB 1 ;; Deduct kP (2 * MCPL).

Definition p256verify (r s x y : Z) : Op :=
  if r =? 0 then Deduct kS 13 ;; Deduct kB 1
  else if SECP256R1_N_MINUS_ONE <? r then Deduct kS 15 ;; Deduct kB 2
  else if s =? 0 then Deduct kS 17 ;; Deduct kB 3
  else if SECP256R1_N_MINUS_ONE <? s then Deduct kS 19 ;; Deduct kB 4
  else if SECP256R1_P_MINUS_ONE <? x then Deduct kS 22 ;; Deduct kB 5
  else if SECP256R1_P_MINUS_ONE <? y then Deduct kS 24 ;; Deduct kB 6
  else if (x =? 0) && (y =? 0) then Deduct kS 29 ;; Deduct kB 8
  else
    let aux_x3 := x ^ 3 mod SECP256R1_P in
    let aux_ax_b := x + SECP256R1_B in
    let aux_x3_ax_b := (aux_x3 + aux_ax_b) mod SECP256R1_P in
    let aux_y2 := y ^ 2 mod SECP256R1_P in
    if negb (aux_y2 =? aux_x3_ax_b) then Deduct kS 104 ;; Deduct kB 15 ;; Deduct kA 12
    else Deduct kS 7718 ;; Deduct kB 22 ;; Deduct kA 531.

Definition preP256Verify (r s x y : Z) : Op :=
  Deduct kS 50 ;; Deduct kB 1 ;; multiCall readFromCallDataOffset 5 ;;
  p256verify r s x y ;; mStore32 ;; mStoreX.

(** ** Opcode handlers *)

Definition opAdd : executionFunc := fun _ scope =>
  ret (opCode scope ;; Deduct kS 10 ;; Deduct kB 1).

Definition opMul : executionFunc := fun _ scope =>
  ret (opCode scope ;; Deduct kS 10 ;; mulArith).

Definition opSub : executionFunc := fun _ scope =>
  ret (opCode scope ;; Deduct kS 10 ;; Deduct kB 1).

Definition opDiv : executionFunc := fun _ scope =>
  ret (opCode scope ;; Deduct kS 15 ;; divArith).

Definition opSDiv : executionFunc := fun _ scope =>
  ret (opCode scope ;; Deduct kS 25 ;; Deduct kB 1 ;; multiCall abs 2 ;; divArith).

Definition opMod : executionFunc := fun _ scope =>
  ret (opCode scope ;; Deduct kS 20 ;; divArith).

Definition opSMod : executionFunc := fun _ scope =>
  ret (opCode scope ;; Deduct kS 20 ;; Deduct kB 1 ;; multiCall abs 2 ;; divArith).

Definition opAddMod : executionFunc := fun _ scope =>
  ret (opCode scope ;; Deduct kS 30 ;; Deduct kB 3 ;; Deduct kA 1).

Definition opMulMod : executionFunc := fun _ scope =>
  ret (opCode scope ;; Deduct kS 10 ;; utilMulMod).

Definition opExp : executionFunc := fun _ scope cc =>
  exponent ← PeekAt (Stack scope) 2;
  let exponentLength := if exponent =? 0 then 1 else byte_length exponent in
  ret (opCode scope ;; Deduct kS 10 ;; getLenBytes exponentLength ;;
       expAd (exponentLength * 8)) cc.

Definition opSignExtend : executionFunc := fun _ scope =>
  ret (opCode scope ;; Deduct kS 20 ;; Deduct kB 6 ;;
       reading (fun cc => Deduct kP (2 * smtLevels cc))).

Definition opBlockHash : executionFunc := fun _ scope =>
  ret (opCode scope ;; Deduct kS 15 ;; reading (fun cc => Deduct kP (smtLevels cc)) ;;
       Deduct kK 1).

Definition opCoinbase : executionFunc := fun _ scope =>
  ret (opCode scope ;; Deduct kS 5).

Definition opTimestamp : executionFunc := fun _ scope =>
  ret (opCode scope ;; Deduct kS 5).

Definition opNumber : executionFunc := fun _ scope =>
  ret (opCode scope ;; Deduct kS 5).

Definition opDifficulty : executionFunc := fun _ scope =>
  ret (opCode scope ;; Deduct kS 5).

Definition opGasLimit : executionFunc := fun _ scope =>
  ret (opCode scope ;; Deduct kS 5).

Definition opChainId : executionFunc := fun _ scope =>
  ret (opCode scope ;; Deduct kS 5).

Definition opCalldataLoad : executionFunc := fun _ scope =>
  ret (opCode scope ;; Deduct kS 15 ;; readFromCallDataOffset).

Definition opCalldataSize : executionFunc := fun _ scope =>
  ret (opCode scope ;; Deduct kS 10).

Definition opCalldataCopy : executionFunc := fun _ scope cc =>
  len ← PeekAt (Stack scope) 3;
  let inputLen := i64 (u64 len) in
  ret (if negb (inputLen =? 0) then
         opCode scope ;; Deduct kS 100 ;; Deduct kB 2 ;; saveMem inputLen ;; offsetUtil ;;
         multiCall opCalldataCopyLoop (Z.shiftr inputLen 5) ;;
         readFromCallDataOffset ;; multiCall mStoreX 2
       else skipOp) cc.

Definition opCodeSize : executionFunc := fun _ scope =>
  ret (opCode scope ;; Deduct kS 10 ;; reading (fun cc => Deduct kP (smtLevels cc))).

Definition opExtCodeSize : executionFunc := fun _ scope =>
  ret (opCode scope ;; Deduct kS 10 ;; reading (fun cc => Deduct kP (smtLevels cc)) ;;
       maskAddress ;; isColdAddress).

Definition opExtCodeCopy : executionFunc := fun interpreter scope cc =>
  addr ← PeekAt (Stack scope) 1;
  let bytecodeLen := GetCodeSize interpreter (Bytes20 addr) in
  len ← PeekAt (Stack scope) 4;
  let length := i64 (u64 len) in
  ret (if negb (length =? 0) then
         opCode scope ;; Deduct kS 60 ;; maskAddress ;; isColdAddress ;;
         reading (fun cc => Deduct kP (2 * smtLevels cc + ceil_div_f bytecodeLen 56)) ;;
         Deduct kD (ceil_div_f bytecodeLen 56) ;; multiCall divArith 2 ;; saveMem length ;;
         mulArith ;; Deduct kM length ;; multiCall opCodeCopyLoop length ;; Deduct kB 1
       else skipOp) cc.

Definition opCodeCopy : executionFunc := fun interpreter scope cc =>
  len ← PeekAt (Stack scope) 3;
  let length := i64 (u64 len) in
  if negb (length =? 0) then
    let cc := opCode scope cc in
    if IsCreate (Contract scope) || isDeploy cc then opCalldataCopy interpreter scope cc
    else
      ret (Deduct kS 40 ;; Deduct kB 3 ;; saveMem length ;; divArith ;; mulArith ;;
           multiCall opCodeCopyLoop length) cc
  else Ok cc.

Definition opReturnDataSize : executionFunc := fun _ scope =>
  ret (opCode scope ;; Deduct kS 11 ;; Deduct kB 1).

Definition opReturnDataCopy : executionFunc := fun _ scope cc =>
  len ← PeekAt (Stack scope) 3;
  let length := i64 (u64 len) in
  ret (if negb (length =? 0) then
         opCode scope ;; Deduct kS 50 ;; Deduct kB 2 ;; saveMem length ;; divArith ;; mulArith ;;
         multiCall returnDataCopyLoop (Z.shiftr length 5) ;; mLoadX ;; mStoreX
       else skipOp) cc.

Definition opExtCodeHash : executionFunc := fun _ scope =>
  ret (opCode scope ;; Deduct kS 10 ;; reading (fun cc => Deduct kP (smtLevels cc)) ;;
       maskAddress ;; isColdAddress).

Definition opLT : executionFunc := fun _ scope =>
  ret (opCode scope ;; Deduct kS 8 ;; Deduct kB 1).

Definition opGT : executionFunc := fun _ scope =>
  ret (opCode scope ;; Deduct kS 8 ;; Deduct kB 1).

Definition opSLT : executionFunc := fun _ scope =>
  ret (opCode scope ;; Deduct kS 8 ;; Deduct kB 1).

Definition opSGT : executionFunc := fun _ scope =>
  ret (opCode scope ;; Deduct kS 8 ;; Deduct kB 1).

Definition opEQ : executionFunc := fun _ scope =>
  ret (opCode scope ;; Deduct kS 8 ;; Deduct kB 1).

Definition opIsZero : executionFunc := fun _ scope =>
  ret (opCode scope ;; Deduct kS 8 ;; Deduct kB 1).

Definition opAnd : executionFunc := fun _ scope =>
  ret (opCode scope ;; Deduct kS 10 ;; Deduct kB 1).

Definition opOr : executionFunc := fun _ scope =>
  ret (opCode scope ;; Deduct kS 10 ;; Deduct kB 1).

Definition opXor : executionFunc := fun _ scope =>
  ret (opCode scope ;; Deduct kS 10 ;; Deduct kB 1).

Definition opNot : executionFunc := fun _ scope =>
  ret (opCode scope ;; Deduct kS 10 ;; Deduct kB 1).

Definition opByte : executionFunc := fun _ scope =>
  ret (opCode scope ;; Deduct kS 15 ;; Deduct kB 2 ;; SHRarith).

Definition opSHR : executionFunc := fun _ scope =>
  ret (opCode scope ;; Deduct kS 8 ;; Deduct kB 1 ;; shrArithBit).

Definition opSHL : executionFunc := fun _ scope =>
  ret (opCode scope ;; Deduct kS 8 ;; Deduct kB 1 ;; shlArithBit).

Definition opSAR : executionFunc := fun _ scope =>
  ret (opCode scope ;; Deduct kS 25 ;; Deduct kB 5 ;; shrArithBit).

Definition opStop : executionFunc := fun _ scope =>
  ret (opCode scope ;; Deduct kS 20).

Definition opCreate : executionFunc := fun interpreter scope cc =>
  sz ← PeekAt (Stack scope) 3;
  let size := i64 (u64 sz) in
  let nonce := u64 (GetStateNonce interpreter (CallerAddress (Contract scope)) + 1) in
  let nonceByteLength := getRelevantNumberBytes (Uint64ToBytes nonce) in
  ret (opCode scope ;; Deduct kS 70 ;; Deduct kB 3 ;;
       reading (fun cc => Deduct kP (3 * smtLevels cc)) ;;
       saveMem size ;; getLenBytes nonceByteLength ;; computeGasSendCall ;; saveCalldataPointer ;;
       checkpointBlockInfoTree ;; checkpointTouched ;;
       reading (fun cc => processContractCall (smtLevels cc) size false true false)) cc.

Definition opCall : executionFunc := fun interpreter scope cc =>
  addr ← PeekAt (Stack scope) 2;
  let toAddrBytecodeLength := GetCodeSize interpreter (Bytes20 addr) in
  inS ← PeekAt (Stack scope) 5;
  outS ← PeekAt (Stack scope) 7;
  let inSize := i64 (u64 inS) in
  let outSize := i64 (u64 outS) in
  ret (opCode scope ;; Deduct kS 80 ;; Deduct kB 5 ;; maskAddress ;; saveMem inSize ;;
       saveMem outSize ;;
       isColdAddress ;; isEmptyAccount ;; computeGasSendCall ;; saveCalldataPointer ;;
       checkpointBlockInfoTree ;; checkpointTouched ;;
       reading (fun cc => processContractCall (smtLevels cc) toAddrBytecodeLength false false false)) cc.

Definition opCallCode : executionFunc := fun interpreter scope cc =>
  addr ← PeekAt (Stack scope) 2;
  let toAddrBytecodeLength := GetCodeSize interpreter (Bytes20 addr) in
  inS ← PeekAt (Stack scope) 5;
  outS ← PeekAt (Stack scope) 7;
  let inSize := i64 (u64 inS) in
  let outSize := i64 (u64 outS) in
  ret (opCode scope ;; Deduct kS 80 ;; Deduct kB 5 ;; maskAddress ;; saveMem inSize ;;
       saveMem outSize ;;
       isColdAddress ;; computeGasSendCall ;; saveCalldataPointer ;;
       checkpointBlockInfoTree ;; checkpointTouched ;;
       reading (fun cc => processContractCall (smtLevels cc) toAddrBytecodeLength false false false)) cc.

Definition opDelegateCall : executionFunc := fun interpreter scope cc =>
  addr ← PeekAt (Stack scope) 2;
  let toAddrBytecodeLength := GetCodeSize interpreter (Bytes20 addr) in
  inS ← PeekAt (Stack scope) 4;
  outS ← PeekAt (Stack scope) 6;
  let inSize := i64 (u64 inS) in
  let outSize := i64 (u64 outS) in
  ret (opCode scope ;; Deduct kS 80 ;; maskAddress ;; saveMem inSize ;; saveMem outSize ;;
       isColdAddress ;; computeGasSendCall ;; saveCalldataPointer ;;
       checkpointBlockInfoTree ;; checkpointTouched ;;
       reading (fun cc => processContractCall (smtLevels cc) toAddrBytecodeLength false false false)) cc.

Definition opStaticCall : executionFunc := fun interpreter scope cc =>
  addr ← PeekAt (Stack scope) 2;
  let toAddrBytecodeLength := GetCodeSize interpreter (Bytes20 addr) in
  inS ← PeekAt (Stack scope) 4;
  outS ← PeekAt (Stack scope) 6;
  let inSize := i64 (u64 inS) in
  let outSize := i64 (u64 outS) in
  ret (opCode scope ;; Deduct kS 80 ;; maskAddress ;; saveMem inSize ;; saveMem outSize ;;
       isColdAddress ;; computeGasSendCall ;; saveCalldataPointer ;;
       checkpointBlockInfoTree ;; checkpointTouched ;;
       reading (fun cc => processContractCall (smtLevels cc) toAddrBytecodeLength false false false)) cc.

Definition opCreate2 : executionFunc := fun interpreter scope cc =>
  sz ← PeekAt (Stack scope) 3;
  let inSize := i64 (u64 sz) in
  let accNonce := u64 (GetStateNonce interpreter (CallerAddress (Contract scope)) + 1) in
  let nonceByteLength := getRelevantNumberBytes (Uint64ToBytes accNonce) in
  ret (opCode scope ;; Deduct kS 80 ;; Deduct kB 4 ;;
       reading (fun cc => Deduct kP (2 * smtLevels cc)) ;;
       saveMem inSize ;; divArith ;; getLenBytes nonceByteLength ;; computeGasSendCall ;;
       saveCalldataPointer ;; checkpointBlockInfoTree ;; checkpointTouched ;;
       reading (fun cc => processContractCall (smtLevels cc) inSize false false true)) cc.

Definition opReturn : executionFunc := fun _ scope cc =>
  sz ← PeekAt (Stack scope) 2;
  let returnSize := i64 (u64 sz) in
  ret (opCode scope ;; Deduct kS 30 ;; Deduct kB 1 ;; saveMem returnSize ;;
       reading (fun cc =>
         if isDeploy cc || IsCreate (Contract scope) then
           if IsCreate (Contract scope) then
             Deduct kS 25 ;; Deduct kB 2 ;; reading (fun cc => Deduct kP (2 * smtLevels cc)) ;;
             checkBytecodeStartsEF ;; hashPoseidonLinearFromMemory returnSize
           else skipOp
         else multiCall returnLoop (Z.shiftr returnSize 5) ;; mLoadX ;; mStoreX)) cc.

Definition opRevert : executionFunc := fun _ scope cc =>
  sz ← PeekAt (Stack scope) 2;
  let size := i64 (u64 sz) in
  ret (opCode scope ;; Deduct kS 40 ;; Deduct kB 1 ;; revertTouched ;; revertBlockInfoTree ;;
       saveMem size ;; multiCall revertLoop (Z.shiftr size 5) ;; mLoadX ;; mStoreX) cc.

Definition opSendAll : executionFunc := fun _ scope =>
  ret (opCode scope ;; Deduct kS 60 ;; Deduct kB (2 + 1) ;;
       reading (fun cc => Deduct kP (4 * smtLevels cc)) ;; maskAddress ;; isEmptyAccount ;;
       isColdAddress ;; addArith).

Definition opInvalid : executionFunc := fun _ scope =>
  ret (opCode scope ;; Deduct kS 50).

Definition opAddress : executionFunc := fun _ scope =>
  ret (opCode scope ;; Deduct kS 6).

Definition opSelfBalance : executionFunc := fun _ scope =>
  ret (opCode scope ;; Deduct kS 8 ;; reading (fun cc => Deduct kP (smtLevels cc))).

Definition opBalance : executionFunc := fun _ scope =>
  ret (opCode scope ;; Deduct kS 8 ;; reading (fun cc => Deduct kP (smtLevels cc)) ;;
       maskAddress ;; isColdAddress).

Definition opOrigin : executionFunc := fun _ scope =>
  ret (opCode scope ;; Deduct kS 5).

Definition opCaller : executionFunc := fun _ scope =>
  ret (opCode scope ;; Deduct kS 5).

Definition opCallValue : executionFunc := fun _ scope =>
  ret (opCode scope ;; Deduct kS 5).

Definition opGasPrice : executionFunc := fun _ scope =>
  ret (opCode scope ;; Deduct kS 5).

Definition opGas : executionFunc := fun _ scope =>
  ret (opCode scope ;; Deduct kS 4).

Definition opSha3 : executionFunc := fun _ scope cc =>
  sz ← PeekAt (Stack scope) 2;
  let size := i64 (u64 sz) in
  ret (opCode scope ;; Deduct kS 40 ;; Deduct kK (ceil_div_f (i64 (size + 1)) 136) ;;
       saveMem size ;; multiCall divArith 2 ;; mulArith ;;
       multiCall sha3Loop (Z.shiftr size 5) ;; mLoadX ;; SHRarith) cc.

Definition opJump : executionFunc := fun _ scope =>
  ret (opCode scope ;; Deduct kS 5 ;; checkJumpDest scope).

Definition opJumpI : executionFunc := fun _ scope =>
  ret (opCode scope ;; Deduct kS 10 ;; Deduct kB 1 ;; checkJumpDest scope).

Definition opPC : executionFunc := fun _ scope =>
  ret (opCode scope ;; Deduct kS 4).

Definition opJumpDest : executionFunc := fun _ scope =>
  ret (opCode scope ;; Deduct kS 2).

Definition log : executionFunc := fun _ scope cc =>
  sz ← PeekAt (Stack scope) 2;
  let size := i64 (u64 sz) in
  ret (opCode scope ;; Deduct kS (34 + 7 * 4) ;; saveMem size ;; mulArith ;; divArith ;;
       Deduct kP (ceil_div_add_f size 56 4) ;; Deduct kD (ceil_div_add_f size 56 4) ;;
       multiCall logLoop (Z.shiftr (i64 (size + 1)) 5) ;; mLoadX ;; SHRarith ;;
       fillBlockInfoTreeWithLog ;; Deduct kB 1) cc.

Definition opLog0 : executionFunc := log.

Definition opLog1 : executionFunc := log.

Definition opLog2 : executionFunc := log.

Definition opLog3 : executionFunc := log.

Definition opLog4 : executionFunc := log.

Definition opPush0 : executionFunc := fun _ scope =>
  ret (opCode scope ;; Deduct kS 4).

Definition opPushGenerator (num : Z) : executionFunc := fun _ scope => ret (opPush num scope).

Definition opDup : executionFunc := fun _ scope =>
  ret (opCode scope ;; Deduct kS 6).

Definition opSwap : executionFunc := fun _ scope =>
  ret (opCode scope ;; Deduct kS 7).

Definition opPop : executionFunc := fun _ scope =>
  ret (opCode scope ;; Deduct kS 3).

Definition opMLoad : executionFunc := fun _ scope =>
  ret (opCode scope ;; Deduct kS 8 ;; saveMem 32 ;; mLoad32).

Definition opMStore : executionFunc := fun _ scope =>
  ret (opCode scope ;; Deduct kS 22 ;; Deduct kM 1 ;; saveMem 32 ;; offsetUtil).

Definition opMStore8 : executionFunc := fun _ scope =>
  ret (opCode scope ;; Deduct kS 13 ;; Deduct kM 1 ;; saveMem 1 ;; offsetUtil).

Definition opMSize : executionFunc := fun _ scope =>
  ret (opCode scope ;; Deduct kS 15 ;; divArith).

Definition opSLoad : executionFunc := fun _ scope =>
  ret (opCode scope ;; Deduct kS 10 ;; reading (fun cc => Deduct kP (smtLevels cc)) ;;
       isColdSlot).

Definition opSSTore : executionFunc := fun _ scope =>
  ret (opCode scope ;; Deduct kS 70 ;; Deduct kB 8 ;;
       reading (fun cc => Deduct kP (3 * smtLevels cc)) ;; isColdSlot).

(** ** The table of handlers

    The keys are the opcode numbers of core/vm/opcodes.go, in the order of the
    source's array literal. *)

Definition counterTable : list (Z * executionFunc) :=
  [
    (0x01, opAdd); (0x02, opMul); (0x03, opSub); (0x04, opDiv); (0x05, opSDiv); (0x06, opMod);
    (0x07, opSMod); (0x08, opAddMod); (0x09, opMulMod); (0x0a, opExp); (0x0b, opSignExtend);
    (0x40, opBlockHash); (0x41, opCoinbase); (0x42, opTimestamp); (0x43, opNumber);
    (0x44, opDifficulty); (0x45, opGasLimit); (0x46, opChainId); (0x35, opCalldataLoad);
    (0x36, opCalldataSize); (0x37, opCalldataCopy); (0x38, opCodeSize); (0x3b, opExtCodeSize);
    (0x3c, opExtCodeCopy); (0x39, opCodeCopy); (0x3d, opReturnDataSize);
    (0x3e, opReturnDataCopy); (0x3f, opExtCodeHash); (0x10, opLT); (0x11, opGT); (0x12, opSLT);
    (0x13, opSGT); (0x14, opEQ); (0x15, opIsZero); (0x16, opAnd); (0x17, opOr); (0x18, opXor);
    (0x19, opNot); (0x1a, opByte); (0x1c, opSHR); (0x1b, opSHL); (0x1d, opSAR); (0x00, opStop);
    (0xf0, opCreate); (0xf1, opCall); (0xf2, opCallCode); (0xf4, opDelegateCall);
    (0xfa, opStaticCall); (0xf5, opCreate2); (0xf3, opReturn); (0xfd, opRevert);
    (0xff, opSendAll); (0xfe, opInvalid); (0x30, opAddress); (0x47, opSelfBalance);
    (0x32, opOrigin); (0x33, opCaller); (0x34, opCallValue); (0x3a, opGasPrice); (0x5a, opGas);
    (0x20, opSha3); (0x56, opJump); (0x57, opJumpI); (0x58, opPC); (0x5b, opJumpDest);
    (0xa0, opLog0); (0xa1, opLog1); (0xa2, opLog2); (0xa3, opLog3); (0xa4, opLog4);
    (0x5f, opPush0); (0x60, opPushGenerator 1); (0x61, opPushGenerator 2);
    (0x62, opPushGenerator 3); (0x63, opPushGenerator 4); (0x64, opPushGenerator 5);
    (0x65, opPushGenerator 6); (0x66, opPushGenerator 7); (0x67, opPushGenerator 8);
    (0x68, opPushGenerator 9); (0x69, opPushGenerator 10); (0x6a, opPushGenerator 11);
    (0x6b, opPushGenerator 12); (0x6c, opPushGenerator 13); (0x6d, opPushGenerator 14);
    (0x6e, opPushGenerator 15); (0x6f, opPushGenerator 16); (0x70, opPushGenerator 17);
    (0x71, opPushGenerator 18); (0x72, opPushGenerator 19); (0x73, opPushGenerator 20);
    (0x74, opPushGenerator 21); (0x75, opPushGenerator 22); (0x76, opPushGenerator 23);
    (0x77, opPushGenerator 24); (0x78, opPushGenerator 25); (0x79, opPushGenerator 26);
    (0x7a, opPushGenerator 27); (0x7b, opPushGenerator 28); (0x7c, opPushGenerator 29);
    (0x7d, opPushGenerator 30); (0x7e, opPushGenerator 31); (0x7f, opPushGenerator 32);
    (0x80, opDup); (0x81, opDup); (0x82, opDup); (0x83, opDup); (0x84, opDup); (0x85, opDup);
    (0x86, opDup); (0x87, opDup); (0x88, opDup); (0x89, opDup); (0x8a, opDup); (0x8b, opDup);
    (0x8c, opDup); (0x8d, opDup); (0x8e, opDup); (0x8f, opDup); (0x90, opSwap); (0x91, opSwap);
    (0x92, opSwap); (0x93, opSwap); (0x94, opSwap); (0x95, opSwap); (0x96, opSwap);
    (0x97, opSwap); (0x98, opSwap); (0x99, opSwap); (0x9a, opSwap); (0x9b, opSwap);
    (0x9c, opSwap); (0x9d, opSwap); (0x9e, opSwap); (0x9f, opSwap); (0x50, opPop);
    (0x51, opMLoad); (0x52, opMStore); (0x53, opMStore8); (0x59, opMSize); (0x54, opSLoad);
    (0x55, opSSTore); (0x31, opBalance)
  ].

(** The array of 256 handlers, nil where the table has no entry. *)
Definition SimpleCounterOperations (op : Z) : option executionFunc :=
  match list_find (fun e => fst e = op) counterTable with
  | Some (_, (_, f)) => Some f
  | None => None
  end.
