(* ===== verification/CounterTheory.v ===== *)
(** * Prover counters: what the handlers guarantee

    Every handler of the table only ever deducts, by an amount bounded linearly
    in the sizes it reads, and never fails on a stack that is deep enough; the
    early exit of [multiCall] never changes whether a batch overflows; and a
    whole run of handlers keeps the books balanced. *)
From S2P Require Import Prelude Float64 Bytes CounterBase CounterLimits ModExpCounters.
From S2P Require Import CounterOps.

(** ** Automation *)

Ltac head_of t := lazymatch t with ?f _ => head_of f | _ => t end.

(** One step of the derivation of a bound, by the head of the operation. *)
Ltac spend_step :=
  lazymatch goal with
  | |- Spends (andThen _ _) _ => eapply spends_seq
  | |- Spends (Deduct _ _) _ => apply spends_deduct
  | |- Spends skipOp _ => apply spends_skip
  | |- Spends (multiCall _ _) _ => eapply spends_multiCall
  | |- Spends (loop _ _) _ => eapply spends_loop
  | |- Spends (if _ then _ else _) _ => eapply spends_if
  | |- Spends (reading (fun cc => Deduct _ (smtLevels cc))) _ => apply spends_level
  | |- Spends (reading (fun cc => Deduct _ (_ * smtLevels cc))) _ => apply spends_levels
  | |- Spends (reading (fun cc => if _ then _ else _)) _ => eapply spends_reading_if
  | |- Spends (reading _) _ => idtac
  | |- Spends ?f _ => let h := head_of f in unfold h; cbv beta
  end.
Ltac spend_all :=
  repeat (spend_step; [..]); try solve [unfold MCPL; lia | eauto with spends].

(** What the data-dependent amounts of the handlers are bounded by. *)
Lemma ceil_pos n d : 0 <= n < 2 ^ 53 -> 0 < d < 2 ^ 53 -> 0 <= ceil_div_f n d.
Proof. intros. by apply ceil_div_f_bounds. Qed.

Lemma shiftr5_bounds n : 0 <= n -> 0 <= Z.shiftr n 5 <= n.
Proof.
  intros Hn. rewrite Z.shiftr_div_pow2 by lia.
  split; [apply Z.div_pos; lia|]. apply Z.div_le_upper_bound; lia.
Qed.

(** ** The size arguments of a handler: positions on the stack, from the top *)
Definition sizePositions (op : Z) : list Z :=
  if bool_decide (op ∈ [0x20; 0xf3; 0xfd; 0xa0; 0xa1; 0xa2; 0xa3; 0xa4]) then [2]
  else if bool_decide (op ∈ [0x37; 0x39; 0x3e; 0xf0; 0xf5]) then [3]
  else if op =? 0x3c then [4]
  else if bool_decide (op ∈ [0xf1; 0xf2]) then [5; 7]
  else if bool_decide (op ∈ [0xf4; 0xfa]) then [4; 6]
  else [].

(** A stack that holds 256-bit words, at least the seven the deepest handler
    looks at, with sizes of at most [M] where the opcode expects a size. *)
Definition stack_ok (op M : Z) (st : list Z) : Prop :=
  (7 <= length st)%nat /\ Forall (fun z => 0 <= z < 2 ^ 256) st /\
  forall p z, p ∈ sizePositions op -> PeekAt st p = Ok z -> 0 <= i64 (u64 z) <= M.

Definition interp_ok (M : Z) (i : EVMInterpreter) : Prop :=
  forall a, 0 <= GetCodeSize i a <= M.

Definition handler_bound (M : Z) : Z := 2 ^ 11 * M + 2 ^ 17.

(** What is proved of each entry of the table. *)
Definition handler_ok (op : Z) (f : executionFunc) : Prop :=
  forall M i scope cc,
    0 <= M < 2 ^ 40 -> stack_ok op M (Stack scope) -> interp_ok M i -> wf cc -> params_ok cc ->
    exists g, f i scope cc = Ok (g cc) /\ Spends g (handler_bound M).

Lemma PeekAt_ok st p :
  1 <= p <= 7 -> (7 <= length st)%nat -> exists z, PeekAt st p = Ok z /\ z ∈ st.
Proof.
  intros Hp Hl. unfold PeekAt, index. rewrite decide_True by lia.
  destruct (lookup_lt_is_Some_2 st (Z.to_nat (Z.of_nat (length st) - p))) as [z Hz]; [lia|].
  rewrite Hz. exists z. split; [done|]. by eapply list_elem_of_lookup_2.
Qed.

Lemma processContractCall_spends levels len d c c2 M :
  0 <= levels <= 2 ^ 10 -> 0 <= len <= M -> M < 2 ^ 40 ->
  Spends (processContractCall levels len d c c2) (2 ^ 10 * M + 2 ^ 15).
Proof.
  intros Hl Hn HM. pose proof (shiftr5_bounds len ltac:(lia)).
  unfold processContractCall, hashPoseidonLinearFromMemory. rewrite (i64_small (len + 1)) by lia.
  pose proof (ceil_div_f_bounds (len + 1) 56 ltac:(lia) ltac:(lia)).
  pose proof (cdiv_bounds (len + 1) 136 ltac:(lia) ltac:(lia)).
  rewrite ceil_div_add_f_spec by lia.
  eapply spends_le; [spend_all|lia].
Qed.

Lemma reading_call_spends len d c c2 M :
  0 <= len <= M -> M < 2 ^ 40 ->
  Spends (reading (fun cc => processContractCall (smtLevels cc) len d c c2)) (2 ^ 10 * M + 2 ^ 15).
Proof.
  intros Hn HM. apply spends_reading; [|lia].
  intros cc Hp. by apply processContractCall_spends.
Qed.
#[export] Hint Resolve reading_call_spends : spends.

(** Handlers that read no stack argument. *)
Ltac handler_start := intros M i scope cc HM (Hlen & Hw & Hsz) Hi Hwf Hp.
Ltac handler_bound_tac := eapply spends_le; [spend_all|unfold handler_bound, MCPL; lia].
Ltac handler_simple :=
  handler_start;
  lazymatch goal with |- exists g, ?f _ _ _ = _ /\ _ => let h := head_of f in unfold h, ret end;
  eexists; split; [reflexivity|]; handler_bound_tac.

(** Read the word at stack position [p], or a size there with its bound. *)
Ltac peek_word p z Hin :=
  let E := fresh "E" in
  match goal with Hl : (7 <= length ?st)%nat |- _ =>
    destruct (PeekAt_ok st p ltac:(lia) Hl) as (z & E & Hin)
  end;
  rewrite E; cbn [mbind outcome_bind].
Ltac peek_size p n H :=
  let z := fresh "z" in let E := fresh "E" in
  match goal with
  | Hl : (7 <= length ?st)%nat, Hs : forall p z, p ∈ _ -> PeekAt ?st p = Ok z -> _ |- _ =>
      destruct (PeekAt_ok st p ltac:(lia) Hl) as (z & E & _); rewrite E; cbn [mbind outcome_bind];
      pose proof (Hs p z ltac:(apply list_elem_of_In; vm_compute; tauto) E) as H
  end;
  set (n := i64 (u64 z)) in *; clearbody n.

(** The facts about a size [n] that the amounts of the handlers need. *)
Ltac size_facts n :=
  pose proof (shiftr5_bounds n ltac:(lia));
  rewrite ?(i64_small (n + 1)) by lia;
  pose proof (shiftr5_bounds (n + 1) ltac:(lia));
  pose proof (ceil_div_f_bounds (n + 1) 56 ltac:(lia) ltac:(lia));
  pose proof (ceil_div_f_bounds (n + 1) 136 ltac:(lia) ltac:(lia)).
Lemma opExp_ok : handler_ok 0x0a opExp.
Proof.
  handler_start. unfold opExp, ret. peek_word 2 z Hin. eexists. split; [reflexivity|].
  assert (0 <= (if z =? 0 then 1 else byte_length z) <= 32) as HB.
  { rewrite Forall_forall in Hw. specialize (Hw z Hin). unfold byte_length.
    destruct (Z.eqb_spec z 0); [lia|]. destruct (Z.leb_spec z 0); [lia|].
    pose proof (Z.log2_nonneg z). pose proof (Z.log2_lt_pow2 z 256 ltac:(lia)).
    pose proof (Z.div_pos (Z.log2 z) 8 ltac:(lia) ltac:(lia)).
    assert (Z.log2 z / 8 < 32) by (apply Z.div_lt_upper_bound; lia). lia. }
  set (n := if z =? 0 then 1 else byte_length z) in *. clearbody n.
  unfold getLenBytes, expAd, getLenBits. handler_bound_tac.
Qed.

Lemma opCalldataCopy_ok op :
  sizePositions op = [3] -> handler_ok op opCalldataCopy.
Proof.
  intros Hop. handler_start. unfold opCalldataCopy, ret.
  destruct (PeekAt_ok _ 3 ltac:(lia) Hlen) as (z & E & _). rewrite E. cbn [mbind outcome_bind].
  pose proof (Hsz 3 z ltac:(rewrite Hop; by left) E) as H.
  set (n := i64 (u64 z)) in *. clearbody n.
  eexists. split; [reflexivity|]. size_facts n. handler_bound_tac.
Qed.

(** ** The handlers that read sizes *)

Lemma opExtCodeCopy_ok : handler_ok 0x3c opExtCodeCopy.
Proof.
  handler_start. unfold opExtCodeCopy, ret. peek_word 1 a Ha. peek_size 4 n Hn.
  eexists. split; [reflexivity|].
  pose proof (Hi (Bytes20 a)) as Hc. set (c := GetCodeSize i (Bytes20 a)) in *. clearbody c.
  pose proof (ceil_div_f_bounds c 56 ltac:(lia) ltac:(lia)).
  assert (Spends (reading (fun cc0 => Deduct kP (2 * smtLevels cc0 + ceil_div_f c 56)))
            (2 * 2 ^ 10 + c)).
  { apply spends_reading; [|lia]. intros cc0 Hp0. unfold params_ok in Hp0.
    eapply spends_le; [apply spends_deduct|]; lia. }
  handler_bound_tac.
Qed.

Lemma opCodeCopy_ok : handler_ok 0x39 opCodeCopy.
Proof.
  handler_start. unfold opCodeCopy. peek_size 3 n Hn.
  destruct (negb (n =? 0)); [|by exists skipOp; split; [|handler_bound_tac]].
  destruct (IsCreate (Contract scope) || isDeploy (opCode scope cc)).
  - unfold opCalldataCopy, ret. rewrite E. cbn [mbind outcome_bind].
    pose proof (Hsz 3 z ltac:(apply list_elem_of_In; vm_compute; tauto) E) as Hn'.
    set (m := i64 (u64 z)) in *. clearbody m.
    exists (opCode scope ;; (if negb (m =? 0) then
         opCode scope ;; Deduct kS 100 ;; Deduct kB 2 ;; saveMem m ;; offsetUtil ;;
         multiCall opCalldataCopyLoop (Z.shiftr m 5) ;;
         readFromCallDataOffset ;; multiCall mStoreX 2 else skipOp)).
    split; [done|]. size_facts m. handler_bound_tac.
  - exists (opCode scope ;; Deduct kS 40 ;; Deduct kB 3 ;; saveMem n ;; divArith ;; mulArith ;;
      multiCall opCodeCopyLoop n).
    split; [done|]. handler_bound_tac.
Qed.

Lemma opReturnDataCopy_ok : handler_ok 0x3e opReturnDataCopy.
Proof.
  handler_start. unfold opReturnDataCopy, ret. peek_size 3 n Hn.
  eexists. split; [reflexivity|]. size_facts n. handler_bound_tac.
Qed.

(** A 64-bit number has between one and eight relevant bytes. *)
Lemma firstNonZero_bounds l : forall i, 0 <= i -> 0 <= firstNonZero l i <= i + Z.of_nat (length l).
Proof.
  induction l as [|b l IH]; intros i Hi; cbn [firstNonZero length]; [lia|].
  destruct (b =? 0); [|lia]. specialize (IH (i + 1) ltac:(lia)). lia.
Qed.

Lemma nonce_bytes_bounds n : 0 <= getRelevantNumberBytes (Uint64ToBytes n) <= 8.
Proof.
  unfold getRelevantNumberBytes, Uint64ToBytes.
  pose proof (firstNonZero_bounds (be_encode 8 n) 0 ltac:(lia)).
  rewrite be_encode_length in *. lia.
Qed.

Lemma opCreate_ok : handler_ok 0xf0 opCreate.
Proof.
  handler_start. unfold opCreate, ret. peek_size 3 n Hn. eexists. split; [reflexivity|].
  pose proof (nonce_bytes_bounds (u64 (GetStateNonce i (CallerAddress (Contract scope)) + 1))) as Hb.
  set (b := getRelevantNumberBytes _) in *. clearbody b.
  pose proof (reading_call_spends n false true false M Hn ltac:(lia)).
  unfold getLenBytes. handler_bound_tac.
Qed.

Lemma opCreate2_ok : handler_ok 0xf5 opCreate2.
Proof.
  handler_start. unfold opCreate2, ret. peek_size 3 n Hn. eexists. split; [reflexivity|].
  pose proof (nonce_bytes_bounds (u64 (GetStateNonce i (CallerAddress (Contract scope)) + 1))) as Hb.
  set (b := getRelevantNumberBytes _) in *. clearbody b.
  pose proof (reading_call_spends n false false true M Hn ltac:(lia)).
  unfold getLenBytes. handler_bound_tac.
Qed.

(** The four call opcodes. *)
Ltac handler_call p q :=
  handler_start;
  lazymatch goal with |- exists g, ?f _ _ _ = _ /\ _ => unfold f, ret end;
  let a := fresh "a" in let Ha := fresh in let n := fresh "n" in let Hn := fresh in
  let m := fresh "m" in let Hm := fresh in
  peek_word 2 a Ha; peek_size p n Hn; peek_size q m Hm;
  eexists; split; [reflexivity|];
  match goal with Hi : interp_ok ?M ?i |- _ =>
    pose proof (reading_call_spends (GetCodeSize i (Bytes20 a)) false false false M
      (Hi (Bytes20 a)) ltac:(lia))
  end;
  handler_bound_tac.

Lemma opCall_ok : handler_ok 0xf1 opCall.
Proof. handler_call 5 7. Qed.
Lemma opCallCode_ok : handler_ok 0xf2 opCallCode.
Proof. handler_call 5 7. Qed.
Lemma opDelegateCall_ok : handler_ok 0xf4 opDelegateCall.
Proof. handler_call 4 6. Qed.
Lemma opStaticCall_ok : handler_ok 0xfa opStaticCall.
Proof. handler_call 4 6. Qed.

Lemma opReturn_ok : handler_ok 0xf3 opReturn.
Proof.
  handler_start. unfold opReturn, ret. peek_size 2 n Hn. eexists. split; [reflexivity|].
  unfold hashPoseidonLinearFromMemory. size_facts n. handler_bound_tac.
Qed.

Lemma opRevert_ok : handler_ok 0xfd opRevert.
Proof.
  handler_start. unfold opRevert, ret. peek_size 2 n Hn. eexists. split; [reflexivity|].
  size_facts n. handler_bound_tac.
Qed.

Lemma opSha3_ok : handler_ok 0x20 opSha3.
Proof.
  handler_start. unfold opSha3, ret. peek_size 2 n Hn. eexists. split; [reflexivity|].
  size_facts n. handler_bound_tac.
Qed.

(** [math.Ceil(float64(size)/56)+4] with a size that may be zero. *)
Lemma ceil_add_bounds n d k :
  0 <= n < 2 ^ 52 -> 0 < d < 2 ^ 53 -> 0 < k < 2 ^ 52 -> 0 <= ceil_div_add_f n d k <= n + k.
Proof.
  intros Hn Hd Hk. destruct (decide (n = 0)) as [->|].
  - unfold ceil_div_add_f. rewrite ceil_div_f_0 by done.
    change (of_int 0) with (F64 0 0).
    destruct (of_int_exact k ltac:(lia)) as (s & Hs & Heq). rewrite Heq.
    unfold fadd. rewrite fnum_neg, fden_neg by lia.
    change (fnum (F64 0 0)) with 0. change (fden (F64 0 0)) with 1.
    pose proof (Z.pow_pos_nonneg 2 s ltac:(lia) Hs).
    replace (0 * 2 ^ s + k * 2 ^ s * 1) with (k * 2 ^ s) by lia.
    rewrite (Z.mul_comm 1), <- (Z.mul_comm 1).
    destruct (round_ratio_integer k 1 (2 ^ s)) as (u & Hu & ->); [lia|lia|lia|apply Z.mod_1_r|].
    pose proof (Z.pow_pos_nonneg 2 u ltac:(lia) Hu).
    rewrite Z.div_1_r, (Floor_between k) by nia. lia.
  - rewrite ceil_div_add_f_spec by lia. pose proof (cdiv_bounds n d ltac:(lia) ltac:(lia)). lia.
Qed.

Lemma log_ok op : sizePositions op = [2] -> handler_ok op log.
Proof.
  intros Hop. handler_start. unfold log, ret.
  destruct (PeekAt_ok _ 2 ltac:(lia) Hlen) as (z & E & _). rewrite E. cbn [mbind outcome_bind].
  pose proof (Hsz 2 z ltac:(rewrite Hop; by left) E) as Hn.
  set (n := i64 (u64 z)) in *. clearbody n. eexists. split; [reflexivity|].
  pose proof (ceil_add_bounds n 56 4 ltac:(lia) ltac:(lia) ltac:(lia)).
  size_facts n. handler_bound_tac.
Qed.

(** Dispatch on the handler: the ones above by their lemma, the others by
    computing their bound. *)
Ltac handler_entry :=
  lazymatch goal with
  | |- handler_ok _ opExp => exact opExp_ok
  | |- handler_ok _ opCalldataCopy => apply opCalldataCopy_ok; reflexivity
  | |- handler_ok _ opExtCodeCopy => exact opExtCodeCopy_ok
  | |- handler_ok _ opCodeCopy => exact opCodeCopy_ok
  | |- handler_ok _ opReturnDataCopy => exact opReturnDataCopy_ok
  | |- handler_ok _ opCreate => exact opCreate_ok
  | |- handler_ok _ opCreate2 => exact opCreate2_ok
  | |- handler_ok _ opCall => exact opCall_ok
  | |- handler_ok _ opCallCode => exact opCallCode_ok
  | |- handler_ok _ opDelegateCall => exact opDelegateCall_ok
  | |- handler_ok _ opStaticCall => exact opStaticCall_ok
  | |- handler_ok _ opReturn => exact opReturn_ok
  | |- handler_ok _ opRevert => exact opRevert_ok
  | |- handler_ok _ opSha3 => exact opSha3_ok
  | |- handler_ok _ ?f => first [is_log f; apply log_ok; reflexivity | handler_simple]
  end
with is_log f := lazymatch eval unfold opLog0, opLog1, opLog2, opLog3, opLog4 in f with log => idtac end.

Lemma counterTable_ok : Forall (fun e => handler_ok (fst e) (snd e)) counterTable.
Proof.
  unfold counterTable.
  repeat (apply Forall_cons; split; cbn [fst snd]); [handler_entry..|apply Forall_nil; exact I].
Qed.

Lemma SimpleCounterOperations_ok op f : SimpleCounterOperations op = Some f -> handler_ok op f.
Proof.
  unfold SimpleCounterOperations. intros H.
  destruct (list_find _ counterTable) as [[j [o g]]|] eqn:E; [|discriminate H].
  injection H as <-. apply list_find_Some in E as (Hl & Ho & _). simpl in Ho. subst o.
  apply (Forall_lookup_1 _ _ _ _ counterTable_ok Hl).
Qed.

(** ** Deductions without wrap-around *)

(** Every counter can take another [n] without leaving the range of [int]. *)
Definition headroom (n : Z) (cc : CounterCollector) : Prop :=
  Forall (fun c => - 2 ^ 63 <= remaining c - n /\ used c + n < 2 ^ 63) (counters cc).

(** What happened to a counter when at most [n] was spent: the same counter, at
    most [n] more used, and exactly as much less remaining. *)
Definition counter_step (n : Z) (c c' : Counter) : Prop :=
  used c <= used c' <= used c + n /\ remaining c' + used c' = remaining c + used c /\
  name c' = name c /\ initialAmount c' = initialAmount c.

Lemma spent_exact w n cc cc' :
  wf cc -> headroom n cc -> spent w cc cc' -> (forall k, 0 <= w k <= n) ->
  Forall2 (counter_step n) (counters cc) (counters cc').
Proof.
  intros [_ Hwf] Hh [E _] Hw. rewrite E. apply Forall2_lookup. intros i.
  rewrite list_lookup_imap. destruct (counters cc !! i) as [c|] eqn:Hi; simpl; constructor.
  pose proof (Forall_lookup_1 _ _ _ _ Hwf Hi) as (H1 & H2 & _).
  pose proof (Forall_lookup_1 _ _ _ _ Hh Hi) as (H3 & H4). simpl in H3, H4.
  specialize (Hw (keyAt i)). pose proof (i64_range (remaining c)). pose proof (i64_range (used c)).
  unfold counter_step, deduct_counter; simpl.
  rewrite !i64_small by lia. repeat split; lia.
Qed.

(** A fresh collector has room for any sum the node can reach. *)
Lemma fresh_headroom levels fork n :
  0 <= n < 2 ^ 62 -> headroom n (NewCounterCollector levels fork).
Proof.
  intros Hn. unfold headroom.
  assert (Forall (fun a => 0 < a < 2 ^ 26)
            (map remaining (counters (NewCounterCollector levels fork)))) as H1.
  { destruct (NewCounterCollector_fresh levels fork) as (-> & _). apply exactLimits_range. }
  destruct (NewCounterCollector_fresh levels fork) as (_ & H2).
  rewrite Forall_map in H1. eapply Forall_impl; [exact (proj2 (Forall_and _ _) (conj H1 H2))|].
  simpl. intros c [? ->]. lia.
Qed.

Lemma counter_step_trans n m a b c :
  counter_step n a b -> counter_step m b c -> counter_step (n + m) a c.
Proof. intros (?&?&?&?) (?&?&?&?). unfold counter_step. repeat split; try lia; congruence. Qed.

Lemma steps_headroom n m cc cc' :
  0 <= n -> headroom (n + m) cc ->
  Forall2 (counter_step n) (counters cc) (counters cc') -> headroom m cc'.
Proof.
  intros Hn Hh H2. unfold headroom in *. apply Forall_lookup. intros i c' Hi.
  destruct (Forall2_lookup_r _ _ _ _ _ H2 Hi) as (c & Hc & Hu & Hr & _).
  pose proof (Forall_lookup_1 _ _ _ _ Hh Hc) as [? ?]. simpl in *. lia.
Qed.

Lemma steps_trans n m (l1 l2 l3 : list Counter) :
  Forall2 (counter_step n) l1 l2 -> Forall2 (counter_step m) l2 l3 ->
  Forall2 (counter_step (n + m)) l1 l3.
Proof.
  intros H1 H2. revert l3 H2. induction H1 as [|a b l l' Hab _ IH]; intros l3 H2; inversion H2; subst;
    constructor; [by eapply counter_step_trans|auto].
Qed.

Lemma steps_overflown n l1 l2 :
  Forall2 (counter_step n) l1 l2 ->
  existsb (fun c => remaining c <? 0) l1 = true -> existsb (fun c => remaining c <? 0) l2 = true.
Proof.
  induction 1 as [|c c' l l' (Hu & Hr & _) _ IH]; [done|]. simpl.
  rewrite !orb_true_iff. intros [H|H]; [left|right; auto].
  apply Z.ltb_lt in H. apply Z.ltb_lt. lia.
Qed.

(** ** A run of handlers *)

(** The opcodes the interpreter executes, each with the state it sees; an
    opcode without a handler leaves the counters alone. *)
Fixpoint runHandlers (evs : list (Z * EVMInterpreter * ScopeContext)) (cc : CounterCollector)
  : outcome CounterCollector :=
  match evs with
  | [] => Ok cc
  | (op, i, scope) :: rest =>
      match SimpleCounterOperations op with
      | None => runHandlers rest cc
      | Some f => cc' ← f i scope cc; runHandlers rest cc'
      end
  end.

Definition event_ok (M : Z) (ev : Z * EVMInterpreter * ScopeContext) : Prop :=
  let '(op, i, scope) := ev in stack_ok op M (Stack scope) /\ interp_ok M i.

Lemma steps_refl n (l : list Counter) : 0 <= n -> Forall2 (counter_step n) l l.
Proof.
  intros Hn. apply Forall2_lookup. intros i. destruct (l !! i); constructor.
  repeat split; lia.
Qed.

Lemma runHandlers_steps M evs : forall cc,
  0 <= M < 2 ^ 40 -> Forall (event_ok M) evs -> wf cc -> params_ok cc ->
  headroom (Z.of_nat (length evs) * handler_bound M) cc ->
  exists cc', runHandlers evs cc = Ok cc' /\ wf cc' /\
    Forall2 (counter_step (Z.of_nat (length evs) * handler_bound M)) (counters cc) (counters cc').
Proof.
  induction evs as [|[[op i] scope] evs IH]; intros cc HM Hev Hwf Hp Hh.
  { exists cc. split; [done|]. split; [done|]. by apply steps_refl. }
  apply Forall_cons in Hev as [[Hst Hi] Hev].
  assert (0 <= handler_bound M) as HB by (unfold handler_bound; lia).
  replace (Z.of_nat (length ((op, i, scope) :: evs)) * handler_bound M)
    with (handler_bound M + Z.of_nat (length evs) * handler_bound M) in * by (cbn [length]; lia).
  cbn [runHandlers].
  destruct (SimpleCounterOperations op) as [f|] eqn:Ef.
  - destruct (SimpleCounterOperations_ok op f Ef M i scope cc) as (g & -> & _ & Hg); [done..|].
    cbn [mbind outcome_bind]. destruct (Hg cc Hwf Hp) as (w & Hs & Hb).
    assert (Forall2 (counter_step (handler_bound M)) (counters cc) (counters (g cc))) as H1.
    { eapply spent_exact; [done| |done..]. unfold headroom in *. eapply Forall_impl; [exact Hh|].
      simpl. intros c Hc. nia. }
    destruct (IH (g cc)) as (cc' & Hrun & Hwf' & H2); [done|done|by eapply spent_wf|
      by eapply spent_params|by eapply steps_headroom|].
    exists cc'. split; [done|]. split; [done|]. by eapply steps_trans.
  - destruct (IH cc) as (cc' & Hrun & Hwf' & H2); [done..| |].
    { eapply (steps_headroom (handler_bound M)); [done|exact Hh|by apply steps_refl]. }
    exists cc'. split; [done|]. split; [done|].
    eapply steps_trans; [by apply (steps_refl (handler_bound M))|done].
Qed.

(** C20: conservation.  Take any sequence of opcodes with stacks deep enough and
    sizes of at most [M] bytes, run from a well-formed collector whose counters
    have room for the stated linear bound.  Every handler succeeds, and for each
    of the eight counters the amount used never goes down, grows by at most
    [2^11 * M + 2^17] per opcode, and [remaining + used] does not change: no
    deduction is lost, none is negative, and no [int] wraps around. *)
Theorem handlers_conserve M evs cc :
  0 <= M < 2 ^ 40 -> Forall (event_ok M) evs -> wf cc -> params_ok cc ->
  headroom (Z.of_nat (length evs) * handler_bound M) cc ->
  exists cc', runHandlers evs cc = Ok cc' /\ wf cc' /\
    Forall2 (counter_step (Z.of_nat (length evs) * handler_bound M)) (counters cc) (counters cc').
Proof. apply runHandlers_steps. Qed.

(** A collector as a transaction of fork 13 starts with, and a stack for the
    opcodes below: [KECCAK256] of 64 bytes, then [ADD]. *)
Definition example_cc : CounterCollector := NewCounterCollector 80 13.
Definition example_scope : ScopeContext :=
  mkScope [7; 6; 5; 4; 3; 64; 0] (mkContract false false 1).
Definition example_interp : EVMInterpreter := mkInterpreter (fun _ => 0) (fun _ => 0).

Lemma example_headroom n : 0 <= n < 2 ^ 62 -> headroom n example_cc.
Proof. apply fresh_headroom. Qed.

Lemma handlers_conserve_witness :
  exists cc', runHandlers [(0x20, example_interp, example_scope); (0x01, example_interp, example_scope)]
                example_cc = Ok cc' /\ wf cc' /\
    Forall2 (counter_step (2 * handler_bound 64)) (counters example_cc) (counters cc').
Proof.
  apply (handlers_conserve 64 [(0x20, example_interp, example_scope); (0x01, example_interp, example_scope)]
    example_cc).
  - lia.
  - repeat (apply Forall_cons; split); [..|by apply Forall_nil];
      (split; [|intros a; simpl; lia]); (split; [simpl; lia|split]).
    1,3: repeat (apply Forall_cons; split; [lia|]); by apply Forall_nil.
    + intros p z Hp Hz. apply list_elem_of_In in Hp. vm_compute in Hp.
      destruct Hp as [<-|[]]. vm_compute in Hz. injection Hz as <-. vm_compute. intuition discriminate.
    + intros p z Hp. apply list_elem_of_In in Hp. vm_compute in Hp. destruct Hp.
  - apply NewCounterCollector_wf.
  - unfold params_ok. simpl. lia.
  - apply example_headroom. vm_compute. intuition discriminate.
Defined.

(** ** The early exit of [multiCall] *)

Lemma iter_steps f n m cc :
  Spends f n -> wf cc -> params_ok cc -> headroom (Z.of_nat m * n) cc ->
  wf (Nat.iter m f cc) /\ params_ok (Nat.iter m f cc) /\
  Forall2 (counter_step (Z.of_nat m * n)) (counters cc) (counters (Nat.iter m f cc)).
Proof.
  intros Hf Hwf Hp Hh. destruct (spends_iter f n m Hf) as [_ Hi].
  destruct (Hi cc Hwf Hp) as (w & Hs & Hb).
  split; [by eapply spent_wf|]. split; [by eapply spent_params|]. by eapply spent_exact.
Qed.

(** The early exit of [multiCall] is harmless.  For an operation that spends
    at most [n] per call, with room for all the requested rounds, the guarded
    loop either does exactly what the plain loop does, or both overflow: it never
    turns an overflow into a success nor the other way round. *)
Theorem multiCall_early_exit f n t cc :
  Spends f n -> 0 <= t -> wf cc -> params_ok cc -> headroom (t * n) cc ->
  isOverflown (multiCall f t cc) = isOverflown (loop t f cc) /\
  (isOverflown (loop t f cc) = false -> multiCall f t cc = loop t f cc).
Proof.
  intros Hf Ht Hwf Hp Hh. pose proof (@spends_nonneg _ _ Hf) as Hn.
  unfold multiCall, loop.
  destruct (multiCallFrom_prefix f (Z.to_nat t) 0 cc) as (m & Hm & -> & Hor & _).
  destruct Hor as [->|Ho]; [done|].
  assert (isOverflown (Nat.iter (Z.to_nat t) f cc) = true) as ->; [|by rewrite Ho].
  replace (Z.to_nat t) with ((Z.to_nat t - m) + m)%nat by lia. rewrite Nat.iter_add.
  assert (headroom (Z.of_nat m * n + Z.of_nat (Z.to_nat t - m) * n) cc) as Hh'.
  { replace (Z.of_nat m * n + Z.of_nat (Z.to_nat t - m) * n) with (t * n) by nia. done. }
  destruct (iter_steps f n m cc Hf Hwf Hp) as (Hwf1 & Hp1 & H1).
  { eapply Forall_impl; [exact Hh'|]. simpl. intros c Hc. nia. }
  destruct (iter_steps f n (Z.to_nat t - m) _ Hf Hwf1 Hp1) as (_ & _ & H2).
  { eapply steps_headroom; [|exact Hh'|exact H1]. nia. }
  by eapply steps_overflown.
Qed.

Lemma multiCall_early_exit_witness :
  isOverflown (multiCall SHRarith 3 example_cc) = isOverflown (loop 3 SHRarith example_cc) /\
  (isOverflown (loop 3 SHRarith example_cc) = false ->
   multiCall SHRarith 3 example_cc = loop 3 SHRarith example_cc).
Proof.
  apply (multiCall_early_exit SHRarith 100 3 example_cc).
  - eapply spends_le; [spend_all|lia].
  - lia.
  - apply NewCounterCollector_wf.
  - unfold params_ok. simpl. lia.
  - apply example_headroom. lia.
Defined.

(** An operation that takes at least one unit of [k] at each call. *)
Definition drains (k : CounterKey) (n : Z) (f : Op) : Prop :=
  forall cc, wf cc -> params_ok cc ->
    exists w, spent w cc (f cc) /\ (forall j, 0 <= w j <= n) /\ 1 <= w k.

Lemma drains_deduct_seq k a n g m :
  1 <= a -> Spends g m -> a + m <= n -> drains k n (Deduct k a ;; g).
Proof.
  intros Ha Hg Hn cc Hwf Hp. pose proof (spent_deduct k a cc Hwf) as H1.
  destruct (@spends _ _ Hg (Deduct k a cc)) as (w & H2 & B);
    [by eapply spent_wf|by eapply spent_params|].
  eexists. split; [exact (spent_trans _ _ _ _ _ H1 H2)|]. cbv beta.
  pose proof (@spends_nonneg _ _ Hg). split.
  - intros j. specialize (B j). case_decide; lia.
  - specialize (B k). rewrite decide_True by done. lia.
Qed.

Lemma drains_iter k n f m cc :
  drains k n f -> wf cc -> params_ok cc ->
  exists w, spent w cc (Nat.iter m f cc) /\ (forall j, 0 <= w j <= Z.of_nat m * n) /\
    Z.of_nat m <= w k.
Proof.
  intros Hd Hwf Hp. induction m as [|m (w1 & H1 & B1 & L1)].
  { exists (fun _ => 0). split; [by apply spent_refl|]. split; lia. }
  destruct (Hd (Nat.iter m f cc)) as (w2 & H2 & B2 & L2);
    [by eapply spent_wf|by eapply spent_params|].
  exists (fun j => w1 j + w2 j). split; [by eapply spent_trans|].
  split; [intros j; specialize (B1 j); specialize (B2 j)|]; lia.
Qed.

(** After more rounds than [k] had units left, the collector is overflown. *)
Lemma drained_overflown k n f m c cc :
  drains k n f -> wf cc -> params_ok cc -> headroom (Z.of_nat m * n) cc ->
  counters cc !! keyIndex k = Some c -> remaining c < Z.of_nat m ->
  isOverflown (Nat.iter m f cc) = true.
Proof.
  intros Hd Hwf Hp Hh Hc Hlt.
  destruct (drains_iter k n f m cc Hd Hwf Hp) as (w & [E _] & B & L).
  unfold isOverflown. rewrite E. apply existsb_exists.
  exists (deduct_counter (w k) c). split.
  - apply list_elem_of_In, list_elem_of_lookup. exists (keyIndex k).
    rewrite list_lookup_imap, Hc. simpl. by rewrite keyIndex_keyAt.
  - pose proof (Forall_lookup_1 _ _ _ _ Hh Hc) as [H1 _]. simpl in H1.
    destruct Hwf as [_ Hwf]. pose proof (Forall_lookup_1 _ _ _ _ Hwf Hc) as (H2 & _).
    pose proof (i64_range (remaining c)). specialize (B k). simpl.
    apply Z.ltb_lt. rewrite i64_small by lia. lia.
Qed.

(** C24: the early exit bounds the work.  If each call takes at least one unit
    from the counter [k], the guarded loop runs at most [remaining + 1001]
    rounds, however many are asked for: the round at which the check finds the
    counter negative comes at most a thousand rounds after it went negative. *)
Theorem multiCall_bounded k n f t c cc :
  drains k n f -> 0 <= n -> 0 <= t -> wf cc -> params_ok cc -> headroom (t * n) cc ->
  counters cc !! keyIndex k = Some c -> 0 <= remaining c ->
  exists m, 0 <= m <= remaining c + 1001 /\ multiCall f t cc = loop m f cc.
Proof.
  intros Hd Hn Ht Hwf Hp Hh Hc Hr. unfold multiCall, loop.
  destruct (multiCallFrom_prefix f (Z.to_nat t) 0 cc) as (m & Hm & -> & _ & Hj).
  exists (Z.of_nat m). rewrite Nat2Z.id. split; [|done]. split; [lia|].
  destruct (Z.le_gt_cases (Z.of_nat m) (remaining c + 1001)) as [|Hgt]; [done|exfalso].
  set (j := (1000 * (remaining c / 1000 + 1))).
  pose proof (Z.div_mod (remaining c) 1000 ltac:(lia)).
  pose proof (Z.mod_pos_bound (remaining c) 1000 ltac:(lia)).
  assert (isOverflown (Nat.iter (Z.to_nat j) f cc) = false) as Hno.
  { apply Hj; [lia|]. rewrite Z.add_0_l, Z2Nat.id by lia. unfold j.
    rewrite Z.mul_comm. by apply Z.mod_mul. }
  rewrite (drained_overflown k n f (Z.to_nat j) c cc) in Hno; [done|done..| |done|lia].
  eapply Forall_impl; [exact Hh|]. simpl. intros c0 Hc0. nia.
Qed.

Lemma multiCall_bounded_witness :
  exists m, 0 <= m <= 31876521 + 1001 /\ multiCall SHRarith (2 ^ 40) example_cc = loop m SHRarith example_cc.
Proof.
  destruct (counters example_cc !! keyIndex kS) as [c|] eqn:E;
    [|vm_compute in E; discriminate E].
  assert (remaining c = 31876521) as Hc.
  { vm_compute in E. injection E as <-. reflexivity. }
  rewrite <- Hc.
  apply (multiCall_bounded kS 100 SHRarith (2 ^ 40) c example_cc).
  - eapply drains_deduct_seq; [lia|spend_all|lia].
  - lia.
  - lia.
  - apply NewCounterCollector_wf.
  - unfold params_ok. simpl. lia.
  - apply example_headroom. lia.
  - exact E.
  - lia.
Defined.

(** ** The p256 precompile *)

Lemma P256_four_x x : (SECP256R1_P | 4 * x) -> (SECP256R1_P | x).
Proof. intros H. apply (Z.gauss _ 4); [exact H|reflexivity]. Qed.

(** The counters of p256verify are too low on every valid public key.  On a
    point of the curve with a first coordinate other than zero, and any in-range
    signature, the curve check of the estimate fails, because the product
    [a * x] is dropped from its right-hand side: 104 steps are deducted where the
    verification of such a key costs 7718. *)
Theorem p256_valid_keys_undercounted r s x y cc :
  0 < r < SECP256R1_P -> 0 < s < SECP256R1_P -> 0 < x < SECP256R1_P -> 0 <= y < SECP256R1_P ->
  y ^ 2 mod SECP256R1_P = (x ^ 3 + SECP256R1_A * x + SECP256R1_B) mod SECP256R1_P ->
  p256verify r s x y cc = (Deduct kS 104 ;; Deduct kB 15 ;; Deduct kA 12) cc.
Proof.
  intros Hr Hs Hx Hy Hcurve. unfold p256verify.
  change SECP256R1_N_MINUS_ONE with (SECP256R1_P - 1). change SECP256R1_P_MINUS_ONE with (SECP256R1_P - 1).
  rewrite (proj2 (Z.eqb_neq r 0)), (proj2 (Z.eqb_neq s 0)), (proj2 (Z.eqb_neq x 0)) by lia.
  rewrite !(proj2 (Z.ltb_ge (SECP256R1_P - 1) _)) by lia. cbn [andb]. cbv zeta. rewrite Z.add_mod_idemp_l by done.
  destruct (_ =? _) eqn:Heq; [|reflexivity]. apply Z.eqb_eq in Heq. exfalso.
  rewrite Hcurve in Heq. assert (SECP256R1_P | 4 * x) as H4.
  { apply Z.cong_iff_0 in Heq. apply Z.mod_divide in Heq; [|done].
    replace (4 * x) with (SECP256R1_P * x - (x ^ 3 + SECP256R1_A * x + SECP256R1_B - (x ^ 3 + (x + SECP256R1_B)))).
    - apply Z.divide_sub_r; [apply Z.divide_factor_l|done].
    - change SECP256R1_P with (SECP256R1_A + 3). ring. }
  apply P256_four_x, Z.divide_pos_le in H4; lia.
Qed.

(** The base point of the curve. *)
Lemma p256_valid_keys_undercounted_witness :
  p256verify 1 1 0x6B17D1F2E12C4247F8BCE6E563A440F277037D812DEB33A0F4A13945D898C296
    0x4FE342E2FE1A7F9B8EE7EB4A7C0F9E162BCE33576B315ECECBB6406837BF51F5 example_cc =
  (Deduct kS 104 ;; Deduct kB 15 ;; Deduct kA 12) example_cc.
Proof.
  apply (p256_valid_keys_undercounted 1 1); [done..|]. vm_compute. reflexivity.
Defined.
