(* ===== verification/Rlp.v ===== *)
(** * RLP of lists of byte strings

    The part of the [rlp] package that the batch data uses: [EncodeToBytes] and
    [DecodeBytes] on a [[][]byte].  The encoder keeps the source's buffer of
    string data with the list headers on the side; the decoder is the source's
    [Stream] as a state machine over the unread input, with the stack of open
    lists and the cached kind of the value ahead.

    Shown: decoding an encoding gives the fields back, and every input that
    decodes is the encoding of what it decodes to. *)
From S2P Require Import Prelude Bytes.

(** ** The encoder (rlp/encode.go) *)

Record listhead := mkHead { lh_offset : Z; lh_size : Z }.

Record encbuf := mkBuf { enc_str : list Z; lheads : list listhead; lhsize : Z }.

Definition blen (l : list Z) : Z := Z.of_nat (length l).

Definition putint (i : Z) : list Z :=
  if i <? 2 ^ 8 then be_encode 1 i
  else if i <? 2 ^ 16 then be_encode 2 i
  else if i <? 2 ^ 24 then be_encode 3 i
  else if i <? 2 ^ 32 then be_encode 4 i
  else if i <? 2 ^ 40 then be_encode 5 i
  else if i <? 2 ^ 48 then be_encode 6 i
  else if i <? 2 ^ 56 then be_encode 7 i
  else be_encode 8 i.

Definition intsize (i : Z) : Z := byte_length i.

Definition puthead (smalltag largetag size : Z) : list Z :=
  if size <? 56 then [u8 (smalltag + u8 size)]
  else let b := putint size in u8 (largetag + blen b) :: b.

Definition encodeStringHeader (size : Z) : list Z :=
  if size <? 56 then [u8 (0x80 + u8 size)]
  else let b := putint size in u8 (0xB7 + blen b) :: b.

Definition encodeString (b : list Z) : list Z :=
  match b with
  | [x] => if x <=? 0x7F then [x] else encodeStringHeader 1 ++ b
  | _ => encodeStringHeader (blen b) ++ b
  end.

Definition writeBytes (b : list Z) (w : encbuf) : encbuf :=
  mkBuf (enc_str w ++ encodeString b) (lheads w) (lhsize w).

Definition encbuf_size (w : encbuf) : Z := blen (enc_str w) + lhsize w.

Definition list_open (w : encbuf) : nat * encbuf :=
  (length (lheads w), mkBuf (enc_str w) (lheads w ++ [mkHead (blen (enc_str w)) (lhsize w)]) (lhsize w)).

Definition listEnd (idx : nat) (w : encbuf) : outcome encbuf :=
  lh ← index (lheads w) (Z.of_nat idx);
  let sz := encbuf_size w - lh_offset lh - lh_size lh in
  heads ← store (lheads w) idx (mkHead (lh_offset lh) sz);
  Ok (mkBuf (enc_str w) heads
        (if sz <? 56 then lhsize w + 1 else lhsize w + (1 + intsize sz))).

(** [toBytes]: the string data with the headers put in at their offsets. *)
Fixpoint toBytesFrom (heads : list listhead) (strpos : Z) (str : list Z) : list Z :=
  match heads with
  | [] => drop (Z.to_nat strpos) str
  | h :: hs =>
      take (Z.to_nat (lh_offset h - strpos)) (drop (Z.to_nat strpos) str)
        ++ puthead 0xC0 0xF7 (lh_size h) ++ toBytesFrom hs (lh_offset h) str
  end.

Definition toBytes (w : encbuf) : list Z := toBytesFrom (lheads w) 0 (enc_str w).

(** [EncodeToBytes] on a [[][]byte]: the writer of [makeSliceWriter]. *)
Definition EncodeToBytes (fields : list (list Z)) : outcome (list Z) :=
  let '(idx, w) := list_open (mkBuf [] [] 0) in
  w ← listEnd idx (foldl (fun w b => writeBytes b w) w fields);
  Ok (toBytes w).

(** ** The decoder (rlp/decode.go) *)

Inductive Kind := KByte | KString | KList.

Inductive rlpError :=
| EOL | EOF | ErrUnexpectedEOF | ErrExpectedString | ErrExpectedList | ErrCanonSize
| ErrElemTooLarge | ErrValueTooLarge | errNotInList | errNotAtEOL | ErrMoreThanOneValue
| OutOfFuel.

(** [s_kind] is [None] where the source has the kind -1; the stack's top is its
    head.  [DecodeBytes] reads from a byte slice, so the stream is limited. *)
Record Stream := mkStream {
  s_r : list Z;
  s_remaining : Z;
  s_kind : option Kind;
  s_size : Z;
  s_byteval : Z;
  s_kinderr : option rlpError;
  s_stack : list (Z * Z);
}.

Definition set_s_r x s := mkStream x (s_remaining s) (s_kind s) (s_size s) (s_byteval s) (s_kinderr s) (s_stack s).
Definition set_s_remaining x s := mkStream (s_r s) x (s_kind s) (s_size s) (s_byteval s) (s_kinderr s) (s_stack s).
Definition set_s_kind x s := mkStream (s_r s) (s_remaining s) x (s_size s) (s_byteval s) (s_kinderr s) (s_stack s).
Definition set_s_size x s := mkStream (s_r s) (s_remaining s) (s_kind s) x (s_byteval s) (s_kinderr s) (s_stack s).
Definition set_s_byteval x s := mkStream (s_r s) (s_remaining s) (s_kind s) (s_size s) x (s_kinderr s) (s_stack s).
Definition set_s_kinderr x s := mkStream (s_r s) (s_remaining s) (s_kind s) (s_size s) (s_byteval s) x (s_stack s).
Definition set_s_stack x s := mkStream (s_r s) (s_remaining s) (s_kind s) (s_size s) (s_byteval s) (s_kinderr s) x.

(** Stream methods: the stream is updated also where an error is returned. *)
Definition SM (A : Type) : Type := Stream -> Stream * (rlpError + A).

#[export] Instance SM_ret : MRet SM := fun A a s => (s, inr a).
#[export] Instance SM_bind : MBind SM := fun A B f m s =>
  match m s with
  | (s', inl e) => (s', inl e)
  | (s', inr a) => f a s'
  end.
Definition sm_throw {A} (e : rlpError) : SM A := fun s => (s, inl e).
Definition sm_step {A} (f : Stream -> Stream * (rlpError + A)) : SM A := f.
Definition sm_modify (f : Stream -> Stream) : SM unit := fun s => (f s, inr tt).

Definition willRead (n : Z) : SM unit := fun s =>
  let s := set_s_kind None s in
  let take_remaining s :=
    if s_remaining s <? n then (s, inl ErrValueTooLarge)
    else (set_s_remaining (s_remaining s - n) s, inr tt) in
  match s_stack s with
  | (pos, size) :: st =>
      if u64 (size - pos) <? n then (s, inl ErrElemTooLarge)
      else take_remaining (set_s_stack ((u64 (pos + n), size) :: st) s)
  | [] => take_remaining s
  end.

Definition readByte : SM Z :=
  _ ← willRead 1;
  sm_step (fun s =>
    match s_r s with
    | [] => (s, inl ErrUnexpectedEOF)
    | b :: r => (set_s_r r s, inr b)
    end).

(** [readFull] into a buffer of [n] bytes. *)
Definition readFull (n : Z) : SM (list Z) :=
  _ ← willRead n;
  sm_step (fun s =>
    let k := Z.to_nat n in
    if decide (k <= length (s_r s))%nat
    then (set_s_r (drop k (s_r s)) s, inr (take k (s_r s)))
    else (set_s_r [] s, inl ErrUnexpectedEOF)).

Definition readUint (size : Z) : SM Z :=
  if size =? 0 then _ ← sm_modify (set_s_kind None); mret 0
  else if size =? 1 then readByte
  else
    buffer ← readFull size;
    match buffer with
    | 0 :: _ => sm_throw ErrCanonSize
    | _ => mret (be_decode buffer)
    end.

(** [readKind] returns a kind and a size also beside an error. *)
Definition readKind (s : Stream) : Stream * (Kind * Z * option rlpError) :=
  match readByte s with
  | (s1, inl e) =>
      (s1, (KByte, 0,
        match s_stack s1 with
        | [] => match e with
                | ErrUnexpectedEOF | ErrValueTooLarge => Some EOF
                | _ => Some e
                end
        | _ => Some e
        end))
  | (s1, inr b) =>
      let s1 := set_s_byteval 0 s1 in
      let sized k n :=
        match readUint n s1 with
        | (s2, inl e) => (s2, (k, 0, Some e))
        | (s2, inr size) => (s2, (k, size, if size <? 56 then Some ErrCanonSize else None))
        end in
      if b <? 0x80 then (set_s_byteval b s1, (KByte, 0, None))
      else if b <? 0xB8 then (s1, (KString, b - 0x80, None))
      else if b <? 0xC0 then sized KString (b - 0xB7)
      else if b <? 0xF8 then (s1, (KList, b - 0xC0, None))
      else sized KList (b - 0xF7)
  end.

(** [Stream.Kind]: the kind and size ahead, read once and then remembered. *)
Definition SKind : SM (Kind * Z) := fun s =>
  let answer s :=
    match s_kinderr s with
    | Some e => (s, inl e)
    | None => (s, inr (default KByte (s_kind s), s_size s))
    end in
  match s_kind s with
  | Some _ => answer s
  | None =>
      let s := set_s_kinderr None s in
      if (match s_stack s with (pos, size) :: _ => pos =? size | [] => false end)
      then (s, inl EOL)
      else
        let '(s1, (k, size, e)) := readKind s in
        let e' :=
          match e with
          | Some _ => e
          | None =>
              match s_stack s1 with
              | [] => if s_remaining s1 <? size then Some ErrValueTooLarge else None
              | (pos, lsize) :: _ =>
                  if u64 (lsize - pos) <? size then Some ErrElemTooLarge else None
              end
          end in
        answer (set_s_kinderr e' (set_s_size size (set_s_kind (Some k) s1)))
  end.

(** [Stream.Bytes] *)
Definition SBytes : SM (list Z) :=
  ks ← SKind;
  match ks with
  | (KByte, _) => sm_step (fun s => (set_s_kind None s, inr [s_byteval s]))
  | (KString, size) =>
      b ← readFull size;
      match b with
      | [x] => if x <? 128 then sm_throw ErrCanonSize else mret b
      | _ => mret b
      end
  | (KList, _) => sm_throw ErrExpectedString
  end.

Definition NewList (size : Z) (s : Stream) : Stream :=
  set_s_size 0 (set_s_kind None (set_s_stack ((0, size) :: s_stack s) s)).

(** [Stream.List] *)
Definition SList : SM Z :=
  ks ← SKind;
  match ks with
  | (KList, size) => _ ← sm_modify (NewList size); mret size
  | _ => sm_throw ErrExpectedList
  end.

(** [Stream.ListEnd] *)
Definition SListEnd : SM unit := fun s =>
  match s_stack s with
  | [] => (s, inl errNotInList)
  | (pos, size) :: st =>
      if negb (pos =? size) then (s, inl errNotAtEOL)
      else
        let st' := match st with
                   | [] => []
                   | (p, z) :: st => (u64 (p + size), z) :: st
                   end in
        (set_s_size 0 (set_s_kind None (set_s_stack st' s)), inr tt)
  end.

(** The element loop of a [[][]byte]; [EOL] ends it. *)
Fixpoint decodeSliceElems (fuel : nat) (acc : list (list Z)) : SM (list (list Z)) := fun s =>
  match fuel with
  | O => (s, inl OutOfFuel)
  | S fuel =>
      match SBytes s with
      | (s1, inl EOL) => (s1, inr acc)
      | (s1, inl e) => (s1, inl e)
      | (s1, inr b) => decodeSliceElems fuel (acc ++ [b]) s1
      end
  end.

Definition decodeListSlice (fuel : nat) : SM (list (list Z)) :=
  size ← SList;
  if size =? 0 then _ ← SListEnd; mret []
  else
    fields ← decodeSliceElems fuel [];
    _ ← SListEnd;
    mret fields.

Definition NewStream (b : list Z) : Stream := mkStream b (blen b) None 0 0 None [].

(** [DecodeBytes] into a [[][]byte].  Every element takes a byte of the input, so
    the length of the input is fuel enough ([DecodeBytes_total]). *)
Definition DecodeBytes (b : list Z) : rlpError + list (list Z) :=
  match decodeListSlice (S (length b)) (NewStream b) with
  | (_, inl e) => inl e
  | (s, inr fields) => match s_r s with [] => inr fields | _ => inl ErrMoreThanOneValue end
  end.

(** ** Sizes *)

Lemma putint_spec n : 1 <= n < 2 ^ 64 ->
  exists k : nat, putint n = be_encode k n /\ (1 <= k <= 8)%nat /\
    256 ^ (Z.of_nat k - 1) <= n < 256 ^ Z.of_nat k.
Proof.
  intros Hn. unfold putint.
  repeat case_match; repeat match goal with
    | H : (_ <? _) = true |- _ => apply Z.ltb_lt in H
    | H : (_ <? _) = false |- _ => apply Z.ltb_ge in H end;
  match goal with |- exists k, be_encode ?w _ = _ /\ _ => exists w end;
  (split; [done|split; [lia|]]);
  cbn [Z.of_nat Pos.of_succ_nat Pos.succ]; simpl Z.sub; lia.
Qed.

(** A nonempty string of bytes without a leading zero is the shortest encoding
    of its value. *)
Lemma putint_unique l :
  bytes_ok l -> (1 <= length l <= 8)%nat -> 1 <= be_decode l ->
  (length l = 1%nat \/ l !! 0%nat <> Some 0) -> putint (be_decode l) = l.
Proof.
  intros Hok Hlen Hpos Hlead.
  pose proof (be_decode_range l Hok) as Hr.
  assert (be_decode l < 2 ^ 64).
  { eapply Z.lt_le_trans; [apply Hr|]. change (2 ^ 64) with (256 ^ 8). apply Z.pow_le_mono_r; lia. }
  destruct (putint_spec (be_decode l)) as (k & -> & Hk & Hb); [lia|].
  assert (k = length l) as ->; [|by apply be_encode_decode].
  assert (256 ^ (Z.of_nat (length l) - 1) <= be_decode l).
  { destruct Hlead as [->|Hlead]; [simpl; lia|].
    destruct l as [|x l]; [simpl in Hlen; lia|]. rewrite be_decode_cons.
    inversion Hok as [|? ? [] Hok']; subst. pose proof (be_decode_range l Hok').
    assert (x <> 0) by (intros ->; by apply Hlead).
    replace (Z.of_nat (length (x :: l)) - 1) with (Z.of_nat (length l)) by (simpl; lia). nia. }
  destruct (Nat.lt_trichotomy k (length l)) as [?|[?|?]]; [exfalso|done|exfalso].
  - assert (256 ^ Z.of_nat k <= 256 ^ (Z.of_nat (length l) - 1)) by (apply Z.pow_le_mono_r; lia). lia.
  - assert (256 ^ Z.of_nat (length l) <= 256 ^ (Z.of_nat k - 1)) by (apply Z.pow_le_mono_r; lia). lia.
Qed.

Lemma putint_ok n : 1 <= n < 2 ^ 64 -> bytes_ok (putint n).
Proof. intros H. destruct (putint_spec n H) as (k & -> & _). apply be_encode_ok. Qed.

Lemma be_encode_head k n : 256 ^ Z.of_nat k <= n < 256 ^ Z.of_nat (S k) ->
  exists x l, be_encode (S k) n = x :: l /\ x <> 0.
Proof.
  intros [Hl Hu]. cbn [be_encode]. eexists _, _; split; [done|].
  assert (1 <= n / 256 ^ Z.of_nat k) by (apply Z.div_le_lower_bound; lia).
  assert (n / 256 ^ Z.of_nat k < 256).
  { apply Z.div_lt_upper_bound; [lia|]. rewrite Nat2Z.inj_succ, Z.pow_succ_r in Hu by lia. lia. }
  rewrite Z.mod_small; lia.
Qed.

(** ** Reading from the stream *)

(** How many bytes a value may still take, and the stream after [n] bytes. *)
Definition avail (s : Stream) : Z :=
  match s_stack s with
  | (pos, size) :: _ => size - pos
  | [] => s_remaining s
  end.

Definition stream_ok (s : Stream) : Prop :=
  s_remaining s = blen (s_r s) /\ bytes_ok (s_r s) /\ blen (s_r s) < 2 ^ 64 /\
  avail s <= s_remaining s /\
  match s_stack s with
  | (pos, size) :: _ => 0 <= pos <= size /\ size < 2 ^ 64
  | [] => True
  end.

Definition advance (n : Z) (s : Stream) : Stream :=
  mkStream (drop (Z.to_nat n) (s_r s)) (s_remaining s - n) None (s_size s) (s_byteval s)
    (s_kinderr s)
    (match s_stack s with (pos, size) :: st => (pos + n, size) :: st | [] => [] end).

Lemma blen_app l1 l2 : blen (l1 ++ l2) = blen l1 + blen l2.
Proof. unfold blen. rewrite length_app. lia. Qed.

Lemma blen_nonneg l : 0 <= blen l.
Proof. unfold blen. lia. Qed.

Lemma blen_drop n l : 0 <= n <= blen l -> blen (drop (Z.to_nat n) l) = blen l - n.
Proof. unfold blen. rewrite length_drop. lia. Qed.

Lemma bytes_ok_drop n l : bytes_ok l -> bytes_ok (drop n l).
Proof. apply Forall_drop. Qed.

Lemma bytes_ok_take n l : bytes_ok l -> bytes_ok (take n l).
Proof. apply Forall_take. Qed.

Lemma advance_ok n s : stream_ok s -> 0 <= n <= avail s ->
  stream_ok (advance n s) /\ avail (advance n s) = avail s - n.
Proof.
  intros (Hr & Hb & Hl & Ha & Hs) Hn.
  unfold stream_ok, advance, avail in *; simpl in *.
  rewrite blen_drop by (destruct (s_stack s) as [|[] ?]; lia).
  destruct (s_stack s) as [|[pos size] st]; simpl in *;
    (split; [split; [lia|split; [by apply bytes_ok_drop|repeat split; lia]]|lia]).
Qed.

Lemma willRead_ok n s : stream_ok s -> 0 <= n <= avail s ->
  willRead n s = (set_s_r (s_r s) (mkStream (s_r s) (s_remaining s - n) None (s_size s)
    (s_byteval s) (s_kinderr s)
    (match s_stack s with (pos, size) :: st => (pos + n, size) :: st | [] => [] end)), inr tt).
Proof.
  destruct s as [r rem k sz bv ke stack].
  intros (Hr & Hb & Hl & Ha & Hs) Hn. unfold willRead, avail in *. simpl in *.
  destruct stack as [|[pos size] st]; simpl.
  - destruct (Z.ltb_spec rem n); [lia|done].
  - rewrite u64_small by lia. destruct (Z.ltb_spec (size - pos) n); [lia|]. simpl.
    destruct (Z.ltb_spec rem n); [lia|]. rewrite u64_small by lia. done.
Qed.

Lemma willRead_short n s : stream_ok s -> avail s < n ->
  exists s' e, willRead n s = (s', inl e) /\ e <> EOL /\ e <> OutOfFuel.
Proof.
  destruct s as [r rem k sz bv ke stack].
  intros (Hr & Hb & Hl & Ha & Hs) Hn. unfold willRead, avail in *. simpl in *.
  destruct stack as [|[pos size] st]; simpl.
  - destruct (Z.ltb_spec rem n); [by eexists _, _|lia].
  - rewrite u64_small by lia. destruct (Z.ltb_spec (size - pos) n); [by eexists _, _|lia].
Qed.

Lemma readFull_ok n s : stream_ok s -> 0 <= n <= avail s ->
  readFull n s = (advance n s, inr (take (Z.to_nat n) (s_r s))).
Proof.
  intros Hs Hn. unfold readFull, mbind, SM_bind. rewrite willRead_ok by done.
  unfold sm_step; simpl. destruct Hs as (Hr & _ & _ & Ha & _).
  rewrite decide_True by (unfold blen in *; lia). done.
Qed.

Lemma readFull_short n s : stream_ok s -> avail s < n ->
  exists s' e, readFull n s = (s', inl e) /\ e <> EOL /\ e <> OutOfFuel.
Proof.
  intros Hs Hn. unfold readFull, mbind, SM_bind.
  destruct (willRead_short n s Hs Hn) as (s' & e & -> & ?). eauto.
Qed.

Lemma readByte_ok b r s : stream_ok s -> 1 <= avail s -> s_r s = b :: r ->
  readByte s = (advance 1 s, inr b).
Proof.
  intros Hs Ha Hr. unfold readByte, mbind, SM_bind. rewrite willRead_ok by (done || lia).
  unfold sm_step, advance; simpl. by rewrite Hr.
Qed.

Lemma readByte_short s : stream_ok s -> avail s < 1 ->
  exists s' e, readByte s = (s', inl e) /\ e <> EOL /\ e <> OutOfFuel.
Proof.
  intros Hs Hn. unfold readByte, mbind, SM_bind.
  destruct (willRead_short 1 s Hs Hn) as (s' & e & -> & ?). eauto.
Qed.

Lemma advance_advance a b s : 0 <= a -> 0 <= b ->
  advance a (advance b s) = advance (b + a) s.
Proof.
  intros. unfold advance; simpl. rewrite drop_drop.
  destruct (s_stack s) as [|[] ?]; f_equal; try lia; try (f_equal; lia); f_equal; f_equal; lia.
Qed.

(** ** Headers *)

(** Decide the comparisons of the goal, dropping the impossible branches. *)
Ltac ltb_cases :=
  repeat match goal with
         | |- context [?a <? ?b] => destruct (Z.ltb_spec a b); try lia
         end.

Inductive header_tags : Kind -> Z -> Z -> Prop :=
| string_tags : header_tags KString 0x80 0xB7
| list_tags : header_tags KList 0xC0 0xF7.

Lemma take_head {A} (b : A) r n : (1 <= n)%nat -> take n (b :: r) = b :: take (n - 1) r.
Proof. intros. destruct n; [lia|]. simpl. by rewrite Nat.sub_0_r. Qed.

Lemma advance_head b r bv s : s_r s = b :: r -> s_r (set_s_byteval bv (advance 1 s)) = r.
Proof. intros Hr. unfold advance. simpl s_r. by rewrite Hr. Qed.

Lemma readUint_ok w s : stream_ok s -> 1 <= w <= avail s ->
  (w = 1 \/ s_r s !! 0%nat <> Some 0) ->
  readUint w s = (advance w s, inr (be_decode (take (Z.to_nat w) (s_r s)))).
Proof.
  intros Hs Hw Hlead. unfold readUint.
  destruct (Z.eqb_spec w 0); [lia|].
  assert (1 <= blen (s_r s)) by (destruct Hs as (? & _ & _ & ? & _); lia).
  destruct (s_r s) as [|b r] eqn:Hr; [unfold blen in *; simpl in *; lia|].
  destruct (Z.eqb_spec w 1) as [->|].
  - rewrite (readByte_ok b r) by (done || lia). change (Z.to_nat 1) with 1%nat. simpl take.
    unfold be_decode; simpl. by rewrite Z.add_0_l.
  - destruct Hlead as [|Hlead]; [lia|]. unfold mbind, SM_bind.
    rewrite readFull_ok, Hr, take_head by (done || lia).
    destruct b; [by simpl in Hlead|done|done].
Qed.

Lemma readUint_inv w s s' n : stream_ok s -> 1 <= w <= 8 -> readUint w s = (s', inr n) ->
  w <= avail s /\ s' = advance w s /\ n = be_decode (take (Z.to_nat w) (s_r s)) /\
  (w = 1 \/ s_r s !! 0%nat <> Some 0).
Proof.
  intros Hs Hw H.
  assert (w <= avail s) as Ha.
  { destruct (Z_lt_le_dec (avail s) w) as [Hlt|]; [exfalso|done]. revert H. unfold readUint.
    destruct (Z.eqb_spec w 0); [lia|]. destruct (Z.eqb_spec w 1) as [->|].
    - by destruct (readByte_short s) as (? & ? & -> & _).
    - unfold mbind, SM_bind. by destruct (readFull_short w s) as (? & ? & -> & _). }
  assert (w = 1 \/ s_r s !! 0%nat <> Some 0) as Hlead.
  { destruct (decide (w = 1)) as [|Hw1]; [by left|right]. intros H0. revert H. unfold readUint.
    destruct (Z.eqb_spec w 0); [lia|]. destruct (Z.eqb_spec w 1); [done|].
    unfold mbind, SM_bind. rewrite readFull_ok by (done || lia).
    destruct (s_r s) as [|b r]; [done|]. simpl in H0. rewrite take_head by lia. by simplify_eq. }
  rewrite readUint_ok in H by (done || lia). by simplify_eq.
Qed.

Lemma readUint_err w s s' e : stream_ok s -> readUint w s = (s', inl e) ->
  e <> EOL /\ e <> OutOfFuel.
Proof.
  intros Hs. unfold readUint. destruct (Z.eqb_spec w 0); [by intros|].
  destruct (Z.eqb_spec w 1).
  - destruct (Z_lt_le_dec (avail s) 1) as [Hlt|].
    + destruct (readByte_short s) as (? & ? & -> & ? & ?); [done..|]. intros; by simplify_eq.
    + unfold readByte, mbind, SM_bind. rewrite willRead_ok by (done || lia).
      unfold sm_step; simpl. destruct (s_r s); intros; by simplify_eq.
  - unfold readFull, mbind, SM_bind.
    destruct (willRead w s) as [s1 [e1|[]]] eqn:Hw.
    + intros; simplify_eq. revert Hw. unfold willRead.
      destruct (s_stack _) as [|[]]; repeat case_match; intros; by simplify_eq.
    + unfold sm_step. case_decide; [|by intros; simplify_eq].
      destruct (take _ _) as [|[] ]; unfold sm_throw, mret, SM_ret; intros; by simplify_eq.
Qed.

Lemma puthead_length small large n : 0 <= n < 2 ^ 64 -> 1 <= blen (puthead small large n) <= 9.
Proof.
  intros Hn. unfold puthead. destruct (Z.ltb_spec n 56); [by unfold blen; simpl|].
  destruct (putint_spec n) as (k & -> & Hk & _); [lia|].
  unfold blen; simpl. rewrite be_encode_length. lia.
Qed.

Lemma puthead_ok small large n : 0 <= n < 2 ^ 64 -> bytes_ok (puthead small large n).
Proof.
  intros Hn. assert (forall z, byte_ok (u8 z)) as Hu by (intros z; apply Z.mod_pos_bound; lia).
  unfold puthead. destruct (Z.ltb_spec n 56); [by apply Forall_singleton|].
  apply Forall_cons; split; [apply Hu|]. apply putint_ok. lia.
Qed.

Lemma readKind_header k small large n rest s :
  header_tags k small large -> stream_ok s -> 0 <= n < 2 ^ 64 ->
  s_r s = puthead small large n ++ rest -> blen (puthead small large n) <= avail s ->
  readKind s = (set_s_byteval 0 (advance (blen (puthead small large n)) s), (k, n, None)).
Proof.
  intros Ht Hs Hn Hr Ha. unfold puthead in *. destruct (Z.ltb_spec n 56).
  - unfold blen in *; simpl in Ha, Hr. unfold readKind. rewrite (readByte_ok _ _ _ Hs Ha Hr).
    unfold u8. rewrite (Z.mod_small n), Z.mod_small by (destruct Ht; lia).
    destruct Ht; ltb_cases; (do 3 f_equal; lia).
  - destruct (putint_spec n) as (w & Hp & Hw & Hb); [lia|].
    rewrite Hp in *. unfold blen in *; simpl in Ha, Hr |- *. rewrite be_encode_length in *.
    assert (1 <= avail s) as Ha1 by lia.
    unfold readKind. rewrite (readByte_ok _ _ _ Hs Ha1 Hr).
    destruct (advance_ok 1 s Hs ltac:(lia)) as [Hs1 Ha1'].
    unfold u8. rewrite Z.mod_small by (destruct Ht; lia).
    assert (forall bv, readUint (Z.of_nat w) (set_s_byteval bv (advance 1 s)) =
      (set_s_byteval bv (advance (Z.of_nat (S w)) s), inr n)) as HU.
    { intros bv. rewrite readUint_ok.
      - f_equal; [|f_equal].
        + change (advance (Z.of_nat w) (set_s_byteval bv (advance 1 s)))
            with (set_s_byteval bv (advance (Z.of_nat w) (advance 1 s))).
          rewrite advance_advance by lia. do 2 f_equal. lia.
        + rewrite (advance_head _ _ _ _ Hr), Nat2Z.id, take_app_length' by (by rewrite be_encode_length).
          apply be_decode_encode_small. lia.
      - exact Hs1.
      - change (avail (set_s_byteval bv (advance 1 s))) with (avail (advance 1 s)). lia.
      - destruct (decide (w = 1%nat)) as [->|]; [by left|right].
        rewrite (advance_head _ _ _ _ Hr).
        destruct w as [|w]; [lia|].
        destruct (be_encode_head w n) as (x & l & -> & Hx);
          [replace (Z.of_nat w) with (Z.of_nat (S w) - 1) by lia; done|].
        simpl. congruence. }
    destruct Ht;
      ltb_cases;
      match goal with |- context [readUint ?a _] => replace a with (Z.of_nat w) by lia end;
      rewrite HU; (destruct (Z.ltb_spec n 56); [lia|done]).
Qed.

(** What a successful [readKind] has read: one byte, or a header. *)
Definition kind_read (s s' : Stream) (k : Kind) (n : Z) : Prop :=
  (exists b, k = KByte /\ n = 0 /\ 0 <= b < 128 /\ 1 <= avail s /\
     s_r s = b :: s_r s' /\ s' = set_s_byteval b (advance 1 s)) \/
  (exists small large, header_tags k small large /\ 0 <= n < 2 ^ 64 /\
     s_r s = puthead small large n ++ s_r s' /\
     blen (puthead small large n) <= avail s /\
     s' = set_s_byteval 0 (advance (blen (puthead small large n)) s)).

Lemma sized_header k small large w b s s' k' n e rest :
  header_tags k small large -> stream_ok s -> 1 <= avail s -> s_r s = b :: rest ->
  b = large + w -> 1 <= w <= 8 ->
  match readUint w (set_s_byteval 0 (advance 1 s)) with
  | (s2, inl e) => (s2, (k, 0, Some e))
  | (s2, inr size) => (s2, (k, size, if size <? 56 then Some ErrCanonSize else None))
  end = (s', (k', n, e)) ->
  match e with
  | None => kind_read s s' k' n
  | Some e => e <> EOL /\ e <> OutOfFuel
  end.
Proof.
  intros Ht Hs Ha Hr Hb Hw H.
  destruct (advance_ok 1 s Hs ltac:(lia)) as [Hs1 Ha1].
  destruct (readUint w _) as [s2 [e2|size]] eqn:HU; simplify_eq.
  { eapply (readUint_err w (set_s_byteval 0 (advance 1 s))); [exact Hs1|exact HU]. }
  apply readUint_inv in HU as (Hwa & -> & -> & Hlead); [|exact Hs1|lia].
  destruct (Z.ltb_spec (be_decode (take (Z.to_nat w) (s_r (set_s_byteval 0 (advance 1 s))))) 56);
    simplify_eq; [done|].
  rewrite (advance_head _ _ _ _ Hr) in *.
  set (l := take (Z.to_nat w) rest) in *.
  assert (bytes_ok rest) as Hrest.
  { destruct Hs as (_ & Hb & _). rewrite Hr in Hb. by inversion Hb. }
  change (avail (set_s_byteval 0 (advance 1 s))) with (avail (advance 1 s)) in Hwa.
  assert (w <= blen rest).
  { destruct Hs as (Hrem & _ & _ & ? & _). rewrite Hr in Hrem. unfold blen in *. simpl in Hrem. lia. }
  assert (length l = Z.to_nat w) as Hlen by (unfold l; rewrite length_take; unfold blen in *; lia).
  assert (bytes_ok l) as Hl by by apply bytes_ok_take.
  pose proof (be_decode_range l Hl) as Hrange.
  assert (be_decode l < 2 ^ 64).
  { eapply Z.lt_le_trans; [apply Hrange|]. change (2 ^ 64) with (256 ^ 8).
    apply Z.pow_le_mono_r; lia. }
  assert (puthead small large (be_decode l) = (large + w) :: l) as Hhead.
  { unfold puthead. destruct (Z.ltb_spec (be_decode l) 56); [lia|].
    rewrite putint_unique; [|done|lia|lia|].
    - f_equal. unfold u8, blen. rewrite Hlen, Z2Nat.id, Z.mod_small by (destruct Ht; lia). done.
    - destruct Hlead as [->|Hne]; [left; by rewrite Hlen|right].
      unfold l. by rewrite lookup_take_lt by lia. }
  right. exists small, large. rewrite Hhead.
  assert (blen ((large + w) :: l) = 1 + w) as -> by (unfold blen; simpl; lia).
  split_and!; [done|lia|lia| |lia|].
  - change (s_r (advance w (set_s_byteval 0 (advance 1 s))))
      with (drop (Z.to_nat w) (s_r (set_s_byteval 0 (advance 1 s)))).
    rewrite (advance_head _ _ _ _ Hr), Hr. unfold l. simpl. by rewrite take_drop.
  - change (advance w (set_s_byteval 0 (advance 1 s)))
      with (set_s_byteval 0 (advance w (advance 1 s))).
    by rewrite advance_advance by lia.
Qed.

Lemma readKind_inv s s' k n e : stream_ok s -> readKind s = (s', (k, n, e)) ->
  match e with
  | None => kind_read s s' k n
  | Some e => e <> EOL /\ e <> OutOfFuel
  end.
Proof.
  intros Hs H. unfold readKind in H.
  destruct (Z_lt_le_dec (avail s) 1) as [Hlt|Ha].
  { destruct (readByte_short s Hs Hlt) as (s1 & e1 & Hrb & ? & ?). rewrite Hrb in H.
    destruct (s_stack s1), e1; by simplify_eq. }
  destruct (s_r s) as [|b rest] eqn:Hr.
  { destruct Hs as (Hrem & _ & _ & ? & _). rewrite Hr in Hrem. unfold blen in *; simpl in *. lia. }
  rewrite (readByte_ok b rest) in H by done.
  assert (0 <= b < 256) as Hb.
  { destruct Hs as (_ & Hok & _). rewrite Hr in Hok. by inversion Hok. }
  revert H. ltb_cases; intros H'.
  - simplify_eq. left. exists b. split_and!; try done; [lia|].
    rewrite Hr. f_equal. symmetry. exact (advance_head _ _ 0 _ Hr).
  - simplify_eq. right. exists 0x80, 0xB7. unfold puthead, u8.
    destruct (Z.ltb_spec (b - 128) 56); [|lia]. rewrite (Z.mod_small (b - 128)), Z.mod_small by lia.
    rewrite (advance_head _ _ _ _ Hr).
    split_and!; [constructor|lia|lia|rewrite Hr; simpl; f_equal; lia|done|done].
  - eapply (sized_header KString 0x80 0xB7 (b - 0xB7)); eauto; try lia. constructor.
  - simplify_eq. right. exists 0xC0, 0xF7. unfold puthead, u8.
    destruct (Z.ltb_spec (b - 192) 56); [|lia]. rewrite (Z.mod_small (b - 192)), Z.mod_small by lia.
    rewrite (advance_head _ _ _ _ Hr).
    split_and!; [constructor|lia|lia|rewrite Hr; simpl; f_equal; lia|done|done].
  - eapply (sized_header KList 0xC0 0xF7 (b - 0xF7)); eauto; try lia. constructor.
Qed.

(** ** Strings in a list *)

Lemma encodeString_cases f :
  (exists x, f = [x] /\ x <= 0x7F /\ encodeString f = [x]) \/
  ((forall x, f = [x] -> 0x7F < x) /\ encodeString f = puthead 0x80 0xB7 (blen f) ++ f).
Proof.
  destruct f as [|x [|y f]]; [by right| |by right].
  unfold encodeString. destruct (Z.leb_spec x 0x7F).
  - left. by exists x.
  - right. split; [|done]. intros ? [= <-]. done.
Qed.

Lemma encodeString_ok f : bytes_ok f -> blen f < 2 ^ 64 -> bytes_ok (encodeString f).
Proof.
  intros Hf Hl. destruct (encodeString_cases f) as [(x & -> & _ & ->)|[_ ->]]; [done|].
  apply bytes_ok_app. split; [|done]. apply puthead_ok. pose proof (blen_nonneg f). lia.
Qed.

Lemma encodeString_pos f : blen f < 2 ^ 64 -> 1 <= blen (encodeString f).
Proof.
  intros Hl. destruct (encodeString_cases f) as [(x & -> & _ & ->)|[_ ->]]; [by unfold blen; simpl|].
  rewrite blen_app. pose proof (blen_nonneg f).
  pose proof (puthead_length 0x80 0xB7 (blen f) ltac:(lia)). lia.
Qed.

(** A stream inside the one open list, with no kind cached. *)
Definition in_list (s : Stream) : Prop :=
  stream_ok s /\ s_kind s = None /\ exists pos size, s_stack s = [(pos, size)].


Lemma in_list_avail s : in_list s -> 0 <= avail s.
Proof. intros (Hs & _ & pos & size & Hst). unfold stream_ok, avail in *. rewrite Hst in *. lia. Qed.

(** [SKind] inside a list, its end not reached, in terms of [readKind]. *)
Lemma SKind_list s s1 k n e : in_list s -> 0 < avail s ->
  readKind (set_s_kinderr None s) = (s1, (k, n, e)) ->
  (e = None -> stream_ok s1 /\ exists pos size, s_stack s1 = [(pos, size)]) ->
  exists e', SKind s =
    (set_s_kinderr e' (set_s_size n (set_s_kind (Some k) s1)),
     match e' with Some e => inl e | None => inr (k, n) end) /\
    match e with
    | Some _ => e' = e
    | None => e' = None /\ n <= avail s1 \/ e' = Some ErrElemTooLarge /\ avail s1 < n
    end.
Proof.
  intros Hin Ha Hrk Hs1. pose proof Hin as (Hs & Hk & pos & size & Hst).
  unfold SKind. rewrite Hk. simpl s_stack. rewrite Hst.
  destruct (Z.eqb_spec pos size) as [->|Hne]; [unfold avail in Ha; rewrite Hst in Ha; lia|].
  rewrite Hrk. destruct e as [e|].
  - exists (Some e). done.
  - destruct Hs1 as (Hok & pos' & size' & Hst'); [done|]. rewrite Hst'.
    unfold stream_ok, avail in *. rewrite Hst' in *. rewrite u64_small by lia.
    destruct (Z.ltb_spec (size' - pos') n).
    + exists (Some ErrElemTooLarge). split; [done|right; done].
    + exists None. split; [done|left; done].
Qed.

Lemma advance_stack n s : (exists pos size, s_stack s = [(pos, size)]) ->
  exists pos size, s_stack (advance n s) = [(pos, size)].
Proof. intros (pos & size & H). exists (pos + n), size. unfold advance; simpl. by rewrite H. Qed.

Lemma advance_in_list n s : in_list s -> 0 <= n <= avail s ->
  in_list (advance n s) /\ avail (advance n s) = avail s - n.
Proof.
  intros (Hs & Hk & Hst) Hn. destruct (advance_ok n s Hs Hn) as [? ?].
  split; [|done]. split; [done|]. split; [done|]. by apply advance_stack.
Qed.

Lemma SBytes_encoded s f rest : in_list s -> bytes_ok f -> blen f < 2 ^ 64 ->
  s_r s = encodeString f ++ rest -> blen (encodeString f) <= avail s ->
  exists s', SBytes s = (s', inr f) /\ in_list s' /\ s_r s' = rest /\
    avail s' = avail s - blen (encodeString f).
Proof.
  intros Hin Hf Hlf Hr Ha. pose proof (encodeString_pos f Hlf) as Hpos.
  pose proof Hin as (Hs & Hk & Hst). set (s0 := set_s_kinderr None s).
  assert (in_list s0) as Hin0 by exact Hin.
  assert (avail s0 = avail s) as Ha0 by done.
  destruct (encodeString_cases f) as [(x & -> & Hx & He)|[Hx He]]; rewrite He in *.
  - change (blen [x]) with 1 in *.
    assert (0 <= x) by (inversion Hf as [|? ? [] ]; done).
    assert (readKind s0 = (set_s_byteval x (advance 1 s0), (KByte, 0, None))) as Hrk.
    { unfold readKind. rewrite (readByte_ok x rest) by (done || lia). by ltb_cases. }
    destruct (advance_in_list 1 s0 Hin0 ltac:(lia)) as [Hin1 Ha1].
    destruct (SKind_list s _ _ _ _ Hin ltac:(lia) Hrk) as (e' & HSK & He').
    { intros _. split; [apply Hin1|apply Hin1]. }
    destruct He' as [[-> _]|[_ Hlt]];
      [|change (avail (set_s_byteval x (advance 1 s0))) with (avail (advance 1 s0)) in Hlt; lia].
    unfold SBytes, mbind, SM_bind. rewrite HSK. unfold sm_step. eexists; split; [done|].
    split; [exact Hin1|]. split; [|exact Ha1]. simpl s_r. by rewrite Hr.
  - rewrite blen_app in *. pose proof (blen_nonneg f).
    pose proof (puthead_length 128 183 (blen f) ltac:(lia)) as Hh.
    set (h := blen (puthead 128 183 (blen f))) in *.
    assert (readKind s0 = (set_s_byteval 0 (advance h s0), (KString, blen f, None))) as Hrk.
    { apply (readKind_header KString 0x80 0xB7 (blen f) (f ++ rest));
        [constructor|exact Hs|lia| |fold h; lia]. change (s_r s0) with (s_r s). by rewrite app_assoc. }
    destruct (advance_in_list h s0 Hin0 ltac:(lia)) as [Hin1 Ha1].
    destruct (SKind_list s _ _ _ _ Hin ltac:(lia) Hrk) as (e' & HSK & He').
    { intros _. split; [apply Hin1|apply Hin1]. }
    change (avail (set_s_byteval 0 (advance h s0))) with (avail (advance h s0)) in He'.
    destruct He' as [[-> _]|[_ Hlt]]; [|lia].
    unfold SBytes, mbind, SM_bind. rewrite HSK.
    match goal with |- context [readFull _ ?s2] => set (s3 := s2) end.
    assert (stream_ok s3) as Hs3 by apply Hin1.
    assert (avail s3 = avail (advance h s0)) as Ha3 by done.
    assert (s_r s3 = f ++ rest) as Hr3.
    { unfold s3; simpl s_r. rewrite Hr, <- app_assoc. apply drop_app_length'. unfold h, blen. lia. }
    rewrite readFull_ok, Hr3 by (done || lia).
    replace (Z.to_nat (blen f)) with (length f) by (unfold blen; lia). rewrite take_app_length.
    destruct (advance_in_list (blen f) (advance h s0) Hin1 ltac:(lia)) as [Hin4 Ha4].
    exists (advance (blen f) s3). split_and!.
    + destruct f as [|x [|y f]]; [done| |done]. specialize (Hx x eq_refl).
      destruct (Z.ltb_spec x 128); [lia|done].
    + exact Hin4.
    + unfold advance; simpl s_r. change (drop (Z.to_nat (blen f)) (s_r s3) = rest).
      rewrite Hr3. apply drop_app_length'. unfold blen; lia.
    + transitivity (avail (advance (blen f) (advance h s0))); [done|lia].
Qed.

(** The stream after a kind was read is still inside the list. *)
Lemma kind_read_in_list s s' k n : in_list s -> kind_read s s' k n ->
  stream_ok s' /\ (exists pos size, s_stack s' = [(pos, size)]).
Proof.
  intros Hin Hkr. destruct Hkr as [(b & _ & _ & _ & Ha & _ & ->)|(sm & lg & _ & Hn & _ & Ha & ->)].
  - destruct (advance_in_list 1 s Hin ltac:(lia)) as [(? & _ & ?) _]. done.
  - pose proof (puthead_length sm lg n Hn).
    destruct (advance_in_list (blen (puthead sm lg n)) s Hin ltac:(lia)) as [(? & _ & ?) _]. done.
Qed.

Lemma SKind_inv s s' r : in_list s -> SKind s = (s', r) ->
  (avail s = 0 /\ r = inl EOL /\ s' = set_s_kinderr None s) \/
  (exists e, r = inl e /\ e <> EOL /\ e <> OutOfFuel) \/
  (exists s1 k n, r = inr (k, n) /\ kind_read (set_s_kinderr None s) s1 k n /\ n <= avail s1 /\
     s' = set_s_kinderr None (set_s_size n (set_s_kind (Some k) s1))).
Proof.
  intros Hin H. pose proof (in_list_avail s Hin).
  destruct (decide (avail s = 0)) as [Hz|Hz].
  - left. destruct Hin as (Hs & Hk & pos & size & Hst). unfold SKind in H. rewrite Hk in H.
    simpl s_stack in H. rewrite Hst in H. pose proof Hz as Hps. unfold avail in Hps. rewrite Hst in Hps.
    destruct (Z.eqb_spec pos size); [by simplify_eq|lia].
  - right. destruct (readKind (set_s_kinderr None s)) as [s1 [[k n] e]] eqn:Hrk.
    assert (in_list (set_s_kinderr None s)) as Hin0 by exact Hin.
    pose proof (readKind_inv _ _ _ _ _ (proj1 Hin0) Hrk) as Hkr.
    destruct (SKind_list s s1 k n e Hin ltac:(lia) Hrk) as (e' & HSK & He').
    { intros ->. by apply (kind_read_in_list _ _ _ _ Hin0 Hkr). }
    rewrite HSK in H. destruct e as [e|].
    + left. subst e'. simplify_eq. by exists e.
    + destruct He' as [[-> Hle]|[-> _]]; simplify_eq; [right; by exists s1, k, n|left; by eexists].
Qed.

Lemma SBytes_inv s s' f : in_list s -> SBytes s = (s', inr f) ->
  bytes_ok f /\ blen f < 2 ^ 64 /\ s_r s = encodeString f ++ s_r s' /\
  blen (encodeString f) <= avail s /\ in_list s' /\
  avail s' = avail s - blen (encodeString f).
Proof.
  intros Hin H. unfold SBytes, mbind, SM_bind in H.
  destruct (SKind s) as [s2 r] eqn:HSK.
  destruct (SKind_inv _ _ _ Hin HSK) as [(_ & -> & _)|[(e & -> & _)|(s1 & k & n & -> & Hkr & Hn & ->)]];
    [done|done|].
  set (s0 := set_s_kinderr None s) in *.
  assert (in_list s0) as Hin0 by exact Hin.
  destruct Hkr as [(b & -> & -> & Hb & Ha & Hr & ->)|(sm & lg & Ht & Hn64 & Hr & Ha & ->)].
  - simpl in H. unfold sm_step in H. simplify_eq.
    destruct (advance_in_list 1 s0 Hin0 ltac:(lia)) as [Hin1 Ha1].
    unfold encodeString. simpl s_byteval. destruct (Z.leb_spec b 127); [|lia].
    split_and!; [apply Forall_singleton; unfold byte_ok; lia|by unfold blen|exact Hr|exact Ha|exact Hin1|exact Ha1].
  - destruct Ht; [|done]. pose proof (puthead_length 128 183 n Hn64).
    set (h := blen (puthead 128 183 n)) in *.
    destruct (advance_in_list h s0 Hin0 ltac:(lia)) as [Hin1 Ha1].
    match type of H with context [readFull _ ?s2] => set (s3 := s2) in * end.
    assert (stream_ok s3) as Hs3 by apply Hin1.
    change (avail (set_s_byteval 0 (advance h s0))) with (avail s3) in *.
    assert (avail s3 = avail s0 - h) as Ha3 by exact Ha1.
    assert (s_r s3 = s_r (set_s_byteval 0 (advance h s0))) as Hr3 by done.
    rewrite readFull_ok in H by (done || lia). rewrite <- Hr3 in Hr.
    assert (n <= blen (s_r s3)) by (destruct Hs3 as (? & _ & _ & ? & _); lia).
    destruct (advance_in_list n (advance h s0) Hin1 ltac:(lia)) as [Hin4 Ha4].
    set (b := take (Z.to_nat n) (s_r s3)) in *.
    assert (s_r s3 = b ++ drop (Z.to_nat n) (s_r s3)) as Hsplit by (unfold b; by rewrite take_drop).
    assert (blen b = n) as Hbl by (unfold b, blen; rewrite length_take; unfold blen in *; lia).
    assert (bytes_ok b) by (apply bytes_ok_take, Hs3).
    assert (s' = advance n s3 /\ f = b /\ (forall x, b = [x] -> 127 < x)) as (-> & -> & Hx).
    { destruct b as [|x [|y b]]; unfold mret, SM_ret, sm_throw in H.
      - by simplify_eq.
      - destruct (Z.ltb_spec x 128); simplify_eq. split_and!; try done. intros ? [= <-]. lia.
      - by simplify_eq. }
    destruct (encodeString_cases b) as [(x & Hb1 & Hx1 & _)|[_ ->]]; [specialize (Hx x Hb1); lia|].
    rewrite Hbl, blen_app, Hbl. fold h. change (s_r (advance n s3)) with (drop (Z.to_nat n) (s_r s3)).
    split_and!; [done|lia| |change (avail s0) with (avail s) in *; lia|exact Hin4|].
    + change (s_r s) with (s_r s0). rewrite <- app_assoc, <- Hsplit. exact Hr.
    + transitivity (avail (advance n (advance h s0))); [done|].
      change (avail s) with (avail s0). lia.
Qed.

Lemma SBytes_err s s' e : in_list s -> SBytes s = (s', inl e) ->
  e <> OutOfFuel /\ (e = EOL -> avail s = 0 /\ s' = set_s_kinderr None s).
Proof.
  intros Hin H. unfold SBytes, mbind, SM_bind in H.
  destruct (SKind s) as [s2 r] eqn:HSK.
  destruct (SKind_inv _ _ _ Hin HSK) as [(? & -> & ->)|[(? & -> & ? & ?)|(s1 & k & n & -> & Hkr & Hn & ->)]];
    [by simplify_eq|by simplify_eq|].
  destruct (kind_read_in_list (set_s_kinderr None s) s1 k n Hin Hkr) as [Hs1 _].
  destruct k; [done| |unfold sm_throw in H; by simplify_eq].
  match type of H with context [readFull _ ?s2] => set (s3 := s2) in * end.
  destruct (Z_lt_le_dec n 0).
  { exfalso. destruct Hkr as [(? & ? & _)|(? & ? & _ & ? & _)]; [done|lia]. }
  rewrite (readFull_ok n s3) in H; [|exact Hs1|exact (conj l Hn)].
  destruct (take _ _) as [|x [|y b]]; unfold mret, SM_ret, sm_throw in H;
    repeat case_match; by simplify_eq.
Qed.

(** ** Lists *)

Definition payload (fs : list (list Z)) : list Z := concat (map encodeString fs).

Lemma decodeSliceElems_encoded fs : forall fuel s acc rest,
  in_list s -> Forall (fun f => bytes_ok f /\ blen f < 2 ^ 64) fs ->
  s_r s = payload fs ++ rest -> avail s = blen (payload fs) -> (length fs < fuel)%nat ->
  exists s', decodeSliceElems fuel acc s = (s', inr (acc ++ fs)) /\ in_list s' /\
    s_r s' = rest /\ avail s' = 0.
Proof.
  unfold payload. induction fs as [|f fs IH]; intros [|fuel] s acc rest Hin Hfs Hr Ha Hfuel;
    simpl in Hfuel; try lia; cbn [decodeSliceElems].
  - destruct (SBytes s) as [s1 [e|b]] eqn:HS.
    + assert (e = EOL) as ->.
      { revert HS. unfold SBytes, SKind, mbind, SM_bind.
        destruct Hin as (Hs & Hk & pos & size & Hst). unfold avail in Ha. rewrite Hst in Ha.
        rewrite Hk. simpl s_stack. rewrite Hst. change (blen (concat (map encodeString []))) with 0 in Ha.
        destruct (Z.eqb_spec pos size); [by intros; simplify_eq|lia]. }
      destruct (SBytes_err _ _ _ Hin HS) as [_ [H0 ->]]; [done|].
      eexists. rewrite app_nil_r. split; [done|]. split; [exact Hin|]. by split.
    + apply SBytes_inv in HS as (_ & Hl & _ & Hle & _); [|done].
      pose proof (encodeString_pos b Hl). rewrite Ha in Hle.
      change (blen (concat (map encodeString []))) with 0 in Hle. lia.
  - apply Forall_cons in Hfs as [[Hf Hlf] Hfs]. simpl in Hr, Ha. rewrite blen_app in Ha.
    rewrite <- app_assoc in Hr.
    pose proof (blen_nonneg (concat (map encodeString fs))).
    destruct (SBytes_encoded s f _ Hin Hf Hlf Hr ltac:(lia)) as (s1 & -> & Hin1 & Hr1 & Ha1).
    destruct (IH fuel s1 (acc ++ [f]) rest Hin1 Hfs Hr1 ltac:(lia) ltac:(lia)) as (s' & -> & H').
    exists s'. by rewrite <- app_assoc.
Qed.

Lemma decodeSliceElems_inv fuel : forall s s' acc r, in_list s ->
  decodeSliceElems fuel acc s = (s', r) ->
  match r with
  | inr fs' => exists fs, fs' = acc ++ fs /\ s_r s = payload fs ++ s_r s' /\
      avail s = blen (payload fs) /\ in_list s' /\ avail s' = 0
  | inl e => e = OutOfFuel -> Z.of_nat fuel <= avail s
  end.
Proof.
  unfold payload. induction fuel as [|fuel IH]; intros s s' acc r Hin H; cbn [decodeSliceElems] in H.
  - simplify_eq. intros _. by apply in_list_avail in Hin.
  - destruct (SBytes s) as [s1 [e|b]] eqn:HS.
    + destruct (SBytes_err _ _ _ Hin HS) as [He Hend].
      destruct e; simplify_eq; try done.
      destruct Hend as [H0 ->]; [done|]. exists []. rewrite app_nil_r. split_and!; try done.
    + destruct (SBytes_inv _ _ _ Hin HS) as (Hb & Hl & Hr & Hle & Hin1 & Ha1).
      pose proof (encodeString_pos b Hl). apply IH in H; [|done]. destruct r as [e|fs'].
      * intros He. specialize (H He). lia.
      * destruct H as (fs & -> & Hr1 & Ha & Hin' & Ha'). exists (b :: fs).
        rewrite <- app_assoc. cbn [map concat]. rewrite blen_app, <- app_assoc, <- Hr1.
        split_and!; try done. lia.
Qed.

Lemma foldl_writeBytes fs : forall w,
  foldl (fun w b => writeBytes b w) w fs = mkBuf (enc_str w ++ payload fs) (lheads w) (lhsize w).
Proof.
  unfold payload. induction fs as [|f fs IH]; intros w; simpl.
  - rewrite app_nil_r. by destruct w.
  - rewrite IH. simpl. by rewrite <- app_assoc.
Qed.

Lemma EncodeToBytes_eq fs :
  EncodeToBytes fs = Ok (puthead 0xC0 0xF7 (blen (payload fs)) ++ payload fs).
Proof.
  unfold EncodeToBytes, list_open. cbn [lheads enc_str lhsize length app].
  rewrite foldl_writeBytes. unfold listEnd, index, store. simpl.
  unfold encbuf_size, toBytes. simpl.
  replace (blen (payload fs) + 0 - blen [] - 0) with (blen (payload fs)) by (unfold blen; simpl; lia).
  done.
Qed.

(** ** Whole values *)

Lemma NewStream_ok b : bytes_ok b -> blen b < 2 ^ 64 -> stream_ok (NewStream b).
Proof. intros Hb Hl. unfold stream_ok, avail; simpl. split_and!; done || lia. Qed.

(** The stream after the list header. *)
Lemma NewList_in_list n s : stream_ok s -> s_stack s = [] -> 0 <= n <= avail s -> n < 2 ^ 64 ->
  in_list (NewList n s) /\ avail (NewList n s) = n.
Proof.
  intros (Hr & Hb & Hl & Ha & _) Hst Hn Hn64. unfold avail in *. rewrite Hst in *.
  unfold in_list, stream_ok, avail, NewList. simpl. rewrite Hst. split; [|lia].
  split_and!; try done; try lia. by eexists _, _.
Qed.

Lemma SKind_top b s1 k n e :
  readKind (NewStream b) = (s1, (k, n, e)) -> (e = None -> s_stack s1 = []) ->
  exists e', SKind (NewStream b) =
    (set_s_kinderr e' (set_s_size n (set_s_kind (Some k) s1)),
     match e' with Some e => inl e | None => inr (k, n) end) /\
    match e with
    | Some _ => e' = e
    | None => e' = None /\ n <= s_remaining s1 \/
              e' = Some ErrValueTooLarge /\ s_remaining s1 < n
    end.
Proof.
  intros Hrk Hst. unfold SKind.
  change (s_kind (NewStream b)) with (@None Kind). cbv iota zeta.
  change (set_s_kinderr None (NewStream b)) with (NewStream b).
  change (s_stack (NewStream b)) with (@nil (Z * Z)). cbv iota. rewrite Hrk.
  destruct e as [e|]; [by exists (Some e)|]. rewrite Hst by done.
  destruct (Z.ltb_spec (s_remaining s1) n).
  - exists (Some ErrValueTooLarge). split; [done|by right].
  - exists None. split; [done|by left].
Qed.

Lemma SList_top b s' r : bytes_ok b -> blen b < 2 ^ 64 -> SList (NewStream b) = (s', r) ->
  match r with
  | inr n => 0 <= n < 2 ^ 64 /\ b = puthead 0xC0 0xF7 n ++ s_r s' /\ in_list s' /\ avail s' = n
  | inl e => e <> OutOfFuel
  end.
Proof.
  intros Hb Hl H. pose proof (NewStream_ok b Hb Hl) as Hs.
  unfold SList, mbind, SM_bind in H.
  destruct (readKind (NewStream b)) as [s1 [[k n] e]] eqn:Hrk.
  pose proof (readKind_inv _ _ _ _ _ Hs Hrk) as Hkr.
  destruct (SKind_top b s1 k n e Hrk) as (e' & HSK & He').
  { intros ->. by destruct Hkr as [(? & _ & _ & _ & _ & _ & ->)|(? & ? & _ & _ & _ & _ & ->)]. }
  rewrite HSK in H. destruct e as [e|]; [subst e'; simplify_eq; apply Hkr|].
  destruct He' as [[-> Hrem]|[-> _]]; [|by simplify_eq].
  destruct Hkr as [(x & -> & -> & _ & _ & _ & ->)|(sm & lg & Ht & Hn & Hr & Ha & ->)].
  { unfold sm_throw in H. by simplify_eq. }
  destruct Ht; [unfold sm_throw in H; by simplify_eq|].
  pose proof (puthead_length 0xC0 0xF7 n Hn). set (h := blen (puthead 192 247 n)) in *.
  destruct (advance_ok h (NewStream b) Hs ltac:(lia)) as [Hs1 Ha1].
  simpl in H. unfold mret, SM_ret in H. simplify_eq.
  destruct (NewList_in_list n (advance h (NewStream b))) as [Hin Ha2]; [done|done| |lia|].
  { split; [lia|]. exact Hrem. }
  split_and!; [lia|lia|exact Hr|exact Hin|exact Ha2].
Qed.

Lemma SList_encoded n rest : bytes_ok rest -> 0 <= n <= blen rest ->
  blen (puthead 0xC0 0xF7 n ++ rest) < 2 ^ 64 ->
  exists s', SList (NewStream (puthead 0xC0 0xF7 n ++ rest)) = (s', inr n) /\
    in_list s' /\ avail s' = n /\ s_r s' = rest.
Proof.
  intros Hb Hn Hl. set (b := puthead 0xC0 0xF7 n ++ rest) in *.
  assert (n < 2 ^ 64).
  { unfold b in Hl. rewrite blen_app in Hl. pose proof (blen_nonneg (puthead 192 247 n)). lia. }
  pose proof (puthead_length 0xC0 0xF7 n ltac:(lia)).
  assert (bytes_ok b) as Hbo by (apply bytes_ok_app; split; [apply puthead_ok; lia|done]).
  assert (blen b = blen (puthead 192 247 n) + blen rest) as Hbl by (unfold b; apply blen_app).
  pose proof (NewStream_ok b Hbo ltac:(lia)) as Hs.
  assert (readKind (NewStream b) =
    (set_s_byteval 0 (advance (blen (puthead 192 247 n)) (NewStream b)), (KList, n, None))) as Hrk.
  { apply (readKind_header KList 0xC0 0xF7 n rest); [constructor|done|lia|done|].
    change (avail (NewStream b)) with (blen b). lia. }
  destruct (SKind_top b _ _ _ _ Hrk) as (e' & HSK & [[-> Hrem]|[-> Hrem]]); [done| |].
  - destruct (SList (NewStream b)) as [s' r] eqn:HSL.
    pose proof (SList_top b s' r Hbo ltac:(lia) HSL) as Htop.
    unfold SList, mbind, SM_bind in HSL. rewrite HSK in HSL.
    simpl in HSL. unfold mret, SM_ret in HSL. simplify_eq.
    destruct Htop as (_ & Hr & Hin & Ha). eexists; split; [done|]. split_and!; [done|done|].
    unfold b in Hr at 1. by apply app_inv_head in Hr.
  - exfalso. cbn [s_remaining set_s_byteval advance NewStream] in Hrem. lia.
Qed.

Lemma SListEnd_ok s : in_list s -> avail s = 0 ->
  exists s', SListEnd s = (s', inr tt) /\ s_r s' = s_r s.
Proof.
  intros (_ & _ & pos & size & Hst) Ha. unfold SListEnd, avail in *. rewrite Hst in *.
  destruct (Z.eqb_spec pos size); [|lia]. by eexists.
Qed.

Lemma payload_fields fs : bytes_ok (payload fs) -> blen (payload fs) < 2 ^ 64 ->
  Forall (fun f => bytes_ok f /\ blen f < 2 ^ 64) fs /\ Z.of_nat (length fs) <= blen (payload fs).
Proof.
  unfold payload. induction fs as [|f fs IH]; [by simpl|]. cbn [map concat].
  rewrite bytes_ok_app, blen_app. intros [Hf Hfs] Hl.
  pose proof (blen_nonneg (encodeString f)). pose proof (blen_nonneg (concat (map encodeString fs))).
  assert (bytes_ok f /\ blen f < 2 ^ 64) as [Hf' Hl'].
  { destruct (encodeString_cases f) as [(x & -> & _ & He)|[_ He]]; rewrite He in *; [done|].
    rewrite blen_app in *. pose proof (blen_nonneg (puthead 128 183 (blen f))).
    apply bytes_ok_app in Hf as [_ ?]. split; [done|lia]. }
  pose proof (encodeString_pos f Hl'). destruct (IH Hfs ltac:(lia)) as [? ?].
  split; [by constructor|]. simpl length. lia.
Qed.

Lemma DecodeBytes_inv b fs : bytes_ok b -> blen b < 2 ^ 64 ->
  DecodeBytes b = inr fs -> puthead 0xC0 0xF7 (blen (payload fs)) ++ payload fs = b.
Proof.
  intros Hb Hl.
  unfold DecodeBytes, decodeListSlice, mbind, SM_bind.
  destruct (SList (NewStream b)) as [s1 [e|n]] eqn:HSL; [done|].
  destruct (SList_top b _ _ Hb Hl HSL) as (Hn & Hr & Hin & Ha).
  destruct (Z.eqb_spec n 0) as [->|].
  + destruct (SListEnd_ok s1 Hin Ha) as (s2 & -> & Hr2). unfold mret, SM_ret. rewrite Hr2.
    destruct (s_r s1); [|done]. intros [= <-]. by rewrite Hr.
  + destruct (decodeSliceElems (S (length b)) [] s1) as [s2 [e|fs']] eqn:HD; [done|].
    apply decodeSliceElems_inv in HD as (fs2 & -> & Hr1 & Ha1 & Hin2 & Ha2); [|done].
    destruct (SListEnd_ok s2 Hin2 Ha2) as (s3 & -> & Hr3). unfold mret, SM_ret. rewrite Hr3.
    destruct (s_r s2); [|done]. intros [= <-]. rewrite Hr, Hr1, app_nil_r. congruence.
Qed.

Lemma DecodeBytes_encoded fs :
  bytes_ok (payload fs) -> blen (puthead 0xC0 0xF7 (blen (payload fs)) ++ payload fs) < 2 ^ 64 ->
  DecodeBytes (puthead 0xC0 0xF7 (blen (payload fs)) ++ payload fs) = inr fs.
Proof.
  intros Hp Hl.
  set (p := payload fs) in *.
  pose proof Hl as Hl'. rewrite blen_app in Hl'. pose proof (blen_nonneg p).
  pose proof (blen_nonneg (puthead 192 247 (blen p))).
  destruct (payload_fields fs Hp ltac:(fold p; lia)) as [Hfs Hlen]. fold p in Hlen.
  destruct (SList_encoded (blen p) p Hp ltac:(lia) Hl) as (s1 & HSL & Hin & Ha & Hr).
  unfold DecodeBytes, decodeListSlice, mbind, SM_bind. rewrite HSL.
  destruct (Z.eqb_spec (blen p) 0) as [Hz|].
  + destruct (SListEnd_ok s1 Hin ltac:(lia)) as (s2 & -> & Hr2). unfold mret, SM_ret.
    rewrite Hr2, Hr. destruct fs; [|simpl in Hlen; lia]. done.
  + destruct (decodeSliceElems_encoded fs (S (length (puthead 192 247 (blen p) ++ p))) s1 [] [])
      as (s2 & -> & Hin2 & Hr2 & Ha2); [done|done|by rewrite app_nil_r|done| |].
    { rewrite length_app. unfold blen in *. lia. }
    destruct (SListEnd_ok s2 Hin2 Ha2) as (s3 & -> & Hr3). unfold mret, SM_ret.
    by rewrite Hr3, Hr2.
Qed.

Lemma DecodeBytes_total b : bytes_ok b -> blen b < 2 ^ 64 -> DecodeBytes b <> inl OutOfFuel.
Proof.
  intros Hb Hl.
  unfold DecodeBytes, decodeListSlice, mbind, SM_bind.
  destruct (SList (NewStream b)) as [s1 [e|n]] eqn:HSL.
  { pose proof (SList_top b _ _ Hb Hl HSL). congruence. }
  destruct (SList_top b _ _ Hb Hl HSL) as (Hn & Hr & Hin & Ha).
  destruct (Z.eqb_spec n 0) as [->|].
  { destruct (SListEnd_ok s1 Hin Ha) as (s2 & -> & Hr2). unfold mret, SM_ret. by case_match. }
  destruct (decodeSliceElems (S (length b)) [] s1) as [s2 [e|fs']] eqn:HD.
  { apply decodeSliceElems_inv in HD; [|done]. intros [= ->]. specialize (HD eq_refl).
    assert (avail s1 <= blen (s_r s1)) by (destruct Hin as ((? & _ & _ & ? & _) & _); lia).
    assert (blen b = blen (puthead 192 247 n) + blen (s_r s1)) by (rewrite Hr at 1; apply blen_app).
    pose proof (blen_nonneg (puthead 192 247 n)). unfold blen in *. lia. }
  apply decodeSliceElems_inv in HD as (fs2 & -> & Hr1 & Ha1 & Hin2 & Ha2); [|done].
  destruct (SListEnd_ok s2 Hin2 Ha2) as (s3 & -> & Hr3). unfold mret, SM_ret. by case_match.
Qed.

(** C30: the list codec.  An input decodes to a list of byte strings exactly when
    it is the encoding of that list: decoding inverts encoding, no second input
    decodes to the same list, and the fuel of the element loop never runs out. *)
Theorem rlp_codec b fs : bytes_ok b -> blen b < 2 ^ 64 ->
  (DecodeBytes b = inr fs <-> EncodeToBytes fs = Ok b) /\ DecodeBytes b <> inl OutOfFuel.
Proof.
  intros Hb Hl. rewrite EncodeToBytes_eq. split; [split|by apply DecodeBytes_total].
  - intros H. f_equal. by apply DecodeBytes_inv.
  - intros [= <-]. apply DecodeBytes_encoded; [|done]. by apply bytes_ok_app in Hb as [_ ?].
Qed.

Lemma rlp_codec_witness :
  DecodeBytes [0xC5; 0x83; 1; 2; 3; 7] = inr [[1; 2; 3]; [7]] /\
  DecodeBytes [0xC2; 0x81; 7] <> inl OutOfFuel.
Proof.
  split.
  - apply (rlp_codec [0xC5; 0x83; 1; 2; 3; 7] [[1; 2; 3]; [7]]); [|done|reflexivity].
    repeat constructor; done.
  - apply (rlp_codec [0xC2; 0x81; 7] []); [|done]. repeat constructor; done.
Defined.
