(* ===== verification/L2Tx.v ===== *)
(** * Batch L2 data: transactions and blocks as bytes (zk/tx/tx.go)

    The encoding of a transaction for a batch, the encoding of a block as a
    [changeL2Block] marker followed by its transactions, and the decoder that
    turns the bytes of a batch back into blocks.

    Shown: what the encoder writes the decoder reads back, transaction by
    transaction and block by block, but for one extra empty block when the first
    byte of the first time stamp looks like a block marker; and the decoder
    panics only on a block marker cut short. *)
From S2P Require Import Prelude Bytes CounterBase Rlp.

Definition double : Z := 2.
Definition ether155V : Z := 27.
Definition etherPre155V : Z := 35.
Definition MaxEffectivePercentage : Z := 255.
Definition headerByteLength : Z := 1.
Definition sLength : Z := 32.
Definition rLength : Z := 32.
Definition vLength : Z := 1.
Definition c0 : Z := 192.
Definition shortRlp : Z := 55.
Definition f7 : Z := 247.
Definition efficiencyPercentageByteLength : Z := 1.
Definition changeL2BlockTxType : Z := 11.
Definition changeL2BlockLength : Z := 9.
Definition ForkID5Dragonfruit : Z := 5.
Definition ForkID7Etrog : Z := 7.

(** ** Legacy transactions (core/types) *)

Record LegacyTx := mkLegacyTx {
  Nonce : Z;
  GasPrice : Z;
  Gas : Z;
  To : option Z;
  Value : Z;
  Data : list Z;
  ChainID : Z;
  V : Z;
  R : Z;
  S_ : Z;
}.

Definition isProtectedV (v : Z) : bool :=
  if v <? 2 ^ 8 then negb (v =? 27) && negb (v =? 28) && negb (v =? 1) && negb (v =? 0)
  else true.

Definition DeriveChainId (v : Z) : Z :=
  if v <? 2 ^ 64 then
    if (v =? 27) || (v =? 28) then 0 else u64 (v - 35) / 2
  else u256 (v - 35) / 2.

(** A legacy transaction through the methods of [types.Transaction]. *)
Definition legacy_view (tx : LegacyTx) : Transaction := {|
  GetNonce := Nonce tx;
  GetPrice := GasPrice tx;
  GetGas := Gas tx;
  GetTo := To tx;
  GetValue := Value tx;
  GetData := Data tx;
  GetChainID := DeriveChainId (V tx);
  Protected := isProtectedV (V tx);
  RawV := V tx;
  RawR := R tx;
  RawS := S_ tx;
|}.

(** ** Encoding *)

Fixpoint removeLeadingZeroesFromBytes (source : list Z) : list Z :=
  match source with
  | 0 :: rest => removeLeadingZeroesFromBytes rest
  | _ => source
  end.

(** [uint256.FromBig] keeps the low 256 bits, of a negative number too. *)
Definition GetDecodedV (tx : Transaction) (v : Z) : Z :=
  if negb (Protected tx) then v
  else u256 (v + ether155V - GetChainID tx * double - etherPre155V).

Definition toEncode (tx : Transaction) : list (list Z) :=
  [removeLeadingZeroesFromBytes (Uint64ToBytes (GetNonce tx));
   removeLeadingZeroesFromBytes (big_bytes (GetPrice tx));
   removeLeadingZeroesFromBytes (Uint64ToBytes (GetGas tx));
   match GetTo tx with Some a => be_encode 20 a | None => [] end;
   removeLeadingZeroesFromBytes (big_bytes (GetValue tx));
   GetData tx]
  ++ (if negb (GetChainID tx =? 0) || negb ((RawV tx =? 27) || (RawV tx =? 28))
      then [removeLeadingZeroesFromBytes (big_bytes (GetChainID tx)); []; []]
      else []).

Definition TransactionToL2Data (tx : Transaction) (forkId efficiencyPercentage : Z)
    : outcome (list Z) :=
  encoded ← EncodeToBytes (toEncode tx);
  let v := GetDecodedV tx (RawV tx) in
  let encoded := encoded ++ be_encode 32 (RawR tx) ++ be_encode 32 (RawS tx) ++ big_bytes v in
  Ok (if ForkID5Dragonfruit <=? forkId
      then encoded ++ Uint8ToBytes efficiencyPercentage else encoded).

Definition GenerateStartBlockBatchL2Data (deltaTimestamp l1InfoTreeIndex : Z) : list Z :=
  changeL2BlockTxType :: be_encode 4 deltaTimestamp ++ be_encode 4 l1InfoTreeIndex.

(** The transactions of a block, each with its gas price percentage. *)
Fixpoint appendTransactions (forkId : Z) (result : list Z) (txs : list (Transaction * Z))
    : outcome (list Z) :=
  match txs with
  | [] => Ok result
  | (tx, pct) :: txs =>
      encoded ← TransactionToL2Data tx forkId pct;
      appendTransactions forkId (result ++ encoded) txs
  end.

Definition GenerateBlockBatchL2Data (forkId deltaTimestamp l1InfoTreeIndex : Z)
    (transactionsData : list (Transaction * Z)) : outcome (list Z) :=
  appendTransactions forkId
    (if ForkID7Etrog <=? forkId
     then GenerateStartBlockBatchL2Data deltaTimestamp l1InfoTreeIndex else [])
    transactionsData.

(** ** Decoding *)

Record DecodedBatchL2Data := mkDecoded {
  Transactions : list LegacyTx;
  EffectiveGasPricePercentages : list Z;
  DeltaTimestamp : Z;
  L1InfoTreeIndex : Z;
}.

Definition emptyData : DecodedBatchL2Data := mkDecoded [] [] 0 0.

(** [uint256.SetBytes] keeps the last 32 bytes. *)
Definition SetBytes256 (b : list Z) : Z := u256 (be_decode b).

Definition BytesToAddress (b : list Z) : Z := be_decode b mod 2 ^ 160.

Definition rlpFieldsToLegacyTx (fields : list (list Z)) (v r s : list Z) : outcome LegacyTx :=
  match fields with
  | f0 :: f1 :: f2 :: f3 :: f4 :: f5 :: more =>
      let '(chainID, txV) :=
        match more with
        | f6 :: _ =>
            let chainIDBig := be_decode f6 in
            let a := chainIDBig * double in
            let b := be_decode v - ether155V in
            let c := a + etherPre155V in
            (chainIDBig, b + c)
        | [] => (0, be_decode v)
        end in
      Ok {| Nonce := u64 (be_decode f0);
            GasPrice := SetBytes256 f1;
            Gas := u64 (be_decode f2);
            To := match f3 with [] => None | _ => Some (BytesToAddress f3) end;
            Value := u256 (be_decode f4);
            Data := f5;
            ChainID := u256 chainID;
            V := SetBytes256 (big_bytes (Z.abs txV));
            R := SetBytes256 r;
            S_ := SetBytes256 s |}
  | _ => Err "transaction type not supported"
  end.

(** [strconv.ParseUint] of a hex string, 64 bits. *)
Definition ParseUintHex (b : list Z) : outcome Z :=
  match b with
  | [] => Err "invalid syntax"
  | _ => if be_decode b <? 2 ^ 64 then Ok (be_decode b) else Err "value out of range"
  end.

Record DecodeState := mkDS {
  ds_pos : Z;
  ds_result : list DecodedBatchL2Data;
  ds_current : DecodedBatchL2Data;
  ds_delta : Z;
  ds_index : Z;
}.

(** The data of the block so far, sealed with the marker read before it. *)
Definition seal (st : DecodeState) : list DecodedBatchL2Data :=
  ds_result st ++
    [mkDecoded (Transactions (ds_current st)) (EffectiveGasPricePercentages (ds_current st))
       (ds_delta st) (ds_index st)].

(** One pass of the loop: go on, or return early with an error value, which is
    nil where the source returns a nil error. *)
Inductive stepResult := Continue (st : DecodeState) | Return (e : option string).

Definition decodeChangeL2Block (txsData : list Z) (st : DecodeState) : outcome stepResult :=
  let pos := ds_pos st in
  capture ← (if 0 <? pos then Ok true
             else b ← index txsData (u64 (pos + 1)); Ok (b =? changeL2BlockTxType))
             : outcome bool;
  let result := if capture : bool then seal st else ds_result st in
  let current := if capture : bool then emptyData else ds_current st in
  d ← slice txsData (u64 (pos + 1)) (u64 (pos + 5));
  i ← slice txsData (u64 (pos + 5)) (u64 (pos + 9));
  Ok (Continue (mkDS (u64 (pos + changeL2BlockLength)) result current (be_decode d) (be_decode i))).

(** The length after the header byte [num], or the early return. *)
Definition rlpLength (txsData : list Z) (pos num : Z) : outcome (stepResult + Z) :=
  let length := num - c0 in
  if shortRlp <? length then
    if blen txsData <? u64 (pos + 1 + num - f7) then Ok (inl (Return None))
    else
      header ← slice txsData (u64 (pos + 1)) (u64 (pos + 1 + num - f7));
      match ParseUintHex header with
      | Ok n =>
          if u64 (n + num) <? f7 then Ok (inl (Return (Some "invalid data")))
          else Ok (inr (u64 (n + num - f7)))
      | Err e => Ok (inl (Return (Some e)))
      | Panic => Panic
      end
  else Ok (inr length).

Definition decodeTransaction (txsData : list Z) (forkID : Z) (st : DecodeState) (length : Z)
    : outcome stepResult :=
  let pos := ds_pos st in
  let withPercentage := ForkID5Dragonfruit <=? forkID in
  let endPos := u64 (pos + length + rLength + sLength + vLength + headerByteLength
                     + (if withPercentage then efficiencyPercentageByteLength else 0)) in
  if blen txsData <? endPos then Ok (Return (Some "invalid data"))
  else if endPos <? pos then Ok (Return (Some "invalid data"))
  else
    _ ← slice txsData pos endPos;
    let dataStart := u64 (pos + length + headerByteLength) in
    txInfo ← slice txsData pos dataStart;
    rData ← slice txsData dataStart (u64 (dataStart + rLength));
    sData ← slice txsData (u64 (dataStart + rLength)) (u64 (dataStart + rLength + sLength));
    vData ← slice txsData (u64 (dataStart + rLength + sLength))
              (u64 (dataStart + rLength + sLength + vLength));
    pcts ← (if withPercentage then
              p ← slice txsData (u64 (dataStart + rLength + sLength + vLength)) endPos;
              b ← index p 0;
              Ok (EffectiveGasPricePercentages (ds_current st) ++ [b])
            else Ok (EffectiveGasPricePercentages (ds_current st))) : outcome (list Z);
    match DecodeBytes txInfo with
    | inl _ => Ok (Return (Some "invalid data"))
    | inr rlpFields =>
        match rlpFieldsToLegacyTx rlpFields vData rData sData with
        | Err e => Ok (Return (Some e))
        | Panic => Panic
        | Ok legacyTx =>
            Ok (Continue (mkDS endPos (ds_result st)
              (mkDecoded (Transactions (ds_current st) ++ [legacyTx]) pcts
                 (DeltaTimestamp (ds_current st)) (L1InfoTreeIndex (ds_current st)))
              (ds_delta st) (ds_index st)))
        end
    end.

Definition decodeStep (txsData : list Z) (forkID : Z) (st : DecodeState) : outcome stepResult :=
  let pos := ds_pos st in
  num ← index txsData pos;
  if num =? changeL2BlockTxType then decodeChangeL2Block txsData st
  else if num <? c0 then Ok (Return (Some "invalid data"))
  else
    l ← rlpLength txsData pos num;
    match l with
    | inl r => Ok r
    | inr length => decodeTransaction txsData forkID st length
    end.

(** The loop returns the blocks and the error value, with the blocks sealed so
    far also beside an error. *)
Fixpoint decodeLoop (fuel : nat) (txsData : list Z) (forkID : Z) (st : DecodeState)
    : outcome (list DecodedBatchL2Data * option string) :=
  if ds_pos st <? blen txsData then
    match fuel with
    | O => Err "out of fuel"
    | S fuel =>
        r ← decodeStep txsData forkID st;
        match r with
        | Continue st' => decodeLoop fuel txsData forkID st'
        | Return e => Ok (ds_result st, e)
        end
    end
  else Ok (seal st, None).

(** Every pass moves the position forward, so one unit of fuel per byte is
    enough ([decodeLoop_progress]). *)
Definition DecodeBatchL2Blocks (txsData : list Z) (forkID : Z)
    : outcome (list DecodedBatchL2Data * option string) :=
  match txsData with
  | [] => Ok ([], None)
  | _ => decodeLoop (length txsData) txsData forkID (mkDS 0 [] emptyData 0 0)
  end.

(** ** Transactions the batch format carries *)

(** Fields in range, and a [V] that is either the one of an unprotected
    signature or the one [chainID] and the parity make. *)
Definition tx_ok (tx : LegacyTx) : Prop :=
  0 <= Nonce tx < 2 ^ 64 /\ 0 <= GasPrice tx < 2 ^ 256 /\ 0 <= Gas tx < 2 ^ 64 /\
  (forall a, To tx = Some a -> 0 <= a < 2 ^ 160) /\ 0 <= Value tx < 2 ^ 256 /\
  bytes_ok (Data tx) /\ 0 <= R tx < 2 ^ 256 /\ 0 <= S_ tx < 2 ^ 256 /\
  ((ChainID tx = 0 /\ (V tx = 27 \/ V tx = 28)) \/
   (0 <= ChainID tx /\ V tx < 2 ^ 256 /\
    (V tx = 2 * ChainID tx + 35 \/ V tx = 2 * ChainID tx + 36))).

Lemma removeLeadingZeroes_decode l :
  be_decode (removeLeadingZeroesFromBytes l) = be_decode l.
Proof.
  induction l as [|x l IH]; [done|]. cbn [removeLeadingZeroesFromBytes].
  by destruct x.
Qed.

Lemma removeLeadingZeroes_ok l : bytes_ok l -> bytes_ok (removeLeadingZeroesFromBytes l).
Proof.
  induction 1 as [|x l Hx Hl IH]; [by constructor|]. cbn [removeLeadingZeroesFromBytes].
  destruct x; [done|by constructor|by constructor].
Qed.

Lemma big_bytes_ok z : bytes_ok (big_bytes z).
Proof. apply be_encode_ok. Qed.

#[export] Hint Resolve removeLeadingZeroes_ok big_bytes_ok : bytes.

(** The signature byte of a protected or unprotected transaction is 27 or 28,
    and the chain id is the transaction's. *)
Lemma tx_ok_v tx : tx_ok tx ->
  let v := GetDecodedV (legacy_view tx) (V tx) in
  DeriveChainId (V tx) = ChainID tx /\ (v = 27 \/ v = 28) /\
  (if negb (ChainID tx =? 0) || negb ((V tx =? 27) || (V tx =? 28))
   then V tx = v - 27 + (ChainID tx * 2 + 35) else V tx = v).
Proof.
  intros (_ & _ & _ & _ & _ & _ & _ & _ & HV).
  unfold GetDecodedV, legacy_view; simpl.
  destruct HV as [(Hc & HV)|(Hc & Hb & HV)].
  - assert (DeriveChainId (V tx) = 0) as -> by (by destruct HV as [-> | ->]).
    assert (isProtectedV (V tx) = false) as -> by (by destruct HV as [-> | ->]).
    rewrite Hc. destruct HV as [-> | ->]; simpl; auto.
  - assert (DeriveChainId (V tx) = ChainID tx) as HD.
    { unfold DeriveChainId, u64, u256. destruct (Z.ltb_spec (V tx) (2 ^ 64)).
      - destruct (Z.eqb_spec (V tx) 27); [lia|]. destruct (Z.eqb_spec (V tx) 28); [lia|]. simpl.
        rewrite Z.mod_small by lia. symmetry.
        destruct HV as [-> | ->]; [apply (Z.div_unique _ _ _ 0)|apply (Z.div_unique _ _ _ 1)]; lia.
      - rewrite Z.mod_small by lia. symmetry.
        destruct HV as [-> | ->]; [apply (Z.div_unique _ _ _ 0)|apply (Z.div_unique _ _ _ 1)]; lia. }
    assert (isProtectedV (V tx) = true) as ->.
    { unfold isProtectedV. destruct (Z.ltb_spec (V tx) (2 ^ 8)); [|done].
      by rewrite !(proj2 (Z.eqb_neq _ _)) by lia. }
    rewrite HD. unfold ether155V, etherPre155V, double, u256. simpl negb.
    rewrite (proj2 (Z.eqb_neq (V tx) 27)), (proj2 (Z.eqb_neq (V tx) 28)) by lia.
    rewrite orb_true_r. rewrite Z.mod_small by lia. split; [done|lia].
Qed.

Lemma u256_small z : 0 <= z < 2 ^ 256 -> u256 z = z.
Proof. apply Z.mod_small. Qed.

Lemma decode_big z : 0 <= z -> be_decode (removeLeadingZeroesFromBytes (big_bytes z)) = z.
Proof. intros. by rewrite removeLeadingZeroes_decode, be_decode_big_bytes. Qed.

Lemma decode_u64 z : 0 <= z < 2 ^ 64 ->
  be_decode (removeLeadingZeroesFromBytes (Uint64ToBytes z)) = z.
Proof.
  intros. rewrite removeLeadingZeroes_decode. apply be_decode_encode_small.
  by change (256 ^ Z.of_nat 8) with (2 ^ 64).
Qed.

(** The fields read back, with the signature from the trailer. *)
Lemma rlpFieldsToLegacyTx_encoded tx : tx_ok tx ->
  rlpFieldsToLegacyTx (toEncode (legacy_view tx)) [GetDecodedV (legacy_view tx) (V tx)]
    (be_encode 32 (R tx)) (be_encode 32 (S_ tx)) = Ok tx.
Proof.
  intros Htx. destruct (tx_ok_v tx Htx) as (HD & Hv & HV).
  set (v := GetDecodedV (legacy_view tx) (V tx)) in *.
  destruct Htx as (Hn & Hp & Hg & Hto & Hval & Hdata & HR & HS & HVr).
  assert (be_decode [v] = v) as Hdv by (unfold be_decode; simpl; lia).
  assert (forall z, 0 <= z < 2 ^ 256 -> SetBytes256 (be_encode 32 z) = z) as H32.
  { intros z Hz. unfold SetBytes256. rewrite be_decode_encode_small by exact Hz. by apply u256_small. }
  unfold toEncode. cbn [legacy_view GetNonce GetPrice GetGas GetTo GetValue GetData GetChainID RawV].
  rewrite HD. unfold rlpFieldsToLegacyTx.
  assert (To tx = match match To tx with Some a => be_encode 20 a | None => [] end with
                  | [] => None
                  | _ => Some (BytesToAddress
                           (match To tx with Some a => be_encode 20 a | None => [] end)) end) as HTo.
  { destruct (To tx) as [a|] eqn:E; [|done]. specialize (Hto a eq_refl).
    transitivity (Some (BytesToAddress (be_encode 20 a))); [|done]. unfold BytesToAddress.
    rewrite be_decode_encode_small by exact Hto. by rewrite Z.mod_small. }
  assert (0 <= V tx < 2 ^ 256) by lia.
  assert (0 <= ChainID tx < 2 ^ 256) by lia.
  destruct (negb (ChainID tx =? 0) || _) eqn:Hchain; cbn [app]; f_equal.
  - rewrite Hdv, !decode_big, !decode_u64, !H32 by lia.
    unfold ether155V, etherPre155V, double. rewrite <- HV.
    unfold SetBytes256. rewrite Z.abs_eq, be_decode_big_bytes by lia. rewrite decode_big by lia.
    rewrite !u256_small, !u64_small by lia. rewrite <- HTo. by destruct tx.
  - rewrite Hdv, !decode_big, !decode_u64, !H32 by lia. rewrite <- HV.
    unfold SetBytes256. rewrite Z.abs_eq, be_decode_big_bytes, decode_big by lia.
    rewrite !u256_small, !u64_small by lia. rewrite <- HTo.
    assert (ChainID tx = 0) as Hc0 by (apply orb_false_iff in Hchain as [?%negb_false_iff%Z.eqb_eq _]; done).
    rewrite <- Hc0 at 1. by destruct tx.
Qed.

(** ** Reading back one transaction *)

Lemma TransactionToL2Data_eq tx forkId pct :
  TransactionToL2Data tx forkId pct =
    Ok ((puthead 0xC0 0xF7 (blen (payload (toEncode tx))) ++ payload (toEncode tx))
        ++ be_encode 32 (RawR tx) ++ be_encode 32 (RawS tx) ++ big_bytes (GetDecodedV tx (RawV tx))
        ++ (if ForkID5Dragonfruit <=? forkId then [pct] else [])).
Proof.
  unfold TransactionToL2Data. rewrite EncodeToBytes_eq. cbn [mbind outcome_bind].
  unfold Uint8ToBytes. destruct (_ <=? _); rewrite <- ?app_assoc, ?app_nil_r; done.
Qed.

Lemma rlpLength_header pre n post :
  0 <= n -> blen (pre ++ puthead 0xC0 0xF7 n ++ post) < 2 ^ 63 -> n < 2 ^ 63 ->
  exists num rest, puthead 0xC0 0xF7 n = num :: rest /\ 192 <= num < 256 /\
    rlpLength (pre ++ puthead 0xC0 0xF7 n ++ post) (blen pre) num =
      Ok (inr (n + blen (puthead 0xC0 0xF7 n) - 1)).
Proof.
  intros Hn Hl Hn63. pose proof (blen_nonneg pre). pose proof (blen_nonneg post).
  rewrite !blen_app in Hl.
  unfold puthead, rlpLength, c0, shortRlp, f7, u8 in *. destruct (Z.ltb_spec n 56).
  - eexists _, _; split; [done|]. rewrite (Z.mod_small n), Z.mod_small by lia.
    destruct (Z.ltb_spec 55 (192 + n - 192)); [lia|]. split; [lia|].
    do 2 f_equal. unfold blen; simpl. lia.
  - destruct (putint_spec n) as (k & Hp & Hk & Hb); [lia|]. rewrite Hp in *.
    set (enc := be_encode k n) in *.
    assert (blen enc = Z.of_nat k) as Hek by (unfold blen, enc; by rewrite be_encode_length).
    rewrite Hek in *. rewrite Z.mod_small in * by lia.
    assert (blen ((247 + Z.of_nat k) :: enc) = 1 + Z.of_nat k) as Hhl by (unfold blen in *; simpl; lia).
    rewrite Hhl in *.
    eexists _, _; split; [done|]. split; [lia|].
    destruct (Z.ltb_spec 55 (247 + Z.of_nat k - 192)); [|lia].
    rewrite !blen_app, Hhl. rewrite !(u64_small (blen pre + 1)), (u64_small (blen pre + 1 + _ - 247)) by lia.
    destruct (Z.ltb_spec (blen pre + (1 + Z.of_nat k + blen post)) (blen pre + 1 + (247 + Z.of_nat k) - 247));
      [lia|].
    rewrite (slice_at _ (pre ++ [247 + Z.of_nat k]) enc post);
      [|by rewrite <- !app_assoc|rewrite length_app; simpl; unfold blen; lia|unfold blen in Hek; lia].
    cbn [mbind outcome_bind].
    assert (be_decode enc = n) as Hdn by (apply be_decode_encode_small; lia).
    assert (ParseUintHex enc = Ok n) as ->.
    { unfold ParseUintHex. rewrite Hdn. destruct enc as [|? ?]; [unfold blen in Hek; simpl in Hek; lia|].
      destruct (Z.ltb_spec n (2 ^ 64)); [done|lia]. }
    rewrite !u64_small by lia.
    destruct (Z.ltb_spec (n + (247 + Z.of_nat k)) 247); [lia|]. do 2 f_equal. lia.
Qed.

Lemma toEncode_ok tx : tx_ok tx -> Forall bytes_ok (toEncode (legacy_view tx)).
Proof.
  intros (_ & _ & _ & _ & _ & Hd & _). unfold toEncode, Uint64ToBytes.
  cbn [legacy_view GetNonce GetPrice GetGas GetTo GetValue GetData GetChainID RawV].
  apply Forall_app; split.
  - rewrite !Forall_cons, Forall_nil. split_and!; auto with bytes.
    destruct (To tx); [auto with bytes|constructor].
  - destruct (_ || _); rewrite ?Forall_cons, Forall_nil; split_and?; auto with bytes; constructor.
Qed.

Lemma payload_ok fs : Forall bytes_ok fs -> blen (payload fs) < 2 ^ 64 -> bytes_ok (payload fs).
Proof.
  unfold payload. induction 1 as [|f fs Hf Hfs IH]; [by constructor|]. cbn [map concat].
  rewrite blen_app. intros Hl. pose proof (blen_nonneg (concat (map encodeString fs))).
  pose proof (blen_nonneg (encodeString f)).
  apply bytes_ok_app. split; [|apply IH; lia]. apply encodeString_ok; [done|].
  destruct (encodeString_cases f) as [(x & -> & _)|[_ He]]; [by unfold blen|].
  rewrite He, blen_app in *. pose proof (blen_nonneg (puthead 128 183 (blen f))). lia.
Qed.

Lemma big_bytes_v v : v = 27 \/ v = 28 -> big_bytes v = [v].
Proof. by intros [-> | ->]. Qed.

Definition tx_bytes (forkId : Z) (tp : LegacyTx * Z) : list Z :=
  let '(tx, pct) := tp in
  let fs := toEncode (legacy_view tx) in
  puthead 0xC0 0xF7 (blen (payload fs)) ++ payload fs ++ be_encode 32 (R tx)
    ++ be_encode 32 (S_ tx) ++ [GetDecodedV (legacy_view tx) (V tx)]
    ++ (if ForkID5Dragonfruit <=? forkId then [pct] else []).

Lemma TransactionToL2Data_bytes forkId tx pct : tx_ok tx ->
  TransactionToL2Data (legacy_view tx) forkId pct = Ok (tx_bytes forkId (tx, pct)).
Proof.
  intros Htx. rewrite TransactionToL2Data_eq. cbn [legacy_view RawR RawS RawV].
  destruct (tx_ok_v tx Htx) as (_ & Hv & _). fold (legacy_view tx).
  rewrite big_bytes_v by exact Hv. unfold tx_bytes. by rewrite <- app_assoc.
Qed.

Definition push_tx (forkId : Z) (tp : LegacyTx * Z) (d : DecodedBatchL2Data) : DecodedBatchL2Data :=
  mkDecoded (Transactions d ++ [fst tp])
    (if ForkID5Dragonfruit <=? forkId
     then EffectiveGasPricePercentages d ++ [snd tp] else EffectiveGasPricePercentages d)
    (DeltaTimestamp d) (L1InfoTreeIndex d).

Lemma slice_piece (l pre mid post : list Z) i j :
  l = pre ++ mid ++ post -> i = blen pre -> j = i + blen mid -> slice l i j = Ok mid.
Proof. apply slice_at. Qed.

Lemma decodeTransaction_encoded forkId pre tp post st :
  tx_ok (fst tp) -> ds_pos st = blen pre ->
  let data := pre ++ tx_bytes forkId tp ++ post in
  let fs := toEncode (legacy_view (fst tp)) in
  blen data < 2 ^ 63 ->
  decodeTransaction data forkId st
    (blen (payload fs) + blen (puthead 0xC0 0xF7 (blen (payload fs))) - 1) =
  Ok (Continue (mkDS (blen pre + blen (tx_bytes forkId tp)) (ds_result st)
    (push_tx forkId tp (ds_current st)) (ds_delta st) (ds_index st))).
Proof.
  destruct tp as [tx pct]. intros Htx Hpos data fs Hl. cbn [fst] in Htx, fs.
  set (p := payload fs) in *. set (hd := puthead 0xC0 0xF7 (blen p)) in *.
  set (v := GetDecodedV (legacy_view tx) (V tx)).
  set (pc := if ForkID5Dragonfruit <=? forkId then [pct] else []).
  set (rb := be_encode 32 (R tx)). set (sb := be_encode 32 (S_ tx)).
  assert (tx_bytes forkId (tx, pct) = hd ++ p ++ rb ++ sb ++ [v] ++ pc) as Hb by done.
  assert (blen rb = 32 /\ blen sb = 32) as [Hrb Hsb].
  { unfold blen, rb, sb. by rewrite !be_encode_length. }
  assert (blen pc = if ForkID5Dragonfruit <=? forkId then 1 else 0) as Hpc by (unfold pc; by destruct (_ <=? _)).
  assert (blen data = blen pre + (blen hd + (blen p + (32 + (32 + (1 + blen pc))))) + blen post) as Hdl.
  { unfold data. rewrite Hb, !blen_app, Hrb, Hsb. change (blen [v]) with 1. lia. }
  pose proof (blen_nonneg pre). pose proof (blen_nonneg post). pose proof (blen_nonneg p).
  pose proof (blen_nonneg pc).
  assert (1 <= blen hd) by (apply puthead_length; pose proof (blen_nonneg hd); lia).
  unfold decodeTransaction. rewrite Hpos.
  unfold rLength, sLength, vLength, headerByteLength, efficiencyPercentageByteLength.
  set (endPos := u64 _). assert (endPos = blen pre + blen (tx_bytes forkId (tx, pct))) as Hend.
  { unfold endPos. rewrite u64_small by (destruct (_ <=? _); lia).
    rewrite Hb, !blen_app, Hrb, Hsb. change (blen [v]) with 1. destruct (_ <=? _); lia. }
  assert (endPos = blen pre + (blen hd + (blen p + (32 + (32 + (1 + blen pc)))))) as Hend2.
  { rewrite Hend, Hb, !blen_app, Hrb, Hsb. by change (blen [v]) with 1. }
  clearbody endPos.
  destruct (Z.ltb_spec (blen data) endPos); [lia|]. destruct (Z.ltb_spec endPos (blen pre)); [lia|].
  rewrite (slice_piece data pre (tx_bytes forkId (tx, pct)) post (blen pre) endPos) by (done || lia).
  cbn [mbind outcome_bind]. rewrite !(u64_small (blen pre + _ + 1)) by lia.
  set (ds := blen pre + (blen p + blen hd - 1) + 1).
  assert (ds = blen pre + blen hd + blen p) as Hds by (unfold ds; lia). clearbody ds.
  rewrite !u64_small by lia.
  assert (data = pre ++ hd ++ p ++ rb ++ sb ++ [v] ++ pc ++ post) as Hdata.
  { unfold data. by rewrite Hb, <- !app_assoc. }
  clearbody data.
  rewrite (slice_piece data pre (hd ++ p) (rb ++ sb ++ [v] ++ pc ++ post) (blen pre) ds) by
    (rewrite ?blen_app; by rewrite <- ?app_assoc || lia).
  rewrite (slice_piece data (pre ++ hd ++ p) rb (sb ++ [v] ++ pc ++ post) ds (ds + 32)) by
    (rewrite ?blen_app; by rewrite <- ?app_assoc || lia).
  rewrite (slice_piece data (pre ++ hd ++ p ++ rb) sb ([v] ++ pc ++ post) (ds + 32) (ds + 32 + 32)) by
    (rewrite ?blen_app; by rewrite <- ?app_assoc || lia).
  rewrite (slice_piece data (pre ++ hd ++ p ++ rb ++ sb) [v] (pc ++ post) (ds + 32 + 32) (ds + 32 + 32 + 1)) by
    (rewrite ?blen_app; change (blen [v]) with 1; by rewrite <- ?app_assoc || lia).
  cbn [mbind outcome_bind].
  assert ((if ForkID5Dragonfruit <=? forkId
           then p0 ← slice data (ds + 32 + 32 + 1) endPos; b ← index p0 0;
                Ok (EffectiveGasPricePercentages (ds_current st) ++ [b])
           else Ok (EffectiveGasPricePercentages (ds_current st))) =
          Ok (EffectiveGasPricePercentages (push_tx forkId (tx, pct) (ds_current st)))) as ->.
  { unfold push_tx, pc in *; simpl. destruct (_ <=? _); [|done].
    rewrite (slice_piece data (pre ++ hd ++ p ++ rb ++ sb ++ [v]) [pct] post); [done| | |].
    - by rewrite Hdata, <- ?app_assoc.
    - rewrite !blen_app, Hrb, Hsb. change (blen [v]) with 1. lia.
    - change (blen [pct]) with 1 in *. lia. }
  cbn [mbind outcome_bind].
  assert (DecodeBytes (hd ++ p) = inr fs) as ->.
  { apply DecodeBytes_encoded; [|fold p; fold hd; rewrite blen_app; lia].
    apply payload_ok; [by apply toEncode_ok|fold p; lia]. }
  unfold fs. rewrite rlpFieldsToLegacyTx_encoded by done. rewrite Hend. done.
Qed.

(** ** Reading back blocks *)

Definition advance_tx forkId tp (st : DecodeState) : DecodeState :=
  mkDS (ds_pos st + blen (tx_bytes forkId tp)) (ds_result st)
    (push_tx forkId tp (ds_current st)) (ds_delta st) (ds_index st).

Lemma decodeStep_tx forkId pre tp post st :
  tx_ok (fst tp) -> ds_pos st = blen pre ->
  let data := pre ++ tx_bytes forkId tp ++ post in
  blen data < 2 ^ 63 -> ds_pos st < blen data /\
  decodeStep data forkId st = Ok (Continue (advance_tx forkId tp st)).
Proof.
  intros Htx Hpos data Hl. pose proof (decodeTransaction_encoded forkId pre tp post st Htx Hpos Hl) as HT.
  cbv zeta in HT. fold data in HT. destruct tp as [tx pct]. cbn [fst] in *.
  set (p := payload (toEncode (legacy_view tx))) in *.
  pose proof (blen_nonneg pre). pose proof (blen_nonneg p).
  assert (exists rest, data = pre ++ puthead 0xC0 0xF7 (blen p) ++ p ++ rest) as [rest Hdata].
  { eexists. unfold data, tx_bytes. fold p. rewrite <- !app_assoc. done. }
  assert (blen p < 2 ^ 63).
  { rewrite Hdata, !blen_app in Hl. pose proof (blen_nonneg rest).
    pose proof (blen_nonneg (puthead 192 247 (blen p))). lia. }
  clearbody data. subst data.
  destruct (rlpLength_header pre (blen p) (p ++ rest)) as (num & hrest & Hhd & Hnum & HL);
    [lia|done|done|].
  split.
  { rewrite Hhd, !blen_app. pose proof (blen_nonneg (p ++ rest)). rewrite blen_app in *.
    assert (1 <= blen (num :: hrest)) by (unfold blen; simpl; lia). lia. }
  unfold decodeStep. rewrite Hpos.
  rewrite (index_at _ pre (hrest ++ p ++ rest) num); [|by rewrite Hhd|done].
  cbn [mbind outcome_bind]. unfold changeL2BlockTxType, c0 in *.
  destruct (Z.eqb_spec num 11); [lia|]. destruct (Z.ltb_spec num 192); [lia|].
  rewrite HL. cbn [mbind outcome_bind]. rewrite HT. unfold advance_tx. by rewrite Hpos.
Qed.

Lemma decodeLoop_txs forkId txs : forall pre post st k,
  Forall (fun tp => tx_ok (fst tp)) txs -> ds_pos st = blen pre ->
  let data := pre ++ concat (map (tx_bytes forkId) txs) ++ post in
  blen data < 2 ^ 63 ->
  decodeLoop (length txs + k) data forkId st =
    decodeLoop k data forkId (foldl (fun st tp => advance_tx forkId tp st) st txs).
Proof.
  induction txs as [|tp txs IH]; intros pre post st k Htxs Hpos data Hl; [done|].
  apply Forall_cons in Htxs as [Htx Htxs].
  assert (data = pre ++ tx_bytes forkId tp ++ (concat (map (tx_bytes forkId) txs) ++ post)) as Hd
    by (unfold data; simpl; by rewrite <- app_assoc).
  destruct (decodeStep_tx forkId pre tp (concat (map (tx_bytes forkId) txs) ++ post) st Htx Hpos)
    as [Hlt Hstep]; [by rewrite <- Hd|]. rewrite <- Hd in Hlt, Hstep.
  cbn [length Nat.add decodeLoop foldl].
  destruct (Z.ltb_spec (ds_pos st) (blen data)); [|lia]. rewrite Hstep. cbn [mbind outcome_bind].
  assert (data = (pre ++ tx_bytes forkId tp) ++ concat (map (tx_bytes forkId) txs) ++ post) as Hd2
    by (by rewrite Hd, <- app_assoc).
  rewrite Hd2. apply IH; [done| |by rewrite <- Hd2].
  unfold advance_tx; simpl. rewrite Hpos, blen_app. done.
Qed.

(** A block to encode: time stamp delta, L1 info tree index and transactions. *)
Definition block := (Z * Z * list (LegacyTx * Z))%type.

Definition block_ok (b : block) : Prop :=
  let '(d, i, txs) := b in
  0 <= d < 2 ^ 32 /\ 0 <= i < 2 ^ 32 /\ Forall (fun tp => tx_ok (fst tp)) txs.

Definition block_bytes (forkId : Z) (b : block) : list Z :=
  let '(d, i, txs) := b in
  GenerateStartBlockBatchL2Data d i ++ concat (map (tx_bytes forkId) txs).

Definition decoded_block (b : block) : DecodedBatchL2Data :=
  let '(d, i, txs) := b in mkDecoded (map fst txs) (map snd txs) d i.

Lemma appendTransactions_bytes forkId txs : forall acc,
  Forall (fun tp => tx_ok (fst tp)) txs ->
  appendTransactions forkId acc (map (fun tp => (legacy_view (fst tp), snd tp)) txs) =
    Ok (acc ++ concat (map (tx_bytes forkId) txs)).
Proof.
  induction txs as [|[tx pct] txs IH]; intros acc Htxs; simpl; [by rewrite app_nil_r|].
  apply Forall_cons in Htxs as [Htx Htxs].
  rewrite TransactionToL2Data_bytes by done. cbn [mbind outcome_bind].
  rewrite IH by done. by rewrite <- app_assoc.
Qed.

Lemma GenerateBlock_bytes forkId d i txs : ForkID7Etrog <= forkId ->
  Forall (fun tp => tx_ok (fst tp)) txs ->
  GenerateBlockBatchL2Data forkId d i (map (fun tp => (legacy_view (fst tp), snd tp)) txs) =
    Ok (block_bytes forkId (d, i, txs)).
Proof.
  intros Hf Htxs. unfold GenerateBlockBatchL2Data.
  destruct (Z.leb_spec ForkID7Etrog forkId); [|lia]. by apply appendTransactions_bytes.
Qed.

Lemma foldl_advance_pos forkId txs : forall st,
  let st' := foldl (fun st tp => advance_tx forkId tp st) st txs in
  ds_pos st' = ds_pos st + blen (concat (map (tx_bytes forkId) txs)) /\
  ds_result st' = ds_result st.
Proof.
  induction txs as [|tp txs IH]; intros st; cbn [foldl map concat].
  - unfold blen; simpl. split; [lia|done].
  - destruct (IH (advance_tx forkId tp st)) as [-> ->]. rewrite blen_app. simpl. split; [lia|done].
Qed.

Lemma foldl_advance forkId txs : ForkID7Etrog <= forkId -> forall st,
  let st' := foldl (fun st tp => advance_tx forkId tp st) st txs in
  ds_pos st' = ds_pos st + blen (concat (map (tx_bytes forkId) txs)) /\
  ds_result st' = ds_result st /\ ds_delta st' = ds_delta st /\ ds_index st' = ds_index st /\
  Transactions (ds_current st') = Transactions (ds_current st) ++ map fst txs /\
  EffectiveGasPricePercentages (ds_current st') =
    EffectiveGasPricePercentages (ds_current st) ++ map snd txs.
Proof.
  intros Hf. induction txs as [|tp txs IH]; intros st; simpl.
  { rewrite !app_nil_r. unfold blen; simpl. split_and!; done || lia. }
  destruct (IH (advance_tx forkId tp st)) as (Hp & Hr & Hd & Hi & Ht & He). rewrite Hp, Hr, Hd, Hi, Ht, He.
  unfold advance_tx, push_tx; simpl. unfold ForkID7Etrog, ForkID5Dragonfruit in *.
  destruct (Z.leb_spec 5 forkId); [|lia]. rewrite blen_app, <- !app_assoc. split_and!; done || lia.
Qed.

(** The marker of a block; the one at the start of the data captures the empty
    data before it when the next byte, the first of the time stamp, is 11. *)
Definition captures (pos d : Z) : bool := (0 <? pos) || (d / 2 ^ 24 =? changeL2BlockTxType).

Lemma decodeStep_change forkId pre d i post st :
  0 <= d < 2 ^ 32 -> 0 <= i < 2 ^ 32 -> ds_pos st = blen pre ->
  let data := pre ++ GenerateStartBlockBatchL2Data d i ++ post in
  blen data < 2 ^ 63 -> ds_pos st < blen data /\
  decodeStep data forkId st = Ok (Continue
    (mkDS (ds_pos st + 9) (if captures (ds_pos st) d then seal st else ds_result st)
       (if captures (ds_pos st) d then emptyData else ds_current st) d i)).
Proof.
  intros Hd Hi Hpos data Hl.
  set (db := be_encode 4 d). set (ib := be_encode 4 i).
  assert (blen db = 4 /\ blen ib = 4) as [Hdb Hib] by (unfold blen, db, ib; by rewrite !be_encode_length).
  assert (data = pre ++ [11] ++ db ++ ib ++ post) as Hdata.
  { unfold data. change (GenerateStartBlockBatchL2Data d i) with ([11] ++ db ++ ib).
    by rewrite <- !app_assoc. }
  pose proof (blen_nonneg pre). pose proof (blen_nonneg post).
  assert (blen data = blen pre + (1 + (4 + (4 + blen post)))) as Hlen.
  { rewrite Hdata, !blen_app, Hdb, Hib. by change (blen [11]) with 1. }
  clearbody data. split; [lia|]. unfold decodeStep. rewrite Hpos.
  rewrite (index_at data pre (db ++ ib ++ post) 11) by done. cbn [mbind outcome_bind].
  change (11 =? changeL2BlockTxType) with true. cbv iota.
  unfold decodeChangeL2Block. rewrite Hpos, !u64_small by (unfold changeL2BlockLength; lia).
  assert ((if 0 <? blen pre then Ok true
           else b ← index data (blen pre + 1); Ok (b =? changeL2BlockTxType)) =
          Ok (captures (blen pre) d)) as ->.
  { unfold captures. destruct (Z.ltb_spec 0 (blen pre)); [done|].
    rewrite (index_at data (pre ++ [11]) (be_encode 3 d ++ ib ++ post) (d / 2 ^ 24)).
    - done.
    - rewrite Hdata, <- app_assoc. unfold db. cbn [be_encode app].
      change (256 ^ Z.of_nat 3) with (2 ^ 24). rewrite (Z.mod_small (d / 2 ^ 24)); [done|].
      split; [apply Z.div_pos|apply Z.div_lt_upper_bound]; lia.
    - unfold blen. rewrite length_app. simpl. lia. }
  cbn [mbind outcome_bind].
  rewrite (slice_piece data (pre ++ [11]) db (ib ++ post) (blen pre + 1) (blen pre + 5)); cycle 1.
  { by rewrite Hdata, <- app_assoc. }
  { rewrite blen_app. by change (blen [11]) with 1. }
  { rewrite Hdb. lia. }
  cbn [mbind outcome_bind].
  rewrite (slice_piece data (pre ++ [11] ++ db) ib post (blen pre + 5) (blen pre + 9)); cycle 1.
  { by rewrite Hdata, <- !app_assoc. }
  { rewrite !blen_app, Hdb. change (blen [11]) with 1. lia. }
  { rewrite Hib. lia. }
  cbn [mbind outcome_bind]. unfold changeL2BlockLength.
  unfold db, ib. rewrite !be_decode_encode_small by (change (256 ^ Z.of_nat 4) with (2 ^ 32); lia).
  done.
Qed.

(** How many passes of the loop the blocks take. *)
Definition block_steps (b : block) : nat := S (length (snd b)).

Lemma decodeLoop_block forkId pre b post st k : ForkID7Etrog <= forkId ->
  block_ok b -> ds_pos st = blen pre ->
  (captures (ds_pos st) (fst (fst b)) = false -> ds_current st = emptyData) ->
  let data := pre ++ block_bytes forkId b ++ post in
  blen data < 2 ^ 63 ->
  exists st', decodeLoop (block_steps b + k) data forkId st = decodeLoop k data forkId st' /\
    ds_pos st' = blen (pre ++ block_bytes forkId b) /\
    seal st' = (if captures (ds_pos st) (fst (fst b)) then seal st else ds_result st)
                 ++ [decoded_block b].
Proof.
  destruct b as [[d i] txs]. intros Hf (Hd & Hi & Htxs) Hpos Hcap data Hl. cbn [fst snd] in *.
  set (head := GenerateStartBlockBatchL2Data d i).
  assert (blen head = 9) as Hh.
  { done. }
  assert (data = pre ++ head ++ (concat (map (tx_bytes forkId) txs) ++ post)) as Hdata.
  { unfold data. change (block_bytes forkId (d, i, txs)) with (head ++ concat (map (tx_bytes forkId) txs)).
    by rewrite <- app_assoc. }
  destruct (decodeStep_change forkId pre d i (concat (map (tx_bytes forkId) txs) ++ post) st Hd Hi Hpos)
    as [Hlt Hstep]; [by rewrite Hdata in Hl|]. fold head in Hlt, Hstep. rewrite <- Hdata in Hlt, Hstep.
  unfold block_steps. cbn [snd Nat.add decodeLoop].
  destruct (Z.ltb_spec (ds_pos st) (blen data)); [|lia]. rewrite Hstep. cbn [mbind outcome_bind].
  set (st1 := mkDS _ _ _ d i).
  assert (ds_current st1 = emptyData) as Hcur.
  { unfold st1; simpl. destruct (captures (ds_pos st) d); [done|by apply Hcap]. }
  assert (data = (pre ++ head) ++ concat (map (tx_bytes forkId) txs) ++ post) as Hd2
    by (by rewrite Hdata, <- app_assoc).
  eexists. split.
  { rewrite Hd2. apply decodeLoop_txs; [done| |by rewrite <- Hd2].
    unfold st1; simpl. rewrite Hpos, blen_app, Hh. done. }
  destruct (foldl_advance forkId txs Hf st1) as (Hp & Hr & Hdl & Hix & Ht & He).
  split.
  - rewrite Hp. change (block_bytes forkId (d, i, txs)) with (head ++ concat (map (tx_bytes forkId) txs)).
    rewrite !blen_app, Hh. unfold st1; simpl. lia.
  - unfold seal at 1. rewrite Hr, Hdl, Hix, Ht, He, Hcur. done.
Qed.

Lemma decodeLoop_blocks forkId bs : ForkID7Etrog <= forkId -> forall pre st k,
  Forall block_ok bs -> ds_pos st = blen pre -> 0 < blen pre ->
  let data := pre ++ concat (map (block_bytes forkId) bs) in
  blen data < 2 ^ 63 ->
  decodeLoop (sum_list_with block_steps bs + k) data forkId st =
    Ok (seal st ++ map decoded_block bs, None).
Proof.
  intros Hf. induction bs as [|b bs IH]; intros pre st k Hbs Hpos H0 data Hl.
  - unfold data. simpl. rewrite !app_nil_r. destruct k; simpl;
      (destruct (Z.ltb_spec (ds_pos st) (blen pre)); [lia|done]).
  - apply Forall_cons in Hbs as [Hb Hbs].
    assert (captures (ds_pos st) (fst (fst b)) = true) as Hc.
    { unfold captures. rewrite Hpos. by rewrite (proj2 (Z.ltb_lt _ _) H0). }
    cbn [sum_list_with]. rewrite <- Nat.add_assoc.
    destruct (decodeLoop_block forkId pre b (concat (map (block_bytes forkId) bs)) st
      (sum_list_with block_steps bs + k) Hf Hb Hpos) as (st' & Heq & Hp' & Hs');
      [by rewrite Hc|exact Hl|].
    rewrite Hc in Hs'. unfold data. cbn [map concat]. rewrite Heq.
    rewrite app_assoc. rewrite IH; [|done|done| |].
    + rewrite Hs', <- app_assoc. done.
    + rewrite blen_app. pose proof (blen_nonneg (block_bytes forkId b)). lia.
    + rewrite <- app_assoc. exact Hl.
Qed.

(** ** Termination and safety of the decoder *)

Lemma slice_ok {A} (l : list A) i j : 0 <= i <= j -> j <= Z.of_nat (length l) ->
  slice l i j = Ok (take (Z.to_nat (j - i)) (drop (Z.to_nat i) l)).
Proof. intros Hi Hj. unfold slice. by rewrite decide_True by lia. Qed.

Lemma rlpLength_ok data pos num : bytes_ok data -> 0 <= pos -> pos < blen data < 2 ^ 63 ->
  192 <= num < 256 ->
  exists r, rlpLength data pos num = Ok r /\
    match r with
    | inl (Return _) => True
    | inl (Continue _) => False
    | inr L => 0 <= L <= 2 ^ 64 - 248
    end.
Proof.
  intros Hb Hp Hl Hn. unfold rlpLength, c0, shortRlp, f7.
  destruct (Z.ltb_spec 55 (num - 192)); [|eexists; split; [done|simpl; lia]].
  rewrite !u64_small by lia.
  destruct (Z.ltb_spec (blen data) (pos + 1 + num - 247)); [by eexists|].
  rewrite slice_ok by (unfold blen in *; lia). cbn [mbind outcome_bind].
  set (h := take _ _). assert (bytes_ok h) as Hok by by apply bytes_ok_take, bytes_ok_drop.
  destruct (ParseUintHex h) as [n|e|] eqn:HP; [|by eexists|].
  - clearbody h. assert (0 <= n < 2 ^ 64) as Hn64.
    { unfold ParseUintHex in HP. destruct h as [|x h]; [done|]. revert HP.
      destruct (Z.ltb_spec (be_decode (x :: h)) (2 ^ 64)); intros; simplify_eq.
      pose proof (be_decode_range _ Hok). lia. }
    destruct (Z.ltb_spec (u64 (n + num)) 247) as [|Hge]; [by eexists|].
    eexists; split; [done|]. simpl.
    destruct (Z_lt_le_dec (n + num) (2 ^ 64)).
    + rewrite u64_small in Hge by lia. rewrite u64_small by lia. lia.
    + assert (u64 (n + num) = n + num - 2 ^ 64) as Hu.
      { unfold u64. symmetry. apply (Z.mod_unique_pos _ _ 1); lia. }
      assert (u64 (n + num - 247) = n + num - 247 - 2 ^ 64) as ->.
      { unfold u64. symmetry. apply (Z.mod_unique_pos _ _ 1); lia. }
      lia.
  - unfold ParseUintHex in HP. destruct h; [done|]. by destruct (_ <? _).
Qed.

(** What a pass of the loop can do: move forward inside the data, return, or
    panic on a block marker cut short. *)
Definition step_ok (data : list Z) (st : DecodeState) (r : outcome stepResult) : Prop :=
  match r with
  | Ok (Continue st') => ds_pos st < ds_pos st' <= blen data
  | Ok (Return _) => True
  | Err _ => False
  | Panic => data !! Z.to_nat (ds_pos st) = Some changeL2BlockTxType /\ blen data < ds_pos st + 9
  end.

Lemma decodeTransaction_step_ok data forkId st L :
  bytes_ok data -> blen data < 2 ^ 63 -> 0 <= ds_pos st < blen data -> 0 <= L <= 2 ^ 64 - 248 ->
  exists r, decodeTransaction data forkId st L = Ok r /\ step_ok data st (Ok r).
Proof.
  intros Hb Hl Hp HL. unfold decodeTransaction.
  unfold rLength, sLength, vLength, headerByteLength, efficiencyPercentageByteLength.
  set (k := if ForkID5Dragonfruit <=? forkId then 1 else 0).
  assert (k = if ForkID5Dragonfruit <=? forkId then 1 else 0) as Hk by done. clearbody k.
  assert (0 <= k <= 1) by (destruct (_ <=? _); lia).
  set (e := u64 _).
  destruct (Z.ltb_spec (blen data) e); [by eexists|].
  destruct (Z.ltb_spec e (ds_pos st)); [by eexists|].
  assert (e = ds_pos st + L + 66 + k) as He.
  { unfold e in *. destruct (Z_lt_le_dec (ds_pos st + L + 32 + 32 + 1 + 1 + k) (2 ^ 64)).
    - rewrite u64_small in * by lia. lia.
    - exfalso. assert (u64 (ds_pos st + L + 32 + 32 + 1 + 1 + k) =
        ds_pos st + L + 32 + 32 + 1 + 1 + k - 2 ^ 64) as Hu.
      { unfold u64. symmetry. apply (Z.mod_unique_pos _ _ 1); lia. }
      lia. }
  clearbody e. rewrite !u64_small by (rewrite ?u64_small; lia).
  unfold blen in *. rewrite !slice_ok by lia. cbn [mbind outcome_bind].
  match goal with
  | |- context [if ForkID5Dragonfruit <=? forkId then ?a else ?b] =>
      assert (exists pcts, (if ForkID5Dragonfruit <=? forkId then a else b) = Ok pcts) as [pcts ->]
  end.
  { destruct (_ <=? _); [|by eexists]. cbn [mbind outcome_bind].
    destruct (take _ _) as [|x q] eqn:Hq; [|by eexists].
    apply (f_equal length) in Hq. rewrite length_take, length_drop in Hq. simpl in Hq. lia. }
  cbn [mbind outcome_bind]. destruct (DecodeBytes _); [by eexists|].
  destruct (rlpFieldsToLegacyTx _ _ _ _) eqn:HR; [|by eexists|].
  - eexists; split; [done|]. simpl. unfold blen. lia.
  - exfalso. revert HR. unfold rlpFieldsToLegacyTx. by repeat case_match.
Qed.

Lemma decodeChange_step_ok data st :
  blen data < 2 ^ 63 -> 0 <= ds_pos st < blen data ->
  data !! Z.to_nat (ds_pos st) = Some changeL2BlockTxType ->
  step_ok data st (decodeChangeL2Block data st).
Proof.
  intros Hl Hp H11. unfold decodeChangeL2Block. rewrite !u64_small by (unfold changeL2BlockLength; lia).
  destruct (Z_lt_le_dec (blen data) (ds_pos st + 9)) as [Hs|Hs].
  - assert (forall (A : Type) (m : outcome A) (f : A -> outcome stepResult),
      (forall e, m <> Err e) -> (forall a, f a = Panic) -> m ≫= f = Panic) as Hbind.
    { intros A [a|e|] f He Hf; simpl; [apply Hf|by destruct (He e)|done]. }
    rewrite Hbind; [by split| |].
    + intros e. destruct (_ <? _); [done|]. unfold index. rewrite decide_True by lia.
      by destruct (data !! Z.to_nat (ds_pos st + 1)).
    + intros a. apply Hbind; [intros e; unfold slice; by case_decide|]. intros b.
      unfold slice at 1. by rewrite decide_False by (unfold blen in *; lia).
  - assert (exists c, (if 0 <? ds_pos st then Ok true
      else b ← index data (ds_pos st + 1); Ok (b =? changeL2BlockTxType)) = Ok c) as [c ->].
    { destruct (_ <? _); [by eexists|]. unfold index. rewrite decide_True by lia.
      destruct (lookup_lt_is_Some_2 data (Z.to_nat (ds_pos st + 1))) as [x ->];
        [unfold blen in *; lia|by eexists]. }
    cbn [mbind outcome_bind]. rewrite !slice_ok by (unfold blen in *; lia).
    simpl. unfold changeL2BlockLength. lia.
Qed.

Lemma decodeStep_ok data forkId st :
  bytes_ok data -> blen data < 2 ^ 63 -> 0 <= ds_pos st < blen data ->
  step_ok data st (decodeStep data forkId st).
Proof.
  intros Hb Hl Hp. unfold decodeStep, index. rewrite decide_True by lia.
  destruct (lookup_lt_is_Some_2 data (Z.to_nat (ds_pos st))) as [num Hnum]; [unfold blen in *; lia|].
  rewrite Hnum. cbn [mbind outcome_bind].
  assert (0 <= num < 256) by (eapply (Forall_lookup_1 byte_ok); eauto).
  destruct (Z.eqb_spec num changeL2BlockTxType) as [->|]; [by apply decodeChange_step_ok|].
  destruct (Z.ltb_spec num c0); [done|].
  destruct (rlpLength_ok data (ds_pos st) num) as ([ [st'|e] |L] & -> & HL);
    [done|lia|lia|unfold c0 in *; lia|done|done|].
  cbn [mbind outcome_bind].
  by destruct (decodeTransaction_step_ok data forkId st L) as (r & -> & Hr).
Qed.

Lemma decodeLoop_progress fuel : forall data forkId st,
  bytes_ok data -> blen data < 2 ^ 63 -> 0 <= ds_pos st <= blen data ->
  blen data - ds_pos st <= Z.of_nat fuel ->
  match decodeLoop fuel data forkId st with
  | Ok _ => True
  | Err _ => False
  | Panic => exists i, data !! i = Some changeL2BlockTxType /\ (length data < i + 9)%nat
  end.
Proof.
  induction fuel as [|fuel IH]; intros data forkId st Hb Hl Hp Hf; cbn [decodeLoop];
    (destruct (Z.ltb_spec (ds_pos st) (blen data)); [|done]); [lia|].
  pose proof (decodeStep_ok data forkId st Hb Hl ltac:(lia)) as Hok.
  destruct (decodeStep data forkId st) as [[st'|e]|e|]; cbn [mbind outcome_bind]; [|done|done|].
  - simpl in Hok. apply IH; done || lia.
  - destruct Hok as [H11 Hs]. exists (Z.to_nat (ds_pos st)). split; [done|]. unfold blen in *. lia.
Qed.

(** The batch data of a list of blocks. *)
Fixpoint generateBlocks (forkId : Z) (bs : list block) : outcome (list Z) :=
  match bs with
  | [] => Ok []
  | (d, i, txs) :: bs =>
      part ← GenerateBlockBatchL2Data forkId d i
               (map (fun tp => (legacy_view (fst tp), snd tp)) txs);
      rest ← generateBlocks forkId bs;
      Ok (part ++ rest)
  end.

Lemma generateBlocks_bytes forkId bs : ForkID7Etrog <= forkId -> Forall block_ok bs ->
  generateBlocks forkId bs = Ok (concat (map (block_bytes forkId) bs)).
Proof.
  intros Hf. induction 1 as [|[[d i] txs] bs (_ & _ & Htxs) Hbs IH]; [done|]. cbn [generateBlocks].
  rewrite GenerateBlock_bytes by done. cbn [mbind outcome_bind]. rewrite IH. done.
Qed.

Lemma tx_bytes_pos forkId tp : (1 <= length (tx_bytes forkId tp))%nat.
Proof.
  destruct tp as [tx pct]. unfold tx_bytes. rewrite !length_app, be_encode_length. lia.
Qed.

Lemma txs_bytes_length forkId txs :
  (length txs <= length (concat (map (tx_bytes forkId) txs)))%nat.
Proof.
  induction txs as [|tp txs IH]; cbn [map concat length]; [lia|].
  rewrite length_app. pose proof (tx_bytes_pos forkId tp). lia.
Qed.

Lemma block_steps_bytes forkId b : (block_steps b <= length (block_bytes forkId b))%nat.
Proof.
  destruct b as [[d i] txs].
  change (block_bytes forkId (d, i, txs))
    with (GenerateStartBlockBatchL2Data d i ++ concat (map (tx_bytes forkId) txs)).
  rewrite length_app. unfold block_steps; cbn [snd].
  assert (length (GenerateStartBlockBatchL2Data d i) = 9%nat) as -> by done.
  pose proof (txs_bytes_length forkId txs). lia.
Qed.

Lemma blocks_steps_bytes forkId bs :
  (sum_list_with block_steps bs <= length (concat (map (block_bytes forkId) bs)))%nat.
Proof.
  induction bs as [|b bs IH]; cbn [sum_list_with map concat length]; [lia|]. rewrite length_app.
  pose proof (block_steps_bytes forkId b). lia.
Qed.

(** C29: batch data round trip.  The data generated for a list of blocks with legacy
    transactions, for a fork from Etrog on, decodes without an error to those blocks: each with its
    time stamp delta, its L1 info tree index, its transactions and their gas
    price percentages.  The one difference: an empty block comes first if the
    first byte of the first time stamp delta is 11, the type of a block marker. *)
Theorem batch_l2_data_round_trip forkId b bs :
  ForkID7Etrog <= forkId -> Forall block_ok (b :: bs) ->
  exists data, generateBlocks forkId (b :: bs) = Ok data /\
    (blen data < 2 ^ 63 ->
     DecodeBatchL2Blocks data forkId =
       Ok ((if fst (fst b) / 2 ^ 24 =? changeL2BlockTxType then [emptyData] else [])
           ++ map decoded_block (b :: bs), None)).
Proof.
  intros Hf Hbs. rewrite generateBlocks_bytes by done.
  eexists; split; [done|]. intros Hl.
  set (data := concat (map (block_bytes forkId) (b :: bs))) in *.
  pose proof (blocks_steps_bytes forkId (b :: bs)) as Hsteps. fold data in Hsteps.
  apply Forall_cons in Hbs as [Hb Hbs].
  unfold DecodeBatchL2Blocks.
  assert (exists x l, data = x :: l) as (x & l & Hx) by (destruct b as [[d i] txs]; by eexists _, _).
  assert (forall A (y z : A), match data with [] => y | _ => z end = z) as -> by (by rewrite Hx).
  cbn [sum_list_with] in Hsteps.
  destruct (Nat.le_exists_sub _ _ Hsteps) as (k & Hk & _). rewrite Hk, Nat.add_comm, <- Nat.add_assoc.
  destruct (decodeLoop_block forkId [] b (concat (map (block_bytes forkId) bs)) (mkDS 0 [] emptyData 0 0)
    (sum_list_with block_steps bs + k) Hf Hb eq_refl (fun _ => eq_refl) Hl) as (st' & Heq & Hp & Hs).
  rewrite app_nil_l in Heq, Hp. unfold data. cbn [map concat]. rewrite Heq.
  rewrite (decodeLoop_blocks forkId bs Hf (block_bytes forkId b)); [|done|done| |done].
  - rewrite Hs, <- app_assoc. cbn [ds_pos]. unfold captures. cbn [Z.ltb Z.compare orb].
    by destruct (_ =? _).
  - destruct b as [[d i] txs]. by unfold blen.
Qed.

Definition example_tx : LegacyTx :=
  mkLegacyTx 3 1000 21000 (Some 0x1234) 5 [1; 2; 3] 1101 2238 77 88.

Lemma example_blocks_ok : Forall block_ok [(5, 1, [(example_tx, 255)]); (2, 0, [])].
Proof.
  apply Forall_cons; split; [|apply Forall_singleton].
  - split; [lia|split; [lia|]]. apply Forall_singleton.
    unfold tx_ok, example_tx; cbn [fst Nonce GasPrice Gas To Value Data ChainID V R S_].
    split_and!; try lia; [intros ? [= <-]; lia|].
    repeat (apply Forall_cons; split; [unfold byte_ok; lia|]). apply Forall_nil. done.
  - split; [lia|split; [lia|]]. by apply Forall_nil.
Qed.

Lemma batch_l2_data_round_trip_witness :
  exists data, generateBlocks 9 [(5, 1, [(example_tx, 255)]); (2, 0, [])] = Ok data /\
    DecodeBatchL2Blocks data 9 =
      Ok ([mkDecoded [example_tx] [255] 5 1; mkDecoded [] [] 2 0], None).
Proof.
  destruct (batch_l2_data_round_trip 9 (5, 1, [(example_tx, 255)]) [(2, 0, [])]) as (data & Hg & Hd).
  - unfold ForkID7Etrog; lia.
  - apply example_blocks_ok.
  - exists data. split; [exact Hg|]. apply Hd. vm_compute in Hg. injection Hg as <-. reflexivity.
Defined.

(** C32: the decoder is safe.  It ends on every input, and panics only on a block
    marker within the last eight bytes, whose fields are cut off. *)
Theorem DecodeBatchL2Blocks_safe data forkId :
  bytes_ok data -> blen data < 2 ^ 63 ->
  match DecodeBatchL2Blocks data forkId with
  | Ok _ => True
  | Err _ => False
  | Panic => exists i, data !! i = Some changeL2BlockTxType /\ (length data < i + 9)%nat
  end.
Proof.
  intros Hb Hl. unfold DecodeBatchL2Blocks. destruct data as [|x l] eqn:E; [done|]. rewrite <- E in *.
  apply decodeLoop_progress; [done|done|pose proof (blen_nonneg data); simpl; lia|].
  simpl. unfold blen. lia.
Qed.

Lemma DecodeBatchL2Blocks_safe_witness :
  DecodeBatchL2Blocks [11; 0; 0] 9 = Panic /\
  exists i, [11; 0; 0] !! i = Some changeL2BlockTxType /\ (length [11; 0; 0] < i + 9)%nat.
Proof.
  split; [reflexivity|].
  apply (DecodeBatchL2Blocks_safe [11; 0; 0] 9); [|done].
  repeat (apply Forall_cons; split; [unfold byte_ok; lia|]). by apply Forall_nil.
Defined.

(** Silent truncation.  Where the data ends inside the length bytes of a long
    transaction, the decoder returns without an error, and the transactions read
    since the last block marker are dropped: here all of them. *)
Theorem truncated_header_is_silent forkId txs num post :
  Forall (fun tp => tx_ok (fst tp)) txs -> 248 <= num < 256 -> blen post < num - 247 ->
  let data := concat (map (tx_bytes forkId) txs) ++ num :: post in
  blen data < 2 ^ 63 -> DecodeBatchL2Blocks data forkId = Ok ([], None).
Proof.
  intros Htxs Hnum Hpost data Hl. set (pre := concat (map (tx_bytes forkId) txs)) in *.
  pose proof (txs_bytes_length forkId txs) as Hlen. fold pre in Hlen.
  assert (blen data = blen pre + (1 + blen post)) as Hdl.
  { unfold data. rewrite blen_app. unfold blen; simpl. lia. }
  pose proof (blen_nonneg pre). pose proof (blen_nonneg post).
  unfold DecodeBatchL2Blocks.
  assert (forall A (y z : A), match data with [] => y | _ => z end = z) as ->
    by (intros; unfold data; by destruct pre).
  assert (exists k, length data = (length txs + S k)%nat) as [k ->].
  { exists (length data - length txs - 1)%nat. unfold blen in Hdl. lia. }
  set (st0 := mkDS 0 [] emptyData 0 0). set (st' := foldl (fun st tp => advance_tx forkId tp st) st0 txs).
  assert (decodeLoop (length txs + S k) data forkId st0 = decodeLoop (S k) data forkId st') as ->.
  { apply (decodeLoop_txs forkId txs [] (num :: post)); done. }
  assert (ds_pos st' = blen pre /\ ds_result st' = []) as [Hp Hr].
  { apply (foldl_advance_pos forkId txs st0). }
  cbn [decodeLoop]. rewrite Hp. destruct (Z.ltb_spec (blen pre) (blen data)); [|lia].
  assert (decodeStep data forkId st' = Ok (Return None)) as ->; [|cbn [mbind outcome_bind]; by rewrite Hr].
  unfold decodeStep. rewrite Hp, (index_at data pre post num) by done. cbn [mbind outcome_bind].
  unfold changeL2BlockTxType, c0. destruct (Z.eqb_spec num 11); [lia|].
  destruct (Z.ltb_spec num 192); [lia|]. unfold rlpLength, c0, shortRlp, f7.
  destruct (Z.ltb_spec 55 (num - 192)); [|lia]. rewrite !u64_small by lia.
  destruct (Z.ltb_spec (blen data) (blen pre + 1 + num - 247)); [done|lia].
Qed.

Lemma truncated_header_is_silent_witness :
  exists data, TransactionToL2Data (legacy_view example_tx) 9 255 = Ok data /\
    DecodeBatchL2Blocks (data ++ [0xF9; 1]) 9 = Ok ([], None).
Proof.
  pose proof (Forall_cons_1 _ _ _ example_blocks_ok) as [(_ & _ & Htxs) _].
  exists (tx_bytes 9 (example_tx, 255)). split; [reflexivity|].
  pose proof (truncated_header_is_silent 9 [(example_tx, 255)] 0xF9 [1] Htxs) as H.
  cbn [map concat] in H. rewrite app_nil_r in H. apply H; [lia|reflexivity|reflexivity].
Defined.
