(* ===== verification/TxCounters.v ===== *)
(** * Counters of one transaction (core/vm/zk_transaction_counters.go)

    A transaction has three collectors: one for decoding its RLP, one that the
    opcode handlers write to during execution, one for the processing around it.
    The execution collector is the one [CounterTheory] is about; the other two
    are computed here. *)
From Stdlib Require Import Ascii.
From S2P Require Import Prelude Float64 Bytes CounterBase CounterLimits ModExpCounters.
From S2P Require Import CounterOps CounterTheory Rlp L2Tx Hex.

(** ** The transaction counter *)

Record TransactionCounter := mkTC {
  tc_transaction : Transaction;
  rlpCounters : CounterCollector;
  executionCounters : CounterCollector;
  processingCounters : CounterCollector;
  tc_smtLevels : Z;
  tc_forkId : Z;
  l2DataCache : option (list Z);
}.

Definition NewTransactionCounter (tx : Transaction) (smtMaxLevel fork : Z) (mcpReduction : f64)
    (shouldCountersBeUnlimited : bool) : TransactionCounter :=
  let totalLevel := calculateSmtLevels smtMaxLevel 32 mcpReduction in
  if shouldCountersBeUnlimited then
    mkTC tx NewUnlimitedCounterCollector (SetTransaction tx NewUnlimitedCounterCollector)
      NewUnlimitedCounterCollector 1 fork None
  else
    mkTC tx (NewCounterCollector totalLevel fork) (SetTransaction tx (NewCounterCollector totalLevel fork))
      (NewCounterCollector totalLevel fork) totalLevel fork None.

(** [CombineCountersInto]: the entries of [combined] may be nil. *)
Definition combineAt (tc : TransactionCounter) (combined : list (option Counter)) (k : nat)
    : outcome (list (option Counter)) :=
  r ← index (counters (rlpCounters tc)) (Z.of_nat k);
  e ← index (counters (executionCounters tc)) (Z.of_nat k);
  p ← index (counters (processingCounters tc)) (Z.of_nat k);
  old ← index combined (Z.of_nat k);
  let c := match old with Some c => c | None => mkCounter 0 0 "" 0 end in
  store combined k (Some (set_used (i64 (i64 (used r + used e) + used p)) c)).

Definition CombineCountersInto (tc : TransactionCounter) (combined : list (option Counter))
    : outcome (list (option Counter)) :=
  foldl (fun acc k => c ← acc; combineAt tc c k) (Ok combined)
    (seq 0 (length (counters (rlpCounters tc)))).

(** [NewCounters]: eight nil pointers. *)
Definition NewCounters : list (option Counter) := replicate CounterTypesCount None.

Definition CombineCounters (tc : TransactionCounter) : outcome (list (option Counter)) :=
  CombineCountersInto tc NewCounters.

(** The clone leaves [forkId] at zero. *)
Definition TransactionCounter_Clone (tc : TransactionCounter) : outcome TransactionCounter :=
  r ← Collector_Clone (rlpCounters tc);
  e ← Collector_Clone (executionCounters tc);
  p ← Collector_Clone (processingCounters tc);
  Ok (mkTC (tc_transaction tc) r e p (tc_smtLevels tc) 0 (l2DataCache tc)).

Definition GetL2DataCache (tc : TransactionCounter) : outcome (list Z * TransactionCounter) :=
  match l2DataCache tc with
  | Some d => Ok (d, tc)
  | None =>
      data ← TransactionToL2Data (tc_transaction tc) 8 MaxEffectivePercentage;
      Ok (data, mkTC (tc_transaction tc) (rlpCounters tc) (executionCounters tc)
                  (processingCounters tc) (tc_smtLevels tc) (tc_forkId tc) (Some data))
  end.

(** The length in bytes of a number written in hex. *)
Definition hexByteLength (s : string) : Z :=
  Z.quot (slen (AddLeadingZeroToHexValueForByteCompletion s)) 2.

Definition rlpOp (tx : Transaction) (txRlpLength : Z) : Op :=
  let txDataLen := Z.of_nat (length (GetData tx)) in
  let gasLimitLength := hexByteLength (FormatHex (GetGas tx)) in
  let gasPriceLength := hexByteLength (Remove0xPrefixIfExists (Hex (GetPrice tx))) in
  let valueLength := hexByteLength (Remove0xPrefixIfExists (Hex (GetValue tx))) in
  let chainIdLength := hexByteLength (Remove0xPrefixIfExists (Hex (GetChainID tx))) in
  let nonceLength := hexByteLength (FormatHex (GetNonce tx)) in
  Deduct kS 250 ;; Deduct kB (1 + 1) ;;
  Deduct kK (ceil_div_f (txRlpLength + 1) 136) ;;
  Deduct kP (ceil_div_add_f (txRlpLength + 1) 56 3) ;;
  Deduct kD (ceil_div_add_f (txRlpLength + 1) 56 3) ;;
  multiCall addBatchHashData 21 ;;
  Deduct kS (6 * 7) ;;
  getLenBytes 3 ;; getLenBytes gasPriceLength ;; getLenBytes gasLimitLength ;;
  getLenBytes valueLength ;;
  (if 56 <=? txDataLen then getLenBytes txDataLen else skipOp) ;;
  getLenBytes chainIdLength ;; getLenBytes nonceLength ;;
  divArith ;;
  multiCall addHashTx (9 + Z.shiftr txDataLen 5) ;;
  multiCall addL2HashTx (8 + Z.shiftr txDataLen 5) ;;
  multiCall addBatchHashByteByByte txDataLen ;;
  SHLarith ;;
  ecRecover (GetDecodedV tx (RawV tx)) (RawR tx) (RawS tx) false.

Definition CalculateRlp (tc : TransactionCounter) : outcome TransactionCounter :=
  dt ← GetL2DataCache tc;
  let '(raw, tc) := dt : list Z * TransactionCounter in
  let collector := rlpOp (tc_transaction tc) (Z.of_nat (length raw))
                     (NewCounterCollector (tc_smtLevels tc) (tc_forkId tc)) in
  Ok (mkTC (tc_transaction tc) collector (executionCounters tc) (processingCounters tc)
        (tc_smtLevels tc) (tc_forkId tc) (l2DataCache tc)).

Definition processOp (levels fork byteCodeLength : Z) (deploy : bool) : Op :=
  Deduct kS 300 ;;
  Deduct kB (if ForkId13Durian <=? fork then 12 + 7 else 11 + 7) ;;
  Deduct kP (14 * levels) ;; Deduct kD 5 ;; Deduct kA 2 ;; Deduct kK 1 ;;
  multiCall isColdAddress 2 ;; multiCall addArith 3 ;; subArith ;; divArith ;;
  multiCall mulArith 4 ;; fillBlockInfoTreeWithTxReceipt ;;
  processContractCall levels byteCodeLength deploy false false.

(** [getCodeSize] is the state's: the size of the code at an address. *)
Definition ProcessTx (getCodeSize : Z -> Z) (returnData : list Z) (tc : TransactionCounter)
    : TransactionCounter :=
  let '(byteCodeLength, deploy) :=
    match GetTo (tc_transaction tc) with
    | None => (Z.of_nat (length returnData), true)
    | Some a => (getCodeSize a, false)
    end in
  let cc := processOp (tc_smtLevels tc) (tc_forkId tc) byteCodeLength deploy
              (NewCounterCollector (tc_smtLevels tc) (tc_forkId tc)) in
  mkTC (tc_transaction tc) (rlpCounters tc) (executionCounters tc) cc
    (tc_smtLevels tc) (tc_forkId tc) (l2DataCache tc).

(** ** Hex lengths *)

Lemma hexByteLength_eq z : 0 <= z -> hexByteLength (FormatHex z) = Z.max 1 (byte_length z).
Proof.
  intros Hz. unfold hexByteLength, AddLeadingZeroToHexValueForByteCompletion, slen, FormatHex, byte_length.
  rewrite hexDigits_length. destruct (Z.eqb_spec z 0) as [->|Hne]; [done|].
  destruct (Z.leb_spec z 0); [lia|]. pose proof (Z.log2_nonneg z).
  set (l := Z.log2 z) in *. clearbody l.
  assert (0 <= l / 4) by (apply Z.div_pos; lia).
  assert (l / 8 = l / 4 / 2) as -> by (rewrite Z.div_div by lia; done).
  set (q := l / 4) in *. clearbody q. pose proof (Z.div_pos q 2 ltac:(lia) ltac:(lia)).
  rewrite Z.max_r by lia.
  destruct (Nat.odd (Z.to_nat (q + 1))) eqn:Ho; simpl String.length; rewrite ?hexDigits_length;
    rewrite Z.quot_div_nonneg by lia.
  - apply Nat.odd_spec in Ho as [m Hm].
    assert (q = 2 * Z.of_nat m) as -> by lia. rewrite Nat2Z.inj_succ, Z2Nat.id by lia.
    rewrite (Z.mul_comm 2), Z.div_mul by lia.
    symmetry. apply (Z.div_unique _ _ _ 0); lia.
  - pose proof (Nat.orb_even_odd (Z.to_nat (q + 1))) as He. rewrite Ho, orb_false_r in He.
    apply Nat.even_spec in He as [m Hm].
    assert (q = 2 * (Z.of_nat m - 1) + 1) as Hq by lia. rewrite Z2Nat.id by lia.
    rewrite <- (Z.div_unique q 2 (Z.of_nat m - 1) 1) by lia.
    symmetry. apply (Z.div_unique _ _ _ 0); lia.
Qed.

Lemma Remove0x_Hex z : Remove0xPrefixIfExists (Hex z) = FormatHex z.
Proof. done. Qed.

(** ** Bounds *)

Lemma byte_length_bound z k : 0 <= z < 256 ^ k -> 0 <= k -> byte_length z <= k.
Proof.
  intros Hz Hk. unfold byte_length. destruct (Z.leb_spec z 0); [lia|].
  assert (Z.log2 z < 8 * k).
  { apply Z.log2_lt_pow2; [lia|]. rewrite Z.pow_mul_r by lia. change (2 ^ 8) with 256. lia. }
  assert (Z.log2 z / 8 < k) by (apply Z.div_lt_upper_bound; lia). lia.
Qed.

Lemma hexByteLength_bounds z k : 0 <= z < 256 ^ k -> 1 <= k ->
  1 <= hexByteLength (FormatHex z) <= k.
Proof.
  intros Hz Hk. rewrite hexByteLength_eq by lia. pose proof (byte_length_bound z k Hz ltac:(lia)). lia.
Qed.

Lemma spends_ecRecover v r s p : Spends (ecRecover v r s p) 7400.
Proof.
  unfold ecRecover. cbv zeta. destruct (_ || _ || _ || _ || _).
  - eapply spends_le; [spend_all|]; lia.
  - destruct (_ <? fpec); (eapply spends_le; [spend_all|]; lia).
Qed.

(** The fields are in the ranges of their Go types, the data below 2^40 bytes. *)
Definition tx_sizes_ok (tx : Transaction) : Prop :=
  0 <= GetNonce tx < 2 ^ 64 /\ 0 <= GetPrice tx < 2 ^ 256 /\ 0 <= GetGas tx < 2 ^ 64 /\
  0 <= GetValue tx < 2 ^ 256 /\ 0 <= GetChainID tx < 2 ^ 256 /\ 0 <= RawV tx < 2 ^ 256 /\
  Z.of_nat (length (GetData tx)) < 2 ^ 40.

Lemma spends_getLenBytes n : 0 <= n -> Spends (getLenBytes n) (n * 100 + 12).
Proof. intros Hn. eapply spends_le; [spend_all|]; lia. Qed.

(** [spend_step], stopping at the operations bounded above. *)
Ltac tx_spend_step :=
  lazymatch goal with
  | |- Spends (ecRecover _ _ _ _) _ => apply spends_ecRecover
  | |- Spends (getLenBytes _) _ => apply spends_getLenBytes
  | |- Spends (processContractCall _ _ _ _ _) _ => eassumption
  | |- Spends _ _ => spend_step
  end.

Lemma spends_rlpOp tx m : tx_sizes_ok tx -> 0 <= m < 2 ^ 50 ->
  Spends (rlpOp tx m) (2 ^ 11 * Z.of_nat (length (GetData tx)) + 3 * m + 2 ^ 17).
Proof.
  intros (Hn & Hp & Hg & Hv & Hc & _ & Hd) Hm. unfold rlpOp. rewrite !Remove0x_Hex.
  pose proof (hexByteLength_bounds (GetGas tx) 8 Hg ltac:(lia)).
  pose proof (hexByteLength_bounds (GetPrice tx) 32 Hp ltac:(lia)).
  pose proof (hexByteLength_bounds (GetValue tx) 32 Hv ltac:(lia)).
  pose proof (hexByteLength_bounds (GetChainID tx) 32 Hc ltac:(lia)).
  pose proof (hexByteLength_bounds (GetNonce tx) 8 Hn ltac:(lia)).
  set (D := Z.of_nat (length (GetData tx))) in *. assert (0 <= D) by (unfold D; lia). clearbody D.
  pose proof (shiftr5_bounds D ltac:(lia)).
  pose proof (ceil_div_f_bounds (m + 1) 136 ltac:(lia) ltac:(lia)).
  pose proof (cdiv_bounds (m + 1) 56 ltac:(lia) ltac:(lia)).
  rewrite !ceil_div_add_f_spec by lia.
  eapply spends_le.
  { repeat (tx_spend_step; [..]); try lia. }
  lia.
Qed.

Lemma spends_processOp levels fork len deploy M :
  0 <= levels <= 2 ^ 10 -> 0 <= len <= M -> M < 2 ^ 40 ->
  Spends (processOp levels fork len deploy) (2 ^ 11 * M + 2 ^ 17).
Proof.
  intros Hl Hn HM. unfold processOp.
  pose proof (processContractCall_spends levels len deploy false false M Hl Hn HM).
  eapply spends_le.
  { repeat (tx_spend_step; [..]);
    try (destruct (_ <=? _); lia); try (unfold MCPL; lia). }
  destruct (ForkId13Durian <=? fork); unfold MCPL; lia.
Qed.

(** ** The encoded length *)

Lemma encodeString_length f : blen f < 2 ^ 64 -> blen (encodeString f) <= blen f + 9.
Proof.
  intros Hl. pose proof (blen_nonneg f).
  destruct (encodeString_cases f) as [(x & -> & _ & ->)|[_ ->]]; [unfold blen; simpl; lia|].
  rewrite blen_app. pose proof (puthead_length 128 183 (blen f) ltac:(lia)). lia.
Qed.

Lemma removeLeadingZeroes_length l : blen (removeLeadingZeroesFromBytes l) <= blen l.
Proof.
  induction l as [|x l IH]; [done|]. cbn [removeLeadingZeroesFromBytes].
  destruct x; unfold blen in *; simpl in *; lia.
Qed.

Lemma big_bytes_length z k : 0 <= z < 256 ^ k -> 0 <= k -> blen (big_bytes z) <= k.
Proof.
  intros Hz Hk. unfold blen, big_bytes. rewrite be_encode_length.
  pose proof (byte_length_bound z k Hz Hk). pose proof (byte_length_nonneg z). lia.
Qed.

Lemma payload_length fs n : Forall (fun f => blen f < 2 ^ 64) fs ->
  foldr (fun f acc => blen f + 9 + acc) 0 fs <= n -> blen (payload fs) <= n.
Proof.
  intros Hfs Hn. etrans; [|exact Hn]. clear Hn. unfold payload.
  induction Hfs as [|f fs Hf Hfs IH]; [done|]. cbn [map concat foldr]. rewrite blen_app.
  pose proof (encodeString_length f Hf). lia.
Qed.

Lemma GetDecodedV_range tx v : 0 <= v < 2 ^ 256 -> 0 <= GetDecodedV tx v < 2 ^ 256.
Proof. intros Hv. unfold GetDecodedV. destruct (negb _); [done|]. apply Z.mod_pos_bound. lia. Qed.

Lemma TransactionToL2Data_length tx forkId pct : tx_sizes_ok tx ->
  exists d, TransactionToL2Data tx forkId pct = Ok d /\
    blen d <= Z.of_nat (length (GetData tx)) + 500.
Proof.
  intros (Hn & Hp & Hg & Hv & Hc & HV & Hd). rewrite TransactionToL2Data_eq. eexists; split; [done|].
  assert (blen (removeLeadingZeroesFromBytes (Uint64ToBytes (GetNonce tx))) <= 8) as H1
    by (etrans; [apply removeLeadingZeroes_length|done]).
  assert (blen (removeLeadingZeroesFromBytes (Uint64ToBytes (GetGas tx))) <= 8) as H2
    by (etrans; [apply removeLeadingZeroes_length|done]).
  assert (forall z, 0 <= z < 2 ^ 256 -> blen (removeLeadingZeroesFromBytes (big_bytes z)) <= 32) as Hbig.
  { intros z Hz. etrans; [apply removeLeadingZeroes_length|]. apply big_bytes_length; [exact Hz|lia]. }
  pose proof (Hbig _ Hp) as H3. pose proof (Hbig _ Hv) as H4. pose proof (Hbig _ Hc) as H5.
  assert (blen (match GetTo tx with Some a => be_encode 20 a | None => [] end) <= 20) as H6.
  { destruct (GetTo tx); [unfold blen; by rewrite be_encode_length|done]. }
  change (Z.of_nat (length (GetData tx))) with (blen (GetData tx)) in *.
  pose proof (blen_nonneg (GetData tx)).
  assert (blen (payload (toEncode tx)) <= blen (GetData tx) + 250) as Hpay.
  { unfold toEncode. apply payload_length.
    - apply Forall_app; split; [|destruct (_ || _)]; repeat (apply Forall_cons; split; [lia || done|]);
        by apply Forall_nil.
    - destruct (_ || _); cbn [app foldr]; change (blen []) with 0; lia. }
  pose proof (blen_nonneg (payload (toEncode tx))).
  pose proof (puthead_length 192 247 (blen (payload (toEncode tx))) ltac:(lia)).
  pose proof (big_bytes_length _ 32 (GetDecodedV_range tx _ HV) ltac:(lia)).
  rewrite !blen_app.
  assert (forall z, blen (be_encode 32 z) = 32) as Hb32 by (intros; unfold blen; by rewrite be_encode_length).
  rewrite !Hb32. assert (blen (if ForkID5Dragonfruit <=? forkId then [pct] else []) <= 1)
    by (by destruct (_ <=? _)).
  lia.
Qed.

(** ** What the two computed collectors hold *)

(** A transaction counter in use: sizes in range, and the cached L2 data, if
    any, the data of its transaction. *)
Definition tc_ok (tc : TransactionCounter) : Prop :=
  tx_sizes_ok (tc_transaction tc) /\ 0 <= tc_smtLevels tc <= 2 ^ 10 /\
  forall d, l2DataCache tc = Some d ->
    TransactionToL2Data (tc_transaction tc) 8 MaxEffectivePercentage = Ok d.

Lemma GetL2DataCache_ok tc : tc_ok tc ->
  exists d, GetL2DataCache tc = Ok (d, mkTC (tc_transaction tc) (rlpCounters tc)
      (executionCounters tc) (processingCounters tc) (tc_smtLevels tc) (tc_forkId tc) (Some d)) /\
    TransactionToL2Data (tc_transaction tc) 8 MaxEffectivePercentage = Ok d /\
    blen d <= Z.of_nat (length (GetData (tc_transaction tc))) + 500.
Proof.
  intros (Hs & _ & Hc). destruct (TransactionToL2Data_length _ 8 MaxEffectivePercentage Hs) as (d & Hd & Hl).
  exists d. split; [|done]. unfold GetL2DataCache. destruct (l2DataCache tc) as [d'|] eqn:E.
  - specialize (Hc d' eq_refl). rewrite Hd in Hc. simplify_eq. destruct tc; simpl in *. by subst.
  - rewrite Hd. done.
Qed.

(** An operation run on a fresh collector. *)
Lemma fresh_steps f n levels fork : Spends f n -> 0 <= levels <= 2 ^ 10 -> n < 2 ^ 62 ->
  wf (f (NewCounterCollector levels fork)) /\
  Forall2 (counter_step n) (counters (NewCounterCollector levels fork))
    (counters (f (NewCounterCollector levels fork))).
Proof.
  intros [Hn Hf] Hl Hb. pose proof (NewCounterCollector_wf levels fork) as Hwf.
  destruct (Hf (NewCounterCollector levels fork) Hwf Hl) as (w & Hs & Hw).
  split; [by eapply spent_wf|]. eapply spent_exact; [done|by apply fresh_headroom|done|done].
Qed.

Lemma CalculateRlp_ok tc : tc_ok tc ->
  exists tc', CalculateRlp tc = Ok tc' /\ tc_ok tc' /\ wf (rlpCounters tc') /\
    tc_transaction tc' = tc_transaction tc /\ tc_smtLevels tc' = tc_smtLevels tc /\
    tc_forkId tc' = tc_forkId tc /\ executionCounters tc' = executionCounters tc /\
    processingCounters tc' = processingCounters tc /\
    Forall2 (counter_step (2 ^ 12 * Z.of_nat (length (GetData (tc_transaction tc))) + 2 ^ 18))
      (counters (NewCounterCollector (tc_smtLevels tc) (tc_forkId tc))) (counters (rlpCounters tc')).
Proof.
  intros Hok. destruct (GetL2DataCache_ok tc Hok) as (d & Hg & Hd & Hl).
  destruct Hok as (Hs & Hlv & Hc). unfold CalculateRlp. rewrite Hg. cbn [mbind outcome_bind].
  eexists; split; [done|]. cbn [tc_transaction tc_smtLevels tc_forkId rlpCounters executionCounters
    processingCounters l2DataCache].
  assert (Z.of_nat (length (GetData (tc_transaction tc))) < 2 ^ 40) by apply Hs.
  change (Z.of_nat (length d)) with (blen d). pose proof (blen_nonneg d).
  set (D := Z.of_nat (length (GetData (tc_transaction tc)))) in *.
  assert (Spends (rlpOp (tc_transaction tc) (blen d)) (2 ^ 12 * D + 2 ^ 18)) as Hsp.
  { eapply spends_le; [apply spends_rlpOp; [done|lia]|]. fold D. lia. }
  destruct (fresh_steps _ _ (tc_smtLevels tc) (tc_forkId tc) Hsp Hlv ltac:(lia)) as [Hwf H2].
  split; [split; [done|split; [done|by intros ? [= <-]]]|]. by split_and!.
Qed.

(** C31: the computed counters of a transaction.  For a transaction with fields in
    the ranges of their types, [CalculateRlp] succeeds and [ProcessTx] is total;
    the collectors they leave start from the limits of the fork and have, for
    each counter, an amount taken that is bounded linearly in the size of the
    transaction data or of the code, with [remaining + used] still the limit; the
    execution collector is left alone. *)
Theorem tx_counters_conserve tc getCodeSize returnData M :
  tc_ok tc -> (forall a, 0 <= getCodeSize a <= M) ->
  Z.of_nat (length returnData) <= M -> M < 2 ^ 40 ->
  exists tc1, CalculateRlp tc = Ok tc1 /\
    let tc2 := ProcessTx getCodeSize returnData tc1 in
    let limits := counters (NewCounterCollector (tc_smtLevels tc) (tc_forkId tc)) in
    Forall2 (counter_step (2 ^ 12 * Z.of_nat (length (GetData (tc_transaction tc))) + 2 ^ 18))
      limits (counters (rlpCounters tc2)) /\
    Forall2 (counter_step (2 ^ 11 * M + 2 ^ 17)) limits (counters (processingCounters tc2)) /\
    executionCounters tc2 = executionCounters tc.
Proof.
  intros Hok Hcode Hret HM. pose proof Hok as (_ & Hlv & _).
  destruct (CalculateRlp_ok tc Hok) as (tc1 & -> & (_ & Hl1 & _) & _ & Ht & Hl & Hf & He & _ & Hr).
  eexists; split; [done|]. cbv zeta. unfold ProcessTx. rewrite Ht, Hl, Hf.
  destruct (GetTo (tc_transaction tc)) as [a|]; cbn [rlpCounters processingCounters executionCounters];
    (split; [done|split; [|done]]).
  - specialize (Hcode a). apply fresh_steps; [by apply spends_processOp|lia|lia].
  - specialize (Hcode 0). apply fresh_steps; [apply spends_processOp; lia|lia|lia].
Qed.

Definition example_tc : TransactionCounter :=
  NewTransactionCounter (legacy_view example_tx) 80 13 (of_int 1) false.

Lemma example_tc_ok : tc_ok example_tc.
Proof.
  split; [|split].
  - unfold tx_sizes_ok. vm_compute. intuition discriminate.
  - change (tc_smtLevels example_tc) with (calculateSmtLevels 80 32 (of_int 1)). vm_compute.
    split; discriminate.
  - intros d Hd. discriminate Hd.
Qed.

Lemma tx_counters_conserve_witness :
  exists tc1, CalculateRlp example_tc = Ok tc1 /\
    Forall2 (counter_step (2 ^ 11 * 100 + 2 ^ 17))
      (counters (NewCounterCollector (tc_smtLevels example_tc) (tc_forkId example_tc)))
      (counters (processingCounters (ProcessTx (fun _ => 100) [] tc1))).
Proof.
  destruct (tx_counters_conserve example_tc (fun _ => 100) [] 100) as (tc1 & H1 & _ & H2 & _).
  - exact example_tc_ok.
  - intros _. lia.
  - simpl. lia.
  - lia.
  - exists tc1. split; [exact H1|exact H2].
Defined.
