(* ===== verification/BatchCounters.v ===== *)
(** * Counters of a batch (core/vm/zk_batch_counters.go)

    The collector of a batch keeps pointers to the counters of its transactions
    and three running sums over them.  The transaction counters live in a heap
    and change after they were added, when the transaction executes, so the sums
    are a cache that the caller has to keep up to date; [BatchTheory] says when
    it is. *)
From S2P Require Import Prelude Float64 Bytes CounterBase CounterLimits ModExpCounters.
From S2P Require Import CounterOps CounterTheory L2Tx TxCounters.

Record BatchCounterCollector := mkBatch {
  l2DataCollector : option CounterCollector;
  transactions : list nat;
  b_smtLevels : Z;
  smtLevelsForTransaction : Z;
  blockCount : Z;
  b_forkId : Z;
  b_unlimited : bool;
  addonCounters : option Counters;
  rlpCombined : Counters;
  executionCombined : Counters;
  processingCombined : Counters;
}.

(** The transaction counters by address, and the batch that points to them. *)
Record World := mkWorld {
  heap : gmap nat TransactionCounter;
  batch : BatchCounterCollector;
}.

Definition set_l2DataCollector x b := mkBatch x (transactions b) (b_smtLevels b)
  (smtLevelsForTransaction b) (blockCount b) (b_forkId b) (b_unlimited b) (addonCounters b)
  (rlpCombined b) (executionCombined b) (processingCombined b).
Definition set_transactions x b := mkBatch (l2DataCollector b) x (b_smtLevels b)
  (smtLevelsForTransaction b) (blockCount b) (b_forkId b) (b_unlimited b) (addonCounters b)
  (rlpCombined b) (executionCombined b) (processingCombined b).
Definition set_blockCount x b := mkBatch (l2DataCollector b) (transactions b) (b_smtLevels b)
  (smtLevelsForTransaction b) x (b_forkId b) (b_unlimited b) (addonCounters b)
  (rlpCombined b) (executionCombined b) (processingCombined b).
Definition set_caches r e p b := mkBatch (l2DataCollector b) (transactions b) (b_smtLevels b)
  (smtLevelsForTransaction b) (blockCount b) (b_forkId b) (b_unlimited b) (addonCounters b) r e p.

Definition deref (h : gmap nat TransactionCounter) (a : nat) : outcome TransactionCounter :=
  match h !! a with Some tc => Ok tc | None => Panic end.

(** ** Adding counters up

    [for k, v := range src { dst[k].op(v.used) }] *)
Fixpoint rangeInto (op : Z -> Counter -> Counter) (src dst : Counters) : outcome Counters :=
  match src, dst with
  | [], _ => Ok dst
  | _ :: _, [] => Panic
  | v :: src, c :: dst => rest ← rangeInto op src dst; Ok (op (used v) c :: rest)
  end.

(** [dst[k].used += v.used], [-=], and with [dst[k].remaining -= v.used]. *)
Definition plus_used (n : Z) (c : Counter) : Counter := set_used (i64 (used c + n)) c.
Definition minus_used (n : Z) (c : Counter) : Counter := set_used (i64 (used c - n)) c.
Definition assign_used (n : Z) (c : Counter) : Counter :=
  mkCounter (i64 (remaining c - n)) n (name c) (initialAmount c).

Definition addInto (src dst : Counters) : outcome Counters := rangeInto deduct_counter src dst.

Definition NewBatchCounters (unlimited : bool) (fork : Z) : Counters :=
  if unlimited then createCountrsByLimits unlimitedCounters else getCounterLimits fork.

Definition NewBatchCounterCollector (smtMaxLevel fork : Z) (mcpReduction : f64)
    (unlimited : bool) (addon : option Counters) : BatchCounterCollector :=
  mkBatch None [] (calculateSmtLevels smtMaxLevel 0 mcpReduction)
    (calculateSmtLevels smtMaxLevel 32 mcpReduction) 0 fork unlimited addon
    (NewBatchCounters unlimited fork) (NewBatchCounters unlimited fork)
    (NewBatchCounters unlimited fork).

(** ** The caches *)

Definition UpdateRlpCountersCache (tc : TransactionCounter) (b : BatchCounterCollector)
    : outcome BatchCounterCollector :=
  r ← rangeInto plus_used (counters (rlpCounters tc)) (rlpCombined b);
  Ok (set_caches r (executionCombined b) (processingCombined b) b).

Definition UpdateExecutionAndProcessingCountersCache (tc : TransactionCounter)
    (b : BatchCounterCollector) : outcome BatchCounterCollector :=
  e ← rangeInto plus_used (counters (executionCounters tc)) (executionCombined b);
  p ← rangeInto plus_used (counters (processingCounters tc)) (processingCombined b);
  Ok (set_caches (rlpCombined b) e p b).

Definition UndoTransactionCountersCache (tc : TransactionCounter) (b : BatchCounterCollector)
    : outcome BatchCounterCollector :=
  r ← rangeInto minus_used (counters (rlpCounters tc)) (rlpCombined b);
  e ← rangeInto minus_used (counters (executionCounters tc)) (executionCombined b);
  p ← rangeInto minus_used (counters (processingCounters tc)) (processingCombined b);
  Ok (set_caches r e p b).

(** ** Batch level data *)

(** The loop over the transactions, each filling its own cache of L2 data. *)
Fixpoint sumL2Data (txs : list nat) (total : Z) (h : gmap nat TransactionCounter)
    : outcome (Z * gmap nat TransactionCounter) :=
  match txs with
  | [] => Ok (total, h)
  | a :: txs =>
      tc ← deref h a;
      dt ← GetL2DataCache tc;
      let '(d, tc') := dt : list Z * TransactionCounter in
      sumL2Data txs (i64 (total + Z.of_nat (length d))) (<[a := tc']> h)
  end.

Definition batchLevelOp (levels l2Deduction : Z) : Op :=
  Deduct kS 100 ;; Deduct kP levels ;; Deduct kB 2 ;; divArith ;; Deduct kK l2Deduction ;;
  failAssert ;; consolidateBlock ;; finishBatchProcessing.

Definition processBatchLevelData (w : World) : outcome World :=
  th ← sumL2Data (transactions (batch w)) 0 (heap w);
  let '(total, h) := th : Z * gmap nat TransactionCounter in
  let b := batch w in
  let total := i64 (total + 9 * blockCount b) in
  let l2Deduction := ceil_div_f (i64 (total + 1)) 136 in
  let cc := batchLevelOp (b_smtLevels b) l2Deduction (NewCounterCollector (b_smtLevels b) (b_forkId b)) in
  Ok (mkWorld h (set_l2DataCollector (Some cc) b)).

(** ** Combining *)

Definition withAddon (b : BatchCounterCollector) : outcome Counters :=
  let combined := NewBatchCounters (b_unlimited b) (b_forkId b) in
  match addonCounters b with
  | None => Ok combined
  | Some addon => rangeInto assign_used addon combined
  end.

Fixpoint addBlocks (n : nat) (changeBlock changeL2Block combined : Counters) : outcome Counters :=
  match n with
  | O => Ok combined
  | S n' =>
      c1 ← addInto changeBlock combined;
      c2 ← addInto changeL2Block c1;
      addBlocks n' changeBlock changeL2Block c2
  end.

Definition addL2Data (b : BatchCounterCollector) (combined : Counters) : outcome Counters :=
  match l2DataCollector b with
  | None => Ok combined
  | Some cc => addInto (counters cc) combined
  end.

(** [for k := range combined]: the three caches, read at each key. *)
Fixpoint addCaches (r e p combined : Counters) : outcome Counters :=
  match combined with
  | [] => Ok []
  | c :: combined =>
      match r, e, p with
      | x :: r, y :: e, z :: p =>
          rest ← addCaches r e p combined;
          Ok (deduct_counter (i64 (i64 (used x + used y) + used z)) c :: rest)
      | _, _, _ => Panic
      end
  end.

Definition changeL2BlockCounters (b : BatchCounterCollector) (verifyMerkleProof : bool) : CounterCollector :=
  processChangeL2Block verifyMerkleProof
    (NewCounterCollector (smtLevelsForTransaction b) (b_forkId b)).

Definition changeBlockCounters (b : BatchCounterCollector) : CounterCollector :=
  decodeChangeL2BlockTx (NewCounterCollector (smtLevelsForTransaction b) (b_forkId b)).

Definition CombineCollectors (verifyMerkleProof : bool) (w : World) : outcome (Counters * World) :=
  combined ← withAddon (batch w);
  w' ← processBatchLevelData w;
  let b := batch w' in
  combined ← addBlocks (Z.to_nat (blockCount b)) (counters (changeBlockCounters b))
               (counters (changeL2BlockCounters b verifyMerkleProof)) combined;
  combined ← addL2Data b combined;
  combined ← addCaches (rlpCombined b) (executionCombined b) (processingCombined b) combined;
  Ok (combined, w').

(** The nil entries of [txCounters] panic when they are read. *)
Fixpoint addOptional (src : list (option Counter)) (dst : Counters) : outcome Counters :=
  match src, dst with
  | [], _ => Ok dst
  | Some v :: src, c :: dst => rest ← addOptional src dst; Ok (deduct_counter (used v) c :: rest)
  | _, _ => Panic
  end.

Fixpoint addTransactions (h : gmap nat TransactionCounter) (txs : list nat)
    (txCounters : list (option Counter)) (combined : Counters) : outcome Counters :=
  match txs with
  | [] => Ok combined
  | a :: txs =>
      tc ← deref h a;
      txCounters ← CombineCountersInto tc txCounters;
      combined ← addOptional txCounters combined;
      addTransactions h txs (map (fmap (set_used 0)) txCounters) combined
  end.

Definition CombineCollectorsNoChanges (w : World) : outcome Counters :=
  combined ← withAddon (batch w);
  combined ← addL2Data (batch w) combined;
  addTransactions (heap w) (transactions (batch w)) NewCounters combined.

Definition CheckForOverflow (verifyMerkleProof : bool) (w : World) : outcome (bool * World) :=
  if b_unlimited (batch w) then Ok (false, w)
  else
    cw ← CombineCollectors verifyMerkleProof w;
    Ok (existsb (fun c => remaining c <? 0) (fst cw), snd cw).

(** ** Adding and removing transactions *)

Definition AddNewTransactionCounters (a : nat) (w : World) : outcome (bool * World) :=
  tc ← deref (heap w) a;
  tc ← CalculateRlp tc;
  b ← UpdateRlpCountersCache tc
        (set_transactions (transactions (batch w) ++ [a]) (batch w));
  CheckForOverflow false (mkWorld (<[a := tc]> (heap w)) b).

Definition SingleTransactionOverflowCheck (a : nat) (w : World) : outcome (bool * World) :=
  tc ← deref (heap w) a;
  tc ← CalculateRlp tc;
  b ← UpdateRlpCountersCache tc
        (set_transactions (transactions (batch w) ++ [a]) (batch w));
  b ← UpdateExecutionAndProcessingCountersCache tc (set_blockCount 1 b);
  CheckForOverflow false (mkWorld (<[a := tc]> (heap w)) b).

Definition RemovePreviousTransactionCounters (w : World) : outcome World :=
  let b := batch w in
  lastTx ← index (transactions b) (Z.of_nat (length (transactions b)) - 1);
  tc ← deref (heap w) lastTx;
  b ← UndoTransactionCountersCache tc b;
  txs ← slice (transactions b) 0 (Z.of_nat (length (transactions b)) - 1);
  Ok (mkWorld (heap w) (set_transactions txs b)).

Definition ClearTransactionCounters (w : World) : World :=
  mkWorld (heap w) (set_transactions [] (batch w)).

Definition StartNewBlock (verifyMerkleProof : bool) (w : World) : outcome (bool * World) :=
  CheckForOverflow verifyMerkleProof
    (mkWorld (heap w) (set_blockCount (i64 (blockCount (batch w) + 1)) (batch w))).

(** The clone does not copy [addonCounters]. *)
Fixpoint cloneTransactions (txs : list nat) (h : gmap nat TransactionCounter) (fresh : nat)
    : outcome (list nat * gmap nat TransactionCounter) :=
  match txs with
  | [] => Ok ([], h)
  | a :: txs =>
      tc ← deref h a;
      tc' ← TransactionCounter_Clone tc;
      r ← cloneTransactions txs (<[fresh := tc']> h) (S fresh);
      let '(l, h') := r : list nat * gmap nat TransactionCounter in Ok (fresh :: l, h')
  end.

(** Clones are put at the addresses from [fresh] on. *)
Definition Batch_Clone (fresh : nat) (w : World) : outcome (BatchCounterCollector * World) :=
  let b := batch w in
  th ← cloneTransactions (transactions b) (heap w) fresh;
  let '(txs, h) := th : list nat * gmap nat TransactionCounter in
  l2 ← (match l2DataCollector b with
        | None => Ok None
        | Some cc => cc' ← Collector_Clone cc; Ok (Some cc')
        end) : outcome (option CounterCollector);
  r ← Counters_Clone (rlpCombined b);
  e ← Counters_Clone (executionCombined b);
  p ← Counters_Clone (processingCombined b);
  Ok (mkBatch l2 txs (b_smtLevels b) (smtLevelsForTransaction b) (blockCount b) (b_forkId b)
        (b_unlimited b) None r e p, mkWorld h b).
