(* ===== verification/BatchTheory.v ===== *)
(** * Batch counters: the caches are coherent and the overflow check is exact

    The batch is followed through the steps its users take: a transaction is
    added, executes, is booked with its execution counters, may be removed again
    if it was the last; blocks start; overflow is checked.  Along every such run
    the three caches are the sums over the transactions, so the combined counters
    are those a recomputation from the transactions gives, and the overflow check
    says whether some sum exceeds its limit. *)
From stdpp Require Import relations.
From S2P Require Import Prelude Float64 Bytes CounterBase CounterLimits ModExpCounters.
From S2P Require Import CounterOps CounterTheory L2Tx TxCounters BatchCounters.

(** ** Deductions from all counters at once *)

Definition deducts (f : nat -> Z) (cs : Counters) : Counters :=
  imap (fun i c => deduct_counter (f i) c) cs.

Definition used_at (cs : Counters) (k : nat) : Z :=
  match cs !! k with Some c => used c | None => 0 end.

Lemma deducts_length f cs : length (deducts f cs) = length cs.
Proof. apply length_imap. Qed.

Lemma deducts_compose f g cs : deducts g (deducts f cs) = deducts (fun i => f i + g i) cs.
Proof.
  apply list_eq. intros i. unfold deducts. rewrite !list_lookup_imap.
  destruct (cs !! i); simpl; [|done]. by rewrite deduct_counter_add.
Qed.

Lemma deduct_counter_i64 a c : deduct_counter (i64 a) c = deduct_counter a c.
Proof. unfold deduct_counter. by rewrite i64_opp_i64, i64_add_i64. Qed.

Lemma deducts_ext f g cs :
  (forall i, (i < length cs)%nat -> i64 (f i) = i64 (g i)) -> deducts f cs = deducts g cs.
Proof.
  intros H. apply list_eq. intros i. unfold deducts. rewrite !list_lookup_imap.
  destruct (cs !! i) as [c|] eqn:E; simpl; [|done].
  rewrite <- (deduct_counter_i64 (f i)), <- (deduct_counter_i64 (g i)), H; [done|].
  by eapply lookup_lt_Some.
Qed.

(** [rangeInto] on vectors of the same length. *)
Lemma rangeInto_imap op src : forall dst, length src = length dst ->
  rangeInto op src dst = Ok (imap (fun i c => op (used_at src i) c) dst).
Proof.
  induction src as [|v src IH]; intros [|c dst] Hl; simplify_eq/=; [done|].
  rewrite (IH dst) by done. done.
Qed.

Lemma addInto_deducts src dst : length src = length dst ->
  addInto src dst = Ok (deducts (used_at src) dst).
Proof. apply rangeInto_imap. Qed.

(** Counters whose fields are [int]s. *)
Definition canon (c : Counter) : Prop := i64 (remaining c) = remaining c /\ i64 (used c) = used c.

Lemma deduct_counter_canon a c : canon (deduct_counter a c).
Proof. split; apply i64_idem. Qed.

Lemma deducts_canon f cs : Forall canon (deducts f cs).
Proof.
  apply Forall_lookup. intros i c Hi. unfold deducts in Hi. rewrite list_lookup_imap in Hi.
  destruct (cs !! i); simplify_eq/=. apply deduct_counter_canon.
Qed.

Lemma deducts_0 cs : Forall canon cs -> deducts (fun _ => 0) cs = cs.
Proof.
  intros H. apply list_eq. intros i. unfold deducts. rewrite list_lookup_imap.
  destruct (cs !! i) as [c|] eqn:E; simpl; [|done].
  destruct (Forall_lookup_1 _ _ _ _ H E) as [H1 H2]. destruct c; unfold deduct_counter; simpl in *.
  rewrite Z.sub_0_r, Z.add_0_r. congruence.
Qed.

Lemma addBlocks_deducts n cb cl : forall dst,
  Forall canon dst -> length cb = length dst -> length cl = length dst ->
  addBlocks n cb cl dst = Ok (deducts (fun i => Z.of_nat n * (used_at cb i + used_at cl i)) dst).
Proof.
  induction n as [|n IH]; intros dst Hc H1 H2; cbn [addBlocks].
  - by rewrite <- (deducts_0 dst Hc) at 1.
  - rewrite addInto_deducts by done. cbn [mbind outcome_bind].
    rewrite addInto_deducts by (by rewrite deducts_length). cbn [mbind outcome_bind].
    rewrite deducts_compose, IH by (rewrite ?deducts_length; done || apply deducts_canon).
    rewrite deducts_compose. f_equal. apply deducts_ext. intros i _. f_equal. lia.
Qed.

Lemma addCaches_deducts r e p : forall dst,
  length r = length dst -> length e = length dst -> length p = length dst ->
  addCaches r e p dst = Ok (deducts (fun i => used_at r i + used_at e i + used_at p i) dst).
Proof.
  revert e p. induction r as [|x r IH]; intros [|y e] [|z p] [|c dst] H1 H2 H3; simplify_eq/=; [done|].
  rewrite IH by done. cbn [mbind outcome_bind]. f_equal. unfold deducts. simpl. f_equal.
  rewrite <- (deduct_counter_i64 (used x + used y + used z)). f_equal.
  by rewrite i64_i64_add.
Qed.

(** ** What the transactions add up to *)

Definition tx_used (f : TransactionCounter -> CounterCollector) (h : gmap nat TransactionCounter)
    (k a : nat) : Z :=
  match h !! a with Some tc => used_at (counters (f tc)) k | None => 0 end.

Definition sum_used f h (k : nat) (txs : list nat) : Z :=
  foldr (fun a acc => tx_used f h k a + acc) 0 txs.

Definition eight (cs : Counters) : Prop := length cs = CounterTypesCount.

Definition tc_shape (tc : TransactionCounter) : Prop :=
  eight (counters (rlpCounters tc)) /\ eight (counters (executionCounters tc)) /\
  eight (counters (processingCounters tc)).

Lemma sum_used_app f h k l1 l2 : sum_used f h k (l1 ++ l2) = sum_used f h k l1 + sum_used f h k l2.
Proof. induction l1 as [|a l1 IH]; simpl; lia. Qed.

Lemma sum_used_ext f h h' k txs :
  (forall a, a ∈ txs -> tx_used f h k a = tx_used f h' k a) ->
  sum_used f h k txs = sum_used f h' k txs.
Proof.
  intros H. induction txs as [|a txs IH]; [done|]. simpl.
  rewrite (H a) by set_solver. rewrite IH; [done|]. intros b Hb. apply H. set_solver.
Qed.

(** The transactions of the batch whose execution has been booked. *)
Fixpoint booked (txs : list nat) (flags : list bool) : list nat :=
  match txs, flags with
  | a :: txs, f :: flags => if f then a :: booked txs flags else booked txs flags
  | _, _ => []
  end.

(** A cache holds a sum, on counters with the names and limits they began with. *)
Definition cache_is (cache : Counters) (sum : nat -> Z) : Prop :=
  eight cache /\ Forall canon cache /\
  forall k, (k < CounterTypesCount)%nat -> used_at cache k = i64 (sum k).

(** Parameters the batch was built with. *)
Definition config_ok (b : BatchCounterCollector) : Prop :=
  0 <= b_smtLevels b <= 2 ^ 10 /\ 0 <= smtLevelsForTransaction b <= 2 ^ 10 /\
  match addonCounters b with
  | None => True
  | Some addon => eight addon /\ Forall canon addon
  end.

Record coherent (w : World) (flags : list bool) : Prop := {
  coh_config : config_ok (batch w);
  coh_blocks : 0 <= blockCount (batch w) < 2 ^ 63;
  coh_len : length flags = length (transactions (batch w));
  coh_nodup : NoDup (transactions (batch w));
  coh_heap : forall a, a ∈ transactions (batch w) ->
    exists tc, heap w !! a = Some tc /\ tc_shape tc /\ tc_ok tc;
  coh_rlp : cache_is (rlpCombined (batch w))
    (fun k => sum_used rlpCounters (heap w) k (transactions (batch w)));
  coh_exec : cache_is (executionCombined (batch w))
    (fun k => sum_used executionCounters (heap w) k (booked (transactions (batch w)) flags));
  coh_proc : cache_is (processingCombined (batch w))
    (fun k => sum_used processingCounters (heap w) k (booked (transactions (batch w)) flags));
}.

(** ** Updates of a cache *)

Lemma used_at_imap (g : nat -> Counter -> Counter) cs k c :
  cs !! k = Some c -> used_at (imap g cs) k = used (g k c).
Proof. intros H. unfold used_at. rewrite list_lookup_imap, H. done. Qed.

Lemma cache_update (g : Z -> Z -> Z) op src cache sum :
  (forall n c, used (op n c) = i64 (g (used c) n) /\ remaining (op n c) = remaining c) ->
  (forall x y n, i64 x = i64 y -> i64 (g x n) = i64 (g y n)) ->
  cache_is cache sum -> eight src ->
  exists r, rangeInto op src cache = Ok r /\ cache_is r (fun k => g (sum k) (used_at src k)).
Proof.
  intros Hop Hg (Hl & Hc & Hs) Hsrc. eexists. split; [by apply rangeInto_imap; rewrite Hl|].
  split; [unfold eight; by rewrite length_imap|]. split.
  - apply Forall_lookup. intros i c Hi. rewrite list_lookup_imap in Hi.
    destruct (cache !! i) as [c0|] eqn:E; simplify_eq/=.
    destruct (Hop (used_at src i) c0) as [Hu Hr]. unfold canon. rewrite Hu, Hr, i64_idem.
    split; [|done]. apply (Forall_lookup_1 _ _ _ _ Hc E).
  - intros k Hk. destruct (lookup_lt_is_Some_2 cache k) as [c Hc0]; [by rewrite Hl|].
    rewrite (used_at_imap _ _ _ _ Hc0). destruct (Hop (used_at src k) c) as [-> _].
    specialize (Hs k Hk). unfold used_at in Hs. rewrite Hc0 in Hs. rewrite Hs.
    apply Hg. apply i64_idem.
Qed.

Lemma cache_plus src cache sum : cache_is cache sum -> eight src ->
  exists r, rangeInto plus_used src cache = Ok r /\ cache_is r (fun k => sum k + used_at src k).
Proof.
  apply cache_update; [done|]. intros x y n H. by rewrite <- i64_i64_add, H, i64_i64_add.
Qed.

Lemma cache_minus src cache sum : cache_is cache sum -> eight src ->
  exists r, rangeInto minus_used src cache = Ok r /\ cache_is r (fun k => sum k - used_at src k).
Proof.
  apply cache_update; [done|]. intros x y n H.
  replace (x - n) with (x + - n) by lia. replace (y - n) with (y + - n) by lia.
  by rewrite <- i64_i64_add, H, i64_i64_add.
Qed.

Lemma cache_is_ext cache s1 s2 : (forall k, s1 k = s2 k) -> cache_is cache s1 -> cache_is cache s2.
Proof. intros H (H1 & H2 & H3). split; [done|]. split; [done|]. intros k Hk. by rewrite <- H, H3. Qed.

(** ** The heap, up to the cached L2 data *)

Definition tc_eqv (t1 t2 : TransactionCounter) : Prop :=
  tc_transaction t1 = tc_transaction t2 /\ rlpCounters t1 = rlpCounters t2 /\
  executionCounters t1 = executionCounters t2 /\ processingCounters t1 = processingCounters t2 /\
  tc_smtLevels t1 = tc_smtLevels t2 /\ tc_forkId t1 = tc_forkId t2.

Definition heap_eqv (h1 h2 : gmap nat TransactionCounter) : Prop :=
  forall a, option_Forall2 tc_eqv (h1 !! a) (h2 !! a).

#[export] Instance tc_eqv_equiv : Equivalence tc_eqv.
Proof.
  split; [by repeat split|intros ? ? (?&?&?&?&?&?); by repeat split|].
  intros ? ? ? (?&?&?&?&?&?) (?&?&?&?&?&?). repeat split; congruence.
Qed.

#[export] Instance heap_eqv_equiv : Equivalence heap_eqv.
Proof.
  split; unfold heap_eqv.
  - intros h a. reflexivity.
  - intros h1 h2 H a. symmetry. apply H.
  - intros h1 h2 h3 H1 H2 a. etrans; [apply H1|apply H2].
Qed.

Lemma heap_eqv_insert h a tc tc' : h !! a = Some tc -> tc_eqv tc tc' -> heap_eqv h (<[a := tc']> h).
Proof.
  intros Ha He b. destruct (decide (a = b)) as [<-|Hne].
  - rewrite Ha, lookup_insert_eq. by constructor.
  - rewrite lookup_insert_ne by done. reflexivity.
Qed.

#[export] Instance tx_used_proper f k :
  Proper (tc_eqv ==> eq) f -> Proper (heap_eqv ==> eq ==> eq) (fun h a => tx_used f h k a).
Proof.
  intros Hf h1 h2 H a ? <-. unfold tx_used. destruct (H a) as [t1 t2 He|]; [|done]. by rewrite (Hf _ _ He).
Qed.

#[export] Instance rlpCounters_proper : Proper (tc_eqv ==> eq) rlpCounters.
Proof. by intros ? ? (?&?&?&?&?&?). Qed.
#[export] Instance executionCounters_proper : Proper (tc_eqv ==> eq) executionCounters.
Proof. by intros ? ? (?&?&?&?&?&?). Qed.
#[export] Instance processingCounters_proper : Proper (tc_eqv ==> eq) processingCounters.
Proof. by intros ? ? (?&?&?&?&?&?). Qed.

Lemma sum_used_eqv f h1 h2 k txs : Proper (tc_eqv ==> eq) f -> heap_eqv h1 h2 ->
  sum_used f h1 k txs = sum_used f h2 k txs.
Proof. intros Hf H. apply sum_used_ext. intros a _. by apply (tx_used_proper f k Hf). Qed.

(** The encoded length of a transaction in the heap. *)
Definition dataLength (h : gmap nat TransactionCounter) (a : nat) : Z :=
  match h !! a with
  | Some tc =>
      match TransactionToL2Data (tc_transaction tc) 8 MaxEffectivePercentage with
      | Ok d => Z.of_nat (length d)
      | _ => 0
      end
  | None => 0
  end.

Lemma dataLength_eqv h1 h2 a : heap_eqv h1 h2 -> dataLength h1 a = dataLength h2 a.
Proof. intros H. unfold dataLength. destruct (H a) as [t1 t2 (-> & _)|]; done. Qed.

Lemma sumL2Data_ok txs : forall h total, i64 total = total ->
  (forall a, a ∈ txs -> exists tc, h !! a = Some tc /\ tc_ok tc) ->
  exists h', sumL2Data txs total h =
      Ok (i64 (total + foldr (fun a acc => dataLength h a + acc) 0 txs), h') /\
    heap_eqv h h' /\
    (forall a tc, h !! a = Some tc -> tc_ok tc -> exists tc', h' !! a = Some tc' /\ tc_ok tc').
Proof.
  induction txs as [|a txs IH]; intros h total Ht Hok; cbn [sumL2Data foldr].
  { exists h. rewrite Z.add_0_r, Ht. split; [done|]. split; [reflexivity|eauto]. }
  destruct (Hok a) as (tc & Ha & Htc); [set_solver|]. unfold deref at 1. rewrite Ha. cbn [mbind outcome_bind].
  destruct (GetL2DataCache_ok tc Htc) as (d & Hg & Hd & _). rewrite Hg. cbn [mbind outcome_bind].
  set (tc' := mkTC _ _ _ _ _ _ (Some d)).
  assert (tc_ok tc') as Htc'.
  { destruct Htc as (? & ? & _). split; [done|]. split; [done|]. by intros ? [= <-]. }
  assert (heap_eqv h (<[a := tc']> h)) as Heq by (by eapply heap_eqv_insert).
  destruct (IH (<[a := tc']> h) (i64 (total + Z.of_nat (length d)))) as (h' & -> & Heq' & Hok').
  { apply i64_idem. }
  { intros b Hb. destruct (decide (a = b)) as [<-|]; [rewrite lookup_insert_eq; eauto|].
    rewrite lookup_insert_ne by done. apply Hok. set_solver. }
  exists h'. split; [|split].
  - do 2 f_equal. rewrite i64_i64_add. f_equal.
    assert (dataLength h a = Z.of_nat (length d)) as -> by (unfold dataLength; by rewrite Ha, Hd).
    assert (foldr (fun b acc => dataLength (<[a := tc']> h) b + acc) 0 txs =
            foldr (fun a acc => dataLength h a + acc) 0 txs) as ->; [|lia].
    clear -Heq. induction txs as [|b txs IH]; [done|]. simpl. rewrite IH.
    by rewrite (dataLength_eqv _ _ b Heq).
  - by etrans.
  - intros b t Hb Htok. destruct (decide (a = b)) as [<-|].
    + apply (Hok' a tc'); [by rewrite lookup_insert_eq|done].
    + apply (Hok' b t); [by rewrite lookup_insert_ne|done].
Qed.

(** ** The combined counters in closed form *)

(** The collector that [processBatchLevelData] leaves. *)
Definition l2Counters (w : World) : CounterCollector :=
  let b := batch w in
  let total := i64 (i64 (foldr (fun a acc => dataLength (heap w) a + acc) 0 (transactions b))
                    + 9 * blockCount b) in
  batchLevelOp (b_smtLevels b) (ceil_div_f (i64 (total + 1)) 136)
    (NewCounterCollector (b_smtLevels b) (b_forkId b)).

Definition batch_total (verify : bool) (w : World) (flags : list bool) (k : nat) : Z :=
  let b := batch w in
  blockCount b * (used_at (counters (changeBlockCounters b)) k
                  + used_at (counters (changeL2BlockCounters b verify)) k)
  + used_at (counters (l2Counters w)) k
  + sum_used rlpCounters (heap w) k (transactions b)
  + sum_used executionCounters (heap w) k (booked (transactions b) flags)
  + sum_used processingCounters (heap w) k (booked (transactions b) flags).

Lemma processBatchLevelData_ok w flags : coherent w flags ->
  exists h', processBatchLevelData w =
      Ok (mkWorld h' (set_l2DataCollector (Some (l2Counters w)) (batch w))) /\
    heap_eqv (heap w) h' /\
    (forall a tc, heap w !! a = Some tc -> tc_ok tc -> exists tc', h' !! a = Some tc' /\ tc_ok tc').
Proof.
  intros Hc. destruct (sumL2Data_ok (transactions (batch w)) (heap w) 0 eq_refl) as (h' & Hs & Heq & Hok).
  { intros a Ha. destruct (coh_heap _ _ Hc a Ha) as (tc & ? & _ & ?). eauto. }
  exists h'. unfold processBatchLevelData. rewrite Hs. cbn [mbind outcome_bind]. done.
Qed.

Lemma coherent_eqv w flags h' l2 : coherent w flags -> heap_eqv (heap w) h' ->
  (forall a tc, heap w !! a = Some tc -> tc_ok tc -> exists tc', h' !! a = Some tc' /\ tc_ok tc') ->
  coherent (mkWorld h' (set_l2DataCollector l2 (batch w))) flags.
Proof.
  intros [Hcfg Hbl Hl Hn Hh Hr He Hp] Heq Hok. split; simpl; try done.
  - intros a Ha. destruct (Hh a Ha) as (tc & Htc & (S1 & S2 & S3) & Ok1).
    destruct (Hok a tc Htc Ok1) as (tc' & Htc' & Ok2). exists tc'. split; [done|]. split; [|done].
    pose proof (Heq a) as Ha'. rewrite Htc, Htc' in Ha'. inversion Ha' as [? ? (_&E1&E2&E3&_)|]; subst.
    unfold tc_shape. by rewrite <- E1, <- E2, <- E3.
  - eapply cache_is_ext; [|exact Hr]. intros k. by apply sum_used_eqv; [apply _|].
  - eapply cache_is_ext; [|exact He]. intros k. by apply sum_used_eqv; [apply _|].
  - eapply cache_is_ext; [|exact Hp]. intros k. by apply sum_used_eqv; [apply _|].
Qed.

(** Operations that keep the number of counters. *)
Definition keeps (f : Op) : Prop := forall cc, eight (counters cc) -> eight (counters (f cc)).

Lemma keeps_Deduct k a : keeps (Deduct k a).
Proof. intros cc H. unfold eight in *. simpl. by rewrite length_alter. Qed.

Lemma keeps_seq f g : keeps f -> keeps g -> keeps (f ;; g).
Proof. intros Hf Hg cc H. by apply Hg, Hf. Qed.

Lemma keeps_if (b : bool) f g : keeps f -> keeps g -> keeps (if b then f else g).
Proof. by destruct b. Qed.

Lemma keeps_reading F : (forall cc, keeps (F cc)) -> keeps (reading F).
Proof. intros HF cc H. by apply HF. Qed.

Lemma keeps_multiCall f n : keeps f -> keeps (multiCall f n).
Proof.
  intros Hf cc H. destruct (multiCallFrom_prefix f (Z.to_nat n) 0 cc) as (m & _ & Heq & _).
  unfold multiCall. rewrite Heq. clear Heq. induction m; simpl; auto.
Qed.

Ltac keeps_step :=
  lazymatch goal with
  | |- keeps (andThen _ _) => apply keeps_seq
  | |- keeps (Deduct _ _) => apply keeps_Deduct
  | |- keeps skipOp => by intros cc H
  | |- keeps (if _ then _ else _) => apply keeps_if
  | |- keeps (reading _) => apply keeps_reading; intros ?
  | |- keeps (multiCall _ _) => apply keeps_multiCall
  | |- keeps ?f => let h := head_of f in unfold h; cbv beta
  end.

Lemma fresh_eight levels fork : eight (counters (NewCounterCollector levels fork)).
Proof. apply NewCounterCollector_wf. Qed.

Lemma NewBatchCounters_ok u fork :
  eight (NewBatchCounters u fork) /\ Forall canon (NewBatchCounters u fork).
Proof.
  assert (forall cc, wf cc -> eight (counters cc) /\ Forall canon (counters cc)) as H.
  { intros cc [Hl Hc]. split; [done|]. eapply Forall_impl; [exact Hc|]. intros c (?&?&_). by split. }
  unfold NewBatchCounters. destruct u; [apply (H _ NewUnlimitedCounterCollector_wf)|].
  apply (H _ (NewCounterCollector_wf 0 fork)).
Qed.

Lemma block_collectors_eight b verify :
  eight (counters (changeBlockCounters b)) /\ eight (counters (changeL2BlockCounters b verify)).
Proof.
  split.
  - apply (fun H : keeps decodeChangeL2BlockTx => H _ (fresh_eight _ _)). repeat keeps_step.
  - apply (fun H : keeps (processChangeL2Block verify) => H _ (fresh_eight _ _)). repeat keeps_step.
Qed.

Lemma l2Counters_eight w : eight (counters (l2Counters w)).
Proof.
  unfold l2Counters. cbv zeta.
  match goal with |- eight (counters (?f _)) => apply (fun H : keeps f => H _ (fresh_eight _ _)) end.
  repeat keeps_step.
Qed.

(** What was used before this collector was made. *)
Definition addon_at (b : BatchCounterCollector) (k : nat) : Z :=
  match addonCounters b with None => 0 | Some addon => used_at addon k end.

(** The starting point is the limits with the addon taken off. *)
Lemma withAddon_ok b : config_ok b ->
  withAddon b = Ok (deducts (addon_at b) (NewBatchCounters (b_unlimited b) (b_forkId b))).
Proof.
  intros (_ & _ & Ha). destruct (NewBatchCounters_ok (b_unlimited b) (b_forkId b)) as [Hl Hc].
  unfold withAddon, addon_at. destruct (addonCounters b) as [addon|]; [|by rewrite deducts_0].
  destruct Ha as [Hla Hca]. rewrite rangeInto_imap by (by rewrite Hl). f_equal.
  assert (Forall (fun c => used c = 0) (NewBatchCounters (b_unlimited b) (b_forkId b))) as H0.
  { unfold NewBatchCounters. destruct (b_unlimited b);
      [apply (createCountrsByLimits_fresh unlimitedCounters)|apply (NewCounterCollector_fresh 0)]. }
  apply list_eq. intros i. unfold deducts. rewrite !list_lookup_imap.
  destruct (NewBatchCounters _ _ !! i) as [c|] eqn:E; simpl; [|done]. f_equal.
  pose proof (Forall_lookup_1 _ _ _ _ H0 E) as Hu. simpl in Hu.
  unfold assign_used, deduct_counter. f_equal. rewrite Hu, Z.add_0_l.
  unfold used_at. destruct (addon !! i) as [v|] eqn:Ev; [|done].
  by destruct (Forall_lookup_1 _ _ _ _ Hca Ev) as [_ ->].
Qed.

Lemma block_collectors_l2 b x verify :
  changeBlockCounters (set_l2DataCollector x b) = changeBlockCounters b /\
  changeL2BlockCounters (set_l2DataCollector x b) verify = changeL2BlockCounters b verify.
Proof.
  unfold changeBlockCounters, changeL2BlockCounters.
  cbn [smtLevelsForTransaction b_forkId set_l2DataCollector]. split; reflexivity.
Qed.

(** The additions of [CombineCollectors], on any counters. *)
Lemma combine_tail n b cb cl base l2 rs es ps :
  eight base -> Forall canon base -> eight cb -> eight cl ->
  l2DataCollector b = Some l2 -> eight (counters l2) ->
  cache_is (rlpCombined b) rs -> cache_is (executionCombined b) es ->
  cache_is (processingCombined b) ps ->
  (c ← addBlocks n cb cl base; c ← addL2Data b c;
   addCaches (rlpCombined b) (executionCombined b) (processingCombined b) c) =
  Ok (deducts (fun k => Z.of_nat n * (used_at cb k + used_at cl k) + used_at (counters l2) k
                        + rs k + es k + ps k) base).
Proof.
  intros Hb Hcb E1 E2 Hl2 E4 (R1 & _ & R3) (X1 & _ & X3) (P1 & _ & P3). unfold eight in *.
  rewrite addBlocks_deducts by (done || congruence). cbn [mbind outcome_bind].
  unfold addL2Data. rewrite Hl2.
  rewrite addInto_deducts by (rewrite ?deducts_length; congruence). cbn [mbind outcome_bind].
  rewrite deducts_compose.
  rewrite addCaches_deducts by (rewrite ?deducts_length; congruence).
  rewrite deducts_compose. f_equal. apply deducts_ext. intros k Hk. rewrite Hb in Hk.
  rewrite R3, X3, P3 by done.
  destruct (i64_multiple (rs k)) as [k1 ->], (i64_multiple (es k)) as [k2 ->],
    (i64_multiple (ps k)) as [k3 ->].
  generalize (used_at cb k) (used_at cl k) (used_at (counters l2) k) (rs k) (es k) (ps k).
  intros x1 x2 x3 x4 x5 x6.
  replace (_ + _) with (Z.of_nat n * (x1 + x2) + x3 + x4 + x5 + x6 + (k1 + k2 + k3) * 2 ^ 64) by lia.
  apply i64_add_multiple.
Qed.

Lemma CombineCollectors_closed verify w flags :
  coherent w flags ->
  exists h', let w' := mkWorld h' (set_l2DataCollector (Some (l2Counters w)) (batch w)) in
    CombineCollectors verify w =
      Ok (deducts (fun k => addon_at (batch w) k + batch_total verify w flags k)
            (NewBatchCounters (b_unlimited (batch w)) (b_forkId (batch w))), w') /\
    heap_eqv (heap w) h' /\ coherent w' flags.
Proof.
  intros Hc. pose proof (coh_blocks _ _ Hc) as Hb.
  destruct (processBatchLevelData_ok w flags Hc) as (h' & Hp & Heq & Hok).
  exists h'. set (w' := mkWorld h' _). assert (coherent w' flags) as Hc' by (by apply coherent_eqv).
  split; [|done]. unfold CombineCollectors. rewrite withAddon_ok by apply (coh_config _ _ Hc).
  rewrite Hp. fold w'.
  assert (changeBlockCounters (batch w') = changeBlockCounters (batch w)) as HB1
    by apply (block_collectors_l2 _ _ verify).
  assert (changeL2BlockCounters (batch w') verify = changeL2BlockCounters (batch w) verify) as HB2
    by apply block_collectors_l2.
  destruct (block_collectors_eight (batch w) verify) as [E1 E2]. rewrite <- HB1 in E1. rewrite <- HB2 in E2.
  destruct (NewBatchCounters_ok (b_unlimited (batch w)) (b_forkId (batch w))) as [E3 _].
  set (base := NewBatchCounters _ _) in *. clearbody base.
  pose proof (combine_tail (Z.to_nat (blockCount (batch w'))) (batch w')
    (counters (changeBlockCounters (batch w'))) (counters (changeL2BlockCounters (batch w') verify))
    (deducts (addon_at (batch w)) base) (l2Counters w) _ _ _
    ltac:(unfold eight; by rewrite deducts_length) (deducts_canon _ _) E1 E2 eq_refl
    (l2Counters_eight w) (coh_rlp _ _ Hc') (coh_exec _ _ Hc') (coh_proc _ _ Hc')) as HT.
  rewrite !bind_ok.
  destruct (addBlocks _ _ _ _) as [c1|e|];
    [|rewrite bind_err in HT; discriminate HT|rewrite bind_panic in HT; discriminate HT].
  rewrite bind_ok. rewrite bind_ok in HT.
  destruct (addL2Data (batch w') c1) as [c2|e|];
    [|rewrite bind_err in HT; discriminate HT|rewrite bind_panic in HT; discriminate HT].
  rewrite bind_ok. rewrite bind_ok in HT. rewrite HT, bind_ok. do 2 f_equal. rewrite deducts_compose. apply deducts_ext. intros k _. f_equal.
  rewrite HB1, HB2. unfold batch_total.
  rewrite !(sum_used_eqv _ (heap w') (heap w)) by (apply _ || by symmetry).
  change (blockCount (batch w')) with (blockCount (batch w)).
  change (transactions (batch w')) with (transactions (batch w)). rewrite Z2Nat.id by lia.
  generalize (used_at (counters (changeBlockCounters (batch w))) k)
    (used_at (counters (changeL2BlockCounters (batch w) verify)) k)
    (used_at (counters (l2Counters w)) k). intros. lia.
Qed.

(** ** Runs *)

(** The steps a user of the batch takes.  A counter that is not booked yet, or
    not in the batch, may change its execution and processing collectors; one
    that is removed was booked, or has not executed at all. *)
Inductive step : World * list bool -> World * list bool -> Prop :=
| step_new a tc w flags :
    a ∉ transactions (batch w) -> tc_shape tc -> tc_ok tc ->
    step (w, flags) (mkWorld (<[a := tc]> (heap w)) (batch w), flags)
| step_add a w flags r w' :
    a ∉ transactions (batch w) ->
    (exists tc, heap w !! a = Some tc /\ tc_shape tc /\ tc_ok tc) ->
    AddNewTransactionCounters a w = Ok (r, w') ->
    step (w, flags) (w', flags ++ [false])
| step_execute i a tc cc getCodeSize returnData w flags :
    transactions (batch w) !! i = Some a -> flags !! i = Some false -> heap w !! a = Some tc ->
    eight (counters cc) ->
    eight (counters (processingCounters (ProcessTx getCodeSize returnData tc))) ->
    step (w, flags)
      (mkWorld (<[a := ProcessTx getCodeSize returnData
                         (mkTC (tc_transaction tc) (rlpCounters tc) cc (processingCounters tc)
                            (tc_smtLevels tc) (tc_forkId tc) (l2DataCache tc))]> (heap w))
         (batch w), flags)
| step_book i a tc w flags b :
    transactions (batch w) !! i = Some a -> flags !! i = Some false -> heap w !! a = Some tc ->
    UpdateExecutionAndProcessingCountersCache tc (batch w) = Ok b ->
    step (w, flags) (mkWorld (heap w) b, <[i := true]> flags)
| step_remove w flags f w' :
    (f = true \/ forall a tc, last (transactions (batch w)) = Some a -> heap w !! a = Some tc ->
       forall k, used_at (counters (executionCounters tc)) k = 0 /\
                 used_at (counters (processingCounters tc)) k = 0) ->
    RemovePreviousTransactionCounters w = Ok w' ->
    step (w, flags ++ [f]) (w', flags)
| step_block verify w flags r w' :
    blockCount (batch w) + 1 < 2 ^ 63 -> StartNewBlock verify w = Ok (r, w') -> step (w, flags) (w', flags)
| step_check verify w flags r w' :
    CheckForOverflow verify w = Ok (r, w') -> step (w, flags) (w', flags).

(** *** The booked transactions *)

Lemma booked_snoc txs : forall flags a f, length flags = length txs ->
  booked (txs ++ [a]) (flags ++ [f]) = booked txs flags ++ (if f then [a] else []).
Proof.
  induction txs as [|b txs IH]; intros [|g flags] a f Hl; simplify_eq/=; [done|].
  rewrite IH by done. by destruct g.
Qed.

Lemma booked_elem txs : forall flags a,
  a ∈ booked txs flags -> exists i, txs !! i = Some a /\ flags !! i = Some true.
Proof.
  induction txs as [|b txs IH]; intros [|g flags] a H; simpl in H; try by apply not_elem_of_nil in H.
  destruct g; [apply elem_of_cons in H as [->|H]; [by exists 0%nat|]|];
    (destruct (IH flags a H) as (i & Hi & Hf); by exists (S i)).
Qed.

Lemma booked_subset txs flags a : a ∈ booked txs flags -> a ∈ txs.
Proof. intros (i & Hi & _)%booked_elem. by eapply list_elem_of_lookup_2. Qed.

Lemma booked_not txs flags i a : NoDup txs -> txs !! i = Some a -> flags !! i = Some false ->
  a ∉ booked txs flags.
Proof.
  intros Hn Hi Hf (j & Hj & Ht)%booked_elem.
  assert (i = j) as -> by (by eapply NoDup_lookup). congruence.
Qed.

Lemma sum_booked_insert f h k txs : forall flags i a,
  txs !! i = Some a -> flags !! i = Some false ->
  sum_used f h k (booked txs (<[i := true]> flags)) = sum_used f h k (booked txs flags) + tx_used f h k a.
Proof.
  induction txs as [|b txs IH]; intros [|g flags] [|i] a Hi Hf; simplify_eq/=; [lia|].
  destruct g; simpl; rewrite (IH flags i a) by done; lia.
Qed.

Lemma sum_used_insert f h k a tc txs : a ∉ txs ->
  sum_used f (<[a := tc]> h) k txs = sum_used f h k txs.
Proof.
  intros Ha. apply sum_used_ext. intros b Hb. unfold tx_used.
  by rewrite lookup_insert_ne by (intros ->; done).
Qed.

(** *** The overflow check keeps the books *)

Lemma CheckForOverflow_coherent verify w flags r w' :
  coherent w flags -> CheckForOverflow verify w = Ok (r, w') ->
  coherent w' flags /\ heap_eqv (heap w) (heap w') /\
  transactions (batch w') = transactions (batch w) /\ blockCount (batch w') = blockCount (batch w).
Proof.
  intros Hc. unfold CheckForOverflow. destruct (b_unlimited (batch w)).
  { intros [= <- <-]. split; [done|]. split; [reflexivity|done]. }
  destruct (CombineCollectors_closed verify w flags Hc) as (h' & -> & Heq & Hc').
  rewrite bind_ok. intros [= _ <-]. done.
Qed.

(** *** Every step keeps the books *)

Lemma step_new_coherent a tc w flags :
  a ∉ transactions (batch w) -> coherent w flags ->
  coherent (mkWorld (<[a := tc]> (heap w)) (batch w)) flags.
Proof.
  intros Ha [Hcfg Hbl Hl Hn Hh Hr He Hp]. split; simpl; try done.
  - intros b Hb. rewrite lookup_insert_ne by (intros ->; done). by apply Hh.
  - eapply cache_is_ext; [|exact Hr]. intros k. by rewrite sum_used_insert.
  - eapply cache_is_ext; [|exact He]. intros k.
    by rewrite sum_used_insert by (intros ?%booked_subset; done).
  - eapply cache_is_ext; [|exact Hp]. intros k.
    by rewrite sum_used_insert by (intros ?%booked_subset; done).
Qed.

(** The world [AddNewTransactionCounters] checks for overflow. *)
Lemma add_split a w flags :
  a ∉ transactions (batch w) ->
  (exists tc, heap w !! a = Some tc /\ tc_shape tc /\ tc_ok tc) ->
  coherent w flags -> exists tc tc1 rc, heap w !! a = Some tc /\
    executionCounters tc1 = executionCounters tc /\ processingCounters tc1 = processingCounters tc /\
    tc_shape tc1 /\ rangeInto plus_used (counters (rlpCounters tc1)) (rlpCombined (batch w)) = Ok rc /\
    let w1 := mkWorld (<[a := tc1]> (heap w))
      (set_caches rc (executionCombined (batch w)) (processingCombined (batch w))
         (set_transactions (transactions (batch w) ++ [a]) (batch w))) in
    AddNewTransactionCounters a w = CheckForOverflow false w1 /\ coherent w1 (flags ++ [false]).
Proof.
  intros Ha (tc & Htc & (S1 & S2 & S3) & Hok) [Hcfg Hbl Hl Hn Hh Hr He Hp].
  destruct (CalculateRlp_ok tc Hok) as (tc1 & Hcr & Hok1 & [Hw _] & _ & _ & _ & HE & HP & _).
  destruct (cache_plus (counters (rlpCounters tc1)) _ _ Hr Hw) as (rc & Hrc1 & Hrc).
  assert (tc_shape tc1) as Hsh by (unfold tc_shape; by rewrite HE, HP).
  exists tc, tc1, rc. split_and!; [done..|]. intros w1. subst w1. split.
  { unfold AddNewTransactionCounters, deref. rewrite Htc, bind_ok, Hcr, bind_ok.
    unfold UpdateRlpCountersCache. cbn [rlpCombined set_transactions executionCombined processingCombined].
    rewrite Hrc1, !bind_ok. done. }
  split; cbn [batch heap set_caches transactions
    set_transactions blockCount rlpCombined executionCombined processingCombined]; try done.
  - rewrite !length_app. simpl. lia.
  - apply NoDup_app. split; [done|]. split; [|apply NoDup_singleton].
    by intros x Hx ->%list_elem_of_singleton.
  - intros b [Hb| ->%list_elem_of_singleton]%elem_of_app.
    + rewrite lookup_insert_ne by (intros ->; done). by apply Hh.
    + rewrite lookup_insert_eq. eauto.
  - eapply cache_is_ext; [|exact Hrc]. intros k. cbv beta.
    rewrite sum_used_app, sum_used_insert by done. simpl. unfold tx_used. rewrite lookup_insert_eq. lia.
  - eapply cache_is_ext; [|exact He]. intros k.
    rewrite booked_snoc, app_nil_r by done.
    by rewrite sum_used_insert by (intros ?%booked_subset; done).
  - eapply cache_is_ext; [|exact Hp]. intros k.
    rewrite booked_snoc, app_nil_r by done.
    by rewrite sum_used_insert by (intros ?%booked_subset; done).
Qed.

Lemma step_add_coherent a w flags r w' :
  a ∉ transactions (batch w) ->
  (exists tc, heap w !! a = Some tc /\ tc_shape tc /\ tc_ok tc) ->
  coherent w flags -> AddNewTransactionCounters a w = Ok (r, w') ->
  coherent w' (flags ++ [false]).
Proof.
  intros Ha Htc Hc. destruct (add_split a w flags Ha Htc Hc) as (?&?&?&_&_&_&_&_&->&Hc1).
  by apply CheckForOverflow_coherent.
Qed.

Lemma step_execute_coherent i a tc tc' w flags :
  transactions (batch w) !! i = Some a -> flags !! i = Some false -> heap w !! a = Some tc ->
  rlpCounters tc' = rlpCounters tc -> tc_shape tc' -> (tc_ok tc -> tc_ok tc') ->
  coherent w flags -> coherent (mkWorld (<[a := tc']> (heap w)) (batch w)) flags.
Proof.
  intros Hi Hf Htc Hrlp Hs Hok [Hcfg Hbl Hl Hn Hh Hr He Hp].
  pose proof (booked_not _ _ _ _ Hn Hi Hf) as Hnb. split; simpl; try done.
  - intros b Hb. destruct (decide (a = b)) as [<-|].
    + rewrite lookup_insert_eq. destruct (Hh a Hb) as (t & Ht & _ & ?). simplify_eq. eauto.
    + rewrite lookup_insert_ne by done. by apply Hh.
  - eapply cache_is_ext; [|exact Hr]. intros k. apply sum_used_ext. intros b _. unfold tx_used.
    destruct (decide (a = b)) as [<-|]; [|by rewrite lookup_insert_ne].
    by rewrite lookup_insert_eq, Htc, Hrlp.
  - eapply cache_is_ext; [|exact He]. intros k. by rewrite sum_used_insert.
  - eapply cache_is_ext; [|exact Hp]. intros k. by rewrite sum_used_insert.
Qed.

Lemma step_book_coherent i a tc w flags b :
  transactions (batch w) !! i = Some a -> flags !! i = Some false -> heap w !! a = Some tc ->
  UpdateExecutionAndProcessingCountersCache tc (batch w) = Ok b ->
  coherent w flags -> coherent (mkWorld (heap w) b) (<[i := true]> flags).
Proof.
  intros Hi Hf Htc Hu [Hcfg Hbl Hl Hn Hh Hr He Hp].
  destruct (Hh a) as (t & Ht & (S1 & S2 & S3) & _); [by eapply list_elem_of_lookup_2|]. simplify_eq.
  unfold UpdateExecutionAndProcessingCountersCache in Hu.
  destruct (cache_plus (counters (executionCounters tc)) _ _ He S2) as (ec & Hec & Hec').
  destruct (cache_plus (counters (processingCounters tc)) _ _ Hp S3) as (pc & Hpc & Hpc').
  rewrite Hec, bind_ok, Hpc, bind_ok in Hu. simplify_eq. split; simpl; try done.
  - by rewrite length_insert.
  - eapply cache_is_ext; [|exact Hec']. intros k. rewrite (sum_booked_insert _ _ _ _ _ i a) by done.
    unfold tx_used. by rewrite Htc.
  - eapply cache_is_ext; [|exact Hpc']. intros k. rewrite (sum_booked_insert _ _ _ _ _ i a) by done.
    unfold tx_used. by rewrite Htc.
Qed.

Lemma step_remove_coherent w flags f w' :
  (f = true \/ forall a tc, last (transactions (batch w)) = Some a -> heap w !! a = Some tc ->
     forall k, used_at (counters (executionCounters tc)) k = 0 /\
               used_at (counters (processingCounters tc)) k = 0) ->
  RemovePreviousTransactionCounters w = Ok w' ->
  coherent w (flags ++ [f]) -> coherent w' flags.
Proof.
  intros Hz Hrm [Hcfg Hbl Hl Hn Hh Hr He Hp]. rewrite length_app in Hl. simpl in Hl.
  destruct (exists_last (l := transactions (batch w))) as (txs & a & Htxs).
  { intros E. rewrite E in Hl. simpl in Hl. lia. }
  unfold RemovePreviousTransactionCounters in Hrm. rewrite Htxs in *.
  rewrite length_app in Hl, Hrm. simpl in Hl, Hrm.
  rewrite (index_at _ txs [] a), bind_ok in Hrm by (done || lia).
  destruct (Hh a) as (tc & Htc & (S1 & S2 & S3) & _);
    [apply elem_of_app; right; by apply list_elem_of_singleton|].
  unfold deref in Hrm. rewrite Htc, bind_ok in Hrm. unfold UndoTransactionCountersCache in Hrm.
  destruct (cache_minus (counters (rlpCounters tc)) _ _ Hr S1) as (rc & Hrc & Hrc').
  destruct (cache_minus (counters (executionCounters tc)) _ _ He S2) as (ec & Hec & Hec').
  destruct (cache_minus (counters (processingCounters tc)) _ _ Hp S3) as (pc & Hpc & Hpc').
  rewrite Hrc, bind_ok, Hec, bind_ok, Hpc, !bind_ok in Hrm. cbn [transactions set_caches] in Hrm.
  rewrite Htxs, (slice_at _ [] txs [a]), bind_ok in Hrm by (rewrite ?length_app; simpl; done || lia).
  simplify_eq. apply NoDup_app in Hn as (Hn & Hna & _).
  split; cbn [batch heap set_transactions set_caches transactions blockCount rlpCombined
    executionCombined processingCombined]; try done.
  - lia.
  - intros b Hb. apply Hh, elem_of_app. by left.
  - eapply cache_is_ext; [|exact Hrc']. intros k. cbv beta. rewrite sum_used_app. simpl.
    unfold tx_used. rewrite Htc. lia.
  - eapply cache_is_ext; [|exact Hec']. intros k. cbv beta. rewrite booked_snoc, sum_used_app by lia.
    destruct Hz as [->|Hz]; [simpl; unfold tx_used; rewrite Htc; lia|].
    destruct (Hz a tc (last_snoc _ _) Htc k) as [Hz1 _].
    destruct f; simpl; unfold tx_used; rewrite ?Htc; lia.
  - eapply cache_is_ext; [|exact Hpc']. intros k. cbv beta. rewrite booked_snoc, sum_used_app by lia.
    destruct Hz as [->|Hz]; [simpl; unfold tx_used; rewrite Htc; lia|].
    destruct (Hz a tc (last_snoc _ _) Htc k) as [_ Hz2].
    destruct f; simpl; unfold tx_used; rewrite ?Htc; lia.
Qed.

Lemma step_block_coherent verify w flags r w' :
  blockCount (batch w) + 1 < 2 ^ 63 -> StartNewBlock verify w = Ok (r, w') ->
  coherent w flags -> coherent w' flags.
Proof.
  intros Hb Hs [Hcfg Hbl Hl Hn Hh Hr He Hp]. unfold StartNewBlock in Hs.
  eapply CheckForOverflow_coherent in Hs as [Hc _]; [exact Hc|].
  rewrite i64_small by lia. split; simpl; done || lia.
Qed.

Lemma step_coherent s1 s2 : step s1 s2 -> coherent (fst s1) (snd s1) -> coherent (fst s2) (snd s2).
Proof.
  intros Hs Hc. destruct Hs; cbn [fst snd] in *.
  - by apply step_new_coherent.
  - by eapply step_add_coherent.
  - destruct (coh_heap _ _ Hc a) as (t & Ht & (S1 & S2 & S3) & Hok);
      [by eapply list_elem_of_lookup_2|]. simplify_eq.
    eapply step_execute_coherent; [done..| | | |done].
    + unfold ProcessTx. by destruct (GetTo _).
    + unfold ProcessTx in *. cbn [tc_transaction] in *.
      destruct (GetTo (tc_transaction tc)); (split; [done|by split]).
    + intros (? & ? & ?). unfold ProcessTx. cbn [tc_transaction].
      destruct (GetTo (tc_transaction tc)); (split; [done|by split]).
  - by eapply step_book_coherent.
  - by eapply step_remove_coherent.
  - by eapply step_block_coherent.
  - match goal with H : CheckForOverflow _ _ = _ |- _ =>
      by destruct (CheckForOverflow_coherent _ _ _ _ _ Hc H) end.
Qed.

Lemma run_coherent s1 s2 : rtc step s1 s2 ->
  coherent (fst s1) (snd s1) -> coherent (fst s2) (snd s2).
Proof. induction 1 as [|s1 s2 s3 Hs _ IH]; [done|]. intros Hc. by apply IH, (step_coherent s1). Qed.

(** A new batch, over any heap. *)
Definition start (h : gmap nat TransactionCounter) smtMaxLevel fork mcpReduction unlimited addon : World :=
  mkWorld h (NewBatchCounterCollector smtMaxLevel fork mcpReduction unlimited addon).

Lemma fresh_cache u fork : cache_is (NewBatchCounters u fork) (fun _ => 0).
Proof.
  destruct (NewBatchCounters_ok u fork) as [Hl Hc]. split; [done|]. split; [done|]. intros k Hk.
  assert (Forall (fun c => used c = 0) (NewBatchCounters u fork)) as H0.
  { unfold NewBatchCounters. destruct u;
      [apply (createCountrsByLimits_fresh unlimitedCounters)|apply (NewCounterCollector_fresh 0)]. }
  unfold used_at. destruct (NewBatchCounters u fork !! k) as [c|] eqn:E; [|done].
  apply (Forall_lookup_1 _ _ _ _ H0 E).
Qed.

Lemma start_coherent h lvl fork red u addon : config_ok (batch (start h lvl fork red u addon)) ->
  coherent (start h lvl fork red u addon) [].
Proof.
  intros Hcfg. split; [exact Hcfg| | | | | | |]; simpl; try apply fresh_cache; try done.
  - apply NoDup_nil_2.
  - intros a Ha. by apply not_elem_of_nil in Ha.
Qed.

(** *** Recomputation from the transactions *)

Definition tx_total (tc : TransactionCounter) (k : nat) : Z :=
  used_at (counters (rlpCounters tc)) k + used_at (counters (executionCounters tc)) k
  + used_at (counters (processingCounters tc)) k.

Lemma index_used cs k : eight cs -> (k < CounterTypesCount)%nat ->
  exists c, index cs (Z.of_nat k) = Ok c /\ used c = used_at cs k.
Proof.
  intros Hl Hk. destruct (lookup_lt_is_Some_2 cs k) as [c Hc]; [by rewrite Hl|].
  exists c. unfold index, used_at. rewrite decide_True, Nat2Z.id, Hc by lia. done.
Qed.

Lemma CombineCountersInto_ok tc (txc : list (option Counter)) :
  tc_shape tc -> length txc = CounterTypesCount ->
  exists r, CombineCountersInto tc txc = Ok r /\ length r = CounterTypesCount /\
    forall k, (k < CounterTypesCount)%nat ->
      exists c, r !! k = Some (Some c) /\ i64 (used c) = i64 (tx_total tc k).
Proof.
  intros (S1 & S2 & S3) Hl. unfold CombineCountersInto. rewrite S1.
  cut (forall n, (n <= CounterTypesCount)%nat -> exists r,
    foldl (fun acc k => c ← acc; combineAt tc c k) (Ok txc) (seq 0 n) = Ok r /\
    length r = CounterTypesCount /\
    forall k, (k < n)%nat -> exists c, r !! k = Some (Some c) /\ i64 (used c) = i64 (tx_total tc k)).
  { intros H. by apply H. }
  induction n as [|n IH]; intros Hn.
  { exists txc. split; [done|]. split; [done|]. lia. }
  destruct IH as (r & Hr & Hlr & Hk); [lia|].
  rewrite seq_S, foldl_app, Hr. cbn [foldl Nat.add]. rewrite bind_ok. unfold combineAt.
  destruct (index_used _ n S1 ltac:(lia)) as (c1 & -> & U1).
  destruct (index_used _ n S2 ltac:(lia)) as (c2 & -> & U2).
  destruct (index_used _ n S3 ltac:(lia)) as (c3 & -> & U3). rewrite !bind_ok.
  destruct (lookup_lt_is_Some_2 r n) as [old Hold]; [by rewrite Hlr; lia|].
  assert (index r (Z.of_nat n) = Ok old) as ->
    by (unfold index; by rewrite decide_True, Nat2Z.id, Hold by lia).
  rewrite bind_ok. unfold store. rewrite decide_True by lia.
  eexists. split; [done|]. split; [by rewrite length_insert|]. intros k Hlt.
  destruct (decide (k = n)) as [->|].
  - rewrite list_lookup_insert_eq by lia. eexists. split; [done|]. simpl.
    rewrite U1, U2, U3, !i64_idem, i64_i64_add. done.
  - rewrite list_lookup_insert_ne by done. apply Hk. lia.
Qed.

Lemma addOptional_deducts src : forall dst f, length src = length dst ->
  (forall k, (k < length src)%nat -> exists c, src !! k = Some (Some c) /\ i64 (used c) = i64 (f k)) ->
  addOptional src dst = Ok (deducts f dst).
Proof.
  induction src as [|o src IH]; intros [|d dst] f Hl H; simplify_eq/=; [done|].
  destruct (H 0%nat) as (c & Hc & Hu); [lia|]. simplify_eq/=.
  rewrite (IH dst (fun k => f (S k))); [|done|intros k Hk; apply (H (S k)); lia].
  rewrite bind_ok. unfold deducts. simpl. do 2 f_equal.
  by rewrite <- deduct_counter_i64, Hu, deduct_counter_i64.
Qed.

Lemma addTransactions_deducts h txs : forall txc dst,
  length txc = CounterTypesCount -> eight dst -> Forall canon dst ->
  (forall a, a ∈ txs -> exists tc, h !! a = Some tc /\ tc_shape tc) ->
  addTransactions h txs txc dst =
    Ok (deducts (fun k => sum_used rlpCounters h k txs + sum_used executionCounters h k txs
                          + sum_used processingCounters h k txs) dst).
Proof.
  induction txs as [|a txs IH]; intros txc dst Hl Hd Hc Hok; cbn [addTransactions].
  { simpl. by rewrite deducts_0. }
  destruct (Hok a) as (tc & Ha & Hs); [by left|]. unfold deref. rewrite Ha, bind_ok.
  destruct (CombineCountersInto_ok tc txc Hs Hl) as (r & -> & Hlr & Hr). rewrite bind_ok.
  rewrite (addOptional_deducts r dst (tx_total tc)), bind_ok;
    [|by rewrite Hlr, Hd|by rewrite Hlr].
  rewrite IH; [|by rewrite length_map|unfold eight; by rewrite deducts_length|apply deducts_canon|
    intros b Hb; apply Hok; by right].
  rewrite deducts_compose. f_equal. apply deducts_ext. intros k _. f_equal. simpl.
  unfold tx_total, tx_used. rewrite Ha. lia.
Qed.

(** *** The settings never change *)

Definition settings (b : BatchCounterCollector) : bool * Z * Z * Z * option Counters :=
  (b_unlimited b, b_forkId b, b_smtLevels b, smtLevelsForTransaction b, addonCounters b).

Lemma CheckForOverflow_settings verify w r w' :
  CheckForOverflow verify w = Ok (r, w') -> settings (batch w') = settings (batch w).
Proof.
  unfold CheckForOverflow. destruct (b_unlimited (batch w)); [by intros [= _ <-]|].
  intros H. apply bind_Ok_inv in H as ([cs w1] & H & [= _ <-]). cbn [snd].
  unfold CombineCollectors in H. bind_inv. injection H as _ <-.
  match goal with H : processBatchLevelData _ = _ |- _ => unfold processBatchLevelData in H; rename H into Hp end.
  apply bind_Ok_inv in Hp as ([t h] & _ & Hp). injection Hp as <-. done.
Qed.

Lemma Remove_settings w w' :
  RemovePreviousTransactionCounters w = Ok w' -> settings (batch w') = settings (batch w).
Proof.
  unfold RemovePreviousTransactionCounters, UndoTransactionCountersCache. cbv zeta. intros H.
  bind_inv. simplify_eq. done.
Qed.

Lemma step_settings s1 s2 : step s1 s2 -> settings (batch (fst s2)) = settings (batch (fst s1)).
Proof.
  destruct 1; cbn [fst batch]; try done.
  - match goal with H : AddNewTransactionCounters _ _ = _ |- _ =>
      unfold AddNewTransactionCounters, UpdateRlpCountersCache in H; rename H into Hadd end.
    bind_inv. apply CheckForOverflow_settings in Hadd. rewrite Hadd. by simplify_eq.
  - unfold UpdateExecutionAndProcessingCountersCache in *. bind_inv. by simplify_eq.
  - by apply Remove_settings.
  - match goal with H : StartNewBlock _ _ = _ |- _ => by apply CheckForOverflow_settings in H end.
  - by eapply CheckForOverflow_settings.
Qed.

Lemma run_settings s1 s2 : rtc step s1 s2 -> settings (batch (fst s2)) = settings (batch (fst s1)).
Proof. induction 1 as [|s1 s2 s3 Hs _ IH]; [done|]. by rewrite IH, (step_settings s1). Qed.

(** What a run from a new batch keeps: the books, and the settings. *)
Lemma run_from_start h lvl fork red u addon w flags :
  config_ok (batch (start h lvl fork red u addon)) ->
  rtc step (start h lvl fork red u addon, []) (w, flags) ->
  coherent w flags /\ b_unlimited (batch w) = u /\ b_forkId (batch w) = fork /\
  addonCounters (batch w) = addon.
Proof.
  intros Hcfg Hrun. split; [exact (run_coherent _ _ Hrun (start_coherent _ _ _ _ _ _ Hcfg))|].
  apply run_settings in Hrun. cbn [fst start batch NewBatchCounterCollector] in Hrun.
  unfold settings in Hrun. by injection Hrun.
Qed.

(** ** The properties *)

Lemma booked_all txs : forall flags, length flags = length txs -> Forall (fun f => f = true) flags ->
  booked txs flags = txs.
Proof.
  induction txs as [|a txs IH]; intros [|f flags] Hl Hf; simplify_eq/=; [done|].
  apply Forall_cons in Hf as [-> Hf]. by rewrite IH.
Qed.

(** What was used before this collector was made, from the argument itself. *)
Definition addon_used (addon : option Counters) (k : nat) : Z :=
  match addon with None => 0 | Some cs => used_at cs k end.

(** C25: the combined counters.  After any run from a new batch,
    [CombineCollectors] succeeds and takes off the limits, for each counter, what
    was used before the collector was made, what the started blocks cost, what
    the batch level data costs, and what the transactions of the batch have used:
    decoding for all of them, execution and processing for the booked ones. *)
Theorem batch_combine_exact h lvl fork red u addon w flags verify :
  config_ok (batch (start h lvl fork red u addon)) ->
  rtc step (start h lvl fork red u addon, []) (w, flags) ->
  exists w', CombineCollectors verify w =
    Ok (deducts (fun k => addon_used addon k + batch_total verify w flags k)
          (NewBatchCounters u fork), w').
Proof.
  intros Hcfg Hrun. destruct (run_from_start _ _ _ _ _ _ _ _ Hcfg Hrun) as (Hc & <- & <- & <-).
  destruct (CombineCollectors_closed verify w flags Hc) as (h' & Heq & _). eauto.
Qed.

(** What the batch level data add, once there is a collector of them. *)
Definition l2_at (b : BatchCounterCollector) (k : nat) : Z :=
  match l2DataCollector b with Some cc => used_at (counters cc) k | None => 0 end.

(** The recomputation. *)
Lemma NoChanges_deducts w flags : coherent w flags ->
  (forall cc, l2DataCollector (batch w) = Some cc -> eight (counters cc)) ->
  CombineCollectorsNoChanges w =
    Ok (deducts (fun k => addon_at (batch w) k + l2_at (batch w) k +
          (sum_used rlpCounters (heap w) k (transactions (batch w)) +
           sum_used executionCounters (heap w) k (transactions (batch w)) +
           sum_used processingCounters (heap w) k (transactions (batch w))))
          (NewBatchCounters (b_unlimited (batch w)) (b_forkId (batch w)))).
Proof.
  intros Hc E4. destruct (NewBatchCounters_ok (b_unlimited (batch w)) (b_forkId (batch w))) as [E3 _].
  unfold CombineCollectorsNoChanges. rewrite withAddon_ok, bind_ok by apply (coh_config _ _ Hc).
  set (base := NewBatchCounters _ _) in *. clearbody base. unfold eight in *.
  assert (addL2Data (batch w) (deducts (addon_at (batch w)) base) = Ok (deducts (fun k => addon_at (batch w) k + l2_at (batch w) k) base)) as ->.
  { unfold addL2Data, l2_at. destruct (l2DataCollector (batch w)) as [cc|].
    - specialize (E4 cc eq_refl). rewrite addInto_deducts by (rewrite deducts_length; congruence). by rewrite deducts_compose.
    - f_equal. apply deducts_ext. intros k _. f_equal. lia. }
  rewrite bind_ok, addTransactions_deducts; [by rewrite deducts_compose|done| | |].
  - unfold eight. by rewrite deducts_length.
  - apply deducts_canon.
  - intros a Ha. destruct (coh_heap _ _ Hc a Ha) as (tc & ? & ? & _). eauto.
Qed.

(** C28: the cached sums agree with a recomputation.  Once every transaction of
    the batch is booked, the counters that [CombineCollectors] reads off the
    caches are those that [CombineCollectorsNoChanges] then adds up from the
    transactions themselves, with the cost of the started blocks taken off.  The
    batch level data are in both sums: [CombineCollectors] leaves its collector of
    them in the batch, and [CombineCollectorsNoChanges] adds it, although the comment
    above it says that it does not.  Only while there is no collector yet, before the
    first [CombineCollectors], does it leave them out, and its result then lacks
    exactly their counters. *)
Theorem batch_cache_is_recomputation h lvl fork red u addon w flags verify :
  config_ok (batch (start h lvl fork red u addon)) ->
  rtc step (start h lvl fork red u addon, []) (w, flags) ->
  Forall (fun f => f = true) flags ->
  exists cs w' cs' level, CombineCollectors verify w = Ok (cs, w') /\
    CombineCollectorsNoChanges w' = Ok cs' /\
    cs = deducts (fun k => blockCount (batch w) *
           (used_at (counters (changeBlockCounters (batch w))) k
            + used_at (counters (changeL2BlockCounters (batch w) verify)) k)) cs' /\
    l2DataCollector (batch w') = Some level /\
    (l2DataCollector (batch w) = None ->
       exists cs0, CombineCollectorsNoChanges w = Ok cs0 /\ cs' = deducts (used_at (counters level)) cs0).
Proof.
  intros Hcfg Hrun Hall. destruct (run_from_start _ _ _ _ _ _ _ _ Hcfg Hrun) as (Hc & _).
  destruct (CombineCollectors_closed verify w flags Hc) as (h' & Heq & Hhe & Hc').
  do 3 eexists. exists (l2Counters w). split; [exact Heq|]. split.
  { eapply NoChanges_deducts; [exact Hc'|]. intros cc [= <-]. apply l2Counters_eight. }
  unfold l2_at at 1. cbn [batch heap set_l2DataCollector transactions b_unlimited b_forkId l2DataCollector]. split; [|split; [done|intros Hnone]].
  - rewrite deducts_compose. apply deducts_ext. intros k _. f_equal. unfold batch_total.
    change (addon_at (set_l2DataCollector _ (batch w)) k) with (addon_at (batch w) k).
    rewrite booked_all by (done || apply (coh_len _ _ Hc)).
    rewrite !(sum_used_eqv _ (heap w) h') by (apply _ || done).
    generalize (used_at (counters (changeBlockCounters (batch w))) k)
      (used_at (counters (changeL2BlockCounters (batch w) verify)) k)
      (used_at (counters (l2Counters w)) k). intros. lia.
  - eexists. split; [eapply NoChanges_deducts; [exact Hc|]; intros cc; by rewrite Hnone|].
    rewrite deducts_compose. apply deducts_ext. intros k _. f_equal. unfold l2_at. rewrite Hnone.
    change (addon_at (set_l2DataCollector _ (batch w)) k) with (addon_at (batch w) k).
    rewrite !(sum_used_eqv _ (heap w) h') by (apply _ || done). cbn [l2DataCollector set_l2DataCollector].
    generalize (used_at (counters (l2Counters w)) k). intros. lia.
Qed.

Lemma deducts_overflow tot base :
  Forall (fun a => 0 < a < 2 ^ 26) (map remaining base) ->
  (forall k, (k < length base)%nat -> 0 <= tot k < 2 ^ 62) ->
  existsb (fun c => remaining c <? 0) (deducts tot base) = true <->
  exists k limit, map remaining base !! k = Some limit /\ limit < tot k.
Proof.
  intros Hr Hb. rewrite existsb_exists. unfold deducts. split.
  - intros (c & Hin & Hlt). apply list_elem_of_In, list_elem_of_lookup in Hin as [k Hk].
    rewrite list_lookup_imap in Hk. destruct (base !! k) as [c0|] eqn:E; [|done]. simplify_eq/=.
    exists k, (remaining c0). assert (map remaining base !! k = Some (remaining c0)) as Hm
      by (rewrite list_lookup_fmap, E; done).
    split; [done|]. pose proof (Forall_lookup_1 _ _ _ _ Hr Hm). simpl in *.
    specialize (Hb k (lookup_lt_Some _ _ _ E)). rewrite i64_small in Hlt by lia. lia.
  - intros (k & limit & Hm & Hlt). pose proof (Forall_lookup_1 _ _ _ _ Hr Hm). simpl in *.
    rewrite list_lookup_fmap in Hm. destruct (base !! k) as [c0|] eqn:E; [|done]. simplify_eq/=.
    exists (deduct_counter (tot k) c0). split.
    + apply list_elem_of_In, list_elem_of_lookup. exists k. by rewrite list_lookup_imap, E.
    + specialize (Hb k (lookup_lt_Some _ _ _ E)). simpl. rewrite i64_small by lia. lia.
Qed.

(** C26: the overflow check is exact.  After any run of a limited batch whose sums
    are below 2^62, [CheckForOverflow] succeeds and reports an overflow exactly
    if for some counter the sum exceeds the limit of the fork. *)
Theorem overflow_check_exact h lvl fork red addon w flags verify :
  config_ok (batch (start h lvl fork red false addon)) ->
  rtc step (start h lvl fork red false addon, []) (w, flags) ->
  (forall k, (k < CounterTypesCount)%nat ->
     0 <= addon_used addon k + batch_total verify w flags k < 2 ^ 62) ->
  exists r w', CheckForOverflow verify w = Ok (r, w') /\
    (r = true <-> exists k limit, exactLimits fork !! k = Some limit /\
       limit < addon_used addon k + batch_total verify w flags k).
Proof.
  intros Hcfg Hrun. destruct (run_from_start _ _ _ _ _ _ _ _ Hcfg Hrun) as (Hc & Hu & <- & <-).
  intros Hb. destruct (CombineCollectors_closed verify w flags Hc) as (h' & Heq & _).
  unfold CheckForOverflow. rewrite Hu, Heq, bind_ok. cbn [fst snd]. do 2 eexists; split; [done|].
  unfold NewBatchCounters. rewrite Hu.
  destruct (NewCounterCollector_fresh 0 (b_forkId (batch w))) as [Hlim _].
  pose proof (exactLimits_range (b_forkId (batch w))) as Hrange.
  pose proof (fresh_eight 0 (b_forkId (batch w))) as Hl8.
  cbn [counters NewCounterCollector] in Hlim, Hl8. rewrite <- Hlim in *.
  apply deducts_overflow; [done|]. intros k Hk. apply Hb. by rewrite <- Hl8.
Qed.

Lemma minus_plus_used src dst : length src = length dst -> Forall canon dst ->
  rangeInto plus_used src dst ≫= rangeInto minus_used src = Ok dst.
Proof.
  intros Hl Hc. rewrite rangeInto_imap, bind_ok, rangeInto_imap by (rewrite ?length_imap; done).
  f_equal. apply list_eq. intros i. rewrite !list_lookup_imap.
  destruct (dst !! i) as [c|] eqn:E; simpl; [|done]. f_equal.
  destruct (Forall_lookup_1 _ _ _ _ Hc E) as [_ Hu]. destruct c as [rm us nm ini].
  unfold minus_used, plus_used, set_used. simpl in *. f_equal.
  replace (i64 (us + used_at src i) - used_at src i)
    with (i64 (us + used_at src i) + - used_at src i) by lia.
  rewrite i64_i64_add. rewrite <- Hu at 2. f_equal. lia.
Qed.

Lemma minus_zero src dst : length src = length dst -> Forall canon dst ->
  (forall k, used_at src k = 0) -> rangeInto minus_used src dst = Ok dst.
Proof.
  intros Hl Hc Hz. rewrite rangeInto_imap by done. f_equal. apply list_eq. intros i.
  rewrite list_lookup_imap. destruct (dst !! i) as [c|] eqn:E; simpl; [|done]. f_equal.
  destruct (Forall_lookup_1 _ _ _ _ Hc E) as [_ Hu]. destruct c.
  unfold minus_used, set_used. rewrite Hz, Z.sub_0_r. simpl in *. by rewrite Hu.
Qed.

(** The overflow check leaves all of the batch but the batch level data. *)
Lemma CheckForOverflow_batch verify w flags r w' :
  coherent w flags -> CheckForOverflow verify w = Ok (r, w') ->
  exists l2, batch w' = set_l2DataCollector l2 (batch w) /\ heap_eqv (heap w) (heap w').
Proof.
  intros Hc. unfold CheckForOverflow. destruct (b_unlimited (batch w)).
  { intros [= <- <-]. exists (l2DataCollector (batch w)). split; [by destruct (batch w)|reflexivity]. }
  destruct (CombineCollectors_closed verify w flags Hc) as (h' & -> & Heq & _).
  rewrite bind_ok. intros [= _ <-]. eauto.
Qed.

Lemma CheckForOverflow_total verify w flags : coherent w flags ->
  exists r w', CheckForOverflow verify w = Ok (r, w').
Proof.
  intros Hc. unfold CheckForOverflow. destruct (b_unlimited _); [eauto|].
  destruct (CombineCollectors_closed verify w flags Hc) as (h' & -> & _). rewrite bind_ok. eauto.
Qed.

(** Removing undoes adding.  After any run, adding a transaction that has not
    executed succeeds whether or not it overflows the batch, and
    [RemovePreviousTransactionCounters] then succeeds and puts back the
    transactions, the block count and the three caches. *)
Theorem remove_undoes_add h lvl fork red u addon w flags a tc :
  config_ok (batch (start h lvl fork red u addon)) ->
  rtc step (start h lvl fork red u addon, []) (w, flags) ->
  a ∉ transactions (batch w) -> heap w !! a = Some tc -> tc_shape tc -> tc_ok tc ->
  (forall k, used_at (counters (executionCounters tc)) k = 0 /\
             used_at (counters (processingCounters tc)) k = 0) ->
  exists r w1 w2, AddNewTransactionCounters a w = Ok (r, w1) /\
    transactions (batch w1) = transactions (batch w) ++ [a] /\
    RemovePreviousTransactionCounters w1 = Ok w2 /\
    set_l2DataCollector None (batch w2) = set_l2DataCollector None (batch w).
Proof.
  intros Hcfg Hrun Ha Htc Hsh Hok Hz. destruct (run_from_start _ _ _ _ _ _ _ _ Hcfg Hrun) as (Hc & _).
  destruct (add_split a w flags Ha ltac:(eauto) Hc)
    as (t & tc1 & rc & Ht & HE & HP & (S1 & S2 & S3) & Hrc & Hadd & Hc1). simplify_eq.
  destruct (CheckForOverflow_total false _ _ Hc1) as (r & w1 & Hck).
  destruct (CheckForOverflow_batch _ _ _ _ _ Hc1 Hck) as (l2 & Hb & Hhe).
  destruct (coh_rlp _ _ Hc) as (R1 & R2 & _), (coh_exec _ _ Hc) as (X1 & X2 & _),
    (coh_proc _ _ Hc) as (P1 & P2 & _). unfold eight in *.
  pose proof (minus_plus_used (counters (rlpCounters tc1)) (rlpCombined (batch w))
    ltac:(congruence) R2) as Hm1. rewrite Hrc, bind_ok in Hm1.
  pose proof (minus_zero (counters (executionCounters tc1)) (executionCombined (batch w))
    ltac:(congruence) X2 ltac:(rewrite HE; apply Hz)) as Hm2.
  pose proof (minus_zero (counters (processingCounters tc1)) (processingCombined (batch w))
    ltac:(congruence) P2 ltac:(rewrite HP; apply Hz)) as Hm3.
  exists r, w1. eexists. split; [by rewrite Hadd|]. rewrite Hb. split; [done|].
  pose proof (Hhe a) as Hha. cbn [heap] in Hha. rewrite lookup_insert_eq in Hha.
  inversion Hha as [? tc2 (_ & E1 & E2 & E3 & _) Etc1 Etc2|]; subst. symmetry in Etc2. clear Hha.
  split.
  - unfold RemovePreviousTransactionCounters, UndoTransactionCountersCache. rewrite Hb.
    cbn [batch transactions set_l2DataCollector set_caches set_transactions rlpCombined
      executionCombined processingCombined].
    rewrite length_app. cbn [length].
    rewrite (index_at _ (transactions (batch w)) [] a), bind_ok by (done || lia).
    unfold deref. rewrite Etc2, bind_ok, <- E1, <- E2, <- E3, Hm1, bind_ok, Hm2, bind_ok, Hm3, !bind_ok.
    cbn [batch transactions set_l2DataCollector set_caches set_transactions].
    rewrite length_app. cbn [length].
    rewrite (slice_at _ [] (transactions (batch w)) [a]), bind_ok by (rewrite ?length_app; simpl; done || lia).
    reflexivity.
  - cbn [batch]. by destruct (batch w).
Qed.

(** Assigning into the empty slice panics, whatever follows. *)
Lemma Counters_Clone_panics cs :
  Counters_Clone cs = match cs with [] => Ok [] | _ :: _ => Panic end.
Proof.
  destruct cs as [|c cs]; [done|]. unfold Counters_Clone. cbn [imap foldl].
  rewrite bind_ok. change (store [] (fst (0%nat, c)) _) with (@Panic Counters).
  generalize (imap (pair ∘ S) cs). intros l. induction l as [|kv l IH]; [done|].
  cbn [foldl]. rewrite bind_panic. exact IH.
Qed.

(** Batches cannot be cloned.  After any run, [Batch_Clone] panics: the
    clones of the counters are assigned into a slice of length zero. *)
Theorem batch_clone_panics h lvl fork red u addon w flags fresh :
  config_ok (batch (start h lvl fork red u addon)) ->
  rtc step (start h lvl fork red u addon, []) (w, flags) ->
  Batch_Clone fresh w = Panic.
Proof.
  intros Hcfg Hrun. destruct (run_from_start _ _ _ _ _ _ _ _ Hcfg Hrun) as (Hc & _).
  destruct (coh_rlp _ _ Hc) as (R1 & _). pose proof (coh_heap _ _ Hc) as Hh. unfold Batch_Clone.
  destruct (transactions (batch w)) as [|a txs]; cbn [cloneTransactions].
  - rewrite bind_ok, (Counters_Clone_panics (rlpCombined _)).
    destruct (rlpCombined (batch w)); [discriminate R1|].
    destruct (l2DataCollector (batch w)) as [cc|]; [|by rewrite bind_ok, bind_panic].
    unfold Collector_Clone. rewrite (Counters_Clone_panics (counters cc)).
    destruct (counters cc); [by rewrite !bind_ok, bind_panic|by rewrite !bind_panic].
  - destruct (Hh a) as (tc & Htc & (S1 & _) & _); [by left|]. unfold deref. rewrite Htc, bind_ok.
    unfold TransactionCounter_Clone, Collector_Clone. rewrite (Counters_Clone_panics (counters (rlpCounters tc))).
    destruct (counters (rlpCounters tc)); [discriminate S1|]. by rewrite !bind_panic.
Qed.

(** ** A run

    One transaction in one block: the block starts, the transaction is added,
    executes and is booked. *)
Definition world_of (r : outcome (bool * World)) (w : World) : World :=
  match r with Ok (_, w') => w' | _ => w end.

Definition example_start : World := start ∅ 80 13 (of_int 1) false None.
Definition example_new : World := mkWorld (<[0%nat := example_tc]> ∅) (batch example_start).
Definition example_block : World := world_of (StartNewBlock false example_new) example_new.
Definition example_added : World := world_of (AddNewTransactionCounters 0 example_block) example_block.
Definition example_executed : World :=
  match heap example_added !! 0%nat with
  | Some tc => mkWorld (<[0%nat := ProcessTx (fun _ => 100) []
      (mkTC (tc_transaction tc) (rlpCounters tc) (divArith (executionCounters tc)) (processingCounters tc)
         (tc_smtLevels tc) (tc_forkId tc) (l2DataCache tc))]> (heap example_added)) (batch example_added)
  | None => example_added
  end.
Definition example_booked : World :=
  match heap example_executed !! 0%nat with
  | Some tc => match UpdateExecutionAndProcessingCountersCache tc (batch example_executed) with
               | Ok b => mkWorld (heap example_executed) b | _ => example_executed end
  | None => example_executed
  end.

Lemma example_config : config_ok (batch example_start).
Proof. vm_compute. intuition discriminate. Qed.

Lemma example_tc_shape : tc_shape example_tc.
Proof. split; [|split]; apply fresh_eight. Qed.

Lemma example_run_block : rtc step (example_start, []) (example_block, []).
Proof.
  eapply rtc_l; [apply (step_new 0 example_tc example_start []);
    [apply not_elem_of_nil|apply example_tc_shape|apply example_tc_ok]|].
  apply rtc_once. apply (step_block false example_new [] false); vm_compute; reflexivity.
Qed.

Lemma example_run : rtc step (example_start, []) (example_booked, [true]).
Proof.
  etrans; [exact example_run_block|].
  assert (step (example_block, []) (example_added, [false])) as H1.
  { apply (step_add 0 example_block [] false example_added); [| |vm_compute; reflexivity].
    - assert (transactions (batch example_block) = []) as -> by (vm_compute; reflexivity).
      apply not_elem_of_nil.
    - exists example_tc. split; [vm_compute; reflexivity|].
      split; [apply example_tc_shape|apply example_tc_ok]. }
  set (tc := match heap example_added !! 0%nat with Some tc => tc | None => example_tc end).
  assert (step (example_added, [false]) (example_executed, [false])) as H2.
  { assert (heap example_added !! 0%nat = Some tc) as Htc by (vm_compute; reflexivity).
    unfold example_executed. rewrite Htc.
    apply (step_execute 0 0 tc (divArith (executionCounters tc)) (fun _ => 100) []
      example_added [false]); vm_compute; reflexivity. }
  set (tc' := match heap example_executed !! 0%nat with Some tc => tc | None => example_tc end).
  assert (step (example_executed, [false]) (example_booked, [true])) as H3.
  { assert (example_booked = mkWorld (heap example_executed) (batch example_booked)) as ->
      by (vm_compute; reflexivity).
    apply (step_book 0 0 tc' example_executed [false] (batch example_booked)); vm_compute; reflexivity. }
  eapply rtc_l; [exact H1|]. eapply rtc_l; [exact H2|]. apply rtc_once. exact H3.
Qed.

Lemma batch_combine_exact_witness :
  length (transactions (batch example_booked)) = 1%nat /\ blockCount (batch example_booked) = 1 /\
  exists w', CombineCollectors false example_booked =
    Ok (deducts (fun k => addon_used None k + batch_total false example_booked [true] k)
          (NewBatchCounters false 13), w').
Proof.
  split; [vm_compute; reflexivity|]. split; [vm_compute; reflexivity|].
  exact (batch_combine_exact ∅ 80 13 (of_int 1) false None example_booked [true] false
           example_config example_run).
Defined.

(** With a booked transaction, and at the start, when there is no collector yet. *)
Lemma batch_cache_is_recomputation_witness :
  (exists cs w' cs', CombineCollectors false example_booked = Ok (cs, w') /\
    CombineCollectorsNoChanges w' = Ok cs' /\
    cs = deducts (fun k => blockCount (batch example_booked) *
           (used_at (counters (changeBlockCounters (batch example_booked))) k
            + used_at (counters (changeL2BlockCounters (batch example_booked) false)) k)) cs') /\
  let w := start ∅ 80 13 (of_int 1) false None in
  exists cs w' cs' level cs0, CombineCollectors false w = Ok (cs, w') /\ CombineCollectorsNoChanges w' = Ok cs' /\
    CombineCollectorsNoChanges w = Ok cs0 /\ cs' = deducts (used_at (counters level)) cs0.
Proof.
  split.
  - destruct (batch_cache_is_recomputation ∅ 80 13 (of_int 1) false None example_booked [true] false
      example_config example_run (proj2 (Forall_singleton _ _) eq_refl)) as (cs & w' & cs' & level & H1 & H2 & H3 & _).
    exists cs, w', cs'. exact (conj H1 (conj H2 H3)).
  - destruct (batch_cache_is_recomputation ∅ 80 13 (of_int 1) false None (start ∅ 80 13 (of_int 1) false None) [] false
      example_config (rtc_refl _ _) (proj2 (Forall_nil _) I)) as (cs & w' & cs' & level & H1 & H2 & _ & _ & H5).
    destruct (H5 eq_refl) as (cs0 & H6 & H7). exists cs, w', cs', level, cs0. exact (conj H1 (conj H2 (conj H6 H7))).
Defined.

Lemma overflow_check_exact_witness :
  exists r w', CheckForOverflow false example_booked = Ok (r, w') /\
    (r = true <-> exists k limit, exactLimits 13 !! k = Some limit /\
       limit < addon_used None k + batch_total false example_booked [true] k).
Proof.
  apply (overflow_check_exact ∅ 80 13 (of_int 1) None example_booked [true] false
           example_config example_run).
  intros k Hk. do 8 (destruct k as [|k]; [vm_compute; split; [discriminate|reflexivity]|]).
  exfalso. unfold CounterTypesCount in Hk. lia.
Defined.

Lemma remove_undoes_add_witness :
  exists r w1 w2, AddNewTransactionCounters 0 example_block = Ok (r, w1) /\
    transactions (batch w1) = transactions (batch example_block) ++ [0%nat] /\
    RemovePreviousTransactionCounters w1 = Ok w2 /\
    set_l2DataCollector None (batch w2) = set_l2DataCollector None (batch example_block).
Proof.
  apply (remove_undoes_add ∅ 80 13 (of_int 1) false None example_block [] 0 example_tc
           example_config example_run_block).
  - assert (transactions (batch example_block) = []) as -> by (vm_compute; reflexivity).
    apply not_elem_of_nil.
  - vm_compute. reflexivity.
  - exact example_tc_shape.
  - exact example_tc_ok.
  - intros k. do 8 (destruct k as [|k]; [vm_compute; split; reflexivity|]). vm_compute. split; reflexivity.
Defined.

Lemma batch_clone_panics_witness : Batch_Clone 1 example_booked = Panic.
Proof.
  exact (batch_clone_panics ∅ 80 13 (of_int 1) false None example_booked [true] 1
           example_config example_run).
Defined.
