(* ===== verification/L1InfoTree.v ===== *)
(** * The L1 info tree (zk/l1infotree/tree.go, hash.go)

    An append-only Merkle tree of fixed height over the L1 info leaves.  It is
    kept as the siblings of the next free leaf ([AddLeaf]), and can be computed
    from all leaves ([BuildL1InfoRoot], [ComputeMerkleProof]).  The specification
    is the tree over infinitely many leaves, zero beyond the given ones: both
    ways of computing the root give its node at the top, every proof leads from
    its leaf to that root, and the incremental tree keeps, through any sequence of
    additions, exactly the state a tree built from all the leaves has.

    A [[32]byte] is the number its bytes write.  Keccak is a parameter; nothing is
    assumed about it. *)
From S2P Require Import Prelude Float64 Bytes.

Section tree.
Context (keccak256 : list Z -> Z).

(** ** Hashes (hash.go) *)

Definition Hash (data : list Z) : Z := keccak256 (concat (map (be_encode 32) data)).

(** [for i := 1; i <= height; i++ { zeroHashes = append(zeroHashes, ...) }] *)
Definition zeroStep (acc : outcome (list Z)) (i : nat) : outcome (list Z) :=
  zeroHashes ← acc;
  z ← index zeroHashes (Z.of_nat i - 1);
  Ok (zeroHashes ++ [Hash [z; z]]).

Definition generateZeroHashes (height : Z) : outcome (list Z) :=
  foldl zeroStep (Ok [0]) (seq 1 (Z.to_nat height)).

Definition HashLeafData (ger prevBlockHash minTimestamp : Z) : Z :=
  keccak256 (be_encode 32 ger ++ be_encode 32 prevBlockHash ++ be_encode 8 minTimestamp).

(** ** The tree (tree.go) *)

Record L1InfoTree := mkTree {
  height : Z;
  zeroHashes : list Z;
  count : Z;
  siblings : list Z;
  currentRoot : Z;
  allLeaves : gset Z;
}.

(** [leaves[right]] panics on an odd number of leaves. *)
Fixpoint buildIntermediate (leaves : list Z) : outcome (list (list Z) * list Z) :=
  match leaves with
  | [] => Ok ([], [])
  | [_] => Panic
  | l :: r :: rest =>
      nh ← buildIntermediate rest;
      let '(nodes, hashes) := nh : list (list Z) * list Z in
      let hash := Hash [l; r] in
      Ok ([hash; l; r] :: nodes, hash :: hashes)
  end.

(** [if len(leaves)%2 == 1 { leaves = append(leaves, mt.zeroHashes[h]) }] *)
Definition padLevel (zeros : list Z) (h : nat) (leaves : list Z) : outcome (list Z) :=
  if Z.of_nat (length leaves) mod 2 =? 1 then
    z ← index zeros (Z.of_nat h); Ok (leaves ++ [z])
  else Ok leaves.

Definition firstLeaf (zeros leaves : list Z) : outcome (list Z) :=
  match leaves with
  | [] => z ← index zeros 0; Ok [z]
  | _ :: _ => Ok leaves
  end.

(** The last level's nodes must be one: its hash is the root. *)
Definition oneRoot (ns : list (list Z)) : outcome Z :=
  if negb (Z.of_nat (length ns) =? 1) then Err "error: more than one root detected"
  else n ← index ns 0; index n 0.

Definition rootLevel (zeros : list Z) (acc : outcome (list (list Z) * list Z)) (h : nat)
    : outcome (list (list Z) * list Z) :=
  st ← acc;
  leaves ← padLevel zeros h (snd st);
  buildIntermediate leaves.

Definition BuildL1InfoRoot (mt : L1InfoTree) (leaves : list Z) : outcome Z :=
  leaves ← firstLeaf (zeroHashes mt) leaves;
  st ← foldl (rootLevel (zeroHashes mt)) (Ok ([], leaves)) (seq 0 (Z.to_nat (height mt)));
  oneRoot (fst st).

(** The variables of the loop of [ComputeMerkleProof]. *)
Record ProofState := mkProof {
  p_ns : list (list Z);
  p_leaves : list Z;
  p_siblings : list Z;
  p_index : Z;
}.

(** [uint32(float64(index) / 2)] truncates the float64 quotient. *)
Definition proofLevel (zeros : list Z) (acc : outcome ProofState) (h : nat) : outcome ProofState :=
  st ← acc;
  leaves ← padLevel zeros h (p_leaves st);
  let idx := p_index st in
  sibling ← (if u32 (Z.of_nat (length leaves)) <=? idx then index zeros (Z.of_nat h)
             else if idx mod 2 =? 1 then index leaves (u32 (idx - 1))
             else index leaves (u32 (idx + 1))) : outcome Z;
  nh ← buildIntermediate leaves;
  let '(nsi, hashes) := nh : list (list Z) * list Z in
  Ok (mkProof nsi hashes (p_siblings st ++ [sibling]) (u32 (floor_div_f idx 2))).

Definition ComputeMerkleProof (mt : L1InfoTree) (gerIndex : Z) (leaves : list Z)
    : outcome (list Z * Z) :=
  leaves ← firstLeaf (zeroHashes mt) leaves;
  st ← foldl (proofLevel (zeroHashes mt)) (Ok (mkProof [] leaves [] gerIndex))
         (seq 0 (Z.to_nat (height mt)));
  root ← oneRoot (p_ns st);
  Ok (p_siblings st, root).

Definition initSiblings (mt : L1InfoTree) (initialLeaves : list Z) : outcome (list Z * Z) :=
  if negb (count mt =? u32 (Z.of_nat (length initialLeaves)))
  then Err "error: mt.count and initialLeaves length mismatch"
  else if count mt =? 0 then
    sibs ← mapM (fun h => index (zeroHashes mt) (Z.of_nat h)) (seq 0 (Z.to_nat (height mt)));
    root ← BuildL1InfoRoot mt initialLeaves;
    Ok (sibs, root)
  else ComputeMerkleProof mt (count mt) initialLeaves.

Definition NewL1InfoTree (h : Z) (initialLeaves : list Z) : outcome L1InfoTree :=
  zeros ← generateZeroHashes h;
  let mt := mkTree h zeros (u32 (Z.of_nat (length initialLeaves))) [] 0 ∅ in
  sr ← initSiblings mt initialLeaves;
  let '(sibs, root) := sr : list Z * Z in
  Ok (mkTree h zeros (count mt) sibs root (list_to_set initialLeaves)).

(** The receiver is not used: the new tree always has height 32. *)
Definition ResetL1InfoTree (mt : L1InfoTree) (initialLeaves : list Z) : outcome L1InfoTree :=
  NewL1InfoTree 32 initialLeaves.

(** The variables of the loop of [AddLeaf], with the siblings it writes to. *)
Record AddState := mkAdd {
  a_cur : Z;
  a_filled : bool;
  a_siblings : list Z;
}.

(** [index&(1<<h) > 0] on [uint32]s: a shift of 32 and more gives zero. *)
Definition bitSet (idx : Z) (h : nat) : bool := 0 <? Z.land idx (u32 (Z.shiftl 1 (Z.of_nat h))).

Definition addLevel (zeros : list Z) (idx : Z) (acc : outcome AddState) (h : nat) : outcome AddState :=
  st ← acc;
  if bitSet idx h then
    s ← index (a_siblings st) (Z.of_nat h);
    Ok (mkAdd (Hash [s; a_cur st]) (a_filled st) (a_siblings st))
  else
    sibs ← (if a_filled st then store (a_siblings st) h (a_cur st) else Ok (a_siblings st))
           : outcome (list Z);
    z ← index zeros (Z.of_nat h);
    Ok (mkAdd (Hash [a_cur st; z]) false sibs).

Definition AddLeaf (mt : L1InfoTree) (idx leaf : Z) : outcome (Z * L1InfoTree) :=
  if negb (idx =? count mt) then Err "mismatched leaf count"
  else
    st ← foldl (addLevel (zeroHashes mt) idx) (Ok (mkAdd leaf true (siblings mt)))
           (seq 0 (Z.to_nat (height mt)));
    Ok (a_cur st, mkTree (height mt) (zeroHashes mt) (u32 (count mt + 1)) (a_siblings st)
                    (a_cur st) ({[leaf]} ∪ allLeaves mt)).

Definition LeafExists (mt : L1InfoTree) (leaf : Z) : bool := bool_decide (leaf ∈ allLeaves mt).

Definition GetCurrentRootCountAndSiblings (mt : L1InfoTree) : Z * Z * list Z :=
  (currentRoot mt, count mt, siblings mt).

(** ** The specification: a tree over all positions *)

Definition leafAt (ls : list Z) (i : Z) : Z := default 0 (ls !! Z.to_nat i).

Fixpoint node (ls : list Z) (h : nat) (i : Z) : Z :=
  match h with
  | O => leafAt ls i
  | S h => Hash [node ls h (2 * i); node ls h (2 * i + 1)]
  end.

Definition merkleRoot (ls : list Z) (h : nat) : Z := node ls h 0.

Fixpoint zeroAt (h : nat) : Z :=
  match h with O => 0 | S h => Hash [zeroAt h; zeroAt h] end.

(** The position next to [i] under the same parent. *)
Definition siblingOf (i : Z) : Z := if i mod 2 =? 1 then i - 1 else i + 1.

(** What a verifier does with a proof: hash from the leaf to the root, on the
    side each bit of the position says. *)
Fixpoint rootFromProof (i cur : Z) (proof : list Z) : Z :=
  match proof with
  | [] => cur
  | s :: proof => rootFromProof (i / 2) (if i mod 2 =? 1 then Hash [s; cur] else Hash [cur; s]) proof
  end.

Lemma pow_S h : 2 ^ Z.of_nat (S h) = 2 * 2 ^ Z.of_nat h.
Proof. rewrite Nat2Z.inj_succ, Z.pow_succ_r by lia. done. Qed.

Lemma node_ext ls ls' h : forall i,
  (forall j, i * 2 ^ Z.of_nat h <= j < (i + 1) * 2 ^ Z.of_nat h -> leafAt ls j = leafAt ls' j) ->
  node ls h i = node ls' h i.
Proof.
  induction h as [|h IH]; intros i H; simpl; [apply H; simpl; lia|].
  rewrite pow_S in H. rewrite !IH; [done|..]; intros j Hj; apply H; lia.
Qed.

Lemma node_zero ls h : forall i,
  (forall j, i * 2 ^ Z.of_nat h <= j < (i + 1) * 2 ^ Z.of_nat h -> leafAt ls j = 0) ->
  node ls h i = zeroAt h.
Proof.
  induction h as [|h IH]; intros i H; simpl; [apply H; simpl; lia|].
  rewrite pow_S in H. rewrite !IH; [done|..]; intros j Hj; apply H; lia.
Qed.

Lemma leafAt_beyond ls j : Z.of_nat (length ls) <= j -> leafAt ls j = 0.
Proof. intros H. unfold leafAt. by rewrite lookup_ge_None_2 by lia. Qed.

Lemma leafAt_app ls ls' j : 0 <= j < Z.of_nat (length ls) -> leafAt (ls ++ ls') j = leafAt ls j.
Proof. intros H. unfold leafAt. by rewrite lookup_app_l by lia. Qed.

Lemma node_beyond ls h i : Z.of_nat (length ls) <= i * 2 ^ Z.of_nat h -> node ls h i = zeroAt h.
Proof. intros H. apply node_zero. intros j Hj. apply leafAt_beyond. lia. Qed.

Lemma node_app ls ls' h i : 0 <= i -> (i + 1) * 2 ^ Z.of_nat h <= Z.of_nat (length ls) ->
  node (ls ++ ls') h i = node ls h i.
Proof. intros Hi H. apply node_ext. intros j Hj. apply leafAt_app. nia. Qed.

(** ** Zero hashes *)

Definition zeros_of (n : nat) : list Z := map zeroAt (seq 0 (S n)).

Lemma generateZeroHashes_ok H : generateZeroHashes H = Ok (zeros_of (Z.to_nat H)).
Proof.
  unfold generateZeroHashes. generalize (Z.to_nat H). intros n.
  induction n as [|n IH]; [done|]. rewrite seq_S, foldl_app, IH. cbn [foldl].
  unfold zeroStep. rewrite bind_ok. unfold zeros_of.
  rewrite (index_at _ (map zeroAt (seq 0 n)) [] (zeroAt n)), bind_ok.
  - rewrite (seq_S (S n)), map_app. done.
  - by rewrite seq_S, map_app.
  - rewrite length_map, length_seq. lia.
Qed.

Lemma index_zeros n h : (h <= n)%nat -> index (zeros_of n) (Z.of_nat h) = Ok (zeroAt h).
Proof.
  intros Hh. unfold index, zeros_of. rewrite decide_True, Nat2Z.id, list_lookup_fmap by lia.
  by rewrite lookup_seq_lt by lia.
Qed.

(** ** Building a level *)

(** A list of nodes holds the level [h] of the tree over [ls]. *)
Definition level (ls : list Z) (h : nat) (L : list Z) : Prop :=
  forall i, 0 <= i -> default (zeroAt h) (L !! Z.to_nat i) = node ls h i.

(** It is as short as the leaves allow, but never empty. *)
Definition tight (ls : list Z) (h : nat) (L : list Z) : Prop :=
  let n := Z.max 1 (Z.of_nat (length ls)) in
  0 < Z.of_nat (length L) /\ (Z.of_nat (length L) - 1) * 2 ^ Z.of_nat h < n <= Z.of_nat (length L) * 2 ^ Z.of_nat h.

Lemma buildIntermediate_ok k : forall L, length L = (2 * k)%nat ->
  exists ns L', buildIntermediate L = Ok (ns, L') /\ length L' = k /\
    Forall2 (fun n x => exists l, n = x :: l) ns L' /\
    forall i, (i < k)%nat -> exists a b, L !! (2 * i)%nat = Some a /\ L !! (2 * i + 1)%nat = Some b /\
      L' !! i = Some (Hash [a; b]).
Proof.
  induction k as [|k IH]; intros L HL.
  { destruct L; [|discriminate HL]. exists [], []. split; [done|]. split; [done|].
    split; [constructor|]. lia. }
  destruct L as [|a [|b L]]; simpl in HL; [lia..|].
  destruct (IH L) as (ns & L' & Heq & Hl & Hns & Hi); [lia|].
  simpl. rewrite Heq, bind_ok. do 2 eexists. split; [done|]. split; [simpl; lia|].
  split; [constructor; eauto|]. intros [|i] Hlt; [by exists a, b|].
  destruct (Hi i) as (x & y & Hx & Hy & Hxy); [lia|]. exists x, y.
  replace (S i + (S i + 0))%nat with (S (S (2 * i))) by lia.
  replace (S (S (2 * i)) + 1)%nat with (S (S (2 * i + 1))) by lia.
  cbn [lookup list_lookup]. by split_and!.
Qed.

Lemma level_next ls h k L L' : level ls h L -> length L = (2 * k)%nat -> length L' = k ->
  (forall i, (i < k)%nat -> exists a b, L !! (2 * i)%nat = Some a /\ L !! (2 * i + 1)%nat = Some b /\
     L' !! i = Some (Hash [a; b])) -> level ls (S h) L'.
Proof.
  intros Hlv HL HL' Hi i Hpos. simpl.
  rewrite <- (Hlv (2 * i)), <- (Hlv (2 * i + 1)) by lia.
  rewrite Z2Nat.inj_add, Z2Nat.inj_mul by lia. change (Z.to_nat 2) with 2%nat. change (Z.to_nat 1) with 1%nat.
  destruct (decide (Z.to_nat i < k)%nat) as [Hlt|Hge].
  - destruct (Hi _ Hlt) as (a & b & -> & -> & ->). done.
  - rewrite !lookup_ge_None_2 by lia. done.
Qed.

(** Padding keeps what the list holds and makes its length even. *)
Lemma padLevel_ok ls n h L : (h <= n)%nat -> level ls h L -> tight ls h L ->
  exists k L', padLevel (zeros_of n) h L = Ok L' /\ level ls h L' /\ length L' = (2 * k)%nat /\
    Z.of_nat (length L) <= 2 * Z.of_nat k <= Z.of_nat (length L) + 1.
Proof.
  intros Hn Hlv [Hpos _]. unfold padLevel.
  pose proof (Z.div_mod (Z.of_nat (length L)) 2 ltac:(lia)) as Hdm.
  pose proof (Z.mod_pos_bound (Z.of_nat (length L)) 2 ltac:(lia)).
  destruct (Z.eqb_spec (Z.of_nat (length L) mod 2) 1) as [Hodd|Heven].
  - rewrite index_zeros, bind_ok by done. exists (S (Z.to_nat (Z.of_nat (length L) / 2))).
    eexists. split; [done|]. rewrite length_app. simpl. split; [|lia].
    intros i Hi. rewrite <- (Hlv i Hi). destruct (decide (Z.to_nat i < length L)%nat) as [Hlt|Hge].
    + by rewrite lookup_app_l.
    + rewrite lookup_app_r, (lookup_ge_None_2 L) by lia.
      destruct (Z.to_nat i - length L)%nat; done.
  - exists (Z.to_nat (Z.of_nat (length L) / 2)). eexists. split; [done|]. split; [done|]. lia.
Qed.

Lemma tight_next ls h k L L' : tight ls h L -> length L' = k ->
  Z.of_nat (length L) <= 2 * Z.of_nat k <= Z.of_nat (length L) + 1 -> tight ls (S h) L'.
Proof. intros [Hpos Ht] <- Hk. unfold tight. rewrite pow_S. nia. Qed.

Lemma firstLeaf_ok ls n : exists L, firstLeaf (zeros_of n) ls = Ok L /\ level ls 0 L /\ tight ls 0 L.
Proof.
  unfold firstLeaf, tight. change (2 ^ Z.of_nat 0) with 1. destruct ls as [|x ls].
  - change 0 with (Z.of_nat 0) at 1. rewrite index_zeros, bind_ok by lia. exists [zeroAt 0].
    split; [done|]. split; [|simpl; lia]. intros i Hi. simpl. by destruct (Z.to_nat i).
  - exists (x :: ls). split; [done|]. split; [|simpl length; lia]. by intros i Hi.
Qed.

Definition heads (ns : list (list Z)) (L : list Z) : Prop :=
  Forall2 (fun n x => exists l, n = x :: l) ns L.

Lemma oneRoot_ok ls n ns L : heads ns L -> level ls n L -> tight ls n L ->
  oneRoot ns = if Z.of_nat (length ls) <=? 2 ^ Z.of_nat n then Ok (merkleRoot ls n)
               else Err "error: more than one root detected".
Proof.
  intros Hh Hlv [Hpos Ht]. unfold oneRoot. rewrite (Forall2_length _ _ _ Hh).
  pose proof (Z.pow_pos_nonneg 2 (Z.of_nat n) ltac:(lia) ltac:(lia)).
  destruct (Z.eqb_spec (Z.of_nat (length L)) 1) as [H1|H1]; simpl.
  - rewrite (proj2 (Z.leb_le _ _)) by nia. pose proof (Hlv 0 ltac:(lia)) as Hl0.
    destruct L as [|x [|y L]]; [discriminate H1| |simpl in H1; lia]. inversion Hh as [|? ? ? ? [l ->]]; subst.
    unfold merkleRoot. rewrite <- Hl0. done.
  - rewrite (proj2 (Z.leb_gt _ _)) by nia. done.
Qed.

Lemma rootLoop_ok ls N L0 n : level ls 0 L0 -> tight ls 0 L0 -> (n <= N)%nat ->
  exists ns L, foldl (rootLevel (zeros_of N)) (Ok ([], L0)) (seq 0 n) = Ok (ns, L) /\
    level ls n L /\ tight ls n L /\ (n = 0%nat \/ heads ns L).
Proof.
  intros Hlv Ht. induction n as [|n IH]; intros Hn.
  { exists [], L0. split; [done|]. auto. }
  destruct IH as (ns & L & Heq & HlvL & HtL & _); [lia|].
  rewrite seq_S, foldl_app, Heq. cbn [foldl]. unfold rootLevel. rewrite bind_ok. cbn [snd Nat.add].
  destruct (padLevel_ok ls N n L) as (k & L1 & -> & Hlv1 & Hl1 & Hk); [lia|done..|]. rewrite bind_ok.
  destruct (buildIntermediate_ok k L1 Hl1) as (ns' & L' & -> & Hl' & Hh & Hi).
  exists ns', L'. split; [done|]. split; [by eapply level_next|]. split; [by eapply tight_next|].
  by right.
Qed.

(** A tree whose zero hashes are those of its height. *)
Definition zeros_ok (mt : L1InfoTree) : Prop :=
  0 < height mt /\ zeroHashes mt = zeros_of (Z.to_nat (height mt)).

Lemma BuildL1InfoRoot_spec mt ls : zeros_ok mt ->
  BuildL1InfoRoot mt ls =
    if Z.of_nat (length ls) <=? 2 ^ height mt then Ok (merkleRoot ls (Z.to_nat (height mt)))
    else Err "error: more than one root detected".
Proof.
  intros [Hpos Hz]. unfold BuildL1InfoRoot. rewrite Hz.
  destruct (firstLeaf_ok ls (Z.to_nat (height mt))) as (L0 & -> & Hlv & Ht). rewrite bind_ok.
  destruct (rootLoop_ok ls (Z.to_nat (height mt)) L0 (Z.to_nat (height mt)) Hlv Ht)
    as (ns & L & -> & HlvL & HtL & [H0|Hh]); [done|lia|].
  rewrite bind_ok. cbn [fst]. rewrite (oneRoot_ok ls _ ns L Hh HlvL HtL). by rewrite Z2Nat.id by lia.
Qed.

(** ** Proofs *)

Lemma siblingOf_level ls h L k i : level ls h L -> length L = (2 * k)%nat ->
  Z.of_nat (length L) < 2 ^ 32 -> 0 <= i < 2 ^ 32 -> forall z, index z (Z.of_nat h) = Ok (zeroAt h) ->
  (if u32 (Z.of_nat (length L)) <=? i then index z (Z.of_nat h)
   else if i mod 2 =? 1 then index L (u32 (i - 1)) else index L (u32 (i + 1))) =
  Ok (node ls h (siblingOf i)).
Proof.
  intros Hlv HL Hlt Hi z Hz. pose proof (Z.div_mod i 2 ltac:(lia)) as Hdm.
  pose proof (Z.mod_pos_bound i 2 ltac:(lia)) as Hmb.
  assert (0 <= siblingOf i /\ (siblingOf i < Z.of_nat (length L) <-> i < Z.of_nat (length L))) as [Hs0 Hs].
  { unfold siblingOf. destruct (Z.eqb_spec (i mod 2) 1); lia. }
  unfold u32 at 1. rewrite Z.mod_small by lia. rewrite <- (Hlv _ Hs0).
  destruct (Z.leb_spec (Z.of_nat (length L)) i) as [Hge|Hin].
  - rewrite Hz, lookup_ge_None_2 by lia. done.
  - assert (forall j, j = siblingOf i -> index L (u32 j) =
      Ok (default (zeroAt h) (L !! Z.to_nat (siblingOf i)))) as Hidx.
    { intros j ->. unfold index, u32. rewrite Z.mod_small by lia. rewrite decide_True by lia.
      destruct (lookup_lt_is_Some_2 L (Z.to_nat (siblingOf i))) as [x ->]; [lia|]. done. }
    destruct (Z.eqb_spec (i mod 2) 1) as [e|e]; apply Hidx; unfold siblingOf;
      [by rewrite (proj2 (Z.eqb_eq _ _) e)|by rewrite (proj2 (Z.eqb_neq _ _) e)].
Qed.

Lemma proofLoop_ok ls N L0 ger n : level ls 0 L0 -> tight ls 0 L0 -> (n <= N)%nat ->
  Z.of_nat (length ls) < 2 ^ 32 - 1 -> 0 <= ger < 2 ^ 32 ->
  exists ns L, foldl (proofLevel (zeros_of N)) (Ok (mkProof [] L0 [] ger)) (seq 0 n) =
      Ok (mkProof ns L (map (fun h => node ls h (siblingOf (ger / 2 ^ Z.of_nat h))) (seq 0 n))
            (ger / 2 ^ Z.of_nat n)) /\
    level ls n L /\ tight ls n L /\ (n = 0%nat \/ heads ns L).
Proof.
  intros Hlv Ht Hn Hlen Hg. induction n as [|n IH].
  { exists [], L0. change (2 ^ Z.of_nat 0) with 1. rewrite Z.div_1_r. split; [done|]. auto. }
  destruct IH as (ns & L & Heq & HlvL & HtL & _); [lia|].
  rewrite seq_S, foldl_app, Heq. cbn [foldl]. unfold proofLevel. rewrite bind_ok.
  cbn [p_leaves p_index p_siblings Nat.add].
  destruct (padLevel_ok ls N n L) as (k & L1 & -> & Hlv1 & Hl1 & Hk); [lia|done..|]. rewrite bind_ok.
  assert (0 <= ger / 2 ^ Z.of_nat n < 2 ^ 32) as Hdiv.
  { split; [apply Z.div_pos; lia|]. apply Z.div_lt_upper_bound; [lia|]. nia. }
  rewrite (siblingOf_level ls n L1 k) by
    (done || lia || (apply index_zeros; lia) || (destruct HtL; nia)).
  rewrite bind_ok.
  destruct (buildIntermediate_ok k L1 Hl1) as (ns' & L' & -> & Hl' & Hh & Hi). rewrite bind_ok.
  exists ns', L'. split; [|split; [by eapply level_next|split; [by eapply tight_next|by right]]].
  rewrite map_app. do 2 f_equal. rewrite floor_div_f_spec by lia.
  unfold u32. rewrite Z.mod_small, Z.div_div, pow_S; [f_equal; lia|lia..|].
  pose proof (Z.div_le_upper_bound (ger / 2 ^ Z.of_nat n) 2 (ger / 2 ^ Z.of_nat n) ltac:(lia) ltac:(lia)).
  split; [apply Z.div_pos; lia|lia].
Qed.

Lemma ComputeMerkleProof_spec mt ger ls : zeros_ok mt -> Z.of_nat (length ls) < 2 ^ 32 - 1 ->
  0 <= ger < 2 ^ 32 ->
  ComputeMerkleProof mt ger ls =
    if Z.of_nat (length ls) <=? 2 ^ height mt then
      Ok (map (fun h => node ls h (siblingOf (ger / 2 ^ Z.of_nat h))) (seq 0 (Z.to_nat (height mt))),
          merkleRoot ls (Z.to_nat (height mt)))
    else Err "error: more than one root detected".
Proof.
  intros [Hpos Hz] Hlen Hg. unfold ComputeMerkleProof. rewrite Hz.
  destruct (firstLeaf_ok ls (Z.to_nat (height mt))) as (L0 & -> & Hlv & Ht). rewrite bind_ok.
  destruct (proofLoop_ok ls (Z.to_nat (height mt)) L0 ger (Z.to_nat (height mt)) Hlv Ht)
    as (ns & L & -> & HlvL & HtL & [H0|Hh]); [done..|lia|].
  rewrite bind_ok. cbn [p_ns p_siblings]. rewrite (oneRoot_ok ls _ ns L Hh HlvL HtL).
  rewrite Z2Nat.id by lia. by destruct (_ <=? _).
Qed.

(** A node is the hash of the child on the way and its sibling. *)
Lemma node_step ls h i :
  (if i mod 2 =? 1 then Hash [node ls h (siblingOf i); node ls h i]
   else Hash [node ls h i; node ls h (siblingOf i)]) = node ls (S h) (i / 2).
Proof.
  pose proof (Z.div_mod i 2 ltac:(lia)). pose proof (Z.mod_pos_bound i 2 ltac:(lia)).
  unfold siblingOf. simpl. destruct (Z.eqb_spec (i mod 2) 1); do 3 f_equal; try lia; do 2 f_equal; lia.
Qed.

Lemma div_pow_S i h : i / 2 ^ Z.of_nat h / 2 = i / 2 ^ Z.of_nat (S h).
Proof. rewrite Z.div_div, pow_S by lia. f_equal. lia. Qed.

Lemma rootFromProof_ok ls ger n : forall h,
  rootFromProof (ger / 2 ^ Z.of_nat h) (node ls h (ger / 2 ^ Z.of_nat h))
    (map (fun h => node ls h (siblingOf (ger / 2 ^ Z.of_nat h))) (seq h n)) =
  node ls (h + n) (ger / 2 ^ Z.of_nat (h + n)).
Proof.
  induction n as [|n IH]; intros h; simpl; [by rewrite Nat.add_0_r|].
  rewrite node_step, div_pow_S, IH. by rewrite Nat.add_succ_r.
Qed.

(** ** The incremental tree *)

(** The state of the tree after the leaves [ls]: at every bit of the count that is
    set, the sibling is the node to the left of the next free position. *)
Record tree_ok (mt : L1InfoTree) (ls : list Z) : Prop := {
  ok_zeros : zeros_ok mt;
  ok_height : height mt <= 32;
  ok_count : count mt = Z.of_nat (length ls);
  ok_room : Z.of_nat (length ls) < 2 ^ 32 - 1;
  ok_siblings : length (siblings mt) = Z.to_nat (height mt);
  ok_left : forall h, (h < Z.to_nat (height mt))%nat -> Z.testbit (count mt) (Z.of_nat h) = true ->
    siblings mt !! h = Some (node ls h (count mt / 2 ^ Z.of_nat h - 1));
  ok_root : currentRoot mt = merkleRoot ls (Z.to_nat (height mt));
  ok_leaves : allLeaves mt = list_to_set ls;
}.

Lemma testbit_odd n h : 0 <= h -> Z.testbit n h = (n / 2 ^ h mod 2 =? 1).
Proof. intros Hh. rewrite Z.testbit_eqb by lia. done. Qed.

Lemma mapM_zeros N n : (n <= S N)%nat ->
  mapM (fun h => index (zeros_of N) (Z.of_nat h)) (seq 0 n) = Ok (map zeroAt (seq 0 n)).
Proof.
  intros Hn. assert (forall l, Forall (fun h => (h <= N)%nat) l ->
    mapM (fun h => index (zeros_of N) (Z.of_nat h)) l = Ok (map zeroAt l)) as H.
  { induction 1 as [|h l Hh _ IH]; [done|]. simpl. rewrite index_zeros by done.
    rewrite bind_ok, IH, bind_ok. done. }
  apply H, Forall_seq. lia.
Qed.

(** A new tree over leaves that fit. *)
Lemma NewL1InfoTree_ok h ls : 0 < h <= 32 -> Z.of_nat (length ls) <= 2 ^ h ->
  Z.of_nat (length ls) < 2 ^ 32 - 1 ->
  exists mt, NewL1InfoTree h ls = Ok mt /\ tree_ok mt ls /\ height mt = h.
Proof.
  intros Hh Hfit Hlen. unfold NewL1InfoTree. rewrite generateZeroHashes_ok, bind_ok.
  assert (u32 (Z.of_nat (length ls)) = Z.of_nat (length ls)) as Hu by (apply Z.mod_small; lia).
  rewrite Hu. set (mt := mkTree _ _ _ _ _ _).
  assert (zeros_ok mt) as Hz by (split; [simpl; lia|done]).
  unfold initSiblings. cbn [count mt]. rewrite Hu, Z.eqb_refl. cbn [negb].
  destruct (Z.eqb_spec (Z.of_nat (length ls)) 0) as [H0|H0].
  - cbn [zeroHashes height mt]. rewrite mapM_zeros, bind_ok by lia.
    rewrite BuildL1InfoRoot_spec by done. cbn [height mt]. rewrite (proj2 (Z.leb_le _ _)) by done.
    rewrite !bind_ok. eexists; split; [done|]. split; [|done].
    split; cbn [zeroHashes height count siblings currentRoot allLeaves]; try done; try lia.
    + by rewrite length_map, length_seq.
    + intros k _ Hb. by rewrite H0, Z.bits_0 in Hb.
  - rewrite ComputeMerkleProof_spec by (done || lia). cbn [height mt].
    rewrite (proj2 (Z.leb_le _ _)), bind_ok by done. eexists; split; [done|]. split; [|done].
    split; cbn [zeroHashes height count siblings currentRoot allLeaves]; try done; try lia.
    + by rewrite length_map, length_seq.
    + intros k Hk Hb. rewrite list_lookup_fmap, lookup_seq_lt by done. simpl. f_equal.
      rewrite testbit_odd in Hb by lia. unfold siblingOf. by rewrite Hb.
Qed.

Lemma bitSet_testbit idx h : 0 <= idx -> (h < 32)%nat -> bitSet idx h = Z.testbit idx (Z.of_nat h).
Proof.
  intros Hi Hh. unfold bitSet, u32. rewrite Z.shiftl_1_l, Z.mod_small by
    (split; [lia|apply Z.pow_lt_mono_r; lia]).
  assert (Z.land idx (2 ^ Z.of_nat h) = if Z.testbit idx (Z.of_nat h) then 2 ^ Z.of_nat h else 0) as ->.
  { apply Z.bits_inj'. intros k Hk. rewrite Z.land_spec.
    destruct (decide (Z.of_nat h = k)) as [<-|Hne].
    - rewrite Z.pow2_bits_true by lia. destruct (Z.testbit idx (Z.of_nat h)) eqn:E; [|by rewrite Z.bits_0].
      by rewrite Z.pow2_bits_true by lia.
    - rewrite Z.pow2_bits_false by done. rewrite andb_false_r.
      destruct (Z.testbit idx _); [by rewrite Z.pow2_bits_false|by rewrite Z.bits_0]. }
  destruct (Z.testbit idx _); [|done]. by apply Z.ltb_lt, Z.pow_pos_nonneg; lia.
Qed.

(** Counting one up carries exactly out of the lowest bits that are all set. *)
Lemma succ_div a P : 0 <= a -> 0 < P ->
  (a + 1) / P = if a mod P =? P - 1 then a / P + 1 else a / P.
Proof.
  intros Ha HP. pose proof (Z.div_mod a P ltac:(lia)). pose proof (Z.mod_pos_bound a P HP).
  destruct (Z.eqb_spec (a mod P) (P - 1)).
  - symmetry. apply Z.div_unique with 0; lia.
  - symmetry. apply Z.div_unique with (a mod P + 1); lia.
Qed.

Lemma filled_next a P : 0 <= a -> 0 < P ->
  (a mod (2 * P) =? 2 * P - 1) = (a mod P =? P - 1) && (a / P mod 2 =? 1).
Proof.
  intros Ha HP. replace (2 * P) with (P * 2) by lia. rewrite Z.rem_mul_r by lia.
  pose proof (Z.mod_pos_bound a P HP). pose proof (Z.mod_pos_bound (a / P) 2 ltac:(lia)).
  destruct (Z.eqb_spec (a mod P) (P - 1)), (Z.eqb_spec (a / P mod 2) 1); simpl;
    first [apply Z.eqb_eq; nia | apply Z.eqb_neq; nia].
Qed.

(** The siblings below level [n] are those of the next count, the others as before. *)
Definition siblings_upto (ls' old sibs : list Z) (idx : Z) (n : nat) : Prop :=
  length sibs = length old /\ (forall h, (n <= h)%nat -> sibs !! h = old !! h) /\
  forall h, (h < n)%nat -> Z.testbit (idx + 1) (Z.of_nat h) = true ->
    sibs !! h = Some (node ls' h ((idx + 1) / 2 ^ Z.of_nat h - 1)).

Lemma addLevel_ok mt ls leaf sibs n : tree_ok mt ls -> (n < Z.to_nat (height mt))%nat ->
  let idx := count mt in let ls' := ls ++ [leaf] in
  siblings_upto ls' (siblings mt) sibs idx n ->
  exists sibs', addLevel (zeroHashes mt) idx
      (Ok (mkAdd (node ls' n (idx / 2 ^ Z.of_nat n)) (idx mod 2 ^ Z.of_nat n =? 2 ^ Z.of_nat n - 1) sibs)) n =
    Ok (mkAdd (node ls' (S n) (idx / 2 ^ Z.of_nat (S n)))
          (idx mod 2 ^ Z.of_nat (S n) =? 2 ^ Z.of_nat (S n) - 1) sibs') /\
    siblings_upto ls' (siblings mt) sibs' idx (S n).
Proof.
  intros [[Hpos Hz] Hh Hc Hr Hs Hleft _ _] Hn idx ls' (S1 & S2 & S3).
  assert (0 <= idx) as Hidx by (unfold idx; lia).
  set (P := 2 ^ Z.of_nat n). assert (0 < P) as HP by (apply Z.pow_pos_nonneg; lia).
  pose proof (Z.div_mod idx P ltac:(lia)) as Hdm. pose proof (Z.mod_pos_bound idx P HP) as Hmb.
  unfold addLevel. rewrite bind_ok. cbn [a_siblings a_cur a_filled].
  rewrite bitSet_testbit, testbit_odd by lia.
  rewrite <- (div_pow_S idx n), <- node_step, pow_S, filled_next by done. fold P.
  pose proof (succ_div idx P Hidx HP) as Hsd. unfold siblings_upto.
  destruct (Z.eqb_spec (idx / P mod 2) 1) as [Hodd|Heven]; rewrite ?andb_true_r, ?andb_false_r.
  - (* a left neighbour: the sibling is read *)
    assert (0 < idx / P) as Hq.
    { pose proof (Z.div_pos idx P Hidx HP). destruct (decide (idx / P = 0)) as [E|]; [|lia].
      rewrite E in Hodd. discriminate Hodd. }
    assert (sibs !! n = Some (node ls' n (siblingOf (idx / P)))) as Hsib.
    { rewrite S2, Hleft by (done || (rewrite testbit_odd by lia; by apply Z.eqb_eq)). fold idx P. f_equal.
      unfold siblingOf. rewrite (proj2 (Z.eqb_eq _ _) Hodd). symmetry. apply node_app; [lia|]. fold P. nia. }
    unfold index. rewrite decide_True, Nat2Z.id, Hsib, bind_ok by lia. exists sibs. split; [done|].
    split; [done|]. split; [intros h Hlt; apply S2; lia|]. intros h Hlt Hb.
    destruct (decide (h = n)) as [->|]; [|apply S3; lia || done].
    rewrite testbit_odd in Hb by lia. fold P in Hb |- *. rewrite Hsd in Hb |- *.
    destruct (Z.eqb_spec (idx mod P) (P - 1)); [|rewrite Hsib; unfold siblingOf;
      by rewrite (proj2 (Z.eqb_eq _ _) Hodd)].
    apply Z.eqb_eq in Hb. rewrite Z.add_mod, Hodd in Hb by lia. discriminate Hb.
  - (* a left child: its right sibling is empty *)
    assert (node ls' n (siblingOf (idx / P)) = zeroAt n) as Hzero.
    { apply node_beyond. fold P. unfold siblingOf, ls'. rewrite (proj2 (Z.eqb_neq _ _) Heven), length_app.
      simpl. lia. }
    rewrite Hzero, Hz, index_zeros by lia.
    destruct (Z.eqb_spec (idx mod P) (P - 1)) as [Hf|Hf].
    + unfold store. rewrite decide_True, !bind_ok by lia. eexists. split; [done|].
      split; [by rewrite length_insert|].
      split; [intros h Hh'; rewrite list_lookup_insert_ne by lia; apply S2; lia|]. intros h Hh' Hb.
      destruct (decide (h = n)) as [->|];
        [|rewrite list_lookup_insert_ne by done; apply S3; lia || done].
      rewrite list_lookup_insert_eq by lia. fold P. rewrite Hsd. do 2 f_equal. lia.
    + rewrite !bind_ok. eexists. split; [done|]. split; [done|].
      split; [intros h Hh'; apply S2; lia|]. intros h Hh' Hb.
      destruct (decide (h = n)) as [->|]; [|apply S3; lia || done].
      rewrite testbit_odd in Hb by lia. fold P in Hb. rewrite Hsd in Hb. apply Z.eqb_eq in Hb. done.
Qed.

Lemma addLoop_ok mt ls leaf n : tree_ok mt ls -> (n <= Z.to_nat (height mt))%nat ->
  let idx := count mt in let ls' := ls ++ [leaf] in
  exists sibs, foldl (addLevel (zeroHashes mt) idx) (Ok (mkAdd leaf true (siblings mt))) (seq 0 n) =
    Ok (mkAdd (node ls' n (idx / 2 ^ Z.of_nat n)) (idx mod 2 ^ Z.of_nat n =? 2 ^ Z.of_nat n - 1) sibs) /\
    siblings_upto ls' (siblings mt) sibs idx n.
Proof.
  intros Hok Hn idx ls'. induction n as [|n IH].
  - exists (siblings mt). change (2 ^ Z.of_nat 0) with 1. rewrite Z.div_1_r, Z.mod_1_r. split.
    + unfold foldl, seq. do 2 f_equal. unfold idx, ls', node, leafAt.
      rewrite (ok_count _ _ Hok), Nat2Z.id, list_lookup_middle; done.
    + split; [done|]. split; [done|]. intros h Hh. lia.
  - destruct IH as (sibs & Heq & Hs); [lia|]. rewrite seq_S, foldl_app, Heq. cbn [foldl Nat.add].
    apply addLevel_ok; [done|lia|done].
Qed.

Lemma AddLeaf_ok mt ls leaf : tree_ok mt ls -> Z.of_nat (length ls) < 2 ^ height mt ->
  Z.of_nat (length ls) + 1 < 2 ^ 32 - 1 ->
  exists mt', AddLeaf mt (count mt) leaf = Ok (merkleRoot (ls ++ [leaf]) (Z.to_nat (height mt)), mt') /\
    tree_ok mt' (ls ++ [leaf]) /\ height mt' = height mt.
Proof.
  intros Hok Hroom Hlen. pose proof Hok as [[Hpos Hz] Hh Hc Hr Hs _ _ Hall].
  destruct (addLoop_ok mt ls leaf (Z.to_nat (height mt)) Hok) as (sibs & Heq & S1 & _ & S3); [done|].
  unfold AddLeaf. rewrite Z.eqb_refl, Heq. cbn [negb]. rewrite bind_ok. cbn [a_cur a_siblings].
  rewrite (Z.div_small (count mt)) by (rewrite Z2Nat.id by lia; lia).
  eexists. split; [done|]. split; [|done].
  assert (u32 (count mt + 1) = count mt + 1) as Hu by (apply Z.mod_small; lia).
  split; cbn [zeroHashes height count siblings currentRoot allLeaves]; rewrite ?Hu, ?length_app; try done.
  - simpl. lia.
  - simpl. lia.
  - by rewrite S1.
  - rewrite Hall, list_to_set_app_L. simpl. by rewrite union_empty_r_L, (comm_L (∪)).
Qed.

(** Adding leaves one after the other, each at the tree's own count. *)
Definition addLeaves (mt : L1InfoTree) (leaves : list Z) : outcome L1InfoTree :=
  foldl (fun acc leaf => mt ← acc; r ← AddLeaf mt (count mt) leaf; Ok (snd r)) (Ok mt) leaves.

Lemma addLeaves_ok more : forall mt ls, tree_ok mt ls ->
  Z.of_nat (length (ls ++ more)) <= 2 ^ height mt -> Z.of_nat (length (ls ++ more)) < 2 ^ 32 - 1 ->
  exists mt', addLeaves mt more = Ok mt' /\ tree_ok mt' (ls ++ more) /\ height mt' = height mt.
Proof.
  unfold addLeaves. induction more as [|leaf more IH]; intros mt ls Hok Hfit Hlen.
  { exists mt. rewrite app_nil_r. done. }
  rewrite length_app in Hfit, Hlen. simpl in Hfit, Hlen. cbn [foldl]. rewrite bind_ok.
  destruct (AddLeaf_ok mt ls leaf Hok) as (mt1 & -> & Hok1 & Hh1); [lia..|].
  rewrite bind_ok. cbn [snd]. replace (ls ++ leaf :: more) with ((ls ++ [leaf]) ++ more) by
    (by rewrite <- app_assoc).
  rewrite <- Hh1. apply IH; [done|..]; rewrite ?Hh1, !length_app; simpl; lia.
Qed.

(** A tree that is full takes one more leaf as its first. *)
Lemma fullLoop_ok mt ls leaf n : tree_ok mt ls -> count mt = 2 ^ height mt -> height mt < 32 ->
  (n <= Z.to_nat (height mt))%nat ->
  exists f sibs, foldl (addLevel (zeroHashes mt) (count mt)) (Ok (mkAdd leaf true (siblings mt))) (seq 0 n) =
    Ok (mkAdd (node [leaf] n 0) f sibs) /\ length sibs = Z.to_nat (height mt).
Proof.
  intros Hok Hfull Hh. pose proof (ok_zeros _ _ Hok) as [Hpos Hz]. induction n as [|n IH]; intros Hn.
  { exists true, (siblings mt). split; [done|]. apply (ok_siblings _ _ Hok). }
  destruct IH as (f & sibs & Heq & Hl); [lia|]. rewrite seq_S, foldl_app, Heq. cbn [foldl Nat.add].
  unfold addLevel. rewrite bind_ok. cbn [a_siblings a_cur a_filled].
  rewrite bitSet_testbit by lia. rewrite Hfull, Z.pow2_bits_false by lia.
  assert (node [leaf] (S n) 0 = Hash [node [leaf] n 0; zeroAt n]) as ->.
  { simpl. do 3 f_equal. f_equal. apply node_beyond. simpl length. nia. }
  rewrite Hz, index_zeros by lia. unfold store. rewrite decide_True by lia.
  destruct f; rewrite !bind_ok; do 2 eexists; (split; [done|]); rewrite ?length_insert; done.
Qed.

End tree.

(** ** The properties *)

(** C33: the incremental tree is the tree of all its leaves.  Starting from any
    leaves and adding any others one by one, as long as the tree has room, every
    addition succeeds, the root kept is the one [BuildL1InfoRoot] computes from
    all leaves and the root of the tree over them, and [LeafExists] knows exactly
    these leaves. *)
Theorem incremental_tree_is_rebuilt keccak256 h ls more :
  0 < h <= 32 -> Z.of_nat (length (ls ++ more)) <= 2 ^ h ->
  Z.of_nat (length (ls ++ more)) < 2 ^ 32 - 1 ->
  exists mt0 mt, NewL1InfoTree keccak256 h ls = Ok mt0 /\ addLeaves keccak256 mt0 more = Ok mt /\
    count mt = Z.of_nat (length (ls ++ more)) /\
    currentRoot mt = merkleRoot keccak256 (ls ++ more) (Z.to_nat h) /\
    BuildL1InfoRoot keccak256 mt (ls ++ more) = Ok (currentRoot mt) /\
    forall leaf, LeafExists mt leaf = true <-> leaf ∈ ls ++ more.
Proof.
  intros Hh Hfit Hlen. pose proof (length_app ls more) as Hla.
  destruct (NewL1InfoTree_ok keccak256 h ls) as (mt0 & Hnew & Hok0 & Hh0); [lia..|].
  destruct (addLeaves_ok keccak256 more mt0 ls Hok0) as (mt & Hadd & Hok & Hhm); [by rewrite Hh0|done|].
  exists mt0, mt. split; [done|]. split; [done|]. split; [apply (ok_count _ _ _ Hok)|].
  assert (height mt = h) as Hm by congruence.
  assert (currentRoot mt = merkleRoot keccak256 (ls ++ more) (Z.to_nat h)) as Hroot
    by (rewrite <- Hm; apply (ok_root _ _ _ Hok)).
  split; [done|]. split.
  - rewrite BuildL1InfoRoot_spec by apply (ok_zeros _ _ _ Hok). rewrite Hm, Hroot.
    by rewrite (proj2 (Z.leb_le _ _)).
  - intros leaf. unfold LeafExists. rewrite bool_decide_eq_true, (ok_leaves _ _ _ Hok).
    apply elem_of_list_to_set.
Qed.

Lemma incremental_tree_is_rebuilt_witness :
  let hash := fun l => foldl (fun a b => (a * 31 + b) mod 65521) 7 l in
  exists mt0 mt, NewL1InfoTree hash 3 [5; 6] = Ok mt0 /\ addLeaves hash mt0 [7; 8; 9] = Ok mt /\
    BuildL1InfoRoot hash mt [5; 6; 7; 8; 9] = Ok (currentRoot mt).
Proof.
  intros hash.
  destruct (incremental_tree_is_rebuilt hash 3 [5; 6] [7; 8; 9])
    as (mt0 & mt & H1 & H2 & _ & _ & H3 & _); [lia|simpl; lia|simpl; lia|].
  exists mt0, mt. split; [exact H1|]. split; [exact H2|exact H3].
Defined.

(** C34: Merkle proofs are correct.  For every position of the tree, over leaves
    that fit, [ComputeMerkleProof] returns one sibling per level and the root
    that [BuildL1InfoRoot] returns, and hashing the leaf at the position up with
    the siblings gives that root. *)
Theorem merkle_proof_correct keccak256 h ls ger mt :
  0 < h <= 32 -> NewL1InfoTree keccak256 h [] = Ok mt ->
  Z.of_nat (length ls) <= 2 ^ h -> Z.of_nat (length ls) < 2 ^ 32 - 1 -> 0 <= ger < 2 ^ h ->
  exists proof root, ComputeMerkleProof keccak256 mt ger ls = Ok (proof, root) /\
    BuildL1InfoRoot keccak256 mt ls = Ok root /\ length proof = Z.to_nat h /\
    rootFromProof keccak256 ger (leafAt ls ger) proof = root.
Proof.
  intros Hh Hnew Hfit Hlen Hg.
  destruct (NewL1InfoTree_ok keccak256 h []) as (mt' & Hnew' & Hok & Hm); [lia|simpl; lia|simpl; lia|].
  rewrite Hnew in Hnew'. injection Hnew' as <-. pose proof (ok_zeros _ _ _ Hok) as Hz.
  assert (2 ^ h <= 2 ^ 32) by (apply Z.pow_le_mono_r; lia).
  do 2 eexists. rewrite ComputeMerkleProof_spec, BuildL1InfoRoot_spec by (done || lia).
  rewrite Hm, (proj2 (Z.leb_le _ _)) by done. split; [done|]. split; [done|].
  split; [by rewrite length_map, length_seq|].
  pose proof (rootFromProof_ok keccak256 ls ger (Z.to_nat h) 0) as Hp.
  change (2 ^ Z.of_nat 0) with 1 in Hp. rewrite Z.div_1_r in Hp. simpl in Hp. rewrite Hp.
  rewrite Z2Nat.id, Z.div_small by lia. done.
Qed.

Lemma merkle_proof_correct_witness :
  let hash := fun l => foldl (fun a b => (a * 31 + b) mod 65521) 7 l in
  exists mt proof root, NewL1InfoTree hash 3 [] = Ok mt /\
    ComputeMerkleProof hash mt 2 [5; 6; 7] = Ok (proof, root) /\ rootFromProof hash 2 7 proof = root.
Proof.
  intros hash. destruct (NewL1InfoTree hash 3 []) as [mt|e|] eqn:E;
    [|vm_compute in E; discriminate E..].
  destruct (merkle_proof_correct hash 3 [5; 6; 7] 2 mt)
    as (proof & root & H1 & _ & _ & H2); [lia|exact E|simpl; lia|simpl; lia|lia|].
  exists mt, proof, root. split; [reflexivity|]. split; [exact H1|exact H2].
Defined.

(** What the tree refuses, and what it does not.  A leaf at another index than
    the count, and more leaves than the tree has positions, are errors.  But a
    full tree of height below 32 takes one more leaf: [AddLeaf] succeeds and
    returns the root of a tree that has this leaf only. *)
Theorem l1_info_tree_limits keccak256 h ls leaf :
  0 < h < 32 ->
  (2 ^ h < Z.of_nat (length ls) < 2 ^ 32 - 1 -> exists e, NewL1InfoTree keccak256 h ls = Err e) /\
  (forall mt idx, idx <> count mt -> exists e, AddLeaf keccak256 mt idx leaf = Err e) /\
  (Z.of_nat (length ls) = 2 ^ h -> exists mt mt', NewL1InfoTree keccak256 h ls = Ok mt /\
     AddLeaf keccak256 mt (count mt) leaf = Ok (merkleRoot keccak256 [leaf] (Z.to_nat h), mt')).
Proof.
  intros Hh. assert (2 ^ h <= 2 ^ 31) by (apply Z.pow_le_mono_r; lia).
  pose proof (Z.pow_pos_nonneg 2 h ltac:(lia) ltac:(lia)). split; [|split].
  - intros Hl. unfold NewL1InfoTree. rewrite generateZeroHashes_ok, bind_ok. unfold initSiblings.
    assert (u32 (Z.of_nat (length ls)) = Z.of_nat (length ls)) as Hu by (apply Z.mod_small; lia).
    cbn [count]. rewrite Hu, Z.eqb_refl. cbn [negb]. rewrite (proj2 (Z.eqb_neq _ 0)) by lia.
    rewrite ComputeMerkleProof_spec by (lia || (split; cbn; [lia|done])). cbn [height].
    rewrite (proj2 (Z.leb_gt _ _)), bind_err by lia. eauto.
  - intros mt idx Hne. unfold AddLeaf. rewrite (proj2 (Z.eqb_neq _ _) Hne). cbn [negb]. eauto.
  - intros Hl. destruct (NewL1InfoTree_ok keccak256 h ls) as (mt & Hnew & Hok & Hm); [lia..|].
    destruct (fullLoop_ok keccak256 mt ls leaf (Z.to_nat h) Hok) as (f & sibs & Heq & _);
      [rewrite (ok_count _ _ _ Hok), Hm; done|lia|by rewrite Hm|].
    eexists mt, _. split; [done|]. unfold AddLeaf. rewrite Z.eqb_refl, Hm, Heq, bind_ok. done.
Qed.

Lemma l1_info_tree_limits_witness :
  let hash := fun l => foldl (fun a b => (a * 31 + b) mod 65521) 7 l in
  exists mt mt', NewL1InfoTree hash 1 [5; 6] = Ok mt /\
    AddLeaf hash mt (count mt) 7 = Ok (merkleRoot hash [7] 1, mt').
Proof.
  intros hash. apply (l1_info_tree_limits hash 1 [5; 6] 7); [lia|reflexivity].
Defined.
