(* ===== verification/SmtUtils.v ===== *)
(** * Keys and node values of the sparse Merkle tree (smt/pkg/utils/utils.go)

    A key is four 64-bit words; its path of 256 bits takes the words in turn, from
    the lowest bits on.  A node value is an array of pointers to big integers,
    [None] for nil.  Here are the conversions, and what the tree relies on: a path
    determines its key, and the bits used on the way to a leaf joined with the
    bits the leaf keeps give the key back. *)
From Stdlib Require Import Ascii ZifyNat.
From S2P Require Import Prelude Bytes Hex.

(** ** Data *)

(** [NodeKey] is [[4]uint64]. *)
Record NodeKey := mkKey { w0 : Z; w1 : Z; w2 : Z; w3 : Z }.

#[export] Instance NodeKey_eq_dec : EqDecision NodeKey.
Proof. solve_decision. Defined.

#[export] Instance NodeKey_countable : Countable NodeKey.
Proof.
  refine (inj_countable' (fun k => (w0 k, w1 k, w2 k, w3 k))
    (fun '(a, b, c, d) => mkKey a b c d) _). by intros [].
Defined.

Definition NodeValue8 := list (option Z).
Definition NodeValue12 := list (option Z).

Definition words (k : NodeKey) : list Z := [w0 k; w1 k; w2 k; w3 k].
Definition zeroKey : NodeKey := mkKey 0 0 0 0.

Definition LeafCapacity : NodeKey := mkKey 1 0 0 0.
Definition BranchCapacity : NodeKey := mkKey 0 0 0 0.

Definition KEY_BALANCE : Z := 0.
Definition KEY_NONCE : Z := 1.
Definition SC_CODE : Z := 2.
Definition SC_STORAGE : Z := 3.
Definition SC_LENGTH : Z := 4.

(** [big.Int.Uint64]: the low word of the magnitude. *)
Definition bigUint64 (z : Z) : Z := Z.abs z mod 2 ^ 64.

(** A method call on a big integer that may be nil. *)
Definition nonNil {A} (o : option A) : outcome A :=
  match o with Some a => Ok a | None => Panic end.

(** ** Keys *)

Definition Key_IsZero (nk : NodeKey) : bool :=
  (w0 nk =? 0) && (w1 nk =? 0) && (w2 nk =? 0) && (w3 nk =? 0).

Definition IsEqualTo (nk nk2 : NodeKey) : bool :=
  (w0 nk =? w0 nk2) && (w1 nk =? w1 nk2) && (w2 nk =? w2 nk2) && (w3 nk =? w3 nk2).

(** [scalar.Lsh(scalar, 64); scalar.Add(scalar, array[i])], from the last on. *)
Definition ArrayToScalar (array : list Z) : Z :=
  foldr (fun v scalar => Z.shiftl scalar 64 + v) 0 array.

Definition Key_ToBigInt (nk : NodeKey) : Z := ArrayToScalar (words nk).

Definition ScalarToArray (scalar : Z) : list Z :=
  map (fun i => bigUint64 (Z.land (Z.shiftr scalar (64 * i)) 0xFFFFFFFFFFFFFFFF)) [0; 1; 2; 3].

(** [Mod] and [Div] of [math/big] are Euclidean. *)
Definition ScalarToRoot (s : Z) : NodeKey :=
  let d := 2 ^ 64 in
  mkKey (bigUint64 (s mod d)) (bigUint64 (s / d mod d)) (bigUint64 (s / d / d mod d))
        (bigUint64 (s / d / d / d mod d)).

Definition NodeKeyFromBigIntArray (arr : list (option Z)) : outcome NodeKey :=
  let get i := match arr !! i with Some (Some v) => bigUint64 v | _ => 0 end in
  if decide (4 < length arr)%nat then Panic
  else Ok (mkKey (get 0%nat) (get 1%nat) (get 2%nat) (get 3%nat)).

(** ** Paths *)

Definition shr1 (k : NodeKey) : NodeKey :=
  mkKey (Z.shiftr (w0 k) 1) (Z.shiftr (w1 k) 1) (Z.shiftr (w2 k) 1) (Z.shiftr (w3 k) 1).

Fixpoint pathFrom (n : nat) (auxk : NodeKey) : list Z :=
  match n with
  | O => []
  | S n => map (fun w => Z.land w 1) (words auxk) ++ pathFrom n (shr1 auxk)
  end.

Definition GetPath (nk : NodeKey) : list Z := pathFrom 64 nk.

(** [words[i] = f words[i]] *)
Definition atWord (i : nat) (f : Z -> Z) (k : NodeKey) : NodeKey :=
  match i with
  | 0%nat => mkKey (f (w0 k)) (w1 k) (w2 k) (w3 k)
  | 1%nat => mkKey (w0 k) (f (w1 k)) (w2 k) (w3 k)
  | 2%nat => mkKey (w0 k) (w1 k) (f (w2 k)) (w3 k)
  | _ => mkKey (w0 k) (w1 k) (w2 k) (f (w3 k))
  end.

Definition wordAt (i : nat) (k : NodeKey) : Z :=
  match i with 0%nat => w0 k | 1%nat => w1 k | 2%nat => w2 k | _ => w3 k end.

Definition NodeKeyFromPath (path : list Z) : outcome NodeKey :=
  if negb (Z.of_nat (length path) =? 256) then Err "path is not 256 bits"
  else Ok (foldl (fun res '(j, b) =>
             atWord (j mod 4) (fun w => Z.lor w (u64 (Z.shiftl (u64 b) (Z.of_nat (j / 4))))) res)
             zeroKey (imap pair path)).

Definition RemoveKeyBits (k : NodeKey) (nBits : Z) : NodeKey :=
  let fullLevels := Z.quot nBits 4 in
  let n i := if fullLevels * 4 + i <? nBits then fullLevels + 1 else fullLevels in
  mkKey (Z.shiftr (w0 k) (u64 (n 0))) (Z.shiftr (w1 k) (u64 (n 1)))
        (Z.shiftr (w2 k) (u64 (n 2))) (Z.shiftr (w3 k) (u64 (n 3))).

(** The two arrays the loop of [JoinKey] fills. *)
Definition joinStep (st : NodeKey * NodeKey) (ib : nat * Z) : NodeKey * NodeKey :=
  let '(n, accs) := st in let '(i, b) := ib in
  let j := (i mod 4)%nat in
  (atWord j (fun x => u64 (x + 1)) n,
   if b =? 1 then atWord j (fun a => Z.lor a (u64 (Z.shiftl 1 (wordAt j n)))) accs else accs).

Definition JoinKey (usedBits : list Z) (remainingKey : NodeKey) : NodeKey :=
  let '(n, accs) := foldl joinStep (zeroKey, zeroKey) (imap pair usedBits) in
  let word f := Z.lor (u64 (Z.shiftl (f remainingKey) (f n))) (f accs) in
  mkKey (word w0) (word w1) (word w2) (word w3).

(** The order [SortNodeKeysBitwiseAsc] sorts by: that of the paths, reflexive on
    equal keys. *)
Fixpoint pathLess (a b : list Z) : bool :=
  match a, b with
  | x :: a, y :: b => if negb (x =? y) then x <? y else pathLess a b
  | _, _ => true
  end.

Definition bitwiseLess (a b : NodeKey) : bool := pathLess (GetPath a) (GetPath b).

(** ** Node values *)

Definition Value8_IsZero (nv : NodeValue8) : bool :=
  forallb (fun o => match o with Some v => bigUint64 v =? 0 | None => false end) nv.

Definition ToUintArray (nv : NodeValue8) : list Z :=
  map (fun o => match o with Some v => bigUint64 v | None => 0 end) nv.

Definition keyFrom (nv : NodeValue12) (i : nat) : outcome NodeKey :=
  let get j := nonNil (default None (nv !! (i + j)%nat)) in
  a ← get 0%nat; b ← get 1%nat; c ← get 2%nat; d ← get 3%nat;
  Ok (mkKey (bigUint64 a) (bigUint64 b) (bigUint64 c) (bigUint64 d)).

Definition Get0to4 (nv : NodeValue12) : outcome NodeKey := keyFrom nv 0.
Definition Get4to8 (nv : NodeValue12) : outcome NodeKey := keyFrom nv 4.

Definition IsFinalNode (nv : NodeValue12) : bool :=
  match nv !! 8%nat with Some (Some v) => v =? 1 | _ => false end.

(** The third group is the capacity. *)
Definition IsUniqueSibling (nv : NodeValue12) : outcome Z :=
  st ← foldl (fun acc i =>
         st ← acc; part ← slice nv (4 * i) (4 * i + 4); k ← NodeKeyFromBigIntArray part;
         Ok (if negb (Key_IsZero k) then (fst st + 1, i) else st))
       (Ok (0, 0)) [0; 1; 2];
  Ok (if fst st =? 1 then snd st else -1).

Definition Value8FromBigIntArray (arr : list (option Z)) : NodeValue8 :=
  map (fun i => default None (arr !! i)) (seq 0 8).

Definition NodeValue8FromBigIntArray (arr : list (option Z)) : outcome NodeValue8 :=
  if negb (Z.of_nat (length arr) =? 8) then Err "invalid array length" else Ok arr.

Definition NodeValue12FromBigIntArray (arr : list (option Z)) : outcome NodeValue12 :=
  if negb (Z.of_nat (length arr) =? 12) then Err "invalid array length" else Ok arr.

Definition ConcatArrays4 (a b : NodeKey) : list Z := words a ++ words b.

Definition ConcatArrays8AndCapacity (inp : list Z) (capacity : NodeKey) : NodeValue12 :=
  map Some inp ++ map Some (words capacity).

Definition ScalarToNodeValue8 (scalar : Z) : NodeValue8 :=
  map (fun i => Some (Z.land (Z.shiftr scalar (64 * i)) 0xFFFFFFFFFFFFFFFF)) [0; 1; 2; 3; 4; 5; 6; 7].

Definition ScalarToArrayBig (scalar : Z) : list Z :=
  map (fun i => Z.land (Z.shiftr scalar (32 * i)) 4294967295) [0; 1; 2; 3; 4; 5; 6; 7].

Definition ArrayBigToScalar (arr : list Z) : Z :=
  foldr (fun v scalar => Z.shiftl scalar 32 + v) 0 arr.

(** The result of the length check, which always passes. *)
Definition NodeValue8FromBigInt (value : Z) : outcome NodeValue8 :=
  NodeValue8FromBigIntArray (map Some (ScalarToArrayBig value)).

Definition NodeValue8ToBigInt (value : NodeValue8) : outcome Z :=
  arr ← mapM nonNil value; Ok (ArrayBigToScalar arr).

(** [n.Text(16)]: nil prints as [<nil>]. *)
Definition ConvertBigIntToHex (n : option Z) : string :=
  String "0" (String "x" (match n with
    | Some n => if n <? 0 then String "-" (FormatHex (- n)) else FormatHex n
    | None => "<nil>"
    end)).

Definition TrimPrefix0x (s : string) : string :=
  match s with
  | String a (String b rest) => if Ascii.eqb a "0" && Ascii.eqb b "x" then rest else s
  | _ => s
  end.

Definition ConvertHexToBigInt (hex : string) : option Z := ParseHex (TrimPrefix0x hex).

Definition RemoveOver (m : gmap Z NodeValue12) (level : Z) : gmap Z NodeValue12 :=
  filter (fun kv => kv.1 < level) m.

(** ** Key sources *)

Definition EncodeKeySource (t accountAddr storagePosition : Z) : list Z :=
  [u8 t] ++ be_encode 20 accountAddr ++ (if t =? SC_STORAGE then be_encode 32 storagePosition else []).

Definition DecodeKeySource (keySource : list Z) : outcome (Z * Z * Z) :=
  if Z.of_nat (length keySource) <? 1 + 20 then Err "invalid key source length"
  else
    t ← index keySource 0;
    addr ← slice keySource 1 21;
    if t =? SC_STORAGE then
      if Z.of_nat (length keySource) <? 1 + 20 + 32 then Err "invalid key source length"
      else pos ← slice keySource 21 53; Ok (t, be_decode addr, be_decode pos)
    else Ok (t, be_decode addr, 0).

Definition ResizeHashTo32BytesByPrefixingWithZeroes (hashValue : list Z) : list Z :=
  if 32 - Z.of_nat (length hashValue) <=? 0 then hashValue
  else replicate (32 - length hashValue) 0 ++ hashValue.

(** ** Bits of keys *)

(** A word of a key or of a value. *)
Definition word_ok (w : Z) : Prop := 0 <= w < 2 ^ 64.

Definition key_ok (k : NodeKey) : Prop := forall i, (i < 4)%nat -> 0 <= wordAt i k < 2 ^ 64.

(** Bit [j] of the path. *)
Definition bit (k : NodeKey) (j : nat) : bool :=
  Z.testbit (wordAt (j mod 4) k) (Z.of_nat (j / 4)).

Lemma key_eq a b : (forall i, (i < 4)%nat -> wordAt i a = wordAt i b) -> a = b.
Proof.
  intros H. destruct a, b. f_equal; [apply (H 0%nat)|apply (H 1%nat)|apply (H 2%nat)|apply (H 3%nat)]; lia.
Qed.

Lemma wordAt_cases (P : nat -> Prop) : P 0%nat -> P 1%nat -> P 2%nat -> P 3%nat ->
  forall i, (i < 4)%nat -> P i.
Proof. intros ? ? ? ? [|[|[|[|i]]]] Hi; auto; lia. Qed.

Lemma wordAt_atWord i j f k : (i < 4)%nat -> (j < 4)%nat ->
  wordAt i (atWord j f k) = if decide (i = j) then f (wordAt i k) else wordAt i k.
Proof.
  intros Hi Hj. revert j Hj. pattern i. revert i Hi.
  apply wordAt_cases; apply wordAt_cases; reflexivity.
Qed.

Lemma words_lookup k i : (i < 4)%nat -> words k !! i = Some (wordAt i k).
Proof. revert i. apply wordAt_cases; reflexivity. Qed.

Lemma wordAt_shr1 k i : (i < 4)%nat -> wordAt i (shr1 k) = Z.shiftr (wordAt i k) 1.
Proof. revert i. apply wordAt_cases; reflexivity. Qed.

Lemma land_1 w : Z.land w 1 = Z.b2z (Z.testbit w 0).
Proof. change 1 with (Z.ones 1) at 1. rewrite Z.land_ones by lia. rewrite Z.bit0_mod. done. Qed.

Lemma mod4_lt j : (j mod 4 < 4)%nat.
Proof. apply Nat.mod_upper_bound. lia. Qed.

Lemma pathFrom_lookup n : forall k j, (j < 4 * n)%nat ->
  pathFrom n k !! j = Some (Z.b2z (bit k j)).
Proof.
  induction n as [|n IH]; intros k j Hj; [lia|]. cbn [pathFrom].
  destruct (decide (j < 4)%nat) as [Hlt|Hge].
  - rewrite lookup_app_l by done. rewrite list_lookup_fmap, words_lookup by done. simpl. f_equal.
    unfold bit. rewrite Nat.mod_small, Nat.div_small by done. apply land_1.
  - rewrite lookup_app_r by (simpl; lia). simpl length. rewrite IH by lia. do 2 f_equal. unfold bit.
    assert (j = (j - 4) + 1 * 4)%nat as Hj' by lia. rewrite Hj' at 3 4.
    rewrite Nat.Div0.mod_add, Nat.div_add, wordAt_shr1 by (lia || apply mod4_lt).
    rewrite Z.shiftr_spec by lia. f_equal. lia.
Qed.

Lemma GetPath_lookup k j : (j < 256)%nat -> GetPath k !! j = Some (Z.b2z (bit k j)).
Proof. intros Hj. apply pathFrom_lookup. lia. Qed.

Lemma GetPath_length k : length (GetPath k) = 256%nat.
Proof. reflexivity. Qed.

Lemma slice_path k d : (d <= 256)%nat -> slice (GetPath k) 0 (Z.of_nat d) = Ok (take d (GetPath k)).
Proof.
  intros Hd. rewrite (slice_at (GetPath k) [] (take d (GetPath k)) (drop d (GetPath k))); [done|by rewrite app_nil_l, take_drop|done|].
  by rewrite length_take_le by (rewrite GetPath_length; lia).
Qed.

Lemma index_path k j : (j < 256)%nat -> index (GetPath k) (Z.of_nat j) = Ok (Z.b2z (bit k j)).
Proof. intros Hj. unfold index. by rewrite decide_True, Nat2Z.id, GetPath_lookup by lia. Qed.

Lemma testbit_high w n : 0 <= w < 2 ^ 64 -> 64 <= n -> Z.testbit w n = false.
Proof.
  intros Hw Hn. destruct (decide (w = 0)) as [->|]; [apply Z.bits_0|].
  apply Z.bits_above_log2; [lia|]. assert (Z.log2 w < 64) by (apply Z.log2_lt_pow2; lia). lia.
Qed.

(** A path determines its key. *)
Lemma key_ext a b : key_ok a -> key_ok b -> (forall j, (j < 256)%nat -> bit a j = bit b j) -> a = b.
Proof.
  intros Ha Hb H. apply key_eq. intros i Hi. apply Z.bits_inj'. intros n Hn.
  destruct (decide (n < 64)) as [Hlt|]; [|by rewrite !testbit_high by (auto || lia)].
  specialize (H (i + Z.to_nat n * 4)%nat ltac:(lia)). unfold bit in H.
  rewrite Nat.Div0.mod_add, Nat.div_add, (Nat.mod_small i), (Nat.div_small i), Nat.add_0_l in H by lia.
  by rewrite Z2Nat.id in H by lia.
Qed.

(** ** Splitting a key at a level *)

(** How many of the first [n] bits of a path come from word [i]. *)
Definition taken (i n : nat) : nat := ((n + (3 - i)) / 4)%nat.

Ltac div_lia := zify; Z.to_euclidean_division_equations; lia.

Lemma taken_S i n : (i < 4)%nat ->
  taken i (S n) = if decide (i = n mod 4)%nat then S (taken i n) else taken i n.
Proof.
  revert i. unfold taken. apply wordAt_cases; cbn [Nat.sub];
    match goal with |- context [decide ?P] => destruct (decide P) end; div_lia.
Qed.

Lemma taken_0 i : (i < 4)%nat -> taken i 0 = 0%nat.
Proof. intros Hi. unfold taken. div_lia. Qed.

Lemma taken_here n : taken (n mod 4) n = (n / 4)%nat.
Proof.
  pose proof (mod4_lt n) as H. unfold taken. pose proof (Nat.div_mod_eq n 4) as E.
  set (r := (n mod 4)%nat) in *. set (q := (n / 4)%nat) in *. clearbody r q. subst n. revert r H.
  apply wordAt_cases; cbn [Nat.sub]; div_lia.
Qed.

Lemma taken_le i n : (n <= 256)%nat -> (i < 4)%nat -> (taken i n <= 64)%nat.
Proof. intros Hn Hi. unfold taken. div_lia. Qed.

Lemma taken_bit i n j : (i < 4)%nat -> (j < taken i n)%nat -> (i + 4 * j < n)%nat.
Proof. unfold taken. intros. div_lia. Qed.

Lemma RemoveKeyBits_word k n i : (n <= 256)%nat -> (i < 4)%nat ->
  wordAt i (RemoveKeyBits k (Z.of_nat n)) = Z.shiftr (wordAt i k) (Z.of_nat (taken i n)).
Proof.
  intros Hn Hi. unfold RemoveKeyBits. rewrite Z.quot_div_nonneg by lia.
  assert (u64 (if Z.of_nat n / 4 * 4 + Z.of_nat i <? Z.of_nat n then Z.of_nat n / 4 + 1
               else Z.of_nat n / 4) = Z.of_nat (taken i n)) as H.
  { unfold u64. unfold taken. destruct (Z.ltb_spec (Z.of_nat n / 4 * 4 + Z.of_nat i) (Z.of_nat n));
      rewrite Z.mod_small; div_lia. }
  destruct i as [|[|[|[|i]]]]; [..|lia]; cbn [wordAt w0 w1 w2 w3]; by rewrite <- H.
Qed.

Lemma shiftr_range w n : 0 <= w < 2 ^ 64 -> 0 <= n -> 0 <= Z.shiftr w n < 2 ^ 64.
Proof.
  intros Hw Hn. rewrite Z.shiftr_div_pow2 by done.
  pose proof (Z.pow_pos_nonneg 2 n ltac:(lia) Hn).
  split; [apply Z.div_pos; lia|]. apply Z.div_lt_upper_bound; nia.
Qed.

Lemma RemoveKeyBits_ok k n : (n <= 256)%nat -> key_ok k -> key_ok (RemoveKeyBits k (Z.of_nat n)).
Proof. intros Hn Hk i Hi. rewrite RemoveKeyBits_word by done. apply shiftr_range; [auto|lia]. Qed.

(** The low [c] bits of a word, and one more. *)
Lemma low_bits_S w c : 0 <= w -> 0 <= c ->
  w mod 2 ^ (c + 1) = Z.lor (w mod 2 ^ c) (Z.shiftl (Z.b2z (Z.testbit w c)) c).
Proof.
  intros Hw Hc. apply Z.bits_inj'. intros n Hn. rewrite Z.lor_spec, Z.shiftl_spec by done.
  destruct (Z.lt_trichotomy n c) as [Hlt|[->|Hgt]].
  - rewrite !Z.mod_pow2_bits_low by lia. rewrite (Z.testbit_neg_r _ (n - c)) by lia. by rewrite orb_false_r.
  - rewrite Z.mod_pow2_bits_low, Z.mod_pow2_bits_high, Z.sub_diag, Z.b2z_bit0 by lia. done.
  - rewrite !Z.mod_pow2_bits_high by lia. symmetry. simpl. destruct (Z.testbit w c); simpl.
    + apply Z.bits_above_log2; simpl; lia.
    + apply Z.bits_0.
Qed.

(** What [JoinKey] and [NodeKeyFromPath] have gathered from the first [n] bits. *)
Definition gathered (k : NodeKey) (n : nat) (acc : NodeKey) : Prop :=
  forall i, (i < 4)%nat -> wordAt i acc = wordAt i k mod 2 ^ Z.of_nat (taken i n).

Lemma gathered_0 k : gathered k 0 zeroKey.
Proof.
  intros i Hi. rewrite taken_0 by done. rewrite Z.mod_1_r. revert i Hi. apply wordAt_cases; reflexivity.
Qed.

Lemma gathered_S k n acc f : key_ok k -> (n < 256)%nat -> gathered k n acc ->
  (forall w, f w = Z.lor w (Z.shiftl (Z.b2z (bit k n)) (Z.of_nat (n / 4)))) ->
  gathered k (S n) (atWord (n mod 4) f acc).
Proof.
  intros Hk Hn Hg Hf i Hi. rewrite wordAt_atWord by (done || apply mod4_lt). rewrite taken_S by done.
  destruct (decide (i = n mod 4)%nat) as [->|]; [|by apply Hg].
  rewrite Hf, Hg by done. rewrite taken_here, Nat2Z.inj_succ. unfold Z.succ.
  rewrite low_bits_S by (lia || apply Hk, mod4_lt). done.
Qed.

Lemma gathered_all k acc : key_ok k -> gathered k 256 acc -> acc = k.
Proof.
  intros Hk Hg. apply key_eq. intros i Hi. rewrite Hg by done.
  assert (taken i 256 = 64%nat) as -> by (unfold taken; div_lia). apply Z.mod_small, Hk, Hi.
Qed.

Lemma take_S_path k n : (n < 256)%nat -> take (S n) (GetPath k) = take n (GetPath k) ++ [Z.b2z (bit k n)].
Proof. intros Hn. by rewrite (take_S_r _ _ (Z.b2z (bit k n))) by (by apply GetPath_lookup). Qed.

Lemma imap_take_S {B} (f : nat -> Z -> B) k n : (n < 256)%nat ->
  imap f (take (S n) (GetPath k)) = imap f (take n (GetPath k)) ++ [f n (Z.b2z (bit k n))].
Proof.
  intros Hn. rewrite take_S_path, imap_app by done. simpl.
  by rewrite length_take, GetPath_length, Nat.min_l, Nat.add_0_r by lia.
Qed.

Lemma b2z_shift_u64 (b : bool) n : (n < 64)%nat -> u64 (Z.shiftl (Z.b2z b) (Z.of_nat n)) = Z.shiftl (Z.b2z b) (Z.of_nat n).
Proof.
  intros Hn. unfold u64. rewrite Z.shiftl_mul_pow2 by lia.
  pose proof (Z.pow_lt_mono_r 2 (Z.of_nat n) 64 ltac:(lia) ltac:(lia) ltac:(lia)).
  pose proof (Z.pow_pos_nonneg 2 (Z.of_nat n) ltac:(lia) ltac:(lia)).
  apply Z.mod_small. destruct b; simpl Z.b2z; lia.
Qed.

Lemma NodeKeyFromPath_GetPath k : key_ok k -> NodeKeyFromPath (GetPath k) = Ok k.
Proof.
  intros Hk. unfold NodeKeyFromPath. rewrite GetPath_length. cbn [negb Z.of_nat Z.eqb Pos.of_succ_nat].
  change (Z.of_nat 256 =? 256) with true. cbn [negb]. f_equal.
  set (step := fun _ _ => _).
  assert (forall n, (n <= 256)%nat ->
    gathered k n (foldl step zeroKey (imap pair (take n (GetPath k))))) as H.
  { induction n as [|n IH]; intros Hn; [apply gathered_0|].
    rewrite imap_take_S, foldl_app by lia. cbn [foldl]. apply gathered_S; [done|lia|apply IH; lia|].
    intros w. f_equal. assert (u64 (Z.b2z (bit k n)) = Z.b2z (bit k n)) as -> by (by destruct (bit k n)).
    apply b2z_shift_u64. div_lia. }
  apply gathered_all; [done|]. specialize (H 256%nat ltac:(lia)).
  by rewrite take_ge in H by (by rewrite GetPath_length).
Qed.

Lemma joinLoop_ok k n : key_ok k -> (n <= 256)%nat ->
  exists cnt acc, foldl joinStep (zeroKey, zeroKey) (imap pair (take n (GetPath k))) = (cnt, acc) /\
    (forall i, (i < 4)%nat -> wordAt i cnt = Z.of_nat (taken i n)) /\ gathered k n acc.
Proof.
  intros Hk. induction n as [|n IH]; intros Hn.
  { exists zeroKey, zeroKey. split; [done|]. split; [|apply gathered_0].
    intros i Hi. rewrite taken_0 by done. revert i Hi. apply wordAt_cases; reflexivity. }
  destruct IH as (cnt & acc & Heq & Hcnt & Hacc); [lia|].
  rewrite imap_take_S, foldl_app, Heq by lia. cbn [foldl]. unfold joinStep. do 2 eexists.
  split; [done|]. pose proof (mod4_lt n) as Hm. split.
  - intros i Hi. rewrite wordAt_atWord, taken_S by done.
    pose proof (taken_le i n ltac:(lia) Hi) as Ht.
    destruct (decide (i = n mod 4)%nat); [|by apply Hcnt]. rewrite Hcnt by done.
    unfold u64. rewrite Z.mod_small by lia. lia.
  - rewrite Hcnt, taken_here by done.
    destruct (bit k n) eqn:Hb; cbn [Z.b2z Z.eqb Pos.eqb].
    + apply gathered_S; [done|lia|done|]. intros w. rewrite Hb. f_equal.
      apply (b2z_shift_u64 true). div_lia.
    + intros i Hi. rewrite taken_S by done.
      destruct (decide (i = n mod 4)%nat) as [->|]; [|by apply Hacc].
      rewrite Hacc, taken_here by done. rewrite Nat2Z.inj_succ. unfold Z.succ.
      rewrite low_bits_S by (lia || apply Hk, Hm). unfold bit in Hb. rewrite Hb. simpl Z.b2z.
      by rewrite Z.shiftl_0_l, Z.lor_0_r.
Qed.

Lemma rejoin w c : 0 <= w < 2 ^ 64 -> 0 <= c ->
  Z.lor (u64 (Z.shiftl (Z.shiftr w c) c)) (w mod 2 ^ c) = w.
Proof.
  intros Hw Hc. assert (0 <= Z.shiftl (Z.shiftr w c) c < 2 ^ 64) as Hr.
  { rewrite Z.shiftl_mul_pow2, Z.shiftr_div_pow2 by done.
    pose proof (Z.pow_pos_nonneg 2 c ltac:(lia) Hc) as HP.
    pose proof (Z.div_mod w (2 ^ c) ltac:(lia)). pose proof (Z.mod_pos_bound w (2 ^ c) HP).
    pose proof (Z.div_pos w (2 ^ c) ltac:(lia) HP). nia. }
  unfold u64. rewrite Z.mod_small by done. apply Z.bits_inj'. intros n Hn.
  rewrite Z.lor_spec, Z.shiftl_spec by done. destruct (decide (n < c)) as [Hlt|Hge].
  - rewrite Z.testbit_neg_r, Z.mod_pow2_bits_low by lia. done.
  - rewrite Z.mod_pow2_bits_high, orb_false_r, Z.shiftr_spec by lia. f_equal. lia.
Qed.

Lemma take_path_ext a b n : (n <= 256)%nat -> (forall j, (j < n)%nat -> bit a j = bit b j) ->
  take n (GetPath a) = take n (GetPath b).
Proof.
  intros Hn H. apply list_eq. intros j. destruct (decide (j < n)%nat) as [Hlt|Hge].
  - rewrite !lookup_take_lt, !GetPath_lookup, H by lia. done.
  - rewrite !lookup_take_ge by lia. done.
Qed.

(** The bits on the way to a leaf and the bits the leaf keeps make up its key. *)
Lemma JoinKey_RemoveKeyBits k k' n : key_ok k' -> (n <= 256)%nat ->
  (forall j, (j < n)%nat -> bit k j = bit k' j) ->
  JoinKey (take n (GetPath k)) (RemoveKeyBits k' (Z.of_nat n)) = k'.
Proof.
  intros Hk' Hn Hpre. rewrite (take_path_ext k k' n Hn Hpre). unfold JoinKey.
  destruct (joinLoop_ok k' n Hk' Hn) as (cnt & acc & -> & Hcnt & Hacc).
  assert (forall i, (i < 4)%nat ->
    Z.lor (u64 (Z.shiftl (wordAt i (RemoveKeyBits k' (Z.of_nat n))) (wordAt i cnt))) (wordAt i acc)
    = wordAt i k') as H.
  { intros i Hi. rewrite RemoveKeyBits_word, Hcnt, Hacc by done. apply rejoin; [by apply Hk'|lia]. }
  apply key_eq. intros i Hi. specialize (H i Hi). revert i Hi H.
  intros [|[|[|[|i]]]] Hi H; try lia; exact H.
Qed.

Lemma RemoveKeyBits_inj a b n : key_ok a -> key_ok b -> (n <= 256)%nat ->
  (forall j, (j < n)%nat -> bit a j = bit b j) ->
  RemoveKeyBits a (Z.of_nat n) = RemoveKeyBits b (Z.of_nat n) -> a = b.
Proof.
  intros Ha Hb Hn Hpre H. rewrite <- (JoinKey_RemoveKeyBits a a n Ha Hn (fun _ _ => eq_refl)).
  rewrite H. by apply JoinKey_RemoveKeyBits.
Qed.

(** ** Scalars *)

Lemma bigUint64_small z : 0 <= z < 2 ^ 64 -> bigUint64 z = z.
Proof. intros Hz. unfold bigUint64. rewrite Z.abs_eq by lia. by apply Z.mod_small. Qed.

Lemma key_ok_words k : key_ok k ->
  0 <= w0 k < 2 ^ 64 /\ 0 <= w1 k < 2 ^ 64 /\ 0 <= w2 k < 2 ^ 64 /\ 0 <= w3 k < 2 ^ 64.
Proof.
  intros H. pose proof (H 0%nat ltac:(lia)). pose proof (H 1%nat ltac:(lia)).
  pose proof (H 2%nat ltac:(lia)). pose proof (H 3%nat ltac:(lia)). done.
Qed.

Lemma Key_ToBigInt_eq k : Key_ToBigInt k = w0 k + 2 ^ 64 * (w1 k + 2 ^ 64 * (w2 k + 2 ^ 64 * w3 k)).
Proof. unfold Key_ToBigInt, ArrayToScalar, words. cbn [foldr]. rewrite !Z.shiftl_mul_pow2 by lia. lia. Qed.

Lemma Key_ToBigInt_range k : key_ok k -> 0 <= Key_ToBigInt k < 2 ^ 256.
Proof. intros (H0 & H1 & H2 & H3)%key_ok_words. rewrite Key_ToBigInt_eq. nia. Qed.

Lemma divmod_step a b : 0 <= a < 2 ^ 64 -> (a + 2 ^ 64 * b) mod 2 ^ 64 = a /\ (a + 2 ^ 64 * b) / 2 ^ 64 = b.
Proof.
  intros Ha. replace (a + 2 ^ 64 * b) with (a + b * 2 ^ 64) by lia.
  rewrite Z.mod_add, Z.div_add, Z.mod_small, Z.div_small by lia. lia.
Qed.

Lemma ScalarToRoot_ToBigInt k : key_ok k -> ScalarToRoot (Key_ToBigInt k) = k.
Proof.
  intros Hk. pose proof (key_ok_words k Hk) as (H0 & H1 & H2 & H3). rewrite Key_ToBigInt_eq.
  unfold ScalarToRoot.
  destruct (divmod_step (w0 k) (w1 k + 2 ^ 64 * (w2 k + 2 ^ 64 * w3 k)) H0) as [-> ->].
  destruct (divmod_step (w1 k) (w2 k + 2 ^ 64 * w3 k) H1) as [-> ->].
  destruct (divmod_step (w2 k) (w3 k) H2) as [-> ->].
  rewrite (Z.mod_small (w3 k)) by done. rewrite !bigUint64_small by done. by destruct k.
Qed.

Lemma Key_ToBigInt_inj a b : key_ok a -> key_ok b -> Key_ToBigInt a = Key_ToBigInt b -> a = b.
Proof.
  intros Ha Hb H. rewrite <- (ScalarToRoot_ToBigInt a Ha), H. by apply ScalarToRoot_ToBigInt.
Qed.

Lemma land_mask32 z : Z.land z 4294967295 = z mod 2 ^ 32.
Proof. change 4294967295 with (Z.ones 32). apply Z.land_ones. lia. Qed.

Lemma ArrayBigToScalar_ScalarToArrayBig v : 0 <= v < 2 ^ 256 ->
  ArrayBigToScalar (ScalarToArrayBig v) = v.
Proof.
  intros Hv. unfold ArrayBigToScalar, ScalarToArrayBig.
  assert (forall n i, 0 <= i -> foldr (fun v scalar => Z.shiftl scalar 32 + v) 0
    (map (fun i => Z.land (Z.shiftr v (32 * i)) 4294967295) (map (fun k => i + Z.of_nat k) (seq 0 n)))
    = Z.shiftr v (32 * i) mod 2 ^ (32 * Z.of_nat n)) as H.
  { induction n as [|n IH]; intros i Hi; [simpl; by rewrite Z.mod_1_r|].
    cbn [seq map foldr].
    assert (map (fun k => i + Z.of_nat k) (seq 1 n) = map (fun k => i + 1 + Z.of_nat k) (seq 0 n)) as ->
      by (rewrite <- seq_shift, map_map; apply map_ext; lia).
    rewrite (IH (i + 1)) by lia. rewrite land_mask32, Z.add_0_r.
    replace (32 * (i + 1)) with (32 * i + 32) by lia. rewrite <- Z.shiftr_shiftr by lia.
    rewrite (Z.shiftr_div_pow2 _ 32), Z.shiftl_mul_pow2 by lia.
    replace (32 * Z.of_nat (S n)) with (32 + 32 * Z.of_nat n) by lia.
    rewrite Z.pow_add_r, Z.rem_mul_r by lia. lia. }
  specialize (H 8%nat 0 ltac:(lia)). change (map (fun k => 0 + Z.of_nat k) (seq 0 8)) with [0; 1; 2; 3; 4; 5; 6; 7] in H.
  rewrite H. change (32 * Z.of_nat 8) with 256. rewrite Z.mod_small, Z.shiftr_0_r; [done|].
  by rewrite Z.shiftr_0_r.
Qed.

(** ** Hex *)

Lemma ConvertHex_round_trip n : match n with Some z => 0 <= z | None => True end ->
  ConvertHexToBigInt (ConvertBigIntToHex n) = n.
Proof.
  unfold ConvertHexToBigInt, ConvertBigIntToHex. cbn [TrimPrefix0x].
  change (Ascii.eqb "0" "0" && Ascii.eqb "x" "x") with true. cbv iota.
  destruct n as [z|]; [|done]. intros Hz. rewrite (proj2 (Z.ltb_ge _ _)) by done.
  by apply ParseHex_FormatHex.
Qed.

Lemma ConvertBigIntToHex_inj a b : 0 <= a -> 0 <= b ->
  ConvertBigIntToHex (Some a) = ConvertBigIntToHex (Some b) -> a = b.
Proof.
  intros Ha Hb H. apply (f_equal ConvertHexToBigInt) in H.
  rewrite !ConvertHex_round_trip in H by done. by injection H.
Qed.

(** ** The properties *)

(** Keys and paths.  A key is given back by its path, by its scalar, and at
    every level by the bits used on the way down joined with the bits kept in a
    leaf at that level. *)
Theorem smt_key_round_trip k n :
  key_ok k -> (n <= 256)%nat ->
  NodeKeyFromPath (GetPath k) = Ok k /\ ScalarToRoot (Key_ToBigInt k) = k /\
  JoinKey (take n (GetPath k)) (RemoveKeyBits k (Z.of_nat n)) = k.
Proof.
  intros Hk Hn. split; [by apply NodeKeyFromPath_GetPath|]. split; [by apply ScalarToRoot_ToBigInt|].
  by apply JoinKey_RemoveKeyBits.
Qed.

Lemma smt_key_round_trip_witness :
  JoinKey (take 7 (GetPath (mkKey 5 (2 ^ 64 - 1) 9 12))) (RemoveKeyBits (mkKey 5 (2 ^ 64 - 1) 9 12) 7)
  = mkKey 5 (2 ^ 64 - 1) 9 12.
Proof.
  apply (smt_key_round_trip (mkKey 5 (2 ^ 64 - 1) 9 12) 7); [|lia].
  intros i Hi. destruct i as [|[|[|[|i]]]]; [simpl; lia..|lia].
Defined.

(** Values and key sources.  A 256-bit value is given back by its eight
    32-bit limbs, and a key source by its bytes: the storage position is kept
    for storage keys only. *)
Theorem smt_value_round_trip v t addr pos :
  0 <= v < 2 ^ 256 -> 0 <= t < 256 -> 0 <= addr < 2 ^ 160 -> 0 <= pos < 2 ^ 256 ->
  (nv ← NodeValue8FromBigInt v; NodeValue8ToBigInt nv) = Ok v /\
  DecodeKeySource (EncodeKeySource t addr pos) = Ok (t, addr, if t =? SC_STORAGE then pos else 0).
Proof.
  intros Hv Ht Ha Hp. split.
  - unfold NodeValue8FromBigInt, NodeValue8FromBigIntArray. rewrite length_map.
    change (length (ScalarToArrayBig v)) with 8%nat. change (Z.of_nat 8 =? 8) with true. cbn [negb].
    rewrite bind_ok. unfold NodeValue8ToBigInt.
    assert (forall l, mapM (M := outcome) (@nonNil Z) (map Some l) = Ok l) as ->.
    { induction l as [|x l IH]; [done|]. simpl. by rewrite IH. }
    rewrite bind_ok. by rewrite ArrayBigToScalar_ScalarToArrayBig.
  - unfold DecodeKeySource, EncodeKeySource.
    assert (u8 t = t) as -> by (by apply Z.mod_small). rewrite !length_app, be_encode_length.
    cbn [length]. set (suffix := if t =? SC_STORAGE then _ else _).
    rewrite (proj2 (Z.ltb_ge _ _)) by lia.
    rewrite (index_at _ [] (be_encode 20 addr ++ suffix) t), bind_ok by done.
    rewrite (slice_at _ [t] (be_encode 20 addr) suffix 1 21), bind_ok by
      (rewrite ?be_encode_length; done).
    rewrite be_decode_encode_small by (change (256 ^ Z.of_nat 20) with (2 ^ 160); lia).
    unfold suffix. destruct (Z.eqb_spec t SC_STORAGE); [|done].
    rewrite be_encode_length. change (_ <? _) with false.
    rewrite (slice_at _ ([t] ++ be_encode 20 addr) (be_encode 32 pos) []), bind_ok by
      (rewrite ?app_nil_r, ?length_app, ?be_encode_length; done).
    rewrite be_decode_encode_small by (change (256 ^ Z.of_nat 32) with (2 ^ 256); lia). done.
Qed.

Lemma smt_value_round_trip_witness :
  (nv ← NodeValue8FromBigInt (2 ^ 200 + 7); NodeValue8ToBigInt nv) = Ok (2 ^ 200 + 7) /\
  DecodeKeySource (EncodeKeySource 3 77 88) = Ok (3, 77, 88).
Proof. apply (smt_value_round_trip (2 ^ 200 + 7) 3 77 88); lia. Defined.
