(* ===== verification/SmtTree.v ===== *)
(** * The abstract sparse Merkle tree

    The specification of the tree of [Smt]: a binary trie over the paths of the
    keys, whose leaves sit as high as they can.  Such a tree is determined by
    the finite map it holds: inserting and deleting keys in any order gives the
    same tree for the same map. *)
From S2P Require Import Prelude SmtUtils.

Inductive tree :=
| E
| Leaf (k : NodeKey) (v : list Z)
| B (l r : tree).

(** ** Operations *)

Definition branch (d : nat) (k : NodeKey) (sub other : tree) : tree :=
  if bit k d then B other sub else B sub other.

(** Two leaves below the level [d], kept apart at the first bit they differ in. *)
Fixpoint split (fuel d : nat) (k : NodeKey) (v : list Z) (k' : NodeKey) (v' : list Z) : tree :=
  match fuel with
  | O => E
  | S fuel =>
      if Bool.eqb (bit k d) (bit k' d) then branch d k (split fuel (S d) k v k' v') E
      else branch d k (Leaf k v) (Leaf k' v')
  end.

Fixpoint tins (d : nat) (k : NodeKey) (v : list Z) (t : tree) : tree :=
  match t with
  | E => Leaf k v
  | Leaf k' v' => if decide (k = k') then Leaf k v else split (256 - d) d k v k' v'
  | B l r => if bit k d then B l (tins (S d) k v r) else B (tins (S d) k v l) r
  end.

(** A branch over a single leaf is that leaf. *)
Definition mkB (l r : tree) : tree :=
  match l, r with
  | E, E => E
  | E, Leaf k v => Leaf k v
  | Leaf k v, E => Leaf k v
  | _, _ => B l r
  end.

Fixpoint tdel (d : nat) (k : NodeKey) (t : tree) : tree :=
  match t with
  | E => E
  | Leaf k' v' => if decide (k = k') then E else t
  | B l r => if bit k d then mkB l (tdel (S d) k r) else mkB (tdel (S d) k l) r
  end.

Fixpoint tget (d : nat) (k : NodeKey) (t : tree) : option (list Z) :=
  match t with
  | E => None
  | Leaf k' v' => if decide (k = k') then Some v' else None
  | B l r => if bit k d then tget (S d) k r else tget (S d) k l
  end.

(** ** The invariant *)

Definition value_ok (v : list Z) : Prop := length v = 8%nat /\ Forall word_ok v.

Fixpoint inT (k : NodeKey) (t : tree) : Prop :=
  match t with
  | E => False
  | Leaf k' _ => k = k'
  | B l r => inT k l \/ inT k r
  end.

(** Every leaf is where its path leads. *)
Fixpoint placed (d : nat) (t : tree) : Prop :=
  match t with
  | E => True
  | Leaf k v => key_ok k /\ value_ok v
  | B l r => (d < 256)%nat /\ (forall k, inT k l -> bit k d = false) /\
      (forall k, inT k r -> bit k d = true) /\ placed (S d) l /\ placed (S d) r
  end.

(** Not fewer than two leaves. *)
Definition many (l r : tree) : Prop :=
  match l, r with
  | E, E | E, Leaf _ _ | Leaf _ _, E => False
  | _, _ => True
  end.

Fixpoint canonical (t : tree) : Prop :=
  match t with
  | E | Leaf _ _ => True
  | B l r => canonical l /\ canonical r /\ many l r
  end.

Definition agree (d : nat) (k k' : NodeKey) : Prop := forall j, (j < d)%nat -> bit k j = bit k' j.

(** All leaves are in the subtree that the path of [k] leads to at level [d]. *)
Definition under (d : nat) (k : NodeKey) (t : tree) : Prop := forall k', inT k' t -> agree d k k'.

Lemma agree_S d k k' : agree d k k' -> bit k d = bit k' d -> agree (S d) k k'.
Proof.
  intros H Hb j Hj. destruct (decide (j = d)) as [->|]; [done|]. apply H. lia.
Qed.

Lemma under_0 k t : under 0 k t.
Proof. intros k' _ j Hj. lia. Qed.

(** The subtree on the side of [k]. *)
Definition side (k : NodeKey) (d : nat) (l r : tree) : tree := if bit k d then r else l.

Lemma under_side d k l r : placed d (B l r) -> under d k (B l r) ->
  under (S d) k (if bit k d then r else l).
Proof.
  intros (_ & Hl & Hr & _) Hu k' Hk'. apply agree_S.
  - apply Hu. simpl. destruct (bit k d); auto.
  - destruct (bit k d) eqn:Hb; [symmetry; by apply Hr|symmetry; by apply Hl].
Qed.

(** Different keys differ in a bit. *)
Lemma agree_256 k k' : key_ok k -> key_ok k' -> agree 256 k k' -> k = k'.
Proof. intros Hk Hk' H. by apply key_ext. Qed.

Lemma agree_lt d k k' : key_ok k -> key_ok k' -> k <> k' -> agree d k k' -> (d < 256)%nat.
Proof.
  intros Hk Hk' Hne H. destruct (decide (d < 256)%nat); [done|].
  destruct Hne. apply agree_256; [done..|]. intros j Hj. apply H. lia.
Qed.

(** ** Splitting *)

Lemma split_ind (P : nat -> tree -> Prop) k v k' v' : key_ok k -> key_ok k' -> k <> k' ->
  (forall d, (d < 256)%nat -> agree d k k' -> bit k d <> bit k' d ->
     P d (branch d k (Leaf k v) (Leaf k' v'))) ->
  (forall d t, (d < 256)%nat -> agree d k k' -> bit k d = bit k' d -> P (S d) t ->
     (exists l r, t = B l r) -> P d (branch d k t E)) ->
  forall n d, (d + n = 256)%nat -> agree d k k' ->
    P d (split n d k v k' v') /\ exists l r, split n d k v k' v' = B l r.
Proof.
  intros Hk Hk' Hne H1 H2. induction n as [|n IH]; intros d Hd Ha.
  { destruct Hne. apply agree_256; [done..|]. by replace 256%nat with d by lia. }
  cbn [split]. destruct (Bool.eqb (bit k d) (bit k' d)) eqn:Eb.
  - apply eqb_prop in Eb. destruct (IH (S d)) as [HP Hex]; [lia|by apply agree_S|].
    split; [apply H2; [lia|done..]|]. unfold branch. destruct (bit k d); eauto.
  - apply eqb_false_iff in Eb. split; [apply H1; [lia|done..]|].
    unfold branch. destruct (bit k d); eauto.
Qed.

Lemma branch_get d k sub other k2 :
  tget d k2 (branch d k sub other) = if Bool.eqb (bit k2 d) (bit k d) then tget (S d) k2 sub else tget (S d) k2 other.
Proof. unfold branch. destruct (bit k d) eqn:E1; simpl; destruct (bit k2 d); done. Qed.

Lemma split_get k v k' v' n d k2 : key_ok k -> key_ok k' -> k <> k' -> (d + n = 256)%nat -> agree d k k' ->
  tget d k2 (split n d k v k' v') =
    if decide (k2 = k) then Some v else if decide (k2 = k') then Some v' else None.
Proof.
  intros Hk Hk' Hne Hd Ha.
  apply (split_ind (fun d t => tget d k2 t =
    if decide (k2 = k) then Some v else if decide (k2 = k') then Some v' else None) k v k' v');
    try done; clear d n Hd Ha; intros d.
  - intros Hd Ha Hb. rewrite branch_get. cbn [tget]. destruct (Bool.eqb (bit k2 d) (bit k d)) eqn:Eb.
    + apply eqb_prop in Eb. destruct (decide (k2 = k)); [done|]. destruct (decide (k2 = k')); [congruence|done].
    + apply eqb_false_iff in Eb. destruct (decide (k2 = k)); [congruence|done].
  - intros t Hd Ha Hb IH _. rewrite branch_get, IH. destruct (Bool.eqb (bit k2 d) (bit k d)) eqn:Eb; [done|].
    apply eqb_false_iff in Eb. cbn [tget]. rewrite !decide_False; [done|congruence..].
Qed.

Lemma branch_inT d k sub other k2 : inT k2 (branch d k sub other) <-> inT k2 sub \/ inT k2 other.
Proof. unfold branch. destruct (bit k d); simpl; tauto. Qed.

Lemma branch_placed d k sub other : (d < 256)%nat -> placed (S d) sub -> placed (S d) other ->
  (forall k2, inT k2 sub -> bit k2 d = bit k d) -> (forall k2, inT k2 other -> bit k2 d = negb (bit k d)) ->
  placed d (branch d k sub other).
Proof.
  intros Hd H1 H2 H3 H4. unfold branch. destruct (bit k d); simpl; split_and!; auto.
Qed.

Lemma split_ok k v k' v' n d : key_ok k -> key_ok k' -> value_ok v -> value_ok v' -> k <> k' ->
  (d + n = 256)%nat -> agree d k k' ->
  placed d (split n d k v k' v') /\ canonical (split n d k v k' v') /\
  (forall k2, inT k2 (split n d k v k' v') -> k2 = k \/ k2 = k') /\
  exists l r, split n d k v k' v' = B l r.
Proof.
  intros Hk Hk' Hv Hv' Hne Hd Ha.
  cut (((placed d (split n d k v k' v') /\ canonical (split n d k v k' v')) /\
    (forall k2, inT k2 (split n d k v k' v') -> k2 = k \/ k2 = k')) /\
    exists l r, split n d k v k' v' = B l r); [tauto|].
  apply (split_ind (fun d t => (placed d t /\ canonical t) /\ forall k2, inT k2 t -> k2 = k \/ k2 = k')
    k v k' v'); try done; clear d n Hd Ha; intros d.
  - intros Hd Ha Hb. split; [split|].
    + apply branch_placed; simpl; try done; [by intros k2 ->|]. intros k2 ->.
      by destruct (bit k d), (bit k' d).
    + unfold branch. destruct (bit k d); simpl; done.
    + intros k2. rewrite branch_inT. simpl. tauto.
  - intros t Hd Ha Hb ((HP & HC) & HI) (l & r & ->). split; [split|].
    + apply branch_placed; simpl; try done. intros k2 Hk2. destruct (HI k2 Hk2) as [->| ->]; congruence.
    + unfold branch. destruct (bit k d); simpl in *; tauto.
    + intros k2. rewrite branch_inT. intros [?|[]]. auto.
Qed.

(** ** Insertion and deletion *)

Lemma tget_inT k t : forall d v, tget d k t = Some v -> inT k t.
Proof.
  induction t as [|k' v'|l IHl r IHr]; intros d v Hg; simpl in *; [done| |].
  - by destruct (decide (k = k')).
  - destruct (bit k d); [right; by eapply IHr|left; by eapply IHl].
Qed.

Lemma inT_tget k t : forall d, placed d t -> inT k t -> exists v, tget d k t = Some v.
Proof.
  induction t as [|k' v'|l IHl r IHr]; intros d Hp Hi; simpl in *; [done| |].
  - subst. rewrite decide_True by done. eauto.
  - destruct Hp as (_ & Hl & Hr & Pl & Pr).
    destruct Hi as [Hi|Hi]; [rewrite (Hl k Hi)|rewrite (Hr k Hi)]; auto.
Qed.

Lemma tins_get k v t : forall d k2, key_ok k -> (d <= 256)%nat -> placed d t -> under d k t ->
  tget d k2 (tins d k v t) = if decide (k2 = k) then Some v else tget d k2 t.
Proof.
  induction t as [|k' v'|l IHl r IHr]; intros d k2 Hk Hd Hp Hu; cbn [tins].
  - done.
  - destruct (decide (k = k')) as [<-|Hne].
    + cbn [tget]. destruct (decide (k2 = k)); done.
    + rewrite split_get; [done|done|apply Hp|done|lia|by apply Hu].
  - pose proof (under_side d k l r Hp Hu) as Hs. destruct Hp as (Hlt & Hl & Hr & Pl & Pr).
    destruct (bit k d) eqn:Hb; cbn [tget];
      [rewrite IHr by (done || lia)|rewrite IHl by (done || lia)];
      (destruct (decide (k2 = k)) as [->|]; [by rewrite Hb|done]).
Qed.

Lemma tins_inT k v t : forall d k2, key_ok k -> value_ok v -> (d <= 256)%nat -> placed d t -> under d k t ->
  inT k2 (tins d k v t) -> k2 = k \/ inT k2 t.
Proof.
  induction t as [|k' v'|l IHl r IHr]; intros d k2 Hk Hv Hd Hp Hu Hi; cbn [tins] in Hi.
  - by left.
  - destruct (decide (k = k')) as [<-|Hne]; [by left|].
    destruct (split_ok k v k' v' (256 - d) d) as (_ & _ & HI & _);
      [done|apply Hp|done|apply Hp|done|lia|by apply Hu|]. destruct (HI k2 Hi); auto.
  - pose proof (under_side d k l r Hp Hu) as Hs. destruct Hp as (Hlt & Hl & Hr & Pl & Pr).
    destruct (bit k d) eqn:Hb; simpl in Hi |- *; destruct Hi as [Hi|Hi]; try tauto.
    + destruct (IHr (S d) k2); auto.
    + destruct (IHl (S d) k2); auto.
Qed.

Lemma many_grow l r r' : many l r -> r' <> E -> (forall a b, r = B a b -> exists a' b', r' = B a' b') ->
  many l r' /\ (many r l -> many r' l).
Proof.
  intros Hm Hne HB. destruct r as [| |a b]; [..|destruct (HB a b eq_refl) as (? & ? & ->); by destruct l].
  - destruct l; simpl in *; try done. split; [done|]. intros _. by destruct r'.
  - destruct l, r'; simpl in *; done.
Qed.

Lemma many_comm l r : many l r -> many r l.
Proof. by destruct l, r. Qed.

Lemma tins_ok k v t : forall d, key_ok k -> value_ok v -> (d <= 256)%nat -> placed d t -> under d k t ->
  canonical t -> placed d (tins d k v t) /\ canonical (tins d k v t) /\ tins d k v t <> E /\
  (forall l r, t = B l r -> exists l' r', tins d k v t = B l' r').
Proof.
  induction t as [|k' v'|l IHl r IHr]; intros d Hk Hv Hd Hp Hu Hc; cbn [tins].
  - simpl. done.
  - destruct (decide (k = k')) as [<-|Hne]; [simpl; split_and!; done|].
    destruct (split_ok k v k' v' (256 - d) d) as (HP & HC & _ & l & r & Eq);
      [done|apply Hp|done|apply Hp|done|lia|by apply Hu|]. split_and!; try done. by rewrite Eq.
  - pose proof (under_side d k l r Hp Hu) as Hs. destruct Hp as (Hlt & Hl & Hr & Pl & Pr).
    destruct Hc as (Cl & Cr & Hm).
    destruct (bit k d) eqn:Hb; (split_and!; [| |done|eauto]).
    + destruct (IHr (S d)) as (P' & _); [done..|]. simpl. split_and!; try done.
      intros k2 Hi. apply tins_inT in Hi as [->|Hi]; try done; auto.
    + destruct (IHr (S d)) as (_ & C' & HE' & HB'); [done..|]. simpl. split_and!; [done..|].
      by apply (many_grow l r).
    + destruct (IHl (S d)) as (P' & _); [done..|]. simpl. split_and!; try done.
      intros k2 Hi. apply tins_inT in Hi as [->|Hi]; try done; auto.
    + destruct (IHl (S d)) as (_ & C' & HE' & HB'); [done..|]. simpl. split_and!; [done..|].
      apply many_comm. apply (many_grow r l); [by apply many_comm|done..].
Qed.

Lemma mkB_cases l r : canonical l -> canonical r ->
  canonical (mkB l r) /\ (forall k, inT k (mkB l r) <-> inT k l \/ inT k r).
Proof. destruct l, r; simpl; intros Hl Hr; split; tauto. Qed.

Lemma mkB_placed d l r : placed d (B l r) -> placed d (mkB l r).
Proof. destruct l, r; simpl; tauto. Qed.

Lemma mkB_get d l r k : placed d (B l r) -> tget d k (mkB l r) = tget d k (B l r).
Proof.
  intros (_ & Hl & Hr & _). destruct l as [|k1 v1|], r as [|k2 v2|]; try done; simpl.
  - by destruct (bit k d).
  - destruct (decide (k = k2)) as [->|]; [by rewrite (Hr k2 eq_refl)|by destruct (bit k d)].
  - destruct (decide (k = k1)) as [->|]; [by rewrite (Hl k1 eq_refl)|by destruct (bit k d)].
Qed.

Lemma tdel_inT k t : forall d k2, inT k2 (tdel d k t) -> inT k2 t.
Proof.
  assert (forall l r k2, inT k2 (mkB l r) -> inT k2 l \/ inT k2 r) as HB
    by (intros [] [] k2; simpl; tauto).
  induction t as [|k' v'|l IHl r IHr]; intros d k2; simpl; [done| |].
  - by destruct (decide (k = k')).
  - destruct (bit k d); intros Hi%HB; destruct Hi; eauto.
Qed.

Lemma tdel_ok k t : forall d, placed d t -> canonical t ->
  placed d (tdel d k t) /\ canonical (tdel d k t).
Proof.
  induction t as [|k' v'|l IHl r IHr]; intros d Hp Hc; simpl; [done| |].
  - destruct (decide (k = k')); [done|]. split; [exact Hp|done].
  - destruct Hp as (Hlt & Hl & Hr & Pl & Pr). destruct Hc as (Cl & Cr & _).
    destruct (bit k d); (split; [apply mkB_placed; simpl; split_and!|apply mkB_cases]); try done;
      try (by apply IHl); try (by apply IHr); intros k2 Hi%tdel_inT; auto.
Qed.

Lemma tdel_get k t : forall d k2, placed d t -> canonical t ->
  tget d k2 (tdel d k t) = if decide (k2 = k) then None else tget d k2 t.
Proof.
  induction t as [|k' v'|l IHl r IHr]; intros d k2 Hp Hc; cbn [tdel].
  - by destruct (decide (k2 = k)).
  - cbn [tget]. destruct (decide (k = k')) as [->|]; cbn [tget]; destruct (decide (k2 = k')) as [->|];
      rewrite ?decide_True, ?decide_False by congruence; try done. by destruct (decide (k2 = k)).
  - destruct Hp as (Hlt & Hl & Hr & Pl & Pr). destruct Hc as (Cl & Cr & _).
    destruct (tdel_ok k l (S d) Pl Cl) as [Pl' _]. destruct (tdel_ok k r (S d) Pr Cr) as [Pr' _].
    destruct (bit k d) eqn:Hb; (rewrite mkB_get; [|simpl; split_and!; try done; intros ? Hi%tdel_inT; auto]);
      cbn [tget]; [rewrite IHr by done|rewrite IHl by done];
      (destruct (decide (k2 = k)) as [->|]; [by rewrite Hb|done]).
Qed.

(** ** A tree is determined by what it holds *)

Lemma canonical_leaves t : forall d, placed d t -> canonical t ->
  match t with
  | E => True
  | Leaf k _ => inT k t
  | B _ _ => exists k1 k2, k1 <> k2 /\ inT k1 t /\ inT k2 t
  end.
Proof.
  induction t as [|k v|l IHl r IHr]; intros d Hp Hc; [done..|].
  destruct Hp as (_ & Hl & Hr & Pl & Pr). destruct Hc as (Cl & Cr & Hm).
  specialize (IHl (S d) Pl Cl). specialize (IHr (S d) Pr Cr).
  assert (forall k1 k2, inT k1 l -> inT k2 r ->
    exists k1 k2, k1 <> k2 /\ inT k1 (B l r) /\ inT k2 (B l r)) as Hboth.
  { intros k1 k2 H1 H2. exists k1, k2. simpl. split; [|tauto]. intros ->.
    specialize (Hl _ H1). specialize (Hr _ H2). congruence. }
  destruct l as [|k1 v1|l1 l2], r as [|k2 v2|r1 r2]; try done.
  - destruct IHr as (k1 & k2 & Hne & H1 & H2). exists k1, k2. simpl in *. tauto.
  - by apply (Hboth k1 k2).
  - destruct IHr as (k2 & _ & _ & H2 & _). by apply (Hboth k1 k2).
  - destruct IHl as (k1 & k2 & Hne & H1 & H2). exists k1, k2. simpl in *. tauto.
  - destruct IHl as (k1 & _ & _ & H1 & _). by apply (Hboth k1 k2).
  - destruct IHl as (k1 & _ & _ & H1 & _), IHr as (k2 & _ & _ & H2 & _). by apply (Hboth k1 k2).
Qed.

Lemma same_keys t1 t2 d : placed d t1 -> (forall k, tget d k t1 = tget d k t2) ->
  forall k, inT k t1 -> inT k t2.
Proof.
  intros Hp He k Hi. destruct (inT_tget k t1 d Hp Hi) as [v Hv]. rewrite He in Hv. by eapply tget_inT.
Qed.

(** The left and right subtrees hold what the tree holds on their side. *)
Lemma halves_get d l1 r1 l2 r2 : placed d (B l1 r1) -> placed d (B l2 r2) ->
  (forall k, tget d k (B l1 r1) = tget d k (B l2 r2)) ->
  (forall k, tget (S d) k l1 = tget (S d) k l2) /\ (forall k, tget (S d) k r1 = tget (S d) k r2).
Proof.
  intros (_ & Hl1 & Hr1 & _) (_ & Hl2 & Hr2 & _) He.
  assert (forall (b : bool) t, (forall k, inT k t -> bit k d = b) ->
    forall k, bit k d = negb b -> tget (S d) k t = None) as Hnone.
  { intros b t Ht k Hb. destruct (tget (S d) k t) eqn:Eg; [|done].
    apply tget_inT, Ht in Eg. rewrite Eg in Hb. by destruct b. }
  split; intros k; specialize (He k); simpl in He; destruct (bit k d) eqn:Hb; try done.
  - by rewrite (Hnone false l1), (Hnone false l2).
  - by rewrite (Hnone true r1), (Hnone true r2).
Qed.

Lemma tree_ext t1 : forall t2 d, placed d t1 -> placed d t2 -> canonical t1 -> canonical t2 ->
  (forall k, tget d k t1 = tget d k t2) -> t1 = t2.
Proof.
  induction t1 as [|k1 v1|l1 IHl r1 IHr]; intros t2 d P1 P2 C1 C2 He;
    pose proof (canonical_leaves _ d P1 C1) as L1; pose proof (canonical_leaves _ d P2 C2) as L2;
    pose proof (same_keys _ _ d P1 He) as K1; pose proof (same_keys _ _ d P2 (fun k => eq_sym (He k))) as K2;
    destruct t2 as [|k2 v2|l2 r2]; try done.
  - by apply K2 in L2.
  - by destruct L2 as (k & _ & _ & Hk%K2 & _).
  - by apply K1 in L1.
  - apply K1 in L1. simpl in L1. subst k2. specialize (He k1). simpl in He.
    rewrite !decide_True in He by done. congruence.
  - destruct L2 as (a & b & Hne & Ha%K2 & Hb%K2). simpl in *. congruence.
  - by destruct L1 as (k & _ & _ & Hk%K1 & _).
  - destruct L1 as (a & b & Hne & Ha%K1 & Hb%K1). simpl in *. congruence.
  - destruct (halves_get d l1 r1 l2 r2 P1 P2 He) as [El Er].
    destruct P1 as (_ & _ & _ & ? & ?), P2 as (_ & _ & _ & ? & ?), C1 as (? & ? & _), C2 as (? & ? & _).
    f_equal; [by apply (IHl _ (S d))|by apply (IHr _ (S d))].
Qed.

(** ** Sequences of operations *)

(** Setting a key to the zero value removes it. *)
Definition is_zero (v : list Z) : bool := forallb (Z.eqb 0) v.

Definition tput (t : tree) (kv : NodeKey * list Z) : tree :=
  if is_zero (snd kv) then tdel 0 (fst kv) t else tins 0 (fst kv) (snd kv) t.

Definition mput (m : gmap NodeKey (list Z)) (kv : NodeKey * list Z) : gmap NodeKey (list Z) :=
  if is_zero (snd kv) then delete (fst kv) m else <[fst kv := snd kv]> m.

Definition op_ok (kv : NodeKey * list Z) : Prop := key_ok (fst kv) /\ value_ok (snd kv).

Definition tree_ok (t : tree) : Prop := placed 0 t /\ canonical t.

(** The tree holds the map. *)
Definition holds (t : tree) (m : gmap NodeKey (list Z)) : Prop := forall k, tget 0 k t = m !! k.

Lemma tput_ok t kv : op_ok kv -> tree_ok t -> tree_ok (tput t kv).
Proof.
  intros [Hk Hv] [Hp Hc]. unfold tput. destruct (is_zero (snd kv)); [by apply tdel_ok|].
  destruct (tins_ok (fst kv) (snd kv) t 0) as (P' & C' & _); [done..|lia|done|apply under_0|done|done].
Qed.

Lemma tput_holds t m kv : op_ok kv -> tree_ok t -> holds t m -> holds (tput t kv) (mput m kv).
Proof.
  intros [Hk Hv] [Hp Hc] Hh k2. unfold tput, mput. destruct (is_zero (snd kv)).
  - rewrite tdel_get by done. destruct (decide (k2 = fst kv)) as [->|]; [by rewrite lookup_delete_eq|].
    by rewrite lookup_delete_ne.
  - rewrite tins_get; [|done|lia|done|apply under_0].
    destruct (decide (k2 = fst kv)) as [->|]; [by rewrite lookup_insert_eq|]. by rewrite lookup_insert_ne.
Qed.

Lemma tputs_ok ops : forall t m, Forall op_ok ops -> tree_ok t -> holds t m ->
  tree_ok (foldl tput t ops) /\ holds (foldl tput t ops) (foldl mput m ops).
Proof.
  induction ops as [|kv ops IH]; intros t m Hops Ht Hh; [done|].
  apply Forall_cons in Hops as [Hkv Hops]. simpl. apply IH; [done|by apply tput_ok|by apply tput_holds].
Qed.

Lemma holds_inj t1 t2 m : tree_ok t1 -> tree_ok t2 -> holds t1 m -> holds t2 m -> t1 = t2.
Proof.
  intros [P1 C1] [P2 C2] H1 H2. apply (tree_ext t1 t2 0); [done..|]. intros k. by rewrite H1, H2.
Qed.

Lemma E_ok : tree_ok E /\ holds E ∅.
Proof. split; [done|]. intros k. by rewrite lookup_empty. Qed.
