(* ===== verification/SmtDb.v ===== *)
(** * The node store of the sparse Merkle tree (smt/pkg/db/mem-db.go)

    The interface the tree is written against ([DB] and [RoDB] of
    smt/pkg/smt/smt.go), the laws the tree relies on, and the in-memory store,
    whose maps go by hex strings as in the source, with the proof that it obeys
    the laws. *)
From stdpp Require Import pretty.
From S2P Require Import Prelude Bytes Hex SmtUtils.

(** ** The interface *)

Class SmtDb (D : Type) := {
  db_Get : D -> NodeKey -> outcome NodeValue12;
  db_Insert : NodeKey -> NodeValue12 -> D -> outcome D;
  db_InsertHashKey : NodeKey -> NodeKey -> D -> outcome D;
  db_InsertKeySource : NodeKey -> list Z -> D -> outcome D;
  db_GetDepth : D -> outcome Z;
  db_SetDepth : Z -> D -> outcome D;
  db_GetLastRoot : D -> outcome Z;
  db_SetLastRoot : Z -> D -> outcome D;
}.

(** Twelve words: what the tree stores. *)
Definition value12_ok (v : NodeValue12) : Prop :=
  length v = 12%nat /\ Forall (fun o => exists z, o = Some z /\ word_ok z) v.

(** What holds of a store while the tree is at work on it, [db_ok], is whatever the operations
    preserve and makes the depth readable.  Writing the depth may change the last root: the tree
    writes the root after the depth. *)
Class SmtDbLaws (D : Type) `{SmtDb D} := {
  db_ok : D -> Prop;
  law_GetDepth d : db_ok d -> db_GetDepth d <> Panic;
  law_Insert d k v : key_ok k -> value12_ok v -> exists d', db_Insert k v d = Ok d' /\
    db_Get d' k = Ok v /\ (forall k', key_ok k' -> k' <> k -> db_Get d' k' = db_Get d k') /\
    (db_ok d -> db_ok d');
  law_InsertHashKey d h k : exists d', db_InsertHashKey h k d = Ok d' /\
    (forall k', db_Get d' k' = db_Get d k') /\ (db_ok d -> db_ok d');
  law_InsertKeySource d k s : exists d', db_InsertKeySource k s d = Ok d' /\
    (forall k', db_Get d' k' = db_Get d k') /\ (db_ok d -> db_ok d');
  law_SetDepth d n : exists d', db_SetDepth n d = Ok d' /\
    (forall k', db_Get d' k' = db_Get d k') /\ (db_ok d -> db_ok d');
  law_SetLastRoot d r : 0 <= r -> exists d', db_SetLastRoot r d = Ok d' /\
    ((forall k', db_Get d' k' = db_Get d k') /\ (db_ok d -> db_ok d')) /\ db_GetLastRoot d' = Ok r;
}.

(** Everything but the last root and the depth is as before. *)
Definition same_nodes {D} `{SmtDbLaws D} (d d' : D) : Prop :=
  (forall k, db_Get d' k = db_Get d k) /\ (db_ok d -> db_ok d').

(** ** The in-memory store *)

Record MemDb := mkMemDb {
  Db : gmap string (list string);
  DbAccVal : gmap string (list string);
  DbKeySource : gmap string (list Z);
  DbHashKey : gmap string (list Z);
  DbCode : gmap string (list Z);
  LastRoot : Z;
  Depth : Z;
}.

Definition NewMemDb : MemDb := mkMemDb ∅ ∅ ∅ ∅ ∅ 0 0.

Definition hexKey (key : NodeKey) : string := ConvertBigIntToHex (Some (ArrayToScalar (words key))).

(** [keyConc.String()]: decimal. *)
Definition decKey (key : NodeKey) : string := pretty (ArrayToScalar (words key)).

(** [for i, v := range m { values[i] = utils.ConvertHexToBigInt(v) }] into an array. *)
Definition fillArray (n : nat) (strs : list string) : outcome (list (option Z)) :=
  if decide (n < length strs)%nat then Panic
  else Ok (map ConvertHexToBigInt strs ++ replicate (n - length strs) None).

Definition Mem_GetLastRoot (m : MemDb) : outcome Z := Ok (LastRoot m).
Definition Mem_SetLastRoot (value : Z) (m : MemDb) : outcome MemDb :=
  Ok (mkMemDb (Db m) (DbAccVal m) (DbKeySource m) (DbHashKey m) (DbCode m) value (Depth m)).
Definition Mem_GetDepth (m : MemDb) : outcome Z := Ok (Depth m).
Definition Mem_SetDepth (depth : Z) (m : MemDb) : outcome MemDb :=
  Ok (mkMemDb (Db m) (DbAccVal m) (DbKeySource m) (DbHashKey m) (DbCode m) (LastRoot m) depth).

Definition set_Db (x : gmap string (list string)) (m : MemDb) : MemDb :=
  mkMemDb x (DbAccVal m) (DbKeySource m) (DbHashKey m) (DbCode m) (LastRoot m) (Depth m).

Definition Mem_Get (m : MemDb) (key : NodeKey) : outcome NodeValue12 :=
  fillArray 12 (default [] (Db m !! hexKey key)).

Definition Mem_Insert (key : NodeKey) (value : NodeValue12) (m : MemDb) : outcome MemDb :=
  Ok (set_Db (<[hexKey key := map ConvertBigIntToHex value]> (Db m)) m).

Definition Mem_Delete (key : string) (m : MemDb) : outcome MemDb := Ok (set_Db (delete key (Db m)) m).

Definition Mem_DeleteByNodeKey (key : NodeKey) (m : MemDb) : outcome MemDb :=
  Ok (set_Db (delete (hexKey key) (Db m)) m).

Definition Mem_GetAccountValue (m : MemDb) (key : NodeKey) : outcome NodeValue8 :=
  fillArray 8 (default [] (DbAccVal m !! hexKey key)).

Definition Mem_InsertAccountValue (key : NodeKey) (value : NodeValue8) (m : MemDb) : outcome MemDb :=
  Ok (mkMemDb (Db m) (<[hexKey key := map ConvertBigIntToHex value]> (DbAccVal m)) (DbKeySource m)
        (DbHashKey m) (DbCode m) (LastRoot m) (Depth m)).

Definition set_DbKeySource (x : gmap string (list Z)) (m : MemDb) : MemDb :=
  mkMemDb (Db m) (DbAccVal m) x (DbHashKey m) (DbCode m) (LastRoot m) (Depth m).

Definition Mem_InsertKeySource (key : NodeKey) (value : list Z) (m : MemDb) : outcome MemDb :=
  Ok (set_DbKeySource (<[decKey key := value]> (DbKeySource m)) m).

Definition Mem_DeleteKeySource (key : NodeKey) (m : MemDb) : outcome MemDb :=
  Ok (set_DbKeySource (delete (decKey key) (DbKeySource m)) m).

Definition Mem_GetKeySource (m : MemDb) (key : NodeKey) : outcome (list Z) :=
  match DbKeySource m !! decKey key with Some s => Ok s | None => Err "key not found" end.

Definition set_DbHashKey (x : gmap string (list Z)) (m : MemDb) : MemDb :=
  mkMemDb (Db m) (DbAccVal m) (DbKeySource m) x (DbCode m) (LastRoot m) (Depth m).

Definition Mem_InsertHashKey (key value : NodeKey) (m : MemDb) : outcome MemDb :=
  Ok (set_DbHashKey (<[hexKey key := big_bytes (ArrayToScalar (words value))]> (DbHashKey m)) m).

Definition Mem_DeleteHashKey (key : NodeKey) (m : MemDb) : outcome MemDb :=
  Ok (set_DbHashKey (delete (hexKey key) (DbHashKey m)) m).

Definition Mem_GetHashKey (m : MemDb) (key : NodeKey) : outcome NodeKey :=
  match DbHashKey m !! hexKey key with
  | None => Err "key not found"
  | Some s =>
      let na := ScalarToArray (be_decode s) in
      a ← index na 0; b ← index na 1; c ← index na 2; d ← index na 3; Ok (mkKey a b c d)
  end.

Definition IsEmpty (m : MemDb) : bool := bool_decide (Db m = ∅).

#[export] Instance MemDb_SmtDb : SmtDb MemDb := {
  db_Get := Mem_Get;
  db_Insert := Mem_Insert;
  db_InsertHashKey := Mem_InsertHashKey;
  db_InsertKeySource := Mem_InsertKeySource;
  db_GetDepth := Mem_GetDepth;
  db_SetDepth := Mem_SetDepth;
  db_GetLastRoot := Mem_GetLastRoot;
  db_SetLastRoot := Mem_SetLastRoot;
}.

(** ** The store obeys the laws *)

Lemma hexKey_inj a b : key_ok a -> key_ok b -> hexKey a = hexKey b -> a = b.
Proof.
  intros Ha Hb H. apply Key_ToBigInt_inj; [done..|]. unfold hexKey in H.
  apply ConvertBigIntToHex_inj in H; [done|apply Key_ToBigInt_range; done..].
Qed.

Lemma fillArray_round_trip n v : length v = n -> Forall (fun o => exists z, o = Some z /\ 0 <= z) v ->
  fillArray n (map ConvertBigIntToHex v) = Ok v.
Proof.
  intros Hl Hv. unfold fillArray. rewrite length_map, decide_False by lia.
  rewrite Hl, Nat.sub_diag, app_nil_r, map_map. f_equal. clear Hl.
  induction Hv as [|o v (z & -> & Hz) _ IH]; [done|]. cbn [map]. rewrite IH.
  by rewrite ConvertHex_round_trip.
Qed.

#[local] Obligation Tactic := idtac.

#[export] Program Instance MemDb_laws : SmtDbLaws MemDb := { db_ok _ := True }.
Next Obligation. done. Qed.
Next Obligation.
  intros d k v Hk [Hl Hv]. eexists. split; [done|]. split; [|split; [|done]].
  - simpl. unfold Mem_Get. simpl. rewrite lookup_insert_eq. apply fillArray_round_trip; [done|].
    eapply Forall_impl; [exact Hv|]. intros o (z & -> & [Hz _]). eauto.
  - intros k' Hk' Hne. simpl. unfold Mem_Get. simpl.
    rewrite lookup_insert_ne; [done|]. intros E. by apply hexKey_inj in E.
Qed.
Solve Obligations with by intros; eexists.

Lemma MemDb_db_ok (d : MemDb) : db_ok d.
Proof. done. Qed.
