(* ===== verification/Smt.v ===== *)
(** * The sparse Merkle tree (smt/pkg/smt/smt.go)

    The tree lives in a store of nodes that go by their hash: a branch holds the
    hashes of its two children, a leaf the rest of its key and the hash of its
    value.  [insert] walks down the path of a key, changes the end of it, and
    writes the hashes of the nodes on the path anew, up to the root.  The Poseidon
    hash is a parameter, the store is any implementation of [SmtDb]; what the
    functions here do to the tree is in [SmtRefine]. *)
From S2P Require Import Prelude Bytes Hex SmtUtils SmtDb.

Inductive InsertMode :=
| NotRun | Update | InsertFound | InsertNotFound
| DeleteFound | DeleteNotFound | DeleteLast | ZeroToZero.

(** What the search for a key finds in a leaf. *)
Record Found := mkFound {
  foundKey : NodeKey;
  foundRKey : NodeKey;
  foundVal : NodeValue8;
  foundOldValHash : NodeKey;
}.

(** The variables of the search loop. *)
Record Search := mkSearch {
  oldRoot : NodeKey;
  level : Z;
  usedKey : list Z;
  siblings : gmap Z NodeValue12;
  found : option Found;
}.

Section smt.
Context {D : Type} `{SmtDb D}.
Context (Hash : list Z -> NodeKey -> NodeKey) (noSaveOnInsert : bool).

(** ** Saving nodes *)

Definition hashSave (inp : list Z) (capacity h : NodeKey) (d : D) : outcome D :=
  if noSaveOnInsert then Ok d else db_Insert h (ConcatArrays8AndCapacity inp capacity) d.

Definition hashcalcAndSave (inp : list Z) (capacity : NodeKey) (d : D) : outcome (NodeKey * D) :=
  let h := Hash inp capacity in
  d ← hashSave inp capacity h d;
  Ok (h, d).

(** [s.Db.InsertHashKey(...)] as a statement: its error is dropped. *)
Definition dropError (r : outcome D) (d : D) : outcome D :=
  match r with Ok d' => Ok d' | Err _ => Ok d | Panic => Panic end.

(** [if newValH == [4]uint64{}], the hash is computed, else the one given is saved. *)
Definition saveValue (v : NodeValue8) (newValH : NodeKey) (d : D) : outcome (NodeKey * D) :=
  if bool_decide (newValH = zeroKey) then hashcalcAndSave (ToUintArray v) BranchCapacity d
  else d ← hashSave (ToUintArray v) BranchCapacity newValH d; Ok (newValH, d).

(** ** The search *)

(** [NodeKeyFromBigIntArray(nv[4*i : 4*i+4])] *)
Definition childAt (nv : NodeValue12) (i : Z) : outcome NodeKey :=
  part ← slice nv (i * 4) (i * 4 + 4);
  NodeKeyFromBigIntArray part.

Definition searchStep (keys : list Z) (d : D) (st : Search) : outcome Search :=
  sl ← db_Get d (oldRoot st);
  let sibs := <[level st := sl]> (siblings st) in
  if IsFinalNode sl then
    valHash ← childAt sl 1;
    fva ← db_Get d valHash;
    val8 ← slice fva 0 8;
    rKey ← childAt sl 0;
    Ok (mkSearch (oldRoot st) (level st) (usedKey st) sibs
          (Some (mkFound (JoinKey (usedKey st) rKey) rKey (Value8FromBigIntArray val8) valHash)))
  else
    b ← index keys (level st);
    child ← childAt sl b;
    Ok (mkSearch child (level st + 1) (usedKey st ++ [b]) sibs None).

(** The loop ends by itself, or by running over the end of [keys]. *)
Fixpoint search (fuel : nat) (keys : list Z) (d : D) (st : Search) : outcome Search :=
  if negb (Key_IsZero (oldRoot st)) && (match found st with None => true | Some _ => false end) then
    match fuel with
    | O => Panic
    | S fuel => st ← searchStep keys d st; search fuel keys d st
    end
  else Ok st.

(** ** Changing a node on the path *)

(** [for j := 0; j < 4; j++ { siblings[level][keys[level]*4+j] = h[j] }] *)
Definition setChild (sibs : gmap Z NodeValue12) (lvl : Z) (keys : list Z) (h : NodeKey)
    : outcome (gmap Z NodeValue12) :=
  nv ← nonNil (sibs !! lvl);
  b ← index keys lvl;
  nv ← foldl (fun acc j => nv ← acc; store nv (Z.to_nat (b * 4) + j) (Some (wordAt j h)))
         (Ok nv) [0; 1; 2; 3]%nat;
  Ok (<[lvl := nv]> sibs).

(** The result of a change: the map of siblings, the root so far, the level from
    which the hashes are to be computed anew, and the store. *)
Record Changed := mkChanged {
  c_mode : InsertMode;
  c_siblings : gmap Z NodeValue12;
  c_newRoot : NodeKey;
  c_level : Z;
  c_db : D;
}.

Definition attach (mode : InsertMode) (sibs : gmap Z NodeValue12) (lvl : Z) (keys : list Z)
    (newRoot h : NodeKey) (d : D) : outcome Changed :=
  if 0 <=? lvl then sibs ← setChild sibs lvl keys h; Ok (mkChanged mode sibs newRoot lvl d)
  else Ok (mkChanged mode sibs h lvl d).

(** ** The modes of [insert] *)

Definition updateMode (k : NodeKey) (v : NodeValue8) (newValH : NodeKey) (keys : list Z) (f : Found)
    (sibs : gmap Z NodeValue12) (lvl : Z) (newRoot : NodeKey) (d : D) : outcome Changed :=
  vd ← saveValue v newValH d;
  let '(valH, d) := vd : NodeKey * D in
  ld ← hashcalcAndSave (ConcatArrays4 (foundRKey f) valH) LeafCapacity d;
  let '(newLeafHash, d) := ld : NodeKey * D in
  d ← db_InsertHashKey newLeafHash k d;
  attach Update sibs lvl keys newRoot newLeafHash d.

Fixpoint commonLevel (fuel : nat) (keys foundKeys : list Z) (level2 : Z) : outcome Z :=
  if (Z.of_nat (length keys) <=? level2) || (Z.of_nat (length foundKeys) <=? level2) then Ok level2
  else
    a ← index keys level2;
    b ← index foundKeys level2;
    if negb (a =? b) then Ok level2
    else match fuel with O => Panic | S fuel => commonLevel fuel keys foundKeys (level2 + 1) end.

(** [node[b*4+j] = h[j]] on an array of eight zeros or on what was written. *)
Definition setHalf (node : list Z) (b : Z) (h : NodeKey) : outcome (list Z) :=
  foldl (fun acc j => node ← acc; store node (Z.to_nat (b * 4) + j) (wordAt j h))
    (Ok node) [0; 1; 2; 3]%nat.

(** [for level2 != level]: branches with one child, up to the level of the search. *)
Fixpoint singleBranches (fuel : nat) (keys : list Z) (level2 lvl : Z) (r2 : NodeKey) (d : D)
    : outcome (NodeKey * D) :=
  if level2 =? lvl then Ok (r2, d)
  else
    match fuel with
    | O => Panic
    | S fuel =>
        b ← index keys level2;
        node ← setHalf (replicate 8 0) b r2;
        rd ← hashcalcAndSave node BranchCapacity d;
        let '(r2, d) := rd : NodeKey * D in
        singleBranches fuel keys (level2 - 1) lvl r2 d
    end.

Definition insertFoundMode (k : NodeKey) (v : NodeValue8) (newValH : NodeKey) (keys : list Z) (f : Found)
    (sibs : gmap Z NodeValue12) (lvl : Z) (newRoot : NodeKey) (d : D) : outcome Changed :=
  let foundKeys := GetPath (foundKey f) in
  level2 ← commonLevel 257 keys foundKeys (lvl + 1);
  let oldKey := RemoveKeyBits (foundKey f) (level2 + 1) in
  od ← hashcalcAndSave (ConcatArrays4 oldKey (foundOldValHash f)) LeafCapacity d;
  let '(oldLeafHash, d) := od : NodeKey * D in
  d ← dropError (db_InsertHashKey oldLeafHash (foundKey f) d) d;
  let newKey := RemoveKeyBits k (level2 + 1) in
  vd ← saveValue v newValH d;
  let '(valH, d) := vd : NodeKey * D in
  ld ← hashcalcAndSave (ConcatArrays4 newKey valH) LeafCapacity d;
  let '(newLeafHash, d) := ld : NodeKey * D in
  d ← dropError (db_InsertHashKey newLeafHash k d) d;
  a ← index keys level2;
  b ← index foundKeys level2;
  node ← foldl (fun acc j => node ← acc;
                  node ← store node (Z.to_nat (a * 4) + j) (wordAt j newLeafHash);
                  store node (Z.to_nat (b * 4) + j) (wordAt j oldLeafHash))
           (Ok (replicate 8 0)) [0; 1; 2; 3]%nat;
  rd ← hashcalcAndSave node BranchCapacity d;
  let '(r2, d) := rd : NodeKey * D in
  rd ← singleBranches 257 keys (level2 - 1) lvl r2 d;
  let '(r2, d) := rd : NodeKey * D in
  attach InsertFound sibs lvl keys newRoot r2 d.

Definition insertNotFoundMode (k : NodeKey) (v : NodeValue8) (newValH : NodeKey) (keys : list Z)
    (sibs : gmap Z NodeValue12) (lvl : Z) (newRoot : NodeKey) (d : D) : outcome Changed :=
  let newKey := RemoveKeyBits k (lvl + 1) in
  vd ← saveValue v newValH d;
  let '(valH, d) := vd : NodeKey * D in
  ld ← hashcalcAndSave (ConcatArrays4 newKey valH) LeafCapacity d;
  let '(newLeafHash, d) := ld : NodeKey * D in
  d ← dropError (db_InsertHashKey newLeafHash k d) d;
  attach InsertNotFound sibs lvl keys newRoot newLeafHash d.

(** [for uKey >= 0 && level >= 0]: up over the branches that have one child only. *)
Fixpoint climb (fuel : nat) (sibs : gmap Z NodeValue12) (uKey lvl : Z) : outcome Z :=
  if (0 <=? uKey) && (0 <=? lvl) then
    match fuel with
    | O => Panic
    | S fuel =>
        let lvl := lvl - 1 in
        uKey ← (if 0 <=? lvl then nv ← nonNil (sibs !! lvl); IsUniqueSibling nv else Ok uKey) : outcome Z;
        climb fuel sibs uKey lvl
    end
  else Ok lvl.

Definition deleteMode (used keys : list Z) (sibs : gmap Z NodeValue12) (lvl : Z) (newRoot : NodeKey)
    (d : D) : outcome Changed :=
  if 0 <=? lvl then
    sibs ← setChild sibs lvl keys zeroKey;
    nv ← nonNil (sibs !! lvl);
    uKey ← IsUniqueSibling nv;
    if 0 <=? uKey then
      dk ← childAt nv uKey;
      sl ← db_Get d dk;
      let sibs := <[lvl + 1 := sl]> sibs in
      if IsFinalNode sl then
        valH ← Get4to8 sl;
        rKey ← Get0to4 sl;
        let insKey := JoinKey (used ++ [uKey]) rKey in
        lvl ← climb 257 sibs uKey lvl;
        let oldKey := RemoveKeyBits insKey (lvl + 1) in
        od ← hashcalcAndSave (ConcatArrays4 oldKey valH) LeafCapacity d;
        let '(oldLeafHash, d) := od : NodeKey * D in
        d ← dropError (db_InsertHashKey oldLeafHash insKey d) d;
        attach DeleteFound sibs lvl keys newRoot oldLeafHash d
      else Ok (mkChanged DeleteNotFound sibs newRoot lvl d)
    else Ok (mkChanged DeleteNotFound sibs newRoot lvl d)
  else Ok (mkChanged DeleteLast sibs zeroKey lvl d).

(** ** Rehashing the path *)

Definition updateDepth (newDepth : Z) (d : D) : outcome D :=
  oldDepth ← (match db_GetDepth d with Ok o => Ok o | Err _ => Ok 0 | Panic => Panic end) : outcome Z;
  let newDepth := if 255 <? newDepth then 255 else newDepth in
  let newDepthAsByte := u8 (Z.land newDepth 0xFF) in
  if oldDepth <? newDepthAsByte then dropError (db_SetDepth newDepthAsByte d) d else Ok d.

Fixpoint rehash (fuel : nat) (keys : list Z) (sibs : gmap Z NodeValue12) (lvl : Z) (newRoot : NodeKey)
    (d : D) : outcome (NodeKey * D) :=
  if 0 <=? lvl then
    match fuel with
    | O => Panic
    | S fuel =>
        nv ← nonNil (sibs !! lvl);
        arr ← slice nv 0 8;
        hashValueIn ← NodeValue8FromBigIntArray arr;
        hashCapIn ← childAt nv 2;
        rd ← hashcalcAndSave (ToUintArray hashValueIn) hashCapIn d;
        let '(newRoot, d) := rd : NodeKey * D in
        let lvl := lvl - 1 in
        sibs ← (if 0 <=? lvl then setChild sibs lvl keys newRoot else Ok sibs)
               : outcome (gmap Z NodeValue12);
        rehash fuel keys sibs lvl newRoot d
    end
  else Ok (newRoot, d).

(** ** Insert *)

Record SMTResponse := mkResponse { NewRootScalar : NodeKey; Mode : InsertMode }.

Definition insert_change (k : NodeKey) (v : NodeValue8) (newValH : NodeKey) (keys used : list Z)
    (st : Search) (lvl : Z) (newRoot : NodeKey) (d : D) : outcome Changed :=
  if negb (Value8_IsZero v) then
    match found st with
    | Some f =>
        if IsEqualTo (foundKey f) k then updateMode k v newValH keys f (siblings st) lvl newRoot d
        else insertFoundMode k v newValH keys f (siblings st) lvl newRoot d
    | None => insertNotFoundMode k v newValH keys (siblings st) lvl newRoot d
    end
  else
    match found st with
    | Some f =>
        if IsEqualTo (foundKey f) k then deleteMode used keys (siblings st) lvl newRoot d
        else Ok (mkChanged ZeroToZero (siblings st) newRoot lvl d)
    | None => Ok (mkChanged ZeroToZero (siblings st) newRoot lvl d)
    end.

Definition insert (k : NodeKey) (v : NodeValue8) (newValH old : NodeKey) (d : D)
    : outcome (SMTResponse * D) :=
  let keys := GetPath k in
  st ← search 258 keys d (mkSearch old 0 [] ∅ None);
  let lvl := level st - 1 in
  let used := removelast (usedKey st) in
  c ← insert_change k v newValH keys used st lvl old d;
  let sibs := RemoveOver (c_siblings c) (c_level c + 1) in
  d ← updateDepth (Z.of_nat (size sibs)) (c_db c);
  rd ← rehash 257 keys sibs (c_level c) (c_newRoot c) d;
  let '(newRoot, d) := rd : NodeKey * D in
  Ok (mkResponse newRoot (c_mode c), d).

Definition getLastRoot (d : D) : outcome NodeKey :=
  r ← db_GetLastRoot d; Ok (ScalarToRoot r).

Definition setLastRoot (newRoot : NodeKey) (d : D) : outcome D :=
  db_SetLastRoot (Key_ToBigInt newRoot) d.

Definition insertSingle (k : NodeKey) (v : NodeValue8) (newValH : NodeKey) (d : D)
    : outcome (SMTResponse * D) :=
  old ← getLastRoot d;
  rd ← insert k v newValH old d;
  let '(smtr, d) := rd : SMTResponse * D in
  d ← setLastRoot (NewRootScalar smtr) d;
  Ok (smtr, d).

Definition Insert (k : NodeKey) (v : NodeValue8) (d : D) : outcome (SMTResponse * D) :=
  insertSingle k v zeroKey d.

Definition InsertKA (k : NodeKey) (value : Z) (d : D) : outcome (SMTResponse * D) :=
  v ← NodeValue8FromBigIntArray (map Some (ScalarToArrayBig value));
  insertSingle k v zeroKey d.
End smt.
