(* ===== verification/SmtRefine.v ===== *)
(** * The stored tree refines the abstract one

    A store holds an abstract tree if it has, for each of its nodes, the node's
    value under its hash.  [insert] on a store that holds a tree gives a store
    that holds the tree with the key set or removed, and returns the hash of it.
    So the root depends on the map the tree holds only, not on the order of the
    operations.

    Of the hash function it is assumed that it gives no two nodes of the resulting
    tree the same hash, and none of the branches and leaves the hash zero, which
    stands for the empty tree. *)
From S2P Require Import Prelude Bytes Hex SmtUtils SmtDb SmtTree Smt.

Section refine.
Context {D : Type} `{SmtDb D} `{!SmtDbLaws D}.
Context (Hash : list Z -> NodeKey -> NodeKey) (Hash_range : forall i c, key_ok (Hash i c)).

(** ** Hashes of trees *)

Definition valHash (v : list Z) : NodeKey := Hash v BranchCapacity.

Definition leafInput (d : nat) (k : NodeKey) (v : list Z) : list Z :=
  ConcatArrays4 (RemoveKeyBits k (Z.of_nat d)) (valHash v).

Fixpoint th (d : nat) (t : tree) : NodeKey :=
  match t with
  | E => zeroKey
  | Leaf k v => Hash (leafInput d k v) LeafCapacity
  | B l r => Hash (ConcatArrays4 (th (S d) l) (th (S d) r)) BranchCapacity
  end.

(** The inputs of the hashes of a tree: its nodes, and the values of its leaves. *)
Fixpoint nodes (d : nat) (t : tree) : list (list Z * NodeKey) :=
  match t with
  | E => []
  | Leaf k v => [(leafInput d k v, LeafCapacity); (v, BranchCapacity)]
  | B l r => (ConcatArrays4 (th (S d) l) (th (S d) r), BranchCapacity) :: nodes (S d) l ++ nodes (S d) r
  end.

Definition has (db : D) (x : list Z * NodeKey) : Prop :=
  db_Get db (Hash (fst x) (snd x)) = Ok (ConcatArrays8AndCapacity (fst x) (snd x)).

Definition stored (db : D) (d : nat) (t : tree) : Prop := Forall (has db) (nodes d t).

(** No branch or leaf has the hash of the empty tree. *)
Fixpoint nonzero (d : nat) (t : tree) : Prop :=
  match t with
  | E => True
  | Leaf _ _ => th d t <> zeroKey
  | B l r => th d t <> zeroKey /\ nonzero (S d) l /\ nonzero (S d) r
  end.

(** The inputs have pairwise different hashes. *)
Definition collision_free (xs : list (list Z * NodeKey)) : Prop :=
  forall x y, x ∈ xs -> y ∈ xs -> Hash (fst x) (snd x) = Hash (fst y) (snd y) -> x = y.

Lemma zeroKey_ok : key_ok zeroKey.
Proof. intros i Hi. destruct i as [|[|[|[|i]]]]; [simpl; lia..|lia]. Qed.

Lemma th_ok d t : key_ok (th d t).
Proof. destruct t; simpl; [apply zeroKey_ok|apply Hash_range..]. Qed.

Lemma key_words_ok k : key_ok k -> Forall word_ok (words k).
Proof. intros (H0 & H1 & H2 & H3)%key_ok_words. repeat (constructor; [done|]). constructor. Qed.

Lemma concat4_ok a b : key_ok a -> key_ok b -> value_ok (ConcatArrays4 a b).
Proof.
  intros Ha Hb. split; [done|]. apply Forall_app. split; by apply key_words_ok.
Qed.

Lemma Key_IsZero_spec k : Key_IsZero k = bool_decide (k = zeroKey).
Proof.
  destruct k as [a b c d]. unfold Key_IsZero. cbn [w0 w1 w2 w3]. symmetry.
  destruct (Z.eqb_spec a 0), (Z.eqb_spec b 0), (Z.eqb_spec c 0), (Z.eqb_spec d 0); simpl;
    first [apply bool_decide_eq_true; unfold zeroKey; congruence
          |apply bool_decide_eq_false; unfold zeroKey; congruence].
Qed.

Lemma IsEqualTo_spec a b : IsEqualTo a b = bool_decide (a = b).
Proof.
  destruct a as [a0 a1 a2 a3], b as [b0 b1 b2 b3]. unfold IsEqualTo. cbn [w0 w1 w2 w3]. symmetry.
  destruct (Z.eqb_spec a0 b0), (Z.eqb_spec a1 b1), (Z.eqb_spec a2 b2), (Z.eqb_spec a3 b3); simpl;
    first [apply bool_decide_eq_true; congruence|apply bool_decide_eq_false; congruence].
Qed.

(** ** Reading and writing node values *)

Definition node12 (a b cap : NodeKey) : NodeValue12 := ConcatArrays8AndCapacity (ConcatArrays4 a b) cap.

Lemma NodeKeyFrom_words k : key_ok k -> NodeKeyFromBigIntArray (map Some (words k)) = Ok k.
Proof.
  intros (H0 & H1 & H2 & H3)%key_ok_words. unfold NodeKeyFromBigIntArray. simpl.
  rewrite !bigUint64_small by done. by destruct k.
Qed.

Lemma childAt_node12 a b cap : key_ok a -> key_ok b -> key_ok cap ->
  childAt (node12 a b cap) 0 = Ok a /\ childAt (node12 a b cap) 1 = Ok b /\
  childAt (node12 a b cap) 2 = Ok cap.
Proof.
  intros Ha Hb Hc. unfold childAt.
  split; [|split].
  - rewrite (slice_at _ [] (map Some (words a)) (map Some (words b ++ words cap))), bind_ok by
      (unfold node12, ConcatArrays8AndCapacity, ConcatArrays4; rewrite ?map_app, <- ?app_assoc; done).
    by apply NodeKeyFrom_words.
  - rewrite (slice_at _ (map Some (words a)) (map Some (words b)) (map Some (words cap))), bind_ok by
      (unfold node12, ConcatArrays8AndCapacity, ConcatArrays4; rewrite ?map_app, <- ?app_assoc; done).
    by apply NodeKeyFrom_words.
  - rewrite (slice_at _ (map Some (words a ++ words b)) (map Some (words cap)) []), bind_ok by
      (unfold node12, ConcatArrays8AndCapacity, ConcatArrays4; rewrite ?map_app, ?app_nil_r, <- ?app_assoc; done).
    by apply NodeKeyFrom_words.
Qed.

Lemma IsFinalNode_node12 a b cap : IsFinalNode (node12 a b cap) = (w0 cap =? 1).
Proof. reflexivity. Qed.

Lemma Get_node12 a b cap : key_ok a -> key_ok b ->
  Get0to4 (node12 a b cap) = Ok a /\ Get4to8 (node12 a b cap) = Ok b.
Proof.
  intros (H0 & H1 & H2 & H3)%key_ok_words (H4 & H5 & H6 & H7)%key_ok_words.
  unfold Get0to4, Get4to8, keyFrom. cbn. rewrite !bigUint64_small by done. by destruct a, b.
Qed.

Lemma IsUniqueSibling_node12 a b : key_ok a -> key_ok b ->
  IsUniqueSibling (node12 a b BranchCapacity) =
    Ok (if bool_decide (a = zeroKey) then (if bool_decide (b = zeroKey) then -1 else 1)
        else (if bool_decide (b = zeroKey) then 0 else -1)).
Proof.
  intros Ha Hb. unfold IsUniqueSibling.
  destruct (childAt_node12 a b BranchCapacity Ha Hb zeroKey_ok) as (H0 & H1 & H2).
  unfold childAt in *. change (0 * 4) with (4 * 0) in H0. change (1 * 4) with (4 * 1) in H1.
  change (2 * 4) with (4 * 2) in H2. cbn [foldl].
  apply bind_Ok_inv in H0 as (x0 & -> & E0). apply bind_Ok_inv in H1 as (x1 & -> & E1).
  apply bind_Ok_inv in H2 as (x2 & -> & E2).
  rewrite !bind_ok, E0, !bind_ok, E1, !bind_ok, E2, !bind_ok, !Key_IsZero_spec.
  change (bool_decide (BranchCapacity = zeroKey)) with true.
  destruct (bool_decide (a = zeroKey)), (bool_decide (b = zeroKey)); reflexivity.
Qed.

(** ** Nodes on a path *)

(** The branch at level [d] on the path of [k], by its child on the path and the other one. *)
Definition pathInput (k : NodeKey) (d : nat) (c o : NodeKey) : list Z :=
  if bit k d then ConcatArrays4 o c else ConcatArrays4 c o.

Definition pathNode (k : NodeKey) (d : nat) (c o : NodeKey) : NodeValue12 :=
  ConcatArrays8AndCapacity (pathInput k d c o) BranchCapacity.

Lemma th_branch k d sub other :
  th d (branch d k sub other) = Hash (pathInput k d (th (S d) sub) (th (S d) other)) BranchCapacity.
Proof. unfold branch, pathInput. by destruct (bit k d). Qed.

Lemma pathInput_ok k d c o : key_ok c -> key_ok o -> value_ok (pathInput k d c o).
Proof. intros Hc Ho. unfold pathInput. destruct (bit k d); by apply concat4_ok. Qed.

Lemma childAt_pathNode k d c o : key_ok c -> key_ok o ->
  childAt (pathNode k d c o) (Z.b2z (bit k d)) = Ok c.
Proof.
  intros Hc Ho. unfold pathNode, pathInput. destruct (bit k d).
  - apply (childAt_node12 o c BranchCapacity Ho Hc zeroKey_ok).
  - apply (childAt_node12 c o BranchCapacity Hc Ho zeroKey_ok).
Qed.

Lemma IsUniqueSibling_pathNode k d c o : key_ok c -> key_ok o ->
  IsUniqueSibling (pathNode k d c o) =
    Ok (if bool_decide (c = zeroKey) then (if bool_decide (o = zeroKey) then -1 else Z.b2z (negb (bit k d)))
        else (if bool_decide (o = zeroKey) then Z.b2z (bit k d) else -1)).
Proof.
  intros Hc Ho. unfold pathNode, pathInput. destruct (bit k d).
  - etrans; [exact (IsUniqueSibling_node12 o c Ho Hc)|].
    by destruct (bool_decide (c = zeroKey)), (bool_decide (o = zeroKey)).
  - etrans; [exact (IsUniqueSibling_node12 c o Hc Ho)|].
    by destruct (bool_decide (c = zeroKey)), (bool_decide (o = zeroKey)).
Qed.

Lemma setChild_pathNode (sibs : gmap Z NodeValue12) k d c o h : (d < 256)%nat ->
  sibs !! Z.of_nat d = Some (pathNode k d c o) ->
  setChild sibs (Z.of_nat d) (GetPath k) h = Ok (<[Z.of_nat d := pathNode k d h o]> sibs).
Proof.
  intros Hd Hs. unfold setChild, NodeValue12 in *. rewrite Hs. unfold nonNil. rewrite bind_ok, index_path, bind_ok by done.
  unfold pathNode, pathInput. destruct (bit k d); reflexivity.
Qed.

(** ** Zippers: a subtree and the trees beside the path to it *)

Fixpoint plug (k : NodeKey) (d : nat) (ctx : list tree) (sub : tree) : tree :=
  match ctx with
  | [] => sub
  | o :: ctx => branch d k (plug k (S d) ctx sub) o
  end.

Definition is_end (t : tree) : Prop := match t with B _ _ => False | _ => True end.

Lemma decompose k t : forall d, exists ctx sub, t = plug k d ctx sub /\ is_end sub.
Proof.
  induction t as [|k' v'|l IHl r IHr]; intros d; [by exists [], E|by exists [], (Leaf k' v')|].
  destruct (bit k d) eqn:Hb.
  - destruct (IHr (S d)) as (ctx & sub & -> & He). exists (l :: ctx), sub. split; [|done].
    simpl. unfold branch. by rewrite Hb.
  - destruct (IHl (S d)) as (ctx & sub & -> & He). exists (r :: ctx), sub. split; [|done].
    simpl. unfold branch. by rewrite Hb.
Qed.

Lemma plug_app k ctx1 : forall d ctx2 sub,
  plug k d (ctx1 ++ ctx2) sub = plug k d ctx1 (plug k (d + length ctx1) ctx2 sub).
Proof.
  induction ctx1 as [|o ctx1 IH]; intros d ctx2 sub; simpl; [by rewrite Nat.add_0_r|].
  by rewrite IH, Nat.add_succ_r.
Qed.

Lemma tins_branch k d v sub o : tins d k v (branch d k sub o) = branch d k (tins (S d) k v sub) o.
Proof. unfold branch. destruct (bit k d) eqn:Hb; simpl; by rewrite Hb. Qed.

Lemma tins_plug k v ctx : forall d sub,
  tins d k v (plug k d ctx sub) = plug k d ctx (tins (d + length ctx) k v sub).
Proof.
  induction ctx as [|o ctx IH]; intros d sub; simpl; [by rewrite Nat.add_0_r|].
  by rewrite tins_branch, IH, Nat.add_succ_r.
Qed.

Definition mkBranch (d : nat) (k : NodeKey) (sub other : tree) : tree :=
  if bit k d then mkB other sub else mkB sub other.

Lemma tdel_branch k d sub o : tdel d k (branch d k sub o) = mkBranch d k (tdel (S d) k sub) o.
Proof. unfold branch, mkBranch. destruct (bit k d) eqn:Hb; simpl; by rewrite Hb. Qed.

(** What holds of a tree holds of the parts of its zipper. *)
Lemma placed_branch d k sub o : placed d (branch d k sub o) ->
  (d < 256)%nat /\ placed (S d) sub /\ placed (S d) o /\
  (forall k2, inT k2 o -> bit k2 d = negb (bit k d)).
Proof. unfold branch. destruct (bit k d); simpl; tauto. Qed.

Lemma canonical_branch d k sub o : canonical (branch d k sub o) ->
  canonical sub /\ canonical o /\ many sub o.
Proof.
  unfold branch. destruct (bit k d); simpl; [|tauto]. intros (? & ? & Hm%many_comm). done.
Qed.

Lemma nonzero_branch d k sub o : nonzero d (branch d k sub o) ->
  th d (branch d k sub o) <> zeroKey /\ nonzero (S d) sub /\ nonzero (S d) o.
Proof. unfold branch. destruct (bit k d); simpl; tauto. Qed.

Lemma nodes_branch d k sub o : Permutation (nodes d (branch d k sub o))
  ((pathInput k d (th (S d) sub) (th (S d) o), BranchCapacity) :: nodes (S d) sub ++ nodes (S d) o).
Proof.
  unfold branch, pathInput. destruct (bit k d); simpl; [|done]. by rewrite (Permutation_app_comm (nodes _ o)).
Qed.

Lemma plug_parts k ctx : forall d sub, placed d (plug k d ctx sub) -> canonical (plug k d ctx sub) ->
  nonzero d (plug k d ctx sub) ->
  (d + length ctx <= 256 \/ ctx = [])%nat /\ placed (d + length ctx) sub /\ canonical sub /\
  nonzero (d + length ctx) sub /\
  (forall i o, ctx !! i = Some o -> placed (S (d + i)) o /\ canonical o /\ nonzero (S (d + i)) o /\
     (forall k2, inT k2 o -> bit k2 (d + i) = negb (bit k (d + i)))).
Proof.
  induction ctx as [|o ctx IH]; intros d sub Hp Hc Hn; simpl in *.
  { rewrite Nat.add_0_r. split_and!; try done. by right. }
  apply placed_branch in Hp as (Hd & Hp & Hpo & Hbo). apply canonical_branch in Hc as (Hc & Hco & _).
  apply nonzero_branch in Hn as (_ & Hn & Hno).
  destruct (IH (S d) sub Hp Hc Hn) as (Hl & Ps & Cs & Ns & Ho). rewrite <- Nat.add_succ_comm.
  split_and!; try done.
  - destruct Hl as [Hl| ->]; left; simpl; lia.
  - intros [|i] o' Hi; simpl in Hi; [injection Hi as <-; rewrite Nat.add_0_r; by split_and!|].
    rewrite <- Nat.add_succ_comm. by apply Ho.
Qed.

Lemma plug_placed k ctx : forall d sub, placed d (plug k d ctx sub) ->
  (d + length ctx <= 256 \/ ctx = [])%nat /\ placed (d + length ctx) sub.
Proof.
  induction ctx as [|o ctx IH]; intros d sub Hp; cbn [plug length] in *; [rewrite Nat.add_0_r; by split; [right|]|].
  apply placed_branch in Hp as (Hd & Hp & _). destruct (IH (S d) sub Hp) as [Hl Ps]. rewrite <- Nat.add_succ_comm.
  split; [|done]. left. destruct Hl as [Hl| ->]; cbn; lia.
Qed.

Lemma plug_inT k ctx : forall d sub k2, inT k2 sub -> inT k2 (plug k d ctx sub).
Proof.
  induction ctx as [|o ctx IH]; intros d sub k2 Hi; [done|]. simpl. apply branch_inT. left. by apply IH.
Qed.

Lemma plug_agree k ctx : forall d sub k2, placed d (plug k d ctx sub) -> inT k2 sub ->
  agree d k k2 -> agree (d + length ctx) k k2.
Proof.
  induction ctx as [|o ctx IH]; intros d sub k2 Hp Hi Ha; simpl in *; [by rewrite Nat.add_0_r|].
  pose proof (placed_branch _ _ _ _ Hp) as (Hd & Hp' & _ & _). rewrite <- Nat.add_succ_comm.
  apply (IH (S d) sub); [done..|]. apply agree_S; [done|].
  assert (inT k2 (plug k (S d) ctx sub)) as Hi' by (by apply plug_inT).
  unfold branch in Hp. destruct (bit k d); simpl in Hp; symmetry; by apply Hp.
Qed.

(** ** The search *)

Section key.
Context (k : NodeKey) (Hk : key_ok k).

(** The map of siblings after the way down a zipper. *)
Fixpoint pathSibs (d : nat) (ctx : list tree) (sub : tree) (sibs : gmap Z NodeValue12) : gmap Z NodeValue12 :=
  match ctx with
  | [] => match sub with
          | Leaf k' v' => <[Z.of_nat d := node12 (RemoveKeyBits k' (Z.of_nat d)) (valHash v') LeafCapacity]> sibs
          | _ => sibs
          end
  | o :: ctx => pathSibs (S d) ctx sub
      (<[Z.of_nat d := pathNode k d (th (S d) (plug k (S d) ctx sub)) (th (S d) o)]> sibs)
  end.

(** The nodes of the branches on the way down, without those beside it. *)
Fixpoint branchNodes (d : nat) (ctx : list tree) (sub : tree) : list (list Z * NodeKey) :=
  match ctx with
  | [] => []
  | o :: ctx => (pathInput k d (th (S d) (plug k (S d) ctx sub)) (th (S d) o), BranchCapacity) :: branchNodes (S d) ctx sub
  end.

Lemma branchNodes_snoc o ctx : forall d sub, branchNodes d (ctx ++ [o]) sub =
  branchNodes d ctx (branch (d + length ctx) k sub o) ++
  [(pathInput k (d + length ctx) (th (S (d + length ctx)) sub) (th (S (d + length ctx)) o), BranchCapacity)].
Proof.
  induction ctx as [|o' ctx IH]; intros d sub; cbn [app branchNodes length]; [by rewrite Nat.add_0_r|].
  rewrite IH, plug_app. cbn [plug app]. by rewrite <- Nat.add_succ_comm.
Qed.

Lemma nodes_plug ctx : forall d sub x, x ∈ nodes d (plug k d ctx sub) <->
  x ∈ branchNodes d ctx sub \/ x ∈ nodes (d + length ctx) sub \/ exists i o, ctx !! i = Some o /\ x ∈ nodes (S (d + i)) o.
Proof.
  induction ctx as [|o ctx IH]; intros d sub x; cbn [plug branchNodes length].
  { rewrite Nat.add_0_r. split; [tauto|]. intros [Hx|[Hx|(i & o & Hi & _)]]; [by apply not_elem_of_nil in Hx|done|done]. }
  rewrite nodes_branch, !elem_of_cons, elem_of_app, IH, <- Nat.add_succ_comm. split.
  - intros [->|[[Hx|[Hx|(i & o' & Hi & Hx)]]|Hx]]; [tauto..| |].
    + right. right. exists (S i), o'. by rewrite <- Nat.add_succ_comm.
    + right. right. exists 0%nat, o. by rewrite Nat.add_0_r.
  - intros [[->|Hx]|[Hx|([|i] & o' & Hi & Hx)]]; [tauto..| |].
    + injection Hi as ->. rewrite Nat.add_0_r in Hx. tauto.
    + right. left. right. right. exists i, o'. by rewrite <- Nat.add_succ_comm in Hx.
Qed.

Definition foundAt (d : nat) (sub : tree) : option Found :=
  match sub with
  | Leaf k' v' => Some (mkFound k' (RemoveKeyBits k' (Z.of_nat d)) (map Some v') (valHash v'))
  | _ => None
  end.

Lemma value8_slice v : value_ok v ->
  (x ← slice (ConcatArrays8AndCapacity v BranchCapacity) 0 8; Ok (Value8FromBigIntArray x)) = Ok (map Some v).
Proof.
  intros [Hl _]. rewrite (slice_at _ [] (map Some v) (map Some (words BranchCapacity))), bind_ok;
    [|done|done|by rewrite length_map, Hl].
  do 8 (destruct v as [|? v]; [discriminate Hl|]). by destruct v.
Qed.

Lemma search_leaf fuel d k' v' sibs db :
  (d <= 256)%nat -> key_ok k' -> value_ok v' -> agree d k k' -> stored db d (Leaf k' v') ->
  nonzero d (Leaf k' v') ->
  search (S fuel) (GetPath k) db (mkSearch (th d (Leaf k' v')) (Z.of_nat d) (take d (GetPath k)) sibs None) =
  Ok (mkSearch (th d (Leaf k' v')) (Z.of_nat d) (take d (GetPath k)) (pathSibs d [] (Leaf k' v') sibs)
        (foundAt d (Leaf k' v'))).
Proof.
  intros Hd Hk' Hv' Ha Hs Hn. cbn [search oldRoot found]. rewrite Key_IsZero_spec, bool_decide_false by done.
  cbn [negb andb]. apply Forall_cons in Hs as [Hs1 [Hs2 _]%Forall_cons].
  assert (searchStep (GetPath k) db (mkSearch (th d (Leaf k' v')) (Z.of_nat d) (take d (GetPath k)) sibs None)
    = Ok (mkSearch (th d (Leaf k' v')) (Z.of_nat d) (take d (GetPath k)) (pathSibs d [] (Leaf k' v') sibs)
        (foundAt d (Leaf k' v')))) as ->.
  2: { rewrite bind_ok. destruct fuel; cbn [search oldRoot found foundAt]; by rewrite andb_false_r. }
  pose proof (RemoveKeyBits_ok k' d Hd Hk') as Hr. pose proof (Hash_range v' BranchCapacity) as Hvh.
  destruct (childAt_node12 _ (valHash v') LeafCapacity Hr Hvh) as (C0 & C1 & _).
  { intros i Hi. destruct i as [|[|[|[|i]]]]; [simpl; lia..|lia]. }
  unfold searchStep, has in *. cbn [oldRoot level usedKey siblings fst snd] in *. cbn [th].
  rewrite Hs1, bind_ok. fold (node12 (RemoveKeyBits k' (Z.of_nat d)) (valHash v') LeafCapacity).
  unfold leafInput in *. change (ConcatArrays8AndCapacity (ConcatArrays4 ?a ?b) LeafCapacity) with (node12 a b LeafCapacity).
  rewrite IsFinalNode_node12. cbn [w0 LeafCapacity Z.eqb Pos.eqb].
  change (db_Get db (valHash v') = Ok (ConcatArrays8AndCapacity v' BranchCapacity)) in Hs2.
  rewrite C1, bind_ok, Hs2, bind_ok.
  pose proof (value8_slice v' Hv') as Hsl. apply bind_Ok_inv in Hsl as (x & -> & [= Hx]).
  rewrite bind_ok, C0, bind_ok, Hx. by rewrite JoinKey_RemoveKeyBits.
Qed.

Lemma search_branch fuel d sub o sibs db :
  (d < 256)%nat -> has db (pathInput k d (th (S d) sub) (th (S d) o), BranchCapacity) -> th d (branch d k sub o) <> zeroKey ->
  search (S fuel) (GetPath k) db (mkSearch (th d (branch d k sub o)) (Z.of_nat d) (take d (GetPath k)) sibs None) =
  search fuel (GetPath k) db (mkSearch (th (S d) sub) (Z.of_nat (S d)) (take (S d) (GetPath k))
    (<[Z.of_nat d := pathNode k d (th (S d) sub) (th (S d) o)]> sibs) None).
Proof.
  intros Hd Hs Hn. cbn [search oldRoot found]. rewrite Key_IsZero_spec, bool_decide_false by done.
  cbn [negb andb]. unfold has in Hs. cbn [fst snd] in Hs. rewrite <- th_branch in Hs.
  fold (pathNode k d (th (S d) sub) (th (S d) o)) in Hs.
  unfold searchStep. cbn [oldRoot level usedKey siblings]. rewrite Hs, bind_ok.
  assert (IsFinalNode (pathNode k d (th (S d) sub) (th (S d) o)) = false) as ->
    by (unfold pathNode, pathInput; by destruct (bit k d)).
  rewrite index_path, bind_ok, childAt_pathNode, !bind_ok by (done || apply th_ok).
  rewrite take_S_path by done. do 2 f_equal. lia.
Qed.

Lemma search_plug ctx : forall fuel d sub sibs db,
  (length ctx < fuel)%nat -> (d + length ctx <= 256)%nat -> is_end sub ->
  placed d (plug k d ctx sub) -> nonzero d (plug k d ctx sub) ->
  (forall k2, inT k2 sub -> agree d k k2) -> Forall (has db) (branchNodes d ctx sub) -> stored db (d + length ctx) sub ->
  search fuel (GetPath k) db
    (mkSearch (th d (plug k d ctx sub)) (Z.of_nat d) (take d (GetPath k)) sibs None) =
  Ok (mkSearch (th (d + length ctx) sub) (Z.of_nat (d + length ctx)) (take (d + length ctx) (GetPath k))
        (pathSibs d ctx sub sibs) (foundAt (d + length ctx) sub)).
Proof.
  induction ctx as [|o ctx IH]; intros fuel d sub sibs db Hf Hd He Hp Hn Hag Hb Hs.
  - cbn [length plug] in *. rewrite Nat.add_0_r in *. destruct fuel as [|fuel]; [lia|].
    destruct sub as [|k' v'|]; [|apply search_leaf; try done; [apply Hp|apply Hp|by apply Hag]|done].
    cbn [search oldRoot th]. by rewrite Key_IsZero_spec, bool_decide_true.
  - cbn [length plug] in *. destruct fuel as [|fuel]; [lia|].
    pose proof (placed_branch _ _ _ _ Hp) as (Hlt & Hp' & _). apply Forall_cons in Hb as [Hb1 Hb].
    apply nonzero_branch in Hn as (Hn & Hn' & _). rewrite search_branch by done.
    rewrite <- Nat.add_succ_comm. apply IH; try done; try lia.
    + intros k2 Hi. apply agree_S; [by apply Hag|].
      assert (inT k2 (plug k (S d) ctx sub)) by (by apply plug_inT).
      unfold branch in Hp. destruct (bit k d); simpl in Hp; symmetry; by apply Hp.
    + by rewrite Nat.add_succ_comm.
Qed.

Lemma pathSibs_low ctx : forall d sub sibs j, j < Z.of_nat d ->
  pathSibs d ctx sub sibs !! j = sibs !! j.
Proof.
  induction ctx as [|o ctx IH]; intros d sub sibs j Hj; simpl.
  - destruct sub; try done. by rewrite lookup_insert_ne by lia.
  - rewrite IH by lia. by rewrite lookup_insert_ne by lia.
Qed.

Lemma pathSibs_at ctx : forall d sub sibs i o, ctx !! i = Some o ->
  pathSibs d ctx sub sibs !! Z.of_nat (d + i) =
    Some (pathNode k (d + i) (th (S (d + i)) (plug k (S (d + i)) (drop (S i) ctx) sub)) (th (S (d + i)) o)).
Proof.
  induction ctx as [|o' ctx IH]; intros d sub sibs i o Hi; [done|]. destruct i as [|i]; simpl in Hi |- *.
  - injection Hi as ->. rewrite Nat.add_0_r, pathSibs_low by lia. by rewrite lookup_insert_eq.
  - rewrite <- Nat.add_succ_comm. apply (IH (S d) sub _ i o Hi).
Qed.

(** ** Saving nodes *)

Section save.
(** The nodes that matter: those of the resulting tree. *)
Context (N : list Z * NodeKey -> Prop).
Context (N_inj : forall x y, N x -> N y -> Hash (fst x) (snd x) = Hash (fst y) (snd y) -> x = y).

Definition keeps_nodes (db db' : D) : Prop :=
  (forall x, N x -> has db x -> has db' x) /\ (db_ok db -> db_ok db').

#[local] Instance keeps_nodes_preorder : PreOrder keeps_nodes.
Proof. split; [by intros db; split|]. intros a b c [H1 D1] [H2 D2]. split; auto. Qed.

Lemma keeps_stored db db' d t : keeps_nodes db db' -> (forall x, x ∈ nodes d t -> N x) ->
  stored db d t -> stored db' d t.
Proof.
  intros Hkeep HN Hs. apply Forall_forall. intros x Hx. apply Hkeep; [by apply HN|].
  unfold stored in Hs. rewrite Forall_forall in Hs. by apply Hs.
Qed.

Lemma same_nodes_keeps db db' : same_nodes db db' -> keeps_nodes db db'.
Proof. intros [Hs Hd]. split; [|done]. intros x _ Hx. unfold has in *. by rewrite Hs. Qed.

Lemma concat8_ok i c : value_ok i -> key_ok c -> value12_ok (ConcatArrays8AndCapacity i c).
Proof.
  intros [Hl Hi] Hc. split; [unfold ConcatArrays8AndCapacity; rewrite length_app, !length_map, Hl; done|].
  unfold ConcatArrays8AndCapacity. apply Forall_app. apply key_words_ok in Hc.
  split; apply Forall_map; [eapply Forall_impl; [exact Hi|]|eapply Forall_impl; [exact Hc|]];
    intros w Hw; simpl; eauto.
Qed.

Lemma hashSave_ok i c db : value_ok i -> key_ok c -> N (i, c) ->
  exists db', hashSave false i c (Hash i c) db = Ok db' /\ has db' (i, c) /\ keeps_nodes db db'.
Proof.
  intros Hi Hc HN. unfold hashSave.
  destruct (law_Insert db (Hash i c) (ConcatArrays8AndCapacity i c)) as (db' & Hins & Hget & Hother & Hdep);
    [apply Hash_range|by apply concat8_ok|].
  rewrite Hins. exists db'. split; [done|]. split; [done|]. split; [|done]. intros x Hx Hh. unfold has in *.
  destruct (decide (Hash (fst x) (snd x) = Hash i c)) as [Eh|Hne].
  - by rewrite (N_inj x (i, c) Hx HN Eh).
  - by rewrite Hother by (done || apply Hash_range).
Qed.

Lemma hashcalcAndSave_ok i c db : value_ok i -> key_ok c -> N (i, c) ->
  exists db', hashcalcAndSave Hash false i c db = Ok (Hash i c, db') /\ has db' (i, c) /\ keeps_nodes db db'.
Proof.
  intros Hi Hc HN. unfold hashcalcAndSave. destruct (hashSave_ok i c db Hi Hc HN) as (db' & -> & Hh & Hkeep).
  rewrite bind_ok. eauto.
Qed.

Lemma ToUintArray_some i : Forall word_ok i -> ToUintArray (map Some i) = i.
Proof.
  intros Hi. unfold ToUintArray. rewrite map_map. induction Hi as [|w i Hw _ IH]; [done|].
  simpl. rewrite IH. f_equal. by apply bigUint64_small.
Qed.

(** ** Rehashing the path *)

(** The state from which rehashing gives the tree [plug k 0 ctx sub]. *)
Record ready (db : D) (sibs : gmap Z NodeValue12) (root : NodeKey) (ctx : list tree) (sub : tree) : Prop := {
  ready_sibs i o : ctx !! i = Some o -> exists c, key_ok c /\
    sibs !! Z.of_nat i = Some (pathNode k i c (th (S i) o)) /\ (S i = length ctx -> c = th (S i) sub);
  ready_root : ctx = [] -> root = th 0 sub;
  ready_depth : db_ok db;
}.

Lemma nodes_plug_others ctx : forall d sub i o x, ctx !! i = Some o -> x ∈ nodes (S (d + i)) o ->
  x ∈ nodes d (plug k d ctx sub).
Proof.
  induction ctx as [|o' ctx IH]; intros d sub i o x Hi Hx; [done|]. simpl. rewrite nodes_branch.
  apply elem_of_cons. right. apply elem_of_app. destruct i as [|i]; simpl in Hi.
  - injection Hi as ->. right. by rewrite Nat.add_0_r in Hx.
  - left. apply (IH (S d) sub i o x Hi). by rewrite Nat.add_succ_comm.
Qed.

Lemma nodes_plug_sub ctx : forall d sub x, x ∈ nodes (d + length ctx) sub -> x ∈ nodes d (plug k d ctx sub).
Proof.
  induction ctx as [|o' ctx IH]; intros d sub x Hx; simpl in *; [by rewrite Nat.add_0_r in Hx|].
  rewrite nodes_branch. apply elem_of_cons. right. apply elem_of_app. left. apply IH.
  by rewrite Nat.add_succ_comm.
Qed.

Lemma rehash_node d c o db : key_ok c -> key_ok o -> N (pathInput k d c o, BranchCapacity) ->
  exists db',
    (arr ← slice (pathNode k d c o) 0 8; hashValueIn ← NodeValue8FromBigIntArray arr;
     hashCapIn ← childAt (pathNode k d c o) 2;
     hashcalcAndSave Hash false (ToUintArray hashValueIn) hashCapIn db) =
    Ok (Hash (pathInput k d c o) BranchCapacity, db') /\
    has db' (pathInput k d c o, BranchCapacity) /\ keeps_nodes db db'.
Proof.
  intros Hc Ho HN. pose proof (pathInput_ok k d c o Hc Ho) as [Hl Hw].
  rewrite (slice_at _ [] (map Some (pathInput k d c o)) (map Some (words BranchCapacity))), bind_ok;
    [|done|done|by rewrite length_map, Hl].
  unfold NodeValue8FromBigIntArray. rewrite length_map, Hl. change (Z.of_nat 8 =? 8) with true. cbn [negb].
  rewrite bind_ok.
  assert (childAt (pathNode k d c o) 2 = Ok BranchCapacity) as ->.
  { unfold pathNode, pathInput. destruct (bit k d);
      [apply (childAt_node12 o c BranchCapacity)|apply (childAt_node12 c o BranchCapacity)];
      done || apply zeroKey_ok. }
  rewrite bind_ok, ToUintArray_some by done.
  apply hashcalcAndSave_ok; [by split|apply zeroKey_ok|done].
Qed.

(** Setting the last child on the path. *)
Lemma setLast_ready db sibs root ctx sub h : (length ctx <= 256)%nat ->
  (forall i o, ctx !! i = Some o -> exists c, key_ok c /\ sibs !! Z.of_nat i = Some (pathNode k i c (th (S i) o))) ->
  h = th (length ctx) sub -> (ctx = [] -> root = h) -> db_ok db ->
  exists sibs1, (if 0 <=? Z.of_nat (length ctx) - 1 then setChild sibs (Z.of_nat (length ctx) - 1) (GetPath k) h
                 else Ok sibs) = Ok sibs1 /\ ready db sibs1 root ctx sub.
Proof.
  intros Hl Hs -> Hroot Hdep. destruct (decide (ctx = [])) as [->|Hne].
  { exists sibs. split; [done|]. split; [done|by intros _; apply Hroot|done..]. }
  destruct (exists_last Hne) as (ctx1 & o & ->). rewrite length_app in *. cbn [length] in *.
  set (n := length ctx1) in *. replace (Z.of_nat (n + 1) - 1) with (Z.of_nat n) by lia.
  destruct (Hs n o) as (c & Hc & Hsib); [by apply list_lookup_middle|].
  rewrite (proj2 (Z.leb_le 0 (Z.of_nat n))) by lia.
  rewrite (setChild_pathNode sibs k n c (th (S n) o)) by (done || lia).
  eexists. split; [done|]. split; [|done..].
  intros i o' Hi. destruct (decide (i = n)) as [->|Hin].
  - rewrite list_lookup_middle in Hi by done. injection Hi as <-. exists (th (n + 1) sub).
    split; [apply th_ok|]. rewrite lookup_insert_eq. split; [done|]. intros _. by rewrite Nat.add_1_r.
  - destruct (Hs i o' Hi) as (c' & Hc' & Hsib'). exists c'. split; [done|].
    rewrite lookup_insert_ne by lia. split; [done|]. rewrite length_app. simpl. intros. lia.
Qed.

Lemma rehash_plug ctx : forall fuel sub sibs root db,
  (length ctx <= fuel)%nat -> (length ctx <= 256)%nat -> ready db sibs root ctx sub ->
  (forall x, x ∈ branchNodes 0 ctx sub -> N x) ->
  exists db', rehash Hash false fuel (GetPath k) sibs (Z.of_nat (length ctx) - 1) root db =
      Ok (th 0 (plug k 0 ctx sub), db') /\ Forall (has db') (branchNodes 0 ctx sub) /\ keeps_nodes db db'.
Proof.
  induction ctx as [|o ctx IH] using rev_ind; intros fuel sub sibs root db Hf Hl Hr HN.
  { exists db. simpl. rewrite <- (ready_root _ _ _ _ _ Hr eq_refl). split; [by destruct fuel|]. by split; [apply Forall_nil|]. }
  rewrite branchNodes_snoc in HN |- *. rewrite length_app in *. cbn [length Nat.add] in *. set (n := length ctx) in *.
  rewrite plug_app. cbn [plug Nat.add]. fold n.
  destruct (ready_sibs _ _ _ _ _ Hr n o) as (c & Hc & Hsib & Hceq); [by apply list_lookup_middle|].
  rewrite (Hceq ltac:(rewrite length_app; simpl; lia)) in *. clear c Hceq.
  assert (N (pathInput k n (th (S n) sub) (th (S n) o), BranchCapacity)) as HNb by (apply HN, elem_of_app; right; left).
  destruct (rehash_node n (th (S n) sub) (th (S n) o) db) as (db1 & Hstep & Hhas & Hkeep); [apply th_ok..|done|].
  apply bind_Ok_inv in Hstep as (arr & Harr & Hstep). apply bind_Ok_inv in Hstep as (hv & Hhv & Hstep).
  apply bind_Ok_inv in Hstep as (cap & Hcap & Hstep).
  destruct fuel as [|fuel]; [lia|].
  replace (Z.of_nat (n + 1) - 1) with (Z.of_nat n) by lia. cbn [rehash].
  rewrite (proj2 (Z.leb_le 0 (Z.of_nat n))) by lia. unfold NodeValue12 in *. rewrite Hsib. unfold nonNil.
  rewrite bind_ok, Harr, bind_ok, Hhv, bind_ok, Hcap, bind_ok, Hstep, bind_ok. rewrite <- th_branch.
  destruct (setLast_ready db1 sibs (th n (branch n k sub o)) ctx (branch n k sub o) (th n (branch n k sub o)))
    as (sibs1 & Hset & Hr1); [lia| |done|done|apply Hkeep, (ready_depth _ _ _ _ _ Hr)|].
  { intros i o' Hi. destruct (ready_sibs _ _ _ _ _ Hr i o') as (c' & Hc' & Hsi & _); [|eauto].
    by apply lookup_app_l_Some. }
  fold n in Hset. unfold NodeValue12 in *. rewrite Hset, bind_ok.
  destruct (IH fuel (branch n k sub o) sibs1 (th n (branch n k sub o)) db1) as (db' & -> & Hb & Hk'); [lia..|done| |].
  { intros x Hx. apply HN, elem_of_app. by left. }
  exists db'. split; [done|]. split; [|by etrans]. apply Forall_app. split; [done|]. apply Forall_singleton. by apply Hk'.
Qed.

(** ** From a change to the result *)

Lemma updateDepth_ok n db : db_ok db -> exists db', updateDepth n db = Ok db' /\ same_nodes db db'.
Proof.
  assert (forall o, exists db', (let newDepth := if 255 <? n then 255 else n in
    let b := u8 (Z.land newDepth 0xFF) in
    if o <? b then dropError (db_SetDepth b db) db else Ok db) = Ok db' /\ same_nodes db db') as Hset.
  { intros o. cbv zeta. destruct (_ <? _); [|by exists db].
    destruct (law_SetDepth db (u8 (Z.land (if 255 <? n then 255 else n) 0xFF))) as (db' & -> & Hs). eauto. }
  unfold updateDepth. intros Hp%law_GetDepth.
  destruct (db_GetDepth db) as [o|e|]; [| |done]; rewrite bind_ok; apply Hset.
Qed.

Lemma insertHashKey_ok h db : exists db', db_InsertHashKey h k db = Ok db' /\ keeps_nodes db db'.
Proof.
  destruct (law_InsertHashKey db h k) as (db' & Hi & Hs). eauto using same_nodes_keeps.
Qed.

Lemma dropHashKey_ok h k2 db :
  exists db', dropError (db_InsertHashKey h k2 db) db = Ok db' /\ keeps_nodes db db'.
Proof.
  destruct (law_InsertHashKey db h k2) as (db' & -> & Hs). eauto using same_nodes_keeps.
Qed.

Lemma ready_same db db' sibs root ctx sub : same_nodes db db' -> ready db sibs root ctx sub ->
  ready db' sibs root ctx sub.
Proof.
  intros [Hs Hd] [R1 R2 R3]. split; eauto.
Qed.

Lemma ready_RemoveOver db sibs root ctx sub : ready db sibs root ctx sub ->
  ready db (RemoveOver sibs (Z.of_nat (length ctx))) root ctx sub.
Proof.
  intros [R1 R2 R3]. split; [|done..]. intros i o Hi. destruct (R1 i o Hi) as (c & Hc & Hs & Hl).
  exists c. split; [done|]. split; [|done]. unfold RemoveOver. apply map_lookup_filter_Some. split; [done|].
  simpl. apply lookup_lt_Some in Hi. lia.
Qed.

Lemma finish_ok (c : Changed (D := D)) ctx sub : (length ctx <= 256)%nat ->
  c_level c = Z.of_nat (length ctx) - 1 -> ready (c_db c) (c_siblings c) (c_newRoot c) ctx sub ->
  (forall x, x ∈ branchNodes 0 ctx sub -> N x) ->
  exists db', (db ← updateDepth (Z.of_nat (size (RemoveOver (c_siblings c) (c_level c + 1)))) (c_db c);
     rehash Hash false 257 (GetPath k) (RemoveOver (c_siblings c) (c_level c + 1)) (c_level c) (c_newRoot c) db)
    = Ok (th 0 (plug k 0 ctx sub), db') /\ Forall (has db') (branchNodes 0 ctx sub) /\ keeps_nodes (c_db c) db'.
Proof.
  intros Hl Hlv Hr HN. rewrite Hlv. replace (Z.of_nat (length ctx) - 1 + 1) with (Z.of_nat (length ctx)) by lia.
  destruct (updateDepth_ok (Z.of_nat (size (RemoveOver (c_siblings c) (Z.of_nat (length ctx))))) (c_db c))
    as (db1 & -> & Hs); [apply (ready_depth _ _ _ _ _ Hr)|]. rewrite bind_ok.
  match goal with |- context [rehash Hash false 257 (GetPath k) ?sibs _ ?root db1] =>
    destruct (rehash_plug ctx 257 sub sibs root db1) as (db' & He & Hb & Hk') end; [lia|done|by eapply ready_same, ready_RemoveOver|done|].
  exists db'. split; [exact He|]. split; [done|]. by etrans; [apply same_nodes_keeps|].
Qed.

(** A change that hangs a subtree at the end of a zipper. *)
Definition changed_to (db : D) (r : outcome (Changed (D := D))) (ctx : list tree) (sub : tree) : Prop :=
  exists c, r = Ok c /\ c_level c = Z.of_nat (length ctx) - 1 /\
    ready (c_db c) (c_siblings c) (c_newRoot c) ctx sub /\ stored (c_db c) (length ctx) sub /\ keeps_nodes db (c_db c).

(** The siblings along a zipper, whatever their children on the path. *)
Definition sibs_of (sibs : gmap Z NodeValue12) (ctx : list tree) : Prop :=
  forall i o, ctx !! i = Some o -> exists c, key_ok c /\ sibs !! Z.of_nat i = Some (pathNode k i c (th (S i) o)).

Definition others_stored (db : D) (ctx : list tree) : Prop :=
  forall i o, ctx !! i = Some o -> stored db (S i) o.

Lemma attach_ok mode sibs ctx sub root db0 db : (length ctx <= 256)%nat -> sibs_of sibs ctx ->
  stored db (length ctx) sub -> keeps_nodes db0 db -> db_ok db ->
  changed_to db0 (attach mode sibs (Z.of_nat (length ctx) - 1) (GetPath k) root (th (length ctx) sub) db) ctx sub.
Proof.
  intros Hl Hs Hsub Hkeep Hdep. unfold attach, changed_to.
  destruct (setLast_ready db sibs (if 0 <=? Z.of_nat (length ctx) - 1 then root else th (length ctx) sub)
    ctx sub (th (length ctx) sub) Hl Hs eq_refl) as (sibs1 & Hset & Hr); [by intros -> |done|].
  destruct (0 <=? Z.of_nat (length ctx) - 1).
  - rewrite Hset, bind_ok. eexists. split; [done|]. done.
  - injection Hset as <-. eexists. split; [done|]. done.
Qed.

(** ** Inserting and updating *)

Lemma LeafCapacity_ok : key_ok LeafCapacity.
Proof. intros i Hi. destruct i as [|[|[|[|i]]]]; [simpl; lia..|lia]. Qed.

Lemma leafInput_ok d k2 v : (d <= 256)%nat -> key_ok k2 -> value_ok (leafInput d k2 v).
Proof. intros Hd Hk2. apply concat4_ok; [by apply RemoveKeyBits_ok|apply Hash_range]. Qed.

Section value.
Context (v : list Z) (Hv : value_ok v) (newValH : NodeKey).
Context (HnewValH : newValH = zeroKey \/ newValH = valHash v).

Lemma saveLeaf_ok d db : (d <= 256)%nat -> (forall x, x ∈ nodes d (Leaf k v) -> N x) ->
  exists db1 db2, saveValue Hash false (map Some v) newValH db = Ok (valHash v, db1) /\
    hashcalcAndSave Hash false (leafInput d k v) LeafCapacity db1 = Ok (th d (Leaf k v), db2) /\
    stored db2 d (Leaf k v) /\ keeps_nodes db db2.
Proof.
  intros Hd HN. pose proof Hv as [Hl Hw].
  assert (N (v, BranchCapacity)) as HNv by (apply HN; right; left).
  assert (N (leafInput d k v, LeafCapacity)) as HNl by (apply HN; left).
  assert (exists db1, saveValue Hash false (map Some v) newValH db = Ok (valHash v, db1) /\
    has db1 (v, BranchCapacity) /\ keeps_nodes db db1) as (db1 & Hsv & Hh1 & Hk1).
  { unfold saveValue. rewrite ToUintArray_some by done. case_bool_decide as Hz.
    - apply hashcalcAndSave_ok; [done|apply zeroKey_ok|done].
    - destruct HnewValH as [->| ->]; [done|].
      destruct (hashSave_ok v BranchCapacity db Hv zeroKey_ok HNv) as (db1 & Hs & Hh & Hkp).
      unfold valHash. rewrite Hs, bind_ok. eauto. }
  destruct (hashcalcAndSave_ok (leafInput d k v) LeafCapacity db1) as (db2 & Hs2 & Hh2 & Hk2);
    [by apply leafInput_ok|apply LeafCapacity_ok|done|].
  exists db1, db2. split; [done|]. split; [done|]. split; [|by etrans].
  apply Forall_cons. split; [done|]. apply Forall_cons. split; [by apply Hk2|by apply Forall_nil].
Qed.

(** Putting a leaf for the key at the end of the path, whether or not it had one. *)
Lemma insertNotFound_ok sibs ctx root db : (length ctx <= 256)%nat -> sibs_of sibs ctx ->
  db_ok db -> (forall x, x ∈ nodes (length ctx) (Leaf k v) -> N x) ->
  changed_to db (insertNotFoundMode Hash false k (map Some v) newValH (GetPath k) sibs
    (Z.of_nat (length ctx) - 1) root db) ctx (Leaf k v).
Proof.
  intros Hl Hs Hdep HN. unfold insertNotFoundMode.
  replace (Z.of_nat (length ctx) - 1 + 1) with (Z.of_nat (length ctx)) by lia.
  destruct (saveLeaf_ok (length ctx) db Hl) as (db1 & db2 & -> & Hleaf & Hst & Hk1); [done|].
  rewrite bind_ok. unfold leafInput in Hleaf. rewrite Hleaf, bind_ok.
  destruct (dropHashKey_ok (th (length ctx) (Leaf k v)) k db2) as (db3 & -> & Hk3). rewrite bind_ok.
  apply attach_ok; [done..|by eapply keeps_stored|by etrans|by apply Hk3, Hk1].
Qed.

Lemma update_ok sibs ctx root db f : (length ctx <= 256)%nat -> sibs_of sibs ctx ->
  db_ok db -> (forall x, x ∈ nodes (length ctx) (Leaf k v) -> N x) ->
  foundRKey f = RemoveKeyBits k (Z.of_nat (length ctx)) ->
  changed_to db (updateMode Hash false k (map Some v) newValH (GetPath k) f sibs
    (Z.of_nat (length ctx) - 1) root db) ctx (Leaf k v).
Proof.
  intros Hl Hs Hdep HN Hf. unfold updateMode.
  destruct (saveLeaf_ok (length ctx) db Hl) as (db1 & db2 & -> & Hleaf & Hst & Hk1); [done|].
  rewrite bind_ok, Hf. unfold leafInput in Hleaf. rewrite Hleaf, bind_ok.
  destruct (insertHashKey_ok (th (length ctx) (Leaf k v)) db2) as (db3 & -> & Hk3). rewrite bind_ok.
  apply attach_ok; [done..|by eapply keeps_stored|by etrans|by apply Hk3, Hk1].
Qed.

(** *** Next to another leaf *)

Lemma commonLevel_ok k' n j : forall fuel, (j <= fuel)%nat -> (n + j < 256)%nat ->
  (forall i, (n <= i < n + j)%nat -> bit k i = bit k' i) -> bit k (n + j) <> bit k' (n + j) ->
  commonLevel fuel (GetPath k) (GetPath k') (Z.of_nat n) = Ok (Z.of_nat (n + j)).
Proof.
  revert n. induction j as [|j IH]; intros n fuel Hf Hlt Heq Hne.
  - rewrite Nat.add_0_r in *. destruct fuel; cbn [commonLevel]; rewrite !GetPath_length;
      rewrite !(proj2 (Z.leb_gt _ _)) by lia; cbn [orb];
      rewrite !index_path, !bind_ok by done; by destruct (bit k n), (bit k' n).
  - destruct fuel as [|fuel]; [lia|]. cbn [commonLevel]. rewrite !GetPath_length.
    rewrite !(proj2 (Z.leb_gt _ _)) by lia. cbn [orb]. rewrite !index_path, !bind_ok by lia.
    rewrite (Heq n) by lia. rewrite Z.eqb_refl. cbn [negb].
    replace (Z.of_nat n + 1) with (Z.of_nat (S n)) by lia. rewrite (IH (S n)); [f_equal; lia|lia|lia| |].
    + intros i Hi. apply Heq. lia.
    + by replace (S n + j)%nat with (n + S j)%nat by lia.
Qed.

(** Where two keys part, the split is a path of single branches to it. *)
Lemma split_plug k' v' n : key_ok k' -> k <> k' -> agree n k k' -> (n <= 256)%nat ->
  exists j, (n + j < 256)%nat /\ (forall i, (n <= i < n + j)%nat -> bit k i = bit k' i) /\
    bit k (n + j) <> bit k' (n + j) /\
    split (256 - n) n k v k' v' =
      plug k n (replicate j E) (branch (n + j) k (Leaf k v) (Leaf k' v')).
Proof.
  intros Hk' Hne Ha Hn. remember (256 - n)%nat as f eqn:Hf. assert (n + f = 256)%nat as Hnf by lia.
  clear Hf Hn. revert n Ha Hnf. induction f as [|f IH]; intros n Ha Hnf.
  { destruct Hne. apply agree_256; [done..|]. by replace 256%nat with n by lia. }
  cbn [split]. destruct (Bool.eqb (bit k n) (bit k' n)) eqn:Eb.
  - apply eqb_prop in Eb. destruct (IH (S n)) as (j & Hlt & Heq & Hd & Hs); [by apply agree_S|lia|].
    exists (S j). rewrite Nat.add_succ_r. simpl in Hlt, Hd, Hs. split; [done|]. split.
    + intros i Hi. destruct (decide (i = n)) as [->|]; [done|]. apply Heq. lia.
    + split; [done|]. cbn [replicate plug]. by rewrite Hs.
  - apply eqb_false_iff in Eb. exists 0%nat. rewrite Nat.add_0_r. split; [lia|]. split; [intros; lia|]. done.
Qed.

Lemma singleBranches_ok j : forall n t fuel db, (j <= fuel)%nat -> (n + j <= 256)%nat ->
  (forall x, x ∈ nodes n (plug k n (replicate j E) t) -> N x) -> stored db (n + j) t ->
  exists db', singleBranches Hash false fuel (GetPath k) (Z.of_nat (n + j) - 1) (Z.of_nat n - 1)
      (th (n + j) t) db = Ok (th n (plug k n (replicate j E) t), db') /\
    stored db' n (plug k n (replicate j E) t) /\ keeps_nodes db db'.
Proof.
  induction j as [|j IH]; intros n t fuel db Hf Hl HN Hst.
  { rewrite Nat.add_0_r in *. exists db. simpl. split; [|done].
    destruct fuel; cbn [singleBranches]; by rewrite Z.eqb_refl. }
  rewrite replicate_S_end, plug_app in HN |- *. rewrite length_replicate in HN |- *. cbn [plug] in HN |- *.
  destruct fuel as [|fuel]; [lia|]. cbn [singleBranches].
  rewrite (proj2 (Z.eqb_neq _ _)) by lia. replace (Z.of_nat (n + S j) - 1) with (Z.of_nat (n + j)) by lia.
  rewrite index_path, bind_ok by lia.
  assert (setHalf (replicate 8 0) (Z.b2z (bit k (n + j))) (th (n + S j) t) =
    Ok (pathInput k (n + j) (th (S (n + j)) t) (th (S (n + j)) E))) as ->.
  { rewrite Nat.add_succ_r. unfold pathInput. destruct (bit k (n + j)); reflexivity. }
  rewrite bind_ok.
  assert (forall x, x ∈ nodes (n + j) (branch (n + j) k t E) -> N x) as HNb.
  { intros x Hx. apply HN, nodes_plug_sub. by rewrite length_replicate. }
  destruct (hashcalcAndSave_ok (pathInput k (n + j) (th (S (n + j)) t) (th (S (n + j)) E)) BranchCapacity db)
    as (db1 & -> & Hh & Hk1); [apply pathInput_ok; apply th_ok|apply zeroKey_ok| |].
  { apply HNb. rewrite nodes_branch. left. }
  rewrite bind_ok, <- th_branch.
  destruct (IH n (branch (n + j) k t E) fuel db1) as (db2 & Hr & Hs2 & Hk2); [lia..|done| |].
  { unfold stored. rewrite nodes_branch. apply Forall_cons. split; [done|]. simpl nodes. rewrite app_nil_r.
    eapply keeps_stored; [exact Hk1| |by rewrite Nat.add_succ_r in Hst].
    intros x Hx. apply HNb. rewrite nodes_branch. right. apply elem_of_app. by left. }
  exists db2. rewrite Hr. split; [done|]. split; [done|]. by etrans.
Qed.

Lemma fork_node m k' a b : (m < 256)%nat -> bit k m <> bit k' m ->
  (x ← index (GetPath k) (Z.of_nat m); y ← index (GetPath k') (Z.of_nat m);
   foldl (fun acc j => node ← acc;
            node ← store node (Z.to_nat (x * 4) + j) (wordAt j a);
            store node (Z.to_nat (y * 4) + j) (wordAt j b))
     (Ok (replicate 8 0)) [0; 1; 2; 3]%nat) = Ok (pathInput k m a b).
Proof.
  intros Hm Hne. rewrite !index_path, !bind_ok by done. unfold pathInput.
  destruct (bit k m), (bit k' m); done.
Qed.

Lemma insertFound_ok sibs ctx root db f k' v' : (length ctx <= 256)%nat -> sibs_of sibs ctx ->
  db_ok db -> key_ok k' -> k <> k' -> agree (length ctx) k k' ->
  foundKey f = k' -> foundOldValHash f = valHash v' -> has db (v', BranchCapacity) ->
  let sub := split (256 - length ctx) (length ctx) k v k' v' in
  (forall x, x ∈ nodes (length ctx) sub -> N x) ->
  changed_to db (insertFoundMode Hash false k (map Some v) newValH (GetPath k) f sibs
    (Z.of_nat (length ctx) - 1) root db) ctx sub.
Proof.
  intros Hl Hs Hdep Hk' Hne Ha Hf Hfv Hhv sub HNs. set (n := length ctx) in *.
  destruct (split_plug k' v' n Hk' Hne Ha Hl) as (j & Hm & Heq & Hd & Hsub). fold sub in Hsub.
  set (m := (n + j)%nat) in *. set (fork := branch m k (Leaf k v) (Leaf k' v')) in *.
  assert (forall x, x ∈ nodes m fork -> N x) as HNf.
  { intros x Hx. apply HNs. rewrite Hsub. apply nodes_plug_sub. by rewrite length_replicate. }
  assert (forall x, x ∈ nodes (S m) (Leaf k v) \/ x ∈ nodes (S m) (Leaf k' v') -> N x) as HNl.
  { intros x Hx. apply HNf. unfold fork. rewrite nodes_branch. right. by apply elem_of_app. }
  unfold insertFoundMode. rewrite Hf, Hfv.
  replace (Z.of_nat n - 1 + 1) with (Z.of_nat n) by lia.
  rewrite (commonLevel_ok k' n j), bind_ok by (done || lia). fold m.
  replace (Z.of_nat m + 1) with (Z.of_nat (S m)) by lia.
  destruct (hashcalcAndSave_ok (leafInput (S m) k' v') LeafCapacity db) as (db1 & Hc1 & Hh1 & Hk1);
    [apply leafInput_ok; [lia|done]|apply LeafCapacity_ok|apply HNl; right; left|].
  unfold leafInput in Hc1. rewrite Hc1, bind_ok. fold (leafInput (S m) k' v').
  change (Hash (leafInput (S m) k' v') LeafCapacity) with (th (S m) (Leaf k' v')).
  destruct (dropHashKey_ok (th (S m) (Leaf k' v')) k' db1) as (db2 & -> & Hk2). rewrite bind_ok.
  destruct (saveLeaf_ok (S m) db2) as (db3 & db4 & -> & Hleaf & Hst & Hk4); [lia|auto|].
  rewrite bind_ok. unfold leafInput in Hleaf. rewrite Hleaf, bind_ok.
  destruct (dropHashKey_ok (th (S m) (Leaf k v)) k db4) as (db5 & -> & Hk5). rewrite bind_ok.
  pose proof (fork_node m k' (th (S m) (Leaf k v)) (th (S m) (Leaf k' v')) Hm Hd) as Hnode.
  apply bind_Ok_inv in Hnode as (x & -> & Hnode). apply bind_Ok_inv in Hnode as (y & -> & Hnode).
  rewrite !bind_ok, Hnode, bind_ok.
  destruct (hashcalcAndSave_ok (pathInput k m (th (S m) (Leaf k v)) (th (S m) (Leaf k' v'))) BranchCapacity db5)
    as (db6 & -> & Hh6 & Hk6); [apply pathInput_ok; apply th_ok|apply zeroKey_ok| |].
  { apply HNf. unfold fork. rewrite nodes_branch. left. }
  rewrite bind_ok, <- th_branch. fold fork.
  assert (keeps_nodes db2 db6) as Hk26 by (by repeat (etrans; [eassumption|])).
  assert (stored db6 m fork) as Hsf.
  { unfold stored, fork. rewrite nodes_branch. apply Forall_cons. split; [done|]. apply Forall_app. split.
    - eapply keeps_stored; [|by auto|exact Hst]. by etrans.
    - apply Forall_cons. split; [apply Hk26, Hk2; [apply HNl; right; left..|done]|].
      apply Forall_cons. split; [|by apply Forall_nil].
      apply Hk26, Hk2, Hk1; [apply HNl; right; right; left..|done]. }
  destruct (singleBranches_ok j n fork 257 db6) as (db7 & Hr & Hs7 & Hk7); [lia..| |done|].
  { by rewrite <- Hsub. }
  fold m in Hr. rewrite Hr, bind_ok. rewrite <- Hsub in *. assert (keeps_nodes db db7) as Hk07 by (by repeat (etrans; [eassumption|])).
  apply attach_ok; [done..|by apply Hk07].
Qed.
End value.

(** ** Deleting *)

(** The tree after a deletion at the end of a zipper. *)
Fixpoint mplug (d : nat) (ctx : list tree) (sub : tree) : tree :=
  match ctx with
  | [] => sub
  | o :: ctx => mkBranch d k (mplug (S d) ctx sub) o
  end.

Lemma tdel_plug ctx : forall d sub, tdel d k (plug k d ctx sub) = mplug d ctx (tdel (d + length ctx) k sub).
Proof.
  induction ctx as [|o ctx IH]; intros d sub; simpl; [by rewrite Nat.add_0_r|].
  by rewrite tdel_branch, IH, Nat.add_succ_r.
Qed.

Lemma mplug_app ctx1 : forall d ctx2 sub,
  mplug d (ctx1 ++ ctx2) sub = mplug d ctx1 (mplug (d + length ctx1) ctx2 sub).
Proof.
  induction ctx1 as [|o ctx1 IH]; intros d ctx2 sub; simpl; [by rewrite Nat.add_0_r|].
  by rewrite IH, Nat.add_succ_r.
Qed.

Lemma mkBranch_many d sub o : many sub o -> mkBranch d k sub o = branch d k sub o.
Proof. unfold mkBranch, branch. destruct (bit k d), sub, o; done. Qed.

Lemma branch_B d sub o : exists l r, branch d k sub o = B l r.
Proof. unfold branch. destruct (bit k d); eauto. Qed.

Lemma mplug_B ctx : forall d l r, mplug d ctx (B l r) = plug k d ctx (B l r).
Proof.
  induction ctx as [|o ctx IH]; intros d l r; [done|]. simpl. rewrite IH.
  assert (exists l' r', plug k (S d) ctx (B l r) = B l' r') as (l' & r' & Heq).
  { destruct ctx; simpl; [eauto|apply branch_B]. }
  rewrite Heq. apply mkBranch_many. by destruct o.
Qed.

Lemma mplug_E j : forall d k2 v2, mplug d (replicate j E) (Leaf k2 v2) = Leaf k2 v2.
Proof.
  induction j as [|j IH]; intros d k2 v2; [done|]. simpl. rewrite IH. unfold mkBranch. by destruct (bit k d).
Qed.

Lemma mplug_leaf ctx d k2 v2 : last ctx <> Some E -> mplug d ctx (Leaf k2 v2) = plug k d ctx (Leaf k2 v2).
Proof.
  destruct ctx as [|o ctx _] using rev_ind; [done|]. rewrite last_snoc. intros Hne.
  rewrite mplug_app, plug_app. cbn [mplug plug].
  rewrite mkBranch_many by (destruct o; simpl; [by destruct Hne|done..]).
  destruct (branch_B (d + length ctx) (Leaf k2 v2) o) as (l & r & ->). apply mplug_B.
Qed.

(** A key that is not there: nothing to collapse. *)
Lemma mplug_canonical ctx : forall d sub, canonical (plug k d ctx sub) -> mplug d ctx sub = plug k d ctx sub.
Proof.
  induction ctx as [|o ctx IH]; intros d sub Hc; [done|]. simpl in *.
  apply canonical_branch in Hc as (Hc & _ & Hm). rewrite IH by done. by apply mkBranch_many.
Qed.

(** The zipper the siblings came from: the children on the path are not empty. *)
Definition sibs_nonzero (sibs : gmap Z NodeValue12) (ctx : list tree) : Prop :=
  forall i o, ctx !! i = Some o -> exists c, key_ok c /\ c <> zeroKey /\
    sibs !! Z.of_nat i = Some (pathNode k i c (th (S i) o)).

Lemma climb_ok sibs ctx : forall fuel uKey, (length ctx < fuel)%nat -> 0 <= uKey ->
  sibs_nonzero sibs ctx -> (forall i o, ctx !! i = Some o -> o <> E -> th (S i) o <> zeroKey) ->
  exists ctx2 j, ctx = ctx2 ++ replicate j E /\ last ctx2 <> Some E /\
    climb fuel sibs uKey (Z.of_nat (length ctx)) = Ok (Z.of_nat (length ctx2) - 1).
Proof.
  induction ctx as [|o ctx IH] using rev_ind; intros fuel uKey Hf Hu Hs Hnz.
  { exists [], 0%nat. split; [done|]. split; [done|]. destruct fuel as [|fuel]; [simpl in Hf; lia|].
    change (Z.of_nat (length [])) with 0. cbn [climb]. rewrite (proj2 (Z.leb_le 0 uKey)) by done.
    change (true && (0 <=? 0)) with true. cbv iota zeta. change (0 <=? 0 - 1) with false. cbv iota.
    rewrite bind_ok. destruct fuel; cbn [climb]; change (0 <=? 0 - 1) with false; by rewrite andb_false_r. }
  rewrite length_app in *. cbn [length] in *. set (n := length ctx) in *.
  destruct fuel as [|fuel]; [lia|]. cbn [climb]. rewrite (proj2 (Z.leb_le 0 uKey)) by done.
  rewrite (proj2 (Z.leb_le 0 (Z.of_nat (n + 1)))) by lia. cbn [andb].
  replace (Z.of_nat (n + 1) - 1) with (Z.of_nat n) by lia. rewrite (proj2 (Z.leb_le 0 (Z.of_nat n))) by lia.
  destruct (Hs n o) as (c & Hc & Hcz & Hsib); [by apply list_lookup_middle|].
  unfold NodeValue12 in *. rewrite Hsib. unfold nonNil. rewrite bind_ok.
  rewrite IsUniqueSibling_pathNode, bind_ok by (done || apply th_ok). rewrite bool_decide_false by done.
  assert (o = E \/ o <> E) as [->|Ho] by (destruct o; auto).
  - rewrite bool_decide_true by done.
    destruct (IH fuel (Z.b2z (bit k n))) as (ctx2 & j & Heq & Hl & Hcl); [lia|by destruct (bit k n)| | |].
    + intros i o Hi. apply Hs. by apply lookup_app_l_Some.
    + intros i o Hi. apply Hnz. by apply lookup_app_l_Some.
    + exists ctx2, (S j). rewrite replicate_S_end, app_assoc, <- Heq. done.
  - rewrite bool_decide_false by (apply Hnz; [by apply list_lookup_middle|done]).
    exists (ctx ++ [o]), 0%nat. rewrite app_nil_r, last_snoc, length_app. split; [done|].
    split; [congruence|]. destruct fuel; cbn [climb andb Z.leb Z.compare]; f_equal; simpl; lia.
Qed.

Lemma childAt_other d c o : key_ok c -> key_ok o ->
  childAt (pathNode k d c o) (Z.b2z (negb (bit k d))) = Ok o.
Proof.
  intros Hc Ho. unfold pathNode, pathInput. destruct (bit k d).
  - apply (childAt_node12 o c BranchCapacity Ho Hc zeroKey_ok).
  - apply (childAt_node12 c o BranchCapacity Hc Ho zeroKey_ok).
Qed.

Lemma nonzero_th d t : nonzero d t -> t <> E -> th d t <> zeroKey.
Proof. destruct t; simpl; tauto. Qed.

(** What the search leaves behind. *)
Lemma pathSibs_of ctx sub : sibs_of (pathSibs 0 ctx sub ∅) ctx.
Proof.
  intros i o Hi. rewrite (pathSibs_at ctx 0 sub ∅ i o Hi). eexists. split; [|done]. apply th_ok.
Qed.

Lemma plug_nonE ctx d k2 v2 : plug k d ctx (Leaf k2 v2) <> E.
Proof. destruct ctx; simpl; [done|]. unfold branch. by destruct (bit k d). Qed.

Lemma pathSibs_nonzero ctx k2 v2 : let t := plug k 0 ctx (Leaf k2 v2) in
  placed 0 t -> canonical t -> nonzero 0 t -> sibs_nonzero (pathSibs 0 ctx (Leaf k2 v2) ∅) ctx.
Proof.
  intros t Hp Hc Hn i o Hi. rewrite (pathSibs_at ctx 0 (Leaf k2 v2) ∅ i o Hi). eexists.
  split; [apply th_ok|]. split; [|done]. cbn [Nat.add].
  assert (t = plug k 0 (take (S i) ctx) (plug k (S i) (drop (S i) ctx) (Leaf k2 v2))) as Ht.
  { unfold t. rewrite <- (take_drop (S i) ctx) at 1. rewrite plug_app, length_take_le; [done|].
    apply lookup_lt_Some in Hi. lia. }
  rewrite Ht in Hp, Hc, Hn. destruct (plug_parts k (take (S i) ctx) 0 _ Hp Hc Hn) as (_ & _ & _ & Hns & _).
  rewrite length_take_le in Hns by (apply lookup_lt_Some in Hi; lia).
  apply nonzero_th; [exact Hns|apply plug_nonE].
Qed.

Lemma plug_others_stored ctx sub db : stored db 0 (plug k 0 ctx sub) -> others_stored db ctx.
Proof.
  intros Hs i o Hi. apply Forall_forall. intros x Hx. unfold stored in Hs. rewrite Forall_forall in Hs.
  apply Hs. by apply (nodes_plug_others ctx 0 sub i o).
Qed.

Lemma sibs_of_nonzero sibs ctx : sibs_nonzero sibs ctx -> sibs_of sibs ctx.
Proof. intros Hs i o Hi. destruct (Hs i o Hi) as (c & Hc & _ & Hl). eauto. Qed.

(** The sibling of the deleted leaf is a leaf: it moves up. *)
Lemma deleteLeaf_ok ctx1 k2 v2 v0 db root sibs : let n := length ctx1 in
  let t := plug k 0 (ctx1 ++ [Leaf k2 v2]) (Leaf k v0) in
  placed 0 t -> canonical t -> nonzero 0 t -> stored db 0 t -> db_ok db ->
  sibs_nonzero sibs ctx1 ->
  (forall x, x ∈ nodes 0 (mplug 0 ctx1 (Leaf k2 v2)) -> N x) ->
  exists ctx2, (length ctx2 <= 256)%nat /\ plug k 0 ctx2 (Leaf k2 v2) = mplug 0 ctx1 (Leaf k2 v2) /\
    (forall i o, ctx2 !! i = Some o -> ctx1 !! i = Some o) /\
    changed_to db
      (lvl ← climb 257 sibs (Z.b2z (negb (bit k n))) (Z.of_nat n);
       od ← hashcalcAndSave Hash false (ConcatArrays4 (RemoveKeyBits k2 (lvl + 1)) (valHash v2)) LeafCapacity db;
       let '(oldLeafHash, db) := od : NodeKey * D in
       db ← dropError (db_InsertHashKey oldLeafHash k2 db) db;
       attach DeleteFound sibs lvl (GetPath k) root oldLeafHash db) ctx2 (Leaf k2 v2).
Proof.
  intros n t Hp Hc Hnz Hst Hdep Hsn HN.
  destruct (plug_parts k _ 0 _ Hp Hc Hnz) as (Hlen & _ & _ & _ & Hparts).
  assert (length (ctx1 ++ [Leaf k2 v2]) <= 256)%nat as Hlen'
    by (destruct Hlen as [?|Hnil]; [done|by destruct ctx1]). rewrite length_app in Hlen'. simpl in Hlen'.
  destruct (Hparts n (Leaf k2 v2)) as ((Hk2 & Hv2) & _); [by apply list_lookup_middle|].
  pose proof (plug_others_stored _ _ _ Hst) as Hos.
  destruct (climb_ok sibs ctx1 257 (Z.b2z (negb (bit k n)))) as (ctx2 & j & Heq & Hlast & Hcl);
    [lia|by destruct (bit k n)|done| |].
  { intros i o Hi Ho. destruct (Hparts i o) as (_ & _ & Hno & _); [by apply lookup_app_l_Some|].
    by apply nonzero_th. }
  assert (mplug 0 ctx1 (Leaf k2 v2) = plug k 0 ctx2 (Leaf k2 v2)) as Hm
    by (rewrite Heq, mplug_app, mplug_E; by apply mplug_leaf).
  rewrite Hm in HN |- *. exists ctx2.
  assert (length ctx2 <= n)%nat as Hn2 by (unfold n; rewrite Heq, length_app; lia).
  assert (forall i o, ctx2 !! i = Some o -> ctx1 !! i = Some o) as Hsub
    by (intros i o Hi; rewrite Heq; by apply lookup_app_l_Some).
  split; [lia|]. split; [done|]. split; [done|]. fold n in Hcl. rewrite Hcl, bind_ok.
  replace (Z.of_nat (length ctx2) - 1 + 1) with (Z.of_nat (length ctx2)) by lia.
  destruct (hashcalcAndSave_ok (leafInput (length ctx2) k2 v2) LeafCapacity db) as (db1 & Hc1 & Hh1 & Hk1).
  { apply leafInput_ok; [lia|done]. } { apply LeafCapacity_ok. } { apply HN, nodes_plug_sub. left. }
  unfold leafInput in Hc1. rewrite Hc1, bind_ok. fold (leafInput (length ctx2) k2 v2).
  change (Hash (leafInput (length ctx2) k2 v2) LeafCapacity) with (th (length ctx2) (Leaf k2 v2)).
  destruct (dropHashKey_ok (th (length ctx2) (Leaf k2 v2)) k2 db1) as (db2 & -> & Hk3). rewrite bind_ok.
  apply attach_ok; [lia|by intros i o Hi; apply (sibs_of_nonzero sibs ctx1 Hsn), Hsub| |by etrans|by apply Hk3, Hk1].
  apply Forall_cons. split; [apply Hk3; [apply HN, nodes_plug_sub; left|done]|].
  apply Forall_cons. split; [|by apply Forall_nil].
  apply Hk3, Hk1; [apply HN, nodes_plug_sub; right; left..|].
  specialize (Hos n (Leaf k2 v2)). unfold n in Hos. rewrite list_lookup_middle in Hos by done.
  specialize (Hos eq_refl). apply Forall_cons in Hos as [_ Hos]. by apply Forall_cons in Hos as [Hos _].
Qed.

(** The siblings after the child at the end of the path is set to zero. *)
Lemma sibs_zeroed sibs ctx1 o x : sibs_nonzero sibs (ctx1 ++ [o]) ->
  sibs_nonzero (<[Z.of_nat (length ctx1) + 1 := x]>
    (<[Z.of_nat (length ctx1) := pathNode k (length ctx1) zeroKey (th (S (length ctx1)) o)]> sibs)) ctx1.
Proof.
  intros Hs i o' Hi. pose proof (lookup_lt_Some _ _ _ Hi) as Hlt.
  destruct (Hs i o') as (c & Hc & Hcz & Hl); [by apply lookup_app_l_Some|]. exists c. split; [done|].
  split; [done|]. by rewrite !lookup_insert_ne by lia.
Qed.

(** The key of the leaf beside the end of the path. *)
Lemma sibling_key k2 n : key_ok k2 -> (n < 256)%nat -> agree n k k2 -> bit k2 n = negb (bit k n) ->
  JoinKey (removelast (take (n + 1) (GetPath k)) ++ [Z.b2z (negb (bit k n))])
    (RemoveKeyBits k2 (Z.of_nat (S n))) = k2.
Proof.
  intros Hk2 Hn Ha Hb. rewrite Nat.add_1_r, take_S_path, removelast_last, <- Hb by done.
  rewrite (take_path_ext k k2 n) by (done || lia). rewrite <- take_S_path by done.
  by apply JoinKey_RemoveKeyBits.
Qed.

Lemma delete_ok ctx v0 db root : let t := plug k 0 ctx (Leaf k v0) in
  placed 0 t -> canonical t -> nonzero 0 t -> stored db 0 t -> db_ok db ->
  (forall x, x ∈ nodes 0 (mplug 0 ctx E) -> N x) ->
  exists ctx' sub', (length ctx' <= 256)%nat /\ plug k 0 ctx' sub' = mplug 0 ctx E /\
    (forall i o, ctx' !! i = Some o -> ctx !! i = Some o) /\
    changed_to db (deleteMode Hash false (removelast (take (length ctx) (GetPath k))) (GetPath k)
      (pathSibs 0 ctx (Leaf k v0) ∅) (Z.of_nat (length ctx) - 1) root db) ctx' sub'.
Proof.
  intros t Hp Hc Hnz Hst Hdep HN. unfold deleteMode.
  destruct ctx as [|o ctx1 _] using rev_ind.
  { exists [], E. split; [simpl; lia|]. split; [done|]. split; [done|]. eexists. split; [done|]. split; [done|].
    split; [done|]. by split; [apply Forall_nil|]. }
  pose proof (pathSibs_nonzero _ _ _ Hp Hc Hnz) as Hsn.
  destruct (plug_parts k _ 0 _ Hp Hc Hnz) as (Hlen & _ & _ & _ & Hparts).
  assert (length (ctx1 ++ [o]) <= 256)%nat as Hlen'
    by (destruct Hlen as [?|Hnil]; [done|by destruct ctx1]).
  pose proof (plug_others_stored _ _ _ Hst) as Hos.
  rewrite length_app in *. cbn [length] in *. set (n := length ctx1) in *.
  replace (Z.of_nat (n + 1) - 1) with (Z.of_nat n) by lia.
  assert ((ctx1 ++ [o]) !! n = Some o) as Hn by (by apply list_lookup_middle).
  destruct (Hparts n o Hn) as (Hpo & Hco & Hno & Hbo).
  assert (o <> E) as HoE.
  { unfold t in Hc. rewrite plug_app in Hc. destruct (plug_parts k ctx1 0 (branch n k (Leaf k v0) o)) as (_ & _ & Hc' & _);
      [unfold t in Hp; by rewrite plug_app in Hp|done|unfold t in Hnz; by rewrite plug_app in Hnz|].
    apply canonical_branch in Hc' as (_ & _ & Hm). by intros ->. }
  destruct (Hsn n o Hn) as (c & Hcok & _ & Hsib).
  rewrite (proj2 (Z.leb_le 0 (Z.of_nat n))) by lia.
  rewrite (setChild_pathNode _ k n c (th (S n) o)), bind_ok by (done || lia).
  set (sibs := <[Z.of_nat n := pathNode k n zeroKey (th (S n) o)]> (pathSibs 0 (ctx1 ++ [o]) (Leaf k v0) ∅)).
  assert (sibs !! Z.of_nat n = Some (pathNode k n zeroKey (th (S n) o))) as Hsn' by apply lookup_insert_eq.
  unfold NodeValue12 in *. rewrite Hsn'. unfold nonNil. rewrite bind_ok.
  rewrite IsUniqueSibling_pathNode, bind_ok by (apply zeroKey_ok || apply th_ok).
  rewrite bool_decide_true, bool_decide_false by (done || by apply nonzero_th).
  rewrite (proj2 (Z.leb_le 0 _)) by (by destruct (bit k n)).
  rewrite childAt_other, bind_ok by (apply zeroKey_ok || apply th_ok).
  destruct o as [|k2 v2|l r]; [done| |].
  - assert (db_Get db (th (S n) (Leaf k2 v2)) = Ok (node12 (RemoveKeyBits k2 (Z.of_nat (S n))) (valHash v2) LeafCapacity))
      as -> by (specialize (Hos n _ Hn); by apply Forall_cons in Hos as [Hos _]).
    destruct Hpo as (Hk2 & Hv2).
    destruct (Get_node12 (RemoveKeyBits k2 (Z.of_nat (S n))) (valHash v2) LeafCapacity) as [G0 G1];
      [apply RemoveKeyBits_ok; [lia|done]|apply Hash_range|].
    rewrite bind_ok. cbv zeta. rewrite IsFinalNode_node12, G0, G1, !bind_ok. cbn [w0 LeafCapacity Z.eqb Pos.eqb].
    rewrite sibling_key; [|done|lia| |by apply Hbo].
    2: { unfold t in Hp. rewrite plug_app in Hp. eapply (plug_agree k ctx1 0); [exact Hp| |by intros ? ?; lia].
         apply branch_inT. by right. }
    rewrite mplug_app in HN |- *. cbn [mplug] in HN |- *.
    replace (mkBranch (0 + length ctx1) k E (Leaf k2 v2)) with (Leaf k2 v2) in HN |- *
      by (unfold mkBranch; by destruct (bit k (0 + length ctx1))).
    edestruct (deleteLeaf_ok ctx1 k2 v2 v0 db root) as (ctx2 & Hl2 & Hm & Hsub2 & Hch);
      [exact Hp|exact Hc|exact Hnz|exact Hst|exact Hdep|by apply sibs_zeroed|exact HN|].
    exists ctx2, (Leaf k2 v2). split; [done|]. split; [done|]. split; [|exact Hch].
    intros i o Hi. by apply lookup_app_l_Some, Hsub2.
  - assert (db_Get db (th (S n) (B l r)) = Ok (node12 (th (S (S n)) l) (th (S (S n)) r) BranchCapacity))
      as -> by (specialize (Hos n _ Hn); by apply Forall_cons in Hos as [Hos _]).
    rewrite bind_ok. cbv zeta. rewrite IsFinalNode_node12. cbn [w0 BranchCapacity zeroKey Z.eqb].
    exists (ctx1 ++ [B l r]), E. rewrite length_app. split; [simpl; lia|]. split.
    { rewrite mplug_app, plug_app. cbn [mplug plug]. rewrite mkBranch_many by done.
      destruct (branch_B (0 + length ctx1) E (B l r)) as (l' & r' & ->). by rewrite mplug_B. }
    split; [done|]. eexists. split; [done|]. cbn [c_level c_db c_siblings c_newRoot]. rewrite length_app.
    split; [simpl; lia|]. split; [|by split; [apply Forall_nil|]]. split; [|by destruct ctx1|done].
    intros i o Hi. rewrite lookup_insert_ne by (apply lookup_lt_Some in Hi; rewrite length_app in Hi; simpl in Hi; lia).
    destruct (decide (i = n)) as [->|Hin].
    + rewrite Hn in Hi. injection Hi as <-. exists zeroKey. split; [apply zeroKey_ok|]. done.
    + unfold sibs. rewrite lookup_insert_ne by lia. destruct (Hsn i o Hi) as (c' & Hc' & _ & Hl').
      exists c'. split; [done|]. split; [done|]. rewrite length_app. simpl. intros. lia.
Qed.

(** ** All modes *)

Lemma Value8_IsZero_some v : value_ok v -> Value8_IsZero (map Some v) = is_zero v.
Proof.
  intros [_ Hw]. unfold Value8_IsZero, is_zero. induction Hw as [|w v Hw _ IH]; [done|]. simpl.
  rewrite bigUint64_small, IH, Z.eqb_sym by done. by destruct w.
Qed.

(** A search leaves a path that is ready to be hashed as it is. *)
Lemma pathSibs_ready ctx sub db : db_ok db -> ready db (pathSibs 0 ctx sub ∅) (th 0 (plug k 0 ctx sub)) ctx sub.
Proof.
  intros Hdep. split; [|by intros ->|done].
  intros i o Hi. rewrite (pathSibs_at ctx 0 sub ∅ i o Hi). eexists. split; [apply th_ok|].
  split; [done|]. cbn [Nat.add]. intros Hl. by rewrite Hl, drop_all.
Qed.

Lemma stored_sub ctx sub db : stored db 0 (plug k 0 ctx sub) -> stored db (length ctx) sub.
Proof. unfold stored. rewrite !Forall_forall. intros Hst x Hx. by apply Hst, nodes_plug_sub. Qed.

(** The state after the search of the key. *)
Definition searched (ctx : list tree) (sub : tree) : Search :=
  mkSearch (th (length ctx) sub) (Z.of_nat (length ctx)) (take (length ctx) (GetPath k)) (pathSibs 0 ctx sub ∅) (foundAt (length ctx) sub).

(** Setting a key needs nothing of what is beside its path. *)
Lemma set_ok ctx sub v newValH db root : is_end sub -> (length ctx <= 256)%nat -> placed 0 (plug k 0 ctx sub) ->
  stored db (length ctx) sub -> db_ok db -> value_ok v -> is_zero v = false -> newValH = zeroKey \/ newValH = valHash v ->
  let sub' := tins (length ctx) k v sub in (forall x, x ∈ nodes (length ctx) sub' -> N x) ->
  changed_to db (insert_change Hash false k (map Some v) newValH (GetPath k) (removelast (take (length ctx) (GetPath k)))
    (searched ctx sub) (Z.of_nat (length ctx) - 1) root db) ctx sub'.
Proof.
  intros Hend Hl Hp Hst Hdep Hv Hz HnewValH sub' HN. pose proof (pathSibs_of ctx sub) as Hs.
  unfold insert_change. rewrite Value8_IsZero_some, Hz by done. cbn [negb found siblings searched]. unfold sub' in *.
  destruct sub as [|k' v'|]; [by apply insertNotFound_ok| |done].
  cbn [foundAt foundKey tins] in HN |- *. rewrite IsEqualTo_spec. case_bool_decide as Heq.
  - subst k'. rewrite decide_True in HN |- * by done. by apply update_ok.
  - rewrite decide_False in HN |- * by done. destruct (plug_placed k _ 0 _ Hp) as (_ & Hk' & Hv').
    eapply insertFound_ok; try done.
    + eapply (plug_agree k ctx 0); [exact Hp|done|]. intros ? ?; lia.
    + by apply Forall_cons in Hst as [_ [Hst _]%Forall_cons].
Qed.

Lemma change_ok ctx sub v newValH db : let t := plug k 0 ctx sub in
  is_end sub -> (length ctx <= 256)%nat -> tree_ok t -> nonzero 0 t -> stored db 0 t -> db_ok db -> value_ok v ->
  newValH = zeroKey \/ newValH = valHash v -> (forall x, x ∈ nodes 0 (tput t (k, v)) -> N x) ->
  exists ctx' sub', (length ctx' <= 256)%nat /\ plug k 0 ctx' sub' = tput t (k, v) /\
    (forall i o, ctx' !! i = Some o -> ctx !! i = Some o) /\
    changed_to db (insert_change Hash false k (map Some v) newValH (GetPath k)
      (removelast (take (length ctx) (GetPath k))) (searched ctx sub) (Z.of_nat (length ctx) - 1) (th 0 t) db) ctx' sub'.
Proof.
  intros t Hend Hl [Hp Hc] Hnz Hst Hdep Hv HnewValH HN. pose proof (stored_sub ctx sub db Hst) as Hsub.
  unfold tput in HN |- *. cbn [fst snd] in HN |- *. destruct (is_zero v) eqn:Hz.
  - unfold insert_change. rewrite Value8_IsZero_some, Hz by done. cbn [negb found siblings searched].
    unfold t in HN |- *. rewrite tdel_plug in HN |- *.
    assert (tdel (0 + length ctx) k sub = sub -> exists ctx' sub', (length ctx' <= 256)%nat /\
      plug k 0 ctx' sub' = mplug 0 ctx (tdel (0 + length ctx) k sub) /\ (forall i o, ctx' !! i = Some o -> ctx !! i = Some o) /\
      changed_to db (Ok (mkChanged ZeroToZero (pathSibs 0 ctx sub ∅) (th 0 t) (Z.of_nat (length ctx) - 1) db)) ctx' sub')
      as Hzero.
    { intros ->. exists ctx, sub. split; [done|]. rewrite mplug_canonical by done. split; [done|]. split; [done|].
      eexists. split; [done|]. split; [done|]. split; [by apply pathSibs_ready|]. by split. }
    destruct sub as [|k' v'|]; [by apply Hzero| |done]. cbn [foundAt foundKey].
    rewrite IsEqualTo_spec. case_bool_decide as Heq; simpl tdel in HN, Hzero |- *.
    + subst k'. rewrite decide_True in HN |- * by done. by apply delete_ok.
    + rewrite decide_False in Hzero |- * by done. by apply Hzero.
  - unfold t in HN |- *. rewrite tins_plug in HN |- *. exists ctx, (tins (0 + length ctx) k v sub).
    split; [done|]. split; [done|]. split; [done|]. apply set_ok; try done. intros x Hx. by apply HN, nodes_plug_sub.
Qed.

(** From the change to the stored path. *)
Lemma insert_finish ctx sub v newValH db ctx' sub' : is_end sub -> (length ctx <= 256)%nat -> (length ctx' <= 256)%nat ->
  placed 0 (plug k 0 ctx sub) -> nonzero 0 (plug k 0 ctx sub) -> Forall (has db) (branchNodes 0 ctx sub) -> stored db (length ctx) sub ->
  (forall x, x ∈ nodes 0 (plug k 0 ctx' sub') -> N x) ->
  changed_to db (insert_change Hash false k (map Some v) newValH (GetPath k) (removelast (take (length ctx) (GetPath k)))
    (searched ctx sub) (Z.of_nat (length ctx) - 1) (th 0 (plug k 0 ctx sub)) db) ctx' sub' ->
  exists mode db', insert Hash false k (map Some v) newValH (th 0 (plug k 0 ctx sub)) db =
      Ok (mkResponse (th 0 (plug k 0 ctx' sub')) mode, db') /\
    Forall (has db') (branchNodes 0 ctx' sub') /\ stored db' (length ctx') sub' /\ keeps_nodes db db'.
Proof.
  intros Hend Hlen Hlen' Hp Hnz Hb Hst HN (c & Hch & Hlv & Hr & Hsub & Hk1).
  unfold insert. rewrite (search_plug ctx 258 0 sub ∅ db), bind_ok; try (done || lia).
  2: { intros k2 _ j Hj. lia. }
  cbn [level usedKey Nat.add]. fold (searched ctx sub). rewrite Hch, bind_ok.
  destruct (finish_ok c ctx' sub') as (db' & Hfin & Hb' & Hk2); [done..|by intros x Hx; apply HN, nodes_plug; left|].
  apply bind_Ok_inv in Hfin as (db1 & -> & Hfin). rewrite bind_ok, Hfin, bind_ok.
  exists (c_mode c), db'. split; [done|]. split; [done|]. split; [|by etrans].
  eapply keeps_stored; [exact Hk2| |done]. intros x Hx. apply HN, nodes_plug. auto.
Qed.
End save.

(** [insert] on the root of a tree that is in the store. *)
Lemma insert_ok t v newValH db : tree_ok t -> nonzero 0 t -> stored db 0 t -> db_ok db -> value_ok v ->
  newValH = zeroKey \/ newValH = valHash v -> collision_free (nodes 0 (tput t (k, v))) ->
  exists mode db', insert Hash false k (map Some v) newValH (th 0 t) db =
      Ok (mkResponse (th 0 (tput t (k, v))) mode, db') /\ stored db' 0 (tput t (k, v)) /\ db_ok db'.
Proof.
  intros Ht Hnz Hst Hdep Hv HnewValH Hcf. destruct (decompose k t 0) as (ctx & sub & -> & Hend).
  destruct (plug_placed k _ 0 _ (proj1 Ht)) as (Hl & _).
  assert (length ctx <= 256)%nat as Hlen by (destruct Hl as [?| ->]; [done|simpl; lia]).
  set (N := fun x => x ∈ nodes 0 (tput (plug k 0 ctx sub) (k, v))).
  destruct (change_ok N Hcf ctx sub v newValH db) as (ctx' & sub' & Hl' & Heq & Hctx & Hch); [done..|].
  destruct (insert_finish N Hcf ctx sub v newValH db ctx' sub') as (mode & db' & Hi & Hb & Hs & Hk1);
    [done|done|done|apply Ht|done| |by apply stored_sub|by rewrite Heq|done|].
  { apply Forall_forall. intros x Hx. unfold stored in Hst. rewrite Forall_forall in Hst. apply Hst, nodes_plug. by left. }
  rewrite <- Heq. exists mode, db'. split; [done|]. split; [|by apply Hk1]. pose proof (plug_others_stored _ _ _ Hst) as Ho.
  unfold stored in *. rewrite !Forall_forall in *. intros x [Hx|[Hx|(i & o & Hi' & Hx)]]%nodes_plug; [auto..|].
  apply Hk1; [unfold N; rewrite <- Heq; by apply (nodes_plug_others ctx' 0 sub' i o)|].
  specialize (Ho i o (Hctx i o Hi')). unfold stored in Ho. rewrite Forall_forall in Ho. by apply Ho.
Qed.

(** Setting a key in a store that has the nodes on its path. *)
Lemma insert_path ctx sub v newValH db : let t := plug k 0 ctx sub in is_end sub -> placed 0 t -> nonzero 0 t ->
  Forall (has db) (branchNodes 0 ctx sub) -> stored db (length ctx) sub -> db_ok db -> value_ok v -> is_zero v = false ->
  newValH = zeroKey \/ newValH = valHash v ->
  let sub' := tins (length ctx) k v sub in collision_free (nodes 0 (plug k 0 ctx sub')) ->
  exists mode db', insert Hash false k (map Some v) newValH (th 0 t) db = Ok (mkResponse (th 0 (plug k 0 ctx sub')) mode, db') /\
    Forall (has db') (branchNodes 0 ctx sub') /\ stored db' (length ctx) sub' /\
    (forall x, x ∈ nodes 0 (plug k 0 ctx sub') -> has db x -> has db' x) /\ db_ok db'.
Proof.
  intros t Hend Hp Hnz Hb Hst Hdep Hv Hz HnewValH sub' Hcf. destruct (plug_placed k _ 0 _ Hp) as (Hl & _).
  assert (length ctx <= 256)%nat as Hlen by (destruct Hl as [?| ->]; [done|simpl; lia]).
  set (N := fun x => x ∈ nodes 0 (plug k 0 ctx sub')).
  pose proof (set_ok N Hcf ctx sub v newValH db (th 0 t) Hend Hlen Hp Hst Hdep Hv Hz HnewValH) as Hch.
  destruct (insert_finish N Hcf ctx sub v newValH db ctx sub') as (mode & db' & Hi & Hb' & Hs & Hkeep & Hok);
    [done..|by apply Hch; intros x Hx; apply nodes_plug_sub|].
  exists mode, db'. by auto 10.
Qed.
End key.

(** ** Sequences of insertions *)

(** The store holds the tree, and its root is the last root. *)
Definition represents (db : D) (t : tree) : Prop :=
  db_GetLastRoot db = Ok (Key_ToBigInt (th 0 t)) /\ stored db 0 t /\ db_ok db.

Lemma represents_root db t : represents db t -> getLastRoot db = Ok (th 0 t).
Proof. intros [Hr _]. unfold getLastRoot. by rewrite Hr, bind_ok, ScalarToRoot_ToBigInt by apply th_ok. Qed.

Lemma insertSingle_ok t k v newValH db : key_ok k -> tree_ok t -> nonzero 0 t -> represents db t ->
  value_ok v -> newValH = zeroKey \/ newValH = valHash v -> collision_free (nodes 0 (tput t (k, v))) ->
  exists mode db', insertSingle Hash false k (map Some v) newValH db =
      Ok (mkResponse (th 0 (tput t (k, v))) mode, db') /\ represents db' (tput t (k, v)).
Proof.
  intros Hk Ht Hnz Hrep Hv Hn Hcf. pose proof Hrep as (_ & Hst & Hdep). unfold insertSingle. rewrite (represents_root _ _ Hrep), bind_ok.
  destruct (insert_ok k Hk t v newValH db Ht Hnz Hst Hdep Hv Hn Hcf) as (mode & db1 & -> & Hst1 & Hdep1).
  rewrite bind_ok. cbn [NewRootScalar]. unfold setLastRoot.
  destruct (law_SetLastRoot db1 (Key_ToBigInt (th 0 (tput t (k, v))))) as (db2 & -> & [Hs Hd] & Hr);
    [apply Key_ToBigInt_range, th_ok|].
  rewrite bind_ok. exists mode, db2. split; [done|]. split; [|split; [|auto]].
  - exact Hr.
  - eapply Forall_impl; [exact Hst1|]. intros x Hx. unfold has in *. by rewrite Hs.
Qed.

(** What an insertion promises to its callers: of the trees that a store is said to hold,
    setting a key gives the tree with the key set, where that is good. *)
Class TreeStore (held : D -> tree -> Prop) (good : tree -> NodeKey * list Z -> Prop) := {
  held_ok d t : held d t -> tree_ok t;
  held_insert t k v newValH d : op_ok (k, v) -> newValH = zeroKey \/ newValH = valHash v -> held d t -> good t (k, v) ->
    exists mode d', insert Hash false k (map Some v) newValH (th 0 t) d = Ok (mkResponse (th 0 (tput t (k, v))) mode, d') /\ held d' (tput t (k, v));
  held_same d d' t : same_nodes d d' -> held d t -> held d' t;
}.

(** A store that has all nodes of a tree. *)
Definition whole (d : D) (t : tree) : Prop := tree_ok t /\ nonzero 0 t /\ stored d 0 t /\ db_ok d.

Definition sound_put (t : tree) (kv : NodeKey * list Z) : Prop := collision_free (nodes 0 (tput t kv)) /\ nonzero 0 (tput t kv).

Lemma whole_store : TreeStore whole sound_put.
Proof.
  split.
  - by intros d t [Ht _].
  - intros t k v newValH d [Hk Hv] Hn (Ht & Hnz & Hs & Hd) [Hcf Hnz'].
    destruct (insert_ok k Hk t v newValH d Ht Hnz Hs Hd Hv Hn Hcf) as (mode & d' & He & Hs' & Hd'). exists mode, d'. split; [done|].
    split; [by apply tput_ok|done].
  - intros d d' t [Hg Hd'] (Ht & Hnz & Hs & Hd). split; [done|]. split; [done|]. split; [|auto].
    eapply Forall_impl; [exact Hs|]. intros x Hx. unfold has in *. by rewrite Hg.
Qed.

(** Every step of a run is good. *)
Fixpoint put_run (good : tree -> NodeKey * list Z -> Prop) (t : tree) (ops : list (NodeKey * list Z)) : Prop :=
  match ops with [] => True | kv :: ops => good t kv /\ put_run good (tput t kv) ops end.

Lemma put_run_app good ops ops' : forall t, put_run good t (ops ++ ops') <-> put_run good t ops /\ put_run good (foldl tput t ops) ops'.
Proof. induction ops as [|kv ops IH]; intros t; cbn [app put_run foldl]; [tauto|]. rewrite IH. tauto. Qed.

(** The last root of a store after inserting key by key. *)
Fixpoint Inserts (ops : list (NodeKey * list Z)) (db : D) : outcome D :=
  match ops with
  | [] => Ok db
  | (k, v) :: ops => r ← Insert Hash false k (map Some v) db; Inserts ops (snd r)
  end.

(** Along the run, the nodes of the tree have different hashes, none of them zero. *)
Fixpoint good_run (t : tree) (ops : list (NodeKey * list Z)) : Prop :=
  match ops with
  | [] => True
  | kv :: ops => collision_free (nodes 0 (tput t kv)) /\ nonzero 0 (tput t kv) /\ good_run (tput t kv) ops
  end.

Lemma good_run_puts ops : forall t, good_run t ops <-> put_run sound_put t ops.
Proof. induction ops as [|kv ops IH]; intros t; cbn [good_run put_run]; [done|]. unfold sound_put. rewrite IH. tauto. Qed.

Lemma Inserts_ok ops : forall t db, Forall op_ok ops -> tree_ok t -> nonzero 0 t -> represents db t ->
  good_run t ops -> exists db', Inserts ops db = Ok db' /\ represents db' (foldl tput t ops).
Proof.
  induction ops as [|[k v] ops IH]; intros t db Hops Ht Hnz Hr Hg; [by exists db|].
  apply Forall_cons in Hops as [[Hk Hv] Hops]. destruct Hg as (Hcf & Hnz' & Hg). cbn [Inserts foldl].
  destruct (insertSingle_ok t k v zeroKey db Hk Ht Hnz Hr Hv (or_introl eq_refl) Hcf)
    as (mode & db1 & Hi & Hr1).
  unfold Insert. rewrite Hi, bind_ok. apply IH; [done| |done..]. by apply tput_ok.
Qed.

Lemma good_run_nonzero ops : forall t, nonzero 0 t -> good_run t ops -> nonzero 0 (foldl tput t ops).
Proof. induction ops as [|kv ops IH]; intros t Hn Hg; [done|]. simpl. by apply IH; apply Hg. Qed.

Lemma collision_free_sub xs ys : (forall x, x ∈ ys -> x ∈ xs) -> collision_free xs -> collision_free ys.
Proof. intros Hs Hc x y Hx Hy. apply Hc; auto. Qed.

Lemma ConcatArrays4_inj a b c d : ConcatArrays4 a b = ConcatArrays4 c d -> a = c /\ b = d.
Proof. destruct a, b, c, d. intros [=]. by subst. Qed.

Lemma th_zero d t : nonzero d t -> th d t = zeroKey -> t = E.
Proof. destruct t; simpl; tauto. Qed.

(** The hash of a tree determines the tree. *)
Lemma th_inj t1 : forall t2 d, placed d t1 -> placed d t2 ->
  (forall k1 k2, inT k1 t1 -> inT k2 t2 -> agree d k1 k2) -> (d <= 256)%nat ->
  nonzero d t1 -> nonzero d t2 -> collision_free (nodes d t1 ++ nodes d t2) -> th d t1 = th d t2 -> t1 = t2.
Proof.
  induction t1 as [|k1 v1|l1 IHl r1 IHr]; intros t2 d P1 P2 U Hd N1 N2 Hcf Heq.
  { symmetry. by apply (th_zero d). }
  all: destruct t2 as [|k2 v2|l2 r2]; [by apply (th_zero d)|..].
  all: apply (Hcf (_, _) (_, _)) in Heq; [|apply elem_of_app; left; left|apply elem_of_app; right; left].
  all: try discriminate Heq; apply (f_equal fst), ConcatArrays4_inj in Heq as [Ha Hb].
  - apply (Hcf (v1, BranchCapacity) (v2, BranchCapacity)) in Hb; [|set_solver..]. injection Hb as <-.
    destruct P1 as [Hk1 _], P2 as [Hk2 _]. f_equal.
    rewrite <- (JoinKey_RemoveKeyBits k1 k1 d), Ha by done. apply JoinKey_RemoveKeyBits; [done..|].
    by apply U.
  - destruct P1 as (Hd' & Hl1 & Hr1 & Pl1 & Pr1), P2 as (_ & Hl2 & Hr2 & Pl2 & Pr2).
    destruct N1 as (_ & Nl1 & Nr1), N2 as (_ & Nl2 & Nr2). f_equal.
    + apply (IHl l2 (S d)); try done.
      * intros k1 k2 H1 H2. apply agree_S; [apply U; simpl; auto|]. by rewrite Hl1, Hl2.
      * eapply collision_free_sub; [|exact Hcf]. simpl. set_solver.
    + apply (IHr r2 (S d)); try done.
      * intros k1 k2 H1 H2. apply agree_S; [apply U; simpl; auto|]. by rewrite Hr1, Hr2.
      * eapply collision_free_sub; [|exact Hcf]. simpl. set_solver.
Qed.

(** ** Deciding the conditions on a hash *)

Definition collision_freeb (xs : list (list Z * NodeKey)) : bool :=
  let hs := map (fun x => (Hash (fst x) (snd x), x)) xs in
  forallb (fun a => forallb (fun b =>
    if decide (fst a = fst b) then bool_decide (snd a = snd b) else true) hs) hs.

Fixpoint nonzerob (d : nat) (t : tree) : bool :=
  match t with
  | E => true
  | Leaf _ _ => negb (bool_decide (th d t = zeroKey))
  | B l r => negb (bool_decide (th d t = zeroKey)) && nonzerob (S d) l && nonzerob (S d) r
  end.

Fixpoint good_runb (t : tree) (ops : list (NodeKey * list Z)) : bool :=
  match ops with
  | [] => true
  | kv :: ops => let t := tput t kv in collision_freeb (nodes 0 t) && nonzerob 0 t && good_runb t ops
  end.

Lemma collision_freeb_ok xs : collision_freeb xs = true -> collision_free xs.
Proof.
  intros Hb x y Hx Hy Heq. unfold collision_freeb in Hb. rewrite forallb_forall in Hb.
  specialize (Hb (Hash (fst x) (snd x), x)). cbv beta in Hb. rewrite forallb_forall in Hb.
  specialize (Hb ltac:(apply in_map_iff; exists x; by rewrite <- list_elem_of_In) (Hash (fst y) (snd y), y)
    ltac:(apply in_map_iff; exists y; by rewrite <- list_elem_of_In)).
  cbn [fst snd] in Hb. rewrite decide_True in Hb by done. by apply bool_decide_eq_true in Hb.
Qed.

Lemma nonzerob_ok t : forall d, nonzerob d t = true -> nonzero d t.
Proof.
  induction t as [|k v|l IHl r IHr]; intros d Hb; [done|..].
  - cbn in Hb |- *. by apply negb_true_iff, bool_decide_eq_false in Hb.
  - cbn in Hb |- *. apply andb_true_iff in Hb as [[Hb Hl]%andb_true_iff Hr].
    apply negb_true_iff, bool_decide_eq_false in Hb. auto.
Qed.

Lemma good_runb_ok ops : forall t, good_runb t ops = true -> good_run t ops.
Proof.
  induction ops as [|kv ops IH]; intros t Hb; [done|]. cbn in Hb |- *.
  apply andb_true_iff in Hb as [[Hc Hn]%andb_true_iff Hg]. auto using collision_freeb_ok, nonzerob_ok.
Qed.

(** ** What the tree promises *)

(** C1: an insertion refines the update of a map.  On a store that holds a canonical
    tree with the contents [m], [insertSingle] returns: whatever the mode (update,
    insertion beside another leaf or into an empty place, the deletions, a zero
    written over nothing), the new root is the hash of the canonical tree with the
    contents [m] after the update, where a zero value deletes the key, and the new
    store holds that tree and that root.  The hash is only assumed not to collide on
    the nodes of the new tree, and not to be zero on those of the old one. *)
Theorem smt_insert_refines t m k v newValH db :
  key_ok k -> value_ok v -> newValH = zeroKey \/ newValH = valHash v ->
  tree_ok t -> holds t m -> represents db t ->
  nonzero 0 t -> collision_free (nodes 0 (tput t (k, v))) ->
  exists mode db', insertSingle Hash false k (map Some v) newValH db =
      Ok (mkResponse (th 0 (tput t (k, v))) mode, db') /\
    represents db' (tput t (k, v)) /\ tree_ok (tput t (k, v)) /\ holds (tput t (k, v)) (mput m (k, v)).
Proof.
  intros Hk Hv Hn Ht Hm Hr Hnz Hcf.
  destruct (insertSingle_ok t k v newValH db) as (mode & db' & Hi & Hr'); [done..|].
  exists mode, db'. split; [done|]. split; [done|]. split; [by apply tput_ok|by apply tput_holds].
Qed.

(** C2: the root is a commitment to the contents, whatever their history.  Two runs
    of [Insert] from stores without a root both end, and their last roots are equal
    exactly if the maps they built are: the order of the insertions, the values
    overwritten and the keys deleted on the way leave no trace in the root, and
    different contents have different roots.  The hash is assumed not to collide
    on the nodes of the trees of the runs, and not to be zero on them. *)
Theorem smt_root_commits ops1 ops2 db1 db2 :
  Forall op_ok ops1 -> Forall op_ok ops2 ->
  db_GetLastRoot db1 = Ok 0 -> db_ok db1 -> db_GetLastRoot db2 = Ok 0 -> db_ok db2 ->
  good_run E ops1 -> good_run E ops2 ->
  collision_free (nodes 0 (foldl tput E ops1) ++ nodes 0 (foldl tput E ops2)) ->
  exists db1' db2' root1 root2, Inserts ops1 db1 = Ok db1' /\ Inserts ops2 db2 = Ok db2' /\
    getLastRoot db1' = Ok root1 /\ getLastRoot db2' = Ok root2 /\
    (root1 = root2 <-> foldl mput ∅ ops1 = foldl mput ∅ ops2).
Proof.
  intros Ho1 Ho2 Hr1 Hd1 Hr2 Hd2 Hg1 Hg2 Hcf. destruct E_ok as [HE HEh].
  destruct (tputs_ok ops1 E ∅ Ho1 HE HEh) as [Ht1 Hh1]. destruct (tputs_ok ops2 E ∅ Ho2 HE HEh) as [Ht2 Hh2].
  destruct (Inserts_ok ops1 E db1) as (db1' & Hi1 & Hl1%represents_root); [done..|by split_and!; [|apply Forall_nil|]|done|].
  destruct (Inserts_ok ops2 E db2) as (db2' & Hi2 & Hl2%represents_root); [done..|by split_and!; [|apply Forall_nil|]|done|].
  exists db1', db2', (th 0 (foldl tput E ops1)), (th 0 (foldl tput E ops2)). split_and!; try done. split.
  - intros Heq. assert (foldl tput E ops1 = foldl tput E ops2) as Ht.
    { apply (th_inj _ _ 0); [apply Ht1|apply Ht2|by intros ? ? _ _ ? ?; lia|lia|..|done|done];
        by apply good_run_nonzero. }
    apply map_eq. intros k. by rewrite <- Hh1, <- Hh2, Ht.
  - intros Hm. f_equal. eapply holds_inj; [done..| |exact Hh2]. by rewrite <- Hm.
Qed.
End refine.

(** ** Witnesses *)

Ltac decide_compute :=
  lazymatch goal with
  | |- collision_free _ _ => apply collision_freeb_ok
  | |- nonzero _ _ _ => apply nonzerob_ok
  | |- good_run _ _ _ => apply good_runb_ok
  end; vm_compute; reflexivity.

(** A hash for the examples: a linear congruence over the words. *)
Definition toyHash (inp : list Z) (c : NodeKey) : NodeKey :=
  mkKey (Z.land (foldl (fun a x => a * 31 + x) 7 (inp ++ words c)) (Z.ones 64)) 0 0 1.

Lemma toyHash_range i c : key_ok (toyHash i c).
Proof.
  intros j Hj. destruct j as [|[|[|[|j]]]]; [|cbn; lia..|lia]. cbn [toyHash wordAt w0].
  rewrite Z.land_ones by lia. apply Z.mod_pos_bound. lia.
Qed.

Definition example_key (n : Z) : NodeKey := mkKey n 2 3 4.
Definition example_value (n : Z) : list Z := [n; 0; 0; 0; 0; 0; 0; 0].

(** Two leaves apart at the second bit of their path. *)
Definition example_tree : tree :=
  foldl tput E [(example_key 1, example_value 10); (example_key 3, example_value 11)].

Definition example_store : MemDb :=
  match Inserts toyHash [(example_key 1, example_value 10); (example_key 3, example_value 11)] NewMemDb with
  | Ok d => d
  | _ => NewMemDb
  end.

Lemma example_key_ok n : 0 <= n < 2 ^ 64 -> key_ok (example_key n).
Proof. intros Hn j Hj. destruct j as [|[|[|[|j]]]]; simpl; lia. Qed.

Lemma example_value_ok n : 0 <= n < 2 ^ 64 -> value_ok (example_value n).
Proof. intros Hn. split; [done|]. unfold example_value, word_ok. repeat (apply Forall_cons; split; [lia|]). by apply Forall_nil. Qed.

Lemma example_op_ok n x : 0 <= n < 2 ^ 64 -> 0 <= x < 2 ^ 64 -> op_ok (example_key n, example_value x).
Proof. intros Hn Hx. split; [by apply example_key_ok|by apply example_value_ok]. Qed.

Lemma example_represents : represents toyHash example_store example_tree.
Proof.
  split; [vm_compute; reflexivity|]. split; [|done]. unfold stored.
  let xs := eval vm_compute in (nodes toyHash 0 example_tree) in
  assert (nodes toyHash 0 example_tree = xs) as -> by (vm_compute; reflexivity).
  repeat (apply Forall_cons; split; [vm_compute; reflexivity|]). by apply Forall_nil.
Qed.

Lemma example_contents : tree_ok example_tree /\
  holds example_tree (foldl mput ∅ [(example_key 1, example_value 10); (example_key 3, example_value 11)]).
Proof.
  destruct E_ok as [H1 H2]. apply tputs_ok; [|done..].
  repeat (apply Forall_cons; split; [apply example_op_ok; lia|]). by apply Forall_nil.
Qed.

(** Writing zero deletes the first of the two leaves: the other one moves up to the root. *)
Lemma smt_insert_refines_witness : exists mode db',
  insertSingle toyHash false (example_key 1) (map Some (example_value 0)) zeroKey example_store =
    Ok (mkResponse (th toyHash 0 (tput example_tree (example_key 1, example_value 0))) mode, db') /\
  tput example_tree (example_key 1, example_value 0) = Leaf (example_key 3) (example_value 11).
Proof.
  destruct example_contents as [Ht Hh].
  destruct (smt_insert_refines toyHash toyHash_range example_tree _ (example_key 1) (example_value 0) zeroKey example_store
    (example_key_ok 1 ltac:(lia)) (example_value_ok 0 ltac:(lia)) (or_introl eq_refl) Ht Hh example_represents)
    as (mode & db' & Hi & _); [by decide_compute..|].
  exists mode, db'. split; [exact Hi|vm_compute; reflexivity].
Defined.

(** The same contents in another order, with a key that is deleted again; and a root that differs. *)
Lemma smt_root_commits_witness :
  let kv n x := (example_key n, example_value x) in
  exists db1 db2 root1 root2,
    Inserts toyHash [kv 1 10; kv 3 11] NewMemDb = Ok db1 /\
    Inserts toyHash [kv 3 9; kv 5 7; kv 1 10; kv 3 11; kv 5 0] NewMemDb = Ok db2 /\
    getLastRoot db1 = Ok root1 /\ getLastRoot db2 = Ok root2 /\ root1 = root2.
Proof.
  intros kv.
  assert (forall l, Forall (fun nx => 0 <= nx.1 < 2 ^ 64 /\ 0 <= nx.2 < 2 ^ 64) l ->
    Forall op_ok (map (fun nx => kv nx.1 nx.2) l)) as Hops.
  { intros l Hl. apply Forall_map. eapply Forall_impl; [exact Hl|]. intros [n x] [? ?]. by apply example_op_ok. }
  destruct (smt_root_commits toyHash toyHash_range [kv 1 10; kv 3 11]
    [kv 3 9; kv 5 7; kv 1 10; kv 3 11; kv 5 0] NewMemDb NewMemDb
    (Hops [(1, 10); (3, 11)] ltac:(repeat (apply Forall_cons; split; [simpl; lia|]); by apply Forall_nil))
    (Hops [(3, 9); (5, 7); (1, 10); (3, 11); (5, 0)]
       ltac:(repeat (apply Forall_cons; split; [simpl; lia|]); by apply Forall_nil))
    eq_refl (MemDb_db_ok _) eq_refl (MemDb_db_ok _)) as (db1 & db2 & r1 & r2 & H1 & H2 & H3 & H4 & H5); [by decide_compute..|].
  exists db1, db2, r1, r2. split; [exact H1|]. split; [exact H2|]. split; [exact H3|]. split; [exact H4|].
  apply H5, map_eq. clear. intros k. unfold mput. cbn [foldl fst snd kv example_value is_zero forallb Z.eqb andb].
  rewrite lookup_delete, !lookup_insert. repeat case_decide; simplify_eq/=; done.
Defined.
