(* ===== verification/SmtCreate.v ===== *)
(** * Building the sparse Merkle tree in bulk (smt/pkg/smt/smt_create.go)

    [GenerateFromKVBulk] builds the tree of a set of keys at once.  It sorts the
    keys and builds a temporary binary tree from left to right; as soon as a key
    goes to the right of a node, the part to the left is final: it is hashed, its
    nodes are handed over for saving, and it is dropped.

    Three goroutines share the work.  The builder inserts the keys and sends a job
    for every part that is final; the worker (smt/pkg/utils/job_queue.go) runs the
    jobs; the companion, the only one meant to use the database, reads the values
    ahead and saves the results.  They are connected by three bounded channels.
    Each goroutine is a function from a state to its next one, [None] when it is
    blocked or has ended; [step] lets any of them go next.

    A node of the temporary tree is reached by a pointer in the source; here it is
    reached by its path, which is the same node at all times: inner nodes never
    move, and a leaf that moves down is put to its new place by the builder that
    found it.  A node that is deleted is not reached again.

    A step is what a goroutine does from one channel operation to the next.  What a
    job writes, it writes into the part to the left of a node that has a right child;
    the builder has left that part and reads of the node only its right child, so it
    makes no difference where in a job the builder goes on.  A job that fails leaves
    the tree half dropped in the source and as it was here; its error is the result
    of the whole in both.  The context is never cancelled, and progress is not
    printed. *)
From stdpp Require Import sorting.
From S2P Require Import Prelude SmtUtils SmtDb Smt.

(** ** The temporary tree *)

#[warnings="-register-all"] Inductive SmtNode := Node (rKey : list Z) (leftHash : NodeKey) (node0 node1 : option SmtNode).

Definition rKey (n : SmtNode) : list Z := let 'Node rk _ _ _ := n in rk.
Definition node0 (n : SmtNode) : option SmtNode := let 'Node _ _ n0 _ := n in n0.
Definition node1 (n : SmtNode) : option SmtNode := let 'Node _ _ _ n1 := n in n1.
Definition leftHash (n : SmtNode) : NodeKey := let 'Node _ h _ _ := n in h.

Definition newNode : SmtNode := Node [] zeroKey None None.

Definition isLeaf (n : SmtNode) : bool :=
  match n with Node _ h None None => Key_IsZero h | _ => false end.

(** [if bit == 0 { n.node0 = c } else { n.node1 = c }] *)
Definition setNode (bit : Z) (c : SmtNode) (n : SmtNode) : SmtNode :=
  let 'Node rk h n0 n1 := n in if bit =? 0 then Node rk h (Some c) n1 else Node rk h n0 (Some c).

(** The nodes on the way down and the level of the last one. *)
Fixpoint findLastNode (keys : list Z) (level : Z) (n : SmtNode) : outcome (list SmtNode * Z) :=
  bit ← index keys level;
  match n with
  | Node _ _ n0 n1 =>
      match (if bit =? 0 then n0 else n1) with
      | None => Ok ([], if 0 <? level then level - 1 else level)
      | Some c =>
          if isLeaf c then Ok ([c], level)
          else sl ← findLastNode keys (level + 1) c; Ok (c :: fst sl, snd sl)
      end
  end.

(** The node a path leads to, and a change of it in place. *)
Fixpoint nodeAt (p : list Z) (n : SmtNode) : outcome SmtNode :=
  match p with
  | [] => Ok n
  | b :: p => match (if b =? 0 then node0 n else node1 n) with None => Panic | Some c => nodeAt p c end
  end.

Fixpoint updateAt (p : list Z) (f : SmtNode -> SmtNode) (n : SmtNode) : outcome SmtNode :=
  match p with
  | [] => Ok (f n)
  | b :: p =>
      match (if b =? 0 then node0 n else node1 n) with
      | None => Panic
      | Some c => c ← updateAt p f c; Ok (setNode b c n)
      end
  end.

(** ** Inserting a key *)

(** A job: the node whose left part is final, and the path to that part. *)
Record Job := mkJob { nodeToDelFrom : list Z; pathToDeleteFrom : list Z }.

Definition pathTo (keys : list Z) (n : Z) : list Z := take (Z.to_nat n) keys.

(** [for leaf0.rKey[level2] == keys[level+level2]]: a node for every bit in common. *)
Fixpoint growBranches (fuel : nat) (rk keys : list Z) (level level2 : Z) (root : SmtNode)
    : outcome (Z * SmtNode) :=
  a ← index rk level2;
  b ← index keys (level + level2);
  if a =? b then
    match fuel with
    | O => Panic
    | S fuel =>
        root ← updateAt (pathTo keys (level + level2)) (setNode b newNode) root;
        growBranches fuel rk keys level (level2 + 1) root
    end
  else Ok (level2, root).

(** The last node found is a leaf: both leaves go below a new node. *)
Definition splitLeaf (keys : list Z) (siblings : list SmtNode) (level : Z) (root : SmtNode)
    : outcome (SmtNode * option Job * Z) :=
  leaf0 ← index siblings (Z.of_nat (length siblings) - 1);
  bit ← index keys level;
  let upper := if level =? 0 then [] else pathTo keys (Z.of_nat (length siblings) - 1) in
  root ← updateAt upper (setNode bit newNode) root;
  let level := level + 1 in
  lr ← growBranches 257 (rKey leaf0) keys level 0 root;
  let '(level2, root) := lr : Z * SmtNode in
  a ← index (rKey leaf0) level2;
  b ← index keys (level2 + level);
  if negb (a =? 0) || negb (b =? 1) then Err "leaf insert error. new leaf should be on the right of the old"
  else
    let leaf0 := Node (drop (Z.to_nat (level2 + 1)) (rKey leaf0)) (leftHash leaf0) (node0 leaf0) (node1 leaf0) in
    let last := pathTo keys (level + level2) in
    root ← updateAt last (setNode 0 leaf0) root;
    root ← updateAt last (setNode 1 (Node (drop (Z.to_nat (level + level2 + 1)) keys) zeroKey None None)) root;
    Ok (root, Some (mkJob last (last ++ [0])), level + level2 + 1).

(** The last node found is not a leaf: the new leaf goes to its right. *)
Definition addLeaf (keys : list Z) (siblings : list SmtNode) (level : Z) (root : SmtNode)
    : outcome (SmtNode * option Job * Z) :=
  let empty := (length siblings =? 0)%nat in
  let level := if empty then level else level + 1 in
  let upper := pathTo keys (Z.of_nat (length siblings)) in
  upperNode ← nodeAt upper root;
  let leaf := Node (drop (Z.to_nat (level + 1)) keys) zeroKey None None in
  b0 ← index keys 0;
  if empty && (b0 =? 0) then
    match node0 upperNode with
    | Some _ => Err "tried to override left node"
    | None => root ← updateAt upper (setNode 0 leaf) root; Ok (root, None, level + 1)
    end
  else
    b ← index keys level;
    if (match node1 upperNode with Some _ => true | None => false end) || negb (b =? 1)
    then Err "leaf insert error. new should be on the right of the found node"
    else
      root ← updateAt upper (setNode 1 leaf) root;
      Ok (root,
          match node0 upperNode with
          | Some _ => Some (mkJob upper (pathTo keys level ++ [0]))
          | None => None
          end, level + 1).

(** One key: the new tree, the job if there is one, and the level reached. *)
Definition insertKey (keys : list Z) (root : SmtNode) : outcome (SmtNode * option Job * Z) :=
  sl ← findLastNode keys 0 root;
  let '(siblings, level) := sl : list SmtNode * Z in
  match siblings with
  | [] => addLeaf keys siblings level root
  | _ => last ← index siblings level;
         if isLeaf last then splitLeaf keys siblings level root else addLeaf keys siblings level root
  end.

(** ** Hashing and dropping a part of the tree *)

(** The values of the leaves that are not hashed yet. *)
Abbreviation leafValues := (gmap NodeKey NodeValue8).

Record JobResult := mkResult {
  KvMap : gmap NodeKey NodeValue12;
  LeafsKvMap : gmap NodeKey NodeKey;
}.
Definition NewCalcAndPrepareJobResult : JobResult := mkResult ∅ ∅.

(** The value as it is left behind, and the error if there is one. *)
Definition SetHalfValue (nv : NodeValue8) (values : NodeKey) (part : Z) : NodeValue8 * option string :=
  if (part <? 0) || (1 <? part) then (nv, Some "part must be 0 or 1")
  else
    let partI := Z.to_nat (part * 4) in
    (take partI nv ++ map Some (words values) ++ drop (partI + 4) nv, None).

(** The operations of the database that only the bulk creation uses. *)
Class AccountDb (D : Type) := {
  db_GetAccountValue : D -> NodeKey -> outcome NodeValue8;
}.

#[export] Instance MemDb_accounts : AccountDb MemDb := { db_GetAccountValue := Mem_GetAccountValue }.

Section create.
Context {D : Type} `{SmtDb D} `{AccountDb D}.
Context (Hash : list Z -> NodeKey -> NodeKey).

Definition HashKeyAndValueByPointers (inp : list Z) (capacity : NodeKey) : NodeKey * NodeValue12 :=
  (Hash inp capacity, ConcatArrays8AndCapacity inp capacity).

(** The hash of the value, that of the leaf, and both nodes. *)
Definition createNewLeafNoSave (rkey : NodeKey) (v : NodeValue8)
    : (NodeKey * NodeValue12) * (NodeKey * NodeValue12) :=
  let newVal := HashKeyAndValueByPointers (ToUintArray v) BranchCapacity in
  (newVal, HashKeyAndValueByPointers (ConcatArrays4 rkey (fst newVal)) LeafCapacity).

(** The nodes are changed in place on the way, but not used again. *)
Fixpoint deleteTreeNoSave (keyPath : list Z) (n : SmtNode) (lv : leafValues) (res : JobResult)
    : outcome (NodeKey * (leafValues * JobResult)) :=
  match n with
  | Node rk lh n0 n1 =>
      if isLeaf n then
        k ← NodeKeyFromPath (keyPath ++ rk);
        match lv !! k with
        | None => Err "value not found for key"
        | Some v =>
            let newKey := RemoveKeyBits k (Z.of_nat (length keyPath)) in
            let '((newValH, newValHV), (newLeafHash, newLeafHashV)) := createNewLeafNoSave newKey v in
            Ok (newLeafHash,
                (delete k lv, mkResult (<[newLeafHash := newLeafHashV]> (<[newValH := newValHV]> (KvMap res)))
                                       (<[newLeafHash := k]> (LeafsKvMap res))))
        end
      else
        lft ← (match n0 with
                | None => Ok (lh, (lv, res))
                | Some c => if negb (Key_IsZero lh) then Err "node has previously deleted left part"
                            else deleteTreeNoSave (keyPath ++ [0]) c lv res
                end) : outcome (NodeKey * (leafValues * JobResult));
        let '(leftHash, (lv, res)) := lft : NodeKey * (leafValues * JobResult) in
        rgt ← (match n1 with
                 | None => Ok (replicate 8 None, (lv, res))
                 | Some c => r ← deleteTreeNoSave (keyPath ++ [1]) c lv res;
                             Ok (fst (SetHalfValue (replicate 8 None) (fst r) 1), snd r)
                 end) : outcome (NodeValue8 * (leafValues * JobResult));
        let '(totalHash, (lv, res)) := rgt : NodeValue8 * (leafValues * JobResult) in
        let totalHash := fst (SetHalfValue totalHash leftHash 0) in
        let '(newRoot, v) := HashKeyAndValueByPointers (ToUintArray totalHash) BranchCapacity in
        Ok (newRoot, (lv, mkResult (<[newRoot := v]> (KvMap res)) (LeafsKvMap res)))
  end.

(** [for key, value := range m], with an order of its own for every map. *)
Fixpoint insertAll {V} (ins : NodeKey -> V -> D -> outcome D) (l : list (NodeKey * V)) (d : D) : outcome D :=
  match l with
  | [] => Ok d
  | (k, v) :: l => d ← ins k v d; insertAll ins l d
  end.

Context (order : forall V, gmap NodeKey V -> list (NodeKey * V)).

Definition Save (r : JobResult) (d : D) : outcome D :=
  d ← insertAll db_InsertHashKey (order _ (LeafsKvMap r)) d;
  insertAll db_Insert (order _ (KvMap r)) d.

Definition deleteTree (keyPath : list Z) (n : SmtNode) (lv : leafValues) (d : D) : outcome (NodeKey * D) :=
  r ← deleteTreeNoSave keyPath n lv NewCalcAndPrepareJobResult;
  d ← dropError (Save (snd (snd r)) d) d;
  Ok (fst r, d).

(** [deleteFunc]: an error becomes part of the result. *)
Definition runJob (j : Job) (root : SmtNode) (lv : leafValues)
    : outcome (SmtNode * leafValues * (string + JobResult)%type) :=
  n ← nodeAt (nodeToDelFrom j) root;
  match node0 n with
  | None => Panic
  | Some c =>
      match deleteTreeNoSave (pathToDeleteFrom j) c lv NewCalcAndPrepareJobResult with
      | Ok (h, (lv, res)) =>
          root ← updateAt (nodeToDelFrom j) (fun n => Node (rKey n) h None (node1 n)) root;
          Ok (root, lv, inr res)
      | Err e => Ok (root, lv, inl e)
      | Panic => Panic
      end
  end.

(** ** The three goroutines *)

Inductive Builder := Building | Sending (j : Job) | Built | BuildFailed (e : string).
Inductive Worker := Idle | Holding (r : string + JobResult) | Stopped.
Inductive Companion := Starting | Reading (limit : Z) | Waiting | Saved | SaveFailed (e : string).

(** The channels are lists; that of the jobs is closed when the builder has ended,
    that of the results when the worker has. *)
Record Bulk := mkBulk {
  builder : Builder;
  todo : list NodeKey;
  maxReachedLevel : Z;
  rootNode : SmtNode;
  leafValueMap : leafValues;
  accountValuesReadChan : list (option NodeValue8);
  jobs : list Job;
  worker : Worker;
  jobResults : list (string + JobResult);
  companion : Companion;
  unread : list NodeKey;
  lastReadAccountValueIndex : Z;
  smtDb : D;
}.

Definition jobQueueSize : Z := 2 ^ 16.
Definition accountValuesSize : Z := 1024.

Definition room {A} (chan : list A) (size : Z) : bool := Z.of_nat (length chan) <? size.

(** [runBuildSmtLoop] *)
Definition buildStep (b : Bulk) : option (outcome Bulk) :=
  let 'mkBulk bs ks lvl root lv vals js w rs c ur n d := b in
  match bs with
  | Building =>
      match ks, vals with
      | [], _ => Some (d ← updateDepth lvl d; Ok (mkBulk Built [] lvl root lv vals js w rs c ur n d))
      | _, [] => None
      | _, None :: vals =>
          Some (Ok (mkBulk (BuildFailed "the actual error is returned by main DB thread") ks lvl root lv vals js w rs c ur n d))
      | k :: ks, Some v :: vals =>
          let lv := <[k := v]> lv in
          match insertKey (GetPath k) root with
          | Ok (root, job, reached) =>
              let lvl := if lvl <? reached then reached else lvl in
              Some (Ok (mkBulk (match job with Some j => Sending j | None => Building end) ks lvl root lv vals js w rs c ur n d))
          | Err e => Some (Ok (mkBulk (BuildFailed e) ks lvl root lv vals js w rs c ur n d))
          | Panic => Some Panic
          end
      end
  | Sending j =>
      if room js jobQueueSize then Some (Ok (mkBulk Building ks lvl root lv vals (js ++ [j]) w rs c ur n d)) else None
  | Built | BuildFailed _ => None
  end.

(** [Worker.DoWork] *)
Definition workerStep (b : Bulk) : option (outcome Bulk) :=
  let 'mkBulk bs ks lvl root lv vals js w rs c ur n d := b in
  match w with
  | Idle =>
      match js with
      | j :: js =>
          Some (r ← runJob j root lv;
                let '(root, lv, res) := r : SmtNode * leafValues * (string + JobResult)%type in
                Ok (mkBulk bs ks lvl root lv vals js (Holding res) rs c ur n d))
      | [] =>
          match bs with
          | Built | BuildFailed _ => Some (Ok (mkBulk bs ks lvl root lv vals [] Stopped rs c ur n d))
          | _ => None
          end
      end
  | Holding r =>
      if room rs jobQueueSize then Some (Ok (mkBulk bs ks lvl root lv vals js Idle (rs ++ [r]) c ur n d)) else None
  | Stopped => None
  end.

(** [startBuildSmtLoopDbCompanionLoop] *)
Definition companionStep (b : Bulk) : option (outcome Bulk) :=
  let 'mkBulk bs ks lvl root lv vals js w rs c ur n d := b in
  match c with
  | Starting =>
      let readLimit := n + (accountValuesSize - Z.of_nat (length vals)) in
      let totalKeys := n + Z.of_nat (length ur) in
      let readLimit := if totalKeys <? readLimit then totalKeys else readLimit in
      Some (Ok (mkBulk bs ks lvl root lv vals js w rs (Reading readLimit) ur n d))
  | Reading limit =>
      if n <? limit then
        match ur with
        | [] => Some Panic
        | k :: ur =>
            if room vals accountValuesSize then
              match db_GetAccountValue d k with
              | Ok v => Some (Ok (mkBulk bs ks lvl root lv (vals ++ [Some v]) js w rs c ur (n + 1) d))
              | Err e => Some (Ok (mkBulk bs ks lvl root lv (vals ++ [None]) js w rs (SaveFailed e) ur n d))
              | Panic => Some Panic
              end
            else None
        end
      else Some (Ok (mkBulk bs ks lvl root lv vals js w rs Waiting ur n d))
  | Waiting =>
      match rs with
      | inl e :: rs => Some (Ok (mkBulk bs ks lvl root lv vals js w rs (SaveFailed e) ur n d))
      | inr res :: rs =>
          match Save res d with
          | Ok d => Some (Ok (mkBulk bs ks lvl root lv vals js w rs Starting ur n d))
          | Err e => Some (Ok (mkBulk bs ks lvl root lv vals js w rs (SaveFailed e) ur n d))
          | Panic => Some Panic
          end
      | [] =>
          match w with
          | Stopped => Some (Ok (mkBulk bs ks lvl root lv vals js w [] Saved ur n d))
          | _ => None
          end
      end
  | Saved | SaveFailed _ => None
  end.

Inductive step : Bulk -> Bulk -> Prop :=
| step_build b b' : buildStep b = Some (Ok b') -> step b b'
| step_work b b' : workerStep b = Some (Ok b') -> step b b'
| step_accompany b b' : companionStep b = Some (Ok b') -> step b b'.

(** A goroutine panics, and the process with it. *)
Definition crashed (b : Bulk) : Prop :=
  buildStep b = Some Panic \/ workerStep b = Some Panic \/ companionStep b = Some Panic.

(** ** The whole *)

Definition bitwise_le (a b : NodeKey) : Prop := bitwiseLess a b = true.
#[export] Instance bitwise_le_dec a b : Decision (bitwise_le a b).
Proof. unfold bitwise_le. apply _. Defined.

(** [sort.Slice]: on distinct keys any way of sorting gives the same list. *)
Definition SortNodeKeysBitwiseAsc (keys : list NodeKey) : list NodeKey := merge_sort bitwise_le keys.

Definition startBulk (nodeKeys : list NodeKey) (d : D) : Bulk :=
  let nodeKeys := SortNodeKeysBitwiseAsc nodeKeys in
  mkBulk Building nodeKeys 0 newNode ∅ [] [] Idle [] Starting nodeKeys 0 d.

(** The node to start from at the end, and its path: with a single key the root is
    that leaf, which keeps its whole key. *)
Definition finalNode (nodeKeys : list NodeKey) (rootNode : SmtNode) : outcome (SmtNode * list Z) :=
  rp ← (if (length nodeKeys =? 1)%nat then
          match node1 rootNode with
          | None => match node0 rootNode with None => Panic | Some n => Ok (n, [0]) end
          | Some n => match node0 rootNode with
                      | None => if Key_IsZero (leftHash rootNode) then Ok (n, [1]) else Ok (rootNode, [])
                      | Some _ => Ok (rootNode, [])
                      end
          end
        else Ok (rootNode, [])) : outcome (SmtNode * list Z);
  let '(rootNode, pathToDeleteFrom) := rp : SmtNode * list Z in
  if isLeaf rootNode then
    b0 ← index pathToDeleteFrom 0;
    Ok (Node (b0 :: rKey rootNode) (leftHash rootNode) (node0 rootNode) (node1 rootNode), [])
  else Ok (rootNode, pathToDeleteFrom).

(** What follows the three goroutines. *)
Definition finishBulk (nodeKeys : list NodeKey) (b : Bulk) : outcome (NodeKey * D) :=
  if isLeaf (rootNode b) then Ok (zeroKey, smtDb b)
  else
    rp ← finalNode nodeKeys (rootNode b);
    let '(rootNode, pathToDeleteFrom) := rp : SmtNode * list Z in
    rd ← deleteTree pathToDeleteFrom rootNode (leafValueMap b) (smtDb b);
    let '(finalRoot, d) := rd : NodeKey * D in
    d ← setLastRoot finalRoot d;
    Ok (finalRoot, d).

(** The result of the run, when there is one. *)
Definition bulkResult (nodeKeys : list NodeKey) (b : Bulk) : option (outcome (NodeKey * D)) :=
  match companion b, builder b, worker b with
  | SaveFailed e, _, _ => Some (Err e)
  | Saved, Built, Stopped => Some (finishBulk nodeKeys b)
  | Saved, BuildFailed e, Stopped => Some (Err e)
  | _, _, _ => None
  end.

(** [GenerateFromKVBulk] returns [r] in some schedule. *)
Definition GenerateFromKVBulk (nodeKeys : list NodeKey) (d : D) (r : outcome (NodeKey * D)) : Prop :=
  exists b, rtc step (startBulk nodeKeys d) b /\ bulkResult nodeKeys b = Some r.
End create.
