(* ===== verification/SmtCreateTheory.v ===== *)
(** * The tree built in bulk is the tree built key by key

    What [SmtCreate] does to the temporary tree, to the values and to the store, in
    terms of the abstract tree: at any time the temporary tree represents the tree
    of the keys inserted so far, with some left parts replaced by their hashes.
    No schedule of the three goroutines panics, deadlocks or runs on forever, and
    each one ends with the root of the canonical tree of all keys. *)
From stdpp Require Import sorting.
From S2P Require Import Prelude SmtUtils SmtTree SmtDb Smt SmtRefine SmtCreate.

(** ** The order of the keys *)

Definition klt (a b : NodeKey) : Prop :=
  exists j, (j < 256)%nat /\ agree j a b /\ bit a j = false /\ bit b j = true.

Lemma klt_bit a b m : klt a b -> agree m a b -> bit a m = true -> bit b m = true.
Proof.
  intros (j & Hj & Ha & H0 & H1) Hm Hb. destruct (decide (j = m)) as [->|]; [congruence|].
  destruct (decide (j < m)%nat).
  - rewrite (Hm j) in H0 by lia. congruence.
  - rewrite <- (Ha m) by lia. done.
Qed.

Lemma klt_bit_false a b m : klt a b -> agree m a b -> bit b m = false -> bit a m = false.
Proof. intros Hl Ha Hb. destruct (bit a m) eqn:He; [|done]. by rewrite (klt_bit a b m) in Hb. Qed.

Lemma klt_irrefl a : ~ klt a a.
Proof. intros (j & _ & _ & H0 & H1). congruence. Qed.

Lemma klt_ne a b : klt a b -> a <> b.
Proof. intros Hl ->. by apply klt_irrefl in Hl. Qed.

Lemma pathLess_bits a b n j : (j + n = 256)%nat -> agree j a b ->
  pathLess (drop j (GetPath a)) (drop j (GetPath b)) = true -> agree 256 a b \/ klt a b.
Proof.
  revert j. induction n as [|n IH]; intros j Hj Ha Hp.
  - left. by replace 256%nat with j by lia.
  - rewrite (drop_S _ (Z.b2z (bit a j))), (drop_S (GetPath b) (Z.b2z (bit b j))) in Hp by (apply GetPath_lookup; lia).
    cbn [pathLess] in Hp. destruct (bit a j) eqn:Hba, (bit b j) eqn:Hbb; cbn in Hp.
    + apply (IH (S j)); [lia|apply agree_S; [done|congruence]|done].
    + done.
    + right. exists j. split_and!; [lia|done..].
    + apply (IH (S j)); [lia|apply agree_S; [done|congruence]|done].
Qed.

Lemma bitwise_le_klt a b : key_ok a -> key_ok b -> a <> b -> bitwise_le a b -> klt a b.
Proof.
  intros Ha Hb Hne Hl. destruct (pathLess_bits a b 256 0) as [He|?]; [done|intros j Hj; lia|exact Hl| |done].
  by apply agree_256 in He.
Qed.

Lemma pathLess_total a : forall b, pathLess a b = true \/ pathLess b a = true.
Proof.
  induction a as [|x a IH]; intros [|y b]; cbn [pathLess]; auto.
  rewrite (Z.eqb_sym y x). destruct (Z.eqb_spec x y); cbn [negb]; [apply IH|].
  destruct (Z.ltb_spec x y); [by left|right]. apply Z.ltb_lt. lia.
Qed.

Lemma pathLess_trans a : forall b c, length a = length b -> length b = length c ->
  pathLess a b = true -> pathLess b c = true -> pathLess a c = true.
Proof.
  induction a as [|x a IH]; intros [|y b] [|z c] H1 H2; cbn [pathLess length] in *; try done.
  destruct (Z.eqb_spec x y), (Z.eqb_spec y z), (Z.eqb_spec x z); cbn [negb]; rewrite ?Z.ltb_lt; intros; subst; try lia; try congruence.
  eapply IH; [| |done|done]; lia.
Qed.

#[export] Instance bitwise_le_total : Total bitwise_le.
Proof. intros a b. apply pathLess_total. Qed.

#[export] Instance bitwise_le_trans : Transitive bitwise_le.
Proof. intros a b c. by apply pathLess_trans. Qed.

Lemma StronglySorted_impl_in {A} (R R' : A -> A -> Prop) l :
  (forall a b, a ∈ l -> b ∈ l -> a <> b -> R a b -> R' a b) -> NoDup l -> StronglySorted R l -> StronglySorted R' l.
Proof.
  intros Himp Hnd Hs. induction Hs as [|a l Hs IH Hall]; constructor; apply NoDup_cons in Hnd as [Hni Hnd].
  - apply IH; [|done]. intros x y Hx Hy. apply Himp; by right.
  - rewrite Forall_forall in Hall |- *. intros b Hb. apply Himp; [left|by right|by intros ->|auto].
Qed.

Lemma Sort_sorted keys : NoDup keys -> Forall key_ok keys -> StronglySorted klt (SortNodeKeysBitwiseAsc keys).
Proof.
  intros Hnd Hok. unfold SortNodeKeysBitwiseAsc.
  apply (StronglySorted_impl_in bitwise_le); [|by rewrite merge_sort_Permutation|apply StronglySorted_merge_sort; apply _].
  intros a b Ha Hb Hne. rewrite merge_sort_Permutation in Ha, Hb. rewrite Forall_forall in Hok. by apply bitwise_le_klt; auto.
Qed.

(** ** Paths in the temporary tree *)

Definition child (b : Z) (n : SmtNode) : option SmtNode := if b =? 0 then node0 n else node1 n.

(** The bits of a key from a level on. *)
Definition seg (k : NodeKey) (d m : nat) : list Z := take m (drop d (GetPath k)).

Lemma seg_S k d m : (d < 256)%nat -> seg k d (S m) = Z.b2z (bit k d) :: seg k (S d) m.
Proof. intros Hd. unfold seg. by rewrite (drop_S _ (Z.b2z (bit k d))) by (by apply GetPath_lookup). Qed.

Lemma pathTo_seg k m : pathTo (GetPath k) (Z.of_nat m) = seg k 0 m.
Proof. unfold pathTo, seg. by rewrite Nat2Z.id, drop_0. Qed.

Lemma seg_length k d m : (d + m <= 256)%nat -> length (seg k d m) = m.
Proof. intros Hm. unfold seg. rewrite length_take, length_drop, GetPath_length. lia. Qed.

Lemma seg_app k d m1 m2 : (d + m1 <= 256)%nat -> seg k d (m1 + m2) = seg k d m1 ++ seg k (d + m1) m2.
Proof.
  intros Hm. unfold seg. rewrite <- (take_drop m1 (drop d (GetPath k))) at 1.
  rewrite take_app_ge by (rewrite length_take, length_drop, GetPath_length; lia).
  rewrite length_take, length_drop, GetPath_length, drop_drop. by replace (m1 + m2 - _)%nat with m2 by lia.
Qed.

Lemma seg_ext k k' d m : (d + m <= 256)%nat -> agree (d + m) k k' -> seg k d m = seg k' d m.
Proof.
  revert d. induction m as [|m IH]; intros d Hm Ha; [done|].
  rewrite !seg_S, (Ha d) by lia. f_equal. apply IH; [lia|]. by rewrite Nat.add_succ_comm.
Qed.

Lemma seg_agree k k' m : (m <= 256)%nat -> seg k 0 m = seg k' 0 m -> agree m k k'.
Proof.
  intros Hm He j Hj. assert (seg k 0 m !! j = seg k' 0 m !! j) as Hl by by rewrite He.
  unfold seg in Hl. rewrite !drop_0, !lookup_take_lt, !GetPath_lookup in Hl by lia.
  injection Hl. by destruct (bit k j), (bit k' j).
Qed.

Lemma nodeAt_app p q n c : nodeAt p n = Ok c -> nodeAt (p ++ q) n = nodeAt q c.
Proof.
  revert n. induction p as [|b p IH]; intros n Hn; cbn [nodeAt app] in *; [by injection Hn as ->|].
  destruct (if b =? 0 then _ else _); [by apply IH|done].
Qed.

Lemma child_setNode b c n : child b (setNode b c n) = Some c.
Proof. unfold child. destruct n as [rk h n0 n1]. cbn. by destruct (b =? 0). Qed.

Lemma setNode_setNode b c c' n : setNode b c (setNode b c' n) = setNode b c n.
Proof. destruct n as [rk h n0 n1]. cbn. by destruct (b =? 0) eqn:Hb; cbn; rewrite Hb. Qed.

Lemma updateAt_ok p f n c : nodeAt p n = Ok c -> exists n', updateAt p f n = Ok n' /\ nodeAt p n' = Ok (f c).
Proof.
  revert n. induction p as [|b p IH]; intros n Hn; cbn [nodeAt updateAt] in *; [injection Hn as ->; eauto|].
  change (if b =? 0 then node0 n else node1 n) with (child b n) in *.
  destruct (child b n) as [c1|] eqn:Hc; [|done]. destruct (IH c1 Hn) as (n' & -> & Hn'). rewrite bind_ok.
  eexists. split; [done|]. change (match child b (setNode b n' n) with Some c => nodeAt p c | None => Panic end = Ok (f c)).
  by rewrite child_setNode.
Qed.

(** A second change of the same node. *)
Lemma updateAt_again p f g n n' : updateAt p f n = Ok n' -> updateAt p g n' = updateAt p (fun c => g (f c)) n.
Proof.
  revert n n'. induction p as [|b p IH]; intros n n' Hn; cbn [updateAt] in *; [by injection Hn as <-|].
  change (if b =? 0 then node0 ?x else node1 ?x) with (child b x) in *.
  destruct (child b n) as [c1|] eqn:Hc; [|done]. apply bind_Ok_inv in Hn as (c2 & Hc2 & [= <-]).
  change (match child b (setNode b c2 n) with Some c => c ← updateAt p g c; Ok (setNode b c (setNode b c2 n)) | None => Panic end =
    (c ← updateAt p (fun c => g (f c)) c1; Ok (setNode b c n))).
  rewrite child_setNode, (IH _ _ Hc2). destruct (updateAt p (fun c => g (f c)) c1); [by rewrite !bind_ok, setNode_setNode|done..].
Qed.

(** A change further down as a change on the way. *)
Lemma updateAt_app p q f n c c' : nodeAt p n = Ok c -> updateAt q f c = Ok c' ->
  updateAt (p ++ q) f n = updateAt p (fun _ => c') n.
Proof.
  revert n. induction p as [|b p IH]; intros n Hn Hc'; cbn [nodeAt updateAt app] in *; [by injection Hn as ->|].
  destruct (if b =? 0 then _ else _) as [c1|]; [|done]. by rewrite (IH c1).
Qed.

Lemma updateAt_ext p f g n u : nodeAt p n = Ok u -> f u = g u -> updateAt p f n = updateAt p g n.
Proof.
  revert n. induction p as [|b p IH]; intros n Hn He; cbn [nodeAt updateAt] in *; [injection Hn as ->; by rewrite He|].
  destruct (if b =? 0 then _ else _) as [c|]; [|done]. by rewrite (IH c).
Qed.

Lemma updateAt_id p n u : nodeAt p n = Ok u -> updateAt p (fun _ => u) n = Ok n.
Proof.
  revert n. induction p as [|b p IH]; intros n Hn; cbn [nodeAt updateAt] in *; [by injection Hn as ->|].
  destruct n as [rk lh n0 n1]. cbn in *. destruct (b =? 0) eqn:Hb; cbn in *.
  - destruct n0 as [c|]; [|done]. rewrite (IH c Hn), bind_ok. done.
  - destruct n1 as [c|]; [|done]. rewrite (IH c Hn), bind_ok. done.
Qed.

(** Nodes with two children stay so when a child is set that was not there or is a leaf. *)
Definition both (p : list Z) (n : SmtNode) : Prop :=
  exists u, nodeAt p n = Ok u /\ is_Some (node0 u) /\ is_Some (node1 u).

Definition childless (o : option SmtNode) : Prop := forall c, o = Some c -> node0 c = None /\ node1 c = None.

Lemma both_cons b p n : both (b :: p) n <-> exists c, child b n = Some c /\ both p c.
Proof.
  unfold both. cbn [nodeAt]. change (if b =? 0 then node0 n else node1 n) with (child b n).
  destruct (child b n) as [c|]; split.
  - intros (u & ?). exists c. split; [done|]. eauto.
  - intros (c' & [= <-] & ?). done.
  - by intros (u & ? & _).
  - by intros (c' & ? & _).
Qed.

Lemma both_app p q n u : nodeAt p n = Ok u -> both (p ++ q) n <-> both q u.
Proof. intros Hu. unfold both. by rewrite (nodeAt_app _ _ _ _ Hu). Qed.

Lemma both_childless p n : node0 n = None -> node1 n = None -> ~ both p n.
Proof.
  intros H0 H1 Hb. destruct p as [|b p]; [destruct Hb as (u & [= <-] & [? ?] & _); congruence|].
  apply both_cons in Hb as (c & Hc & _). unfold child in Hc. destruct (b =? 0); congruence.
Qed.

Lemma child_set_other b b' c n : (b =? 0) <> (b' =? 0) -> child b (setNode b' c n) = child b n.
Proof. unfold child. destruct n as [rk h n0 n1]. cbn. by destruct (b =? 0), (b' =? 0). Qed.

Lemma child_zero b b' n : (b =? 0) = (b' =? 0) -> child b n = child b' n.
Proof. unfold child. by intros ->. Qed.

Lemma both_set b c n : both [] n -> both [] (setNode b c n).
Proof.
  intros (u & [= <-] & H0 & H1). exists (setNode b c n). split; [done|]. destruct n as [rk h n0 n1]. cbn in *.
  by destruct (b =? 0).
Qed.

Lemma both_updateAt p : forall q b c n n', both p n -> updateAt q (setNode b c) n = Ok n' ->
  (forall u, nodeAt q n = Ok u -> childless (child b u)) -> both p n'.
Proof.
  induction p as [|x p IH]; intros q b c n n' Hp Hu Hq.
  - destruct q as [|y q]; cbn [updateAt] in Hu; [injection Hu as <-; by apply both_set|].
    destruct (if y =? 0 then _ else _) as [c1|]; [|done]. apply bind_Ok_inv in Hu as (c2 & _ & [= <-]). by apply both_set.
  - apply both_cons in Hp as (c1 & Hc1 & Hp). apply both_cons. destruct q as [|y q]; cbn [updateAt] in Hu.
    + injection Hu as <-. destruct (decide ((x =? 0) = (b =? 0))) as [Heq|Hne].
      * exfalso. rewrite (child_zero _ _ _ Heq) in Hc1. destruct (Hq n eq_refl c1 Hc1) as [H0 H1].
        destruct p as [|z p]; [destruct Hp as (u & [= <-] & [? Hs] & _); congruence|].
        apply both_cons in Hp as (c2 & Hc2 & _). unfold child in Hc2. destruct (z =? 0); congruence.
      * exists c1. by rewrite child_set_other.
    + change (if y =? 0 then node0 n else node1 n) with (child y n) in Hu. destruct (child y n) as [cy|] eqn:Hy; [|done].
      apply bind_Ok_inv in Hu as (c2 & Hu & [= <-]). destruct (decide ((x =? 0) = (y =? 0))) as [Heq|Hne].
      * rewrite (child_zero _ _ _ Heq), Hy in Hc1. injection Hc1 as ->. exists c2.
        rewrite (child_zero _ _ _ Heq), child_setNode. split; [done|]. eapply (IH q b c c1 c2); [done..|].
        intros u Hn. apply Hq. cbn [nodeAt]. change (if y =? 0 then node0 n else node1 n) with (child y n). by rewrite Hy.
      * exists c1. by rewrite child_set_other.
Qed.

(** Dropping the left part of a node keeps the nodes that are not in it. *)
Definition dropLeft (h : NodeKey) (n : SmtNode) : SmtNode := Node (rKey n) h None (node1 n).

Definition is_bit (b : Z) : Prop := b = 0 \/ b = 1.

Lemma seg_bits k d m : Forall is_bit (seg k d m).
Proof.
  apply Forall_take, Forall_drop, Forall_lookup_2. intros i b Hi. pose proof (lookup_lt_Some _ _ _ Hi) as Hl.
  rewrite GetPath_length in Hl. rewrite GetPath_lookup in Hi by done. injection Hi as <-. unfold is_bit. destruct (bit k i); auto.
Qed.

Lemma both_dropLeft p : forall q h n n', Forall is_bit p -> Forall is_bit q ->
  both p n -> updateAt q (dropLeft h) n = Ok n' -> p <> q -> ~ (q ++ [0]) `prefix_of` p -> both p n'.
Proof.
  induction p as [|x p IH]; intros q h n n' Hbits Hqbits Hp Hu Hne Hpre.
  - destruct q as [|y q]; [done|]; cbn [updateAt] in Hu.
    destruct (if y =? 0 then _ else _) as [c1|]; [|done]. apply bind_Ok_inv in Hu as (c2 & _ & [= <-]). by apply both_set.
  - apply Forall_cons in Hbits as [Hx Hbits].
    apply both_cons in Hp as (c1 & Hc1 & Hp). apply both_cons. destruct q as [|y q]; cbn [updateAt] in Hu.
    + injection Hu as <-. destruct Hx as [-> | ->]; [destruct Hpre; by exists p|]. exists c1. done.
    + apply Forall_cons in Hqbits as [Hy Hqbits].
      change (if y =? 0 then node0 n else node1 n) with (child y n) in Hu. destruct (child y n) as [cy|] eqn:Hcy; [|done].
      apply bind_Ok_inv in Hu as (c2 & Hu & [= <-]). destruct (decide (x = y)) as [->|Hxy].
      * rewrite Hcy in Hc1. injection Hc1 as ->. exists c2. rewrite child_setNode. split; [done|].
        eapply (IH q h c1 c2); [done..|congruence|]. intros Hq. apply Hpre. cbn [app]. by apply prefix_cons.
      * exists c1. rewrite child_set_other; [done|]. destruct Hx as [-> | ->], Hy as [-> | ->]; done.
Qed.

(** ** The tree that a temporary tree stands for *)

Section create.
Context (Hash : list Z -> NodeKey -> NodeKey) (Hash_range : forall i c, key_ok (Hash i c)).

Abbreviation th := (th Hash).
Abbreviation nodes := (nodes Hash).
Abbreviation nonzero := (nonzero Hash).

Definition val8 (v : list Z) : NodeValue8 := map Some v.

(** [lv] holds the values of the leaves; [Q] is what is known of the left parts that
    are gone, which have something to their right. *)
Fixpoint rep (lv : leafValues) (Q : nat -> tree -> Prop) (d : nat) (t : tree) (n : SmtNode) : Prop :=
  match t with
  | E => False
  | Leaf k v => n = Node (drop d (GetPath k)) zeroKey None None /\ lv !! k = Some (val8 v)
  | B l r =>
      match n with
      | Node _ lh n0 n1 =>
          match n1 with Some c => rep lv Q (S d) r c | None => r = E end /\
          match n0 with
          | Some c => lh = zeroKey /\ rep lv Q (S d) l c
          | None => l = E /\ lh = zeroKey \/ l <> E /\ r <> E /\ lh = th (S d) l /\ Q (S d) l
          end
      end
  end.

Lemma rep_nonempty lv Q d t n : rep lv Q d t n -> t <> E.
Proof. by destruct t. Qed.

Lemma rep_mono lv lv' (Q Q' : nat -> tree -> Prop) t : forall d n,
  (forall k, inT k t -> lv' !! k = lv !! k) -> (forall d t, Q d t -> Q' d t) -> rep lv Q d t n -> rep lv' Q' d t n.
Proof.
  induction t as [|k v|l IHl r IHr]; intros d n Hlv HQ Hr; [done| |].
  - destruct Hr as [-> Hv]. split; [done|]. by rewrite Hlv.
  - destruct n as [rk lh n0 n1]. cbn in *. destruct Hr as [H1 H0]. split.
    + destruct n1; [|done]. apply IHr; auto.
    + destruct n0; [destruct H0; split; [done|]; apply IHl; auto|]. destruct H0 as [?|(? & ? & ? & ?)]; auto 6.
Qed.

Lemma rep_isLeaf lv Q d t n : rep lv Q d t n -> canonical t ->
  isLeaf n = match t with Leaf _ _ => true | _ => false end.
Proof.
  destruct t as [|k v|l r]; [done| |].
  - by intros [-> _].
  - destruct n as [rk lh [n0|] [n1|]]; cbn; try done. intros [-> [[-> ->]|(_ & Hne & _)]]; [by intros (_ & _ & [])|done].
Qed.

(** Following the path of a key in both trees, and changing what it ends in. *)
Lemma rep_zoom lv Q k m : forall d t n u, rep lv Q d t n -> (d + m <= 256)%nat ->
  nodeAt (seg k d m) n = Ok u ->
  exists ctx t', length ctx = m /\ t = plug k d ctx t' /\ rep lv Q (d + m) t' u /\
    forall lv' (Q' : nat -> tree -> Prop) f t'', rep lv' Q' (d + m) t'' (f u) ->
      (forall i o k', ctx !! i = Some o -> inT k' o -> lv' !! k' = lv !! k') -> (forall d t, Q d t -> Q' d t) ->
      exists n', updateAt (seg k d m) f n = Ok n' /\ rep lv' Q' d (plug k d ctx t'') n'.
Proof.
  induction m as [|m IH]; intros d t n u Hr Hm Hn.
  - injection Hn as ->. exists [], t. rewrite Nat.add_0_r. split_and!; [done..|].
    intros lv' Q' f t'' Hf _ _. eexists. split; [done|]. done.
  - rewrite seg_S in Hn |- * by lia. cbn [nodeAt] in Hn.
    change (if Z.b2z (bit k d) =? 0 then node0 n else node1 n) with (child (Z.b2z (bit k d)) n) in Hn.
    destruct (child _ n) as [c|] eqn:Hc; [|done].
    destruct t as [|k' v'|l r]; [done|destruct Hr as [-> _]; by destruct (bit k d)|].
    assert (exists s o, B l r = branch d k s o /\ rep lv Q (S d) s c /\
      forall lv' (Q' : nat -> tree -> Prop) c' s', rep lv' Q' (S d) s' c' -> (forall k', inT k' o -> lv' !! k' = lv !! k') ->
        (forall d t, Q d t -> Q' d t) -> rep lv' Q' d (branch d k s' o) (setNode (Z.b2z (bit k d)) c' n))
      as (s & o & -> & Hs & Hset).
    { destruct n as [rk lh n0 n1]. unfold child, branch in *. destruct Hr as [H1 H0]. destruct (bit k d); cbn in Hc |- *; subst.
      - exists r, l. split_and!; [done..|]. intros lv' Q' c' s' Hs' Hlv HQ. split; [done|]. destruct n0.
        + destruct H0. split; [done|]. by eapply rep_mono.
        + destruct H0 as [?|(? & ? & ? & ?)]; [auto|]. right. split_and!; auto. by eapply rep_nonempty.
      - destruct H0 as [-> H0]. exists l, r. split_and!; [done..|]. intros lv' Q' c' s' Hs' Hlv HQ. split; [|done].
        destruct n1; [|done]. by eapply rep_mono. }
    destruct (IH (S d) s c u Hs ltac:(lia) Hn) as (ctx & t' & Hl & -> & Ht' & Hup). rewrite Nat.add_succ_comm in Ht'.
    exists (o :: ctx), t'. split; [cbn; lia|]. split_and!; [done..|]. intros lv' Q' f t'' Hf Hlv HQ.
    destruct (Hup lv' Q' f t'') as (c' & Hc' & Hrc); [by rewrite Nat.add_succ_comm|by intros i; apply (Hlv (S i))|done|].
    exists (setNode (Z.b2z (bit k d)) c' n). cbn [updateAt]. unfold child in Hc. rewrite Hc, Hc', bind_ok. split; [done|].
    cbn [plug]. apply Hset; [done|intros k0; by apply (Hlv 0%nat)|done].
Qed.

(** ** Inserting a key to the right of all others *)

Lemma findLastNode_unfold k d n : (d < 256)%nat -> findLastNode (GetPath k) (Z.of_nat d) n =
  match child (Z.b2z (bit k d)) n with
  | None => Ok ([], if 0 <? Z.of_nat d then Z.of_nat d - 1 else Z.of_nat d)
  | Some c => if isLeaf c then Ok ([c], Z.of_nat d)
              else sl ← findLastNode (GetPath k) (Z.of_nat (S d)) c; Ok (c :: fst sl, snd sl)
  end.
Proof.
  intros Hd. rewrite Nat2Z.inj_succ, <- Z.add_1_r. destruct n as [rk lh n0 n1]. cbn [findLastNode].
  rewrite index_path, bind_ok by done. done.
Qed.

(** The result of the search: the last inner node, and what the next bit leads to. *)
Lemma findLast_ok lv Q k t : forall d n l r, t = B l r -> rep lv Q d t n -> canonical l -> canonical r ->
  (d <= 255)%nat -> placed d t ->
  exists m u sibs, (d + m <= 255)%nat /\ nodeAt (seg k d m) n = Ok u /\ length sibs = m /\
    Forall (fun s => isLeaf s = false) sibs /\ (m = 0%nat \/ isLeaf u = false) /\
    match child (Z.b2z (bit k (d + m))) u with
    | None => findLastNode (GetPath k) (Z.of_nat d) n = Ok (sibs, if 0 <? Z.of_nat (d + m) then Z.of_nat (d + m) - 1 else Z.of_nat (d + m))
    | Some lf => isLeaf lf = true /\ findLastNode (GetPath k) (Z.of_nat d) n = Ok (sibs ++ [lf], Z.of_nat (d + m))
    end.
Proof.
  induction t as [|k' v'|tl IHl tr IHr]; intros d n l r Ht Hr Cl Cr Hd Hp; [done|done|]. injection Ht as -> ->.
  destruct (child (Z.b2z (bit k d)) n) as [c|] eqn:Hc.
  - assert (exists s, (s = if bit k d then r else l) /\ rep lv Q (S d) s c /\ canonical s /\ placed (S d) s) as (s & Hs & Hrs & Cs & Ps).
    { destruct n as [rk lh n0 n1], Hr as [H1 H0], Hp as (_ & _ & _ & Pl & Pr). unfold child in Hc.
      destruct (bit k d); cbn in Hc; subst; [by exists r|]. destruct H0. by exists l. }
    pose proof (rep_isLeaf _ _ _ _ _ Hrs Cs) as Hlf. destruct s as [|k' v'|l' r']; [done| |].
    + exists 0%nat, n, []. rewrite Nat.add_0_r, Hc. split_and!; [lia|done|done|by apply Forall_nil|by left|done|].
      by rewrite findLastNode_unfold, Hc, Hlf by lia.
    + assert (d < 255)%nat by (destruct Ps; lia). destruct Cs as (Cl' & Cr' & _).
      assert (exists m u sibs, (S d + m <= 255)%nat /\ nodeAt (seg k (S d) m) c = Ok u /\ length sibs = m /\
        Forall (fun s => isLeaf s = false) sibs /\ (m = 0%nat \/ isLeaf u = false) /\
        match child (Z.b2z (bit k (S d + m))) u with
        | None => findLastNode (GetPath k) (Z.of_nat (S d)) c =
            Ok (sibs, if 0 <? Z.of_nat (S d + m) then Z.of_nat (S d + m) - 1 else Z.of_nat (S d + m))
        | Some lf => isLeaf lf = true /\ findLastNode (GetPath k) (Z.of_nat (S d)) c = Ok (sibs ++ [lf], Z.of_nat (S d + m))
        end) as (m & u & sibs & Hm & Hu & Hls & Hsibs & Hnl & Hres).
      { destruct (bit k d); subst; [eapply IHr|eapply IHl]; done || lia. }
      exists (S m), u, (c :: sibs). rewrite Nat.add_succ_comm in Hm, Hres. split_and!; [lia| |by cbn; rewrite Hls|by constructor| |].
      * rewrite seg_S by lia. cbn [nodeAt]. unfold child in Hc. by rewrite Hc.
      * right. destruct Hnl as [->|?]; [by injection Hu as <-|done].
      * rewrite findLastNode_unfold, Hc, Hlf by lia. destruct (child _ u); [destruct Hres as [? ->]; split; [done|]|rewrite Hres]; by rewrite bind_ok.
  - exists 0%nat, n, []. rewrite Nat.add_0_r, Hc. split_and!; [lia|done|done|by apply Forall_nil|by left|].
    by rewrite findLastNode_unfold, Hc by lia.
Qed.

Lemma empty_or_not t : t = E \/ t <> E.
Proof. destruct t; [by left|by right..]. Qed.

Lemma canonical_key t : canonical t -> t <> E -> exists k, inT k t.
Proof.
  induction t as [|k v|l IHl r IHr]; intros Hc Hne; [done|by exists k|]. destruct Hc as (Cl & Cr & Hm).
  destruct l as [|kl vl|]; [|exists kl; by left|destruct IHl as [k ?]; [done..|]; exists k; by left].
  destruct IHr as [k ?]; [done|by intros ->|]. exists k. by right.
Qed.

Lemma plug_canonical k ctx : forall d t, canonical (plug k d ctx t) -> canonical t.
Proof.
  induction ctx as [|o ctx IH]; intros d t Hc; [done|]. cbn [plug] in Hc. apply canonical_branch in Hc as [Hc _]. by eapply IH.
Qed.

Lemma plug_B k ctx l r : forall d, exists l' r', plug k d ctx (B l r) = B l' r'.
Proof. intros d. destruct ctx as [|o ctx]; [by exists l, r|]. apply branch_B. Qed.

Lemma plug_other k ctx : forall d t i o k', ctx !! i = Some o -> inT k' o -> inT k' (plug k d ctx t).
Proof.
  induction ctx as [|o' ctx IH]; intros d t i o k' Hi Hk; [done|]. cbn [plug]. apply branch_inT. destruct i as [|i].
  - injection Hi as ->. by right.
  - left. by eapply IH.
Qed.

(** What the builder may rely on: the root is an inner node, its halves are canonical. *)
Definition halves_ok (t : tree) : Prop := exists l r, t = B l r /\ canonical l /\ canonical r /\ placed 0 t.

Lemma halves_plug k ctx l r : halves_ok (plug k 0 ctx (B l r)) ->
  canonical l /\ canonical r /\ (length ctx = 0%nat \/ many l r).
Proof.
  intros (l0 & r0 & Ht & Cl & Cr & _). destruct ctx as [|o ctx].
  - cbn in Ht. injection Ht as -> ->. auto.
  - cbn [plug] in Ht. assert (canonical (plug k 1 ctx (B l r))) as Hc.
    { unfold branch in Ht. destruct (bit k 0); injection Ht as <- <-; done. }
    apply plug_canonical in Hc as (? & ? & ?). auto.
Qed.

Section insert.
Context (lv : leafValues) (Q : nat -> tree -> Prop) (k : NodeKey) (v : list Z) (t : tree) (root : SmtNode).
Context (Hk : key_ok k) (Hv : value_ok v) (Hrep : rep lv Q 0 t root) (Ht : halves_ok t).
Context (Hlast : forall k', inT k' t -> klt k' k).

Definition newLeaf (m : nat) : SmtNode := Node (drop m (GetPath k)) zeroKey None None.

(** Nothing is to the right of the new key. *)
Lemma nothing_right ctx l r : t = plug k 0 ctx (B l r) -> bit k (length ctx) = false -> r = E.
Proof.
  intros He Hb. pose proof Ht as Hh. rewrite He in Hh. destruct (halves_plug _ _ _ _ Hh) as (_ & Cr & _).
  destruct (empty_or_not r) as [|Hne]; [done|]. exfalso. destruct (canonical_key r Cr Hne) as [k' Hk'].
  destruct Hh as (_ & _ & _ & _ & _ & Hp). pose proof (proj2 (plug_placed _ _ _ _ Hp)) as (_ & _ & Hr & _).
  assert (inT k' (B l r)) as Hin by by right.
  pose proof (plug_agree k ctx 0 _ k' Hp Hin) as Ha. specialize (Hr k' Hk'). cbn [Nat.add] in *.
  assert (klt k' k) as Hl by (apply Hlast; rewrite He; by apply plug_inT).
  assert (agree (length ctx) k' k) as Ha' by (intros j Hj; symmetry; apply Ha; [intros ? ?; lia|done]).
  by rewrite (klt_bit k' k _ Hl Ha' Hr) in Hb.
Qed.

Definition inserted (root' : SmtNode) (job : option Job) : Prop :=
  rep (<[k := val8 v]> lv) Q 0 (tins 0 k v t) root' /\
  (forall p, both p root -> both p root') /\
  match job with
  | None => t = B E E
  | Some j => t <> B E E /\ exists m, (m < 256)%nat /\ bit k m = true /\ j = mkJob (seg k 0 m) (seg k 0 m ++ [0]) /\
      both (seg k 0 m) root' /\ ~ both (seg k 0 m) root
  end.

Lemma addLeaf_right m u sibs level : nodeAt (seg k 0 m) root = Ok u -> (m < 256)%nat -> length sibs = m ->
  level = (if 0 <? Z.of_nat m then Z.of_nat m - 1 else Z.of_nat m) -> bit k m = true -> node1 u = None ->
  addLeaf (GetPath k) sibs level root =
    (r ← updateAt (seg k 0 m) (setNode 1 (newLeaf (S m))) root;
     Ok (r, match node0 u with Some _ => Some (mkJob (seg k 0 m) (seg k 0 m ++ [0])) | None => None end, Z.of_nat m + 1)).
Proof.
  intros Hu Hm Hl -> Hb H1. unfold addLeaf. rewrite Hl, pathTo_seg, Hu, bind_ok.
  assert ((if (m =? 0)%nat then if 0 <? Z.of_nat m then Z.of_nat m - 1 else Z.of_nat m
           else (if 0 <? Z.of_nat m then Z.of_nat m - 1 else Z.of_nat m) + 1) = Z.of_nat m) as ->.
  { destruct (Nat.eqb_spec m 0) as [->|]; [done|]. rewrite (proj2 (Z.ltb_lt _ _)) by lia. lia. }
  change (index (GetPath k) 0) with (index (GetPath k) (Z.of_nat 0)). rewrite (index_path k 0), bind_ok by lia.
  assert ((m =? 0)%nat && (Z.b2z (bit k 0) =? 0) = false) as ->.
  { destruct (Nat.eqb_spec m 0) as [->|]; [by rewrite Hb|done]. }
  rewrite index_path, bind_ok, Hb, H1, pathTo_seg by done. cbn [orb negb Z.b2z Z.eqb Pos.eqb].
  replace (Z.to_nat (Z.of_nat m + 1)) with (S m) by lia. by destruct (node0 u).
Qed.

Lemma zoom_insert m u : nodeAt (seg k 0 m) root = Ok u -> (m <= 256)%nat ->
  exists ctx t', t = plug k 0 ctx t' /\ length ctx = m /\ rep lv Q m t' u /\
    forall f, rep (<[k := val8 v]> lv) Q m (tins m k v t') (f u) ->
      exists root', updateAt (seg k 0 m) f root = Ok root' /\ rep (<[k := val8 v]> lv) Q 0 (tins 0 k v t) root'.
Proof.
  intros Hu Hm. destruct (rep_zoom lv Q k m 0 t root u Hrep Hm Hu) as (ctx & t' & Hl & Hte & Hr' & Hup).
  exists ctx, t'. split_and!; try done. intros f Hf.
  assert (tins 0 k v t = plug k 0 ctx (tins m k v t')) as -> by (rewrite Hte, tins_plug; by rewrite Hl).
  apply Hup; [done| |done]. intros i o k' Hi Hk'. apply lookup_insert_ne. intros <-.
  apply (klt_irrefl k), Hlast. rewrite Hte. by eapply plug_other.
Qed.

Lemma rep_other t' d n : rep lv Q d t' n -> (forall k', inT k' t' -> inT k' t) -> rep (<[k := val8 v]> lv) Q d t' n.
Proof.
  intros Hr Hsub. eapply rep_mono; [|done|exact Hr]. intros k' Hk'. apply lookup_insert_ne. intros <-.
  by apply (klt_irrefl k), Hlast, Hsub.
Qed.

Lemma inner_tree m u ctx t' : t = plug k 0 ctx t' -> length ctx = m -> rep lv Q m t' u ->
  (m = 0%nat \/ isLeaf u = false) -> exists l r, t' = B l r.
Proof.
  intros He Hl Hr Hnl. destruct Ht as (l0 & r0 & Hte & _). destruct t' as [|k' v'|l r]; [done| |eauto].
  destruct Hnl as [->|Hnl]; [|by destruct Hr as [-> _]]. destruct ctx; [|done]. cbn in He. congruence.
Qed.

(** The new leaf is the right child of the last node found. *)
Lemma insert_right m u sibs : nodeAt (seg k 0 m) root = Ok u -> (m < 256)%nat -> length sibs = m ->
  Forall (fun s => isLeaf s = false) sibs -> (m = 0%nat \/ isLeaf u = false) ->
  findLastNode (GetPath k) 0 root = Ok (sibs, if 0 <? Z.of_nat m then Z.of_nat m - 1 else Z.of_nat m) ->
  bit k m = true -> node1 u = None ->
  exists root' job lvl, insertKey (GetPath k) root = Ok (root', job, lvl) /\ inserted root' job.
Proof.
  intros Hu Hm Hl Hnl Hul Hfind Hb H1.
  destruct (zoom_insert m u Hu ltac:(lia)) as (ctx & t' & Hte & Hlc & Hr' & Hins').
  destruct (inner_tree m u ctx t' Hte Hlc Hr' Hul) as (l & r & ->).
  assert (r = E) as ->. { destruct u as [rk lh n0 n1]. cbn in H1, Hr'. subst n1. by destruct Hr'. }
  destruct (Hins' (setNode 1 (newLeaf (S m)))) as (root' & Hup & Hrep').
  { destruct u as [rk lh n0 n1]. cbn in H1. subst n1. destruct Hr' as [_ H0]. cbn. rewrite Hb. split.
    - split; [done|]. apply lookup_insert_eq.
    - destruct n0 as [c|]; [|destruct H0 as [H0|(_ & H0 & _)]; [by left|done]]. destruct H0 as [-> H0]. split; [done|].
      apply rep_other; [done|]. intros k' Hk'. rewrite Hte. apply plug_inT. by left. }
  assert (insertKey (GetPath k) root = addLeaf (GetPath k) sibs (if 0 <? Z.of_nat m then Z.of_nat m - 1 else Z.of_nat m) root) as Hins.
  { unfold insertKey. rewrite Hfind, bind_ok. destruct sibs as [|s sibs]; [done|]. cbn [length] in Hl.
    rewrite (proj2 (Z.ltb_lt _ _)) by lia. destruct (lookup_lt_is_Some_2 (s :: sibs) (m - 1)) as [x Hx]; [cbn; lia|].
    assert (index (s :: sibs) (Z.of_nat m - 1) = Ok x) as ->.
    { unfold index. rewrite decide_True by lia. replace (Z.to_nat _) with (m - 1)%nat by lia. by rewrite Hx. }
    rewrite bind_ok. rewrite Forall_forall in Hnl. by rewrite (Hnl x) by (by eapply list_elem_of_lookup_2). }
  rewrite Hins, (addLeaf_right m u), Hup, bind_ok by done. eexists _, _, _. split; [done|].
  destruct (updateAt_ok (seg k 0 m) (setNode 1 (newLeaf (S m))) root u Hu) as (root2 & Hup2 & Hat). rewrite Hup in Hup2. injection Hup2 as <-.
  split; [done|]. split.
  { intros p Hp. eapply both_updateAt; [exact Hp|exact Hup|]. intros u' Hu'. rewrite Hu in Hu'. injection Hu' as <-.
    unfold child. cbn. by rewrite H1. }
  pose proof Ht as Hh. rewrite Hte in Hh. destruct (halves_plug _ _ _ _ Hh) as (_ & _ & Hmany). rewrite Hlc in Hmany.
  destruct u as [rk lh [c|] n1]; cbn [node0 node1] in *.
  - subst n1. split.
    + rewrite Hte. destruct ctx as [|o ctx]; cbn [plug]; [|destruct (plug_B k ctx l E 1) as (? & ? & ->); unfold branch; by destruct (bit k 0)].
      destruct Hr' as [_ [_ Hl0]]. apply rep_nonempty in Hl0. congruence.
    + exists m. split_and!; try done.
      * eexists. split; [exact Hat|]. done.
      * intros (u' & Hu' & _ & [? Hs]). rewrite Hu in Hu'. injection Hu' as <-. done.
  - subst n1. destruct Hr' as [_ [[-> _]|(_ & ? & _)]]; [|done]. destruct Hmany as [H0|[]]. rewrite H0 in Hlc. destruct ctx; [exact Hte|done].
Qed.

(** The first key of all, on the left of the root. *)
Lemma insert_first : t = B E E -> bit k 0 = false ->
  exists root' job lvl, insertKey (GetPath k) root = Ok (root', job, lvl) /\ inserted root' job.
Proof.
  intros He Hb. pose proof Hrep as Hr. rewrite He in Hr. destruct root as [rk lh n0 n1] eqn:Hroot.
  destruct Hr as [H1 H0]. destruct n1 as [c|]; [done|]. destruct n0 as [c|]; [by destruct H0|].
  destruct H0 as [[_ ->]|[? _]]; [|done].
  exists (Node rk zeroKey (Some (newLeaf 1)) None), None, 1. split; [|split; [|split]].
  - unfold insertKey. change 0 with (Z.of_nat 0) at 1. rewrite findLastNode_unfold, Hb by lia. cbn [child Z.b2z Z.eqb node0 Z.of_nat].
    change (0 <? 0) with false. rewrite bind_ok. unfold addLeaf. cbn [length Nat.eqb]. rewrite (pathTo_seg k 0). change (seg k 0 0) with (@nil Z). cbn [nodeAt].
    rewrite bind_ok. change (index (GetPath k) 0) with (index (GetPath k) (Z.of_nat 0)). rewrite index_path, Hb, bind_ok by lia.
    done.
  - rewrite He. cbn [tins]. rewrite Hb. split; [done|]. split; [done|]. split; [done|]. apply lookup_insert_eq.
  - intros p Hp. rewrite Hroot in Hp. destruct p as [|b p]; [destruct Hp as (u & [= <-] & [? [=]] & _)|].
    apply both_cons in Hp as (c & Hc & _). unfold child in Hc. by destruct (b =? 0).
  - done.
Qed.

(** Nodes with a single child, along the key, down to a given one. *)
Fixpoint spine (d j : nat) (bottom : SmtNode) : SmtNode :=
  match j with O => bottom | S j => setNode (Z.b2z (bit k d)) (spine (S d) j bottom) newNode end.

Lemma spine_nodeAt j : forall d bottom, (d + j <= 256)%nat -> nodeAt (seg k d j) (spine d j bottom) = Ok bottom.
Proof.
  induction j as [|j IH]; intros d bottom Hj; [done|]. rewrite seg_S by lia. cbn [nodeAt spine].
  change (match child (Z.b2z (bit k d)) (setNode (Z.b2z (bit k d)) (spine (S d) j bottom) newNode) with
          | Some c => nodeAt (seg k (S d) j) c | None => Panic end = Ok bottom).
  rewrite child_setNode. apply IH. lia.
Qed.

Lemma spine_update j f : forall d bottom, (d + j <= 256)%nat ->
  updateAt (seg k d j) f (spine d j bottom) = Ok (spine d j (f bottom)).
Proof.
  induction j as [|j IH]; intros d bottom Hj; [done|]. rewrite seg_S by lia. cbn [updateAt spine].
  set (b := Z.b2z (bit k d)). set (s := spine (S d) j bottom).
  change (match child b (setNode b s newNode) with
          | Some c => c ← updateAt (seg k (S d) j) f c; Ok (setNode b c (setNode b s newNode)) | None => Panic end =
    Ok (setNode b (spine (S d) j (f bottom)) newNode)).
  rewrite child_setNode. unfold s. rewrite IH, bind_ok, setNode_setNode by lia. done.
Qed.

Lemma spine_snoc j : forall d bottom, spine d (S j) bottom = spine d j (setNode (Z.b2z (bit k (d + j))) bottom newNode).
Proof.
  induction j as [|j IH]; intros d bottom; [by rewrite Nat.add_0_r|].
  change (spine d (S (S j)) bottom) with (setNode (Z.b2z (bit k d)) (spine (S d) (S j) bottom) newNode).
  rewrite IH, Nat.add_succ_comm. done.
Qed.

Lemma rep_spine lv' t' j : forall d bottom, rep lv' Q (d + j) t' bottom ->
  rep lv' Q d (plug k d (replicate j E) t') (spine d j bottom).
Proof.
  induction j as [|j IH]; intros d bottom Hr; [by rewrite Nat.add_0_r in Hr|].
  cbn [replicate plug spine]. assert (rep lv' Q (S d) (plug k (S d) (replicate j E) t') (spine (S d) j bottom)) as Hs
    by (apply IH; by rewrite Nat.add_succ_comm). unfold branch. destruct (bit k d); cbn; [split; [done|by left]|done].
Qed.

(** Replacing a part of the spine that hangs below a node. *)
Lemma spine_change n i bottom f R0 R c0 : (n + i <= 256)%nat -> nodeAt (seg k 0 n) R0 = Ok c0 ->
  updateAt (seg k 0 n) (fun _ => spine n i bottom) R0 = Ok R ->
  updateAt (seg k 0 (n + i)) f R = updateAt (seg k 0 n) (fun _ => spine n i (f bottom)) R0.
Proof.
  intros Hi H0 HR. rewrite seg_app by lia. cbn [Nat.add].
  destruct (updateAt_ok _ (fun _ => spine n i bottom) _ _ H0) as (R' & HR' & Hat). rewrite HR in HR'. injection HR' as <-.
  erewrite updateAt_app; [|exact Hat|by apply spine_update]. apply (updateAt_again _ _ (fun _ => spine n i (f bottom)) _ _ HR).
Qed.

Lemma grow_ok k' n j R0 c0 : (n + j < 256)%nat ->
  (forall i, (n <= i < n + j)%nat -> bit k i = bit k' i) -> bit k (n + j) <> bit k' (n + j) ->
  nodeAt (seg k 0 n) R0 = Ok c0 -> forall x i fuel R, (i + x = j)%nat -> (x <= fuel)%nat ->
  updateAt (seg k 0 n) (fun _ => spine n i newNode) R0 = Ok R ->
  exists R', growBranches fuel (drop n (GetPath k')) (GetPath k) (Z.of_nat n) (Z.of_nat i) R = Ok (Z.of_nat j, R') /\
    updateAt (seg k 0 n) (fun _ => spine n j newNode) R0 = Ok R'.
Proof.
  intros Hj Heq Hne H0. induction x as [|x IH]; intros i fuel R Hi Hf HR.
  all: assert (index (drop n (GetPath k')) (Z.of_nat i) = Ok (Z.b2z (bit k' (n + i)))) as Ha
      by (unfold index; rewrite decide_True, Nat2Z.id, lookup_drop, GetPath_lookup by lia; done).
  - replace i with j in * by lia. exists R. split; [|done]. destruct fuel; cbn [growBranches];
      rewrite Ha, bind_ok, <- Nat2Z.inj_add, index_path, bind_ok by lia;
      rewrite (proj2 (Z.eqb_neq _ _)); try done; by destruct (bit k (n + j)), (bit k' (n + j)).
  - destruct fuel as [|fuel]; [lia|]. cbn [growBranches].
    rewrite Ha, bind_ok, <- Nat2Z.inj_add, index_path, bind_ok, <- Heq, Z.eqb_refl by lia.
    rewrite pathTo_seg, (spine_change n i newNode _ R0 R c0) by (done || lia).
    destruct (updateAt_ok (seg k 0 n) (fun _ => spine n i (setNode (Z.b2z (bit k (n + i))) newNode newNode)) R0 c0 H0)
      as (R2 & HR2 & _). rewrite HR2, bind_ok, Z.add_1_r, <- Nat2Z.inj_succ.
    apply IH; [lia|lia|]. by rewrite spine_snoc.
Qed.

Section splitting.
Context (k' : NodeKey) (m j : nat) (u : SmtNode) (sibs : list SmtNode).
Context (Hu : nodeAt (seg k 0 m) root = Ok u) (Hj : (S m + j < 256)%nat) (Hsibs : length sibs = m).
Context (Heq : forall i, (S m <= i < S m + j)%nat -> bit k i = bit k' i).
Context (Hb : bit k (S m + j) = true) (Hb' : bit k' (S m + j) = false).

Definition oldLeaf : SmtNode := Node (drop (S m) (GetPath k')) zeroKey None None.
Definition movedLeaf : SmtNode := Node (drop (Z.to_nat (Z.of_nat j + 1)) (drop (S m) (GetPath k'))) zeroKey None None.
Definition fork : SmtNode := Node [] zeroKey (Some movedLeaf) (Some (newLeaf (S (S m + j)))).

Lemma below_new R0 : updateAt (seg k 0 m) (setNode (Z.b2z (bit k m)) newNode) root = Ok R0 ->
  nodeAt (seg k 0 (S m)) R0 = Ok newNode /\
  forall s, updateAt (seg k 0 (S m)) (fun _ => s) R0 = updateAt (seg k 0 m) (setNode (Z.b2z (bit k m)) s) root.
Proof.
  intros HR. set (b := Z.b2z (bit k m)) in *.
  destruct (updateAt_ok _ (setNode b newNode) _ _ Hu) as (R' & HR' & Hat). rewrite HR in HR'. injection HR' as <-.
  assert (seg k 0 (S m) = seg k 0 m ++ [b]) as Hseg.
  { replace (S m) with (m + 1)%nat by lia. rewrite seg_app by lia. f_equal. cbn [Nat.add]. by rewrite seg_S by lia. }
  rewrite Hseg. split.
  - rewrite (nodeAt_app _ _ _ _ Hat). cbn [nodeAt]. change (match child b (setNode b newNode u) with Some c => Ok c | None => Panic end = Ok newNode).
    by rewrite child_setNode.
  - intros s. rewrite (updateAt_app _ [b] (fun _ => s) R0 _ (setNode b s u) Hat).
    2: { cbn [updateAt]. change (match child b (setNode b newNode u) with
           | Some c => c ← Ok s; Ok (setNode b c (setNode b newNode u)) | None => Panic end = Ok (setNode b s u)).
         by rewrite child_setNode, bind_ok, setNode_setNode. }
    rewrite (updateAt_again _ _ (fun _ => setNode b s u) _ _ HR). by apply (updateAt_ext _ _ _ _ u).
Qed.

Lemma splitLeaf_ok : exists root', 
  splitLeaf (GetPath k) (sibs ++ [oldLeaf]) (Z.of_nat m) root =
    Ok (root', Some (mkJob (seg k 0 (S m + j)) (seg k 0 (S m + j) ++ [0])), Z.of_nat (S (S m + j))) /\
  updateAt (seg k 0 m) (setNode (Z.b2z (bit k m)) (spine (S m) j fork)) root = Ok root'.
Proof.
  unfold splitLeaf. rewrite (index_at (sibs ++ [oldLeaf]) sibs [] oldLeaf), bind_ok by (done || rewrite length_app; cbn [length]; lia).
  rewrite index_path, bind_ok by lia.
  assert ((if Z.of_nat m =? 0 then [] else pathTo (GetPath k) (Z.of_nat (length (sibs ++ [oldLeaf])) - 1)) = seg k 0 m) as ->.
  { rewrite length_app, Hsibs. cbn [length]. destruct (Z.eqb_spec (Z.of_nat m) 0) as [He|]; [by replace m with 0%nat by lia|].
    replace (Z.of_nat (m + 1) - 1) with (Z.of_nat m) by lia. apply pathTo_seg. }
  destruct (updateAt_ok _ (setNode (Z.b2z (bit k m)) newNode) _ _ Hu) as (R0 & HR0 & _). rewrite HR0, bind_ok.
  destruct (below_new R0 HR0) as [Hn0 Hset]. rewrite Z.add_1_r, <- Nat2Z.inj_succ. cbv zeta. cbn [rKey oldLeaf].
  destruct (grow_ok k' (S m) j R0 newNode Hj Heq ltac:(congruence) Hn0 j 0 257 R0) as (R1 & HR1 & HR1');
    [lia|lia|by apply updateAt_id|].
  change (Z.of_nat 0) with 0 in HR1. rewrite HR1, bind_ok.
  assert (index (drop (S m) (GetPath k')) (Z.of_nat j) = Ok (Z.b2z (bit k' (S m + j)))) as ->
    by (unfold index; rewrite decide_True, Nat2Z.id, lookup_drop, GetPath_lookup by lia; done).
  rewrite bind_ok, (Z.add_comm (Z.of_nat j) (Z.of_nat (S m))), <- Nat2Z.inj_add, index_path, bind_ok, Hb, Hb' by lia. cbn [negb orb Z.b2z Z.eqb Pos.eqb leftHash node0 node1].
  rewrite pathTo_seg. change (Node _ (leftHash oldLeaf) (node0 oldLeaf) (node1 oldLeaf)) with movedLeaf.
  rewrite (spine_change (S m) j newNode _ R0 R1 newNode) by (done || lia).
  destruct (updateAt_ok _ (fun _ => spine (S m) j (setNode 0 movedLeaf newNode)) _ _ Hn0) as (R2 & HR2 & _). rewrite HR2, bind_ok.
  rewrite (spine_change (S m) j _ _ R0 R2 newNode) by (done || lia). rewrite Z.add_1_r, <- Nat2Z.inj_succ, Nat2Z.id, Hset.
  destruct (updateAt_ok _ (setNode (Z.b2z (bit k m)) (spine (S m) j fork)) _ _ Hu) as (R3 & HR3 & _).
  exists R3. change (setNode 1 _ (setNode 0 movedLeaf newNode)) with fork. by rewrite HR3, bind_ok.
Qed.
End splitting.

Lemma rep_fork k' v' m j : k' <> k -> lv !! k' = Some (val8 v') -> bit k (S m + j) = true ->
  split (256 - S m) (S m) k v k' v' = plug k (S m) (replicate j E) (branch (S m + j) k (Leaf k v) (Leaf k' v')) ->
  rep (<[k := val8 v]> lv) Q (S m) (split (256 - S m) (S m) k v k' v') (spine (S m) j (fork k' m j)).
Proof.
  intros Hne Hv' Hb ->. apply rep_spine. unfold branch. rewrite Hb. split; [split; [done|apply lookup_insert_eq]|].
  split; [done|]. split; [|by rewrite lookup_insert_ne].
  unfold movedLeaf. rewrite drop_drop. do 2 f_equal. lia.
Qed.

(** The leaf that the key meets, and where the two part. *)
Lemma split_point m u lf ctx l r : t = plug k 0 ctx (B l r) -> length ctx = m -> rep lv Q m (B l r) u ->
  child (Z.b2z (bit k m)) u = Some lf -> isLeaf lf = true -> (m < 256)%nat ->
  exists k' v' j, (if bit k m then r else l) = Leaf k' v' /\ lf = oldLeaf k' m /\
    (S m + j < 256)%nat /\ (forall i, (S m <= i < S m + j)%nat -> bit k i = bit k' i) /\
    bit k (S m + j) = true /\ bit k' (S m + j) = false /\
    rep (<[k := val8 v]> lv) Q (S m) (tins (S m) k v (Leaf k' v')) (spine (S m) j (fork k' m j)).
Proof.
  intros Hte Hlc Hr' Hc Hlf Hm. pose proof Ht as Hh. rewrite Hte in Hh. destruct (halves_plug _ _ _ _ Hh) as (Cl & Cr & _).
  destruct Hh as (_ & _ & _ & _ & _ & Hp). pose proof (proj2 (plug_placed _ _ _ _ Hp)) as Hpm. cbn [Nat.add] in Hpm. rewrite Hlc in Hpm.
  destruct Hpm as (_ & Bl & Br & Pl & Pr).
  assert (exists k' v', (if bit k m then r else l) = Leaf k' v' /\ lf = oldLeaf k' m /\ lv !! k' = Some (val8 v') /\
    key_ok k' /\ bit k' m = bit k m /\ inT k' (B l r)) as (k' & v' & Hs & -> & Hv' & Hk' & Hbm & Hin).
  { destruct u as [rk lh n0 n1], Hr' as [H1 H0]. unfold child in Hc. destruct (bit k m) eqn:Hb; cbn in Hc; subst.
    - rewrite (rep_isLeaf _ _ _ _ _ H1 Cr) in Hlf. destruct r as [|k' v'|]; try done. destruct H1 as [-> ?], Pr.
      exists k', v'. split_and!; try done; [by apply Br|by right].
    - destruct H0 as [-> H0]. rewrite (rep_isLeaf _ _ _ _ _ H0 Cl) in Hlf. destruct l as [|k' v'|]; try done. destruct H0 as [-> ?], Pl.
      exists k', v'. split_and!; try done; [by apply Bl|by left]. }
  assert (klt k' k) as Hlt by (apply Hlast; rewrite Hte; by apply plug_inT).
  assert (agree (S m) k k') as Ha.
  { apply agree_S; [|done]. rewrite <- Hlc. apply (plug_agree k ctx 0 (B l r)); [done..|intros ? ?; lia]. }
  destruct (split_plug k Hk v k' v' (S m)) as (j & Hj & Heq & Hd & Hsplit); [done|by apply not_eq_sym, klt_ne|done|lia|].
  assert (agree (S m + j) k' k) as Haj.
  { intros i Hi. symmetry. destruct (decide (i < S m)%nat); [by apply Ha|apply Heq; lia]. }
  assert (bit k (S m + j) = true) as Hb1.
  { destruct (bit k (S m + j)) eqn:Hb1; [done|]. rewrite <- Hb1. apply (klt_bit k' k); [done..|]. by destruct (bit k' (S m + j)). }
  exists k', v', j. split_and!; try done; [rewrite Hb1 in Hd; by destruct (bit k' (S m + j))|].
  cbn [tins]. rewrite decide_False by (by apply not_eq_sym, klt_ne). apply rep_fork; [by apply klt_ne|done..].
Qed.

(** The new fork is a node with two children; other such nodes stay so. *)
Lemma fork_both m j u k' root' : nodeAt (seg k 0 m) root = Ok u -> child (Z.b2z (bit k m)) u = Some (oldLeaf k' m) ->
  (S m + j < 256)%nat -> updateAt (seg k 0 m) (setNode (Z.b2z (bit k m)) (spine (S m) j (fork k' m j))) root = Ok root' ->
  both (seg k 0 (S m + j)) root' /\ ~ both (seg k 0 (S m + j)) root /\ (forall p, both p root -> both p root').
Proof.
  intros Hu Hc Hj Hup. assert (seg k 0 (S m + j) = seg k 0 m ++ Z.b2z (bit k m) :: seg k (S m) j) as ->.
  { rewrite <- seg_S by lia. rewrite <- seg_app by lia. f_equal. lia. }
  destruct (updateAt_ok _ (setNode (Z.b2z (bit k m)) (spine (S m) j (fork k' m j))) _ _ Hu) as (R & HR & Hat).
  rewrite Hup in HR. injection HR as <-. split_and!.
  - apply (both_app _ _ _ _ Hat), both_cons. exists (spine (S m) j (fork k' m j)). split; [apply child_setNode|].
    exists (fork k' m j). split; [apply spine_nodeAt; lia|done].
  - intros Hbo. apply (both_app _ _ _ _ Hu), both_cons in Hbo as (c & Hc' & Hbo). rewrite Hc in Hc'. injection Hc' as <-.
    by apply both_childless in Hbo.
  - intros p Hp'. eapply both_updateAt; [done|exact Hup|]. intros u' Hu'. rewrite Hu in Hu'. injection Hu' as <-. rewrite Hc. by intros c [= <-].
Qed.

(** The key meets a leaf: both go below new nodes, the old leaf to the left. *)
Lemma insert_split m u sibs lf : nodeAt (seg k 0 m) root = Ok u -> (m < 256)%nat -> length sibs = m ->
  (m = 0%nat \/ isLeaf u = false) -> child (Z.b2z (bit k m)) u = Some lf -> isLeaf lf = true ->
  findLastNode (GetPath k) 0 root = Ok (sibs ++ [lf], Z.of_nat m) ->
  exists root' job lvl, insertKey (GetPath k) root = Ok (root', job, lvl) /\ inserted root' job.
Proof.
  intros Hu Hm Hl Hul Hc Hlf Hfind.
  destruct (zoom_insert m u Hu ltac:(lia)) as (ctx & t' & Hte & Hlc & Hr' & Hins').
  destruct (inner_tree m u ctx t' Hte Hlc Hr' Hul) as (l & r & ->).
  destruct (split_point m u lf ctx l r Hte Hlc Hr' Hc Hlf Hm) as (k' & v' & j & Hs & -> & Hj & Heq & Hb1 & Hb0 & Hrf).
  destruct (splitLeaf_ok k' m j u sibs Hu Hj Hl Heq Hb1 Hb0) as (root' & Hsp & Hup).
  destruct (Hins' (setNode (Z.b2z (bit k m)) (spine (S m) j (fork k' m j)))) as (root2 & Hup2 & Hrep').
  { assert (forall x, inT x (B l r) -> inT x t) as Hsub by (intros x Hx; rewrite Hte; by apply plug_inT).
    destruct u as [rk lh n0 n1], Hr' as [H1 H0]. cbn [tins]. destruct (bit k m); cbn [setNode Z.b2z Z.eqb]; rewrite Hs.
    - split; [done|]. destruct n0 as [c|]; [destruct H0 as [-> H0]; split; [done|]; apply rep_other; [done|intros; apply Hsub; by left]|].
      destruct H0 as [?|(? & _ & ? & ?)]; [by left|]. right. split_and!; try done. by eapply rep_nonempty.
    - destruct n0 as [c|]; [|done]. destruct H0 as [-> _]. split; [|done].
      destruct n1 as [c1|]; [|done]. apply rep_other; [done|intros; apply Hsub; by right]. }
  rewrite Hup in Hup2. injection Hup2 as <-. destruct (fork_both m j u k' root' Hu Hc Hj Hup) as (Hb2 & Hnb & Hboth).
  exists root', (Some (mkJob (seg k 0 (S m + j)) (seg k 0 (S m + j) ++ [0]))), (Z.of_nat (S (S m + j))). split.
  { unfold insertKey. rewrite Hfind, bind_ok. destruct (sibs ++ [oldLeaf k' m]) eqn:He; [apply app_nil in He as [_ [=]]|]. rewrite <- He.
    rewrite (index_at _ sibs [] (oldLeaf k' m)), bind_ok by (done || lia). rewrite Hlf, He. exact Hsp. }
  split; [done|]. split; [done|]. split.
  { rewrite Hte. intros He. destruct ctx as [|o ctx]; cbn [plug] in He.
    - injection He as -> ->. by destruct (bit k m).
    - destruct (plug_B k ctx l r 1) as (? & ? & HB). rewrite HB in He. unfold branch in He. by destruct (bit k 0). }
  exists (S m + j)%nat. done.
Qed.

(** Every key to the right of all others is inserted. *)
Lemma insertKey_ok : exists root' job lvl, insertKey (GetPath k) root = Ok (root', job, lvl) /\ inserted root' job.
Proof.
  destruct Ht as (l & r & He & Cl & Cr & Hp).
  destruct (findLast_ok lv Q k t 0 root l r He Hrep Cl Cr ltac:(lia) Hp) as (m & u & sibs & Hm & Hu & Hls & Hsibs & Hul & Hres).
  cbn [Nat.add] in *. change (Z.of_nat 0) with 0 in Hres. destruct (child _ u) as [lf|] eqn:Hc.
  - destruct Hres as [Hlf Hfind]. by eapply (insert_split m u sibs lf); try done; lia.
  - destruct (bit k m) eqn:Hb; [by eapply (insert_right m u sibs); try done; lia|].
    destruct (rep_zoom lv Q k m 0 t root u Hrep ltac:(lia) Hu) as (ctx & t' & Hlc & Hte & Hr' & _).
    destruct (inner_tree m u ctx t' Hte Hlc Hr' Hul) as (l' & r' & ->).
    assert (r' = E) as -> by (eapply nothing_right; [exact Hte|by rewrite Hlc]).
    assert (l' = E) as ->.
    { destruct u as [rk lh n0 n1], Hr' as [_ H0]. unfold child in Hc. cbn in Hc. subst n0. by destruct H0 as [[-> _]|(_ & ? & _)]. }
    pose proof Ht as Hh. rewrite Hte in Hh. destruct (halves_plug _ _ _ _ Hh) as (_ & _ & [H0|[]]).
    destruct ctx; [|done]. cbn in Hlc. rewrite <- Hlc in Hb. apply insert_first; [exact Hte|exact Hb].
Qed.
End insert.

(** ** Hashing a part of the tree *)

Definition hsh (x : list Z * NodeKey) : NodeKey := Hash (fst x) (snd x).
Definition enc (x : list Z * NodeKey) : NodeValue12 := ConcatArrays8AndCapacity (fst x) (snd x).

Section saving.
(** The nodes that matter: those of the resulting tree. *)
Context (N : list Z * NodeKey -> Prop).
Context (N_inj : forall x y, N x -> N y -> hsh x = hsh y -> x = y).

(** What is to be saved are nodes of the resulting tree under their hashes. *)
Definition entries_ok (kv : gmap NodeKey NodeValue12) : Prop :=
  forall h e, kv !! h = Some e -> exists x, N x /\ value_ok (fst x) /\ key_ok (snd x) /\ h = hsh x /\ e = enc x.

Definition to_save (kv : gmap NodeKey NodeValue12) (x : list Z * NodeKey) : Prop := kv !! hsh x = Some (enc x).

Definition grows (kv kv' : gmap NodeKey NodeValue12) : Prop := forall x, N x -> to_save kv x -> to_save kv' x.

Lemma grows_trans kv1 kv2 kv3 : grows kv1 kv2 -> grows kv2 kv3 -> grows kv1 kv3.
Proof. intros H1 H2 x Hx Hs. by apply H2, H1. Qed.

Lemma save_node kv i c : N (i, c) -> value_ok i -> key_ok c -> entries_ok kv ->
  entries_ok (<[Hash i c := ConcatArrays8AndCapacity i c]> kv) /\
  to_save (<[Hash i c := ConcatArrays8AndCapacity i c]> kv) (i, c) /\
  grows kv (<[Hash i c := ConcatArrays8AndCapacity i c]> kv).
Proof.
  intros Hn Hi Hc Hok. split_and!.
  - intros h e [[<- <-]|[_ He]]%lookup_insert_Some; [by exists (i, c)|by apply Hok].
  - apply lookup_insert_eq.
  - intros x Hx Hs. unfold to_save. destruct (decide (Hash i c = hsh x)) as [He|Hne].
    + rewrite (N_inj x (i, c)) by done. apply lookup_insert_eq.
    + by rewrite lookup_insert_ne.
Qed.

Lemma half_value a b : key_ok a -> key_ok b ->
  ToUintArray (fst (SetHalfValue (fst (SetHalfValue (replicate 8 None) b 1)) a 0)) = ConcatArrays4 a b.
Proof.
  intros (H0 & H1 & H2 & H3)%key_ok_words (H4 & H5 & H6 & H7)%key_ok_words. destruct a, b. cbn in *.
  unfold ToUintArray, SetHalfValue. change (Z.to_nat (0 * 4)) with 0%nat. change (Z.to_nat (1 * 4)) with 4%nat. cbn. by rewrite !bigUint64_small.
Qed.

Lemma half_value_left a : key_ok a -> ToUintArray (fst (SetHalfValue (replicate 8 None) a 0)) = ConcatArrays4 a zeroKey.
Proof.
  intros (H0 & H1 & H2 & H3)%key_ok_words. destruct a. cbn in *. unfold ToUintArray, SetHalfValue. change (Z.to_nat (0 * 4)) with 0%nat. change (Z.to_nat (1 * 4)) with 4%nat. cbn. by rewrite !bigUint64_small.
Qed.

Lemma delete_leaf lv Q d p k v n res : (d <= 256)%nat -> key_ok k -> value_ok v -> rep lv Q d (Leaf k v) n -> seg k 0 d = p ->
  (forall x, x ∈ nodes d (Leaf k v) -> N x) -> entries_ok (KvMap res) ->
  exists lv' res', deleteTreeNoSave Hash p n lv res = Ok (th d (Leaf k v), (lv', res')) /\
    (forall k', k' <> k -> lv' !! k' = lv !! k') /\ entries_ok (KvMap res') /\ grows (KvMap res) (KvMap res') /\
    forall x, x ∈ nodes d (Leaf k v) -> to_save (KvMap res') x.
Proof.
  intros Hd Hk Hv [-> Hlv] <- HN Hok. cbn [deleteTreeNoSave isLeaf]. change (Key_IsZero zeroKey) with true. cbv iota.
  assert (seg k 0 d ++ drop d (GetPath k) = GetPath k) as Hpath by (unfold seg; by rewrite drop_0, take_drop).
  rewrite Hpath, NodeKeyFromPath_GetPath, bind_ok, Hlv, seg_length by (done || lia).
  unfold createNewLeafNoSave, HashKeyAndValueByPointers. unfold val8. rewrite ToUintArray_some by apply Hv. cbn [fst].
  change (ConcatArrays4 (RemoveKeyBits k (Z.of_nat d)) (Hash v BranchCapacity)) with (leafInput Hash d k v).
  eexists _, _. split; [done|]. split; [intros k' Hne; by apply lookup_delete_ne|]. cbn [KvMap].
  assert (N (v, BranchCapacity)) as N1 by (apply HN; right; left).
  assert (N (leafInput Hash d k v, LeafCapacity)) as N2 by (apply HN; left).
  destruct (save_node (KvMap res) v BranchCapacity) as (E1 & S1 & G1); [done|done|apply zeroKey_ok|done|].
  destruct (save_node (<[Hash v BranchCapacity := ConcatArrays8AndCapacity v BranchCapacity]> (KvMap res))
    (leafInput Hash d k v) LeafCapacity N2) as (E2 & S2 & G2); [by apply leafInput_ok|apply LeafCapacity_ok|done|].
  split; [done|]. split; [by eapply grows_trans|]. intros x Hx. cbn in Hx.
  apply elem_of_cons in Hx as [->|Hx]; [done|]. apply list_elem_of_singleton in Hx as ->. by apply G2.
Qed.

(** The result of hashing a part of the tree: all its nodes are to be saved or known,
    and only the values of its own leaves are taken. *)
Definition hashed (known : list Z * NodeKey -> Prop) (d : nat) (t : tree) (lv : leafValues) (res : JobResult)
    (lv' : leafValues) (res' : JobResult) : Prop :=
  (forall k, ~ inT k t -> lv' !! k = lv !! k) /\ entries_ok (KvMap res') /\ grows (KvMap res) (KvMap res') /\
  forall x, x ∈ nodes d t -> to_save (KvMap res') x \/ known x.

Section parts.
Context (known : list Z * NodeKey -> Prop) (Q : nat -> tree -> Prop) (HQ : forall d t x, Q d t -> x ∈ nodes d t -> known x).

Definition deletes (t : tree) : Prop := forall d p n lv res, rep lv Q d t n -> placed d t -> canonical t -> (d <= 256)%nat ->
  (forall k, inT k t -> seg k 0 d = p) -> (forall x, x ∈ nodes d t -> N x) -> entries_ok (KvMap res) ->
  exists lv' res', deleteTreeNoSave Hash p n lv res = Ok (th d t, (lv', res')) /\ hashed known d t lv res lv' res'.

Lemma seg_child d p k b : (d < 256)%nat -> seg k 0 d = p -> bit k d = b -> seg k 0 (S d) = p ++ [Z.b2z b].
Proof. intros Hd <- <-. replace (S d) with (d + 1)%nat by lia. by rewrite seg_app, seg_S by lia. Qed.

Lemma hashed_empty d lv res : entries_ok (KvMap res) -> hashed known d E lv res lv res.
Proof. intros Hok. split_and!; [done..|by intros x|]. intros x Hx. by apply not_elem_of_nil in Hx. Qed.

(** The left half, which may have been hashed before. *)
Lemma delete_left l r d p n lv res : deletes l -> rep lv Q d (B l r) n -> placed d (B l r) -> canonical (B l r) -> (d <= 256)%nat ->
  (forall k, inT k (B l r) -> seg k 0 d = p) -> (forall x, x ∈ nodes d (B l r) -> N x) -> entries_ok (KvMap res) ->
  exists lv' res', (match node0 n with
      | None => Ok (leftHash n, (lv, res))
      | Some c => if negb (Key_IsZero (leftHash n)) then Err "node has previously deleted left part"
                  else deleteTreeNoSave Hash (p ++ [0]) c lv res
      end) = Ok (th (S d) l, (lv', res')) /\ hashed known (S d) l lv res lv' res'.
Proof.
  intros IHl Hr (Hd' & Bl & _ & Pl & _) (Cl & _) Hd Hseg HN Hok. destruct n as [rk lh n0 n1], Hr as [_ H0]. cbn [node0 leftHash].
  destruct n0 as [c|].
  - destruct H0 as [-> H0]. change (negb (Key_IsZero zeroKey)) with false. cbv iota.
    apply IHl; [done..|lia| | |done].
    + intros k Hi. apply (seg_child d p k false); [lia|by apply Hseg; left|by apply Bl].
    + intros x Hx. apply HN. cbn. right. apply elem_of_app. by left.
  - exists lv, res. destruct H0 as [[-> ->]|(_ & _ & -> & HQl)]; (split; [done|]); [by apply hashed_empty|].
    split_and!; [done..|by intros x|]. intros x Hx. right. by apply (HQ (S d) l).
Qed.

(** The right half goes into the upper four words of the node. *)
Lemma delete_right l r d p n lv res lv0 : deletes r -> rep lv0 Q d (B l r) n -> (forall k, ~ inT k l -> lv !! k = lv0 !! k) ->
  placed d (B l r) -> canonical (B l r) -> (d <= 256)%nat ->
  (forall k, inT k (B l r) -> seg k 0 d = p) -> (forall x, x ∈ nodes d (B l r) -> N x) -> entries_ok (KvMap res) ->
  exists tot lv' res', (match node1 n with
      | None => Ok (replicate 8 None, (lv, res))
      | Some c => r ← deleteTreeNoSave Hash (p ++ [1]) c lv res; Ok (fst (SetHalfValue (replicate 8 None) (fst r) 1), snd r)
      end) = Ok (tot, (lv', res')) /\
    ToUintArray (fst (SetHalfValue tot (th (S d) l) 0)) = ConcatArrays4 (th (S d) l) (th (S d) r) /\
    hashed known (S d) r lv res lv' res'.
Proof.
  intros IHr Hr Hlv (Hd' & Bl & Br & Pl & Pr) (Cl & Cr & _) Hd Hseg HN Hok. destruct n as [rk lh n0 n1], Hr as [H1 _]. cbn [node1].
  destruct n1 as [c|].
  - destruct (IHr (S d) (p ++ [1]) c lv res) as (lv2 & res2 & -> & Hh); [|done..|lia| | |done|].
    + eapply rep_mono; [|done|exact H1]. intros k Hi. apply Hlv. intros Hi'. apply Bl in Hi'. apply Br in Hi. congruence.
    + intros k Hi. apply (seg_child d p k true); [lia|by apply Hseg; right|by apply Br].
    + intros x Hx. apply HN. cbn. right. apply elem_of_app. by right.
    + eexists _, lv2, res2. rewrite bind_ok. split; [done|]. split; [apply half_value; by apply th_ok|done].
  - subst r. exists (replicate 8 None), lv, res. split; [done|]. split; [apply half_value_left; by apply th_ok|by apply hashed_empty].
Qed.

(** A part of the tree is hashed to the hash of what it stands for. *)
Lemma deletePart_ok t : deletes t.
Proof.
  induction t as [|k v|l IHl r IHr]; intros d p n lv res Hr Hp Hc Hd Hseg HN Hok; [done| |].
  - destruct Hp as [Hk Hv]. destruct (delete_leaf lv Q d p k v n res) as (lv' & res' & He & Hlv & Hok' & Hg & Hs); [done..|by apply Hseg|done|done|].
    exists lv', res'. split; [done|]. split_and!; [intros k' Hne; by apply Hlv|done..|]. intros x Hx. left. by apply Hs.
  - assert (isLeaf n = false) as Hlf by (by apply (rep_isLeaf _ _ _ _ _ Hr)).
    destruct (delete_left l r d p n lv res IHl) as (lv1 & res1 & Hleft & Hlv1 & Hok1 & Hg1 & Hs1); [done..|].
    destruct (delete_right l r d p n lv1 res1 lv IHr Hr Hlv1) as (tot & lv2 & res2 & Hright & Htot & Hlv2 & Hok2 & Hg2 & Hs2); [done..|].
    destruct Hc as (Cl & Cr & _), Hp as (Hd' & Bl & Br & Pl & Pr).
    destruct (save_node (KvMap res2) (ConcatArrays4 (th (S d) l) (th (S d) r)) BranchCapacity) as (E3 & S3 & G3);
      [apply HN; left|apply concat4_ok; by apply th_ok|apply zeroKey_ok|done|].
    destruct n as [rk lh n0 n1]. cbn [node0 node1 leftHash] in Hleft, Hright.
    cbn [deleteTreeNoSave]. rewrite Hlf, Hleft, bind_ok, Hright, bind_ok. cbv zeta. unfold HashKeyAndValueByPointers. rewrite Htot.
    eexists lv2, _. split; [done|]. split_and!; cbn [KvMap].
    + intros k Hni. cbn in Hni. rewrite Hlv2, Hlv1 by tauto. done.
    + done.
    + intros x Hx Hsv. by apply G3, Hg2, Hg1.
    + intros x [->|[Hx|Hx]%elem_of_app]%elem_of_cons; [by left|..].
      * destruct (Hs1 x Hx) as [Hsv|]; [left|by right]. assert (N x) by (apply HN; cbn; right; apply elem_of_app; by left). by apply G3, Hg2.
      * destruct (Hs2 x Hx) as [Hsv|]; [left|by right]. assert (N x) by (apply HN; cbn; right; apply elem_of_app; by right). by apply G3.
Qed.
End parts.
End saving.
End create.
