(* ===== verification/SmtCreateRuns.v ===== *)
(** * Every run of the bulk creation ends with the right tree

    The three goroutines of [SmtCreate] under every schedule: the invariant of their
    common state, that one of them can always go on until the result is there, and
    that there is no run without end. *)
From stdpp Require Import sorting.
From S2P Require Import Prelude SmtUtils SmtTree SmtDb Smt SmtRefine SmtCreate SmtCreateTheory.

(** Writing nodes, leaf keys and the depth does not change the values of accounts. *)
Class AccountLaws (D : Type) `{SmtDb D} `{AccountDb D} := {
  law_account_Insert d k v d' a : db_Insert k v d = Ok d' -> db_GetAccountValue d' a = db_GetAccountValue d a;
  law_account_InsertHashKey d h k d' a : db_InsertHashKey h k d = Ok d' -> db_GetAccountValue d' a = db_GetAccountValue d a;
  law_account_SetDepth d n d' a : db_SetDepth n d = Ok d' -> db_GetAccountValue d' a = db_GetAccountValue d a;
}.

#[export] Instance MemDb_account_laws : AccountLaws MemDb.
Proof. split; intros * [= <-]; done. Qed.

Section runs.
Context {D : Type} `{SmtDb D} `{!SmtDbLaws D} `{AccountDb D} `{!AccountLaws D}.
Context (Hash : list Z -> NodeKey -> NodeKey) (Hash_range : forall i c, key_ok (Hash i c)).
Context (order : forall V, gmap NodeKey V -> list (NodeKey * V)).
Context (order_ok : forall V (m : gmap NodeKey V), order V m ≡ₚ map_to_list m).

(** ** Saving a result *)

Section saving.
Context (N : list Z * NodeKey -> Prop).
Context (N_inj : forall x y, N x -> N y -> hsh Hash x = hsh Hash y -> x = y).

(** Nothing that matters is lost, and the accounts and the root are as before. *)
Record saves (d d' : D) : Prop := {
  saves_keep x : N x -> has Hash d x -> has Hash d' x;
  saves_account a : db_GetAccountValue d' a = db_GetAccountValue d a;
  saves_depth : db_ok d -> db_ok d';
}.

#[local] Instance saves_preorder : PreOrder saves.
Proof.
  split; [by split|]. intros a b c [K1 A1 D1] [K2 A2 D2]. split; [auto| |auto]. intros x. by rewrite A2.
Qed.

Lemma insertHashKeys_ok l : forall d, exists d', insertAll db_InsertHashKey l d = Ok d' /\ saves d d'.
Proof.
  induction l as [|[h k] l IH]; intros d; [by exists d|]. cbn [insertAll].
  destruct (law_InsertHashKey d h k) as (d1 & Hi & [Hs Hdep]). rewrite Hi, bind_ok. destruct (IH d1) as (d' & He & Hd').
  exists d'. split; [done|]. etrans; [|exact Hd']. split; [| |done].
  - intros x _ Hx. unfold has in *. by rewrite Hs.
  - intros a. by eapply law_account_InsertHashKey.
Qed.

Lemma inserts_ok l : forall d,
  (forall h e, (h, e) ∈ l -> exists x, N x /\ value_ok (fst x) /\ key_ok (snd x) /\ h = hsh Hash x /\ e = enc x) ->
  exists d', insertAll db_Insert l d = Ok d' /\ saves d d' /\
    forall h e x, (h, e) ∈ l -> N x -> h = hsh Hash x -> has Hash d' x.
Proof.
  induction l as [|[h e] l IH]; intros d Hl; [exists d; split_and!; [done..|]; by intros ? ? ? ?%not_elem_of_nil|]. cbn [insertAll].
  destruct (Hl h e ltac:(left)) as (x & Hx & Hv & Hc & -> & ->).
  destruct (law_Insert d (hsh Hash x) (enc x)) as (d1 & Hi & Hg & Ho & Hdep); [apply Hash_range|by apply concat8_ok|].
  rewrite Hi, bind_ok. destruct (IH d1) as (d' & He & Hd' & Hin); [intros; apply Hl; by right|].
  assert (has Hash d1 x) as Hx1 by exact Hg. exists d'. split; [done|]. split.
  - etrans; [|exact Hd']. split; [|intros a; by eapply law_account_Insert|done]. intros y Hy Hhy.
    destruct (decide (hsh Hash y = hsh Hash x)) as [Heq|Hne]; [by rewrite (N_inj y x)|].
    unfold has in *. by rewrite Ho by (done || apply Hash_range).
  - intros h' e' y [Heq|Hy]%elem_of_cons HNy Hh; [|by eapply Hin]. apply pair_equal_spec in Heq as [-> _].
    rewrite <- (N_inj x y) by done. by eapply saves_keep.
Qed.

Lemma Save_ok res d : entries_ok Hash N (KvMap res) -> exists d', Save order res d = Ok d' /\ saves d d' /\
  forall x, N x -> to_save Hash (KvMap res) x -> has Hash d' x.
Proof.
  intros Hok. unfold Save. destruct (insertHashKeys_ok (order _ (LeafsKvMap res)) d) as (d1 & -> & Hs1). rewrite bind_ok.
  destruct (inserts_ok (order _ (KvMap res)) d1) as (d2 & He & Hs2 & Hin).
  { intros h e Hhe. rewrite order_ok, elem_of_map_to_list in Hhe. by apply Hok. }
  exists d2. split; [done|]. split; [by etrans|]. intros x Hx Hsv. apply (Hin (hsh Hash x) (enc x)); [|done..].
  by rewrite order_ok, elem_of_map_to_list.
Qed.

Lemma updateDepth_saves n d : db_ok d -> exists d', updateDepth n d = Ok d' /\ saves d d'.
Proof.
  intros Hnp. destruct (updateDepth_ok n d Hnp) as (d' & Hd & Hs & Hdep). exists d'. split; [done|].
  split; [intros x _ Hx; unfold has in *; by rewrite Hs| |done].
  intros a. unfold updateDepth in Hd. destruct (db_GetDepth d) as [o|e|]; [rewrite bind_ok in Hd..|done]; cbv zeta in Hd.
  all: destruct (_ <? _); [|by injection Hd as <-].
  all: destruct (law_SetDepth d (u8 (Z.land (if 255 <? n then 255 else n) 0xFF))) as (d2 & Hd2 & _).
  all: rewrite Hd2 in Hd; injection Hd as <-; by eapply law_account_SetDepth.
Qed.
End saving.

(** ** The tree of the keys inserted so far *)

Lemma halves_empty : halves_ok (B E E).
Proof. exists E, E. split_and!; try done. cbn. split_and!; [lia|done..]. Qed.

Lemma tins_halves k v t : key_ok k -> value_ok v -> halves_ok t -> halves_ok (tins 0 k v t).
Proof.
  intros Hk Hv (l & r & -> & Cl & Cr & Hp). destruct Hp as (Hd & Bl & Br & Pl & Pr). cbn [tins].
  assert (forall t' b, bit k 0 = b -> (forall k', inT k' t' -> bit k' 0 = b) -> under 1 k t') as Hu.
  { intros t' b Hb Ht' k' Hi j Hj. replace j with 0%nat by lia. rewrite Hb. symmetry. by apply Ht'. }
  destruct (bit k 0) eqn:Hb.
  - specialize (Hu r true eq_refl Br). destruct (tins_ok k v r 1) as (P' & C' & _); [done..|lia|done|done|done|].
    exists l, (tins 1 k v r). split_and!; try done. cbn. split_and!; try done.
    intros k' Hi. apply tins_inT in Hi as [->|Hi]; [done|by apply Br|done..|lia|done|done].
  - specialize (Hu l false eq_refl Bl). destruct (tins_ok k v l 1) as (P' & C' & _); [done..|lia|done|done|done|].
    exists (tins 1 k v l), r. split_and!; try done. cbn. split_and!; try done.
    intros k' Hi. apply tins_inT in Hi as [->|Hi]; [done|by apply Bl|done..|lia|done|done].
Qed.

Context (val : NodeKey -> list Z).

Definition treeOf (done : list NodeKey) : tree := foldl (fun t k => tins 0 k (val k) t) (B E E) done.

Definition pairs_ok (l : list NodeKey) : Prop := Forall (fun k => key_ok k /\ value_ok (val k)) l.

Lemma treeOf_snoc done k : treeOf (done ++ [k]) = tins 0 k (val k) (treeOf done).
Proof. unfold treeOf. by rewrite foldl_snoc. Qed.

Lemma treeOf_halves done : pairs_ok done -> halves_ok (treeOf done).
Proof.
  induction done as [|k done IH] using rev_ind; intros Hok; [apply halves_empty|]. rewrite treeOf_snoc.
  apply Forall_app in Hok as [Hok [[Hk Hv] _]%Forall_cons]. apply tins_halves; auto.
Qed.

Lemma treeOf_get done k : pairs_ok done -> tget 0 k (treeOf done) = if decide (k ∈ done) then Some (val k) else None.
Proof.
  induction done as [|k1 done IH] using rev_ind; intros Hok; [cbn; by destruct (bit k 0)|]. rewrite treeOf_snoc.
  apply Forall_app in Hok as [Hok [[Hk Hv] _]%Forall_cons]. destruct (treeOf_halves done Hok) as (l & r & He & _ & _ & Hp).
  rewrite tins_get, IH by (done || lia || apply under_0). destruct (decide (k = k1)) as [->|Hne].
  - rewrite decide_True; [done|]. apply elem_of_app. right. left.
  - destruct (decide (k ∈ done)) as [Hin|Hni].
    + rewrite decide_True; [done|]. apply elem_of_app. by left.
    + rewrite decide_False; [done|]. intros [?|?%list_elem_of_singleton]%elem_of_app; done.
Qed.

Lemma treeOf_inT done k : pairs_ok done -> inT k (treeOf done) <-> k ∈ done.
Proof.
  intros Hok. pose proof (treeOf_get done k Hok) as Hg. destruct (treeOf_halves done Hok) as (l & r & He & _ & _ & Hp). split.
  - intros Hi. destruct (inT_tget k _ 0 Hp Hi) as [v Hv]. rewrite Hg in Hv. by destruct (decide (k ∈ done)).
  - intros Hin. rewrite decide_True in Hg by done. by apply tget_inT in Hg.
Qed.

(** The tree that is stored: a branch over a single leaf is that leaf. *)
Definition closed (t : tree) : tree := match t with B l r => mkB l r | _ => t end.

Lemma closed_ok t : halves_ok t -> tree_ok (closed t) /\ forall k, tget 0 k (closed t) = tget 0 k t.
Proof.
  intros (l & r & -> & Cl & Cr & Hp). cbn [closed]. split; [split|].
  - by apply mkB_placed.
  - destruct (mkB_cases l r Cl Cr) as (? & _). done.
  - intros k. by apply mkB_get.
Qed.

Lemma closed_many done k1 k2 : pairs_ok done -> k1 ∈ done -> k2 ∈ done -> k1 <> k2 ->
  closed (treeOf done) = treeOf done.
Proof.
  intros Hok H1 H2 Hne. apply treeOf_inT in H1, H2; [|done..]. destruct (treeOf_halves done Hok) as (l & r & He & _).
  rewrite He in *. cbn in H1, H2. destruct l, r; cbn in *; try done; try tauto; exfalso; intuition congruence.
Qed.

(** ** Left parts are final *)

Lemma left_tins kj k v l : klt kj k -> forall ctx d r, agree d kj k -> bit kj (d + length ctx) = true ->
  exists ctx' r', length ctx' = length ctx /\ tins d k v (plug kj d ctx (B l r)) = plug kj d ctx' (B l r').
Proof.
  intros Hlt. induction ctx as [|o ctx IH]; intros d r Ha Hb; cbn [length plug] in *.
  - rewrite Nat.add_0_r in Hb. exists [], (tins (S d) k v r). cbn. by rewrite (klt_bit kj k d).
  - rewrite Nat.add_succ_r in Hb. destruct (decide (bit k d = bit kj d)) as [He|Hne].
    + destruct (IH (S d) r) as (ctx' & r' & Hl & Ht); [by apply agree_S|done|]. exists (o :: ctx'), r'. cbn [length plug].
      rewrite Hl, <- Ht. split; [done|]. unfold branch. by destruct (bit kj d); cbn [tins]; rewrite He.
    + exists (tins (S d) k v o :: ctx), r. cbn [length plug]. split; [done|]. unfold branch.
      destruct (bit kj d), (bit k d) eqn:Hk; cbn [tins]; rewrite ?Hk; done.
Qed.

Lemma left_final kj l rest : forall done ctx r, treeOf done = plug kj 0 ctx (B l r) -> bit kj (length ctx) = true ->
  Forall (klt kj) rest -> exists ctx' r', length ctx' = length ctx /\ treeOf (done ++ rest) = plug kj 0 ctx' (B l r').
Proof.
  induction rest as [|k rest IH]; intros done ctx r Ht Hb Hr; [exists ctx, r; by rewrite app_nil_r|].
  apply Forall_cons in Hr as [Hk Hr].
  destruct (left_tins kj k (val k) l Hk ctx 0 r) as (ctx1 & r1 & Hl1 & Ht1); [intros ? ?; lia|done|].
  destruct (IH (done ++ [k]) ctx1 r1) as (ctx2 & r2 & Hl2 & Ht2); [by rewrite treeOf_snoc, Ht|by rewrite Hl1|done|].
  exists ctx2, r2. split; [congruence|]. by rewrite cons_middle, app_assoc.
Qed.

Lemma nodes_left kj ctx l r x : x ∈ nodes Hash (S (length ctx)) l -> x ∈ nodes Hash 0 (plug kj 0 ctx (B l r)).
Proof. intros Hx. apply nodes_plug_sub. cbn [Nat.add nodes]. right. apply elem_of_app. by left. Qed.

Lemma plug_other_bit k ctx : forall d t i o k', placed d (plug k d ctx t) -> ctx !! i = Some o -> inT k' o ->
  bit k' (d + i) = negb (bit k (d + i)).
Proof.
  induction ctx as [|o1 ctx IH]; intros d t i o k' Hp Hi Hk; [done|]. cbn [plug] in Hp. apply placed_branch in Hp as (_ & Hp & _ & Ho).
  destruct i as [|i]; [injection Hi as ->; rewrite Nat.add_0_r; by apply Ho|]. rewrite Nat.add_succ_r. by apply (IH (S d) t i o).
Qed.

(** ** Running a job *)

Definition job_ok (done : list NodeKey) (root : SmtNode) (j : Job) : Prop :=
  exists kj m, kj ∈ done /\ (m < 256)%nat /\ bit kj m = true /\ j = mkJob (seg kj 0 m) (seg kj 0 m ++ [0]) /\
    both (seg kj 0 m) root.

Section job.
Context (N : list Z * NodeKey -> Prop).
Context (N_inj : forall x y, N x -> N y -> hsh Hash x = hsh Hash y -> x = y).
Context (known : list Z * NodeKey -> Prop) (Q : nat -> tree -> Prop).
Context (HQ : forall d t x, Q d t -> x ∈ nodes Hash d t -> known x).

Lemma runJob_ok done rest lv root j : pairs_ok done -> rep Hash lv Q 0 (treeOf done) root -> job_ok done root j ->
  (forall k1 k2, k1 ∈ done -> k2 ∈ rest -> klt k1 k2) -> (forall x, x ∈ nodes Hash 0 (treeOf (done ++ rest)) -> N x) ->
  exists root' lv' res l d, runJob Hash j root lv = Ok (root', lv', inr res) /\ entries_ok Hash N (KvMap res) /\
    (forall x, x ∈ nodes Hash d l -> N x /\ (to_save Hash (KvMap res) x \/ known x)) /\
    (forall Q' : nat -> tree -> Prop, (forall d t, Q d t -> Q' d t) -> Q' d l -> rep Hash lv' Q' 0 (treeOf done) root') /\
    (forall p, Forall is_bit p -> both p root -> p <> nodeToDelFrom j -> ~ (nodeToDelFrom j ++ [0]) `prefix_of` p -> both p root').
Proof.
  intros Hok Hr (kj & m & Hkj & Hm & Hb & -> & u & Hu & [c0 Hc0] & [c1 Hc1]) Hlt HN. unfold runJob. cbn [nodeToDelFrom pathToDeleteFrom].
  rewrite Hu, bind_ok, Hc0.
  destruct (rep_zoom Hash lv Q kj m 0 _ root u Hr ltac:(lia) Hu) as (ctx & t' & Hlc & Hte & Hr' & Hup). cbn [Nat.add] in Hr'.
  destruct t' as [|k' v'|l r]; [done|by destruct Hr' as [-> _]|]. destruct u as [rk lh n0 n1]. cbn in Hc0, Hc1. subst n0 n1.
  destruct Hr' as [Hr1 [-> Hr0]]. pose proof (treeOf_halves done Hok) as Hh. rewrite Hte in Hh.
  destruct (halves_plug _ _ _ _ Hh) as (Cl & _). destruct Hh as (_ & _ & _ & _ & _ & Hp).
  pose proof (proj2 (plug_placed _ _ _ _ Hp)) as Hpm. rewrite Hlc in Hpm. cbn [Nat.add] in Hpm. destruct Hpm as (_ & Bl & Br & Pl & Pr).
  assert (forall x, x ∈ nodes Hash (S m) l -> N x) as HNl.
  { intros x Hx. apply HN. destruct (left_final kj l rest done ctx r Hte) as (ctx' & r' & Hl' & ->); [by rewrite Hlc| |].
    - apply Forall_forall. intros k Hk. by apply Hlt.
    - apply nodes_left. by rewrite Hl', Hlc. }
  destruct (deletePart_ok Hash Hash_range N N_inj known Q HQ l (S m) (seg kj 0 m ++ [0]) c0 lv NewCalcAndPrepareJobResult)
    as (lv' & res & -> & Hlv & Hent & _ & Hsv); [done..|lia| |done|by intros h e|].
  { intros k Hk. assert (agree m kj k) as Ha.
    { rewrite <- Hlc. apply (plug_agree kj ctx 0 (B l r)); [done|by left|intros ? ?; lia]. }
    replace (S m) with (m + 1)%nat by lia. rewrite seg_app, <- (seg_ext kj k 0 m), seg_S by (done || lia). cbn. by rewrite (Bl k Hk). }
  assert (forall Q' : nat -> tree -> Prop, (forall d t, Q d t -> Q' d t) -> Q' (S m) l -> exists root',
    updateAt (seg kj 0 m) (dropLeft (th Hash (S m) l)) root = Ok root' /\ rep Hash lv' Q' 0 (treeOf done) root') as Hrep.
  { intros Q' HQ' Hl. rewrite Hte. apply Hup; [|intros i o k' Hi Hk'; apply Hlv; intros Hk''|done].
    - cbn. split; [eapply rep_mono; [|exact HQ'|exact Hr1]; intros k' Hk'; apply Hlv; intros Hk''; apply Bl in Hk''; apply Br in Hk'; congruence|].
      right. split_and!; try done; by eapply rep_nonempty.
    - assert (agree (length ctx) kj k') as Ha by (apply (plug_agree kj ctx 0 (B l r)); [done|by left|intros ? ?; lia]).
      pose proof (plug_other_bit _ _ _ _ _ _ _ Hp Hi Hk') as Hbit. cbn [Nat.add] in Hbit. rewrite <- (Ha i) in Hbit by by eapply lookup_lt_Some.
      by destruct (bit kj i). }
  destruct (updateAt_ok _ (dropLeft (th Hash (S m) l)) _ _ Hu) as (root' & Hroot & _).
  change (fun n : SmtNode => Node (rKey n) (th Hash (S m) l) None (node1 n)) with (dropLeft (th Hash (S m) l)). rewrite Hroot, bind_ok.
  exists root', lv', res, l, (S m). split_and!; [done|done|by intros x Hx; split; [apply HNl|apply Hsv]| |].
  - intros Q' HQ' Hl. destruct (Hrep Q' HQ' Hl) as (root2 & Hroot2 & Hrep2). rewrite Hroot in Hroot2. by injection Hroot2 as <-.
  - intros p Hbits Hbo Hne Hpre. eapply both_dropLeft; [done| |exact Hbo|exact Hroot|done|done].
    apply seg_bits.
Qed.
End job.

(** ** The invariant *)

Section schedule.
Context (ks : list NodeKey) (ks_sorted : StronglySorted klt ks) (ks_ok : pairs_ok ks).

Definition result : tree := closed (treeOf ks).

Definition matters (x : list Z * NodeKey) : Prop := x ∈ nodes Hash 0 result.

Context (no_collision : collision_free Hash (nodes Hash 0 result)).

Lemma matters_inj x y : matters x -> matters y -> hsh Hash x = hsh Hash y -> x = y.
Proof. apply no_collision. Qed.

Lemma sorted_before done rest k1 k2 : ks = done ++ rest -> k1 ∈ done -> k2 ∈ rest -> klt k1 k2.
Proof. intros He. rewrite He in ks_sorted. by apply StronglySorted_app_1_elem_of. Qed.

(** Jobs that are not run yet, results that are not saved yet. *)
Definition pending (b : Bulk (D := D)) : list Job :=
  jobs b ++ match builder b with Sending j => [j] | _ => [] end.
Definition made (b : Bulk (D := D)) : list (string + JobResult) :=
  jobResults b ++ match worker b with Holding r => [r] | _ => [] end.

(** A node is in the store, or about to be saved. *)
Definition known (d : D) (rs : list (string + JobResult)) (x : list Z * NodeKey) : Prop :=
  has Hash d x \/ exists res, inr res ∈ rs /\ to_save Hash (KvMap res) x.

Definition gone (d : D) (rs : list (string + JobResult)) (depth : nat) (t : tree) : Prop :=
  forall x, x ∈ nodes Hash depth t -> matters x /\ known d rs x.

(** A later job is not at, and not to the left of, the place of an earlier one. *)
Definition apart (j1 j2 : Job) : Prop :=
  nodeToDelFrom j2 <> nodeToDelFrom j1 /\ ~ (nodeToDelFrom j1 ++ [0]) `prefix_of` nodeToDelFrom j2.

Definition len {A} (l : list A) : Z := Z.of_nat (length l).

Definition builder_ok (b : Bulk (D := D)) : Prop :=
  match builder b with BuildFailed _ => False | Built => todo b = [] | _ => True end.

Definition companion_ok (done : list NodeKey) (received : Z) (b : Bulk (D := D)) : Prop :=
  match companion b with
  | Starting => True
  | Reading limit =>
      lastReadAccountValueIndex b <= limit <= len ks /\ limit <= len done + accountValuesSize /\
      (limit = len ks \/ accountValuesSize + received <= limit)
  | Waiting => lastReadAccountValueIndex b = len ks \/ accountValuesSize + received <= lastReadAccountValueIndex b
  | Saved => worker b = Stopped /\ jobResults b = []
  | SaveFailed _ => False
  end.

(** [done] are the keys inserted so far, [received] counts the results saved so far. *)
Record inv (done : list NodeKey) (received : Z) (b : Bulk (D := D)) : Prop := {
  inv_keys : ks = done ++ todo b;
  inv_rep : rep Hash (leafValueMap b) (gone (smtDb b) (made b)) 0 (treeOf done) (rootNode b);
  inv_jobs : Forall (job_ok done (rootNode b)) (pending b);
  inv_apart : StronglySorted apart (pending b);
  inv_results : Forall (fun r => exists res, r = inr res /\ entries_ok Hash matters (KvMap res)) (made b);
  inv_count : 0 <= received /\ received + len (made b) + len (pending b) = Z.max 0 (len done - 1);
  inv_values : accountValuesReadChan b =
    map (fun k => Some (val8 (val k))) (take (Z.to_nat (lastReadAccountValueIndex b - len done)) (todo b));
  inv_read : len done <= lastReadAccountValueIndex b <= len ks /\
    lastReadAccountValueIndex b <= len done + accountValuesSize /\
    unread b = drop (Z.to_nat (lastReadAccountValueIndex b)) ks;
  inv_accounts : forall k, k ∈ ks -> db_GetAccountValue (smtDb b) k = Ok (val8 (val k));
  inv_depth : db_ok (smtDb b);
  inv_builder : builder_ok b;
  inv_worker : worker b = Stopped -> builder b = Built /\ jobs b = [];
  inv_companion : companion_ok done received b;
}.

Lemma inv_chan done received b : inv done received b ->
  len (accountValuesReadChan b) = lastReadAccountValueIndex b - len done.
Proof.
  intros I. rewrite (inv_values _ _ _ I). unfold len. rewrite length_map, length_take.
  destruct (inv_read _ _ _ I) as ((? & Hr) & _). pose proof (inv_keys _ _ _ I) as Hk.
  assert (len ks = len done + len (todo b)) by (unfold len; rewrite Hk, length_app; lia). unfold len in *. lia.
Qed.

Lemma gone_mono d d' rs rs' depth t : (forall x, matters x -> known d rs x -> known d' rs' x) ->
  gone d rs depth t -> gone d' rs' depth t.
Proof. intros Hk Hg x Hx. destruct (Hg x Hx). auto. Qed.

Lemma known_saves d d' rs x : saves matters d d' -> matters x -> known d rs x -> known d' rs x.
Proof. intros Hs Hm [Hh|Hr]; [left; by apply (saves_keep _ _ _ Hs)|by right]. Qed.

Lemma sorted_snoc {A} (R : A -> A -> Prop) l x : StronglySorted R l -> (forall y, y ∈ l -> R y x) -> StronglySorted R (l ++ [x]).
Proof.
  induction 1 as [|y l Hs IH Hy]; intros Hx; cbn; [by repeat constructor|]. constructor; [apply IH; intros; apply Hx; by right|].
  apply Forall_app. split; [done|]. constructor; [apply Hx; left|constructor].
Qed.

Lemma prefix_seg a k m m2 : (m < 256)%nat -> (m2 <= 256)%nat -> (seg a 0 m ++ [0]) `prefix_of` seg k 0 m2 ->
  agree m a k /\ bit k m = false.
Proof.
  intros Hm Hm2 [rest He]. pose proof (seg_length a 0 m ltac:(lia)) as Hla. pose proof (seg_length k 0 m2 ltac:(lia)) as Hlk.
  assert (m < m2)%nat as Hlt by (rewrite He, !length_app in Hlk; cbn in Hlk; lia).
  assert (seg k 0 m2 !! m = Some 0) as Hl by (rewrite He, <- app_assoc, lookup_app_r, Hla, Nat.sub_diag by lia; done).
  split.
  - apply seg_agree; [lia|]. assert (take m (seg k 0 m2) = seg k 0 m) as <- by (unfold seg; rewrite take_take; f_equal; lia).
    by rewrite He, <- app_assoc, take_app_length' by lia.
  - unfold seg in Hl. rewrite drop_0, lookup_take_lt, GetPath_lookup in Hl by lia. injection Hl. by destruct (bit k m).
Qed.

Lemma job_apart done root k m j : job_ok done root j -> (forall k', k' ∈ done -> klt k' k) -> (m < 256)%nat ->
  ~ both (seg k 0 m) root -> apart j (mkJob (seg k 0 m) (seg k 0 m ++ [0])).
Proof.
  intros (kj & mj & Hkj & Hmj & Hb & -> & Hbo) Hlt Hm Hn. split; cbn [nodeToDelFrom].
  - intros He. by rewrite He in Hn.
  - intros [Ha Hb']%prefix_seg; [|done|lia]. by rewrite (klt_bit kj k mj) in Hb' by auto.
Qed.

Lemma job_ok_mono done done' root root' j : (forall k, k ∈ done -> k ∈ done') -> (forall p, both p root -> both p root') ->
  job_ok done root j -> job_ok done' root' j.
Proof. intros Hd Hb (kj & m & Hkj & Hm & Hbit & -> & Hbo). exists kj, m. auto 10. Qed.

Ltac proj := cbn [builder todo maxReachedLevel rootNode leafValueMap accountValuesReadChan jobs worker jobResults companion
  unread lastReadAccountValueIndex smtDb] in *.
Ltac open_inv I := destruct I as [Ikeys Irep Ijobs Iapart Iresults Icount Ivalues Iread Iaccounts Idepth Ibuilder Iworker Icompanion];
  unfold pending, made, builder_ok, companion_ok in *; proj.
Ltac close_inv := split; unfold pending, made, builder_ok, companion_ok in *; proj; try done;
  try (intros Hw; by match goal with I : _ = Stopped -> _ |- _ => apply I in Hw as [? ?] end).

Lemma treeOf_empty done : pairs_ok done -> treeOf done = B E E <-> done = [].
Proof.
  intros Hok. split; [|by intros ->]. intros He. destruct done as [|k done]; [done|]. exfalso.
  assert (inT k (treeOf (k :: done))) as Hi by (apply treeOf_inT; [done|left]). rewrite He in Hi. by destruct Hi.
Qed.

(** The next key and its value: the builder inserts it. *)
Lemma build_insert done received k todo lvl root lv v vals js w rs c ur n d :
  inv done received (mkBulk Building (k :: todo) lvl root lv (v :: vals) js w rs c ur n d) ->
  v = Some (val8 (val k)) /\ exists root' job reached, insertKey (GetPath k) root = Ok (root', job, reached) /\
    forall lvl', inv (done ++ [k]) received
      (mkBulk (match job with Some j => Sending j | None => Building end) todo lvl' root' (<[k := val8 (val k)]> lv) vals js w rs c ur n d).
Proof.
  intros I. pose proof (inv_chan _ _ _ I) as Hchan. open_inv I. rewrite app_nil_r in *.
  assert (len done + 1 <= n) as Hn by (unfold len in *; cbn [length] in Hchan; lia).
  assert (Z.to_nat (n - len done) = S (Z.to_nat (n - len (done ++ [k])))) as Hnat by (unfold len in *; rewrite length_app; cbn; lia).
  rewrite Hnat in Ivalues. cbn [take map] in Ivalues. injection Ivalues as -> Hvals. split; [done|].
  assert (pairs_ok done /\ key_ok k /\ value_ok (val k)) as (Hdone & Hk & Hv).
  { unfold pairs_ok in ks_ok. rewrite Ikeys in ks_ok. apply Forall_app in ks_ok as [? [[? ?] _]%Forall_cons]. done. }
  assert (forall k', k' ∈ done -> klt k' k) as Hlt by (intros k' Hk'; eapply sorted_before; [exact Ikeys|done|left]).
  destruct (insertKey_ok Hash lv (gone d (rs ++ match w with Holding r => [r] | _ => [] end)) k (val k) (treeOf done) root)
    as (root' & job & reached & Hins & Hrep & Hboth & Hjob); [exact Hk|exact Irep|by apply treeOf_halves|by intros k' Hk'%treeOf_inT; [apply Hlt|]|].
  exists root', job, reached. split; [done|]. intros lvl'.
  assert (forall x, x ∈ done -> x ∈ done ++ [k]) as Hsub by (intros; apply elem_of_app; by left).
  assert (Forall (job_ok (done ++ [k]) root') js) as Hjs by (eapply Forall_impl; [exact Ijobs|]; intros j; by apply job_ok_mono).
  close_inv.
  - by rewrite <- app_assoc.
  - by rewrite treeOf_snoc.
  - destruct job as [j|]; rewrite ?app_nil_r; [|done]. apply Forall_app. split; [done|]. constructor; [|constructor].
    destruct Hjob as (_ & m & Hm & Hb & -> & Hbo & _). exists k, m. split_and!; try done. apply elem_of_app. right. left.
  - destruct job as [j|]; rewrite ?app_nil_r; [|done]. apply sorted_snoc; [done|]. intros j' Hj'.
    destruct Hjob as (_ & m & Hm & Hb & -> & _ & Hnb). rewrite Forall_forall in Ijobs. by eapply job_apart; eauto.
  - destruct Icount as [? Hc]. split; [done|]. pose proof (treeOf_empty done Hdone) as He. destruct job as [j|].
    + destruct Hjob as (Hne & _). assert (done <> []) as Hd by (intros ->; by apply Hne). destruct done as [|x done']; [done|].
      unfold len in *. rewrite !length_app in *. cbn [length] in *. lia.
    + apply He in Hjob as ->. unfold len in *. rewrite ?length_app in *. cbn [length app] in *. lia.
  - destruct Iread as ((? & ?) & ? & ?). unfold len in *. rewrite length_app. cbn [length]. split_and!; lia || done.
  - destruct job; done.
  - destruct c; try done. unfold len in *. rewrite length_app. cbn [length]. lia.
Qed.

Lemma build_ok done received b r : inv done received b -> buildStep b = Some r ->
  exists b' done', r = Ok b' /\ inv done' received b'.
Proof.
  intros I Hs. destruct b as [bs todo lvl root lv vals js w rs c ur n d]. cbn [buildStep] in Hs. destruct bs as [|j| |e]; try done.
  - destruct todo as [|k todo].
    + injection Hs as <-. destruct (updateDepth_saves matters lvl d) as (d' & -> & Hsv); [exact (inv_depth _ _ _ I)|]. rewrite bind_ok.
      eexists _, done. split; [done|]. open_inv I. close_inv.
      * eapply rep_mono; [done| |exact Irep]. intros dep t. apply gone_mono. intros x. by apply known_saves.
      * intros k Hk. rewrite (saves_account _ _ _ Hsv). auto.
      * by apply (saves_depth _ _ _ Hsv).
    + destruct vals as [|v vals]; [done|].
      destruct (build_insert _ _ _ _ _ _ _ _ _ _ _ _ _ _ _ _ I) as (-> & root' & job & reached & Hins & Hinv).
      rewrite Hins in Hs. injection Hs as <-. eauto.
  - destruct (room js jobQueueSize); [|done]. injection Hs as <-. eexists _, done. split; [done|]. open_inv I.
    close_inv; by rewrite app_nil_r.
Qed.

Lemma two_keys done todo : ks = done ++ todo -> 2 <= len done -> result = treeOf ks.
Proof.
  intros He Hl. destruct done as [|a [|b done]]; [unfold len in Hl; cbn in Hl; lia..|].
  apply (closed_many ks a b); [done|rewrite He; left|rewrite He; right; left|].
  apply klt_ne. eapply (sorted_before [a] (b :: done ++ todo)); [exact He|left|left].
Qed.

Lemma known_more d rs rs' x : (forall r, r ∈ rs -> r ∈ rs') -> known d rs x -> known d rs' x.
Proof. intros Hs [?|(res & Hr & ?)]; [by left|right; exists res; auto]. Qed.

Lemma work_job done received bs todo lvl root lv vals j js rs c ur n d :
  inv done received (mkBulk bs todo lvl root lv vals (j :: js) Idle rs c ur n d) ->
  exists root' lv' res, runJob Hash j root lv = Ok (root', lv', inr res) /\
    inv done received (mkBulk bs todo lvl root' lv' vals js (Holding (inr res)) rs c ur n d).
Proof.
  intros I. open_inv I. rewrite app_nil_r in *.
  assert (pairs_ok done) as Hdone by (unfold pairs_ok in ks_ok; rewrite Ikeys in ks_ok; by apply Forall_app in ks_ok as [? _]).
  assert (result = treeOf ks) as Hres.
  { eapply two_keys; [exact Ikeys|]. destruct Icount as [? Hc]. unfold len in *. cbn [app length] in Hc. lia. }
  cbn [app] in Ijobs, Iapart. apply Forall_cons in Ijobs as [Hj Ijobs]. apply StronglySorted_inv in Iapart as [Iapart Hap].
  destruct (runJob_ok matters matters_inj (known d rs) (gone d rs)) with (done := done) (rest := todo) (lv := lv) (root := root) (j := j)
    as (root' & lv' & res & l & dep & Hrun & Hent & Hl & Hrep & Hboth).
  { intros dep t x Hg Hx. by apply Hg. }
  { done. } { done. } { done. } { intros k1 k2. by apply sorted_before. } { intros x Hx. unfold matters. by rewrite Hres, Ikeys. }
  exists root', lv', res. split; [done|]. close_inv.
  - apply Hrep.
    + intros dep' t. apply gone_mono. intros x _. apply known_more. intros r Hr. apply elem_of_app. by left.
    + intros x Hx. destruct (Hl x Hx) as [Hm [Hsv|Hkn]]; (split; [done|]).
      * right. exists res. split; [|done]. apply elem_of_app. right. left.
      * eapply known_more; [|exact Hkn]. intros r Hr. apply elem_of_app. by left.
  - rewrite Forall_forall in Ijobs, Hap |- *. intros j' Hj'. destruct (Ijobs j' Hj') as (kj & m & Hkj & Hm & Hb & -> & Hbo).
    destruct (Hap _ Hj') as [Hne Hpre]. exists kj, m. split_and!; try done. apply Hboth; [apply seg_bits|done..].
  - apply Forall_app. split; [done|]. constructor; [by exists res|constructor].
  - destruct Icount as [? Hc]. split; [done|]. unfold len in *. rewrite !length_app in *. cbn [length app] in *. lia.
  - destruct c; try done. by destruct Icompanion.
Qed.

Lemma work_ok done received b r : inv done received b -> workerStep Hash b = Some r ->
  exists b', r = Ok b' /\ inv done received b'.
Proof.
  intros I Hs. destruct b as [bs todo lvl root lv vals js w rs c ur n d]. cbn [workerStep] in Hs. destruct w as [|r'|]; try done.
  - destruct js as [|j js].
    + destruct bs as [|j| |e]; try done; injection Hs as <-; (eexists; split; [done|]); open_inv I; close_inv.
      destruct c; try done. by destruct Icompanion.
    + destruct (work_job _ _ _ _ _ _ _ _ _ _ _ _ _ _ _ I) as (root' & lv' & res & Hrun & Hinv).
      rewrite Hrun in Hs. injection Hs as <-. eauto.
  - destruct (room rs jobQueueSize); [|done]. injection Hs as <-. eexists. split; [done|]. open_inv I.
    close_inv; rewrite ?app_nil_r; try done. destruct c; try done. by destruct Icompanion.
Qed.

Lemma accompany_ok done received b r : inv done received b -> companionStep order b = Some r ->
  exists b' received', r = Ok b' /\ inv done received' b'.
Proof.
  intros I Hs. pose proof (inv_chan _ _ _ I) as Hchan. destruct b as [bs todo lvl root lv vals js w rs c ur n d]. proj.
  assert (len ks = len done + len todo) as Hlen by (open_inv I; unfold len; rewrite Ikeys, length_app; lia).
  cbn [companionStep] in Hs. destruct c as [|limit| | |e]; try done.
  - injection Hs as <-. eexists _, received. split; [done|]. open_inv I. destruct Iread as (Hr1 & Hr2 & Hur).
    assert (n + Z.of_nat (length ur) = len ks) as -> by (rewrite Hur, length_drop; unfold len in *; lia).
    destruct (Z.ltb_spec (len ks) (n + (accountValuesSize - Z.of_nat (length vals)))); close_inv; unfold len, accountValuesSize in *; lia.
  - destruct (Z.ltb_spec n limit) as [Hn|Hn].
    + assert (room vals accountValuesSize = true) as Hroom.
      { open_inv I. unfold room. apply Z.ltb_lt. unfold len in *. lia. }
      assert (exists k ur', ur = k :: ur' /\ todo !! Z.to_nat (n - len done) = Some k /\ ur' = drop (Z.to_nat (n + 1)) ks /\ k ∈ ks)
        as (k & ur' & -> & Hk & Hur' & Hin).
      { open_inv I. destruct Iread as (Hr1 & _ & ->). destruct (lookup_lt_is_Some_2 ks (Z.to_nat n)) as [k Hk]; [unfold len in *; lia|].
        exists k, (drop (S (Z.to_nat n)) ks). rewrite (drop_S _ k) by done. split_and!; [done| |f_equal; unfold len in *; lia|by eapply list_elem_of_lookup_2].
        rewrite Ikeys, lookup_app_r in Hk by (unfold len in *; lia). rewrite <- Hk. f_equal. unfold len in *. lia. }
      rewrite Hroom in Hs. rewrite (inv_accounts _ _ _ I k Hin : db_GetAccountValue d k = _) in Hs. injection Hs as <-.
      eexists _, received. split; [done|]. open_inv I. destruct Iread as (Hr1 & Hr2 & _). close_inv.
      * rewrite Ivalues. replace (Z.to_nat (n + 1 - len done)) with (S (Z.to_nat (n - len done))) by lia.
        by rewrite (take_S_r _ _ k), map_app by done.
      * split_and!; try lia. done.
      * unfold len in *. lia.
    + injection Hs as <-. eexists _, received. split; [done|]. open_inv I. close_inv. destruct Icompanion as (? & _ & ?). lia.
  - destruct rs as [|[e|res] rs].
    + destruct w; try done. injection Hs as <-. eexists _, received. split; [done|]. open_inv I. close_inv.
    + open_inv I. cbn [app] in Iresults. apply Forall_cons in Iresults as [(res & [=] & _) _].
    + assert (entries_ok Hash matters (KvMap res)) as Hent.
      { open_inv I. cbn [app] in Iresults. apply Forall_cons in Iresults as [(res' & [= <-] & ?) _]. done. }
      destruct (Save_ok matters matters_inj res d Hent) as (d' & Hsave & Hsv & Hhas). rewrite Hsave in Hs. injection Hs as <-.
      eexists _, (received + 1). split; [done|]. open_inv I. close_inv.
      * eapply rep_mono; [done| |exact Irep]. intros dep t. apply gone_mono. intros x Hm [Hh|(res' & [Hr|Hr]%elem_of_cons & Hts)].
        -- left. by apply (saves_keep _ _ _ Hsv).
        -- injection Hr as ->. left. by apply Hhas.
        -- right. exists res'. done.
      * cbn [app] in Iresults. by apply Forall_cons in Iresults as [_ ?].
      * destruct Icount as [? Hc]. unfold len in *. cbn [app length] in Hc. lia.
      * intros k Hk. rewrite (saves_account _ _ _ Hsv). auto.
      * by apply (saves_depth _ _ _ Hsv).
Qed.

Lemma progress done received b : inv done received b ->
  is_Some (buildStep b) \/ is_Some (workerStep Hash b) \/ is_Some (companionStep order b) \/
  (companion b = Saved /\ builder b = Built /\ worker b = Stopped).
Proof.
  intros I. pose proof (inv_chan _ _ _ I) as Hchan. destruct b as [bs todo lvl root lv vals js w rs c ur n d]. proj. open_inv I.
  assert (len ks = len done + len todo) as Hlen by (unfold len; rewrite Ikeys, length_app; lia).
  destruct c as [|limit| | |e]; [by do 2 right; left; eexists| | | |done].
  - do 2 right. left. cbn [companionStep]. destruct (Z.ltb_spec n limit) as [Hn|]; [|by eexists].
    destruct Iread as (Hr1 & _ & ->). destruct (lookup_lt_is_Some_2 ks (Z.to_nat n)) as [k Hk]; [unfold len in *; lia|].
    rewrite (drop_S _ k) by done. assert (room vals accountValuesSize = true) as -> by (unfold room; apply Z.ltb_lt; unfold len in *; lia).
    destruct (db_GetAccountValue d k); by eexists.
  - destruct rs as [|[e|res] rs]; [|do 2 right; left; by eexists|do 2 right; left; cbn; destruct (Save order res d); by eexists].
    destruct w as [|r'|]; [|right; left; by eexists|do 2 right; left; by eexists].
    destruct js as [|j js]; [|right; left; by eexists].
    destruct bs as [|j| |e]; [|left; by eexists|right; left; by eexists|done].
    destruct todo as [|k todo]; [left; by eexists|]. destruct vals as [|[v|] vals].
    + exfalso. destruct Icount as [? Hc]. unfold len, accountValuesSize in *. cbn [app length] in *. lia.
    + left. cbn [buildStep]. destruct (insertKey (GetPath k) root) as [[[root' job] reached]| |]; by eexists.
    + left. by eexists.
  - destruct Icompanion as [-> _]. destruct (Iworker eq_refl) as [-> _]. by do 3 right.
Qed.

(** ** There is no run without end *)

Definition work (b : Bulk (D := D)) : Z :=
  20 * len (todo b) + match builder b with Building => 2 | Sending _ => 17 | _ => 0 end +
  12 * len (jobs b) + match worker b with Idle => 1 | Holding _ => 10 | Stopped => 0 end +
  6 * len (jobResults b) + match companion b with Starting => 4 | Reading _ => 3 | Waiting => 1 | _ => 0 end +
  len (unread b).

Lemma work_nonneg b : 0 <= work b.
Proof. unfold work, len. destruct (builder b), (worker b), (companion b); lia. Qed.

Ltac count_work := unfold work, len; proj; rewrite ?length_app; cbn [length]; lia.

Lemma step_work_less b b' : step Hash order b b' -> work b' < work b.
Proof.
  intros Hs. destruct Hs as [b b' Hs|b b' Hs|b b' Hs];
    destruct b as [bs todo lvl root lv vals js w rs c ur n d]; cbn [buildStep workerStep companionStep] in Hs.
  - destruct bs as [|j| |e]; try done.
    + destruct todo as [|k todo].
      * apply Some_inj in Hs. apply bind_Ok_inv in Hs as (d' & _ & [= <-]). count_work.
      * destruct vals as [|[v|] vals]; [done| |injection Hs as <-; count_work].
        destruct (insertKey (GetPath k) root) as [[[root' [job|]] reached]|e|]; try done; injection Hs as <-; count_work.
    + destruct (room js jobQueueSize); [|done]. injection Hs as <-. count_work.
  - destruct w as [|r|]; [|destruct (room rs jobQueueSize); [|done]; injection Hs as <-; count_work|done]. destruct js as [|j js].
    + destruct bs; try done; injection Hs as <-; count_work.
    + apply Some_inj, bind_Ok_inv in Hs as ([[root' lv'] res] & _ & [= <-]). count_work.
  - destruct c as [|limit| | |e]; try done.
    + injection Hs as <-. count_work.
    + destruct (n <? limit); [|injection Hs as <-; count_work]. destruct ur as [|k ur]; [done|].
      destruct (room vals accountValuesSize); [|done]. destruct (db_GetAccountValue d k); try done; injection Hs as <-; count_work.
    + destruct rs as [|[e|res] rs]; [destruct w; try done|..].
      * injection Hs as <-. count_work.
      * injection Hs as <-. count_work.
      * destruct (Save order res d); try done; injection Hs as <-; count_work.
Qed.

Lemma steps_bounded n : forall b b', nsteps (step Hash order) n b b' -> Z.of_nat n <= work b.
Proof.
  induction n as [|n IH]; intros b b' Hs; [apply work_nonneg|]. inversion_clear Hs as [|? ? b1 ? Hb1 Hn].
  apply IH in Hn. apply step_work_less in Hb1. lia.
Qed.

(** ** The invariant holds throughout *)

Lemma inv_start d : (forall k, k ∈ ks -> db_GetAccountValue d k = Ok (val8 (val k))) -> db_ok d ->
  inv [] 0 (mkBulk Building ks 0 newNode ∅ [] [] Idle [] Starting ks 0 d).
Proof.
  intros Hacc. close_inv; try (by constructor); unfold len, accountValuesSize; cbn; split_and!; try lia; try done. by left.
Qed.

Lemma inv_step done received b b' : inv done received b -> step Hash order b b' ->
  exists done' received', inv done' received' b'.
Proof.
  intros I Hs. destruct Hs as [b b' Hs|b b' Hs|b b' Hs].
  - destruct (build_ok _ _ _ _ I Hs) as (? & done' & [= <-] & ?). eauto.
  - destruct (work_ok _ _ _ _ I Hs) as (? & [= <-] & ?). eauto.
  - destruct (accompany_ok _ _ _ _ I Hs) as (? & received' & [= <-] & ?). eauto.
Qed.

Lemma inv_steps b b' : rtc (step Hash order) b b' -> (exists done received, inv done received b) ->
  exists done received, inv done received b'.
Proof. induction 1 as [b|b b1 b' Hs _ IH]; [done|]. intros (done & received & I). apply IH. by eapply inv_step. Qed.

Lemma inv_not_crashed done received b : inv done received b -> ~ crashed Hash order b.
Proof.
  intros I [Hs|[Hs|Hs]].
  - by destruct (build_ok _ _ _ _ I Hs) as (? & ? & [=] & _).
  - by destruct (work_ok _ _ _ _ I Hs) as (? & [=] & _).
  - by destruct (accompany_ok _ _ _ _ I Hs) as (? & ? & [=] & _).
Qed.

Lemma inv_step_or_end done received b : inv done received b ->
  (exists b', step Hash order b b') \/ (companion b = Saved /\ builder b = Built /\ worker b = Stopped).
Proof.
  intros I. destruct (progress _ _ _ I) as [[r Hs]|[[r Hs]|[[r Hs]|?]]]; [..|by right]; left.
  - destruct (build_ok _ _ _ _ I Hs) as (b' & ? & -> & _). exists b'. by apply step_build.
  - destruct (work_ok _ _ _ _ I Hs) as (b' & -> & _). exists b'. by apply step_work.
  - destruct (accompany_ok _ _ _ _ I Hs) as (b' & ? & -> & _). exists b'. by apply step_accompany.
Qed.

(** ** The end of a run *)

(** The tree to be deleted at the end is the whole tree; its nodes are saved then. *)
Lemma deleteTree_result lv d p n : rep Hash lv (gone d []) 0 result n -> p = [] -> result <> E ->
  exists d', deleteTree Hash order p n lv d = Ok (th Hash 0 result, d') /\ stored Hash d' 0 result.
Proof.
  intros Hr -> Hne. destruct (closed_ok _ (treeOf_halves ks ks_ok)) as [[Hp Hc] _].
  assert (forall dep t x, gone d [] dep t -> x ∈ nodes Hash dep t -> has Hash d x) as HQ.
  { intros dep t x Hg Hx. destruct (Hg x Hx) as [_ [?|(res & Hi & _)]]; [done|by apply not_elem_of_nil in Hi]. }
  destruct (deletePart_ok Hash Hash_range matters matters_inj _ _ HQ result 0%nat [] n lv NewCalcAndPrepareJobResult)
    as (lv' & res & Hdel & _ & Hent & _ & Hsv); [done..|lia|done|done|by intros h e|].
  destruct (Save_ok matters matters_inj res d Hent) as (d' & Hsave & Hs & Hhas).
  unfold deleteTree. rewrite Hdel, bind_ok. cbn [fst snd]. rewrite Hsave. cbn [dropError]. rewrite bind_ok.
  exists d'. split; [done|]. apply Forall_forall. intros x Hx. destruct (Hsv x Hx) as [Hts|Hh]; [by apply Hhas|by apply (saves_keep _ _ _ Hs)].
Qed.

Lemma final_single lv Q nodeKeys k v root : rep Hash lv Q 0 (tins 0 k v (B E E)) root -> length nodeKeys = 1%nat ->
  isLeaf root = false /\ exists n, finalNode nodeKeys root = Ok (n, []) /\ rep Hash lv Q 0 (closed (tins 0 k v (B E E))) n.
Proof.
  intros Hr Hl. unfold finalNode. rewrite Hl. cbn [Nat.eqb]. destruct root as [rk lh n0 n1]. cbn [tins] in Hr |- *.
  assert (drop 0 (GetPath k) = Z.b2z (bit k 0) :: drop 1 (GetPath k)) as Hd by (rewrite drop_0; by apply (drop_S (GetPath k) _ 0), GetPath_lookup; lia).
  destruct (bit k 0) eqn:Hb; cbn [closed mkB] in Hr |- *; destruct Hr as [Hr1 Hr0].
  - destruct n1 as [c|]; [|done]. destruct n0; [by destruct Hr0|]. destruct Hr0 as [[_ ->]|[? _]]; [|done]. split; [done|].
    destruct Hr1 as [-> Hlv]. cbn [node0 node1 leftHash]. change (Key_IsZero zeroKey) with true. cbv iota. rewrite bind_ok.
    cbn [isLeaf]. change (Key_IsZero zeroKey) with true. cbv iota. change (index [1] 0) with (Ok 1). rewrite bind_ok.
    eexists. split; [done|]. split; [|done]. cbn [rKey leftHash node0 node1]. by rewrite Hd.
  - destruct n1 as [c|]; [by destruct Hr1|]. destruct n0 as [c|]; [|destruct Hr0 as [[? _]|(_ & ? & _)]; done].
    destruct Hr0 as [-> [-> Hlv]]. split; [done|]. cbn [node0 node1 leftHash]. rewrite bind_ok.
    cbn [isLeaf]. change (Key_IsZero zeroKey) with true. cbv iota. change (index [0] 0) with (Ok 0). rewrite bind_ok.
    eexists. split; [done|]. split; [|done]. cbn [rKey leftHash node0 node1]. by rewrite Hd.
Qed.

Lemma final_ok lv Q nodeKeys root : rep Hash lv Q 0 (treeOf ks) root -> length nodeKeys = length ks -> ks <> [] ->
  isLeaf root = false /\ exists n, finalNode nodeKeys root = Ok (n, []) /\ rep Hash lv Q 0 result n.
Proof.
  intros Hr Hl Hne. destruct (decide (length ks = 1%nat)) as [H1|H2].
  - assert (exists k, ks = [k]) as [k Hk] by (destruct ks as [|k [|? ?]]; try done; by exists k).
    unfold result. rewrite Hk in *. apply (final_single lv Q nodeKeys k (val k) root); [done|congruence].
  - assert (result = treeOf ks) as Hres.
    { apply (two_keys ks []); [by rewrite app_nil_r|]. unfold len. destruct ks; [done|]. cbn in *. lia. }
    destruct (closed_ok _ (treeOf_halves ks ks_ok)) as [[_ Hc] _]. fold result in Hc. rewrite Hres in Hc.
    destruct (treeOf_halves ks ks_ok) as (l & r & He & _). pose proof (rep_isLeaf _ _ _ _ _ _ Hr Hc) as Hlf. rewrite He in Hlf.
    split; [done|]. exists root. unfold finalNode. rewrite Hl, (proj2 (Nat.eqb_neq _ _)) by done. rewrite bind_ok, Hlf, Hres. done.
Qed.

Lemma bulk_finish done received b nodeKeys : inv done received b ->
  companion b = Saved -> builder b = Built -> worker b = Stopped -> length nodeKeys = length ks ->
  exists d', bulkResult Hash order nodeKeys b = Some (Ok (th Hash 0 result, d')) /\ stored Hash d' 0 result /\
    (ks <> [] -> getLastRoot d' = Ok (th Hash 0 result)) /\ (ks = [] -> th Hash 0 result = zeroKey).
Proof.
  intros I Hc Hb Hw Hl. assert (done = ks) as ->.
  { pose proof (inv_builder _ _ _ I) as Htodo. unfold builder_ok in Htodo. rewrite Hb in Htodo. rewrite (inv_keys _ _ _ I), Htodo. by rewrite app_nil_r. }
  assert (made b = []) as Hmade.
  { pose proof (inv_companion _ _ _ I) as Hco. unfold companion_ok in Hco. rewrite Hc in Hco. unfold made. destruct Hco as [_ ->]. by rewrite Hw. }
  pose proof (inv_rep _ _ _ I) as Hr. rewrite Hmade in Hr. unfold bulkResult. rewrite Hc, Hb, Hw. unfold finishBulk.
  destruct (decide (ks = [])) as [He|Hne].
  - unfold result. rewrite He in Hr |- *. unfold treeOf in Hr |- *. cbn [foldl closed mkB] in Hr |- *. destruct (rootNode b) as [rk lh n0 n1].
    destruct Hr as [H1 H0']. destruct n1; [done|]. destruct n0; [by destruct H0'|]. destruct H0' as [[_ ->]|[? _]]; [|done].
    cbn [isLeaf]. change (Key_IsZero zeroKey) with true. exists (smtDb b). split_and!; [done|apply Forall_nil; done|done|done].
  - destruct (final_ok _ _ nodeKeys _ Hr Hl Hne) as (-> & n & -> & Hn). rewrite bind_ok.
    destruct (deleteTree_result _ _ [] n Hn eq_refl ltac:(by eapply rep_nonempty)) as (d' & -> & Hst). rewrite bind_ok. unfold setLastRoot.
    destruct (law_SetLastRoot d' (Key_ToBigInt (th Hash 0 result))) as (d2 & -> & [Hs Hdep] & Hroot); [by apply Key_ToBigInt_range, th_ok|]. rewrite bind_ok.
    exists d2. split_and!; [done| | |done].
    + eapply Forall_impl; [exact Hst|]. intros x Hx. unfold has in *. by rewrite Hs.
    + intros _. unfold getLastRoot. rewrite Hroot, bind_ok, ScalarToRoot_ToBigInt; [done|by apply th_ok].
Qed.

Lemma reaches_end done received b : inv done received b ->
  exists b' done' received', rtc (step Hash order) b b' /\ inv done' received' b' /\
    companion b' = Saved /\ builder b' = Built /\ worker b' = Stopped.
Proof.
  remember (Z.to_nat (work b)) as n eqn:Hn. revert done received b Hn.
  induction n as [n IH] using lt_wf_ind. intros done received b Hn I.
  destruct (inv_step_or_end _ _ _ I) as [[b1 Hs]|(? & ? & ?)]; [|exists b, done, received; split_and!; try done; apply rtc_refl].
  destruct (inv_step _ _ _ _ I Hs) as (done1 & received1 & I1). pose proof (step_work_less _ _ Hs). pose proof (work_nonneg b1).
  destruct (IH (Z.to_nat (work b1))) with (b := b1) (done := done1) (received := received1) as (b' & done' & received' & Hr & ?); [lia|done..|].
  exists b', done', received'. split; [by eapply rtc_l|done].
Qed.

(** A state with a result is an end. *)
Lemma result_end done received b nodeKeys r : inv done received b -> bulkResult Hash order nodeKeys b = Some r ->
  companion b = Saved /\ builder b = Built /\ worker b = Stopped.
Proof.
  intros I Hr. pose proof (inv_companion _ _ _ I) as Hc. pose proof (inv_builder _ _ _ I) as Hb. unfold bulkResult, companion_ok, builder_ok in *.
  destruct (companion b), (builder b), (worker b); done.
Qed.
End schedule.

(** ** What bulk creation promises *)

(** The map of the keys and their values. *)
Definition contents (nodeKeys : list NodeKey) : gmap NodeKey (list Z) :=
  foldr (fun k m => <[k := val k]> m) ∅ nodeKeys.

Lemma contents_lookup nodeKeys k : contents nodeKeys !! k = if decide (k ∈ nodeKeys) then Some (val k) else None.
Proof.
  induction nodeKeys as [|k1 nodeKeys IH]; [rewrite decide_False by apply not_elem_of_nil; apply lookup_empty|].
  change (contents (k1 :: nodeKeys)) with (<[k1 := val k1]> (contents nodeKeys)).
  destruct (decide (k1 = k)) as [->|Hne].
  - rewrite lookup_insert_eq, decide_True; [done|left].
  - rewrite lookup_insert_ne, IH by done. destruct (decide (k ∈ nodeKeys)) as [Hin|Hni].
    + rewrite decide_True; [done|by right].
    + rewrite decide_False; [done|]. intros [?|?]%elem_of_cons; congruence.
Qed.

Lemma Sort_elem nodeKeys k : k ∈ SortNodeKeysBitwiseAsc nodeKeys <-> k ∈ nodeKeys.
Proof. unfold SortNodeKeysBitwiseAsc. by rewrite merge_sort_Permutation. Qed.

Lemma Sort_ok nodeKeys : pairs_ok nodeKeys -> pairs_ok (SortNodeKeysBitwiseAsc nodeKeys).
Proof. unfold pairs_ok, SortNodeKeysBitwiseAsc. by rewrite merge_sort_Permutation. Qed.

Lemma result_unique nodeKeys t : pairs_ok nodeKeys -> tree_ok t -> holds t (contents nodeKeys) ->
  result (SortNodeKeysBitwiseAsc nodeKeys) = t.
Proof.
  intros Hok Ht Hh. apply Sort_ok in Hok as Hs. destruct (closed_ok _ (treeOf_halves _ Hs)) as [Hr Hg].
  eapply holds_inj; [exact Hr|exact Ht| |exact Hh]. intros k. unfold result. rewrite Hg, treeOf_get, contents_lookup by done.
  destruct (decide (k ∈ SortNodeKeysBitwiseAsc nodeKeys)) as [Hin|Hni]; rewrite Sort_elem in *; by case_decide.
Qed.

Section bulk.
Context (nodeKeys : list NodeKey) (t : tree) (d : D).
Context (Hnd : NoDup nodeKeys) (Hok : pairs_ok nodeKeys).
Context (Hacc : forall k, k ∈ nodeKeys -> db_GetAccountValue d k = Ok (map Some (val k))) (Hdep : db_ok d).
Context (Ht : tree_ok t) (Hh : holds t (contents nodeKeys)) (Hcf : collision_free Hash (nodes Hash 0 t)).

Abbreviation ks := (SortNodeKeysBitwiseAsc nodeKeys).

Lemma bulk_keys : StronglySorted klt ks /\ pairs_ok ks /\ length ks = length nodeKeys /\ result ks = t /\
  collision_free Hash (nodes Hash 0 (result ks)).
Proof.
  split_and!.
  - apply Sort_sorted; [done|]. eapply Forall_impl; [exact Hok|]. by intros ? [].
  - by apply Sort_ok.
  - apply Permutation_length. unfold SortNodeKeysBitwiseAsc. apply merge_sort_Permutation.
  - by apply result_unique.
  - by rewrite (result_unique nodeKeys t).
Qed.

Lemma bulk_inv b : rtc (step Hash order) (startBulk nodeKeys d) b -> exists done received, inv ks done received b.
Proof.
  destruct bulk_keys as (H1 & H2 & _ & _ & H3). intros Hb. eapply inv_steps; [done..|exact Hb|]. exists [], 0.
  apply inv_start; [|done]. intros k Hk. apply Hacc. by apply Sort_elem.
Qed.

Lemma bulk_any_result b r : rtc (step Hash order) (startBulk nodeKeys d) b -> bulkResult Hash order nodeKeys b = Some r ->
  exists d', r = Ok (th Hash 0 t, d') /\ stored Hash d' 0 t /\ (nodeKeys <> [] -> getLastRoot d' = Ok (th Hash 0 t)).
Proof.
  intros Hb Hr. destruct bulk_keys as (H1 & H2 & Hlen & Hres & H3). destruct (bulk_inv b Hb) as (done & received & I).
  destruct (result_end _ _ _ _ _ _ I Hr) as (Hc & Hbu & Hw).
  destruct (bulk_finish ks H1 H2 H3 _ _ _ nodeKeys I Hc Hbu Hw ltac:(done)) as (d' & He & Hst & Hroot & _).
  rewrite Hr in He. injection He as ->. rewrite Hres in *. exists d'. split_and!; try done. intros Hne. apply Hroot. intros He.
  apply Hne, nil_length_inv. by rewrite <- Hlen, He.
Qed.

Lemma bulk_some_result : exists b r, rtc (step Hash order) (startBulk nodeKeys d) b /\ bulkResult Hash order nodeKeys b = Some r.
Proof.
  destruct bulk_keys as (H1 & H2 & Hlen & _ & H3). destruct (bulk_inv _ (rtc_refl _ _)) as (done & received & I).
  destruct (reaches_end ks H1 H2 H3 _ _ _ I) as (b & done' & received' & Hb & I' & Hc & Hbu & Hw).
  destruct (bulk_finish ks H1 H2 H3 _ _ _ nodeKeys I' Hc Hbu Hw ltac:(done)) as (d' & He & _). eauto.
Qed.
End bulk.

(** C9: bulk creation is correct under every schedule.  For distinct keys with their
    values in the store, no run of the three goroutines takes more than 21 steps per
    key and 7 more; no reachable state panics; from every reachable state that has no
    result some goroutine can go on; and every result is the root hash of the canonical
    tree that holds exactly the given keys and values, all of whose nodes are in the
    store, with that root as the last root if there are any keys. *)
Theorem bulk_create_correct nodeKeys t d : NoDup nodeKeys -> pairs_ok nodeKeys ->
  (forall k, k ∈ nodeKeys -> db_GetAccountValue d k = Ok (map Some (val k))) -> db_ok d ->
  tree_ok t -> holds t (contents nodeKeys) -> collision_free Hash (nodes Hash 0 t) ->
  (forall n b, nsteps (step Hash order) n (startBulk nodeKeys d) b -> Z.of_nat n <= 21 * Z.of_nat (length nodeKeys) + 7) /\
  forall b, rtc (step Hash order) (startBulk nodeKeys d) b -> ~ crashed Hash order b /\
    match bulkResult Hash order nodeKeys b with
    | None => exists b', step Hash order b b'
    | Some r => exists d', r = Ok (th Hash 0 t, d') /\ stored Hash d' 0 t /\
        (nodeKeys <> [] -> getLastRoot d' = Ok (th Hash 0 t))
    end.
Proof.
  intros Hnd Hok Hacc Hdep Ht Hh Hcf. destruct (bulk_keys nodeKeys t Hnd Hok Ht Hh Hcf) as (H1 & H2 & Hlen & _ & H3). split.
  { intros n b Hs. apply (steps_bounded n) in Hs. unfold work, startBulk, len in Hs.
    cbn [todo builder jobs worker jobResults companion unread length] in Hs. rewrite Hlen in Hs. lia. }
  intros b Hb. destruct (bulk_inv nodeKeys t d Hnd Hok Hacc Hdep Ht Hh Hcf b Hb) as (done & received & I).
  split; [by eapply inv_not_crashed|]. destruct (bulkResult Hash order nodeKeys b) as [r|] eqn:Hr.
  - by apply (bulk_any_result nodeKeys t d Hnd Hok Hacc Hdep Ht Hh Hcf b).
  - destruct (inv_step_or_end _ H1 H2 H3 _ _ _ I) as [?|(Hc & Hbu & Hw)]; [done|]. unfold bulkResult in Hr. by rewrite Hc, Hbu, Hw in Hr.
Qed.

Lemma mputs_contents nodeKeys : forall ops, ops ≡ₚ map (fun k => (k, val k)) nodeKeys -> NoDup nodeKeys ->
  (forall k, k ∈ nodeKeys -> is_zero (val k) = false) -> foldl mput ∅ ops = contents nodeKeys.
Proof.
  intros ops Hp Hnd Hz. apply map_eq. intros k. rewrite contents_lookup.
  assert (forall kv, kv ∈ ops -> snd kv = val (fst kv) /\ is_zero (snd kv) = false /\ fst kv ∈ nodeKeys) as Hops.
  { intros kv Hkv. rewrite Hp in Hkv. apply list_elem_of_fmap in Hkv as (k' & -> & Hk'). cbn [fst snd]. split_and!; auto. }
  assert (forall l m, (forall kv, kv ∈ l -> snd kv = val (fst kv) /\ is_zero (snd kv) = false /\ fst kv ∈ nodeKeys) ->
    foldl mput m l !! k = if decide (k ∈ map fst l) then Some (val k) else m !! k) as Hfold.
  { induction l as [|[k1 v1] l IH]; intros m Hl; [cbn; by rewrite decide_False by apply not_elem_of_nil|]. cbn [foldl map fst].
    rewrite IH by (intros; apply Hl; by right). destruct (Hl (k1, v1) ltac:(left)) as (Hv & Hnz & _). cbn [fst snd] in Hv, Hnz. unfold mput. cbn [fst snd].
    rewrite Hnz. destruct (decide (k ∈ map fst l)) as [Hin|Hni]; [by rewrite decide_True by by right|].
    destruct (decide (k = k1)) as [->|Hne].
    - rewrite decide_True by left. by rewrite lookup_insert_eq, Hv.
    - rewrite decide_False; [by rewrite lookup_insert_ne|]. intros [?|?]%elem_of_cons; done. }
  rewrite Hfold, lookup_empty by done. assert (k ∈ map fst ops <-> k ∈ nodeKeys) as Hiff; [|by repeat case_decide; tauto].
  change (map fst ops) with (fst <$> ops). rewrite Hp. change (fst <$> map (fun k => (k, val k)) nodeKeys) with (map fst (map (fun k => (k, val k)) nodeKeys)).
  rewrite map_map. cbn. by rewrite map_id.
Qed.

(** C10: the tree built in bulk is the tree built by insertions.  For distinct keys with
    non-zero values, [GenerateFromKVBulk] returns in some schedule, and in every schedule
    in which it returns, the root it returns and leaves as the last root is the one that
    [Insert] of the same pairs one by one, in any order, leaves in an empty store. *)
Theorem bulk_root_is_insert_root nodeKeys ops d d0 : NoDup nodeKeys -> nodeKeys <> [] -> pairs_ok nodeKeys ->
  (forall k, k ∈ nodeKeys -> is_zero (val k) = false) ->
  (forall k, k ∈ nodeKeys -> db_GetAccountValue d k = Ok (map Some (val k))) -> db_ok d ->
  ops ≡ₚ map (fun k => (k, val k)) nodeKeys -> db_GetLastRoot d0 = Ok 0 -> db_ok d0 -> good_run Hash E ops ->
  exists d0' root, Inserts Hash ops d0 = Ok d0' /\ getLastRoot d0' = Ok root /\
    (exists d', GenerateFromKVBulk Hash order nodeKeys d (Ok (root, d'))) /\
    forall r, GenerateFromKVBulk Hash order nodeKeys d r -> exists d', r = Ok (root, d') /\ getLastRoot d' = Ok root.
Proof.
  intros Hnd Hne Hok Hz Hacc Hdep Hp Hroot Hdep0 Hgood. destruct E_ok as [HE HEh].
  assert (Forall op_ok ops) as Hops.
  { rewrite Hp. apply Forall_map. eapply Forall_impl; [exact Hok|]. intros k [? ?]. by split. }
  destruct (tputs_ok ops E ∅ Hops HE HEh) as [Ht Hh]. rewrite (mputs_contents nodeKeys) in Hh by done.
  destruct (Inserts_ok Hash Hash_range ops E d0) as (d0' & Hi & Hl); [done..|by split_and!; [|apply Forall_nil|]|done|].
  apply (represents_root Hash Hash_range) in Hl.
  exists d0', (th Hash 0 (foldl tput E ops)). split; [done|]. split; [done|].
  assert (collision_free Hash (nodes Hash 0 (foldl tput E ops))) as Hcf.
  { assert (ops <> []) as Hno by (intros ->; apply Hne; apply Permutation_nil_l in Hp; by destruct nodeKeys).
    clear -Hgood Hno. revert Hgood Hno. generalize E. induction ops as [|kv ops IH]; intros t Hg Hno; [done|].
    destruct Hg as (Hc & _ & Hg). cbn [foldl]. destruct ops; [done|]. by apply IH. }
  pose proof (bulk_any_result nodeKeys _ d Hnd Hok Hacc Hdep Ht Hh Hcf) as Hany. split.
  - destruct (bulk_some_result nodeKeys _ d Hnd Hok Hacc Hdep Ht Hh Hcf) as (b & r & Hb & Hr). destruct (Hany b r Hb Hr) as (d' & -> & _).
    exists d', b. done.
  - intros r (b & Hb & Hr). destruct (Hany b r Hb Hr) as (d' & -> & _ & Hlast). eauto.
Qed.
End runs.

(** ** Witnesses *)

Definition example_val (k : NodeKey) : list Z := if decide (k = example_key 1) then example_value 10 else example_value 11.

Definition example_keys : list NodeKey := [example_key 3; example_key 1].

Definition example_accounts : MemDb :=
  mkMemDb ∅ (<[hexKey (example_key 1) := map ConvertBigIntToHex (map Some (example_value 10))]>
              (<[hexKey (example_key 3) := map ConvertBigIntToHex (map Some (example_value 11))]> ∅)) ∅ ∅ ∅ 0 0.

Definition example_order (V : Type) (m : gmap NodeKey V) : list (NodeKey * V) := map_to_list m.

Lemma example_pairs_ok : pairs_ok example_val example_keys.
Proof.
  repeat (apply Forall_cons; split; [split; [apply example_key_ok; lia|apply example_value_ok; lia]|]). by apply Forall_nil.
Qed.

Lemma example_NoDup : NoDup example_keys.
Proof. repeat constructor; rewrite ?list_elem_of_singleton; [discriminate|apply not_elem_of_nil]. Qed.

Lemma example_accounts_ok k : k ∈ example_keys -> db_GetAccountValue example_accounts k = Ok (map Some (example_val k)).
Proof. intros [->|[->|?%not_elem_of_nil]%elem_of_cons]%elem_of_cons; [vm_compute; reflexivity..|done]. Qed.

Lemma example_holds : holds example_tree (contents example_val example_keys).
Proof.
  destruct example_contents as [_ Hh]. intros k. rewrite Hh. unfold contents. cbn [foldr example_keys foldl mput fst snd].
  change (is_zero (example_value 10)) with false. change (is_zero (example_value 11)) with false. cbn [example_val].
  change (example_val (example_key 1)) with (example_value 10). change (example_val (example_key 3)) with (example_value 11). done.
Qed.

(** Two keys: every run has at most 49 steps, and there is no panic at the start. *)
Lemma bulk_create_correct_witness :
  (forall n b, nsteps (step toyHash example_order) n (startBulk example_keys example_accounts) b -> Z.of_nat n <= 49) /\
  forall b d' r, rtc (step toyHash example_order) (startBulk example_keys example_accounts) b ->
    bulkResult toyHash example_order example_keys b = Some (Ok (r, d')) -> r = th toyHash 0 example_tree.
Proof.
  destruct (bulk_create_correct toyHash toyHash_range example_order (fun _ _ => reflexivity _) example_val example_keys
    example_tree example_accounts example_NoDup example_pairs_ok example_accounts_ok (MemDb_db_ok _) (proj1 example_contents) example_holds)
    as [Hn Hb]; [by decide_compute|].
  split; [exact Hn|]. intros b d' r Hr Hres. destruct (Hb b Hr) as [_ Hcase]. rewrite Hres in Hcase.
  destruct Hcase as (d2 & He & _). clear -He. congruence.
Defined.

Lemma bulk_root_is_insert_root_witness :
  exists d0 root d', Inserts toyHash [(example_key 1, example_value 10); (example_key 3, example_value 11)] NewMemDb = Ok d0 /\
    getLastRoot d0 = Ok root /\ GenerateFromKVBulk toyHash example_order example_keys example_accounts (Ok (root, d')).
Proof.
  destruct (bulk_root_is_insert_root toyHash toyHash_range example_order (fun _ _ => reflexivity _) example_val example_keys
    [(example_key 1, example_value 10); (example_key 3, example_value 11)] example_accounts NewMemDb example_NoDup)
    as (d0 & root & Hi & Hl & (d' & Hg) & _).
  - discriminate.
  - exact example_pairs_ok.
  - intros k [->|[->|?%not_elem_of_nil]%elem_of_cons]%elem_of_cons; done.
  - exact example_accounts_ok.
  - done.
  - apply perm_swap.
  - reflexivity.
  - done.
  - by decide_compute.
  - exists d0, root, d'. split; [exact Hi|]. split; [exact Hl|exact Hg].
Defined.
