(* ===== verification/Kv.v ===== *)
(** * The key-value store (erigon-lib/kv/kv_interface.go)

    The tables of the node live in a transaction over an ordered key-value store.
    The store itself is third-party code; here is the part of its interface that
    the sources use ([GetOne], [Put], [Delete], [Append], and cursors), as a class, with
    what the interface documents as laws: a table is a finite map, a cursor walks
    it in the order of the keys, [Next] and [Prev] go on from the key the cursor
    stands at, whether or not that key has been deleted meanwhile.  An in-memory
    store that obeys the laws shows that they can hold. *)
From stdpp Require Import sorting.
From S2P Require Import Prelude Bytes.

(** A key with its value; a table of them. *)
Abbreviation entry := (list Z * list Z)%type.
Abbreviation table := (gmap (list Z) (list Z)).

(** ** The order of keys: [bytes.Compare] *)

Fixpoint bytes_ltb (a b : list Z) : bool :=
  match a, b with
  | _, [] => false
  | [], _ :: _ => true
  | x :: a, y :: b => (x <? y) || ((x =? y) && bytes_ltb a b)
  end.

Definition bytes_leb (a b : list Z) : bool := negb (bytes_ltb b a).

Lemma bytes_ltb_irrefl a : bytes_ltb a a = false.
Proof. induction a as [|x a IH]; simpl; [done|]. by rewrite Z.ltb_irrefl, Z.eqb_refl, IH. Qed.

Lemma bytes_ltb_trans a b c : bytes_ltb a b = true -> bytes_ltb b c = true -> bytes_ltb a c = true.
Proof.
  revert b c. induction a as [|x a IH]; intros [|y b] [|z c]; simpl; try done.
  rewrite !orb_true_iff, !andb_true_iff, !Z.ltb_lt, !Z.eqb_eq.
  intros [?|[-> ?]] [?|[? ?]]; [left; lia..|subst; right; eauto].
Qed.

Lemma bytes_ltb_total a b : a <> b -> bytes_ltb a b = true \/ bytes_ltb b a = true.
Proof.
  revert b. induction a as [|x a IH]; intros [|y b] Hne; simpl; auto; try done.
  rewrite !orb_true_iff, !andb_true_iff, !Z.ltb_lt, !Z.eqb_eq.
  destruct (Z.lt_trichotomy x y) as [?|[->|?]]; [auto| |auto].
  destruct (IH b) as [?|?]; [by intros ->|auto..].
Qed.

Lemma bytes_ltb_asym a b : bytes_ltb a b = true -> bytes_ltb b a = false.
Proof.
  intros H. destruct (bytes_ltb b a) eqn:E; [|done].
  pose proof (bytes_ltb_trans _ _ _ H E) as Hc. by rewrite bytes_ltb_irrefl in Hc.
Qed.

(** On keys of the same length the order is that of the numbers. *)
Lemma bytes_ltb_encode w a b : 0 <= a < 256 ^ Z.of_nat w -> 0 <= b < 256 ^ Z.of_nat w ->
  bytes_ltb (be_encode w a) (be_encode w b) = (a <? b).
Proof.
  revert a b. induction w as [|w IH]; intros a b Ha Hb; cbn [be_encode bytes_ltb].
  { change (256 ^ Z.of_nat 0) with 1 in *. symmetry. apply Z.ltb_ge. lia. }
  rewrite Nat2Z.inj_succ, Z.pow_succ_r in Ha, Hb by lia. set (m := 256 ^ Z.of_nat w) in *.
  assert (0 < m) as Hm by (apply Z.pow_pos_nonneg; lia).
  rewrite !(Z.mod_small (_ / m)) by (split; [apply Z.div_pos|apply Z.div_lt_upper_bound]; lia).
  rewrite <- (be_encode_mod w w a), <- (be_encode_mod w w b) by lia. fold m.
  rewrite IH by (apply Z.mod_pos_bound; lia).
  pose proof (Z.div_mod a m ltac:(lia)). pose proof (Z.div_mod b m ltac:(lia)).
  pose proof (Z.mod_pos_bound a m Hm). pose proof (Z.mod_pos_bound b m Hm).
  apply eq_true_iff_eq. rewrite orb_true_iff, andb_true_iff, !Z.ltb_lt, Z.eqb_eq. split.
  - intros [Hlt|[Heq Hlt]]; nia.
  - intros Hlt. destruct (Z.lt_trichotomy (a / m) (b / m)) as [?|[?|?]]; [by left|right; nia|nia].
Qed.

(** ** The interface *)

Class Kv (T : Type) := {
  tx_GetOne : string -> list Z -> T -> outcome (option (list Z));
  tx_Put : string -> list Z -> list Z -> T -> outcome T;
  tx_Delete : string -> list Z -> T -> outcome T;
  tx_Append : string -> list Z -> list Z -> T -> outcome T;
  tx_First : string -> T -> outcome (option entry);
  tx_Last : string -> T -> outcome (option entry);
  tx_Seek : string -> list Z -> T -> outcome (option entry);
  tx_Next : string -> list Z -> T -> outcome (option entry);
  tx_Prev : string -> list Z -> T -> outcome (option entry);
  tx_Count : string -> T -> outcome Z;
}.

Definition entry_le (a b : entry) : Prop := bytes_leb (fst a) (fst b) = true.
#[export] Instance entry_le_dec a b : Decision (entry_le a b).
Proof. unfold entry_le. apply _. Defined.

(** The entries of a table in the order of their keys. *)
Definition entries (m : table) : list entry := merge_sort entry_le (map_to_list m).

Class KvLaws (T : Type) `{Kv T} := {
  tx_table : T -> string -> table;
  law_GetOne t k tx : tx_GetOne t k tx = Ok (tx_table tx t !! k);
  law_Put t k v tx : exists tx', tx_Put t k v tx = Ok tx' /\
    forall t', tx_table tx' t' = if decide (t' = t) then <[k := v]> (tx_table tx t) else tx_table tx t';
  law_Delete t k tx : exists tx', tx_Delete t k tx = Ok tx' /\
    forall t', tx_table tx' t' = if decide (t' = t) then delete k (tx_table tx t) else tx_table tx t';
  law_Append t k v tx : (forall e, last (entries (tx_table tx t)) = Some e -> bytes_ltb (fst e) k = true) ->
    exists tx', tx_Append t k v tx = Ok tx' /\
    forall t', tx_table tx' t' = if decide (t' = t) then <[k := v]> (tx_table tx t) else tx_table tx t';
  law_First t tx : tx_First t tx = Ok (head (entries (tx_table tx t)));
  law_Last t tx : tx_Last t tx = Ok (last (entries (tx_table tx t)));
  law_Seek t k tx : tx_Seek t k tx =
    Ok (head (filter (fun e => bytes_leb k (fst e) = true) (entries (tx_table tx t))));
  law_Next t k tx : tx_Next t k tx =
    Ok (head (filter (fun e => bytes_ltb k (fst e) = true) (entries (tx_table tx t))));
  law_Prev t k tx : tx_Prev t k tx =
    Ok (last (filter (fun e => bytes_ltb (fst e) k = true) (entries (tx_table tx t))));
  law_Count t tx : tx_Count t tx = Ok (Z.of_nat (size (tx_table tx t)));
}.

(** ** The entries of a table *)

Definition entry_lt (a b : entry) : Prop := bytes_ltb (fst a) (fst b) = true.

#[export] Instance entry_lt_trans : Transitive entry_lt.
Proof. intros a b c. apply bytes_ltb_trans. Qed.

#[export] Instance entry_le_total : Total entry_le.
Proof.
  intros a b. unfold entry_le, bytes_leb. destruct (bytes_ltb (fst b) (fst a)) eqn:E; [|by left].
  right. by rewrite (bytes_ltb_asym _ _ E).
Qed.

#[export] Instance entry_le_trans : Transitive entry_le.
Proof.
  intros a b c. unfold entry_le, bytes_leb. rewrite !negb_true_iff. intros Hab Hbc.
  destruct (bytes_ltb (fst c) (fst a)) eqn:E; [|done].
  destruct (decide (fst a = fst b)) as [Heq|Hne]; [by rewrite Heq in E; congruence|].
  destruct (bytes_ltb_total _ _ Hne) as [H|H]; [|congruence].
  by rewrite (bytes_ltb_trans _ _ _ E H) in Hbc.
Qed.

Lemma elem_of_entries m k v : (k, v) ∈ entries m <-> m !! k = Some v.
Proof. unfold entries. rewrite merge_sort_Permutation. apply elem_of_map_to_list. Qed.

Lemma length_entries m : length (entries m) = size m.
Proof. unfold entries. rewrite merge_sort_Permutation. apply length_map_to_list. Qed.

Lemma NoDup_entries m : NoDup (fst <$> entries m).
Proof. unfold entries. rewrite merge_sort_Permutation. apply NoDup_fst_map_to_list. Qed.

Lemma entries_sorted m : StronglySorted entry_lt (entries m).
Proof.
  assert (StronglySorted entry_le (entries m)) as Hs by (apply StronglySorted_merge_sort; apply _).
  pose proof (NoDup_entries m) as Hnd. induction Hs as [|e l Hs IH Hall]; constructor.
  - apply IH. by apply NoDup_cons in Hnd as [_ Hnd].
  - apply NoDup_cons in Hnd as [Hni _]. apply Forall_forall. intros e' He'.
    rewrite Forall_forall in Hall. specialize (Hall e' He'). unfold entry_le, bytes_leb, entry_lt in *.
    apply negb_true_iff in Hall. destruct (bytes_ltb_total (fst e) (fst e')) as [?|?]; [|done|congruence].
    intros Heq. apply Hni. rewrite Heq. apply list_elem_of_fmap. eauto.
Qed.

(** A sorted list is determined by its elements. *)
Lemma sorted_unique (l1 l2 : list entry) : StronglySorted entry_lt l1 -> StronglySorted entry_lt l2 ->
  (forall e, e ∈ l1 <-> e ∈ l2) -> l1 = l2.
Proof.
  intros H1. revert l2. induction H1 as [|a l1 H1 IH Ha]; intros l2 H2 Heq.
  { destruct l2 as [|b l2]; [done|]. exfalso. assert (b ∈ []) as Hb by (apply Heq; left). by apply not_elem_of_nil in Hb. }
  destruct H2 as [|b l2 H2 Hb].
  { exfalso. assert (a ∈ []) as Hb by (apply Heq; left). by apply not_elem_of_nil in Hb. }
  rewrite Forall_forall in Ha, Hb.
  assert (forall x y, entry_lt x y -> entry_lt y x -> False) as Hasym.
  { intros x y Hxy Hyx. pose proof (bytes_ltb_asym _ _ Hxy). unfold entry_lt in Hyx. congruence. }
  assert (a = b) as <-.
  { assert (a ∈ b :: l2) as [->|Ha2]%elem_of_cons by (apply Heq; left); [done|].
    assert (b ∈ a :: l1) as [->|Hb1]%elem_of_cons by (apply Heq; left); [done|].
    exfalso. eauto. }
  f_equal. apply IH; [done|]. intros e. split; intros He.
  - assert (e ∈ a :: l2) as [->|?]%elem_of_cons by (apply Heq; by right); [|done].
    exfalso. eapply Hasym; by apply Ha.
  - assert (e ∈ a :: l1) as [->|?]%elem_of_cons by (apply Heq; by right); [|done].
    exfalso. eapply Hasym; by apply Hb.
Qed.

Lemma StronglySorted_filter (P : entry -> Prop) `{!forall x, Decision (P x)} l :
  StronglySorted entry_lt l -> StronglySorted entry_lt (filter P l).
Proof.
  induction 1 as [|e l Hs IH He]; [constructor|]. rewrite filter_cons. case_decide; [|done].
  constructor; [done|]. apply Forall_forall. intros x [_ Hx]%list_elem_of_filter. rewrite Forall_forall in He. auto.
Qed.

(** The entries of a table that keeps some of its keys. *)
Lemma entries_filter (P : entry -> Prop) `{!forall x, Decision (P x)} m m' :
  (forall k v, m' !! k = Some v <-> m !! k = Some v /\ P (k, v)) -> entries m' = filter P (entries m).
Proof.
  intros Hm. apply sorted_unique; [apply entries_sorted|apply StronglySorted_filter, entries_sorted|].
  intros [k v]. rewrite list_elem_of_filter, !elem_of_entries, Hm. tauto.
Qed.

Lemma entries_delete k m : entries (delete k m) = filter (fun e => fst e <> k) (entries m).
Proof.
  apply entries_filter. intros k' v. simpl. rewrite lookup_delete_Some. split; intros [? ?]; auto.
Qed.

Lemma filter_keep_all {A} (P : A -> Prop) `{!forall x, Decision (P x)} (l : list A) :
  (forall x, x ∈ l -> P x) -> filter P l = l.
Proof.
  induction l as [|x l IH]; intros Hl; [done|]. rewrite filter_cons, decide_True by (apply Hl; left).
  f_equal. apply IH. intros y Hy. apply Hl. by right.
Qed.

Lemma filter_keep_none {A} (P : A -> Prop) `{!forall x, Decision (P x)} (l : list A) :
  (forall x, x ∈ l -> ~ P x) -> filter P l = [].
Proof.
  induction l as [|x l IH]; intros Hl; [done|]. rewrite filter_cons, decide_False by (apply Hl; left).
  apply IH. intros y Hy. apply Hl. by right.
Qed.

(** After an entry of the list come the greater ones. *)
Lemma entries_after m l1 e l2 : entries m = l1 ++ e :: l2 ->
  filter (fun e' => bytes_ltb (fst e) (fst e') = true) (entries m) = l2.
Proof.
  intros Heq. pose proof (entries_sorted m) as Hs. rewrite Heq in Hs |- *.
  apply StronglySorted_app in Hs as (H12 & H1 & H2). apply StronglySorted_cons in H2 as [He H2].
  rewrite filter_app, filter_cons, decide_False by (by rewrite bytes_ltb_irrefl).
  rewrite (filter_keep_all _ l2); [|intros e' He'; rewrite Forall_forall in He; by apply He].
  rewrite (filter_keep_none _ l1); [done|]. intros e' He' Hlt.
  specialize (H12 e' e He' ltac:(left)). unfold entry_lt in H12. by rewrite (bytes_ltb_asym _ _ H12) in Hlt.
Qed.

(** Seeking: the entry itself if there is one, else a greater one. *)
Lemma seek_found (m : table) k v : m !! k = Some v ->
  head (filter (fun e => bytes_leb k (fst e) = true) (entries m)) = Some (k, v).
Proof.
  intros Hk. apply elem_of_entries, list_elem_of_split in Hk as (l1 & l2 & Heq).
  pose proof (entries_sorted m) as Hs. rewrite Heq in Hs |- *.
  apply StronglySorted_app in Hs as (H12 & _ & _). rewrite filter_app.
  rewrite filter_keep_none.
  - rewrite filter_cons, decide_True; [done|]. unfold bytes_leb. by rewrite bytes_ltb_irrefl.
  - intros e He. specialize (H12 e (k, v) He ltac:(left)). unfold entry_lt, bytes_leb in *. simpl in *.
    by rewrite H12.
Qed.

Lemma seek_missing (m : table) k e : m !! k = None ->
  head (filter (fun e => bytes_leb k (fst e) = true) (entries m)) = Some e ->
  e ∈ entries m /\ bytes_ltb k (fst e) = true.
Proof.
  intros Hk He. assert (e ∈ filter (fun e => bytes_leb k (fst e) = true) (entries m)) as Hin.
  { destruct (filter _ _) as [|e' l]; [done|]. injection He as <-. left. }
  apply list_elem_of_filter in Hin as [Hle Hin]. split; [done|]. destruct e as [k' v'].
  apply elem_of_entries in Hin. simpl in *. destruct (bytes_ltb_total k k') as [?|Hlt]; [congruence|done|].
  unfold bytes_leb in Hle. by rewrite Hlt in Hle.
Qed.

Lemma seek_end (m : table) k :
  head (filter (fun e => bytes_leb k (fst e) = true) (entries m)) = None ->
  forall k' v, m !! k' = Some v -> bytes_ltb k' k = true.
Proof.
  intros He k' v Hk'. destruct (bytes_ltb k' k) eqn:Hlt; [done|]. exfalso.
  assert ((k', v) ∈ filter (fun e => bytes_leb k (fst e) = true) (entries m)) as Hin.
  { apply list_elem_of_filter. split; [|by apply elem_of_entries]. simpl. unfold bytes_leb. by rewrite Hlt. }
  destruct (filter _ _); [by apply not_elem_of_nil in Hin|done].
Qed.

(** ** Loops over a cursor *)

Inductive flow (St : Type) : Type :=
| Continue (s : St)
| Break (s : St).
Arguments Continue {St} s.
Arguments Break {St} s.

(** A loop body on the entries of a list, in order. *)
Fixpoint walk {St} (body : list Z -> list Z -> St -> outcome (flow St)) (l : list entry) (s : St) : outcome St :=
  match l with
  | [] => Ok s
  | (k, v) :: l =>
      f ← body k v s;
      match f with Break s => Ok s | Continue s => walk body l s end
  end.

Section cursor.
Context {T : Type} `{Kv T}.

(** [for ; k != nil; k, v, err = c.Next() { ... }] from an entry on. *)
Fixpoint forEach {St} (fuel : nat) (t : string) (body : list Z -> list Z -> St -> outcome (flow St))
    (cur : option entry) (s : St) (tx : T) : outcome St :=
  match cur with
  | None => Ok s
  | Some (k, v) =>
      match fuel with
      | O => Panic
      | S fuel =>
          f ← body k v s;
          match f with
          | Break s => Ok s
          | Continue s => next ← tx_Next t k tx; forEach fuel t body next s tx
          end
      end
  end.

(** [for k, v, err = c.First(); ...], and [for k, v, err = c.Seek(key); ...] *)
Definition scan {St} (fuel : nat) (t : string) (body : list Z -> list Z -> St -> outcome (flow St))
    (s : St) (tx : T) : outcome St :=
  cur ← tx_First t tx; forEach fuel t body cur s tx.

Definition scanFrom {St} (fuel : nat) (t : string) (key : list Z)
    (body : list Z -> list Z -> St -> outcome (flow St)) (s : St) (tx : T) : outcome St :=
  cur ← tx_Seek t key tx; forEach fuel t body cur s tx.

(** The same loop with a body that writes to the table it walks. *)
Fixpoint forEachWrite (fuel : nat) (t : string) (body : list Z -> T -> outcome T) (cur : option entry)
    (tx : T) : outcome T :=
  match cur with
  | None => Ok tx
  | Some (k, _) =>
      match fuel with
      | O => Panic
      | S fuel => tx ← body k tx; next ← tx_Next t k tx; forEachWrite fuel t body next tx
      end
  end.

(** [for i := from; i <= to; i++ { ... }] on 64 bits: with the greatest [to] the
    counter wraps around and the loop does not end; running out of fuel stands for
    that. *)
Fixpoint countUp (fuel : nat) (i to : Z) (body : Z -> T -> outcome T) (tx : T) : outcome T :=
  if i <=? to then
    match fuel with
    | O => Panic
    | S fuel => tx ← body i tx; countUp fuel (u64 (i + 1)) to body tx
    end
  else Ok tx.

Context `{!KvLaws T}.

Lemma forEach_walk {St} t body l2 : forall fuel l1 (s : St) tx,
  entries (tx_table tx t) = l1 ++ l2 -> (length l2 <= fuel)%nat ->
  forEach fuel t body (head l2) s tx = walk body l2 s.
Proof.
  induction l2 as [|[k v] l2 IH]; intros fuel l1 s tx Heq Hf; [by destruct fuel|].
  destruct fuel as [|fuel]; [simpl in Hf; lia|]. cbn [head forEach walk].
  destruct (body k v s) as [[s'|s']| |]; [|done..]. rewrite !bind_ok, law_Next, bind_ok.
  pose proof (entries_after _ _ _ _ Heq) as Ha. cbn [fst] in Ha. rewrite Ha. apply (IH fuel (l1 ++ [(k, v)])); [|simpl in Hf; lia].
  by rewrite <- app_assoc.
Qed.

Lemma scan_walk {St} t body fuel (s : St) tx : (size (tx_table tx t) <= fuel)%nat ->
  scan fuel t body s tx = walk body (entries (tx_table tx t)) s.
Proof.
  intros Hf. unfold scan. rewrite law_First, bind_ok. apply (forEach_walk t body _ fuel []); [done|].
  by rewrite length_entries.
Qed.

Lemma sorted_filter_tail (m : table) (P : entry -> Prop) `{!forall x, Decision (P x)} :
  (forall a b, P a -> entry_lt a b -> P b) -> exists l1, entries m = l1 ++ filter P (entries m).
Proof.
  intros Hup. pose proof (entries_sorted m) as Hs. induction Hs as [|e l Hs IH He]; [by exists []|].
  rewrite filter_cons. case_decide as Hp.
  - exists []. rewrite filter_keep_all; [done|]. intros x Hx. rewrite Forall_forall in He. eauto.
  - destruct IH as (l1 & Hl1). exists (e :: l1). simpl. by rewrite <- Hl1.
Qed.

Lemma leb_up key (a b : entry) : bytes_leb key (fst a) = true -> entry_lt a b -> bytes_leb key (fst b) = true.
Proof.
  intros Ha Hab. change (entry_le (key, []) b). change (entry_le (key, []) a) in Ha. etrans; [exact Ha|].
  unfold entry_le, bytes_leb. by rewrite (bytes_ltb_asym _ _ Hab).
Qed.

(** What comes before the tail. *)
Lemma sorted_filter_split (m : table) (P : entry -> Prop) `{!forall x, Decision (P x)} l1 :
  entries m = l1 ++ filter P (entries m) -> forall e, e ∈ l1 <-> e ∈ entries m /\ ~ P e.
Proof.
  intros Heq e. assert (filter P l1 = []) as Hnil.
  { pose proof (f_equal (filter P) Heq) as Hf. rewrite filter_app, list_filter_filter in Hf.
    rewrite (list_filter_iff (fun x => P x /\ P x) P) in Hf by tauto. apply (f_equal length) in Hf.
    rewrite length_app in Hf. destruct (filter P l1); [done|]. simpl in Hf. lia. }
  split.
  - intros He. split; [rewrite Heq; apply elem_of_app; by left|]. intros Hp.
    assert (e ∈ filter P l1) as Hin by (by apply list_elem_of_filter). rewrite Hnil in Hin. by apply not_elem_of_nil in Hin.
  - intros [He Hp]. rewrite Heq in He. apply elem_of_app in He as [?|[? _]%list_elem_of_filter]; done.
Qed.

Lemma scanFrom_walk {St} t key body fuel (s : St) tx : (size (tx_table tx t) <= fuel)%nat ->
  scanFrom fuel t key body s tx =
  walk body (filter (fun e => bytes_leb key (fst e) = true) (entries (tx_table tx t))) s.
Proof.
  intros Hf. unfold scanFrom. rewrite law_Seek, bind_ok.
  destruct (sorted_filter_tail (tx_table tx t) (fun e => bytes_leb key (fst e) = true)) as (l1 & Hl1).
  { intros a b Ha Hab. by eapply leb_up. }
  apply (forEach_walk t body _ fuel l1); [done|]. pose proof (length_entries (tx_table tx t)) as Hl.
  rewrite Hl1, length_app in Hl. lia.
Qed.

(** A loop that deletes the keys a test picks. *)
Lemma forEachWrite_delete t (P : list Z -> bool) l2 : forall fuel l1 tx,
  entries (tx_table tx t) = l1 ++ l2 -> (length l2 <= fuel)%nat ->
  exists tx', forEachWrite fuel t (fun k tx => if P k then tx_Delete t k tx else Ok tx) (head l2) tx = Ok tx' /\
    (forall t', t' <> t -> tx_table tx' t' = tx_table tx t') /\
    entries (tx_table tx' t) = l1 ++ filter (fun e => P (fst e) = false) l2.
Proof.
  induction l2 as [|[k v] l2 IH]; intros fuel l1 tx Heq Hf.
  { exists tx. split; [by destruct fuel|]. done. }
  destruct fuel as [|fuel]; [simpl in Hf; lia|]. cbn [head forEachWrite].
  pose proof (entries_after _ _ _ _ Heq) as Ha. cbn [fst] in Ha. simpl in Hf.
  rewrite filter_cons. cbn [fst]. destruct (P k) eqn:HP.
  - destruct (law_Delete t k tx) as (tx1 & -> & Htab). rewrite bind_ok, law_Next, bind_ok.
    pose proof (Htab t) as Ht. rewrite decide_True in Ht by done.
    pose proof (NoDup_entries (tx_table tx t)) as Hnd. rewrite Heq, fmap_app in Hnd.
    apply NoDup_app in Hnd as (_ & Hd & [Hk _]%NoDup_cons).
    assert (entries (tx_table tx1 t) = l1 ++ l2) as He1.
    { rewrite Ht, entries_delete, Heq, filter_app, filter_cons, decide_False by (simpl; auto).
      f_equal; apply filter_keep_all; intros x Hx Hxk.
      - apply (Hd (fst x)); [by apply list_elem_of_fmap_2|]. rewrite Hxk. left.
      - apply Hk. cbn [fst]. rewrite <- Hxk. by apply list_elem_of_fmap_2. }
    assert (filter (fun e => bytes_ltb k (fst e) = true) (entries (tx_table tx1 t)) = l2) as ->.
    { rewrite Heq, filter_app, filter_cons, decide_False in Ha by (by rewrite bytes_ltb_irrefl).
      by rewrite He1, filter_app. }
    destruct (IH fuel l1 tx1 He1 ltac:(lia)) as (tx2 & Hl & Ho & He2). exists tx2. split; [exact Hl|].
    split; [|done]. intros t' Ht'. by rewrite Ho, Htab, decide_False.
  - rewrite bind_ok, law_Next, bind_ok, Ha, decide_True by done.
    destruct (IH fuel (l1 ++ [(k, v)]) tx) as (tx2 & Hl & Ho & He2); [by rewrite <- app_assoc|lia|].
    exists tx2. split; [exact Hl|]. split; [done|]. by rewrite He2, <- app_assoc.
Qed.

(** A loop that deletes the numbered keys of a range. *)
Lemma countUp_delete t (key : Z -> list Z) to : 0 <= to < 2 ^ 64 - 1 -> forall fuel i tx,
  0 <= i -> (Z.to_nat (to - i + 1) <= fuel)%nat ->
  exists tx', countUp fuel i to (fun i => tx_Delete t (key i)) tx = Ok tx' /\
    (forall t', t' <> t -> tx_table tx' t' = tx_table tx t') /\
    forall k v, tx_table tx' t !! k = Some v <->
      tx_table tx t !! k = Some v /\ forall j, i <= j <= to -> key j <> k.
Proof.
  intros Hto. induction fuel as [|fuel IH]; intros i tx Hi Hf; cbn [countUp].
  { rewrite (proj2 (Z.leb_gt i to)) by lia. exists tx. split; [done|]. split; [done|].
    intros k v. split; [|tauto]. intros Hk. split; [done|]. intros j Hj. lia. }
  destruct (Z.leb_spec i to) as [Hle|Hgt].
  2: { exists tx. split; [done|]. split; [done|]. intros k v. split; [|tauto]. intros Hk. split; [done|]. intros j Hj. lia. }
  destruct (law_Delete t (key i) tx) as (tx1 & -> & Htab). rewrite bind_ok, u64_small by lia.
  destruct (IH (i + 1) tx1) as (tx2 & Hl & Ho & He2); [lia..|]. exists tx2. split; [exact Hl|].
  split; [intros t' Ht'; by rewrite Ho, Htab, decide_False|]. intros k v. rewrite He2, Htab, decide_True by done.
  rewrite lookup_delete_Some. split.
  - intros [[Hne Hk] Hj]. split; [done|]. intros j Hj'. destruct (decide (j = i)) as [->|]; [done|]. apply Hj. lia.
  - intros [Hk Hj]. split; [split; [apply Hj; lia|done]|]. intros j Hj'. apply Hj. lia.
Qed.
End cursor.

(** ** An in-memory store *)

Abbreviation MemKv := (gmap string table).
Definition kvTable (tx : MemKv) (t : string) : table := default ∅ (tx !! t).

#[export] Instance MemKv_Kv : Kv MemKv := {
  tx_GetOne t k tx := Ok (kvTable tx t !! k);
  tx_Put t k v tx := Ok (<[t := <[k := v]> (kvTable tx t)]> tx);
  tx_Delete t k tx := Ok (<[t := delete k (kvTable tx t)]> tx);
  tx_Append t k v tx :=
    match last (entries (kvTable tx t)) with
    | Some e => if bytes_ltb (fst e) k then Ok (<[t := <[k := v]> (kvTable tx t)]> tx) else Err "key mismatch"
    | None => Ok (<[t := <[k := v]> (kvTable tx t)]> tx)
    end;
  tx_First t tx := Ok (head (entries (kvTable tx t)));
  tx_Last t tx := Ok (last (entries (kvTable tx t)));
  tx_Seek t k tx := Ok (head (filter (fun e => bytes_leb k (fst e) = true) (entries (kvTable tx t))));
  tx_Next t k tx := Ok (head (filter (fun e => bytes_ltb k (fst e) = true) (entries (kvTable tx t))));
  tx_Prev t k tx := Ok (last (filter (fun e => bytes_ltb (fst e) k = true) (entries (kvTable tx t))));
  tx_Count t tx := Ok (Z.of_nat (size (kvTable tx t)));
}.

Lemma kvTable_insert tx t t' m :
  kvTable (<[t := m]> tx) t' = if decide (t' = t) then m else kvTable tx t'.
Proof. unfold kvTable. case_decide as Ht; [subst; by rewrite lookup_insert_eq|by rewrite lookup_insert_ne]. Qed.

#[export] Program Instance MemKv_laws : KvLaws MemKv := { tx_table := kvTable }.
Solve All Obligations with try done.
Next Obligation. intros t k v tx. eexists. split; [done|]. intros t'. apply kvTable_insert. Qed.
Next Obligation. intros t k tx. eexists. split; [done|]. intros t'. apply kvTable_insert. Qed.
Next Obligation.
  intros t k v tx Hlast. simpl. destruct (last _) as [e|]; [rewrite (Hlast e eq_refl)|].
  all: eexists; split; [done|]; intros t'; apply kvTable_insert.
Qed.
