(* ===== verification/RetainList.v ===== *)
(** * The list of keys to retain (turbo/trie/retain_list.go)

    Proofs and witnesses of the trees are cut down to what certain keys need.  A
    [RetainList] says for the prefix of a path whether it leads to one of them.
    It keeps the keys sorted and remembers where the last question led, because
    the questions mostly come in ascending order; what it answers does not
    depend on that. *)
From stdpp Require Import sorting.
From S2P Require Import Prelude Bytes Kv.

(** ** The list *)

Record RetainList := mkRetainList {
  inited : bool;
  minLength : Z;
  lteIndex : nat;
  hexes : list (list Z);
  markers : list bool;
  codeTouches : gset (list Z);
}.

Definition NewRetainList (minLength : Z) : RetainList := mkRetainList false minLength 0 [] [] ∅.

(** [bytes.HasPrefix] *)
Definition HasPrefix (s prefix : list Z) : bool := bool_decide (take (length prefix) s = prefix).

Definition AddHex (hex : list Z) (rl : RetainList) : RetainList :=
  let 'mkRetainList i m l hs ms ct := rl in mkRetainList i m l (hs ++ [hex]) ms ct.

Definition AddKeyWithMarker (key : list Z) (marker : bool) (rl : RetainList) : list Z * RetainList :=
  let nibbles := mjoin (map (fun b => [b / 16; b mod 16]) key) in
  let 'mkRetainList i m l hs ms ct := AddHex nibbles rl in
  (nibbles, mkRetainList i m l hs (ms ++ [marker]) ct).

Definition AddKey (key : list Z) (rl : RetainList) : list Z * RetainList := AddKeyWithMarker key false rl.

Definition AddCodeTouch (codeHash : list Z) (rl : RetainList) : RetainList :=
  let 'mkRetainList i m l hs ms ct := rl in mkRetainList i m l hs ms ({[codeHash]} ∪ ct).

Definition IsCodeTouched (codeHash : list Z) (rl : RetainList) : bool := bool_decide (codeHash ∈ codeTouches rl).

(** [sort.IsSorted]: no key is less than the one before. *)
Fixpoint IsSorted (hs : list (list Z)) : bool :=
  match hs with
  | a :: (b :: _) as rest => negb (bytes_ltb b a) && IsSorted rest
  | _ => true
  end.

Definition withIndex (l : nat) (rl : RetainList) : RetainList :=
  let 'mkRetainList i m _ hs ms ct := rl in mkRetainList i m l hs ms ct.

Definition Rewind (rl : RetainList) : RetainList := withIndex 0 rl.

(** The first loop: up while the next key is not greater. *)
Fixpoint adjustGT (fuel : nat) (hs : list (list Z)) (prefix : list Z) (lte : nat) (gtAdjusted : bool) : nat * bool :=
  match fuel, hs !! S lte with
  | S fuel, Some h => if bytes_leb h prefix then adjustGT fuel hs prefix (S lte) true else (lte, gtAdjusted)
  | _, _ => (lte, gtAdjusted)
  end.

(** The second loop: down while the key is greater. *)
Fixpoint adjustLTE (hs : list (list Z)) (prefix : list Z) (lte : nat) : outcome nat :=
  match lte with
  | O => Ok O
  | S below =>
      h ← index hs (Z.of_nat lte);
      if bytes_ltb prefix h then adjustLTE hs prefix below else Ok lte
  end.

Definition adjust (hs : list (list Z)) (prefix : list Z) (lte : nat) : outcome nat :=
  let '(lte, gtAdjusted) := adjustGT (length hs) hs prefix lte false in
  if gtAdjusted then Ok lte else adjustLTE hs prefix lte.

(** [for i := index; i < len(rl.markers); i++] *)
Fixpoint nextMarked (hs : list (list Z)) (ms : list bool) (i : nat) : outcome (option (list Z)) :=
  match ms with
  | [] => Ok None
  | true :: _ => h ← index hs (Z.of_nat i); Ok (Some h)
  | false :: ms => nextMarked hs ms (S i)
  end.

Definition nextMarkedItem (i : nat) (rl : RetainList) : outcome (option (list Z)) :=
  nextMarked (hexes rl) (drop i (markers rl)) i.

Section retain.
(** [sort.Sort]: it swaps keys and markers together, and is free to reorder equal keys. *)
Context (Sort : list (list Z) -> list bool -> outcome (list (list Z) * list bool)).

Definition ensureInited (rl : RetainList) : outcome RetainList :=
  let 'mkRetainList i m l hs ms ct := rl in
  if i then Ok rl
  else
    let ms := if (length ms =? 0)%nat then replicate (length hs) false else ms in
    hm ← (if IsSorted hs then Ok (hs, ms) else Sort hs ms) : outcome (list (list Z) * list bool);
    Ok (mkRetainList true m 0 (fst hm) (snd hm) ct).

Definition Retain (prefix : list Z) (rl : RetainList) : outcome (bool * RetainList) :=
  rl ← ensureInited rl;
  if Z.of_nat (length prefix) <? minLength rl then Ok (true, rl)
  else
    lte ← adjust (hexes rl) prefix (lteIndex rl);
    let at_ i := match hexes rl !! i with Some h => HasPrefix h prefix | None => false end in
    Ok (at_ lte || at_ (S lte), withIndex lte rl).

Definition RetainWithMarker (prefix : list Z) (rl : RetainList) : outcome ((bool * option (list Z)) * RetainList) :=
  rl ← ensureInited rl;
  if Z.of_nat (length prefix) <? minLength rl then Ok ((true, None), rl)
  else
    lte ← adjust (hexes rl) prefix (lteIndex rl);
    let at_ (f : list Z -> bool) i := match hexes rl !! i with Some h => f h | None => false end in
    r ← (if at_ (fun h => HasPrefix h prefix) lte then n ← nextMarkedItem lte rl; Ok (true, n)
         else if at_ (fun h => HasPrefix h prefix) (S lte) then n ← nextMarkedItem (S lte) rl; Ok (true, n)
         else if at_ (fun h => bytes_leb prefix h) lte then n ← nextMarkedItem lte rl; Ok (false, n)
         else if at_ (fun h => bytes_leb prefix h) (S lte) then n ← nextMarkedItem (S lte) rl; Ok (false, n)
         else Ok (false, None));
    Ok (r, withIndex lte rl).
End retain.

(** ** Prefixes in the order of the keys *)

Definition ble (a b : list Z) : Prop := bytes_leb a b = true.

Lemma ble_cases a b : ble a b <-> bytes_ltb a b = true \/ a = b.
Proof.
  unfold ble, bytes_leb. rewrite negb_true_iff. split.
  - intros Hn. destruct (decide (a = b)) as [->|Hne]; [by right|].
    destruct (bytes_ltb_total a b Hne) as [?|Hc]; [by left|congruence].
  - intros [H|<-]; [by apply bytes_ltb_asym|apply bytes_ltb_irrefl].
Qed.

#[export] Instance ble_preorder : PreOrder ble.
Proof.
  split; [intros a; apply ble_cases; by right|]. intros a b c Hab Hbc.
  apply ble_cases in Hab as [Hab| ->]; [|done]. apply ble_cases in Hbc as [Hbc|<-]; apply ble_cases; left; [|done].
  by eapply bytes_ltb_trans.
Qed.

Lemma ble_antisym a b : ble a b -> ble b a -> a = b.
Proof.
  intros Hab Hba. apply ble_cases in Hab as [Hab|]; [|done]. apply bytes_ltb_asym in Hab.
  apply ble_cases in Hba as [?|]; [congruence|done].
Qed.

Lemma ble_total a b : ble a b \/ bytes_ltb b a = true.
Proof. unfold ble, bytes_leb. destruct (bytes_ltb b a); auto. Qed.

Lemma HasPrefix_cons x h y p : HasPrefix (x :: h) (y :: p) = bool_decide (x = y) && HasPrefix h p.
Proof.
  unfold HasPrefix. cbn [length take]. repeat case_bool_decide; simpl; try done; congruence.
Qed.

Lemma HasPrefix_ble h p : HasPrefix h p = true -> ble p h.
Proof.
  revert h. induction p as [|y p IH]; intros h Hp; [by apply ble_cases; destruct h; [right|left]|].
  destruct h as [|x h]; [done|]. rewrite HasPrefix_cons in Hp. apply andb_true_iff in Hp as [->%bool_decide_eq_true Hp].
  specialize (IH h Hp). apply ble_cases. apply ble_cases in IH as [IH| ->]; [left|by right].
  cbn. by rewrite Z.eqb_refl, IH, orb_true_r.
Qed.

(** The keys with a prefix are an interval that begins at the prefix. *)
Lemma HasPrefix_convex p a b : ble p a -> ble a b -> HasPrefix b p = true -> HasPrefix a p = true.
Proof.
  revert a b. induction p as [|y p IH]; intros a b Hpa Hab Hb; [done|].
  destruct b as [|x b]; [done|]. rewrite HasPrefix_cons in Hb. apply andb_true_iff in Hb as [->%bool_decide_eq_true Hb].
  assert (forall u c d, ble (y :: c) (u :: d) <-> y < u \/ y = u /\ ble c d) as Hcons.
  { intros u c d. unfold ble, bytes_leb. cbn. rewrite negb_true_iff, orb_false_iff, andb_false_iff, negb_true_iff, Z.ltb_ge, Z.eqb_neq.
    destruct (Z.lt_trichotomy y u) as [|[->|]]; intuition lia. }
  destruct a as [|u a]; [by apply ble_cases in Hpa as [?|?]|]. rewrite HasPrefix_cons.
  apply Hcons in Hpa as [Hlt|[<- Hpa]].
  - unfold ble, bytes_leb in Hab. cbn in Hab. rewrite negb_true_iff, orb_false_iff, Z.ltb_ge in Hab. lia.
  - apply Hcons in Hab as [?|[_ Hab]]; [lia|]. rewrite bool_decide_true by done. by apply (IH a b).
Qed.

(** ** What it answers *)

Definition ordered (hs : list (list Z)) : Prop :=
  forall i j a b, (i <= j)%nat -> hs !! i = Some a -> hs !! j = Some b -> ble a b.

Lemma IsSorted_ordered hs : IsSorted hs = true -> ordered hs.
Proof.
  induction hs as [|a hs IH]; [intros _ i j a b _ [=]|]. intros Hs.
  assert (match hs with [] => True | b :: _ => ble a b end /\ IsSorted hs = true) as [Hab Hs'].
  { destruct hs as [|b hs]; [done|]. cbn [IsSorted] in Hs. by apply andb_true_iff in Hs. }
  specialize (IH Hs'). intros [|i] [|j] x y Hij Hx Hy; [..|lia|]; cbn in Hx, Hy.
  - injection Hx as <-. by injection Hy as <-.
  - injection Hx as <-. destruct hs as [|b hs]; [done|]. etrans; [exact Hab|]. apply (IH 0%nat j b y); [lia|done..].
  - apply (IH i j); [lia|done..].
Qed.

(** The index of the last key that is not greater than the prefix, or 0. *)
Definition is_lte (hs : list (list Z)) (prefix : list Z) (l : nat) : Prop :=
  (l < length hs)%nat /\ (forall j h, (l < j)%nat -> hs !! j = Some h -> bytes_ltb prefix h = true) /\
  (l = 0%nat \/ exists h, hs !! l = Some h /\ ble h prefix).

Lemma adjustGT_ok hs prefix : ordered hs -> forall fuel lte adj, (length hs - lte <= fuel)%nat -> (lte < length hs)%nat ->
  exists l adj', adjustGT fuel hs prefix lte adj = (l, adj') /\ (lte <= l < length hs)%nat /\
    (forall j h, (l < j)%nat -> hs !! j = Some h -> bytes_ltb prefix h = true) /\
    (adj' = adj /\ l = lte \/ adj' = true /\ exists h, hs !! l = Some h /\ ble h prefix).
Proof.
  intros Ho. induction fuel as [|fuel IH]; intros lte adj Hf Hl; [lia|]. cbn [adjustGT].
  destruct (hs !! S lte) as [h|] eqn:Hh.
  - destruct (bytes_leb h prefix) eqn:Hle.
    + assert (S lte < length hs)%nat as Hlt by (apply lookup_lt_is_Some; eauto).
      destruct (IH (S lte) true) as (l & adj' & He & Hr & Hgt & Hc); [lia..|].
      exists l, adj'. split; [done|]. split; [lia|]. split; [done|]. right.
      destruct Hc as [[-> ->]|[-> Hc]]; [eauto|done].
    + exists lte, adj. split; [done|]. split; [lia|]. split; [|by left]. intros j h' Hj Hh'.
      destruct (ble_total h' prefix) as [Hb|]; [|done]. exfalso.
      assert (ble h h') as Hb' by (by apply (Ho (S lte) j); [lia|..]).
      assert (ble h prefix) as Hc by (by etrans). unfold ble in Hc. congruence.
  - exists lte, adj. split; [done|]. split; [lia|]. split; [|by left]. intros j h' Hj Hh'.
    apply lookup_ge_None in Hh. apply lookup_lt_Some in Hh'. lia.
Qed.

Lemma adjustLTE_ok hs prefix : forall lte, (lte < length hs)%nat ->
  (forall j h, (lte < j)%nat -> hs !! j = Some h -> bytes_ltb prefix h = true) ->
  exists l, adjustLTE hs prefix lte = Ok l /\ is_lte hs prefix l.
Proof.
  induction lte as [|lte IH]; intros Hl Hgt; cbn [adjustLTE]; [exists 0%nat; split; [done|]; split; [done|]; split; [done|by left]|].
  destruct (lookup_lt_is_Some_2 hs (S lte) Hl) as [h Hh].
  assert (index hs (Z.of_nat (S lte)) = Ok h) as ->.
  { unfold index. rewrite decide_True by lia. by rewrite Nat2Z.id, Hh. }
  rewrite bind_ok. destruct (bytes_ltb prefix h) eqn:Hlt.
  - apply IH; [lia|]. intros j h' Hj Hh'. destruct (decide (j = S lte)) as [->|]; [congruence|]. apply (Hgt j); [lia|done].
  - exists (S lte). split; [done|]. split; [done|]. split; [done|]. right. exists h. split; [done|].
    unfold ble, bytes_leb. by rewrite Hlt.
Qed.

Lemma adjust_ok hs prefix lte : ordered hs -> (lte < length hs)%nat ->
  exists l, adjust hs prefix lte = Ok l /\ is_lte hs prefix l.
Proof.
  intros Ho Hl. unfold adjust. destruct (adjustGT_ok hs prefix Ho (length hs) lte false) as (l & adj & -> & Hr & Hgt & Hc); [lia..|].
  destruct Hc as [[-> ->]|[-> Hh]]; [by apply adjustLTE_ok|]. exists l. split; [done|]. split; [lia|]. split; [done|by right].
Qed.

Lemma keep_exact hs prefix l : ordered hs -> is_lte hs prefix l ->
  let at_ i := match hs !! i with Some h => HasPrefix h prefix | None => false end in
  at_ l || at_ (S l) = existsb (fun h => HasPrefix h prefix) hs.
Proof.
  intros Ho (Hl & Hgt & Hle) at_. apply eq_true_iff_eq. rewrite existsb_exists. subst at_. cbv beta. split.
  - intros [Ha|Ha]%orb_true_iff; [destruct (hs !! l) as [h|] eqn:Hh|destruct (hs !! S l) as [h|] eqn:Hh]; try done;
      exists h; (split; [|done]); apply list_elem_of_In; by eapply list_elem_of_lookup_2.
  - intros (h & Hi & Hp). apply list_elem_of_In, list_elem_of_lookup in Hi as [j Hj].
    destruct (lookup_lt_is_Some_2 hs l Hl) as [hl Hhl]. rewrite Hhl. pose proof (HasPrefix_ble _ _ Hp) as Hb.
    destruct (decide (j <= l)%nat) as [Hjl|Hjl].
    + assert (hl = h) as ->; [|by rewrite Hp].
      pose proof (Ho j l _ _ Hjl Hj Hhl) as Hb'. destruct Hle as [->|(h' & Hh' & Hle)].
      * replace j with 0%nat in Hj by lia. congruence.
      * rewrite Hh' in Hhl. injection Hhl as ->. apply ble_antisym; [|done]. by etrans.
    + destruct (lookup_lt_is_Some_2 hs (S l)) as [h1 Hh1]; [apply lookup_lt_Some in Hj; lia|].
      rewrite Hh1. apply orb_true_iff. right. eapply HasPrefix_convex; [|by apply (Ho (S l) j); [lia|..]|done].
      apply ble_cases. left. by apply (Hgt (S l)); [lia|].
Qed.

Lemma lte_least hs prefix l : ordered hs -> NoDup hs -> is_lte hs prefix l ->
  forall j h, (j < l)%nat -> hs !! j = Some h -> ~ ble prefix h.
Proof.
  intros Ho Hd (_ & _ & Hle) j h Hj Hh Hb. destruct Hle as [->|(h' & Hh' & Hle)]; [lia|].
  assert (h = h') as -> by (apply ble_antisym; [by apply (Ho j l); [lia|..]|by etrans]).
  assert (j = l) by (by eapply NoDup_lookup). lia.
Qed.

(** The first marked key that is not less than the prefix. *)
Definition next_marked (pairs : list (list Z * bool)) (prefix : list Z) (r : option (list Z)) : Prop :=
  match r with
  | Some h => (h, true) ∈ pairs /\ ble prefix h /\ forall h', (h', true) ∈ pairs -> ble prefix h' -> ble h h'
  | None => forall h', (h', true) ∈ pairs -> ~ ble prefix h'
  end.

Lemma elem_of_zip_lookup (hs : list (list Z)) (ms : list bool) h m :
  (h, m) ∈ zip hs ms <-> exists i, hs !! i = Some h /\ ms !! i = Some m.
Proof.
  rewrite list_elem_of_lookup. split; intros [i Hi]; exists i; rewrite lookup_zip_with in *.
  - destruct (hs !! i), (ms !! i); simplify_eq/=. done.
  - destruct Hi as [-> ->]. done.
Qed.

Lemma nextMarked_ok hs ms : ordered hs -> length ms = length hs -> forall i, exists r,
  nextMarked hs (drop i ms) i = Ok r /\
  match r with
  | Some h => exists j, (i <= j)%nat /\ hs !! j = Some h /\ ms !! j = Some true /\
                forall j', (i <= j' < j)%nat -> ms !! j' = Some false
  | None => forall j, (i <= j)%nat -> ms !! j <> Some true
  end.
Proof.
  intros Ho Hlen i. remember (length ms - i)%nat as n eqn:Hn. revert i Hn. induction n as [|n IH]; intros i Hn.
  - rewrite drop_ge by lia. exists None. split; [done|]. intros j Hj He. apply lookup_lt_Some in He. lia.
  - destruct (lookup_lt_is_Some_2 ms i) as [m Hm]; [lia|]. rewrite (drop_S _ _ _ Hm). cbn [nextMarked]. destruct m.
    + destruct (lookup_lt_is_Some_2 hs i) as [h Hh]; [lia|].
      assert (index hs (Z.of_nat i) = Ok h) as ->.
      { unfold index. rewrite decide_True by lia. by rewrite Nat2Z.id, Hh. }
      rewrite bind_ok. exists (Some h). split; [done|]. exists i. split_and!; [lia|done..|]. intros; lia.
    + destruct (IH (S i)) as (r & He & Hr); [lia|]. exists r. split; [done|]. destruct r as [h|].
      * destruct Hr as (j & Hj & Hh & Hmj & Hbelow). exists j. split_and!; [lia|done..|]. intros j' Hj'.
        destruct (decide (j' = i)) as [->|]; [done|]. apply Hbelow. lia.
      * intros j Hj. destruct (decide (j = i)) as [->|]; [congruence|]. apply Hr. lia.
Qed.

(** From an index on, the first marked key is the least not less than the prefix, if
    all keys before are less and the one there is not. *)
Lemma nextMarked_least hs ms prefix i r : ordered hs -> length ms = length hs ->
  (forall j h, (j < i)%nat -> hs !! j = Some h -> ~ ble prefix h) ->
  (forall h, hs !! i = Some h -> ble prefix h) ->
  match r with
  | Some h => exists j, (i <= j)%nat /\ hs !! j = Some h /\ ms !! j = Some true /\
                forall j', (i <= j' < j)%nat -> ms !! j' = Some false
  | None => forall j, (i <= j)%nat -> ms !! j <> Some true
  end -> next_marked (zip hs ms) prefix r.
Proof.
  intros Ho Hlen Hlow Hi Hr. destruct r as [h|]; simpl.
  - destruct Hr as (j & Hj & Hh & Hm & Hbelow). split_and!.
    + apply elem_of_zip_lookup. eauto.
    + destruct (lookup_lt_is_Some_2 hs i) as [hi Hhi]; [apply lookup_lt_Some in Hh; lia|].
      etrans; [by apply Hi|]. by apply (Ho i j).
    + intros h' (j' & Hh' & Hm')%elem_of_zip_lookup Hb. destruct (decide (j' < i)%nat) as [Hlt|Hlt]; [by destruct (Hlow j' h' Hlt Hh')|].
      apply (Ho j j'); [|done..]. destruct (decide (j' < j)%nat); [|lia]. rewrite Hbelow in Hm' by lia. done.
  - intros h' (j' & Hh' & Hm')%elem_of_zip_lookup Hb. destruct (decide (j' < i)%nat) as [Hlt|Hlt]; [by destruct (Hlow j' h' Hlt Hh')|].
    by apply (Hr j'); [lia|].
Qed.

(** ** Sequences of questions *)

(** The keys with their markers, also before the first question. *)
Definition marked (rl : RetainList) : list (list Z * bool) :=
  zip (hexes rl) (if (length (markers rl) =? 0)%nat then replicate (length (hexes rl)) false else markers rl).

Record valid (rl : RetainList) : Prop := {
  valid_markers : length (markers rl) = length (hexes rl) \/ inited rl = false /\ markers rl = [];
  valid_order : inited rl = true -> ordered (hexes rl);
  valid_index : inited rl = true -> (lteIndex rl < length (hexes rl))%nat \/ hexes rl = [] /\ lteIndex rl = 0%nat;
  valid_distinct : NoDup (hexes rl);
}.

Definition keeps (rl : RetainList) (prefix : list Z) : bool :=
  (Z.of_nat (length prefix) <? minLength rl) || existsb (fun h => HasPrefix h prefix) (hexes rl).

(** The same keys, in whatever order. *)
Record same_list (rl rl' : RetainList) : Prop := {
  same_hexes : hexes rl' ≡ₚ hexes rl;
  same_marked : marked rl' ≡ₚ marked rl;
  same_minLength : minLength rl' = minLength rl;
}.

#[export] Instance same_list_preorder : PreOrder same_list.
Proof.
  split; [by split|]. intros a b c [H1 M1 L1] [H2 M2 L2]. split; [by rewrite H2|by rewrite M2|congruence].
Qed.

Lemma existsb_perm {A} (f : A -> bool) l l' : l ≡ₚ l' -> existsb f l = existsb f l'.
Proof. induction 1; simpl; [done|by f_equal|by rewrite !orb_assoc, (orb_comm (f y))|congruence]. Qed.

Lemma keeps_same rl rl' prefix : same_list rl rl' -> keeps rl' prefix = keeps rl prefix.
Proof. intros [Hh _ Hl]. unfold keeps. by rewrite Hl, (existsb_perm _ _ _ Hh). Qed.

Lemma next_marked_same p1 p2 prefix r : p1 ≡ₚ p2 -> next_marked p1 prefix r -> next_marked p2 prefix r.
Proof. intros Hp. destruct r; simpl; setoid_rewrite Hp; done. Qed.

(** Keys are added before the first question, all with or all without a marker. *)
Lemma NewRetainList_valid n : valid (NewRetainList n).
Proof. split; [by left|done..|apply NoDup_nil_2]. Qed.

Lemma AddHex_valid hex rl : valid rl -> inited rl = false -> markers rl = [] -> hex ∉ hexes rl ->
  valid (AddHex hex rl) /\ inited (AddHex hex rl) = false /\ markers (AddHex hex rl) = [].
Proof.
  intros V Hi Hm Hn. destruct V as [Vm Vo Vi Vd], rl. cbn in *. subst. split; [|done].
  split; cbn; [by right|done..|]. apply NoDup_app. split_and!; [done| |apply NoDup_singleton].
  intros x Hx ->%list_elem_of_singleton. done.
Qed.

Lemma AddKeyWithMarker_valid key marker rl : valid rl -> inited rl = false -> length (markers rl) = length (hexes rl) ->
  let '(nibbles, rl') := AddKeyWithMarker key marker rl in
  nibbles ∉ hexes rl -> valid rl' /\ inited rl' = false /\ length (markers rl') = length (hexes rl').
Proof.
  intros V Hi Hm. destruct V as [Vm Vo Vi Vd], rl as [i m l hs ms ct]. cbn in *. intros Hn. subst.
  split; [|split; [done|]; by rewrite !length_app, Hm]. split; cbn; [left; by rewrite !length_app, Hm|done..|].
  apply NoDup_app. split_and!; [done| |apply NoDup_singleton]. intros x Hx ->%list_elem_of_singleton. done.
Qed.

Section answers.
Context (Sort : list (list Z) -> list bool -> outcome (list (list Z) * list bool)).
Context (Sort_ok : forall hs ms, length ms = length hs -> exists hs' ms', Sort hs ms = Ok (hs', ms') /\
  length ms' = length hs' /\ zip hs' ms' ≡ₚ zip hs ms /\ IsSorted hs' = true).

Lemma ensureInited_ok rl : valid rl -> exists rl', ensureInited Sort rl = Ok rl' /\ valid rl' /\ inited rl' = true /\
  length (markers rl') = length (hexes rl') /\ same_list rl rl'.
Proof.
  intros [Vm Vo Vi Vd]. destruct rl as [i m l hs ms ct]. cbn in *. destruct i.
  { exists (mkRetainList true m l hs ms ct). destruct Vm as [Vm|[[=] _]]. split_and!; try done. split; cbn; auto. }
  set (ms1 := if (length ms =? 0)%nat then replicate (length hs) false else ms).
  assert (length ms1 = length hs) as Hl1.
  { subst ms1. destruct (Nat.eqb_spec (length ms) 0) as [Hz|Hz]; [by rewrite length_replicate|].
    destruct Vm as [?|[_ ->]]; done. }
  assert (exists hs' ms', (if IsSorted hs then Ok (hs, ms1) else Sort hs ms1) = Ok (hs', ms') /\
    length ms' = length hs' /\ zip hs' ms' ≡ₚ zip hs ms1 /\ ordered hs') as (hs' & ms' & -> & Hl' & Hp & Ho).
  { destruct (IsSorted hs) eqn:Hs; [exists hs, ms1; split_and!; [done..|by apply IsSorted_ordered]|].
    destruct (Sort_ok hs ms1 Hl1) as (hs' & ms' & ? & ? & ? & ?). exists hs', ms'. split_and!; [done..|by apply IsSorted_ordered]. }
  assert (hs' ≡ₚ hs) as Hph.
  { rewrite <- (fst_zip hs' ms') by lia. rewrite Hp. by rewrite fst_zip by lia. }
  rewrite bind_ok. eexists. split; [done|]. cbn [fst snd]. split_and!; [|done..|].
  - split; cbn; [by left|done| |by rewrite Hph]. intros _. destruct hs'; [by right|left; simpl; lia].
  - split; cbn; [done| |done]. unfold marked. cbn. destruct (Nat.eqb_spec (length ms') 0) as [Hz|Hz]; [|done].
    destruct hs'; [|simpl in *; lia]. destruct ms'; [|done]. exact Hp.
Qed.

Lemma withIndex_valid rl l : valid rl -> inited rl = true -> (l < length (hexes rl))%nat \/ hexes rl = [] /\ l = 0%nat ->
  valid (withIndex l rl) /\ same_list rl (withIndex l rl).
Proof. intros [Vm Vo Vi Vd] Hi Hl. destruct rl. cbn in *. split; split; cbn; auto. Qed.

Lemma adjust_valid rl prefix : valid rl -> inited rl = true ->
  exists l, adjust (hexes rl) prefix (lteIndex rl) = Ok l /\
    (is_lte (hexes rl) prefix l \/ hexes rl = [] /\ l = 0%nat).
Proof.
  intros V Hi. destruct (valid_index _ V Hi) as [Hl|[He Hl]].
  - destruct (adjust_ok (hexes rl) prefix (lteIndex rl)) as (l & ? & ?); [by apply V|done|]. eauto.
  - rewrite He, Hl. exists 0%nat. split; [done|auto].
Qed.

(** [Retain] answers whether a key has the prefix, and remembers only the position. *)
Lemma Retain_ok rl prefix : valid rl ->
  exists rl', Retain Sort prefix rl = Ok (keeps rl prefix, rl') /\ valid rl' /\ same_list rl rl'.
Proof.
  intros V. destruct (ensureInited_ok rl V) as (rl1 & He & V1 & Hi & _ & Hs). unfold Retain. rewrite He, bind_ok.
  rewrite <- (keeps_same _ _ prefix Hs). unfold keeps. destruct (Z.of_nat (length prefix) <? minLength rl1); [eauto|].
  destruct (adjust_valid rl1 prefix V1 Hi) as (l & -> & Hl). rewrite bind_ok.
  destruct (withIndex_valid rl1 l V1 Hi) as [V2 Hs2]; [destruct Hl as [[? _]|?]; auto|].
  exists (withIndex l rl1). split; [|split; [done|by etrans]]. do 2 f_equal. destruct Hl as [Hl|[-> ->]]; [|done].
  cbn [orb]. apply keep_exact; [by apply V1|done].
Qed.

Lemma RetainWithMarker_ok rl prefix : valid rl -> exists next rl',
  RetainWithMarker Sort prefix rl = Ok ((keeps rl prefix, next), rl') /\ valid rl' /\ same_list rl rl' /\
  (if Z.of_nat (length prefix) <? minLength rl then next = None else next_marked (marked rl) prefix next).
Proof.
  intros V. destruct (ensureInited_ok rl V) as (rl1 & He & V1 & Hi & Hlen & Hs). unfold RetainWithMarker. rewrite He, bind_ok.
  rewrite <- (keeps_same _ _ prefix Hs), <- (same_minLength _ _ Hs). unfold keeps.
  destruct (Z.of_nat (length prefix) <? minLength rl1); [by exists None, rl1|]. cbn [orb].
  destruct (adjust_valid rl1 prefix V1 Hi) as (l & -> & Hl). rewrite bind_ok.
  destruct (withIndex_valid rl1 l V1 Hi) as [V2 Hs2]; [destruct Hl as [[? _]|?]; auto|].
  assert (forall x n, x = Ok (existsb (fun h => HasPrefix h prefix) (hexes rl1), n) -> next_marked (marked rl1) prefix n ->
    exists next rl', (r ← x; Ok (r, withIndex l rl1)) = Ok ((existsb (fun h => HasPrefix h prefix) (hexes rl1), next), rl') /\
      valid rl' /\ same_list rl rl' /\ next_marked (marked rl) prefix next) as Hdone.
  { intros x n -> Hn. exists n, (withIndex l rl1). rewrite bind_ok. split_and!; [done..|by etrans|].
    eapply next_marked_same; [apply Hs|done]. }
  assert (marked rl1 = zip (hexes rl1) (markers rl1)) as Hmk.
  { unfold marked. destruct (Nat.eqb_spec (length (markers rl1)) 0) as [Hz|]; [|done].
    assert (hexes rl1 = []) as -> by (destruct (hexes rl1); [done|simpl in *; lia]). done. }
  rewrite Hmk in Hdone. pose proof (valid_order _ V1 Hi) as Ho. pose proof (valid_distinct _ V1) as Hd.
  destruct Hl as [Hl|[Hn ->]]; [|rewrite Hn in *; eapply Hdone; [done|]; intros h' Hh'; by apply not_elem_of_nil in Hh'].
  rewrite <- (keep_exact _ _ _ Ho Hl) in *. pose proof (lte_least _ _ _ Ho Hd Hl) as Hlow.
  destruct Hl as (Hl & Hgt & Hle). destruct (lookup_lt_is_Some_2 _ _ Hl) as [hl Hhl]. rewrite Hhl in *.
  assert (forall i, (forall j h, (j < i)%nat -> hexes rl1 !! j = Some h -> ~ ble prefix h) ->
    (forall h, hexes rl1 !! i = Some h -> ble prefix h) ->
    exists n, nextMarkedItem i rl1 = Ok n /\ next_marked (zip (hexes rl1) (markers rl1)) prefix n) as Hnext.
  { intros i H1 H2. unfold nextMarkedItem. destruct (nextMarked_ok _ _ Ho Hlen i) as (r & Hr & Hc). exists r. split; [done|].
    by eapply nextMarked_least. }
  assert (bytes_leb prefix hl = false -> forall j h, (j < S l)%nat -> hexes rl1 !! j = Some h -> ~ ble prefix h) as Hlow1.
  { intros Hb j h Hj Hh Hbh. destruct (decide (j = l)) as [->|]; [|by apply (Hlow j h); [lia|..]].
    rewrite Hhl in Hh. injection Hh as ->. unfold ble in Hbh. congruence. }
  destruct (bytes_leb prefix hl) eqn:Hbl.
  - destruct (Hnext l Hlow) as (n & Hn & Hnm); [intros h Hh; rewrite Hhl in Hh; by injection Hh as ->|].
    eapply Hdone; [|exact Hnm]. rewrite Hn, bind_ok. destruct (HasPrefix hl prefix) eqn:Hp; [done|]. cbn [orb].
    destruct (hexes rl1 !! S l) as [h1|] eqn:Hh1; [|done]. destruct (HasPrefix h1 prefix) eqn:Hp1; [|done].
    rewrite (HasPrefix_convex prefix hl h1) in Hp; [done|exact Hbl|by apply (Ho l (S l)); [lia|..]|done].
  - destruct (Hnext (S l) (Hlow1 eq_refl)) as (n & Hn & Hnm).
    { intros h Hh. apply ble_cases. left. by apply (Hgt (S l)); [lia|]. }
    assert (HasPrefix hl prefix = false) as Hp.
    { destruct (HasPrefix hl prefix) eqn:Hp; [|done]. apply HasPrefix_ble in Hp. unfold ble in Hp. congruence. }
    rewrite Hp in *. cbn [orb] in *. destruct (hexes rl1 !! S l) as [h1|] eqn:Hh1.
    + eapply Hdone; [|exact Hnm]. rewrite Hn, bind_ok. destruct (HasPrefix h1 prefix); [done|].
      assert (bytes_leb prefix h1 = true) as ->; [|done].
      apply ble_cases. left. by apply (Hgt (S l)); [lia|].
    + eapply Hdone; [done|]. intros h' (j & Hj & _)%elem_of_zip_lookup. apply (Hlow1 eq_refl j); [|done].
      apply lookup_ge_None in Hh1. apply lookup_lt_Some in Hj. lia.
Qed.

Inductive question := AskRetain (p : list Z) | AskMarked (p : list Z) | AskRewind.
Inductive answer := Retained (r : bool) | RetainedMarked (r : bool) (next : option (list Z)) | Rewound.

Definition ask (q : question) (rl : RetainList) : outcome (answer * RetainList) :=
  match q with
  | AskRetain p => r ← Retain Sort p rl; Ok (Retained (fst r), snd r)
  | AskMarked p => r ← RetainWithMarker Sort p rl; Ok (RetainedMarked (fst (fst r)) (snd (fst r)), snd r)
  | AskRewind => Ok (Rewound, Rewind rl)
  end.

Fixpoint asks (qs : list question) (rl : RetainList) : outcome (list answer) :=
  match qs with
  | [] => Ok []
  | q :: qs => r ← ask q rl; rest ← asks qs (snd r); Ok (fst r :: rest)
  end.

(** What the answer to a question has to be. *)
Definition right_answer (rl : RetainList) (q : question) (a : answer) : Prop :=
  match q, a with
  | AskRetain p, Retained r => r = keeps rl p
  | AskMarked p, RetainedMarked r next => r = keeps rl p /\
      (if Z.of_nat (length p) <? minLength rl then next = None else next_marked (marked rl) p next)
  | AskRewind, Rewound => True
  | _, _ => False
  end.

Lemma Rewind_valid rl : valid rl -> valid (Rewind rl) /\ same_list rl (Rewind rl).
Proof.
  intros [Vm Vo Vi Vd]. destruct rl as [i m l hs ms ct]. cbn in *. split; [|done]. split; cbn; auto.
  intros Hi. destruct (Vi Hi) as [?|[-> _]]; [left; lia|by right].
Qed.

Lemma ask_ok q rl : valid rl -> exists a rl', ask q rl = Ok (a, rl') /\ valid rl' /\ same_list rl rl' /\ right_answer rl q a.
Proof.
  intros V. destruct q as [p|p|]; cbn [ask].
  - destruct (Retain_ok rl p V) as (rl' & -> & ? & ?). rewrite bind_ok. by eexists _, _.
  - destruct (RetainWithMarker_ok rl p V) as (next & rl' & -> & ? & ? & ?). rewrite bind_ok. by eexists _, _.
  - destruct (Rewind_valid rl V). by eexists _, _.
Qed.

Lemma right_answer_same rl rl' q a : same_list rl rl' -> right_answer rl' q a -> right_answer rl q a.
Proof.
  intros Hs. destruct q, a; cbn [right_answer]; try done; [by rewrite (keeps_same _ _ _ Hs)|].
  rewrite (keeps_same _ _ _ Hs), (same_minLength _ _ Hs). intros [? Hn]. split; [done|].
  destruct (Z.of_nat (length p) <? minLength rl); [done|]. eapply next_marked_same; [apply Hs|done].
Qed.

(** C17: a list of keys to retain answers as if it had no state.  For different keys,
    all added with or all without a marker before the first question, any sequence of
    questions and rewinds is answered without panic, and every answer is the right
    one: a prefix is retained if it is shorter than the least length or a key begins
    with it, and the next marked key is the least one that is not less than the
    prefix. *)
Theorem retain_exact rl qs : valid rl -> exists answers, asks qs rl = Ok answers /\ Forall2 (right_answer rl) qs answers.
Proof.
  revert rl. induction qs as [|q qs IH]; intros rl V; [by exists []|]. cbn [asks].
  destruct (ask_ok q rl V) as (a & rl' & -> & V' & Hs & Ha). rewrite bind_ok. cbn [fst snd].
  destruct (IH rl' V') as (answers & -> & Hall). rewrite bind_ok. exists (a :: answers). split; [done|].
  constructor; [done|]. eapply Forall2_impl; [exact Hall|]. intros x y. by apply right_answer_same.
Qed.
End answers.

(** ** Witness *)

Definition example_list : RetainList :=
  snd (AddKeyWithMarker [0x2b] true (snd (AddKey [0x12; 0x34] (snd (AddKey [0x2a] (NewRetainList 1)))))).

Definition hex_le (a b : list Z * bool) : Prop := bytes_leb (fst a) (fst b) = true.
#[export] Instance hex_le_dec a b : Decision (hex_le a b).
Proof. unfold hex_le. apply _. Defined.

Definition example_sort (hs : list (list Z)) (ms : list bool) : outcome (list (list Z) * list bool) :=
  let l := merge_sort hex_le (zip hs ms) in Ok (map fst l, map snd l).

#[export] Instance hex_le_total : Total hex_le.
Proof.
  intros a b. unfold hex_le. destruct (ble_total (fst a) (fst b)) as [?|?]; [by left|right].
  apply ble_cases. by left.
Qed.

Lemma example_sort_ok hs ms : length ms = length hs -> exists hs' ms', example_sort hs ms = Ok (hs', ms') /\
  length ms' = length hs' /\ zip hs' ms' ≡ₚ zip hs ms /\ IsSorted hs' = true.
Proof.
  intros Hl. eexists _, _. split; [done|]. split; [by rewrite !length_map|].
  assert (forall l : list (list Z * bool), zip (map fst l) (map snd l) = l) as Hz.
  { induction l as [|[] l IH]; simpl; congruence. }
  rewrite Hz. split; [apply merge_sort_Permutation|].
  pose proof (Sorted_merge_sort hex_le (zip hs ms)) as Hs. induction Hs as [|a l Hs IH Hr]; [done|].
  cbn [map]. destruct l as [|b l]; [done|]. cbn [map IsSorted] in *. inversion Hr as [|? ? Hab]. unfold hex_le, bytes_leb in Hab.
  by rewrite Hab, IH.
Qed.

Lemma example_list_valid : valid example_list.
Proof. split; [by left|done..|]. apply (bool_decide_unpack (NoDup (hexes example_list))). vm_compute. exact I. Qed.

(** The keys 2a, 1234 and the marked 2b: 2 and 12 are retained, 3 is not, and 2b is next after 12. *)
Lemma retain_exact_witness : exists answers,
  asks example_sort [AskMarked [2]; AskRetain [1; 2]; AskRetain [3]; AskRewind; AskMarked [1; 2; 4]] example_list = Ok answers /\
  answers = [RetainedMarked true (Some [2; 11]); Retained true; Retained false; Rewound; RetainedMarked false (Some [2; 11])].
Proof.
  destruct (retain_exact example_sort example_sort_ok example_list
    [AskMarked [2]; AskRetain [1; 2]; AskRetain [3]; AskRewind; AskMarked [1; 2; 4]] example_list_valid) as (answers & Ha & _).
  exists answers. split; [exact Ha|]. vm_compute in Ha. injection Ha as <-. reflexivity.
Defined.
