(* ===== verification/SmtRead.v ===== *)
(** * Reading the sparse Merkle tree (smt/pkg/smt/smt.go, smt_state_reader.go)

    [traverse] goes down the tree in the store and calls an action at every node;
    the readers of values, the builder of proofs and the search for orphaned nodes
    are actions.  On a store that holds a tree it is a walk over that tree. *)
From S2P Require Import Prelude Bytes Hex SmtUtils SmtTree SmtDb Smt SmtRefine RetainList.

Section read.
Context {D : Type} `{SmtDb D}.

(** ** Traversal *)

(** An action may change variables [St] of the function it is part of. *)
Definition TraverseAction (St : Type) : Type := list Z -> NodeKey -> NodeValue12 -> St -> outcome (bool * St).

(** The depth of the recursion is bounded by the fuel; a tree has at most 257 levels. *)
Fixpoint traverse {St} (fuel : nat) (db : D) (node : Z) (action : TraverseAction St) (prefix : list Z) (s : St)
    : outcome St :=
  if node =? 0 then Ok s
  else
    match fuel with
    | O => Panic
    | S fuel =>
        let ky := ScalarToRoot node in
        nodeValue ← db_Get db ky;
        r ← action prefix ky nodeValue s;
        let '(shouldContinue, s) := r : bool * St in
        if IsFinalNode nodeValue || negb shouldContinue then Ok s
        else
          let down (i : Z) (s : St) :=
            if Z.of_nat (length nodeValue) <? i * 4 + 4 then Err "nodeValue has insufficient length"
            else
              child ← childAt nodeValue i;
              traverse fuel db (Key_ToBigInt child) action (prefix ++ [i]) s in
          s ← down 0 s; down 1 s
    end.

Definition Traverse {St} (fuel : nat) (db : D) (node : Z) (action : TraverseAction St) (s : St) : outcome St :=
  traverse fuel db node action [] s.

(** ** Values *)

Definition GetNodeValue8 (nv : NodeValue12) : outcome NodeValue8 := slice nv 0 8.

(** [utils.ArrayBigToScalar(utils.BigIntArrayFromNodeValue8(v.GetNodeValue8())).Bytes()] of
    the value of a final node. *)
Definition readValue (db : D) (nodeValue : NodeValue12) : outcome (list Z) :=
  valHash ← Get4to8 nodeValue;
  v ← db_Get db valHash;
  v8 ← GetNodeValue8 v;
  z ← NodeValue8ToBigInt v8;
  Ok (big_bytes z).

Definition valueAction (db : D) (keyPath : list Z) : TraverseAction (list Z) := fun prefix _ v value =>
  if negb (HasPrefix keyPath prefix) then Ok (false, value)
  else if IsFinalNode v then vInBytes ← readValue db v; Ok (false, vInBytes)
  else Ok (true, value).

Definition getValueInBytes (fuel : nat) (db : D) (nodeKey : NodeKey) : outcome (list Z) :=
  root ← db_GetLastRoot db;
  Traverse fuel db root (valueAction db (GetPath nodeKey)) [].

(** ** A traversal is a walk over the tree *)

Context (Hash : list Z -> NodeKey -> NodeKey) (Hash_range : forall i c, key_ok (Hash i c)).

(** The node of a tree as it is stored. *)
Definition node_of (d : nat) (t : tree) : NodeValue12 :=
  match t with
  | E => []
  | Leaf k v => node12 (RemoveKeyBits k (Z.of_nat d)) (valHash Hash v) LeafCapacity
  | B l r => node12 (th Hash (S d) l) (th Hash (S d) r) BranchCapacity
  end.

Fixpoint walk {St} (action : TraverseAction St) (d : nat) (prefix : list Z) (t : tree) (s : St) : outcome St :=
  match t with
  | E => Ok s
  | Leaf _ _ => r ← action prefix (th Hash d t) (node_of d t) s; Ok (snd r)
  | B l r =>
      st ← action prefix (th Hash d t) (node_of d t) s;
      let '(shouldContinue, s) := st : bool * St in
      if shouldContinue then s ← walk action (S d) (prefix ++ [0]) l s; walk action (S d) (prefix ++ [1]) r s
      else Ok s
  end.

(** The hash of a subtree that is not empty leads to its node. *)
Lemma th_scalar d t : nonzero Hash d t -> t <> E -> (Key_ToBigInt (th Hash d t) =? 0) = false.
Proof.
  intros Hn Ht. apply Z.eqb_neq. intros H0. apply (nonzero_th Hash d t Hn Ht), Key_ToBigInt_inj; [by apply th_ok|apply zeroKey_ok|done].
Qed.

(** The branches and leaves of a tree, without the values. *)
Fixpoint inner (d : nat) (t : tree) : list (list Z * NodeKey) :=
  match t with
  | E => []
  | Leaf k v => [(leafInput Hash d k v, LeafCapacity)]
  | B l r => (ConcatArrays4 (th Hash (S d) l) (th Hash (S d) r), BranchCapacity) :: inner (S d) l ++ inner (S d) r
  end.

Lemma inner_nodes d t x : x ∈ inner d t -> x ∈ nodes Hash d t.
Proof.
  revert d. induction t as [|k v|l IHl r IHr]; intros d; cbn [inner nodes]; [done|..].
  - intros ->%list_elem_of_singleton. left.
  - intros [->|[Hx|Hx]%elem_of_app]%elem_of_cons; [left|right; apply elem_of_app..]; auto.
Qed.

Definition stored_inner (db : D) (d : nat) (t : tree) : Prop := Forall (has Hash db) (inner d t).

Lemma stored_inner_of db d t : stored Hash db d t -> stored_inner db d t.
Proof. unfold stored, stored_inner. rewrite !Forall_forall. intros Hs x Hx. by apply Hs, inner_nodes. Qed.

Lemma stored_node db d t : stored_inner db d t -> t <> E -> db_Get db (th Hash d t) = Ok (node_of d t).
Proof. intros Hs Ht. destruct t; [done|..]; by apply Forall_cons in Hs as [Hs _]. Qed.

Lemma stored_inner_halves db d l r : stored_inner db d (B l r) -> stored_inner db (S d) l /\ stored_inner db (S d) r.
Proof. intros [_ Hs]%Forall_cons. by apply Forall_app in Hs. Qed.

Lemma stored_halves db d l r : stored Hash db d (B l r) -> stored Hash db (S d) l /\ stored Hash db (S d) r.
Proof. intros [_ Hs]%Forall_cons. by apply Forall_app in Hs. Qed.

Lemma traverse_walk {St} (action : TraverseAction St) db t : forall fuel d prefix s,
  placed d t -> nonzero Hash d t -> stored_inner db d t -> (d <= 256)%nat -> (256 < d + fuel)%nat ->
  traverse fuel db (Key_ToBigInt (th Hash d t)) action prefix s = walk action d prefix t s.
Proof.
  induction t as [|k v|l IHl r IHr]; intros fuel d prefix s Hp Hn Hs Hd Hf; (destruct fuel as [|fuel]; [lia|]); [done|..];
    cbn [traverse]; rewrite th_scalar by done; cbv zeta; rewrite ScalarToRoot_ToBigInt by (by apply th_ok);
    rewrite stored_node by done; rewrite bind_ok; cbn [walk].
  - destruct (action prefix (th Hash d (Leaf k v)) (node_of d (Leaf k v)) s) as [[b s']| |]; [|done..].
    rewrite !bind_ok. cbn [node_of snd]. by rewrite IsFinalNode_node12.
  - destruct (action prefix (th Hash d (B l r)) (node_of d (B l r)) s) as [[b s']| |]; [|done..].
    rewrite !bind_ok. cbn [node_of fst snd]. rewrite IsFinalNode_node12. cbn [w0 BranchCapacity Z.eqb orb].
    destruct b; cbn [negb]; [|done]. destruct Hp as (Hd' & _ & _ & Pl & Pr), Hn as (_ & Nl & Nr).
    apply stored_inner_halves in Hs as [Sl Sr].
    destruct (childAt_node12 (th Hash (S d) l) (th Hash (S d) r) BranchCapacity) as (C0 & C1 & _);
      [by apply th_ok|by apply th_ok|apply zeroKey_ok|].
    change (Z.of_nat (length (node12 (th Hash (S d) l) (th Hash (S d) r) BranchCapacity)) <? 0 * 4 + 4) with false.
    change (Z.of_nat (length (node12 (th Hash (S d) l) (th Hash (S d) r) BranchCapacity)) <? 1 * 4 + 4) with false.
    cbv iota. rewrite C0, bind_ok, IHl by (done || lia).
    destruct (walk action (S d) (prefix ++ [0]) l s') as [s2| |]; [|done..]. rewrite !bind_ok, C1, bind_ok. apply IHr; (done || lia).
Qed.

(** ** Reading a value *)

Definition value_bytes (v : list Z) : list Z := big_bytes (ArrayBigToScalar v).

Lemma mapM_nonNil (v : list Z) : mapM nonNil (map Some v) = Ok v.
Proof. induction v as [|w v IH]; [done|]. cbn [map mapM nonNil]. by rewrite bind_ok, IH, bind_ok. Qed.

Lemma readValue_ok db d k v : (d <= 256)%nat -> key_ok k -> value_ok v -> has Hash db (v, BranchCapacity) ->
  readValue db (node_of d (Leaf k v)) = Ok (value_bytes v).
Proof.
  intros Hd Hk Hv Hh. unfold readValue. cbn [node_of].
  destruct (Get_node12 (RemoveKeyBits k (Z.of_nat d)) (valHash Hash v) LeafCapacity) as [_ ->];
    [by apply RemoveKeyBits_ok|apply Hash_range|].
  rewrite bind_ok. unfold has in Hh. cbn [fst snd] in Hh. unfold valHash. rewrite Hh, bind_ok. unfold GetNodeValue8, NodeValue8ToBigInt.
  rewrite (slice_at _ [] (map Some v) (map Some (words BranchCapacity))), bind_ok by (done || by rewrite length_map, (proj1 Hv)).
  by rewrite mapM_nonNil, !bind_ok.
Qed.

(** The leaf at the end of the path of a key. *)
Fixpoint reached (d : nat) (k : NodeKey) (t : tree) : option (NodeKey * list Z) :=
  match t with
  | E => None
  | Leaf k' v' => Some (k', v')
  | B l r => if bit k d then reached (S d) k r else reached (S d) k l
  end.

Lemma tget_reached k t : forall d, tget d k t =
  match reached d k t with Some (k', v') => if decide (k = k') then Some v' else None | None => None end.
Proof. induction t as [|k' v'|l IHl r IHr]; intros d; [done..|]. cbn [tget reached]. by destruct (bit k d). Qed.

(** Of two children the key is below one. *)
Lemma HasPrefix_path k d (b : bool) : (d < 256)%nat ->
  HasPrefix (GetPath k) (take d (GetPath k) ++ [Z.b2z b]) = Bool.eqb (bit k d) b.
Proof.
  intros Hd. unfold HasPrefix. rewrite length_app, length_take_le by (rewrite GetPath_length; lia). cbn [length].
  rewrite Nat.add_1_r, take_S_path by done. destruct (bit k d), b; cbn [Z.b2z Bool.eqb]; case_bool_decide as Hc; try done;
    by apply app_inj_2 in Hc as [_ [=]].
Qed.

Lemma HasPrefix_take k d : HasPrefix (GetPath k) (take d (GetPath k)) = true.
Proof.
  unfold HasPrefix. apply bool_decide_true. destruct (decide (d <= length (GetPath k))%nat); [by rewrite length_take_le|].
  by rewrite !take_ge by (rewrite ?length_take; lia).
Qed.

Lemma valueAction_path db k d h v s : valueAction db (GetPath k) (take d (GetPath k)) h v s =
  if IsFinalNode v then vInBytes ← readValue db v; Ok (false, vInBytes) else Ok (true, s).
Proof. unfold valueAction. by rewrite HasPrefix_take. Qed.

Lemma walk_value db k t : forall d s, placed d t -> stored Hash db d t -> (d <= 256)%nat ->
  walk (valueAction db (GetPath k)) d (take d (GetPath k)) t s =
    Ok (match reached d k t with Some (_, v) => value_bytes v | None => s end).
Proof.
  assert (forall t d p s, HasPrefix (GetPath k) p = false -> walk (valueAction db (GetPath k)) d p t s = Ok s) as Hoff.
  { intros t' d p s Hp. destruct t'; cbn [walk]; unfold valueAction; rewrite ?Hp; done. }
  induction t as [|k' v'|l IHl r IHr]; intros d s Hp Hs Hd; [done|..]; cbn [walk reached]; rewrite valueAction_path.
  - cbn [node_of]. rewrite IsFinalNode_node12. cbn [w0 LeafCapacity Z.eqb Pos.eqb]. destruct Hp as [Hk' Hv'].
    change (node12 (RemoveKeyBits k' (Z.of_nat d)) (valHash Hash v') LeafCapacity) with (node_of d (Leaf k' v')).
    rewrite readValue_ok by (done || by apply Forall_cons in Hs as [_ [Hs _]%Forall_cons]). done.
  - cbn [node_of]. rewrite IsFinalNode_node12. cbn [w0 BranchCapacity Z.eqb]. rewrite bind_ok.
    destruct Hp as (Hd' & _ & _ & Pl & Pr). apply stored_halves in Hs as [Sl Sr].
    pose proof (HasPrefix_path k d false Hd') as H0. pose proof (HasPrefix_path k d true Hd') as H1. cbn [Z.b2z] in H0, H1.
    destruct (bit k d) eqn:Hb; cbn [Bool.eqb] in H0, H1.
    + rewrite Hoff, bind_ok by done. rewrite <- IHr by (done || lia). by rewrite take_S_path, Hb by done.
    + assert (take d (GetPath k) ++ [0] = take (S d) (GetPath k)) as -> by (by rewrite take_S_path, Hb by done).
      rewrite IHl, bind_ok by (done || lia). by rewrite Hoff.
Qed.

(** The store holds the tree under the last root. *)
Record keeps_tree (db : D) (t : tree) : Prop := {
  keeps_root : db_GetLastRoot db = Ok (Key_ToBigInt (th Hash 0 t));
  keeps_stored_tree : stored Hash db 0 t;
}.

Lemma Traverse_walk {St} (action : TraverseAction St) fuel db t s : (256 < fuel)%nat -> tree_ok t -> nonzero Hash 0 t ->
  keeps_tree db t -> (root ← db_GetLastRoot db; Traverse fuel db root action s) = walk action 0 [] t s.
Proof.
  intros Hf [Hp _] Hn [Hr Hs]. rewrite Hr, bind_ok. apply traverse_walk; [done|done|by apply stored_inner_of|lia|lia].
Qed.

(** A read ends at the leaf that the path of the key leads to. *)
Lemma getValueInBytes_ok fuel db t k : (256 < fuel)%nat -> tree_ok t -> nonzero Hash 0 t -> keeps_tree db t ->
  getValueInBytes fuel db k = Ok (match reached 0 k t with Some (_, v) => value_bytes v | None => [] end).
Proof.
  intros Hf Ht Hn Hk. unfold getValueInBytes. rewrite (Traverse_walk _ fuel db t) by done. destruct Ht as [Hp _], Hk as [_ Hs].
  rewrite <- (walk_value db k t 0 []) by (done || lia). done.
Qed.

Lemma getValueInBytes_held fuel db t m k v : (256 < fuel)%nat -> tree_ok t -> holds t m -> nonzero Hash 0 t -> keeps_tree db t ->
  m !! k = Some v -> getValueInBytes fuel db k = Ok (value_bytes v).
Proof.
  intros Hf Ht Hh Hn Hk Hv. rewrite (getValueInBytes_ok fuel db t k) by done. rewrite <- Hh, tget_reached in Hv.
  destruct (reached 0 k t) as [[k' v']|]; [|done]. destruct (decide (k = k')); [|done]. by injection Hv as ->.
Qed.

(** C35: reading a value.  On a store that holds a tree, [getValueInBytes] returns the
    bytes of the value of every key in the tree.  It does not look at the key of the leaf
    that the path leads to, though: in a tree with a single key, every other key is
    read with the value of that one. *)
Theorem read_values fuel db t m k : (256 < fuel)%nat -> tree_ok t -> holds t m -> nonzero Hash 0 t -> keeps_tree db t ->
  (forall v, m !! k = Some v -> getValueInBytes fuel db k = Ok (value_bytes v)) /\
  (forall k' v', m = {[k' := v']} -> getValueInBytes fuel db k = Ok (value_bytes v')).
Proof.
  intros Hf Ht Hh Hn Hk.
  split; [by intros v; apply getValueInBytes_held with t|]. rewrite (getValueInBytes_ok fuel db t k) by done.
  intros k' v' ->. assert (t = Leaf k' v') as ->; [|done].
  assert (inT k' t) as Hi by (eapply (tget_inT _ _ 0); rewrite Hh; apply lookup_singleton_eq).
  pose proof (Hh k') as Hk'. rewrite lookup_singleton_eq in Hk'.
  assert (forall k2, inT k2 t -> k2 = k') as Honly.
  { intros k2 Hi2. destruct Ht as [Hp _]. destruct (inT_tget k2 t 0 Hp Hi2) as [v2 Hv2]. rewrite Hh in Hv2.
    by apply lookup_singleton_Some in Hv2 as [-> _]. }
  destruct Ht as [Hp Hc]. pose proof (canonical_leaves t 0 Hp Hc) as Hl. destruct t as [|k2 v2|l r]; [done|..].
  + cbn in Hi, Hk'. subst. rewrite decide_True in Hk' by done. by injection Hk' as ->.
  + destruct Hl as (k1 & k2 & Hne & H1 & H2). by rewrite (Honly k1 H1), (Honly k2 H2) in Hne.
Qed.
End read.

(** ** Nodes that belong to no tree *)

(** [traverseAndMark]: the nodes met are marked by the hex string of their hash. *)
Definition markAction : TraverseAction (gset string) := fun _ k _ visited =>
  let key := ConvertBigIntToHex (Some (Key_ToBigInt k)) in
  if decide (key ∈ visited) then Ok (false, visited) else Ok (true, {[key]} ∪ visited).

Definition traverseAndMark (fuel : nat) (db : MemDb) (node : Z) (visited : gset string) : outcome (gset string) :=
  Traverse fuel db node markAction visited.

(** On the in-memory store; its keys are visited in an order of their own. *)
Definition CheckOrphanedNodes (fuel : nat) (order : gmap string (list string) -> list string) (db : MemDb) : outcome (Z * MemDb) :=
  match db_GetLastRoot db with
  | Ok root =>
      match traverseAndMark fuel db root ∅ with
      | Ok visited =>
          let orphanedNodes := filter (fun key => key ∉ visited) (order (Db db)) in
          let rootKey := ConvertBigIntToHex (Some root) in
          db ← foldl (fun acc node => db ← acc; if decide (node = rootKey) then Ok db else Mem_Delete node db) (Ok db) orphanedNodes;
          Ok (Z.of_nat (length orphanedNodes), db)
      | Err _ => Ok (0, db)
      | Panic => Panic
      end
  | Err _ => Ok (0, db)
  | Panic => Panic
  end.

Section orphans.
Context (Hash : list Z -> NodeKey -> NodeKey) (Hash_range : forall i c, key_ok (Hash i c)).

Definition hexOf (x : list Z * NodeKey) : string := hexKey (Hash (fst x) (snd x)).

Lemma markAction_new p h v visited : hexKey h ∉ visited -> markAction p h v visited = Ok (true, {[hexKey h]} ∪ visited).
Proof. intros Hn. unfold markAction. by rewrite decide_False. Qed.

Lemma walk_mark t : forall d p visited, NoDup (map hexOf (inner Hash d t)) ->
  (forall x, x ∈ inner Hash d t -> hexOf x ∉ visited) ->
  walk Hash markAction d p t visited = Ok (list_to_set (map hexOf (inner Hash d t)) ∪ visited).
Proof.
  induction t as [|k v|l IHl r IHr]; intros d p visited Hnd Hdis; cbn [walk inner map list_to_set].
  - by rewrite union_empty_l_L.
  - rewrite markAction_new by (apply (Hdis (leafInput Hash d k v, LeafCapacity)); left). rewrite bind_ok. cbn [snd]. by rewrite union_empty_r_L.
  - set (x := (ConcatArrays4 (th Hash (S d) l) (th Hash (S d) r), BranchCapacity)).
    rewrite markAction_new by (apply (Hdis x); left). rewrite bind_ok. change (hexKey (th Hash d (B l r))) with (hexOf x).
    cbn [inner map] in Hnd. apply NoDup_cons in Hnd as [Hx Hnd]. rewrite map_app in Hx, Hnd. apply NoDup_app in Hnd as (Nl & Hlr & Nr).
    assert (forall y d t, y ∈ inner Hash d t -> hexOf y ∈ map hexOf (inner Hash d t)) as Hmap.
    { intros y d' t' Hy. by apply (list_elem_of_fmap_2 hexOf). }
    rewrite IHl; [rewrite bind_ok, IHr; [|done|]|done|].
    + f_equal. rewrite map_app, list_to_set_app_L. apply set_eq. intros z. rewrite !elem_of_union. tauto.
    + intros y Hy Hc. apply elem_of_union in Hc as [Hc|[Hc%elem_of_singleton|Hc]%elem_of_union].
      * apply elem_of_list_to_set in Hc. apply (Hlr _ Hc). by apply Hmap.
      * apply Hx. fold x. rewrite <- Hc. apply elem_of_app. right. by apply Hmap.
      * apply (Hdis y); [right; apply elem_of_app; by right|done].
    + intros y Hy Hc. apply elem_of_union in Hc as [Hc%elem_of_singleton|Hc].
      * apply Hx. fold x. rewrite <- Hc. apply elem_of_app. left. by apply Hmap.
      * apply (Hdis y); [right; apply elem_of_app; by left|done].
Qed.

(** Deleting the nodes that are not to be kept. *)
Lemma deleteNodes_ok rootKey nodes : forall db, exists db',
  foldl (fun acc node => db ← acc; if decide (node = rootKey) then Ok db else Mem_Delete node db) (Ok db) nodes = Ok db' /\
  Mem_GetLastRoot db' = Mem_GetLastRoot db /\
  forall key, Db db' !! key = if decide (key ∈ nodes /\ key <> rootKey) then None else Db db !! key.
Proof.
  induction nodes as [|node nodes IH]; intros db; cbn [foldl].
  { exists db. split; [done|]. split; [done|]. intros key. rewrite decide_False; [done|]. intros [Hk _]. by apply not_elem_of_nil in Hk. }
  rewrite bind_ok. destruct (decide (node = rootKey)) as [->|Hne].
  - destruct (IH db) as (db' & He & Hr & Hd). exists db'. split; [done|]. split; [done|]. intros key. rewrite Hd.
    repeat case_decide; try done; set_unfold; tauto.
  - unfold Mem_Delete. destruct (IH (set_Db (delete node (Db db)) db)) as (db' & He & Hr & Hd). exists db'. split; [done|].
    split; [done|]. intros key. rewrite Hd. cbn. destruct (decide (key = node)) as [->|Hk].
    + rewrite lookup_delete_eq, (decide_True (P := node ∈ node :: nodes /\ node <> rootKey)) by (split; [left|done]). by case_decide.
    + rewrite lookup_delete_ne by done. repeat case_decide; try done; set_unfold; tauto.
Qed.

Lemma Get_kept (db db' : MemDb) h : Db db' !! hexKey h = Db db !! hexKey h -> db_Get db' h = db_Get db h.
Proof. intros He. cbn. unfold Mem_Get. by rewrite He. Qed.

Lemma walk_value_gone db k t : forall d s, placed d t -> (d <= 256)%nat -> stored_inner Hash db d t ->
  (forall v, tget d k t = Some v -> Db db !! hexKey (valHash Hash v) = None) -> inT k t ->
  walk Hash (valueAction db (GetPath k)) d (take d (GetPath k)) t s = Panic.
Proof.
  assert (forall t d p s, HasPrefix (GetPath k) p = false -> walk Hash (valueAction db (GetPath k)) d p t s = Ok s) as Hoff.
  { intros t' d p s Hp. destruct t'; cbn [walk]; unfold valueAction; rewrite ?Hp; done. }
  induction t as [|k' v'|l IHl r IHr]; intros d s Hp Hd Hs Hgone Hi; [done|..]; cbn [walk tget] in *; rewrite valueAction_path.
  - cbn [node_of]. rewrite IsFinalNode_node12. cbn [w0 LeafCapacity Z.eqb Pos.eqb]. destruct Hp as [Hk' Hv']. cbn in Hi. subst k'.
    rewrite decide_True in Hgone by done. unfold readValue.
    destruct (Get_node12 (RemoveKeyBits k (Z.of_nat d)) (valHash Hash v') LeafCapacity) as [_ ->];
      [by apply RemoveKeyBits_ok|apply Hash_range|].
    rewrite bind_ok. cbn [db_Get MemDb_SmtDb]. unfold Mem_Get. by rewrite (Hgone v' eq_refl).
  - cbn [node_of]. rewrite IsFinalNode_node12. cbn [w0 BranchCapacity Z.eqb]. rewrite bind_ok.
    destruct Hp as (Hd' & Hl & Hr & Pl & Pr). apply stored_inner_halves in Hs as [Sl Sr].
    pose proof (HasPrefix_path k d false Hd') as H0. pose proof (HasPrefix_path k d true Hd') as H1. cbn [Z.b2z] in H0, H1.
    assert (inT k (if bit k d then r else l)) as Hi'.
    { destruct Hi as [Hi|Hi]; [by rewrite (Hl k Hi)|by rewrite (Hr k Hi)]. }
    destruct (bit k d) eqn:Hb; cbn [Bool.eqb] in H0, H1.
    + rewrite Hoff, bind_ok by done. assert (take d (GetPath k) ++ [1] = take (S d) (GetPath k)) as -> by (by rewrite take_S_path, Hb by done).
      apply IHr; (done || lia).
    + assert (take d (GetPath k) ++ [0] = take (S d) (GetPath k)) as -> by (by rewrite take_S_path, Hb by done).
      by rewrite IHl by (done || lia).
Qed.

(** What the search for orphaned nodes removes.  On an in-memory store that holds a
    tree whose branches and leaves have different hashes, [CheckOrphanedNodes] keeps
    exactly the entries of those branches and leaves; it removes the values, too,
    because the traversal does not follow a leaf to its value.  Afterwards the reading
    of any key of the tree panics. *)
Theorem orphans_removed fuel order db t m : (256 < fuel)%nat -> tree_ok t -> holds t m -> t <> E -> nonzero Hash 0 t ->
  keeps_tree Hash db t -> NoDup (map hexOf (inner Hash 0 t)) -> (forall x, order x ≡ₚ map fst (map_to_list x)) ->
  exists n db', CheckOrphanedNodes fuel order db = Ok (n, db') /\
    (forall key, Db db' !! key = if decide (key ∈ map hexOf (inner Hash 0 t)) then Db db !! key else None) /\
    forall k v, m !! k = Some v -> hexKey (valHash Hash v) ∉ map hexOf (inner Hash 0 t) -> getValueInBytes fuel db' k = Panic.
Proof.
  intros Hf Ht Hh HtE Hn Hk Hnd Hord. pose proof (Traverse_walk Hash Hash_range markAction fuel db t ∅ Hf Ht Hn Hk) as Hw.
  destruct Hk as [Hroot Hst]. rewrite walk_mark in Hw by (done || set_solver). rewrite union_empty_r_L in Hw.
  unfold CheckOrphanedNodes, traverseAndMark. rewrite Hroot in Hw |- *. rewrite bind_ok in Hw. rewrite Hw.
  set (visited := list_to_set (map hexOf (inner Hash 0 t)) : gset string).
  set (orphaned := filter (fun key => key ∉ visited) (order (Db db))).
  destruct (deleteNodes_ok (ConvertBigIntToHex (Some (Key_ToBigInt (th Hash 0 t)))) orphaned db) as (db' & Hdel & Hroot' & Hd).
  rewrite Hdel, bind_ok. eexists _, db'. split; [done|].
  assert (hexKey (th Hash 0 t) ∈ map hexOf (inner Hash 0 t)) as Hrk by (destruct t; [done|left..]).
  assert (forall key, Db db' !! key = if decide (key ∈ map hexOf (inner Hash 0 t)) then Db db !! key else None) as Hkeep.
  { intros key. rewrite Hd. destruct (Db db !! key) as [x|] eqn:Hx; [|by repeat case_decide].
    assert (key ∈ order (Db db)) as Ho.
    { rewrite Hord. apply list_elem_of_fmap. exists (key, x). split; [done|]. by apply elem_of_map_to_list. }
    assert (key ∈ orphaned <-> key ∉ map hexOf (inner Hash 0 t)) as Hiff.
    { unfold orphaned, visited. rewrite list_elem_of_filter, elem_of_list_to_set. tauto. }
    change (ConvertBigIntToHex (Some (Key_ToBigInt (th Hash 0 t)))) with (hexKey (th Hash 0 t)).
    repeat case_decide; try done; [tauto|]. destruct (decide (key = hexKey (th Hash 0 t))) as [->|]; tauto. }
  split; [done|]. intros k v Hv Hgone.
  assert (stored_inner Hash db' 0 t) as Hin.
  { apply Forall_forall. intros x Hx. pose proof (stored_inner_of Hash db 0 t Hst) as Hs. unfold stored_inner in Hs.
    rewrite Forall_forall in Hs. specialize (Hs x Hx). unfold has in *. rewrite <- Hs. apply Get_kept. rewrite Hkeep.
    rewrite decide_True; [done|]. by apply (list_elem_of_fmap_2 hexOf). }
  unfold getValueInBytes. cbn [db_GetLastRoot MemDb_SmtDb] in Hroot |- *. rewrite Hroot', Hroot, bind_ok.
  destruct Ht as [Hp Hc]. unfold Traverse. rewrite (traverse_walk Hash Hash_range) by (done || lia).
  rewrite <- Hh in Hv. apply (walk_value_gone db' k t 0 []); [done|lia|done| |by eapply tget_inT].
  intros v' Hv'. rewrite Hv in Hv'. injection Hv' as <-. rewrite Hkeep. by rewrite decide_False.
Qed.
End orphans.

(** ** Witnesses *)

(** The key that is alone in a tree is read under another key, too. *)
Definition example_single : MemDb :=
  match Inserts toyHash [(example_key 1, example_value 10)] NewMemDb with Ok d => d | _ => NewMemDb end.

Lemma example_single_keeps : keeps_tree toyHash example_single (Leaf (example_key 1) (example_value 10)).
Proof.
  split; [vm_compute; reflexivity|]. repeat (apply Forall_cons; split; [vm_compute; reflexivity|]). by apply Forall_nil.
Qed.

Lemma example_single_ok : tree_ok (Leaf (example_key 1) (example_value 10)) /\
  holds (Leaf (example_key 1) (example_value 10)) {[example_key 1 := example_value 10]}.
Proof.
  split; [split; [split; [apply example_key_ok; lia|apply example_value_ok; lia]|done]|].
  intros k. cbn [tget]. destruct (decide (k = example_key 1)) as [->|Hne]; [by rewrite lookup_singleton_eq|by rewrite lookup_singleton_ne].
Qed.

Lemma read_values_witness :
  getValueInBytes 257 example_single (example_key 1) = Ok [10] /\ getValueInBytes 257 example_single (example_key 2) = Ok [10].
Proof.
  destruct example_single_ok as [Ht Hh]. split.
  - apply (read_values toyHash toyHash_range 257 example_single (Leaf (example_key 1) (example_value 10))
      {[example_key 1 := example_value 10]} (example_key 1)) with (v := example_value 10);
      [lia|exact Ht|exact Hh|by decide_compute|exact example_single_keeps|apply lookup_singleton_eq].
  - apply (read_values toyHash toyHash_range 257 example_single (Leaf (example_key 1) (example_value 10))
      {[example_key 1 := example_value 10]} (example_key 2)) with (k' := example_key 1) (v' := example_value 10);
      [lia|exact Ht|exact Hh|by decide_compute|exact example_single_keeps|reflexivity].
Defined.

Lemma orphans_removed_witness : exists n db',
  CheckOrphanedNodes 257 (fun x => map fst (map_to_list x)) example_single = Ok (n, db') /\
  getValueInBytes 257 db' (example_key 1) = Panic.
Proof.
  destruct example_single_ok as [Ht Hh].
  destruct (orphans_removed toyHash toyHash_range 257 (fun x => map fst (map_to_list x)) example_single
    (Leaf (example_key 1) (example_value 10)) {[example_key 1 := example_value 10]}) as (n & db' & Hc & _ & Hp);
    [lia|exact Ht|exact Hh|discriminate|by decide_compute|exact example_single_keeps|apply NoDup_singleton|reflexivity|].
  exists n, db'. split; [exact Hc|]. apply (Hp (example_key 1) (example_value 10)); [apply lookup_singleton_eq|].
  intros Hin. apply list_elem_of_singleton in Hin. vm_compute in Hin. discriminate Hin.
Defined.
