(* ===== verification/SmtProof.v ===== *)
(** * Proofs of the contents of the sparse Merkle tree (smt/pkg/smt/proof.go)

    [BuildProofs] collects the nodes on the paths that are to be retained,
    [FilterProofs] picks those of one key, and [VerifyAndGetVal] checks them against
    a root: it returns the value of the key, or nothing if the proof shows that the
    key is absent.  Proofs that are built are accepted with the right result, and
    whatever proof is accepted, the result is right. *)
From S2P Require Import Prelude Bytes SmtUtils SmtTree SmtDb Smt SmtRefine RetainList SmtRead.

Record SMTProofElement := mkElement { Path : list Z; Proof : list Z }.

Definition FilterProofs (proofs : list SMTProofElement) (key : NodeKey) : list (list Z) :=
  map Proof (filter (fun p => HasPrefix (GetPath key) (Path p) = true) proofs).

(** The two halves of a node as 64 bytes, with one more for a leaf. *)
Definition nodeBytes (v : NodeValue12) : outcome (list Z) :=
  a ← Get0to4 v;
  b ← Get4to8 v;
  Ok (be_encode 32 (ArrayToScalar (words a)) ++ be_encode 32 (ArrayToScalar (words b)) ++ (if IsFinalNode v then [1] else [])).

Section build.
Context {D : Type} `{SmtDb D}.
(** The decider has a state of its own. *)
Context {R : Type} (Retain : list Z -> R -> outcome (bool * R)).

Definition proofAction (db : D) : TraverseAction (R * list SMTProofElement) := fun prefix _ v st =>
  let '(rd, proofs) := st in
  r ← Retain prefix rd;
  let '(retain, rd) := r : bool * R in
  if negb retain then Ok (false, (rd, proofs))
  else
    b ← nodeBytes v;
    let proofs := proofs ++ [mkElement prefix b] in
    if IsFinalNode v then
      vInBytes ← readValue db v;
      Ok (false, (rd, proofs ++ [mkElement prefix vInBytes]))
    else Ok (true, (rd, proofs)).

Definition BuildProofs (fuel : nat) (db : D) (rd : R) : outcome (list SMTProofElement) :=
  root ← db_GetLastRoot db;
  st ← Traverse fuel db root (proofAction db) (rd, []);
  Ok (snd st).
End build.

Section verify.
Context (Hash : list Z -> NodeKey -> NodeKey).

(** [ScalarToArray(SetBytes(b))] as the array of a key. *)
Definition keyFromBytes (b : list Z) : outcome NodeKey :=
  let a := ScalarToArray (be_decode b) in
  x ← index a 0; y ← index a 1; z ← index a 2; w ← index a 3; Ok (mkKey x y z w).

(** How the loop ends: the key is absent, its value has this hash, or the proof is too short. *)
Inductive verdict := Absent | ValueHash (h : NodeKey) | Insufficient.

Fixpoint verifyLoop (path : list Z) (key : NodeKey) (proof : list (list Z)) (i : nat) (curRoot : NodeKey) : outcome verdict :=
  match proof with
  | [] => Ok Insufficient
  | p :: proof =>
      let isFinalNode := Z.of_nat (length p) =? 65 in
      let capacity := if isFinalNode then LeafCapacity else BranchCapacity in
      l ← slice p 0 32; leftChildNode ← keyFromBytes l;
      r ← slice p 32 64; rightChildNode ← keyFromBytes r;
      let h := Hash (ConcatArrays4 leftChildNode rightChildNode) capacity in
      if negb (bool_decide (curRoot = h)) then Err "root mismatch"
      else if negb isFinalNode then
        b ← index path (Z.of_nat i);
        let curRoot := if b =? 0 then leftChildNode else rightChildNode in
        if Key_IsZero curRoot then Ok Absent else verifyLoop path key proof (S i) curRoot
      else
        used ← slice path 0 (Z.of_nat i);
        if IsEqualTo (JoinKey used leftChildNode) key then Ok (ValueHash rightChildNode) else Ok Absent
  end.

(** [None] is a nil slice. *)
Definition VerifyAndGetVal (stateRoot : NodeKey) (proof : list (list Z)) (key : NodeKey) : outcome (option (list Z)) :=
  if (length proof =? 0)%nat then Err "proof is empty"
  else
    r ← verifyLoop (GetPath key) key proof 0 stateRoot;
    match r with
    | Absent => Ok None
    | Insufficient => Err "proof is insufficient to verify the non-existence of the value"
    | ValueHash curRoot =>
        lastElement ← index proof (Z.of_nat (length proof) - 1);
        nodeValue ← NodeValue8FromBigIntArray (map Some (ScalarToArrayBig (be_decode lastElement)));
        if negb (bool_decide (Hash (ToUintArray nodeValue) BranchCapacity = curRoot)) then Err "root mismatch"
        else Ok (Some lastElement)
    end.
End verify.

(** ** Bytes of nodes *)

Lemma ScalarToArray_key z : exists k, ScalarToArray z = words k /\ key_ok k.
Proof.
  assert (forall x, 0 <= bigUint64 x < 2 ^ 64) as Hb by (intros; apply Z.mod_pos_bound; lia).
  set (f i := bigUint64 (Z.land (Z.shiftr z (64 * i)) 0xFFFFFFFFFFFFFFFF)). exists (mkKey (f 0) (f 1) (f 2) (f 3)).
  split; [reflexivity|]. intros [|[|[|[|i]]]] Hi; [apply Hb..|lia].
Qed.

Lemma keyFromBytes_ok b : exists k, keyFromBytes b = Ok k /\ key_ok k.
Proof. destruct (ScalarToArray_key (be_decode b)) as (k & He & Hk). exists k. unfold keyFromBytes. rewrite He. by destruct k. Qed.

Lemma ScalarToArray_ToBigInt k : key_ok k -> ScalarToArray (Key_ToBigInt k) = words k.
Proof.
  intros Hk. pose proof (ScalarToRoot_ToBigInt k Hk) as Hr. rewrite <- Hr at 2. unfold ScalarToArray, ScalarToRoot, words.
  cbn [map w0 w1 w2 w3]. change 0xFFFFFFFFFFFFFFFF with (Z.ones 64). rewrite !Z.land_ones by lia.
  rewrite !Z.shiftr_div_pow2 by lia. rewrite !Z.div_div by lia.
  change (2 ^ (64 * 0)) with 1. change (2 ^ (64 * 1)) with (2 ^ 64). change (2 ^ (64 * 2)) with (2 ^ 64 * 2 ^ 64).
  change (2 ^ (64 * 3)) with (2 ^ 64 * 2 ^ 64 * 2 ^ 64). by rewrite Z.div_1_r.
Qed.

Lemma keyFromBytes_encode k : key_ok k -> keyFromBytes (be_encode 32 (ArrayToScalar (words k))) = Ok k.
Proof.
  intros Hk. unfold keyFromBytes. pose proof (Key_ToBigInt_range k Hk) as Hr. unfold Key_ToBigInt in Hr.
  rewrite be_decode_encode_small by (change (256 ^ Z.of_nat 32) with (2 ^ 256); lia).
  change (ArrayToScalar (words k)) with (Key_ToBigInt k). rewrite ScalarToArray_ToBigInt by done. by destruct k.
Qed.

Definition bytesOf (a b : NodeKey) (leaf : bool) : list Z :=
  be_encode 32 (ArrayToScalar (words a)) ++ be_encode 32 (ArrayToScalar (words b)) ++ (if leaf then [1] else []).

Lemma nodeBytes_node12 a b cap : key_ok a -> key_ok b -> nodeBytes (node12 a b cap) = Ok (bytesOf a b (w0 cap =? 1)).
Proof.
  intros Ha Hb. unfold nodeBytes. destruct (Get_node12 a b cap Ha Hb) as [-> ->]. rewrite !bind_ok. by rewrite IsFinalNode_node12.
Qed.

Lemma bytesOf_length a b leaf : (Z.of_nat (length (bytesOf a b leaf)) =? 65) = leaf.
Proof. unfold bytesOf. rewrite !length_app, !be_encode_length. by destruct leaf. Qed.

Lemma bytesOf_left a b leaf : key_ok a -> (l ← slice (bytesOf a b leaf) 0 32; keyFromBytes l) = Ok a.
Proof.
  intros Ha. unfold bytesOf.
  rewrite (slice_at _ [] (be_encode 32 (ArrayToScalar (words a))) (be_encode 32 (ArrayToScalar (words b)) ++ (if leaf then [1] else []))), bind_ok;
    [by apply keyFromBytes_encode|done|done|by rewrite be_encode_length].
Qed.

Lemma bytesOf_right a b leaf : key_ok b -> (r ← slice (bytesOf a b leaf) 32 64; keyFromBytes r) = Ok b.
Proof.
  intros Hb. unfold bytesOf.
  rewrite (slice_at _ (be_encode 32 (ArrayToScalar (words a))) (be_encode 32 (ArrayToScalar (words b))) (if leaf then [1] else [])), bind_ok;
    [by apply keyFromBytes_encode|done|by rewrite be_encode_length|by rewrite be_encode_length].
Qed.

(** ** Values of 32-bit limbs *)

Definition limbs_ok (v : list Z) : Prop := length v = 8%nat /\ Forall (fun w => 0 <= w < 2 ^ 32) v.

Lemma limbs_value_ok v : limbs_ok v -> value_ok v.
Proof. intros [Hl Hv]. split; [done|]. eapply Forall_impl; [exact Hv|]. unfold word_ok. intros; simpl in *; lia. Qed.

Lemma ArrayBigToScalar_nonneg v : Forall (fun w => 0 <= w < 2 ^ 32) v -> 0 <= ArrayBigToScalar v.
Proof.
  induction 1 as [|w v Hw _ IH]; [done|]. unfold ArrayBigToScalar in *. cbn [foldr]. rewrite Z.shiftl_mul_pow2 by lia. lia.
Qed.

(** Limb [i] of a number. *)
Lemma ArrayBigToScalar_limb v : Forall (fun w => 0 <= w < 2 ^ 32) v -> forall i w, v !! i = Some w ->
  Z.land (Z.shiftr (ArrayBigToScalar v) (32 * Z.of_nat i)) 4294967295 = w.
Proof.
  induction 1 as [|w v Hw Hv IH]; intros i x Hi; [done|]. unfold ArrayBigToScalar in *. cbn [foldr].
  rewrite land_mask32 in *. rewrite (Z.add_comm _ w), Z.shiftl_mul_pow2 by lia. set (y := foldr _ _ v) in *. destruct i as [|i].
  - injection Hi as <-. change (32 * Z.of_nat 0) with 0. rewrite Z.shiftr_0_r, Z.mod_add by lia. apply Z.mod_small. lia.
  - cbn in Hi. replace (32 * Z.of_nat (S i)) with (32 + 32 * Z.of_nat i) by lia. rewrite <- Z.shiftr_shiftr by lia.
    rewrite (Z.shiftr_div_pow2 _ 32), Z.div_add, Z.div_small by lia. specialize (IH i x Hi). rewrite land_mask32 in IH.
    by rewrite Z.add_0_l.
Qed.

Lemma ScalarToArrayBig_ArrayBigToScalar v : limbs_ok v -> ScalarToArrayBig (ArrayBigToScalar v) = v.
Proof.
  intros [Hl Hv]. pose proof (ArrayBigToScalar_limb v Hv) as Hi.
  destruct v as [|a0 [|a1 [|a2 [|a3 [|a4 [|a5 [|a6 [|a7 [|? ?]]]]]]]]]; try done. unfold ScalarToArrayBig. cbn [map].
  set (x := ArrayBigToScalar _) in *. repeat f_equal.
  all: match goal with |- _ = ?a => idtac end.
  - by apply (Hi 0%nat). - by apply (Hi 1%nat). - by apply (Hi 2%nat). - by apply (Hi 3%nat).
  - by apply (Hi 4%nat). - by apply (Hi 5%nat). - by apply (Hi 6%nat). - by apply (Hi 7%nat).
Qed.

Section theory.
Context {D : Type} `{SmtDb D}.
Context (Hash : list Z -> NodeKey -> NodeKey) (Hash_range : forall i c, key_ok (Hash i c)).

(** ** What is built *)

(** The bytes of the node of a tree. *)
Definition treeBytes (d : nat) (t : tree) : list Z :=
  match t with
  | E => []
  | Leaf k v => bytesOf (RemoveKeyBits k (Z.of_nat d)) (valHash Hash v) true
  | B l r => bytesOf (th Hash (S d) l) (th Hash (S d) r) false
  end.

Lemma nodeBytes_tree d t : (d <= 256)%nat -> placed d t -> t <> E -> nodeBytes (node_of Hash d t) = Ok (treeBytes d t).
Proof.
  intros Hd Hp Ht. destruct t; [done|..]; cbn [node_of treeBytes]; rewrite nodeBytes_node12; try done.
  - apply RemoveKeyBits_ok; [done|apply Hp].
  - apply Hash_range.
  - by apply th_ok.
  - by apply th_ok.
Qed.

(** The proof of a key: the nodes on its path, and the value of the leaf there. *)
Fixpoint proof_of (d : nat) (k : NodeKey) (t : tree) : list (list Z) :=
  match t with
  | E => []
  | Leaf _ v => [treeBytes d t; value_bytes v]
  | B l r => treeBytes d t :: proof_of (S d) k (if bit k d then r else l)
  end.

Section decider.
Context {R : Type} (Retain : list Z -> R -> outcome (bool * R)) (I : R -> Prop) (keep : list Z -> bool).
Context (Retain_keep : forall p rd, I rd -> exists rd', Retain p rd = Ok (keep p, rd') /\ I rd').

Lemma proofAction_tree db d p h t rd acc rd1 : (d <= 256)%nat -> placed d t -> t <> E -> Retain p rd = Ok (keep p, rd1) ->
  proofAction Retain db p h (node_of Hash d t) (rd, acc) =
    if keep p then
      let acc := acc ++ [mkElement p (treeBytes d t)] in
      if IsFinalNode (node_of Hash d t) then
        vInBytes ← readValue db (node_of Hash d t); Ok (false, (rd1, acc ++ [mkElement p vInBytes]))
      else Ok (true, (rd1, acc))
    else Ok (false, (rd1, acc)).
Proof.
  intros Hd Hp Ht Hr. unfold proofAction. rewrite Hr, bind_ok. destruct (keep p); [|done]. cbn [negb].
  by rewrite nodeBytes_tree, bind_ok.
Qed.

(** All elements collected below a prefix begin with it. *)
Definition below (p : list Z) (e : SMTProofElement) : Prop := exists q, Path e = p ++ q.

Lemma below_snoc p i e : below (p ++ [i]) e -> below p e.
Proof. intros [q Hq]. exists (i :: q). by rewrite Hq, <- app_assoc. Qed.

Lemma below_self p b : below p (mkElement p b).
Proof. exists []. by rewrite app_nil_r. Qed.

(** The walk answers, and adds elements below its prefix only. *)
Lemma walk_proofs db t : forall d p rd acc, placed d t -> stored Hash db d t -> (d <= 256)%nat -> I rd ->
  exists rd' new, walk Hash (proofAction Retain db) d p t (rd, acc) = Ok (rd', acc ++ new) /\ I rd' /\ Forall (below p) new.
Proof.
  induction t as [|k v|l IHl r IHr]; intros d p rd acc Hp Hs Hd HI; cbn [walk].
  { exists rd, []. by rewrite app_nil_r. }
  all: destruct (Retain_keep p rd HI) as (rd1 & Hret & HI1); rewrite (proofAction_tree db d p _ _ rd acc rd1) by done.
  all: destruct (keep p); [|rewrite bind_ok; exists rd1, []; by rewrite app_nil_r]; cbv zeta.
  - change (IsFinalNode (node_of Hash d (Leaf k v))) with true. cbv iota. destruct Hp as [Hk Hv]. rewrite (readValue_ok Hash Hash_range), !bind_ok by (done || by apply Forall_cons in Hs as [_ [Hs _]%Forall_cons]).
    cbn [snd]. exists rd1, [mkElement p (treeBytes d (Leaf k v)); mkElement p (value_bytes v)].
    split; [by rewrite <- app_assoc|]. split; [done|]. repeat (apply Forall_cons; split; [apply below_self|]). by apply Forall_nil.
  - change (IsFinalNode (node_of Hash d (B l r))) with false. cbv iota. rewrite bind_ok.
    destruct Hp as (Hd' & _ & _ & Pl & Pr). apply stored_halves in Hs as [Sl Sr].
    destruct (IHl (S d) (p ++ [0]) rd1 (acc ++ [mkElement p (treeBytes d (B l r))])) as (rd2 & new1 & -> & HI2 & B1); [done|done|lia|done|].
    rewrite bind_ok. destruct (IHr (S d) (p ++ [1]) rd2 ((acc ++ [mkElement p (treeBytes d (B l r))]) ++ new1)) as (rd3 & new2 & -> & HI3 & B2);
      [done|done|lia|done|].
    exists rd3, (mkElement p (treeBytes d (B l r)) :: new1 ++ new2). split; [by rewrite <- !app_assoc|]. split; [done|].
    apply Forall_cons. split; [apply below_self|]. apply Forall_app. split; (eapply Forall_impl; [eassumption|]); intros; by eapply below_snoc.
Qed.

Lemma HasPrefix_shorter x p q : HasPrefix x (p ++ q) = true -> HasPrefix x p = true.
Proof.
  unfold HasPrefix. rewrite !bool_decide_eq_true, length_app. intros He.
  apply (f_equal (take (length p))) in He. by rewrite take_take, take_app_length, Nat.min_l in He by lia.
Qed.

Lemma FilterProofs_app es1 es2 k : FilterProofs (es1 ++ es2) k = FilterProofs es1 k ++ FilterProofs es2 k.
Proof. unfold FilterProofs. by rewrite filter_app, map_app. Qed.

Lemma FilterProofs_cons e es k : HasPrefix (GetPath k) (Path e) = true -> FilterProofs (e :: es) k = Proof e :: FilterProofs es k.
Proof. intros He. unfold FilterProofs. by rewrite filter_cons_True. Qed.

Lemma FilterProofs_off p es k : HasPrefix (GetPath k) p = false -> Forall (below p) es -> FilterProofs es k = [].
Proof.
  intros Hp Hes. unfold FilterProofs. induction Hes as [|e es [q Hq] _ IH]; [done|]. rewrite filter_cons_False; [done|].
  intros Hc. rewrite Hq in Hc. apply HasPrefix_shorter in Hc. congruence.
Qed.

Lemma walk_path db k t : (forall j, (j <= 256)%nat -> keep (take j (GetPath k)) = true) ->
  forall d rd acc, placed d t -> stored Hash db d t -> (d <= 256)%nat -> I rd ->
  exists rd' new, walk Hash (proofAction Retain db) d (take d (GetPath k)) t (rd, acc) = Ok (rd', acc ++ new) /\ I rd' /\
    FilterProofs new k = proof_of d k t.
Proof.
  intros Hkeep. induction t as [|k' v|l IHl r IHr]; intros d rd acc Hp Hs Hd HI; cbn [walk proof_of].
  { exists rd, []. by rewrite app_nil_r. }
  all: destruct (Retain_keep (take d (GetPath k)) rd HI) as (rd1 & Hret & HI1); rewrite (proofAction_tree db d _ _ _ rd acc rd1) by done.
  all: rewrite Hkeep by done; cbv zeta.
  - change (IsFinalNode (node_of Hash d (Leaf k' v))) with true. cbv iota. destruct Hp as [Hk Hv].
    rewrite (readValue_ok Hash Hash_range), !bind_ok by (done || by apply Forall_cons in Hs as [_ [Hs _]%Forall_cons]).
    cbn [snd]. exists rd1, [mkElement (take d (GetPath k)) (treeBytes d (Leaf k' v)); mkElement (take d (GetPath k)) (value_bytes v)].
    split; [by rewrite <- app_assoc|]. split; [done|]. by rewrite !FilterProofs_cons by apply HasPrefix_take.
  - change (IsFinalNode (node_of Hash d (B l r))) with false. cbv iota. rewrite bind_ok.
    destruct Hp as (Hd' & _ & _ & Pl & Pr). apply stored_halves in Hs as [Sl Sr].
    pose proof (HasPrefix_path k d false Hd') as H0. pose proof (HasPrefix_path k d true Hd') as H1. cbn [Z.b2z] in H0, H1.
    set (e := mkElement (take d (GetPath k)) (treeBytes d (B l r))). pose proof (take_S_path k d Hd') as Hts.
    destruct (bit k d); cbn [Z.b2z Bool.eqb] in Hts, H0, H1; rewrite <- Hts.
    + destruct (walk_proofs db l (S d) (take d (GetPath k) ++ [0]) rd1 (acc ++ [e])) as (rd2 & new1 & -> & HI2 & B1); [done|done|lia|done|].
      rewrite bind_ok. destruct (IHr (S d) rd2 ((acc ++ [e]) ++ new1)) as (rd3 & new2 & -> & HI3 & Hf); [done|done|lia|done|].
      exists rd3, (e :: new1 ++ new2). split; [by rewrite <- !app_assoc|]. split; [done|].
      by rewrite FilterProofs_cons, FilterProofs_app, (FilterProofs_off _ _ _ H0 B1), Hf by apply HasPrefix_take.
    + destruct (IHl (S d) rd1 (acc ++ [e])) as (rd2 & new1 & -> & HI2 & Hf); [done|done|lia|done|]. rewrite bind_ok.
      destruct (walk_proofs db r (S d) (take d (GetPath k) ++ [1]) rd2 ((acc ++ [e]) ++ new1)) as (rd3 & new2 & -> & HI3 & B2);
        [done|done|lia|done|].
      exists rd3, (e :: new1 ++ new2). split; [by rewrite <- !app_assoc|]. split; [done|].
      by rewrite FilterProofs_cons, FilterProofs_app, (FilterProofs_off _ _ _ H1 B2), app_nil_r, Hf by apply HasPrefix_take.
Qed.

Lemma BuildProofs_ok fuel db rd t k : (256 < fuel)%nat -> tree_ok t -> nonzero Hash 0 t -> keeps_tree Hash db t -> I rd ->
  (forall j, (j <= 256)%nat -> keep (take j (GetPath k)) = true) ->
  exists proofs, BuildProofs Retain fuel db rd = Ok proofs /\ FilterProofs proofs k = proof_of 0 k t.
Proof.
  intros Hf Ht Hn Hk HI Hkeep. unfold BuildProofs.
  destruct (walk_path db k t Hkeep 0 rd []) as (rd' & new & Hw & _ & Hfil); [apply Ht|apply Hk|lia|done|].
  pose proof (Traverse_walk Hash Hash_range (proofAction Retain db) fuel db t (rd, []) Hf Ht Hn Hk) as Htr.
  destruct Hk as [Hr _]. rewrite Hr, bind_ok in Htr. rewrite Hr, bind_ok, Htr.
  change (take 0 (GetPath k)) with (@nil Z) in Hw. rewrite Hw, bind_ok. eauto.
Qed.
End decider.

(** ** What is accepted *)

(** The node that an element of a proof stands for. *)
Definition elementInput (p : list Z) : outcome (list Z * NodeKey) :=
  l ← slice p 0 32; a ← keyFromBytes l;
  r ← slice p 32 64; b ← keyFromBytes r;
  Ok (ConcatArrays4 a b, if Z.of_nat (length p) =? 65 then LeafCapacity else BranchCapacity).

Lemma elementInput_bytes a b leaf : key_ok a -> key_ok b ->
  elementInput (bytesOf a b leaf) = Ok (ConcatArrays4 a b, if leaf then LeafCapacity else BranchCapacity).
Proof.
  intros Ha Hb. unfold elementInput. pose proof (bytesOf_left a b leaf Ha) as Hl. pose proof (bytesOf_right a b leaf Hb) as Hr.
  apply bind_Ok_inv in Hl as (l & -> & Hl). rewrite bind_ok, Hl, bind_ok.
  apply bind_Ok_inv in Hr as (r & -> & Hr). rewrite bind_ok, Hr, bind_ok. by rewrite bytesOf_length.
Qed.

(** One round of the loop, on the node of the element. *)
Lemma verifyLoop_step path key p proof i cur a b (leaf : bool) :
  elementInput p = Ok (ConcatArrays4 a b, if leaf then LeafCapacity else BranchCapacity) ->
  verifyLoop Hash path key (p :: proof) i cur =
    if negb (bool_decide (cur = Hash (ConcatArrays4 a b) (if leaf then LeafCapacity else BranchCapacity))) then Err "root mismatch"
    else if negb leaf then
      c ← index path (Z.of_nat i);
      let cur := if c =? 0 then a else b in
      if Key_IsZero cur then Ok Absent else verifyLoop Hash path key proof (S i) cur
    else
      used ← slice path 0 (Z.of_nat i);
      if IsEqualTo (JoinKey used a) key then Ok (ValueHash b) else Ok Absent.
Proof.
  intros Hi. unfold elementInput in Hi. bind_inv. cbn [verifyLoop]. repeat match goal with Hx : _ = Ok _ |- _ => rewrite Hx, bind_ok; clear Hx end.
  assert (forall x y : list Z * NodeKey, Ok x = Ok y -> x = y) as Hok by (by intros ? ? [=]). apply Hok in Hi.
  pose proof (f_equal snd Hi) as Hc. apply (f_equal fst), ConcatArrays4_inj in Hi as [-> ->]. cbn [snd] in Hc. cbv zeta.
  assert ((Z.of_nat (length p) =? 65) = leaf) as -> by (by destruct (Z.of_nat (length p) =? 65), leaf). done.
Qed.

Lemma index_bit k d : (d < 256)%nat -> index (GetPath k) (Z.of_nat d) = Ok (Z.b2z (bit k d)).
Proof. apply index_path. Qed.

(** The key of a leaf on the path of another key. *)
Lemma leaf_key k k' d : key_ok k' -> (d <= 256)%nat -> agree d k k' -> JoinKey (take d (GetPath k)) (RemoveKeyBits k' (Z.of_nat d)) = k'.
Proof. intros Hk' Hd Ha. rewrite (take_path_ext k k' d) by done. by apply JoinKey_RemoveKeyBits. Qed.

Lemma verify_built k t : forall d, placed d t -> nonzero Hash d t -> under d k t -> (d <= 256)%nat -> t <> E ->
  verifyLoop Hash (GetPath k) k (proof_of d k t) d (th Hash d t) =
    Ok (match tget d k t with Some v => ValueHash (valHash Hash v) | None => Absent end).
Proof.
  induction t as [|k' v'|l IHl r IHr]; intros d Hp Hn Hu Hd Ht; [done|..]; cbn [proof_of treeBytes].
  - destruct Hp as [Hk' Hv']. rewrite (verifyLoop_step _ _ _ _ _ _ (RemoveKeyBits k' (Z.of_nat d)) (valHash Hash v') true);
      [|by apply elementInput_bytes; [apply RemoveKeyBits_ok|apply Hash_range]].
    rewrite bool_decide_true by done. cbn [negb]. rewrite slice_path, bind_ok by done.
    rewrite leaf_key, IsEqualTo_spec by (done || by apply Hu). cbn [tget]. case_bool_decide as Hc.
    + by rewrite decide_True.
    + by rewrite decide_False by congruence.
  - pose proof (under_side d k l r Hp Hu) as Hs. destruct Hp as (Hd' & _ & _ & Pl & Pr), Hn as (_ & Nl & Nr).
    rewrite (verifyLoop_step _ _ _ _ _ _ (th Hash (S d) l) (th Hash (S d) r) false); [|apply elementInput_bytes; by apply th_ok].
    rewrite bool_decide_true by done. cbn [negb]. rewrite index_bit, bind_ok by done. cbv zeta. cbn [tget].
    assert (forall t', nonzero Hash (S d) t' -> (t' <> E -> verifyLoop Hash (GetPath k) k (proof_of (S d) k t') (S d) (th Hash (S d) t') =
      Ok (match tget (S d) k t' with Some v => ValueHash (valHash Hash v) | None => Absent end)) ->
      (if Key_IsZero (th Hash (S d) t') then Ok Absent else verifyLoop Hash (GetPath k) k (proof_of (S d) k t') (S d) (th Hash (S d) t')) =
      Ok (match tget (S d) k t' with Some v => ValueHash (valHash Hash v) | None => Absent end)) as Hgo.
    { intros t' Hn' IH. rewrite Key_IsZero_spec. case_bool_decide as Hz; [|apply IH; by intros ->]. by apply th_zero in Hz as ->. }
    destruct (bit k d); cbn [Z.b2z Z.eqb]; apply Hgo; try done; intros Ht'; [apply IHr|apply IHl]; (done || lia).
Qed.

(** C16: proofs that are built are accepted.  On a store that holds a non-empty tree,
    with a decider that retains all prefixes of the path of a key, [BuildProofs]
    returns, and [VerifyAndGetVal] accepts the elements that [FilterProofs] picks for
    the key: with the bytes of its value if the key is in the tree, with nothing if it
    is not. *)
Theorem proofs_complete {R} (Retain : list Z -> R -> outcome (bool * R)) (I : R -> Prop) (keep : list Z -> bool) fuel db rd t m k :
  (forall p rd, I rd -> exists rd', Retain p rd = Ok (keep p, rd') /\ I rd') -> I rd ->
  (forall j, (j <= 256)%nat -> keep (take j (GetPath k)) = true) ->
  (256 < fuel)%nat -> tree_ok t -> holds t m -> t <> E -> nonzero Hash 0 t -> keeps_tree Hash db t ->
  (forall v, m !! k = Some v -> limbs_ok v) ->
  exists proofs, BuildProofs Retain fuel db rd = Ok proofs /\
    VerifyAndGetVal Hash (th Hash 0 t) (FilterProofs proofs k) k = Ok (value_bytes <$> m !! k).
Proof.
  intros HR HI Hkeep Hf Ht Hh HtE Hn Hk Hlimbs.
  destruct (BuildProofs_ok Retain I keep HR fuel db rd t k) as (proofs & Hb & Hfil); [done..|]. exists proofs. split; [done|].
  rewrite Hfil. destruct Ht as [Hp Hc]. unfold VerifyAndGetVal.
  rewrite (verify_built k t 0), bind_ok by (done || lia || apply under_0).
  assert ((length (proof_of 0 k t) =? 0)%nat = false) as -> by (by destruct t). rewrite <- Hh. pose proof (Hh k) as Hhk. destruct (tget 0 k t) as [v|] eqn:Hg; [|done].
  assert (forall t d, tget d k t = Some v -> exists pre, proof_of d k t = pre ++ [value_bytes v]) as Hlast.
  { clear. induction t as [|k' v'|l IHl r IHr]; intros d Hg; cbn [tget proof_of] in *; [done|..].
    - destruct (decide (k = k')); [|done]. injection Hg as ->. by exists [treeBytes d (Leaf k' v)].
    - destruct (bit k d); [destruct (IHr (S d) Hg) as [pre ->]|destruct (IHl (S d) Hg) as [pre ->]]; by eexists (_ :: pre). }
  destruct (Hlast t 0%nat Hg) as [pre ->].
  rewrite (index_at _ pre [] (value_bytes v)), bind_ok by (done || rewrite length_app; cbn; lia).
  specialize (Hlimbs v (eq_sym Hhk)). change (be_decode (value_bytes v)) with (be_decode (big_bytes (ArrayBigToScalar v))). rewrite be_decode_big_bytes by (by apply ArrayBigToScalar_nonneg, Hlimbs).
  rewrite ScalarToArrayBig_ArrayBigToScalar by done. pose proof (limbs_value_ok v Hlimbs) as [Hl Hw].
  unfold NodeValue8FromBigIntArray. rewrite length_map, Hl. change (negb (Z.of_nat 8 =? 8)) with false. cbv iota. rewrite bind_ok, ToUintArray_some by done.
  by rewrite bool_decide_true.
Qed.

(** The inputs that the check of a proof hashes. *)
Definition proofInputs (proof : list (list Z)) : list (list Z * NodeKey) :=
  omap (fun p => match elementInput p with Ok x => Some x | _ => None end) proof ++
  map (fun p => (ScalarToArrayBig (be_decode p), BranchCapacity)) proof.

Lemma verifyLoop_element path key p proof i cur r : verifyLoop Hash path key (p :: proof) i cur = Ok r ->
  exists a b, elementInput p = Ok (ConcatArrays4 a b, if Z.of_nat (length p) =? 65 then LeafCapacity else BranchCapacity).
Proof.
  cbn [verifyLoop]. cbv zeta. intros Hv. unfold elementInput.
  apply bind_Ok_inv in Hv as (l & -> & Hv). apply bind_Ok_inv in Hv as (a & Ha & Hv).
  apply bind_Ok_inv in Hv as (r' & -> & Hv). apply bind_Ok_inv in Hv as (b & Hb & _). rewrite bind_ok, Ha, !bind_ok, Hb, bind_ok. eauto.
Qed.

Lemma verify_sound k proof : forall t d r, placed d t -> nonzero Hash d t -> under d k t -> (d <= 256)%nat ->
  (forall x y, x ∈ nodes Hash d t -> y ∈ proofInputs proof -> Hash (fst x) (snd x) = Hash (fst y) (snd y) -> x = y) ->
  (forall y, y ∈ proofInputs proof -> Hash (fst y) (snd y) <> zeroKey) ->
  verifyLoop Hash (GetPath k) k proof d (th Hash d t) = Ok r ->
  match r with
  | Absent => tget d k t = None
  | ValueHash h => exists v, tget d k t = Some v /\ h = valHash Hash v
  | Insufficient => True
  end.
Proof.
  induction proof as [|p proof IH]; intros t d r Hp Hn Hu Hd Hinj Hnz Hv; [by injection Hv as <-|].
  destruct (verifyLoop_element _ _ _ _ _ _ _ Hv) as (a & b & He). set (leaf := Z.of_nat (length p) =? 65) in He.
  rewrite (verifyLoop_step _ _ _ _ _ _ a b leaf He) in Hv.
  set (y := (ConcatArrays4 a b, if leaf then LeafCapacity else BranchCapacity)) in He.
  assert (y ∈ proofInputs (p :: proof)) as Hy by (unfold proofInputs; cbn [omap list_omap]; rewrite He; left).
  assert (forall z, z ∈ proofInputs proof -> z ∈ proofInputs (p :: proof)) as Hsub.
  { intros z Hz. unfold proofInputs in *. cbn [omap list_omap map]. rewrite He. apply elem_of_app in Hz as [Hz|Hz]; apply elem_of_app; [left; by right|right; by right]. }
  case_bool_decide as Hroot; [|done]. cbn [negb] in Hv. destruct t as [|k' v'|l rt]; [by destruct (Hnz y Hy)|..].
  - assert ((leafInput Hash d k' v', LeafCapacity) = y) as Hxy by (apply Hinj; [left|done|exact Hroot]).
    pose proof (f_equal snd Hxy) as Hcap. apply (f_equal fst), ConcatArrays4_inj in Hxy as [<- <-]. destruct leaf; [|done]. cbn [negb] in Hv.
    destruct Hp as [Hk' _]. rewrite slice_path, bind_ok, leaf_key, IsEqualTo_spec in Hv by (done || by apply Hu). cbn [tget].
    case_bool_decide as Hc; injection Hv as <-; [rewrite decide_True by done; eauto|by rewrite decide_False by congruence].
  - assert ((ConcatArrays4 (th Hash (S d) l) (th Hash (S d) rt), BranchCapacity) = y) as Hxy by (apply Hinj; [left|done|exact Hroot]).
    pose proof (f_equal snd Hxy) as Hcap. apply (f_equal fst), ConcatArrays4_inj in Hxy as [<- <-]. destruct leaf; [done|]. cbn [negb] in Hv.
    pose proof (under_side d k l rt Hp Hu) as Hs. destruct Hp as (Hd' & _ & _ & Pl & Pr), Hn as (_ & Nl & Nr).
    rewrite index_bit, bind_ok in Hv by done. cbv zeta in Hv. cbn [tget].
    assert (forall t', placed (S d) t' -> nonzero Hash (S d) t' -> under (S d) k t' -> (forall x, x ∈ nodes Hash (S d) t' -> x ∈ nodes Hash d (B l rt)) ->
      (if Key_IsZero (th Hash (S d) t') then Ok Absent else verifyLoop Hash (GetPath k) k proof (S d) (th Hash (S d) t')) = Ok r ->
      match r with Absent => tget (S d) k t' = None | ValueHash h => exists v, tget (S d) k t' = Some v /\ h = valHash Hash v | Insufficient => True end) as Hgo.
    { intros t' P' N' U' S' Hv'. rewrite Key_IsZero_spec in Hv'. case_bool_decide as Hz.
      - injection Hv' as <-. by apply th_zero in Hz as ->.
      - eapply (IH t' (S d)); [done..|lia| | |done]; intros; [apply Hinj|apply Hnz]; auto. }
    assert (forall t' x, t' = l \/ t' = rt -> x ∈ nodes Hash (S d) t' -> x ∈ nodes Hash d (B l rt)) as Hin.
    { intros t' x [->| ->] Hx; cbn [nodes]; right; apply elem_of_app; auto. }
    destruct (bit k d); cbn [Z.b2z Z.eqb] in Hv; (eapply Hgo; [..|exact Hv]; [done..|]); intros x; apply Hin; auto.
Qed.

Lemma tget_value_node k t v : forall d, tget d k t = Some v -> (v, BranchCapacity) ∈ nodes Hash d t.
Proof.
  induction t as [|k' v'|l IHl r IHr]; intros d Hg; cbn [tget nodes] in *; [done|..].
  - destruct (decide (k = k')); [|done]. injection Hg as ->. right. left.
  - right. apply elem_of_app. destruct (bit k d); auto.
Qed.

(** C15: proofs that are accepted tell the truth.  Whatever the elements of a proof are,
    if [VerifyAndGetVal] accepts them for a key under the root of a tree, then the tree
    has no value for the key if the result is nothing, and if the result is a string
    of bytes, the value of the key is that of the low 256 bits of the bytes.  The hash is
    assumed not to collide between the nodes of the tree and the inputs that the check
    hashes, and not to be zero on the latter. *)
Theorem proofs_sound t m k proof r : tree_ok t -> holds t m -> nonzero Hash 0 t ->
  (forall x y, x ∈ nodes Hash 0 t -> y ∈ proofInputs proof -> Hash (fst x) (snd x) = Hash (fst y) (snd y) -> x = y) ->
  (forall y, y ∈ proofInputs proof -> Hash (fst y) (snd y) <> zeroKey) ->
  VerifyAndGetVal Hash (th Hash 0 t) proof k = Ok r ->
  match r with
  | None => m !! k = None
  | Some bytes => m !! k = Some (ScalarToArrayBig (be_decode bytes))
  end.
Proof.
  intros [Hp _] Hh Hn Hinj Hnz Hv. unfold VerifyAndGetVal in Hv. destruct (length proof =? 0)%nat; [done|].
  apply bind_Ok_inv in Hv as (w & Hw & Hv). pose proof (verify_sound k proof t 0 w Hp Hn (under_0 k t) ltac:(lia) Hinj Hnz Hw) as Hs.
  rewrite <- Hh. destruct w as [|h|]; [by injection Hv as <-| |done]. destruct Hs as (v & Hg & ->).
  apply bind_Ok_inv in Hv as (lastElement & Hlast & Hv). unfold NodeValue8FromBigIntArray in Hv. rewrite length_map in Hv.
  change (negb (Z.of_nat (length (ScalarToArrayBig (be_decode lastElement))) =? 8)) with false in Hv. cbv iota in Hv. rewrite bind_ok in Hv.
  rewrite ToUintArray_some in Hv.
  2: { apply Forall_map, Forall_forall. intros i _. rewrite land_mask32. unfold word_ok.
       pose proof (Z.mod_pos_bound (Z.shiftr (be_decode lastElement) (32 * i)) (2 ^ 32)). lia. }
  case_bool_decide as Hhash; [|done]. injection Hv as <-. rewrite Hg. f_equal.
  assert (exists i, proof !! i = Some lastElement) as [i Hi].
  { unfold index in Hlast. destruct (decide _); [|done]. destruct (proof !! _) eqn:Hi; [|done]. injection Hlast as ->. eauto. }
  assert ((v, BranchCapacity) ∈ nodes Hash 0 t) as Hvn by (by eapply tget_value_node).
  assert ((v, BranchCapacity) = (ScalarToArrayBig (be_decode lastElement), BranchCapacity)) as Heq.
  { apply Hinj; [done| |done]. unfold proofInputs. apply elem_of_app. right. apply list_elem_of_fmap. eexists. split; [done|].
    by eapply list_elem_of_lookup_2. }
  exact (f_equal fst Heq).
Qed.
End theory.

(** ** Witnesses *)

(** A list of keys as the decider. *)
Lemma RetainList_decider rl0 : valid rl0 -> forall p rd, valid rd /\ same_list rl0 rd ->
  exists rd', RetainList.Retain example_sort p rd = Ok (keeps rl0 p, rd') /\ valid rd' /\ same_list rl0 rd'.
Proof.
  intros V0 p rd [V Hs]. destruct (Retain_ok example_sort example_sort_ok rd p V) as (rd' & Hr & V' & Hs').
  exists rd'. rewrite <- (keeps_same _ _ _ Hs). split; [done|]. split; [done|]. by etrans.
Qed.

Definition example_retain : RetainList := AddHex (GetPath (example_key 1)) (NewRetainList 0).

Lemma example_retain_valid : valid example_retain.
Proof. apply AddHex_valid; [apply NewRetainList_valid|done..|apply not_elem_of_nil]. Qed.

Lemma example_retain_keeps j : (j <= 256)%nat -> keeps example_retain (take j (GetPath (example_key 1))) = true.
Proof. intros _. unfold keeps. cbn [hexes example_retain AddHex NewRetainList existsb app]. by rewrite HasPrefix_take, !orb_true_r. Qed.

Lemma example_keeps_tree : keeps_tree toyHash example_store example_tree.
Proof. split; [vm_compute; reflexivity|]. apply (proj1 (proj2 example_represents)). Qed.

Lemma example_limbs n : 0 <= n < 2 ^ 32 -> limbs_ok (example_value n).
Proof. intros Hn. split; [done|]. unfold example_value. repeat (apply Forall_cons; split; [lia|]). by apply Forall_nil. Qed.

Lemma proofs_complete_witness : exists proofs,
  BuildProofs (RetainList.Retain example_sort) 257 example_store example_retain = Ok proofs /\
  VerifyAndGetVal toyHash (th toyHash 0 example_tree) (FilterProofs proofs (example_key 1)) (example_key 1) = Ok (Some [10]).
Proof.
  destruct example_contents as [Ht Hh].
  destruct (proofs_complete toyHash toyHash_range (RetainList.Retain example_sort) (fun rd => valid rd /\ same_list example_retain rd)
    (keeps example_retain) 257 example_store example_retain example_tree _ (example_key 1)
    (RetainList_decider example_retain example_retain_valid) (conj example_retain_valid (reflexivity _)) example_retain_keeps
    ltac:(lia) Ht Hh) as (proofs & Hb & Hv).
  - discriminate.
  - by decide_compute.
  - exact example_keeps_tree.
  - intros v Hv. assert (example_value 10 = v) as <-; [|apply example_limbs; lia].
    apply (inj Some). rewrite <- Hv. vm_compute. reflexivity.
  - exists proofs. split; [exact Hb|]. rewrite Hv. reflexivity.
Defined.

(** The proof of the first key, and what it proves. *)
Lemma proofs_sound_witness :
  VerifyAndGetVal toyHash (th toyHash 0 example_tree) (proof_of toyHash 0 (example_key 1) example_tree) (example_key 1) = Ok (Some [10]) /\
  (foldl mput ∅ [(example_key 1, example_value 10); (example_key 3, example_value 11)]) !! example_key 1 = Some (ScalarToArrayBig 10).
Proof.
  assert (VerifyAndGetVal toyHash (th toyHash 0 example_tree) (proof_of toyHash 0 (example_key 1) example_tree) (example_key 1) = Ok (Some [10])) as Hv
    by (vm_compute; reflexivity).
  split; [exact Hv|]. destruct example_contents as [Ht Hh].
  apply (proofs_sound toyHash example_tree _ (example_key 1) (proof_of toyHash 0 (example_key 1) example_tree) (Some [10]) Ht Hh); [by decide_compute|..|exact Hv].
  - assert (collision_free toyHash (nodes toyHash 0 example_tree ++ proofInputs (proof_of toyHash 0 (example_key 1) example_tree))) as Hcf by decide_compute.
    intros x y Hx Hy. apply Hcf; apply elem_of_app; [by left|by right].
  - assert (forallb (fun y => negb (bool_decide (toyHash (fst y) (snd y) = zeroKey))) (proofInputs (proof_of toyHash 0 (example_key 1) example_tree)) = true) as Hall
      by (vm_compute; reflexivity).
    rewrite forallb_forall in Hall. intros y Hy. apply list_elem_of_In in Hy. specialize (Hall y Hy). by apply negb_true_iff, bool_decide_eq_false in Hall.
Defined.
