(* ===== verification/SmtBatch.v ===== *)
(** * Inserting a batch into the sparse Merkle tree (smt/pkg/smt/smt_batch.go)

    [InsertBatch] changes many keys at once.  It loads the nodes on the paths of the
    keys into a tree in memory, changes that tree, and only at the end computes the
    hashes of what it has loaded, removes the old nodes from the store and saves
    the new ones.

    A node in memory has pointers to its children and to its parent; here it is a
    value, and where the source follows pointers down and up again, the functions
    go down to the children and come back.  The pointer [insertingPointerToSmtBatchNode]
    is the path from the root to the place it points to.  The goroutine that computes
    the hashes only sends what is to be saved through a channel, in its order, to the
    one that saves it, so both are one after the other here.  The context is not
    cancelled, and no progress is printed. *)
From S2P Require Import Prelude SmtUtils SmtDb Smt SmtCreate.

(** ** Nodes in memory *)

(** A child that is not in memory is [None]; it may be in the store under the hash. *)
#[warnings="-register-all"] Inductive smtBatchNode := BatchNode (nodeLeftHashOrRemainingKey : NodeKey)
  (nodeRightHashOrValueHash : option NodeKey) (leaf : bool) (leftNode rightNode : option smtBatchNode).

Definition newSmtBatchNodeLeaf (remainingKey : NodeKey) (valueHash : option NodeKey) : smtBatchNode :=
  BatchNode remainingKey valueHash true None None.

Definition batch_isLeaf (n : smtBatchNode) : bool := let 'BatchNode _ _ leaf _ _ := n in leaf.

Definition leftOf (n : smtBatchNode) : NodeKey := let 'BatchNode a _ _ _ _ := n in a.

Definition getChildInDirection (direction : Z) (n : smtBatchNode) : option smtBatchNode :=
  let 'BatchNode _ _ _ l r := n in if direction =? 0 then l else r.

Definition getNextNodeHashInDirection (direction : Z) (n : smtBatchNode) : outcome NodeKey :=
  let 'BatchNode a b _ _ _ := n in if direction =? 0 then Ok a else nonNil b.

(** An assignment through the pointer that [getChildInDirection] returns. *)
Definition setChildInDirection (direction : Z) (c : option smtBatchNode) (n : smtBatchNode) : smtBatchNode :=
  let 'BatchNode a b leaf l r := n in
  if direction =? 0 then BatchNode a b leaf c r else BatchNode a b leaf l c.

(** The only child, if it is a leaf, with its direction. *)
Definition getTheSingleLeafAndDirectionIfAny (n : smtBatchNode) : option (smtBatchNode * Z) :=
  let 'BatchNode _ _ _ l r := n in
  match l, r with
  | Some c, None => if batch_isLeaf c then Some (c, 0) else None
  | None, Some c => if batch_isLeaf c then Some (c, 1) else None
  | _, _ => None
  end.

Definition updateHashesAfterDelete (n : smtBatchNode) : smtBatchNode :=
  let 'BatchNode a b leaf l r := n in
  BatchNode (match l with None => zeroKey | Some _ => a end) (match r with None => Some zeroKey | Some _ => b end) leaf l r.

Definition createALeafInEmptyDirection (path : list Z) (level : Z) (key : NodeKey) (n : smtBatchNode)
    : outcome (Z * smtBatchNode) :=
  direction ← index path level;
  match getChildInDirection direction n with
  | Some _ => Err "branch has already been taken"
  | None => Ok (direction, setChildInDirection direction (Some (newSmtBatchNodeLeaf (RemoveKeyBits key (level + 1)) None)) n)
  end.

(** The leaf becomes a branch over a leaf in the direction of the path. *)
Definition expandLeafByAddingALeafInDirection (path : list Z) (level : Z) (n : smtBatchNode) : outcome (Z * smtBatchNode) :=
  direction ← index path level;
  upToLevel ← slice path 0 level;
  let 'BatchNode a b _ l r := n in
  let nodeKey := JoinKey upToLevel a in
  let child := newSmtBatchNodeLeaf (RemoveKeyBits nodeKey (level + 1)) b in
  Ok (direction, setChildInDirection direction (Some child) (BatchNode zeroKey (Some zeroKey) false l r)).

(** The branch becomes the leaf that is its only child.  The slice is a part of the path of
    the key, so the direction is written into that, too, at a place that is not read
    again: the loop goes on at lower levels. *)
Definition collapseLeafByRemovingTheSingleLeaf (path : list Z) (level : Z) (theSingleLeaf : smtBatchNode) (direction : Z)
    : outcome smtBatchNode :=
  upToLevel ← slice path 0 (level + 1);
  upToLevel ← store upToLevel (Z.to_nat level) direction;
  let 'BatchNode a b _ _ _ := theSingleLeaf in
  Ok (BatchNode (RemoveKeyBits (JoinKey upToLevel a) level) b true None None).

(** ** Maps by node keys: a level of maps for each word *)

Abbreviation nodeKeyMap T := (gmap Z (gmap Z (gmap Z (gmap Z T)))).

Definition setNodeKeyMapValue {T} (m : nodeKeyMap T) (nodeKey : NodeKey) (value : T) : nodeKeyMap T :=
  let mapLevel0 := default ∅ (m !! w0 nodeKey) in
  let mapLevel1 := default ∅ (mapLevel0 !! w1 nodeKey) in
  let mapLevel2 := default ∅ (mapLevel1 !! w2 nodeKey) in
  <[w0 nodeKey := <[w1 nodeKey := <[w2 nodeKey := <[w3 nodeKey := value]> mapLevel2]> mapLevel1]> mapLevel0]> m.

Definition getNodeKeyMapValue {T} (m : nodeKeyMap T) (nodeKey : NodeKey) : option T :=
  mapLevel0 ← m !! w0 nodeKey;
  mapLevel1 ← mapLevel0 !! w1 nodeKey;
  mapLevel2 ← mapLevel1 !! w2 nodeKey;
  mapLevel2 !! w3 nodeKey.

(** ** The store *)

(** The operations of the store that only batches use. *)
Class BatchDb (D : Type) := {
  db_DeleteByNodeKey : NodeKey -> D -> outcome D;
  db_DeleteHashKey : NodeKey -> D -> outcome D;
}.

#[export] Instance MemDb_batch : BatchDb MemDb := {
  db_DeleteByNodeKey := Mem_DeleteByNodeKey;
  db_DeleteHashKey := Mem_DeleteHashKey;
}.

Section batch.
Context {D : Type} `{SmtDb D} `{BatchDb D}.
Context (Hash : list Z -> NodeKey -> NodeKey) (noSaveOnInsert : bool).

Definition fetchNodeDataFromDb (db : D) (nodeHash : NodeKey) : outcome (option smtBatchNode) :=
  if Key_IsZero nodeHash then Ok None
  else
    dbNodeValue ← db_Get db nodeHash;
    a ← childAt dbNodeValue 0;
    b ← childAt dbNodeValue 1;
    Ok (Some (BatchNode a (Some b) (IsFinalNode dbNodeValue) None None)).

(** [if fetchDirectSiblings]: both children are loaded. *)
Definition fetchChildren (db : D) (n : smtBatchNode) : outcome (smtBatchNode * list NodeKey) :=
  let 'BatchNode a b leaf l r := n in
  lv ← (match l with
        | Some _ => Ok (l, [])
        | None => c ← fetchNodeDataFromDb db a; Ok (c, [a])
        end) : outcome (option smtBatchNode * list NodeKey);
  rv ← (match r with
        | Some _ => Ok (r, [])
        | None => b ← nonNil b; c ← fetchNodeDataFromDb db b; Ok (c, [b])
        end) : outcome (option smtBatchNode * list NodeKey);
  Ok (BatchNode a b leaf (fst lv) (fst rv), snd lv ++ snd rv).

(** The way down from a place, loading what is not in memory: the place as it is then,
    the level and the path of the node found, and the hashes of the nodes loaded. *)
Fixpoint findInsertingPoint (fuel : nat) (db : D) (path : list Z) (fetchDirectSiblings : bool) (level : Z)
    (hash : NodeKey) (slot : option smtBatchNode) : outcome (option smtBatchNode * Z * list Z * list NodeKey) :=
  sv ← (match slot with
        | Some _ => Ok (slot, [])
        | None =>
            if negb (Key_IsZero hash) then c ← fetchNodeDataFromDb db hash; Ok (c, [hash])
            else if negb (level =? -1) then Err "nodekey is zero at non-root level" else Ok (None, [])
        end) : outcome (option smtBatchNode * list NodeKey);
  let '(slot, visited) := sv : option smtBatchNode * list NodeKey in
  match slot with
  | None => if negb (level =? -1) then Err "working smt pointer is nil at non-root level" else Ok (None, level, [], visited)
  | Some n =>
      let level := level + 1 in
      if batch_isLeaf n then Ok (Some n, level, [], visited)
      else
        nv ← (if fetchDirectSiblings then fetchChildren db n else Ok (n, [])) : outcome (smtBatchNode * list NodeKey);
        let '(n, siblings) := nv : smtBatchNode * list NodeKey in
        direction ← index path level;
        nextHash ← getNextNodeHashInDirection direction n;
        let next := getChildInDirection direction n in
        if Key_IsZero nextHash && (match next with None => true | Some _ => false end)
        then Ok (Some n, level, [], visited ++ siblings)
        else
          match fuel with
          | O => Panic
          | S fuel =>
              r ← findInsertingPoint fuel db path fetchDirectSiblings level nextHash next;
              let '(next, level, p, below) := r : option smtBatchNode * Z * list Z * list NodeKey in
              Ok (Some (setChildInDirection direction next n), level, direction :: p, visited ++ siblings ++ below)
          end
  end.

(** ** Setting a value *)

(** [for insertingNodePath[level] == currentTreeNodePath[level]], and the two leaves at the end. *)
Fixpoint expandLoop (fuel : nat) (path currentTreeNodePath : list Z) (key valueHash : NodeKey) (level : Z) (n : smtBatchNode)
    : outcome (smtBatchNode * Z) :=
  a ← index path level;
  b ← index currentTreeNodePath level;
  if a =? b then
    match fuel with
    | O => Panic
    | S fuel =>
        dn ← expandLeafByAddingALeafInDirection path level n;
        let '(direction, n) := dn : Z * smtBatchNode in
        c ← nonNil (getChildInDirection direction n);
        cl ← expandLoop fuel path currentTreeNodePath key valueHash (level + 1) c;
        let '(c, level) := cl : smtBatchNode * Z in
        Ok (setChildInDirection direction (Some c) n, level)
    end
  else
    dn ← expandLeafByAddingALeafInDirection currentTreeNodePath level n;
    dn ← createALeafInEmptyDirection path level key (snd dn);
    let '(direction, n) := dn : Z * smtBatchNode in
    Ok (setChildInDirection direction (Some (newSmtBatchNodeLeaf (RemoveKeyBits key (level + 1)) (Some valueHash))) n, level + 1).

(** At a leaf: the value is set, or the leaf is expanded. *)
Definition setAtLeaf (path : list Z) (key valueHash : NodeKey) (level : Z) (remainingKey : NodeKey) (n : smtBatchNode)
    : outcome (smtBatchNode * Z) :=
  let 'BatchNode a b leaf l r := n in
  if negb (IsEqualTo a remainingKey) then
    upToLevel ← slice path 0 level;
    expandLoop 256 path (GetPath (JoinKey upToLevel a)) key valueHash level n
  else Ok (BatchNode a (Some valueHash) leaf l r, level).

Definition setValue (path : list Z) (key valueHash : NodeKey) (level : Z) (n : smtBatchNode) : outcome (smtBatchNode * Z) :=
  if negb (batch_isLeaf n) then
    dn ← createALeafInEmptyDirection path level key n;
    let '(direction, n) := dn : Z * smtBatchNode in
    c ← nonNil (getChildInDirection direction n);
    cl ← setAtLeaf path key valueHash (level + 1) (leftOf c) c;
    let '(c, level) := cl : smtBatchNode * Z in
    Ok (setChildInDirection direction (Some c) n, level)
  else setAtLeaf path key valueHash level (RemoveKeyBits key level) n.

(** The node at a place is replaced. *)
Fixpoint updateSlot (p : list Z) (f : smtBatchNode -> outcome (smtBatchNode * Z)) (slot : option smtBatchNode)
    : outcome (option smtBatchNode * Z) :=
  n ← nonNil slot;
  match p with
  | [] => r ← f n; Ok (Some (fst r), snd r)
  | direction :: p =>
      r ← updateSlot p f (getChildInDirection direction n);
      Ok (Some (setChildInDirection direction (fst r) n), snd r)
  end.

(** ** Deleting a value *)

(** What the loop that collapses branches does at a node: it goes on to the parent if
    the node has become a leaf. *)
Definition collapse (path : list Z) (level : Z) (n : smtBatchNode) : outcome (smtBatchNode * bool) :=
  if batch_isLeaf n then Ok (n, false)
  else
    match getTheSingleLeafAndDirectionIfAny n with
    | None => Ok (n, false)
    | Some (theSingleLeaf, direction) =>
        n ← collapseLeafByRemovingTheSingleLeaf path level theSingleLeaf direction; Ok (n, true)
    end.

(** How the way back continues: the child has been deleted, it has been collapsed, or the
    loop has ended, at some level. *)
Inductive unwinding := Deleted | Collapsed | Ended (level : Z).

Fixpoint deleteValue (path p : list Z) (key : NodeKey) (level : Z) (slot : option smtBatchNode)
    : outcome (option smtBatchNode * unwinding) :=
  n ← nonNil slot;
  let climb (n : smtBatchNode) : outcome (option smtBatchNode * unwinding) :=
    r ← collapse path level n;
    let '(n, goOn) := r : smtBatchNode * bool in
    Ok (Some n, if goOn then Collapsed else Ended level) in
  match p with
  | [] => if IsEqualTo (leftOf n) (RemoveKeyBits key level) then Ok (None, Deleted) else climb n
  | direction :: p =>
      r ← deleteValue path p key (level + 1) (getChildInDirection direction n);
      let '(c, u) := r : option smtBatchNode * unwinding in
      let n := setChildInDirection direction c n in
      match u with
      | Ended l => Ok (Some n, Ended l)
      | Deleted => climb (updateHashesAfterDelete n)
      | Collapsed => climb n
      end
  end.

(** ** The batch *)

(** The three slices of a batch, once they have the same length. *)
Record entry := mkEntry {
  nodeKey : NodeKey;
  nodeValue : NodeValue8;
  nodeValueHash : option NodeKey;
}.

(** The lengths, and the hashes with a nil slice made one of nil pointers. *)
Definition validateDataLengths (nodeKeys : list NodeKey) (nodeValues : list NodeValue8)
    (nodeValuesHashes : option (list (option NodeKey))) : outcome (list (option NodeKey)) :=
  let size := length nodeKeys in
  if negb (length nodeValues =? size)%nat then Err "mismatch nodeValues length"
  else
    let hashes := default (replicate size None) nodeValuesHashes in
    if negb (length hashes =? size)%nat then Err "mismatch nodeValuesHashes length" else Ok hashes.

(** The map from keys to their last index. *)
Definition latestIndices (nodeKeys : list NodeKey) : nodeKeyMap nat :=
  foldl (fun storage ik => setNodeKeyMapValue storage (snd ik) (fst ik)) ∅ (imap pair nodeKeys).

Fixpoint keepLatest (storage : nodeKeyMap nat) (i : nat) (nodeKeys : list NodeKey) (nodeValues : list NodeValue8)
    (nodeValuesHashes : list (option NodeKey)) : outcome (list entry) :=
  match nodeKeys with
  | [] => Ok []
  | k :: nodeKeys =>
      match getNodeKeyMapValue storage k with
      | None => Err "key not found"
      | Some latestIndex =>
          first ← (if (latestIndex =? i)%nat then
                     v ← index nodeValues (Z.of_nat i); h ← index nodeValuesHashes (Z.of_nat i); Ok [mkEntry k v h]
                   else Ok []) : outcome (list entry);
          rest ← keepLatest storage (S i) nodeKeys nodeValues nodeValuesHashes;
          Ok (first ++ rest)
      end
  end.

Definition removeDuplicateEntriesByKeys (nodeKeys : list NodeKey) (nodeValues : list NodeValue8)
    (nodeValuesHashes : list (option NodeKey)) : outcome (list entry) :=
  keepLatest (latestIndices nodeKeys) 0 nodeKeys nodeValues nodeValuesHashes.

Fixpoint calculateNodeValueHashesIfMissingInInterval (n : nat) (startIndex : Z) (es : list entry) : outcome (list entry) :=
  match n with
  | O => Ok es
  | S n =>
      e ← index es startIndex;
      es ← (match nodeValueHash e with
            | Some _ => Ok es
            | None => store es (Z.to_nat startIndex)
                        (mkEntry (nodeKey e) (nodeValue e) (Some (Hash (ToUintArray (nodeValue e)) BranchCapacity)))
            end) : outcome (list entry);
      calculateNodeValueHashesIfMissingInInterval n (startIndex + 1) es
  end.

(** The goroutines write to different entries each; here they take turns. *)
Definition calculateNodeValueHashesIfMissing (cpuNum : Z) (es : list entry) : outcome (list entry) :=
  let size := Z.of_nat (length es) in
  if Z.shiftl cpuNum 2 <? size then
    let itemsPerCpu := (size + cpuNum - 1) / cpuNum in
    foldl (fun acc cpuIndex =>
        es ← acc;
        let startIndex := Z.of_nat cpuIndex * itemsPerCpu in
        let endIndex := Z.min (startIndex + itemsPerCpu) size in
        calculateNodeValueHashesIfMissingInInterval (Z.to_nat (endIndex - startIndex)) startIndex es)
      (Ok es) (seq 0 (Z.to_nat cpuNum))
  else calculateNodeValueHashesIfMissingInInterval (length es) 0 es.

Definition calculateRootNodeHashIfNil (root : option NodeKey) (db : D) : outcome NodeKey :=
  match root with None => getLastRoot db | Some r => Ok r end.

Definition updateNodeHashesForDelete (nodeHashesForDelete : nodeKeyMap NodeKey) (visitedNodeHashes : list NodeKey) : nodeKeyMap NodeKey :=
  foldl (fun m visitedNodeHash => setNodeKeyMapValue m visitedNodeHash visitedNodeHash) nodeHashesForDelete visitedNodeHashes.

(** The variables of the loop over the batch. *)
Record Batch := mkBatch {
  smtBatchNodeRoot : option smtBatchNode;
  nodeHashesForDelete : nodeKeyMap NodeKey;
  maxInsertingNodePathLevel : Z;
}.

(** One round of the loop.  The level at which the root is found is 0. *)
Definition insertEntry (db : D) (rootNodeHash : NodeKey) (e : entry) (st : Batch) : outcome Batch :=
  let key := nodeKey e in
  let path := GetPath key in
  let zero := Value8_IsZero (nodeValue e) in
  valueHash ← nonNil (nodeValueHash e);
  r ← findInsertingPoint 257 db path zero (-1) rootNodeHash (smtBatchNodeRoot st);
  let '(root, level, p, visited) := r : option smtBatchNode * Z * list Z * list NodeKey in
  let forDelete := updateNodeHashesForDelete (nodeHashesForDelete st) visited in
  match root with
  | None => Ok (mkBatch (if zero then None else Some (newSmtBatchNodeLeaf key (Some valueHash))) forDelete
                  (maxInsertingNodePathLevel st))
  | Some _ =>
      rl ← (if negb zero then updateSlot p (setValue path key valueHash level) root
            else
              r ← deleteValue path p key 0 root;
              Ok (fst r, match snd r with Ended l => l | _ => -1 end)) : outcome (option smtBatchNode * Z);
      Ok (mkBatch (fst rl) forDelete (Z.max (maxInsertingNodePathLevel st) (snd rl)))
  end.

Fixpoint insertEntries (db : D) (rootNodeHash : NodeKey) (es : list entry) (st : Batch) : outcome Batch :=
  match es with
  | [] => Ok st
  | e :: es => st ← insertEntry db rootNodeHash e st; insertEntries db rootNodeHash es st
  end.

(** ** Hashing and saving *)

(** What goes through the channel. *)
Inductive smtDfsHelperDataStruct :=
| SaveNode (key : NodeKey) (value : NodeValue12)
| SaveKey (key value : NodeKey).

(** [path[level] = b]: the array has 256 places. *)
Definition extendPath (path : list Z) (b : Z) : outcome (list Z) :=
  if (length path <? 256)%nat then Ok (path ++ [b]) else Panic.

(** The hash, and what is sent.  The path is the part of the array that is in use. *)
Fixpoint calculateAndSaveHashesDfs (path : list Z) (n : smtBatchNode) : outcome (NodeKey * list smtDfsHelperDataStruct) :=
  match n with
  | BatchNode a b leaf l r =>
      if leaf then
        valueHash ← nonNil b;
        let '(hashObj, hashValue) := HashKeyAndValueByPointers Hash (ConcatArrays4 a valueHash) LeafCapacity in
        Ok (hashObj, if noSaveOnInsert then [] else [SaveNode hashObj hashValue; SaveKey hashObj (JoinKey path a)])
      else
        lw ← (match l with
              | Some c => path ← extendPath path 0; calculateAndSaveHashesDfs path c
              | None => Ok (a, [])
              end) : outcome (NodeKey * list smtDfsHelperDataStruct);
        rw ← (match r with
              | Some c => path ← extendPath path 1; calculateAndSaveHashesDfs path c
              | None => b ← nonNil b; Ok (b, [])
              end) : outcome (NodeKey * list smtDfsHelperDataStruct);
        let totalHash := fst (SetHalfValue (fst (SetHalfValue (replicate 8 None) (fst lw) 0)) (fst rw) 1) in
        let '(hashObj, hashValue) := HashKeyAndValueByPointers Hash (ToUintArray totalHash) BranchCapacity in
        Ok (hashObj, snd lw ++ snd rw ++ (if noSaveOnInsert then [] else [SaveNode hashObj hashValue]))
  end.

Fixpoint startConsumersLoop (data : list smtDfsHelperDataStruct) (db : D) : outcome D :=
  match data with
  | [] => Ok db
  | SaveNode k v :: data => db ← db_Insert k v db; startConsumersLoop data db
  | SaveKey k v :: data => db ← db_InsertHashKey k v db; startConsumersLoop data db
  end.

(** The old nodes go; errors are dropped. *)
Fixpoint deleteNodes (hashes : list NodeKey) (db : D) : outcome D :=
  match hashes with
  | [] => Ok db
  | h :: hashes =>
      db ← dropError (db_DeleteByNodeKey h db) db;
      db ← dropError (db_DeleteHashKey h db) db;
      deleteNodes hashes db
  end.

Fixpoint saveValues (es : list entry) (db : D) : outcome D :=
  match es with
  | [] => Ok db
  | e :: es =>
      db ← (if negb (Value8_IsZero (nodeValue e)) then
              h ← nonNil (nodeValueHash e); hashSave noSaveOnInsert (ToUintArray (nodeValue e)) BranchCapacity h db
            else Ok db) : outcome D;
      saveValues es db
  end.

(** ** InsertBatch *)

(** The order in which Go visits a map. *)
Context (order : forall V, gmap Z V -> list (Z * V)).

(** The four loops over the hashes to delete. *)
Definition hashesForDelete (m : nodeKeyMap NodeKey) : list NodeKey :=
  mapLevel0 ← map snd (order _ m);
  mapLevel1 ← map snd (order _ mapLevel0);
  mapLevel2 ← map snd (order _ mapLevel1);
  map snd (order _ mapLevel2).

(** Up to the deletions. *)
Definition prepareBatch (cpuNum : Z) (nodeKeys : list NodeKey) (nodeValues : list NodeValue8)
    (nodeValuesHashes : option (list (option NodeKey))) (rootNodeHash : option NodeKey) (db : D)
    : outcome (list entry * Batch * D) :=
  hashes ← validateDataLengths nodeKeys nodeValues nodeValuesHashes;
  es ← removeDuplicateEntriesByKeys nodeKeys nodeValues hashes;
  es ← calculateNodeValueHashesIfMissing cpuNum es;
  rootNodeHash ← calculateRootNodeHashIfNil rootNodeHash db;
  st ← insertEntries db rootNodeHash es (mkBatch None ∅ 0);
  db ← updateDepth (maxInsertingNodePathLevel st) db;
  Ok (es, st, db).

(** From the deletions on. *)
Definition finishBatch (es : list entry) (st : Batch) (db : D) : outcome (NodeKey * D) :=
  db ← deleteNodes (hashesForDelete (nodeHashesForDelete st)) db;
  db ← saveValues es db;
  rd ← (match smtBatchNodeRoot st with
        | None => Ok (zeroKey, db)
        | Some n =>
            hw ← calculateAndSaveHashesDfs [] n;
            db ← (if noSaveOnInsert then Ok db else startConsumersLoop (snd hw) db) : outcome D;
            Ok (fst hw, db)
        end) : outcome (NodeKey * D);
  let '(root, db) := rd : NodeKey * D in
  db ← setLastRoot root db;
  Ok (root, db).

(** Without a printer nothing receives from the channel for the progress of the deletions,
    which holds 100 messages, one for every map of the second level. *)
Definition deletionsBlock (shouldPrintProgress : bool) (st : Batch) : bool :=
  negb shouldPrintProgress && (100 <? size (nodeHashesForDelete st))%nat.

(** The new root; [None] if it does not return.  The mode of the response is always
    that of a batch. *)
Definition InsertBatch (shouldPrintProgress : bool) (cpuNum : Z) (nodeKeys : list NodeKey) (nodeValues : list NodeValue8)
    (nodeValuesHashes : option (list (option NodeKey))) (rootNodeHash : option NodeKey) (db : D)
    : option (outcome (NodeKey * D)) :=
  match prepareBatch cpuNum nodeKeys nodeValues nodeValuesHashes rootNodeHash db with
  | Ok (es, st, db) => if deletionsBlock shouldPrintProgress st then None else Some (finishBatch es st db)
  | Err e => Some (Err e)
  | Panic => Some Panic
  end.
End batch.
