(* ===== verification/SmtBatchTheory.v ===== *)
(** * What the steps of a batch insertion do

    A node in memory stands for a part of the abstract tree; where it has no child in
    memory, it holds the hash of a part that is in the store as it was before the
    batch.  Finding a place only loads nodes; setting and deleting a value there change
    the tree in memory as they change the abstract one; hashing it gives the hash of
    the abstract tree and what is missing in the store. *)
From S2P Require Import Prelude Bytes SmtUtils SmtTree SmtDb Smt SmtRefine SmtCreate RetainList SmtRead SmtBatch.

Section theory.
Context {D : Type} `{SmtDb D}.
Context (Hash : list Z -> NodeKey -> NodeKey) (Hash_range : forall i c, key_ok (Hash i c)).

Abbreviation th := (th Hash).
Abbreviation inner := (inner Hash).
Definition hashOf (x : list Z * NodeKey) : NodeKey := Hash (fst x) (snd x).

(** ** Nodes seen from a path *)

(** A branch on the path of a key at level [d]: the hash and the child on the path, and
    those beside it. *)
Definition pathBranch (k : NodeKey) (d : nat) (h : NodeKey) (c : option smtBatchNode) (h' : NodeKey) (c' : option smtBatchNode) : smtBatchNode :=
  if bit k d then BatchNode h' (Some h) false c' c else BatchNode h (Some h') false c c'.

Definition dir (k : NodeKey) (d : nat) : Z := Z.b2z (bit k d).

Lemma pathBranch_child k d h c h' c' : getChildInDirection (dir k d) (pathBranch k d h c h' c') = c.
Proof. unfold pathBranch, dir. by destruct (bit k d). Qed.

Lemma pathBranch_hash k d h c h' c' : getNextNodeHashInDirection (dir k d) (pathBranch k d h c h' c') = Ok h.
Proof. unfold pathBranch, dir. by destruct (bit k d). Qed.

Lemma pathBranch_set k d h c h' c' c2 : setChildInDirection (dir k d) c2 (pathBranch k d h c h' c') = pathBranch k d h c2 h' c'.
Proof. unfold pathBranch, dir. by destruct (bit k d). Qed.

Lemma pathBranch_leaf k d h c h' c' : batch_isLeaf (pathBranch k d h c h' c') = false.
Proof. unfold pathBranch. by destruct (bit k d). Qed.

Lemma pathBranch_single k d h c h' c' : getTheSingleLeafAndDirectionIfAny (pathBranch k d h c h' c') =
  match c, c' with
  | Some n, None => if batch_isLeaf n then Some (n, dir k d) else None
  | None, Some n => if batch_isLeaf n then Some (n, 1 - dir k d) else None
  | _, _ => None
  end.
Proof. unfold pathBranch, dir. by destruct (bit k d), c, c'. Qed.

Lemma pathBranch_update k d h c h' c' : updateHashesAfterDelete (pathBranch k d h c h' c') =
  pathBranch k d (match c with None => zeroKey | Some _ => h end) c (match c' with None => zeroKey | Some _ => h' end) c'.
Proof. unfold pathBranch. by destruct (bit k d), c, c'. Qed.

(** ** What a node stands for *)

(** The store before the batch, and the hashes that branches may hold of a child on the left. *)
Context (db0 : D) (known : NodeKey -> Prop).

(** A node that is still in the store only. *)
Definition unloaded (x : list Z * NodeKey) : Prop := has Hash db0 x /\ known (hashOf x) /\ hashOf x <> zeroKey.

(** The part of a tree on one side. *)
Definition sideOf (b : bool) (s : tree) : tree := match s with B l r => if b then r else l | _ => E end.

(** The node stands for the tree [t], where the tree before the batch was [s]: what is not
    in memory is as it was, or empty. *)
Fixpoint brep (d : nat) (s t : tree) (n : smtBatchNode) : Prop :=
  match t with
  | E => False
  | Leaf k v => n = BatchNode (RemoveKeyBits k (Z.of_nat d)) (Some (valHash Hash v)) true None None
  | B l r => exists a b ln rn, n = BatchNode a (Some b) false ln rn /\ known a /\ known b /\
      match ln with
      | Some c => brep (S d) (sideOf false s) l c
      | None => a = th (S d) l /\ Forall unloaded (inner (S d) l) /\ (l = E \/ l = sideOf false s)
      end /\
      match rn with
      | Some c => brep (S d) (sideOf true s) r c
      | None => b = th (S d) r /\ Forall unloaded (inner (S d) r) /\ (r = E \/ r = sideOf true s)
      end
  end.

(** A place: a node, or nothing but the hash. *)
Definition slotRep (d : nat) (s t : tree) (h : NodeKey) (o : option smtBatchNode) : Prop :=
  match o with Some c => brep d s t c | None => h = th d t /\ Forall unloaded (inner d t) /\ (t = E \/ t = s) end.

(** The nodes that are still in the store only. *)
Fixpoint cold (d : nat) (t : tree) (n : smtBatchNode) : list (list Z * NodeKey) :=
  match t, n with
  | B l r, BatchNode _ _ _ ln rn =>
      match ln with Some c => cold (S d) l c | None => inner (S d) l end ++
      match rn with Some c => cold (S d) r c | None => inner (S d) r end
  | _, _ => []
  end.

Definition slotCold (d : nat) (t : tree) (o : option smtBatchNode) : list (list Z * NodeKey) :=
  match o with Some c => cold d t c | None => inner d t end.

Lemma brep_B d s l r n : brep d s (B l r) n <-> exists a b ln rn, n = BatchNode a (Some b) false ln rn /\ known a /\ known b /\
  slotRep (S d) (sideOf false s) l a ln /\ slotRep (S d) (sideOf true s) r b rn.
Proof. done. Qed.

Lemma brep_branch k d s sub o n : brep d s (branch d k sub o) n <-> exists h c h' c', n = pathBranch k d h c h' c' /\
  known h /\ known h' /\ slotRep (S d) (sideOf (bit k d) s) sub h c /\ slotRep (S d) (sideOf (negb (bit k d)) s) o h' c'.
Proof.
  unfold branch, pathBranch. destruct (bit k d); rewrite brep_B; split; intros (x & y & z & w & -> & ? & ? & ? & ?);
    [exists y, w, x, z|exists z, x, w, y|exists x, z, y, w|exists x, z, y, w]; done.
Qed.

Lemma cold_branch k d sub o h c h' c' : cold d (branch d k sub o) (pathBranch k d h c h' c') ≡ₚ slotCold (S d) sub c ++ slotCold (S d) o c'.
Proof. unfold branch, pathBranch. destruct (bit k d); cbn [cold]; [by rewrite (comm (++))|done]. Qed.

(** Nothing, in memory. *)
Lemma slot_empty d s : slotRep d s E zeroKey None.
Proof. split; [done|]. split; [by apply Forall_nil|by left]. Qed.

Lemma brep_nonempty d s t n : brep d s t n -> t <> E.
Proof. by destruct t. Qed.

Lemma brep_leaf d s t n : brep d s t n -> batch_isLeaf n = match t with Leaf _ _ => true | _ => false end.
Proof. destruct t as [|k v|l r]; [done|by intros ->|]. by intros (a & b & ln & rn & -> & _). Qed.

(** Trees along the path of a key. *)
Lemma path_ind (k : NodeKey) (P : nat -> tree -> Prop) : (forall d, P d E) -> (forall d k' v', P d (Leaf k' v')) ->
  (forall d sub o, P (S d) sub -> P d (branch d k sub o)) -> forall t d, P d t.
Proof.
  intros HE HL HB t. induction t as [|k' v'|l IHl r IHr]; intros d; [done..|].
  specialize (HB d). unfold branch in HB. destruct (bit k d); auto.
Qed.

(** ** Loading nodes *)

Context (known_zero : known zeroKey).

Lemma known_th d t : Forall unloaded (inner d t) -> known (th d t).
Proof. destruct t; [done|..]; cbn [SmtRead.inner]; by intros [(_ & ? & _) _]%Forall_cons. Qed.

Lemma unloaded_nonzero d t : Forall unloaded (inner d t) -> t <> E -> th d t <> zeroKey.
Proof. destruct t; [done|..]; cbn [SmtRead.inner]; by intros [(_ & _ & ?) _]%Forall_cons. Qed.

Lemma unloaded_halves d l r : Forall unloaded (inner d (B l r)) -> Forall unloaded (inner (S d) l) /\ Forall unloaded (inner (S d) r).
Proof. cbn [SmtRead.inner]. intros [_ Hs]%Forall_cons. by apply Forall_app. Qed.

(** The hashes of the nodes that have been loaded; the zero hash stands for no node. *)
Definition loads (vs : list NodeKey) (xs ys : list (list Z * NodeKey)) : Prop :=
  map hashOf xs ≡ₚ filter (.≠ zeroKey) vs ++ map hashOf ys.

Lemma loads_nil xs : loads [] xs xs.
Proof. unfold loads; reflexivity. Qed.

Lemma loads_app vs ws xs ys zs : loads vs xs ys -> loads ws ys zs -> loads (vs ++ ws) xs zs.
Proof. unfold loads. intros -> ->. by rewrite filter_app, <- app_assoc. Qed.

Lemma loads_both vs ws xs ys xs' ys' : loads vs xs ys -> loads ws xs' ys' -> loads (vs ++ ws) (xs ++ xs') (ys ++ ys').
Proof.
  unfold loads. rewrite !map_app, filter_app. intros -> ->. rewrite <- !app_assoc. apply Permutation_app_head.
  rewrite !app_assoc. apply Permutation_app_tail. apply Permutation_app_comm.
Qed.

Lemma loads_perm vs xs ys xs' ys' : xs ≡ₚ xs' -> ys ≡ₚ ys' -> loads vs xs ys -> loads vs xs' ys'.
Proof.
  unfold loads. intros Hx Hy Hl. rewrite <- (Permutation_map hashOf Hx), Hl. apply Permutation_app_head. by apply Permutation_map.
Qed.

Lemma fetch_ok d t : t <> E -> placed d t -> (d <= 256)%nat -> Forall unloaded (inner d t) ->
  exists n, fetchNodeDataFromDb db0 (th d t) = Ok (Some n) /\ brep d t t n /\ loads [th d t] (inner d t) (cold d t n).
Proof.
  intros Ht Hp Hd Hu. pose proof (unloaded_nonzero d t Hu Ht) as Hz. unfold fetchNodeDataFromDb. rewrite Key_IsZero_spec, bool_decide_false by done.
  rewrite (stored_node Hash), bind_ok; [|eapply Forall_impl; [exact Hu|by intros x []]|done]. unfold loads. rewrite filter_cons_True by done.
  destruct t as [|k v|l r]; [done|..]; cbn [node_of].
  - destruct Hp as [Hk Hv]. destruct (childAt_node12 (RemoveKeyBits k (Z.of_nat d)) (valHash Hash v) LeafCapacity) as (-> & -> & _);
      [by apply RemoveKeyBits_ok|apply Hash_range|apply LeafCapacity_ok|].
    rewrite !bind_ok, IsFinalNode_node12. eexists. split; [done|]. by split.
  - destruct (childAt_node12 (th (S d) l) (th (S d) r) BranchCapacity) as (-> & -> & _); [by apply th_ok..|apply zeroKey_ok|].
    rewrite !bind_ok, IsFinalNode_node12. eexists. split; [done|]. apply unloaded_halves in Hu as [Ul Ur]. split; [|done].
    apply brep_B. eexists _, _, None, None. split; [done|]. split_and!; try done; cbn [slotRep sideOf]; auto; by apply known_th.
Qed.

(** ** The nodes that are loaded *)

Definition is_E (t : tree) : bool := match t with E => true | _ => false end.

Lemma is_E_ok t : is_E t = true <-> t = E.
Proof. by destruct t. Qed.

(** The hash of a part that is not empty. *)
Definition rootHash (d : nat) (s : tree) : list NodeKey := if is_E s then [] else [th d s].

(** The hashes of the nodes on the path of a key, and with siblings also of those beside it. *)
Fixpoint touched (k : NodeKey) (siblings : bool) (d : nat) (s : tree) : list NodeKey :=
  match s with
  | E => []
  | Leaf _ _ => [th d s]
  | B l r => th d s :: (if siblings then rootHash (S d) (if bit k d then l else r) else []) ++
      (if bit k d then touched k siblings (S d) r else touched k siblings (S d) l)
  end.

(** Whether a branch on the path of a key has one child only. *)
Fixpoint gap (k : NodeKey) (d : nat) (t : tree) : bool :=
  match t with
  | B l r => is_E l || is_E r || (if bit k d then gap k (S d) r else gap k (S d) l)
  | _ => false
  end.

Lemma touched_eq k siblings d s : s <> E -> touched k siblings d s =
  th d s :: (if siblings then rootHash (S d) (sideOf (negb (bit k d)) s) else []) ++ touched k siblings (S d) (sideOf (bit k d) s).
Proof. destruct s as [|k' v'|l r]; [done|..]; intros _; cbn [touched sideOf]; [by destruct siblings|by destruct (bit k d)]. Qed.

Lemma gap_branch k d sub o : gap k d (branch d k sub o) = is_E sub || is_E o || gap k (S d) sub.
Proof. unfold branch. destruct (bit k d) eqn:Hb; cbn [gap]; rewrite Hb; [by rewrite (orb_comm (is_E o))|done]. Qed.

(** What the way down loads: nodes of the old tree, and the hash of nothing if it meets it. *)
Definition visits (k : NodeKey) (fetch : bool) (d : nat) (s t : tree) (vs : list NodeKey) : Prop :=
  (forall h, h ∈ vs -> h <> zeroKey -> h ∈ touched k fetch d s) /\ (zeroKey ∈ vs <-> fetch && gap k d t = true).

(** A child is loaded unless it is in memory. *)
Lemma fetchSlot_ok d s t h o : placed d t -> (d <= 256)%nat -> slotRep d s t h o ->
  exists c vs, (match o with Some _ => Ok (o, []) | None => c ← fetchNodeDataFromDb db0 h; Ok (c, [h]) end) = Ok (c, vs) /\
    slotRep d s t h c /\ (c = None -> t = E) /\ loads vs (slotCold d t o) (slotCold d t c) /\
    (forall x, x ∈ vs -> x <> zeroKey -> x ∈ rootHash d s) /\ (zeroKey ∈ vs <-> is_E t = true).
Proof.
  intros Hp Hd Hs. destruct o as [n|].
  { exists (Some n), []. apply brep_nonempty in Hs as Ht. split; [done|]. split; [done|]. split; [done|]. split; [apply loads_nil|].
    split; [by intros x ?%not_elem_of_nil|]. rewrite is_E_ok. split; [by intros ?%not_elem_of_nil|done]. }
  destruct Hs as (-> & Hu & Hts). assert (t = E \/ t <> E) as [->|Ht] by (destruct t; auto).
  { exists None, [zeroKey]. split; [done|]. split; [done|]. split; [done|]. split; [apply loads_nil|].
    split; [by intros x ->%list_elem_of_singleton|]. by rewrite list_elem_of_singleton. }
  destruct Hts as [?| ->]; [done|]. pose proof (unloaded_nonzero d s Hu Ht) as Hz.
  destruct (fetch_ok d s Ht Hp Hd Hu) as (n & -> & Hr & Hl). exists (Some n), [th d s]. rewrite bind_ok. split; [done|].
  split; [done|]. split; [done|]. split; [done|]. rewrite is_E_ok. split; [|split; [by intros ?%list_elem_of_singleton|done]].
  intros x ->%list_elem_of_singleton _. unfold rootHash. destruct s; [done|left..].
Qed.

Lemma fetchChildren_ok k d s sub o n (fetch : bool) : brep d s (branch d k sub o) n -> placed d (branch d k sub o) ->
  exists h c h' c' vs, (if fetch then fetchChildren db0 n else Ok (n, [])) = Ok (pathBranch k d h c h' c', vs) /\
    known h /\ known h' /\ slotRep (S d) (sideOf (bit k d) s) sub h c /\ slotRep (S d) (sideOf (negb (bit k d)) s) o h' c' /\
    (fetch = true -> (c = None -> sub = E) /\ (c' = None -> o = E)) /\
    loads vs (cold d (branch d k sub o) n) (slotCold (S d) sub c ++ slotCold (S d) o c') /\
    (forall x, x ∈ vs -> x <> zeroKey -> fetch = true /\ (x ∈ rootHash (S d) (sideOf (bit k d) s) \/ x ∈ rootHash (S d) (sideOf (negb (bit k d)) s))) /\
    (zeroKey ∈ vs <-> fetch && (is_E sub || is_E o) = true).
Proof.
  intros (h & c & h' & c' & -> & Kh & Kh' & Hs & Ho)%brep_branch (Hd & Ps & Po & _)%placed_branch. destruct fetch.
  2: { exists h, c, h', c', []. do 5 (split; [done|]). split; [done|]. split; [eapply loads_perm; [symmetry; apply cold_branch|reflexivity|apply loads_nil]|].
       split; [by intros x ?%not_elem_of_nil|]. split; [by intros ?%not_elem_of_nil|done]. }
  destruct (fetchSlot_ok (S d) _ sub h c Ps ltac:(lia) Hs) as (c1 & vs & E1 & R1 & N1 & L1 & V1 & Z1).
  destruct (fetchSlot_ok (S d) _ o h' c' Po ltac:(lia) Ho) as (c2 & ws & E2 & R2 & N2 & L2 & V2 & Z2).
  assert (forall us, us ≡ₚ vs ++ ws ->
    (forall x, x ∈ us -> x <> zeroKey -> true = true /\ (x ∈ rootHash (S d) (sideOf (bit k d) s) \/ x ∈ rootHash (S d) (sideOf (negb (bit k d)) s))) /\
    (zeroKey ∈ us <-> true && (is_E sub || is_E o) = true)) as Hvis.
  { intros us Hus. setoid_rewrite Hus. setoid_rewrite elem_of_app. cbn [andb]. rewrite orb_true_iff, Z1, Z2. split; [|done].
    intros x [Hx|Hx] Hne; (split; [done|]); auto. }
  unfold pathBranch at 1. destruct (bit k d) eqn:Hb; unfold fetchChildren.
  - exists h, c1, h', c2, (ws ++ vs). rewrite E2, bind_ok. unfold nonNil. rewrite bind_ok, E1, bind_ok. unfold pathBranch at 1. rewrite Hb.
    do 5 (split; [done|]). split; [done|]. split; [|apply Hvis, Permutation_app_comm]. eapply loads_perm; [symmetry; apply cold_branch|reflexivity|].
    eapply loads_perm; [apply Permutation_app_comm|apply Permutation_app_comm|by apply loads_both].
  - exists h, c1, h', c2, (vs ++ ws). rewrite E1, bind_ok. unfold nonNil. rewrite bind_ok, E2, bind_ok. unfold pathBranch at 1. rewrite Hb.
    do 5 (split; [done|]). split; [done|]. split; [|by apply Hvis]. eapply loads_perm; [symmetry; apply cold_branch|reflexivity|]. by apply loads_both.
Qed.

(** ** Finding the place of a key *)

(** The way from a node down to the place found: a leaf, or a branch with nothing on the
    side of the key.  With the siblings fetched, what is not in memory is empty. *)
Inductive finds (k : NodeKey) (fetch : bool) : nat -> tree -> tree -> smtBatchNode -> nat -> list Z -> Prop :=
| finds_leaf d s k' v' n : brep d s (Leaf k' v') n -> finds k fetch d s (Leaf k' v') n d []
| finds_empty d s o h' c' : known h' -> slotRep (S d) (sideOf (negb (bit k d)) s) o h' c' -> (fetch = true -> c' = None -> o = E) ->
    finds k fetch d s (branch d k E o) (pathBranch k d zeroKey None h' c') d []
| finds_down d s sub o h c h' c' lvl p : known h -> known h' -> slotRep (S d) (sideOf (negb (bit k d)) s) o h' c' -> (fetch = true -> c' = None -> o = E) ->
    finds k fetch (S d) (sideOf (bit k d) s) sub c lvl p ->
    finds k fetch d s (branch d k sub o) (pathBranch k d h (Some c) h' c') lvl (dir k d :: p).

Lemma finds_rep k fetch d s t n lvl p : finds k fetch d s t n lvl p -> brep d s t n.
Proof.
  induction 1 as [d s k' v' n Hr|d s o h' c' Kh' Ho _|d s sub o h c h' c' lvl p Kh Kh' Ho _ _ IH]; [done|apply brep_branch..].
  - exists zeroKey, None, h', c'. split; [done|]. split; [done|]. split; [done|]. split; [apply slot_empty|done].
  - by exists h, (Some c), h', c'.
Qed.

Lemma load_ok d s t h o level : t <> E -> placed d t -> (d <= 256)%nat -> slotRep d s t h o ->
  exists n vs, (match o with
    | Some _ => Ok (o, [])
    | None => if negb (Key_IsZero h) then c ← fetchNodeDataFromDb db0 h; Ok (c, [h])
              else if negb (level =? -1) then Err "nodekey is zero at non-root level"%string else Ok (None, [])
    end) = Ok (Some n, vs) /\ brep d s t n /\ loads vs (slotCold d t o) (cold d t n) /\ (forall x, x ∈ vs -> x ∈ rootHash d s /\ x <> zeroKey).
Proof.
  intros Ht Hp Hd Hs. destruct o as [n|].
  { exists n, []. split; [done|]. split; [done|]. split; [apply loads_nil|]. by intros x ?%not_elem_of_nil. }
  destruct Hs as (-> & Hu & [?| ->]); [done|]. pose proof (unloaded_nonzero d s Hu Ht) as Hz.
  rewrite Key_IsZero_spec, bool_decide_false by done. cbn [negb].
  destruct (fetch_ok d s Ht Hp Hd Hu) as (n & -> & Hr & Hl). exists n, [th d s]. rewrite bind_ok. split; [done|]. split; [done|]. split; [done|].
  intros x ->%list_elem_of_singleton. split; [|done]. unfold rootHash. destruct s; [done|left..].
Qed.

Lemma rootHash_touched k fetch d s x : x ∈ rootHash d s -> x ∈ touched k fetch d s.
Proof. unfold rootHash. destruct s; cbn [is_E touched]; [done|done|]. intros ->%list_elem_of_singleton. left. Qed.

(** What a branch on the way loads, together with what is loaded below. *)
Lemma visits_branch k fetch d s sub o vs ws us : (forall x, x ∈ vs -> x ∈ rootHash d s /\ x <> zeroKey) ->
  (forall x, x ∈ ws -> x <> zeroKey -> fetch = true /\ (x ∈ rootHash (S d) (sideOf (bit k d) s) \/ x ∈ rootHash (S d) (sideOf (negb (bit k d)) s))) ->
  (zeroKey ∈ ws <-> fetch && (is_E sub || is_E o) = true) -> visits k fetch (S d) (sideOf (bit k d) s) sub us ->
  visits k fetch d s (branch d k sub o) (vs ++ ws ++ us).
Proof.
  intros Hvs Hws Hz [Hus Hzu]. split.
  - intros h Hh Hne. assert (s = E \/ s <> E) as [->|Hs] by (destruct s; auto).
    { cbn [sideOf] in *. apply elem_of_app in Hh as [Hh|[Hh|Hh]%elem_of_app]; [by apply Hvs in Hh as [?%not_elem_of_nil _]|..|by apply (Hus h)].
      by destruct (Hws h Hh Hne) as [_ [?%not_elem_of_nil|?%not_elem_of_nil]]. }
    rewrite touched_eq by done. apply elem_of_app in Hh as [[Hh _]%Hvs|[Hh|Hh]%elem_of_app].
    + unfold rootHash in Hh. destruct (is_E s); [by apply not_elem_of_nil in Hh|]. apply list_elem_of_singleton in Hh as ->. left.
    + right. apply elem_of_app. destruct (Hws h Hh Hne) as [-> [Hon|Hoff]]; [right; by apply rootHash_touched|by left].
    + right. apply elem_of_app. right. by apply Hus.
  - rewrite !elem_of_app, Hz, Hzu, gap_branch. split.
    + intros [[_ ?]%Hvs|[Hb|Hb]]; [done|..]; apply andb_true_iff in Hb as [-> Hb]; rewrite Hb; [done|]. by rewrite orb_true_r.
    + intros [-> [Hb|Hb]%orb_true_iff]%andb_true_iff; right; [left|right]; by rewrite Hb.
Qed.

Lemma visits_leaf k fetch d s k' v' vs : (forall x, x ∈ vs -> x ∈ rootHash d s /\ x <> zeroKey) -> visits k fetch d s (Leaf k' v') vs.
Proof.
  intros Hvs. split; [intros h Hh _; by apply rootHash_touched, Hvs|]. cbn [gap]. rewrite andb_false_r. split; [by intros [_ ?]%Hvs|done].
Qed.

Lemma find_ok k fetch t : forall d s fuel level h o, t <> E -> placed d t -> (d <= 256)%nat -> (256 < d + fuel)%nat -> level + 1 = Z.of_nat d ->
  slotRep d s t h o ->
  exists n lvl p vs, findInsertingPoint fuel db0 (GetPath k) fetch level h o = Ok (Some n, Z.of_nat lvl, p, vs) /\
    finds k fetch d s t n lvl p /\ loads vs (slotCold d t o) (cold d t n) /\ visits k fetch d s t vs.
Proof.
  apply (path_ind k (fun d t => forall s fuel level h o, t <> E -> placed d t -> (d <= 256)%nat -> (256 < d + fuel)%nat -> level + 1 = Z.of_nat d ->
    slotRep d s t h o -> exists n lvl p vs, findInsertingPoint fuel db0 (GetPath k) fetch level h o = Ok (Some n, Z.of_nat lvl, p, vs) /\
    finds k fetch d s t n lvl p /\ loads vs (slotCold d t o) (cold d t n) /\ visits k fetch d s t vs)); clear t; [done|..].
  - intros d k' v' s fuel level h o Ht Hp Hd Hf Hlv Hs. destruct fuel as [|fuel]; [lia|]. cbn [findInsertingPoint].
    destruct (load_ok d s (Leaf k' v') h o level Ht Hp Hd Hs) as (n & vs & -> & Hr & Hl & Hv). rewrite bind_ok, (brep_leaf _ _ _ _ Hr).
    exists n, d, [], vs. rewrite Hlv. split; [done|]. split; [by apply finds_leaf|]. split; [done|by apply visits_leaf].
  - intros d sub o IH s fuel level h slot Ht Hp Hd Hf Hlv Hs. destruct fuel as [|fuel]; [lia|]. cbn [findInsertingPoint].
    destruct (load_ok d s _ h slot level Ht Hp Hd Hs) as (n & vs & -> & Hr & Hl & Hv). rewrite bind_ok, (brep_leaf _ _ _ _ Hr).
    replace (match branch d k sub o with Leaf _ _ => true | _ => false end) with false by (unfold branch; by destruct (bit k d)).
    destruct (fetchChildren_ok k d s sub o n fetch Hr Hp) as (h1 & c & h' & c' & ws & -> & Kh & Kh' & Hc & Hc' & Hw & Hl' & Hv' & Hz').
    apply placed_branch in Hp as (Hd' & Ps & Po & _). rewrite bind_ok, Hlv, index_path, bind_ok by done. fold (dir k d).
    rewrite pathBranch_hash, bind_ok, pathBranch_child. cbv zeta.
    assert (loads (vs ++ ws) (slotCold d (branch d k sub o) slot) (cold d (branch d k sub o) (pathBranch k d h1 c h' c'))) as Hload.
    { eapply loads_app; [done|]. eapply loads_perm; [reflexivity|symmetry; apply cold_branch|done]. }
    assert (sub = E \/ sub <> E) as [->|Hsub] by (destruct sub; auto).
    + destruct c as [c|]; [done|]. destruct Hc as [-> _]. cbn [SmtRefine.th]. rewrite Key_IsZero_spec, bool_decide_true by done. cbn [andb].
      exists (pathBranch k d zeroKey None h' c'), d, [], (vs ++ ws). split; [done|]. split; [apply finds_empty; [done..|]; by intros [_ ?]%Hw|]. split; [done|].
      rewrite <- (app_nil_r ws). apply visits_branch; [done..|]. split; [by intros ? ?%not_elem_of_nil|]. cbn [gap]. rewrite andb_false_r. split; [by intros ?%not_elem_of_nil|done].
    + assert (Key_IsZero h1 && (match c with None => true | Some _ => false end) = false) as ->.
      { destruct c; [by rewrite andb_false_r|]. destruct Hc as (-> & Hu & _). rewrite Key_IsZero_spec, bool_decide_false by (by apply unloaded_nonzero). done. }
      destruct (IH (sideOf (bit k d) s) fuel (Z.of_nat d) h1 c) as (n1 & lvl & p & us & -> & Hfind & Hl1 & Hv1); [done|done|lia|lia|lia|done|].
      rewrite bind_ok, pathBranch_set. eexists _, lvl, _, _. split; [done|]. split; [apply finds_down; try done; by intros [_ ?]%Hw|].
      split; [|by apply visits_branch]. rewrite app_assoc. eapply loads_app; [exact Hload|].
      eapply loads_perm; [symmetry; apply cold_branch|symmetry; apply cold_branch|].
      rewrite <- (app_nil_r us). apply loads_both; [done|apply loads_nil].
Qed.

(** ** What stays in the store *)

(** Some of the hashes of the old nodes. *)
Definition partOf (vs : list NodeKey) (d : nat) (s : tree) : Prop := exists rest, map hashOf (inner d s) ≡ₚ vs ++ rest.

Lemma part_empty vs d : partOf vs d E -> vs = [].
Proof. intros [rest Hp]. cbn in Hp. apply Permutation_nil_l in Hp. symmetry in Hp. by apply app_eq_nil in Hp as [-> _]. Qed.

Lemma part_root d s : partOf (rootHash d s) d s.
Proof. unfold partOf, rootHash. destruct s as [|k v|l r]; cbn [is_E SmtRead.inner map app]; by eexists. Qed.

Lemma part_perm vs ws d s : vs ≡ₚ ws -> partOf vs d s -> partOf ws d s.
Proof. intros Hp [rest Hr]. exists rest. by rewrite <- Hp. Qed.

Lemma part_tail us vs d s : partOf (us ++ vs) d s -> partOf vs d s.
Proof. intros [rest Hr]. exists (us ++ rest). rewrite Hr, <- app_assoc. apply Permutation_app_swap_app. Qed.

(** Parts of the two sides are parts of the whole, beside its root. *)
Lemma part_sides b d s vs ws : partOf vs (S d) (sideOf b s) -> partOf ws (S d) (sideOf (negb b) s) -> partOf (rootHash d s ++ vs ++ ws) d s.
Proof.
  intros Hv Hw. destruct s as [|k' v'|l r]; [apply part_empty in Hv as ->, Hw as ->; apply part_root..|].
  destruct Hv as [r1 Hv], Hw as [r2 Hw]. exists (r1 ++ r2). unfold rootHash. cbn [is_E SmtRead.inner map app sideOf] in *. apply perm_skip.
  assert (map hashOf (inner (S d) l ++ inner (S d) r) ≡ₚ map hashOf (inner (S d) (if b then r else l)) ++ map hashOf (inner (S d) (if negb b then r else l))) as ->.
  { rewrite map_app. destruct b; cbn [negb]; [apply Permutation_app_comm|done]. }
  rewrite Hv, Hw, <- !app_assoc. apply Permutation_app_head, Permutation_app_swap_app.
Qed.

Lemma slot_part d s t h c : (forall n, brep d s t n -> partOf (rootHash d s ++ map hashOf (cold d t n)) d s) -> slotRep d s t h c ->
  partOf (map hashOf (slotCold d t c)) d s.
Proof.
  intros IH Hs. destruct c as [c|]; [by eapply part_tail, IH|].
  destruct Hs as (_ & _ & [-> | ->]); [by exists (map hashOf (inner d s))|exists []; by rewrite app_nil_r].
Qed.

Lemma brep_part t : forall d s n, brep d s t n -> partOf (rootHash d s ++ map hashOf (cold d t n)) d s.
Proof.
  induction t as [|k v|l IHl r IHr]; intros d s n Hr; [done|cbn [cold map]; rewrite app_nil_r; apply part_root|].
  apply brep_B in Hr as (a & b & ln & rn & -> & _ & _ & Hl & Hr). cbn [cold]. rewrite map_app.
  apply (part_sides false); [exact (slot_part (S d) _ l a ln (IHl (S d) _) Hl)|exact (slot_part (S d) _ r b rn (IHr (S d) _) Hr)].
Qed.

Lemma touched_part k siblings s : forall d, partOf (touched k siblings d s) d s.
Proof.
  induction s as [|k' v'|l IHl r IHr]; intros d; [by exists []|apply (part_root d (Leaf k' v'))|].
  assert (partOf (touched k siblings (S d) (sideOf (bit k d) (B l r))) (S d) (sideOf (bit k d) (B l r))) as Hon by (cbn [sideOf]; by destruct (bit k d)).
  rewrite touched_eq by done. eapply part_perm; [|apply (part_sides (bit k d) d (B l r) _ (if siblings then rootHash (S d) (sideOf (negb (bit k d)) (B l r)) else []) Hon)].
  - unfold rootHash at 1. cbn [is_E app]. apply perm_skip, Permutation_app_comm.
  - destruct siblings; [apply part_root|by exists (map hashOf (inner (S d) (sideOf (negb (bit k d)) (B l r))))].
Qed.

(** Once a place has been found, what is in the store only is none of what the way touches. *)
Lemma finds_part k fetch d s t n lvl p : finds k fetch d s t n lvl p -> partOf (touched k fetch d s ++ map hashOf (cold d t n)) d s.
Proof.
  assert (forall d s o h' c', slotRep (S d) (sideOf (negb (bit k d)) s) o h' c' -> (fetch = true -> c' = None -> o = E) ->
    partOf ((if fetch then rootHash (S d) (sideOf (negb (bit k d)) s) else []) ++ map hashOf (slotCold (S d) o c')) (S d) (sideOf (negb (bit k d)) s)) as Hoff.
  { intros d0 s0 o h' c' Ho Hw. destruct fetch; [|apply (slot_part _ _ _ h'); [apply brep_part|done]].
    destruct c' as [c'|]; [by apply brep_part|]. rewrite (Hw eq_refl eq_refl). cbn [slotCold SmtRead.inner map]. rewrite app_nil_r. apply part_root. }
  assert (forall d s sub o h c h' c', slotRep (S d) (sideOf (negb (bit k d)) s) o h' c' -> (fetch = true -> c' = None -> o = E) ->
    partOf (touched k fetch (S d) (sideOf (bit k d) s) ++ map hashOf (slotCold (S d) sub c)) (S d) (sideOf (bit k d) s) ->
    partOf (touched k fetch d s ++ map hashOf (cold d (branch d k sub o) (pathBranch k d h c h' c'))) d s) as Hbranch.
  { intros d0 s0 sub o h c h' c' Ho Hw Hon. eapply part_perm; [|apply (part_sides (bit k d0)); [exact Hon|exact (Hoff _ _ _ _ _ Ho Hw)]].
    rewrite (Permutation_map hashOf (cold_branch k d0 sub o h c h' c')), map_app.
    assert (s0 = E \/ s0 <> E) as [->|Hs0] by (destruct s0; auto); [destruct fetch; reflexivity|]. rewrite (touched_eq k fetch d0 s0) by done.
    unfold rootHash at 1. destruct (is_E s0) eqn:He; [by apply is_E_ok in He|]. cbn [app]. apply perm_skip. rewrite <- !app_assoc.
    etrans; [apply Permutation_app_head, Permutation_app_swap_app|]. rewrite Permutation_app_swap_app. done. }
  induction 1 as [d s k' v' n Hr|d s o h' c' Kh' Ho Hw|d s sub o h c h' c' lvl p Kh Kh' Ho Hw Hf IH].
  - cbn [cold map]. rewrite app_nil_r. apply touched_part.
  - apply Hbranch; [done..|]. cbn [slotCold SmtRead.inner map]. rewrite app_nil_r. apply touched_part.
  - by apply Hbranch.
Qed.

(** ** Setting a value *)

Section key.
Context (k : NodeKey) (Hk : key_ok k).

Definition leafNode (d : nat) (k' : NodeKey) (h : option NodeKey) : smtBatchNode := BatchNode (RemoveKeyBits k' (Z.of_nat d)) h true None None.

Lemma succ_level d : Z.of_nat d + 1 = Z.of_nat (S d).
Proof. lia. Qed.

(** A leaf moves down in the direction of a key that it agrees with up to here. *)
Lemma expandLeaf_ok k1 k' d h : key_ok k' -> (d < 256)%nat -> agree d k1 k' ->
  expandLeafByAddingALeafInDirection (GetPath k1) (Z.of_nat d) (leafNode d k' h) =
    Ok (dir k1 d, pathBranch k1 d zeroKey (Some (leafNode (S d) k' h)) zeroKey None).
Proof.
  intros Hk' Hd Ha. unfold expandLeafByAddingALeafInDirection, leafNode. rewrite index_path, bind_ok, slice_path, bind_ok by (done || lia).
  rewrite JoinKey_RemoveKeyBits by (done || lia). rewrite succ_level. unfold pathBranch, dir. by destruct (bit k1 d).
Qed.

Lemma createALeaf_ok d h h' c' : (d < 256)%nat -> createALeafInEmptyDirection (GetPath k) (Z.of_nat d) k (pathBranch k d h None h' c') =
  Ok (dir k d, pathBranch k d h (Some (leafNode (S d) k None)) h' c').
Proof.
  intros Hd. unfold createALeafInEmptyDirection. rewrite index_path, bind_ok by done. fold (dir k d).
  by rewrite pathBranch_child, pathBranch_set, succ_level.
Qed.

Lemma dir_eqb d k' : (dir k d =? dir k' d) = Bool.eqb (bit k d) (bit k' d).
Proof. unfold dir. by destruct (bit k d), (bit k' d). Qed.

Lemma expandLoop_ok v k' v' : key_ok k' -> k <> k' -> forall m d s fuel, (d + m = 256)%nat -> (m <= fuel)%nat -> agree d k k' ->
  exists n lvl, expandLoop fuel (GetPath k) (GetPath k') k (valHash Hash v) (Z.of_nat d) (leafNode d k' (Some (valHash Hash v'))) = Ok (n, lvl) /\
    brep d s (split m d k v k' v') n /\ cold d (split m d k v k' v') n = [].
Proof.
  intros Hk' Hne. induction m as [|m IH]; intros d s fuel Hd Hf Ha.
  { destruct Hne. apply agree_256; [done..|]. by replace 256%nat with d by lia. }
  destruct fuel as [|fuel]; [lia|]. cbn [split expandLoop]. rewrite !index_path, !bind_ok by lia. fold (dir k d) (dir k' d). rewrite dir_eqb.
  destruct (Bool.eqb (bit k d) (bit k' d)) eqn:Eb.
  - rewrite expandLeaf_ok, bind_ok, pathBranch_child by (done || lia). unfold nonNil. rewrite bind_ok, succ_level.
    destruct (IH (S d) (sideOf (bit k d) s) fuel) as (n & lvl & -> & Hr & Hc); [lia|lia|by apply agree_S, eqb_prop|]. rewrite bind_ok, pathBranch_set.
    eexists _, lvl. split; [done|]. split; [apply brep_branch; eexists _, (Some _), _, None; split_and!; [done..|apply slot_empty]|].
    apply Permutation_nil_r. rewrite cold_branch. cbn [slotCold SmtRead.inner]. by rewrite Hc.
  - rewrite expandLeaf_ok, bind_ok by (done || lia). apply eqb_false_iff in Eb.
    assert (forall h c, pathBranch k' d h c zeroKey None = pathBranch k d zeroKey None h c) as Hflip.
    { intros h c. unfold pathBranch. by destruct (bit k d), (bit k' d). }
    cbn [snd]. rewrite Hflip, createALeaf_ok, bind_ok, pathBranch_set by lia. eexists _, _. split; [done|]. split.
    + apply brep_branch. eexists _, (Some _), _, (Some _). split; [done|]. by rewrite succ_level.
    + apply Permutation_nil_r. by rewrite cold_branch.
Qed.

Lemma setAtLeaf_ok d s v k' v' : key_ok k' -> (d <= 256)%nat -> agree d k k' ->
  exists n lvl, setAtLeaf (GetPath k) k (valHash Hash v) (Z.of_nat d) (RemoveKeyBits k (Z.of_nat d)) (leafNode d k' (Some (valHash Hash v'))) = Ok (n, lvl) /\
    brep d s (tins d k v (Leaf k' v')) n /\ cold d (tins d k v (Leaf k' v')) n = [].
Proof.
  intros Hk' Hd Ha. unfold setAtLeaf, leafNode. rewrite IsEqualTo_spec. cbn [tins].
  destruct (decide (k = k')) as [->|Hne]; [rewrite bool_decide_true by done; eexists _, _; by split|].
  rewrite bool_decide_false by (intros He; symmetry in He; by apply RemoveKeyBits_inj in He). cbn [negb].
  rewrite slice_path, bind_ok, JoinKey_RemoveKeyBits by done. apply expandLoop_ok; [done..|lia|lia|done].
Qed.

Lemma under_sub d sub o : placed d (branch d k sub o) -> under d k (branch d k sub o) -> under (S d) k sub.
Proof. intros Hp Hu. pose proof (under_side d k) as Hs. unfold branch in Hp, Hu. destruct (bit k d); exact (Hs _ _ Hp Hu). Qed.

Lemma setValue_ok v fetch d s t n lvl p : finds k fetch d s t n lvl p -> placed d t -> under d k t -> (d <= 256)%nat ->
  exists n' lvl', updateSlot p (setValue (GetPath k) k (valHash Hash v) (Z.of_nat lvl)) (Some n) = Ok (Some n', lvl') /\
    brep d s (tins d k v t) n' /\ cold d (tins d k v t) n' ≡ₚ cold d t n.
Proof.
  induction 1 as [d s k' v' n Hr|d s o h' c' Kh' Ho _|d s sub o h c h' c' lvl p Kh Kh' Ho _ _ IH]; intros Hp Hu Hd.
  - cbn [updateSlot nonNil]. rewrite bind_ok, Hr. unfold setValue. cbn [batch_isLeaf negb].
    destruct (setAtLeaf_ok d s v k' v') as (n' & lvl' & He & Hr' & Hc'); [apply Hp|done|by apply Hu|].
    unfold leafNode in He. rewrite He, bind_ok. exists n', lvl'. split; [done|]. split; [done|]. by rewrite Hc'.
  - apply placed_branch in Hp as (Hd' & _). cbn [updateSlot nonNil]. rewrite bind_ok. unfold setValue.
    rewrite pathBranch_leaf. cbn [negb]. rewrite createALeaf_ok, bind_ok, pathBranch_child by done. cbn [nonNil]. rewrite bind_ok.
    unfold setAtLeaf, leafNode. cbn [leftOf]. rewrite IsEqualTo_spec, bool_decide_true by done. cbn [negb]. rewrite bind_ok, pathBranch_set, bind_ok.
    eexists _, _. split; [done|]. cbn [fst]. rewrite tins_branch. split; [|rewrite !cold_branch; reflexivity]. apply brep_branch. by eexists _, (Some _), _, _.
  - pose proof (placed_branch _ _ _ _ Hp) as (Hd' & Ps & _ & _). cbn [updateSlot nonNil]. rewrite bind_ok, pathBranch_child.
    destruct IH as (n' & lvl' & -> & Hr & Hc); [done|by eapply under_sub|lia|].
    rewrite bind_ok. cbn [fst snd]. rewrite pathBranch_set. eexists _, _. split; [done|]. rewrite tins_branch.
    split; [|rewrite !cold_branch; cbn [slotCold]; by rewrite Hc]. apply brep_branch. by eexists _, (Some _), _, _.
Qed.

(** ** Deleting a value *)

(** The level of the branch at which the path of the key ends without a leaf. *)
Fixpoint blocked (d : nat) (t : tree) : option nat :=
  match t with
  | B l r => match (if bit k d then r else l) with
             | E => Some d
             | _ => if bit k d then blocked (S d) r else blocked (S d) l
             end
  | _ => None
  end.

Lemma blocked_branch d sub o : blocked d (branch d k sub o) = match sub with E => Some d | _ => blocked (S d) sub end.
Proof. unfold branch. destruct (bit k d) eqn:Hb; cbn [blocked]; rewrite Hb; by destruct sub. Qed.

(** The keys of a part of the tree beside or on the path. *)
Definition keysBelow (d : nat) (b : bool) (t : tree) : Prop := forall k2, inT k2 t -> key_ok k2 /\ agree d k k2 /\ bit k2 d = b.

Lemma collapse_leaf d k2 h : (d < 256)%nat -> key_ok k2 -> agree d k k2 ->
  collapseLeafByRemovingTheSingleLeaf (GetPath k) (Z.of_nat d) (leafNode (S d) k2 h) (dir k2 d) = Ok (leafNode d k2 h).
Proof.
  intros Hd Hk2 Ha. unfold collapseLeafByRemovingTheSingleLeaf. rewrite succ_level, slice_path, bind_ok by lia.
  rewrite take_S_path, (take_path_ext k k2 d), Nat2Z.id by (done || lia). unfold store.
  assert (length (take d (GetPath k2)) = d) as Hl by (rewrite length_take, GetPath_length; lia).
  rewrite decide_True by (rewrite length_app, Hl; simpl; lia). rewrite bind_ok, insert_app_r_alt by lia. rewrite Hl, Nat.sub_diag.
  change (<[0%nat := dir k2 d]> [Z.b2z (bit k d)]) with [Z.b2z (bit k2 d)]. rewrite <- take_S_path by done. unfold leafNode. rewrite JoinKey_RemoveKeyBits by (done || lia). done.
Qed.

(** A branch collapses exactly if the abstract one does. *)
Definition collapsed (d : nat) (t : tree) (goOn : bool) : Prop :=
  if goOn then exists k2 v2, t = Leaf k2 v2 else exists l r, t = B l r.

Lemma collapse_ok d s sub o h c h' c' : (d < 256)%nat -> known h -> known h' ->
  slotRep (S d) (sideOf (bit k d) s) sub h c -> slotRep (S d) (sideOf (negb (bit k d)) s) o h' c' ->
  (c = None -> sub = E) -> (c' = None -> o = E) -> ~ (sub = E /\ o = E) ->
  keysBelow d (bit k d) sub -> keysBelow d (negb (bit k d)) o ->
  exists n goOn, collapse (GetPath k) (Z.of_nat d) (pathBranch k d h c h' c') = Ok (n, goOn) /\ brep d s (mkBranch d k sub o) n /\
    cold d (mkBranch d k sub o) n ≡ₚ slotCold (S d) sub c ++ slotCold (S d) o c' /\ collapsed d (mkBranch d k sub o) goOn.
Proof.
  intros Hd Kh Kh' Hs Ho Ns No Hne Bs Bo. unfold collapse. rewrite pathBranch_leaf, pathBranch_single.
  assert (mkBranch d k sub o = branch d k sub o -> exists n goOn, Ok (pathBranch k d h c h' c', false) = Ok (n, goOn) /\
    brep d s (mkBranch d k sub o) n /\ cold d (mkBranch d k sub o) n ≡ₚ slotCold (S d) sub c ++ slotCold (S d) o c' /\
    collapsed d (mkBranch d k sub o) goOn) as Hstay.
  { intros ->. exists (pathBranch k d h c h' c'), false. split; [done|]. split; [apply brep_branch; by eexists _, _, _, _|].
    split; [apply cold_branch|]. unfold branch, collapsed. destruct (bit k d); eauto. }
  assert (forall k2 v2, key_ok k2 -> agree d k k2 -> mkBranch d k sub o = Leaf k2 v2 -> slotCold (S d) sub c ++ slotCold (S d) o c' = [] ->
    exists n goOn, (n ← collapseLeafByRemovingTheSingleLeaf (GetPath k) (Z.of_nat d) (leafNode (S d) k2 (Some (valHash Hash v2))) (dir k2 d); Ok (n, true)) = Ok (n, goOn) /\
    brep d s (mkBranch d k sub o) n /\ cold d (mkBranch d k sub o) n ≡ₚ slotCold (S d) sub c ++ slotCold (S d) o c' /\
    collapsed d (mkBranch d k sub o) goOn) as Hmove.
  { intros k2 v2 Hk2 Ha -> ->. rewrite collapse_leaf by done. rewrite bind_ok. eexists _, true. split; [done|]. split; [done|]. split; [done|]. by eexists _, _. }
  destruct c as [c|], c' as [c'|].
  - apply Hstay. apply brep_nonempty in Hs, Ho. unfold mkBranch, branch. by destruct (bit k d), sub, o.
  - rewrite (No eq_refl) in *. rewrite (brep_leaf _ _ _ _ Hs). destruct sub as [|k2 v2|l r]; [done|..].
    + cbn in Hs. subst c. destruct (Bs k2 eq_refl) as (Hk2 & Ha & Hb). unfold dir. rewrite <- Hb. apply Hmove; [done|done|unfold mkBranch; by destruct (bit k d)|done].
    + apply Hstay. unfold mkBranch, branch. by destruct (bit k d).
  - rewrite (Ns eq_refl) in *. rewrite (brep_leaf _ _ _ _ Ho). destruct o as [|k2 v2|l r]; [done|..].
    + cbn in Ho. subst c'. destruct (Bo k2 eq_refl) as (Hk2 & Ha & Hb). assert (1 - dir k d = dir k2 d) as ->.
      { unfold dir. rewrite Hb. by destruct (bit k d). }
      apply Hmove; [done|done|unfold mkBranch; by destruct (bit k d)|done].
    + apply Hstay. unfold mkBranch, branch. by destruct (bit k d).
  - destruct Hne. auto.
Qed.

(** How the way back leaves a part of the tree. *)
Definition unwoundTo (d : nat) (t : tree) (u : unwinding) : Prop :=
  match u with
  | Deleted => exists v, t = Leaf k v
  | Collapsed => exists k2 v2, tdel d k t = Leaf k2 v2
  | Ended _ => tdel d k t = t \/ exists l r, tdel d k t = B l r
  end.

Definition deleted (d : nat) (s t : tree) (n : smtBatchNode) (slot : option smtBatchNode) (u : unwinding) : Prop :=
  unwoundTo d t u /\
  match slot with
  | None => u = Deleted /\ cold d t n = []
  | Some n' => u <> Deleted /\ brep d s (tdel d k t) n' /\ cold d (tdel d k t) n' ≡ₚ cold d t n
  end.

Lemma placed_keys t : forall d k2, placed d t -> inT k2 t -> key_ok k2.
Proof.
  induction t as [|k' v'|l IHl r IHr]; intros d k2 Hp Hi; [done|..]; cbn in Hi; [subst; apply Hp|].
  destruct Hp as (_ & _ & _ & Pl & Pr), Hi as [Hi|Hi]; eauto.
Qed.

Lemma branch_keysBelow d sub o : placed d (branch d k sub o) -> under d k (branch d k sub o) ->
  keysBelow d (bit k d) sub /\ keysBelow d (negb (bit k d)) o.
Proof.
  intros Hp Hu. pose proof (placed_branch _ _ _ _ Hp) as (Hd & Ps & Po & Hbo). split; intros k2 Hi.
  - split; [by apply (placed_keys sub (S d))|]. split; [apply Hu, branch_inT; by left|].
    unfold branch in Hp. destruct (bit k d); by apply Hp.
  - split; [by apply (placed_keys o (S d))|]. split; [apply Hu, branch_inT; by right|by apply Hbo].
Qed.

(** One round of the loop on the way back. *)
Lemma collapse_climb d s sub o h c h' c' (u : Z) t n0 : (d < 256)%nat -> known h -> known h' ->
  slotRep (S d) (sideOf (bit k d) s) sub h c -> slotRep (S d) (sideOf (negb (bit k d)) s) o h' c' ->
  (c = None -> sub = E) -> (c' = None -> o = E) -> ~ (sub = E /\ o = E) ->
  keysBelow d (bit k d) sub -> keysBelow d (negb (bit k d)) o -> tdel d k t = mkBranch d k sub o ->
  cold d t n0 ≡ₚ slotCold (S d) sub c ++ slotCold (S d) o c' ->
  exists slot w, (r ← collapse (GetPath k) (Z.of_nat d) (pathBranch k d h c h' c');
     let '(n, goOn) := r : smtBatchNode * bool in Ok (Some n, if goOn then Collapsed else Ended u)) = Ok (slot, w) /\ deleted d s t n0 slot w.
Proof.
  intros Hd Kh Kh' Hs Ho Ns No Hne Bs Bo Ht Hc.
  destruct (collapse_ok d s sub o h c h' c') as (n & goOn & -> & Hr & Hcold & Hg); [done..|].
  rewrite bind_ok. eexists (Some n), _. split; [done|]. unfold deleted, unwoundTo. rewrite Ht, Hc.
  destruct goOn; (split; [|done]); [done|by right].
Qed.

Lemma deleteValue_ok d s t n lvl p : finds k true d s t n lvl p -> placed d t -> under d k t -> canonical t -> (d <= 256)%nat ->
  (forall j, blocked d t = Some j -> ~ known (RemoveKeyBits k (Z.of_nat j))) ->
  exists slot u, deleteValue (GetPath k) p k (Z.of_nat d) (Some n) = Ok (slot, u) /\ deleted d s t n slot u.
Proof.
  induction 1 as [d s k' v' n Hr|d s o h' c' Kh' Ho Hw|d s sub o h c h' c' lvl p Kh Kh' Ho Hw Hf IH]; intros Hp Hu Hcan Hd Hfresh;
    cbn [deleteValue nonNil]; rewrite bind_ok.
  - rewrite Hr. cbn [leftOf]. rewrite IsEqualTo_spec. unfold deleted. cbn [tdel]. destruct (decide (k = k')) as [<-|Hne].
    + rewrite bool_decide_true by done. eexists None, Deleted. split; [done|]. split; [by exists v'|done].
    + rewrite bool_decide_false by (intros He; symmetry in He; apply RemoveKeyBits_inj in He; try done; [apply Hp|by apply Hu]).
      cbn. eexists (Some _), (Ended _). split; [done|]. cbn [unwoundTo tdel]. rewrite decide_False by done. split; [by left|done].
  - apply placed_branch in Hp as Hpl. destruct Hpl as (Hd' & _). destruct (branch_keysBelow d E o Hp Hu) as [Bs Bo].
    rewrite IsEqualTo_spec, bool_decide_false.
    2: { intros He. apply (Hfresh d); [by rewrite blocked_branch|]. rewrite <- He. unfold pathBranch. by destruct (bit k d). }
    apply canonical_branch in Hcan as (_ & _ & Hm).
    apply (collapse_climb d s E o); try done; [apply slot_empty|by intros; apply Hw|by intros [_ ->]|apply tdel_branch|apply cold_branch].
  - pose proof (placed_branch _ _ _ _ Hp) as (Hd' & Ps & _ & _). destruct (branch_keysBelow d sub o Hp Hu) as [Bs Bo].
    pose proof (finds_rep _ _ _ _ _ _ _ _ Hf) as Hrc. apply brep_nonempty in Hrc as Hsub.
    pose proof (canonical_branch _ _ _ _ Hcan) as (Cs & Co & Hm). rewrite pathBranch_child, succ_level.
    destruct IH as (slot & u & -> & Hu' & Hslot); [done|by eapply under_sub|done|lia|..].
    { intros j Hj. apply Hfresh. rewrite blocked_branch. by destruct sub. }
    rewrite bind_ok, pathBranch_set.
    assert (keysBelow d (bit k d) (tdel (S d) k sub)) as Bs' by (intros k2 Hi%tdel_inT; by apply Bs).
    destruct slot as [n'|].
    + destruct Hslot as (Hne & Hr & Hc).
      assert (cold d (branch d k sub o) (pathBranch k d h (Some c) h' c') ≡ₚ slotCold (S d) (tdel (S d) k sub) (Some n') ++ slotCold (S d) o c') as Hcold.
      { rewrite cold_branch. cbn [slotCold]. by rewrite Hc. }
      destruct u as [| |l]; [done| |].
      * apply (collapse_climb d s (tdel (S d) k sub) o); try done; [by intros; apply Hw| |apply tdel_branch].
        intros [He _]. by destruct (tdel (S d) k sub).
      * assert (mkBranch d k (tdel (S d) k sub) o = branch d k (tdel (S d) k sub) o) as Hmk.
        { apply mkBranch_many. destruct Hu' as [->|(l1 & r1 & ->)]; [done|by destruct o]. }
        eexists (Some _), (Ended l). split; [done|]. unfold deleted, unwoundTo. rewrite tdel_branch, Hmk.
        split; [right; apply branch_B|]. split; [done|]. split; [apply brep_branch; by eexists _, (Some _), _, _|].
        by rewrite Hcold, cold_branch.
    + destruct Hslot as [-> Hc]. destruct Hu' as [v ->]. rewrite pathBranch_update. cbn [tdel] in *. rewrite decide_True in * by done.
      apply (collapse_climb d s E o); try done.
      * by destruct c'.
      * apply slot_empty.
      * destruct c'; [done|]. by rewrite (Hw eq_refl eq_refl) in *.
      * by intros; apply Hw.
      * intros [_ ->]. done.
      * rewrite tdel_branch. cbn [tdel]. by rewrite decide_True.
      * rewrite cold_branch. cbn [slotCold]. by rewrite Hc.
Qed.
End key.

(** ** Hashing *)

Definition saveOf (x : list Z * NodeKey) : smtDfsHelperDataStruct := SaveNode (hashOf x) (ConcatArrays8AndCapacity (fst x) (snd x)).

Lemma both_halves a b : key_ok a -> key_ok b ->
  ToUintArray (fst (SetHalfValue (fst (SetHalfValue (replicate 8 None) a 0)) b 1)) = ConcatArrays4 a b.
Proof.
  intros (H0 & H1 & H2 & H3)%key_ok_words (H4 & H5 & H6 & H7)%key_ok_words. destruct a, b. cbn in *.
  unfold ToUintArray, SetHalfValue. change (Z.to_nat (0 * 4)) with 0%nat. change (Z.to_nat (1 * 4)) with 4%nat. cbn. by rewrite !bigUint64_small.
Qed.

(** The hash of the tree is computed, and what is sent to be saved is the nodes of the tree that are not in the store only. *)
Definition hashes (d : nat) (t : tree) (missing : list (list Z * NodeKey)) (r : outcome (NodeKey * list smtDfsHelperDataStruct)) : Prop :=
  exists ws, r = Ok (th d t, ws) /\ (forall x, x ∈ inner d t -> x ∈ missing \/ saveOf x ∈ ws) /\
    (forall h v, SaveNode h v ∈ ws -> exists x, x ∈ inner d t /\ SaveNode h v = saveOf x).

Lemma dfs_ok t : forall d s path n, brep d s t n -> placed d t -> (d <= 256)%nat -> length path = d ->
  hashes d t (cold d t n) (calculateAndSaveHashesDfs Hash false path n).
Proof.
  induction t as [|k v|l IHl r IHr]; intros d s path n Hr Hp Hd Hl; [done|..].
  - rewrite Hr. cbn [calculateAndSaveHashesDfs nonNil]. rewrite bind_ok. eexists. split; [done|]. cbn [SmtRead.inner]. split.
    + intros x ->%list_elem_of_singleton. right. left.
    + intros h w [Hx|[[=]|[]%not_elem_of_nil]%elem_of_cons]%elem_of_cons. exists (leafInput Hash d k v, LeafCapacity). split; [left|done].
  - destruct Hr as (a & b & ln & rn & -> & _ & _ & Hln & Hrn). destruct Hp as (Hd' & _ & _ & Pl & Pr). cbn [calculateAndSaveHashesDfs cold].
    assert (hashes (S d) l (slotCold (S d) l ln)
      (match ln with Some c => path ← extendPath path 0; calculateAndSaveHashesDfs Hash false path c | None => Ok (a, []) end)) as (ws1 & -> & A1 & B1).
    { destruct ln as [c|].
      - unfold extendPath. rewrite (proj2 (Nat.ltb_lt _ _)), bind_ok by lia. apply (IHl (S d) (sideOf false s)); try done. rewrite length_app. simpl. lia.
      - destruct Hln as [-> _]. exists []. split; [done|]. split; [by left|]. by intros ? ? ?%not_elem_of_nil. }
    rewrite bind_ok.
    assert (hashes (S d) r (slotCold (S d) r rn)
      (match rn with Some c => path ← extendPath path 1; calculateAndSaveHashesDfs Hash false path c | None => b ← nonNil (Some b); Ok (b, []) end)) as (ws2 & -> & A2 & B2).
    { destruct rn as [c|].
      - unfold extendPath. rewrite (proj2 (Nat.ltb_lt _ _)), bind_ok by lia. apply (IHr (S d) (sideOf true s)); try done. rewrite length_app. simpl. lia.
      - destruct Hrn as [-> _]. exists []. split; [done|]. split; [by left|]. by intros ? ? ?%not_elem_of_nil. }
    rewrite bind_ok. cbn [fst snd]. rewrite both_halves by (by apply th_ok). eexists. split; [done|]. cbn [SmtRead.inner]. split.
    + intros x Hx. rewrite !elem_of_app. apply elem_of_cons in Hx as [->|[Hx|Hx]%elem_of_app]; [right; right; right; left| |].
      * destruct (A1 x Hx); auto.
      * destruct (A2 x Hx); auto.
    + intros h v [Hs|[Hs|[Hs|[]%not_elem_of_nil]%elem_of_cons]%elem_of_app]%elem_of_app.
      * destruct (B1 h v Hs) as (x & Hx & Ex). exists x. split; [right; apply elem_of_app; by left|done].
      * destruct (B2 h v Hs) as (x & Hx & Ex). exists x. split; [right; apply elem_of_app; by right|done].
      * eexists. split; [left|done].
Qed.
End theory.

(** ** Saving *)

(** What the batch relies on in the store. *)
Class BatchDbLaws (D : Type) `{SmtDb D} `{BatchDb D} `{!SmtDbLaws D} := {
  law_DeleteByNodeKey d k : key_ok k -> exists d', db_DeleteByNodeKey k d = Ok d' /\
    (forall k', key_ok k' -> k' <> k -> db_Get d' k' = db_Get d k') /\ (db_ok d -> db_ok d');
  law_DeleteHashKey d k : exists d', db_DeleteHashKey k d = Ok d' /\ same_nodes d d';
}.

#[export] Instance MemDb_batch_laws : BatchDbLaws MemDb.
Proof.
  split; [|by intros d k; eexists].
  intros d k Hk. eexists. split; [done|]. split; [|done]. intros k' Hk' Hne. cbn. unfold Mem_Get. cbn.
  rewrite lookup_delete_ne; [done|]. intros He. by apply hexKey_inj in He.
Qed.

Section save.
Context {D : Type} `{SmtDb D} `{BatchDb D} `{!SmtDbLaws D} `{!BatchDbLaws D}.
Context (Hash : list Z -> NodeKey -> NodeKey) (Hash_range : forall i c, key_ok (Hash i c)).
(** The nodes that matter: those of the resulting tree. *)
Context (N : list Z * NodeKey -> Prop).
Context (N_inj : forall x y, N x -> N y -> Hash (fst x) (snd x) = Hash (fst y) (snd y) -> x = y).
Context (N_ok : forall x, N x -> value_ok (fst x) /\ key_ok (snd x)).

Lemma consumer_ok ws : forall db, (forall h v, SaveNode h v ∈ ws -> exists x, N x /\ SaveNode h v = saveOf Hash x) ->
  exists db', startConsumersLoop ws db = Ok db' /\ keeps_nodes Hash N db db' /\ forall x, saveOf Hash x ∈ ws -> N x -> has Hash db' x.
Proof.
  induction ws as [|w ws IH]; intros db Hws.
  { exists db. split; [done|]. split; [by split|]. by intros x ?%not_elem_of_nil. }
  assert (forall h v, SaveNode h v ∈ ws -> exists x, N x /\ SaveNode h v = saveOf Hash x) as Hws' by (intros; apply Hws; by right).
  destruct w as [h v|h k]; cbn [startConsumersLoop].
  - destruct (Hws h v) as ([i c] & Hx & [= -> ->]); [left|]. destruct (N_ok _ Hx) as [Hi Hc].
    destruct (hashSave_ok Hash Hash_range N N_inj i c db Hi Hc Hx) as (db1 & Hins & Hhas & Hkeep). unfold hashSave in Hins. unfold hashOf. cbn [fst snd].
    rewrite Hins, bind_ok. destruct (IH db1 Hws') as (db' & He & Hkeep' & Hsaved). exists db'. split; [done|].
    split; [split; [intros x Nx Hx'; by apply Hkeep', Hkeep|intros Hd; by apply Hkeep', Hkeep]|]. intros x [Heq|Hin]%elem_of_cons Nx; [|by apply Hsaved].
    injection Heq as Hh _. rewrite (N_inj x (i, c)) by done. by apply Hkeep'.
  - destruct (law_InsertHashKey db h k) as (db1 & -> & [Hs Hd]). rewrite bind_ok.
    destruct (IH db1 Hws') as (db' & He & Hkeep' & Hsaved). exists db'. split; [done|].
    split; [split; [intros x Nx Hx; apply Hkeep'; [done|]; unfold has in *; by rewrite Hs|intros Hd1; by apply Hkeep', Hd]|]. intros x [[=]|Hin]%elem_of_cons Nx. by apply Hsaved.
Qed.

Lemma deleteNodes_gone hs : forall db, Forall key_ok hs -> exists db', deleteNodes hs db = Ok db' /\
  (forall k, key_ok k -> k ∉ hs -> db_Get db' k = db_Get db k) /\ (db_ok db -> db_ok db').
Proof.
  induction hs as [|h hs IH]; intros db Hok; [by exists db|]. apply Forall_cons in Hok as [Hh Hok]. cbn [deleteNodes].
  destruct (law_DeleteByNodeKey db h Hh) as (db1 & -> & H1 & D1). cbn [dropError]. rewrite bind_ok.
  destruct (law_DeleteHashKey db1 h) as (db2 & -> & [H2 D2]). cbn [dropError]. rewrite bind_ok.
  destruct (IH db2 Hok) as (db' & -> & H3 & D3). exists db'. split; [done|]. split; [|auto]. intros k Hk [Hne Hni]%not_elem_of_cons. rewrite H3, H2, H1; done.
Qed.

(** An entry of the batch with its hash. *)
Definition entryOf (kv : NodeKey * list Z) : entry := mkEntry (fst kv) (map Some (snd kv)) (Some (valHash Hash (snd kv))).

Lemma saveValues_ok ops : forall db, Forall op_ok ops -> (forall kv, kv ∈ ops -> is_zero (snd kv) = false -> N (snd kv, BranchCapacity)) ->
  exists db', saveValues false (map entryOf ops) db = Ok db' /\ keeps_nodes Hash N db db' /\
    forall kv, kv ∈ ops -> is_zero (snd kv) = false -> has Hash db' (snd kv, BranchCapacity).
Proof.
  induction ops as [|[k v] ops IH]; intros db Hops HN.
  { exists db. split; [done|]. split; [by split|]. by intros kv ?%not_elem_of_nil. }
  apply Forall_cons in Hops as [[Hk Hv] Hops]. cbn [map saveValues entryOf nodeValue nodeValueHash fst snd nonNil] in *.
  rewrite Value8_IsZero_some, ToUintArray_some by (apply Hv || done).
  assert (forall kv, kv ∈ ops -> is_zero (snd kv) = false -> N (snd kv, BranchCapacity)) as HN' by (intros; apply HN; [by right|done]).
  destruct (is_zero v) eqn:Hz; cbn [negb]; rewrite ?bind_ok.
  - destruct (IH db Hops HN') as (db' & -> & Hkeep & Hh). exists db'. split; [done|]. split; [done|].
    intros kv [->|Hin]%elem_of_cons Hz'; [exfalso; cbn [snd] in Hz'; by rewrite Hz in Hz'|by apply Hh].
  - destruct (hashSave_ok Hash Hash_range N N_inj v BranchCapacity db) as (db1 & Hins & Hhas & Hkeep); [done|apply zeroKey_ok|by apply (HN (k, v)); [left|]|].
    unfold valHash. rewrite Hins, bind_ok. destruct (IH db1 Hops HN') as (db' & -> & Hkeep' & Hh). exists db'. split; [done|].
    split; [split; [intros x Nx Hx; by apply Hkeep', Hkeep|intros Hd; by apply Hkeep', Hkeep]|]. intros kv [->|Hin]%elem_of_cons Hz'; [|by apply Hh].
    apply Hkeep'; [by apply (HN (k, v)); [left|]|done].
Qed.
End save.
