(* ===== verification/SmtBatchRuns.v ===== *)
(** * Batch insertion refines the update of a map

    The preparation of a batch keeps the last value of each key; the loop changes the
    tree in memory entry by entry; the end removes the nodes that were loaded from the
    store and saves the new ones.  From a store that holds a tree, the result is a store
    that holds the tree of the updated map, with the root that inserting the entries one
    by one gives.  Two conditions tell where the source goes wrong: a zero written to an
    absent key can delete a branch, and a tree that becomes empty within a batch comes
    back. *)
From S2P Require Import Prelude Bytes SmtUtils SmtTree SmtDb Smt SmtRefine SmtCreate RetainList SmtRead SmtBatch SmtBatchTheory.

(** ** The last value of each key *)

Fixpoint latest (ops : list (NodeKey * list Z)) : list (NodeKey * list Z) :=
  match ops with
  | [] => []
  | kv :: ops => if decide (fst kv ∈ map fst ops) then latest ops else kv :: latest ops
  end.

Lemma mput_lookup m kv k : mput m kv !! k = if decide (k = fst kv) then (if is_zero (snd kv) then None else Some (snd kv)) else m !! k.
Proof.
  unfold mput. destruct (is_zero (snd kv)).
  - rewrite lookup_delete. repeat case_decide; congruence.
  - rewrite lookup_insert. repeat case_decide; congruence.
Qed.

Lemma mput_again ops : forall m kv, fst kv ∈ map fst ops -> foldl mput (mput m kv) ops = foldl mput m ops.
Proof.
  induction ops as [|kv2 ops IH]; intros m kv Hin; [by apply not_elem_of_nil in Hin|]. cbn [map foldl] in *.
  destruct (decide (fst kv = fst kv2)) as [He|Hne].
  - f_equal. apply map_eq. intros k. rewrite !mput_lookup. repeat case_decide; congruence.
  - apply elem_of_cons in Hin as [Hin|Hin]; [done|]. rewrite <- (IH (mput m kv2) kv Hin). f_equal.
    apply map_eq. intros k. rewrite !mput_lookup. repeat case_decide; congruence.
Qed.

Lemma latest_mput ops : forall m, foldl mput m (latest ops) = foldl mput m ops.
Proof.
  induction ops as [|kv ops IH]; intros m; [done|]. cbn [latest foldl]. case_decide as Hd; [by rewrite IH, mput_again|]. cbn [foldl]. by rewrite IH.
Qed.

Lemma latest_in ops kv : kv ∈ latest ops -> kv ∈ ops.
Proof.
  induction ops as [|kv2 ops IH]; [done|]. cbn [latest]. case_decide; [intros; right; auto|]. intros [->|?]%elem_of_cons; [left|right; auto].
Qed.

Lemma latest_keys ops k : k ∈ map fst (latest ops) <-> k ∈ map fst ops.
Proof.
  induction ops as [|kv ops IH]; [done|]. cbn [latest map]. rewrite elem_of_cons. case_decide as Hd; cbn [map]; rewrite ?elem_of_cons, IH; [|done].
  split; [tauto|]. by intros [->|?].
Qed.

Lemma latest_nodup ops : NoDup (map fst (latest ops)).
Proof.
  induction ops as [|kv ops IH]; [by apply NoDup_nil|]. cbn [latest]. case_decide as Hd; [done|]. cbn [map]. apply NoDup_cons. by rewrite latest_keys.
Qed.

(** What a batch with different keys leaves behind. *)
Lemma mputs_lookup ops : forall m k, NoDup (map fst ops) -> foldl mput m ops !! k =
  match list_find (fun kv => fst kv = k) ops with
  | Some (_, kv) => if is_zero (snd kv) then None else Some (snd kv)
  | None => m !! k
  end.
Proof.
  induction ops as [|kv ops IH]; intros m k Hnd; [done|]. cbn [map foldl list_find] in *. apply NoDup_cons in Hnd as [Hni Hnd].
  rewrite IH by done. rewrite mput_lookup. destruct (decide (fst kv = k)) as [<-|Hne].
  - rewrite decide_True by done. destruct (list_find _ ops) as [[i kv2]|] eqn:Hf; [|done].
    apply list_find_Some in Hf as (Hl & He & _). destruct Hni. apply list_elem_of_fmap. exists kv2. split; [done|]. by eapply list_elem_of_lookup_2.
  - rewrite decide_False by congruence. by destruct (list_find _ ops) as [[i kv2]|].
Qed.

(** ** Maps by node keys *)

Lemma NodeKey_eq a b : a = b <-> w0 a = w0 b /\ w1 a = w1 b /\ w2 a = w2 b /\ w3 a = w3 b.
Proof. destruct a, b. cbn. split; [by intros [= -> -> -> ->]|]. by intros (-> & -> & -> & ->). Qed.

Lemma get_empty {T} k : getNodeKeyMapValue (∅ : nodeKeyMap T) k = None.
Proof. done. Qed.

Lemma get_set {T} (m : nodeKeyMap T) k v k' : getNodeKeyMapValue (setNodeKeyMapValue m k v) k' = if decide (k = k') then Some v else getNodeKeyMapValue m k'.
Proof.
  unfold getNodeKeyMapValue, setNodeKeyMapValue. cbv zeta. case_decide as Hk.
  - subst k'. by do 4 (rewrite lookup_insert_eq; cbn).
  - rewrite NodeKey_eq in Hk.
    destruct (decide (w0 k = w0 k')) as [E0|]; [|by rewrite lookup_insert_ne]. rewrite E0, lookup_insert_eq. cbn.
    destruct (decide (w1 k = w1 k')) as [E1|]; [|rewrite lookup_insert_ne by done; by destruct (m !! w0 k')]. rewrite E1, lookup_insert_eq. cbn.
    destruct (decide (w2 k = w2 k')) as [E2|]; [|rewrite lookup_insert_ne by done; destruct (m !! w0 k'); cbn; [|done]; by destruct (g !! w1 k')].
    rewrite E2, lookup_insert_eq. cbn. rewrite lookup_insert_ne by tauto.
    destruct (m !! w0 k'); cbn; [|done]. destruct (g !! w1 k'); cbn; [|done]. by destruct (g0 !! w2 k').
Qed.

Lemma set_again {T} (m : nodeKeyMap T) k v v' : setNodeKeyMapValue (setNodeKeyMapValue m k v) k v' = setNodeKeyMapValue m k v'.
Proof. unfold setNodeKeyMapValue. cbv zeta. rewrite lookup_insert_eq. cbn. rewrite lookup_insert_eq. cbn. rewrite lookup_insert_eq. cbn. by rewrite !insert_insert_eq. Qed.

Lemma dom_set {T} (m : nodeKeyMap T) k v : dom (setNodeKeyMapValue m k v) = {[w0 k]} ∪ dom m.
Proof. apply dom_insert_L. Qed.

Lemma hashesForDelete_elem (order : forall V, gmap Z V -> list (Z * V)) (m : nodeKeyMap NodeKey) h :
  (forall V (m : gmap Z V), order V m ≡ₚ map_to_list m) -> h ∈ hashesForDelete order m <-> exists k, getNodeKeyMapValue m k = Some h.
Proof.
  intros Ho. assert (forall V (x : gmap Z V) y, y ∈ map snd (order V x) <-> exists i, x !! i = Some y) as Hel.
  { intros V x y. rewrite (list_elem_of_fmap snd). setoid_rewrite Ho. split.
    - intros ([i z] & -> & Hin%elem_of_map_to_list). by exists i.
    - intros [i Hi]. exists (i, y). by rewrite elem_of_map_to_list. }
  unfold hashesForDelete, getNodeKeyMapValue. rewrite list_elem_of_bind. setoid_rewrite list_elem_of_bind. setoid_rewrite list_elem_of_bind. setoid_rewrite Hel. split.
  - intros (m0 & (m1 & (m2 & [d Hd] & c & Hc) & b & Hb) & a & Ha). exists (mkKey a b c d). cbn. rewrite Ha. cbn. rewrite Hb. cbn. by rewrite Hc.
  - intros [[a b c d] Hg]. cbn in Hg. destruct (m !! a) as [m0|] eqn:Ha; [|done]. cbn in Hg. destruct (m0 !! b) as [m1|] eqn:Hb; [|done]. cbn in Hg.
    destruct (m1 !! c) as [m2|] eqn:Hc; [|done]. cbn in Hg.
    exists m0. split; [exists m1; split; [exists m2; split; [by exists d|by exists c]|by exists b]|by exists a].
Qed.

(** ** Preparing the batch *)

Lemma latestIndices_snoc ks k : latestIndices (ks ++ [k]) = setNodeKeyMapValue (latestIndices ks) k (length ks).
Proof. unfold latestIndices. rewrite imap_app, foldl_app. cbn. by rewrite Nat.add_0_r. Qed.

(** The index of a key is that of its last occurrence. *)
Lemma latestIndices_last pre k suf : exists j, getNodeKeyMapValue (latestIndices (pre ++ k :: suf)) k = Some j /\ (j =? length pre)%nat = negb (bool_decide (k ∈ suf)).
Proof.
  induction suf as [|k2 suf IH] using rev_ind.
  - exists (length pre). rewrite latestIndices_snoc, get_set, decide_True by done. split; [done|]. rewrite Nat.eqb_refl, bool_decide_false; [done|]. apply not_elem_of_nil.
  - replace (pre ++ k :: suf ++ [k2]) with ((pre ++ k :: suf) ++ [k2]) by (by rewrite <- app_assoc). rewrite latestIndices_snoc.
    destruct (decide (k2 = k)) as [->|Hne].
    + rewrite get_set, decide_True by done. eexists. split; [done|]. rewrite bool_decide_true by (apply elem_of_app; right; left). apply Nat.eqb_neq. rewrite length_app. simpl. lia.
    + rewrite get_set, decide_False by done. destruct IH as (j & -> & Hj). exists j. rewrite Hj. split; [done|]. f_equal. apply bool_decide_ext.
      rewrite elem_of_app, list_elem_of_singleton. split; [by left|]. by intros [?| ->].
Qed.

Section prepare.
Context (Hash : list Z -> NodeKey -> NodeKey).

Definition hash_given (kv : NodeKey * list Z) (h : option NodeKey) : Prop := h = None \/ h = Some (valHash Hash (snd kv)).

Definition entryWith (kv : NodeKey * list Z) (h : option NodeKey) : entry := mkEntry (fst kv) (map Some (snd kv)) h.

Definition values (ops : list (NodeKey * list Z)) : list NodeValue8 := map (fun kv => map Some (snd kv)) ops.

Lemma keepLatest_ok suf : forall pre hpre hsuf, length hpre = length pre -> Forall2 hash_given suf hsuf ->
  exists es, keepLatest (latestIndices (map fst (pre ++ suf))) (length pre) (map fst suf) (values (pre ++ suf)) (hpre ++ hsuf) = Ok es /\
    Forall2 (fun kv e => exists h, hash_given kv h /\ e = entryWith kv h) (latest suf) es.
Proof.
  induction suf as [|kv suf IH]; intros pre hpre hsuf Hl Hg; [by exists []|]. apply Forall2_cons_inv_l in Hg as (h & hsuf' & Hh & Hg & ->).
  cbn [map keepLatest latest]. rewrite map_app. cbn [map]. destruct (latestIndices_last (map fst pre) (fst kv) (map fst suf)) as (j & -> & Hj).
  rewrite length_map in Hj. rewrite Hj. specialize (IH (pre ++ [kv]) (hpre ++ [h]) hsuf'). rewrite !length_app in IH. cbn [length] in IH.
  rewrite !Nat.add_1_r, <- !app_assoc in IH. cbn [app] in IH. destruct IH as (es & He & Hf); [lia|done|]. rewrite map_app in He. cbn [map] in He.
  unfold values in *. rewrite map_app in He |- *. cbn [map] in He |- *.
  case_decide as Hd; [rewrite bool_decide_true by done|rewrite bool_decide_false by done]; cbn [negb].
  - rewrite bind_ok, He, bind_ok. by exists es.
  - rewrite (index_at _ (map (fun kv => map Some (snd kv)) pre) (map (fun kv => map Some (snd kv)) suf) (map Some (snd kv))) by (by rewrite ?length_map).
    rewrite bind_ok, (index_at _ hpre hsuf' h), !bind_ok by (by rewrite ?Hl).
    rewrite He, bind_ok. eexists. split; [done|]. constructor; [by exists h|done].
Qed.

Definition fillEntry (e : entry) : entry :=
  mkEntry (nodeKey e) (nodeValue e) (Some (default (Hash (ToUintArray (nodeValue e)) BranchCapacity) (nodeValueHash e))).

Lemma interval_ok mid : forall pre post,
  calculateNodeValueHashesIfMissingInInterval Hash (length mid) (Z.of_nat (length pre)) (pre ++ mid ++ post) = Ok (pre ++ map fillEntry mid ++ post).
Proof.
  induction mid as [|e mid IH]; intros pre post; [done|]. cbn [length calculateNodeValueHashesIfMissingInInterval map app].
  rewrite (index_at _ pre (mid ++ post) e), bind_ok by done.
  specialize (IH (pre ++ [fillEntry e]) post). rewrite length_app, <- !app_assoc in IH. cbn [length app] in IH. rewrite <- IH.
  replace (Z.of_nat (length pre) + 1) with (Z.of_nat (length pre + 1)) by lia. unfold fillEntry. destruct e as [k v [h|]]; cbn [nodeValueHash nodeKey nodeValue default]; [by rewrite bind_ok|].
  unfold store. rewrite Nat2Z.id, decide_True by (rewrite length_app; simpl; lia). rewrite bind_ok. do 2 f_equal.
  rewrite <- (Nat.add_0_r (length pre)) at 1. by rewrite insert_app_r.
Qed.

Lemma calculate_ok cpuNum es : 1 <= cpuNum -> calculateNodeValueHashesIfMissing Hash cpuNum es = Ok (map fillEntry es).
Proof.
  intros Hcpu. unfold calculateNodeValueHashesIfMissing. destruct (_ <? _) eqn:Hsz.
  2: { pose proof (interval_ok es [] []) as Hi. cbn [length app] in Hi. by rewrite !app_nil_r in Hi. }
  set (size := Z.of_nat (length es)). set (items := (size + cpuNum - 1) / cpuNum).
  assert (0 <= items) as Hi0 by (apply Z.div_pos; lia).
  assert (size <= cpuNum * items) as Hall.
  { pose proof (Z.mul_succ_div_gt (size + cpuNum - 1) cpuNum ltac:(lia)). fold items in H. lia. }
  assert (forall c, let m := Z.to_nat (Z.min (Z.of_nat c * items) size) in
    foldl (fun acc cpuIndex => es ← acc; calculateNodeValueHashesIfMissingInInterval Hash (Z.to_nat (Z.min (Z.of_nat cpuIndex * items + items) size - Z.of_nat cpuIndex * items))
      (Z.of_nat cpuIndex * items) es) (Ok es) (seq 0 c) = Ok (map fillEntry (take m es) ++ drop m es)) as Hfold.
  { induction c as [|c IH]; cbv zeta in *.
    { replace (Z.min (Z.of_nat 0 * items) size) with 0 by lia. done. }
    rewrite seq_S, foldl_app, IH. cbn [foldl]. rewrite bind_ok, Nat.add_0_l. clear IH.
    set (s := Z.of_nat c * items). replace (Z.of_nat (S c) * items) with (s + items) by lia.
    destruct (decide (size <= s)) as [Hge|Hlt].
    { rewrite (Z.min_r s size), (Z.min_r (s + items) size) by lia. by replace (Z.to_nat (size - s)) with 0%nat by lia. }
    rewrite (Z.min_l s size) by lia. set (m := Z.to_nat s). set (e := Z.to_nat (Z.min (s + items) size)).
    assert (take e es = take m es ++ take (e - m) (drop m es)) as Hte.
    { rewrite <- (take_drop m es) at 1. rewrite take_app, take_take, length_take. f_equal; [f_equal; lia|]. f_equal. lia. }
    assert (length (take (e - m) (drop m es)) = Z.to_nat (Z.min (s + items) size - s)) as Hlm by (rewrite length_take, length_drop; lia).
    assert (length (map fillEntry (take m es)) = m) as Hlp by (rewrite length_map, length_take; lia).
    pose proof (interval_ok (take (e - m) (drop m es)) (map fillEntry (take m es)) (drop e es)) as Hi. rewrite Hlm, Hlp in Hi.
    replace (Z.of_nat m) with s in Hi by lia. rewrite Hte, map_app, <- app_assoc, <- Hi. do 2 f_equal.
    rewrite <- (take_drop (e - m) (drop m es)) at 1. rewrite drop_drop. do 2 f_equal. lia. }
  specialize (Hfold (Z.to_nat cpuNum)). cbv zeta in Hfold. rewrite Z2Nat.id in Hfold by lia. rewrite Hfold.
  rewrite Z.min_r by lia. unfold size. rewrite Nat2Z.id, firstn_all, drop_all. by rewrite app_nil_r.
Qed.

(** The hashes that are given, if there are any, are right. *)
Definition hashes_given (ops : list (NodeKey * list Z)) (hs : option (list (option NodeKey))) : Prop :=
  match hs with None => True | Some l => Forall2 hash_given ops l end.

Lemma validate_ok ops hs : hashes_given ops hs -> exists l, validateDataLengths (map fst ops) (values ops) hs = Ok l /\ Forall2 hash_given ops l.
Proof.
  intros Hg. assert (Forall2 hash_given ops (default (replicate (length ops) None) hs)) as Hl.
  { destruct hs as [l|]; [done|]. cbn. induction ops as [|kv ops IH]; constructor; [by left|auto]. }
  eexists. split; [|exact Hl]. unfold validateDataLengths, values. rewrite !length_map, Nat.eqb_refl. cbn [negb].
  by rewrite <- (Forall2_length _ _ _ Hl), Nat.eqb_refl.
Qed.

Lemma prepare_ok cpuNum ops hs : 1 <= cpuNum -> Forall op_ok ops -> hashes_given ops hs ->
  (hashes ← validateDataLengths (map fst ops) (values ops) hs;
   es ← removeDuplicateEntriesByKeys (map fst ops) (values ops) hashes;
   calculateNodeValueHashesIfMissing Hash cpuNum es) = Ok (map (entryOf Hash) (latest ops)).
Proof.
  intros Hcpu Hops Hg. destruct (validate_ok ops hs Hg) as (l & -> & Hl). rewrite bind_ok. unfold removeDuplicateEntriesByKeys.
  destruct (keepLatest_ok ops [] [] l eq_refl Hl) as (es & He & Hf). cbn [app length] in He. rewrite He, bind_ok, calculate_ok by done. f_equal.
  assert (Forall op_ok (latest ops)) as Hlat.
  { rewrite Forall_forall in Hops |- *. intros kv Hkv. by apply Hops, latest_in. }
  clear He. induction Hf as [|kv e ks es (h & Hh & ->) _ IH]; [done|]. apply Forall_cons in Hlat as [[Hk Hv] Hlat]. cbn [map]. rewrite IH by done. f_equal.
  unfold fillEntry, entryOf, entryWith. cbn [nodeKey nodeValue nodeValueHash]. destruct Hh as [-> | ->]; [|done]. cbn [default]. by rewrite ToUintArray_some by apply Hv.
Qed.
End prepare.

(** ** The hashes to delete *)

Lemma forDelete_lookup ws : forall (del : nodeKeyMap NodeKey) h h', (forall h h', getNodeKeyMapValue del h = Some h' -> h' = h) ->
  getNodeKeyMapValue (updateNodeHashesForDelete del ws) h = Some h' <-> h' = h /\ (h ∈ ws \/ is_Some (getNodeKeyMapValue del h)).
Proof.
  induction ws as [|w ws IH]; intros del h h' Hdel; cbn [updateNodeHashesForDelete foldl].
  - split; [intros Hl; split; [by apply Hdel|right; eauto]|]. intros [-> [?%not_elem_of_nil|[h2 Hl]]]; [done|]. by rewrite Hl, (Hdel _ _ Hl).
  - fold (updateNodeHashesForDelete (setNodeKeyMapValue del w w) ws). rewrite IH.
    + rewrite elem_of_cons, get_set. case_decide as Hw; [subst w|]; split; intros [-> Hd]; (split; [done|]); naive_solver.
    + intros h1 h2. rewrite get_set. case_decide; [|apply Hdel]. by intros [= <-].
Qed.

Lemma forDelete_in (order : forall V, gmap Z V -> list (Z * V)) ws h : (forall V (m : gmap Z V), order V m ≡ₚ map_to_list m) ->
  h ∈ hashesForDelete order (updateNodeHashesForDelete ∅ ws) <-> h ∈ ws.
Proof.
  intros Ho. rewrite hashesForDelete_elem by done. setoid_rewrite forDelete_lookup; [|done]. split.
  - by intros (k & -> & [?|[? Hl]]).
  - intros Hin. exists h. auto.
Qed.

(** The number of messages about deletions is that of the first words. *)
Lemma forDelete_size ws : size (updateNodeHashesForDelete ∅ ws) = size (set_map w0 (list_to_set ws : gset NodeKey) : gset Z).
Proof.
  rewrite <- size_dom. f_equal. cut (forall del : nodeKeyMap NodeKey, dom (updateNodeHashesForDelete del ws) = (set_map w0 (list_to_set ws : gset NodeKey) : gset Z) ∪ dom del).
  { intros Hd. by rewrite Hd, dom_empty_L, union_empty_r_L. }
  induction ws as [|w ws IH]; intros del; cbn [updateNodeHashesForDelete foldl list_to_set].
  - by rewrite set_map_empty, union_empty_l_L.
  - fold (updateNodeHashesForDelete (setNodeKeyMapValue del w w) ws). rewrite IH, dom_set, set_map_union_L, set_map_singleton_L. set_solver.
Qed.

(** ** The loop over the batch *)

Section run.
Context {D : Type} `{SmtDb D} `{BatchDb D} `{!SmtDbLaws D} `{!BatchDbLaws D}.
Context (Hash : list Z -> NodeKey -> NodeKey) (Hash_range : forall i c, key_ok (Hash i c)).
(** The tree before the batch. *)
Context (t0 : tree).

(** The hashes that a branch may hold: that of nothing, and those of old nodes. *)
Definition oldHash (h : NodeKey) : Prop := h ∈ zeroKey :: map (hashOf Hash) (inner Hash 0 t0).

(** Along the batch: no zero is written to an absent key whose remaining bits look like
    the hash in the branch where its path ends, and the tree does not become empty before
    the end of the batch, unless it was empty at the start. *)
Fixpoint good_batch (t : tree) (ops : list (NodeKey * list Z)) : Prop :=
  match ops with
  | [] => True
  | kv :: ops =>
      (is_zero (snd kv) = true -> forall j, blocked (fst kv) 0 t = Some j -> ~ oldHash (RemoveKeyBits (fst kv) (Z.of_nat j))) /\
      (tput t kv = E -> ops = [] \/ t0 = E) /\ good_batch (tput t kv) ops
  end.

Context (db0 : D).

Abbreviation brep := (brep Hash db0 oldHash).
Abbreviation slotRep := (slotRep Hash db0 oldHash).

(** The tree in memory after a step: nothing is left in the store only if there is none. *)
Definition treeRep (t : tree) (slot : option smtBatchNode) : Prop := match slot with Some n => brep 0 t0 t n | None => t = E end.
Definition treeCold (t : tree) (slot : option smtBatchNode) : list (list Z * NodeKey) := match slot with Some n => cold Hash 0 t n | None => [] end.

Lemma oldHash_zero : oldHash zeroKey.
Proof. left. Qed.

(** What stays in the store only is none of the old nodes that an entry touches. *)
Definition untouched (kv : NodeKey * list Z) (xs : list (list Z * NodeKey)) : Prop :=
  partOf Hash (touched Hash (fst kv) (is_zero (snd kv)) 0 t0 ++ map (hashOf Hash) xs) 0 t0.

Lemma untouched_perm kv xs ys : xs ≡ₚ ys -> untouched kv xs -> untouched kv ys.
Proof. intros Hp. apply part_perm, Permutation_app_head. by apply Permutation_map. Qed.

Lemma untouched_loads kv ws xs ys : loads Hash ws xs ys -> untouched kv xs -> untouched kv ys.
Proof.
  intros Hl Hu. unfold untouched in *. apply (part_tail Hash (filter (.≠ zeroKey) ws)). eapply part_perm; [|exact Hu].
  unfold loads in Hl. rewrite Hl. apply Permutation_app_swap_app.
Qed.

Lemma insertEntry_ok kv t slot del mx : op_ok kv -> tree_ok t -> slotRep 0 t0 t (th Hash 0 t0) slot -> (t = E -> t0 = E) ->
  (is_zero (snd kv) = true -> forall j, blocked (fst kv) 0 t = Some j -> ~ oldHash (RemoveKeyBits (fst kv) (Z.of_nat j))) ->
  exists slot' ws mx', insertEntry db0 (th Hash 0 t0) (entryOf Hash kv) (mkBatch slot del mx) = Ok (mkBatch slot' (updateNodeHashesForDelete del ws) mx') /\
    treeRep (tput t kv) slot' /\ loads Hash ws (slotCold Hash 0 t slot) (treeCold (tput t kv) slot') /\
    visits Hash (fst kv) (is_zero (snd kv)) 0 t0 t ws /\ untouched kv (treeCold (tput t kv) slot').
Proof.
  intros [Hk Hv] [Hp Hc] Hs Hempty Hfresh. destruct kv as [k v]. cbn [fst snd] in *. unfold insertEntry, tput.
  cbn [entryOf nodeKey nodeValue nodeValueHash smtBatchNodeRoot nodeHashesForDelete maxInsertingNodePathLevel fst snd nonNil]. cbv zeta.
  rewrite Value8_IsZero_some, bind_ok by done. assert (t = E \/ t <> E) as [->|Ht] by (destruct t; auto).
  - destruct slot as [n|]; [done|]. destruct Hs as [-> _]. cbn [SmtRefine.th]. cbn. eexists _, [], _. split; [done|].
    destruct (is_zero v) eqn:Hz; (split; [by destruct k|split; [apply loads_nil|split]]); unfold untouched; rewrite ?Hempty by done;
      cbn [fst snd touched app map treeCold cold]; try (by exists []); split; by intros ? || (split; [by intros ?%not_elem_of_nil|done]).
  - destruct (find_ok Hash Hash_range db0 oldHash oldHash_zero k (is_zero v) t 0 t0 257 (-1) (th Hash 0 t0) slot)
      as (n & lvl & p & ws & -> & Hf & Hl & Hvis); [done|done|lia|lia|done|done|].
    assert (untouched (k, v) (cold Hash 0 t n)) as Hun by (by apply finds_part in Hf).
    rewrite bind_ok. pose proof (under_0 k t) as Hu. destruct (is_zero v) eqn:Hz; cbn [negb].
    + destruct (deleteValue_ok Hash db0 oldHash oldHash_zero k Hk 0 t0 t n lvl p) as (slot' & u & He & Hunw & Hslot); [done..|lia|by apply Hfresh|].
      change (Z.of_nat 0) with 0 in He. rewrite He, !bind_ok. eexists _, ws, _. split; [done|]. cbn [fst].
      destruct slot' as [n'|]; cbn [treeRep treeCold].
      * destruct Hslot as (_ & Hr & Hcold). split; [done|]. split; [eapply loads_perm; [reflexivity|symmetry; exact Hcold|done]|].
        split; [done|]. eapply untouched_perm; [symmetry; exact Hcold|done].
      * destruct Hslot as [-> Hcold]. rewrite Hcold in Hl, Hun. split; [|done]. destruct Hunw as [v' ->]. cbn [tdel]. by rewrite decide_True.
    + destruct (setValue_ok Hash db0 oldHash oldHash_zero k Hk v false 0 t0 t n lvl p) as (n' & lvl' & -> & Hr & Hcold); [done..|lia|].
      rewrite bind_ok. eexists _, ws, _. split; [done|]. cbn [fst treeRep treeCold]. split; [done|].
      split; [eapply loads_perm; [reflexivity|symmetry; exact Hcold|done]|]. split; [done|]. eapply untouched_perm; [symmetry; exact Hcold|done].
Qed.

Lemma treeRep_slot t slot : treeRep t slot -> (t = E -> t0 = E) -> slotRep 0 t0 t (th Hash 0 t0) slot /\ slotCold Hash 0 t slot = treeCold t slot.
Proof. intros Hr He. destruct slot as [n|]; [done|]. cbn in Hr. subst t. rewrite (He eq_refl). split; [apply slot_empty|done]. Qed.

(** ** The hashes that a batch deletes *)

(** Those of the old nodes on the paths of the keys, and of the nodes beside the path of a
    key that is deleted. *)
Definition touchedHashes (ops : list (NodeKey * list Z)) : list NodeKey :=
  kv ← ops; touched Hash (fst kv) (is_zero (snd kv)) 0 t0.

(** Whether a deletion meets a branch that has one child only. *)
Fixpoint meetsGap (t : tree) (ops : list (NodeKey * list Z)) : bool :=
  match ops with
  | [] => false
  | kv :: ops => (is_zero (snd kv) && gap (fst kv) 0 t) || meetsGap (tput t kv) ops
  end.

(** A deletion loads both children of the branches on its way, also where there is none. *)
Definition deletions (ops : list (NodeKey * list Z)) : gset NodeKey :=
  list_to_set (touchedHashes ops) ∪ (if meetsGap t0 ops then {[zeroKey]} else ∅).

Lemma insertEntries_ok ops : forall t slot del mx, ops <> [] -> Forall op_ok ops -> tree_ok t -> slotRep 0 t0 t (th Hash 0 t0) slot -> (t = E -> t0 = E) ->
  good_batch t ops ->
  exists slot' ws mx', insertEntries db0 (th Hash 0 t0) (map (entryOf Hash) ops) (mkBatch slot del mx) = Ok (mkBatch slot' (updateNodeHashesForDelete del ws) mx') /\
    treeRep (foldl tput t ops) slot' /\ loads Hash ws (slotCold Hash 0 t slot) (treeCold (foldl tput t ops) slot') /\
    (forall h, h ∈ ws -> h <> zeroKey -> h ∈ touchedHashes ops) /\ (zeroKey ∈ ws <-> meetsGap t ops = true) /\
    Forall (fun kv => untouched kv (treeCold (foldl tput t ops) slot')) ops.
Proof.
  induction ops as [|kv ops IH]; intros t slot del mx Hne Hops Ht Hs HtE Hg; [done|]. apply Forall_cons in Hops as [Hkv Hops].
  destruct Hg as (Hfresh & Hempty & Hg). cbn [map insertEntries foldl meetsGap].
  destruct (insertEntry_ok kv t slot del mx Hkv Ht Hs HtE Hfresh) as (slot1 & ws1 & mx1 & -> & Hr1 & Hl1 & [Hv1 Hz1] & Hu1). rewrite bind_ok.
  assert (forall h, h ∈ ws1 -> h <> zeroKey -> h ∈ touchedHashes (kv :: ops)) as Hv1'.
  { intros h Hh Hnz. unfold touchedHashes. cbn [mbind list_bind]. apply elem_of_app. left. by apply Hv1. }
  destruct (decide (ops = [])) as [->|Hops'].
  { exists slot1, ws1, mx1. split; [done|]. split; [done|]. split; [done|]. split; [done|]. cbn [meetsGap foldl]. rewrite orb_false_r. split; [done|]. by apply Forall_singleton. }
  assert (tput t kv = E -> t0 = E) as HtE1 by (by intros [?|?]%Hempty).
  destruct (treeRep_slot _ _ Hr1 HtE1) as [Hs1 Hc1].
  destruct (IH (tput t kv) slot1 (updateNodeHashesForDelete del ws1) mx1) as (slot2 & ws2 & mx2 & -> & Hr2 & Hl2 & Hv2 & Hz2 & Hu2); [done|done|by apply tput_ok|done..|].
  rewrite Hc1 in Hl2. exists slot2, (ws1 ++ ws2), mx2. unfold updateNodeHashesForDelete. rewrite foldl_app. split; [done|]. split; [done|].
  split; [by eapply loads_app|]. split; [|split].
  - intros h [Hh|Hh]%elem_of_app Hnz; [by apply Hv1'|]. unfold touchedHashes. cbn [mbind list_bind]. apply elem_of_app. right. by apply Hv2.
  - by rewrite elem_of_app, orb_true_iff, Hz1, Hz2.
  - apply Forall_cons. split; [by eapply untouched_loads|done].
Qed.

(** ** The end of the batch *)

(** The old branches and leaves have hashes of their own, which no value has. *)
Definition separate : Prop :=
  NoDup (map (hashOf Hash) (inner Hash 0 t0)) /\ forall k v, tget 0 k t0 = Some v -> ~ oldHash (valHash Hash v).

(** The loop collects exactly the hashes of [deletions]. *)
Lemma deletions_exact ws xs ops : separate -> loads Hash ws (inner Hash 0 t0) xs -> (forall h, h ∈ ws -> h <> zeroKey -> h ∈ touchedHashes ops) ->
  (zeroKey ∈ ws <-> meetsGap t0 ops = true) -> Forall (fun kv => untouched kv xs) ops -> list_to_set ws = deletions ops.
Proof.
  intros [Hnd _] Hl Hv Hz Hu. apply set_eq. intros h. unfold deletions. rewrite elem_of_union, !elem_of_list_to_set. split.
  - intros Hh. destruct (decide (h = zeroKey)) as [->|Hne]; [right; rewrite (proj1 Hz Hh); by apply elem_of_singleton|left; by apply Hv].
  - intros [Hh|Hh]; [|destruct (meetsGap t0 ops) eqn:Hg; [apply elem_of_singleton in Hh as ->; by apply Hz|by apply not_elem_of_empty in Hh]].
    apply list_elem_of_bind in Hh as (kv & Hh & Hkv). rewrite Forall_forall in Hu. destruct (Hu kv Hkv) as [rest Hp].
    assert (h ∈ map (hashOf Hash) (inner Hash 0 t0)) as Hin by (rewrite Hp, !elem_of_app; by left; left).
    rewrite Hp in Hnd. apply NoDup_app in Hnd as ((_ & Hdis & _)%NoDup_app & _ & _).
    unfold loads in Hl. rewrite Hl, elem_of_app in Hin. destruct Hin as [[_ ?]%list_elem_of_filter|Hc]; [done|]. by destruct (Hdis h).
Qed.

Lemma nodes_ok t : forall d x, placed d t -> (d <= 256)%nat -> x ∈ nodes Hash d t -> value_ok (fst x) /\ key_ok (snd x).
Proof.
  induction t as [|k v|l IHl r IHr]; intros d x Hp Hd Hx; cbn [nodes] in Hx; [by apply not_elem_of_nil in Hx|..].
  - destruct Hp as [Hk Hv]. apply elem_of_cons in Hx as [->|[->|[]%not_elem_of_nil]%elem_of_cons]; cbn [fst snd].
    + split; [by apply leafInput_ok|apply LeafCapacity_ok].
    + split; [done|apply zeroKey_ok].
  - destruct Hp as (Hd' & _ & _ & Pl & Pr). apply elem_of_cons in Hx as [->|[Hx|Hx]%elem_of_app]; cbn [fst snd].
    + split; [apply concat4_ok; by apply th_ok|apply zeroKey_ok].
    + by apply (IHl (S d)).
    + by apply (IHr (S d)).
Qed.

Lemma nodes_cases t : forall d x, placed d t -> x ∈ nodes Hash d t -> x ∈ inner Hash d t \/ exists k v, tget d k t = Some v /\ x = (v, BranchCapacity).
Proof.
  induction t as [|k v|l IHl r IHr]; intros d x Hp Hx; cbn [nodes inner] in *; [by apply not_elem_of_nil in Hx|..].
  - apply elem_of_cons in Hx as [->|[->|[]%not_elem_of_nil]%elem_of_cons]; [left; left|right]. exists k, v. cbn [tget]. by rewrite decide_True.
  - destruct Hp as (Hd' & Hl & Hr & Pl & Pr). rewrite elem_of_cons, elem_of_app in Hx |- *. destruct Hx as [->|[Hx|Hx]]; [left; by left|..].
    + destruct (IHl (S d) x Pl Hx) as [?|(k & v & Hg & ->)]; [left; auto|right]. exists k, v. split; [|done]. cbn [tget]. by rewrite (Hl k (tget_inT _ _ _ _ Hg)).
    + destruct (IHr (S d) x Pr Hx) as [?|(k & v & Hg & ->)]; [left; auto|right]. exists k, v. split; [|done]. cbn [tget]. by rewrite (Hr k (tget_inT _ _ _ _ Hg)).
Qed.

Lemma nodes_value t : forall d k v, tget d k t = Some v -> (v, BranchCapacity) ∈ nodes Hash d t.
Proof.
  induction t as [|k' v'|l IHl r IHr]; intros d k v Hg; cbn [tget nodes] in *; [done|..].
  - case_decide; [|done]. injection Hg as ->. right. left.
  - right. apply elem_of_app. destruct (bit k d); [right|left]; eauto.
Qed.

Lemma cold_unloaded t : forall d s n, brep d s t n -> Forall (unloaded Hash db0 oldHash) (cold Hash d t n).
Proof.
  induction t as [|k v|l IHl r IHr]; intros d s n Hr; [done|by apply Forall_nil|].
  destruct Hr as (a & b & ln & rn & -> & _ & _ & Hl & Hr). cbn [cold]. apply Forall_app. split; [destruct ln; [by eapply IHl|apply Hl]|destruct rn; [by eapply IHr|apply Hr]].
Qed.

Section finish.
Context (order : forall V, gmap Z V -> list (Z * V)) (order_ok : forall V (m : gmap Z V), order V m ≡ₚ map_to_list m).
Context (ops : list (NodeKey * list Z)) (Hops : Forall op_ok ops) (Hnodup : NoDup (map fst ops)).
Context (m : gmap NodeKey (list Z)) (Ht0 : tree_ok t0) (Hm : holds t0 m) (Hst0 : stored Hash db0 0 t0) (Hsep : separate).
Let t := foldl tput t0 ops.
Context (Hcf : collision_free Hash (nodes Hash 0 t)).
(** The hashes that are deleted, and the tree in memory. *)
Context (ws : list NodeKey) (slot : option smtBatchNode) (Hrep : treeRep t slot) (Hloads : loads Hash ws (inner Hash 0 t0) (treeCold t slot)).

Lemma visited_old h : h ∈ ws -> oldHash h.
Proof.
  intros Hin. destruct (decide (h = zeroKey)) as [->|Hne]; [left|right]. unfold loads in Hloads. rewrite Hloads. apply elem_of_app. left. by apply list_elem_of_filter.
Qed.

Lemma cold_kept x : x ∈ treeCold t slot -> has Hash db0 x /\ hashOf Hash x ∉ ws.
Proof.
  intros Hx. assert (unloaded Hash db0 oldHash x) as (Hhas & _ & Hnz).
  { destruct slot as [n|]; [|by apply not_elem_of_nil in Hx]. pose proof (cold_unloaded _ _ _ _ Hrep) as Hu. rewrite Forall_forall in Hu. by apply Hu. }
  split; [done|]. intros Hin. destruct Hsep as [Hnd _]. unfold loads in Hloads. rewrite Hloads in Hnd. apply NoDup_app in Hnd as (_ & Hdis & _).
  apply (Hdis (hashOf Hash x)); [by apply list_elem_of_filter|by apply (list_elem_of_fmap_2 (hashOf Hash))].
Qed.

Lemma end_tree : tree_ok t.
Proof. by destruct (tputs_ok ops t0 m Hops Ht0 Hm). Qed.

Lemma end_values k v : tget 0 k t = Some v -> (exists kv, kv ∈ ops /\ is_zero (snd kv) = false /\ snd kv = v) \/ tget 0 k t0 = Some v.
Proof.
  destruct (tputs_ok ops t0 m Hops Ht0 Hm) as [_ Hh]. unfold t. rewrite (Hh k), mputs_lookup by done.
  destruct (list_find _ ops) as [[i kv]|] eqn:Hf; [|rewrite Hm; auto]. apply list_find_Some in Hf as (Hl & _ & _).
  destruct (is_zero (snd kv)) eqn:Hz; [done|]. intros [= <-]. left. exists kv. split; [by eapply list_elem_of_lookup_2|done].
Qed.

Lemma ops_nodes kv : kv ∈ ops -> is_zero (snd kv) = false -> (snd kv, BranchCapacity) ∈ nodes Hash 0 t.
Proof.
  intros Hin Hz. apply (nodes_value t 0 (fst kv)). destruct (tputs_ok ops t0 m Hops Ht0 Hm) as [_ Hh]. unfold t. rewrite (Hh (fst kv)), mputs_lookup by done.
  destruct (list_find (fun kv2 => fst kv2 = fst kv) ops) as [[i kv2]|] eqn:Hf.
  - apply list_find_Some in Hf as (Hl & He & _). apply list_elem_of_lookup_1 in Hin as [j Hj].
    assert (i = j) as ->; [|rewrite Hl in Hj; injection Hj as ->; by rewrite Hz].
    eapply NoDup_lookup; [exact Hnodup|rewrite list_lookup_fmap, Hl; done|rewrite list_lookup_fmap, Hj; cbn; by rewrite He].
  - apply list_find_None in Hf. rewrite Forall_forall in Hf. by destruct (Hf kv Hin).
Qed.

(** The nodes in memory are hashed and saved. *)
Lemma hashTree_ok (db : D) : (forall x, x ∈ treeCold t slot -> x ∈ nodes Hash 0 t -> has Hash db x) ->
  (forall k v, tget 0 k t = Some v -> has Hash db (v, BranchCapacity)) ->
  exists db', (match slot with
    | None => Ok (zeroKey, db)
    | Some n => hw ← calculateAndSaveHashesDfs Hash false [] n; db ← startConsumersLoop (snd hw) db; Ok (fst hw, db)
    end) = Ok (th Hash 0 t, db') /\ stored Hash db' 0 t /\ (db_ok db -> db_ok db').
Proof.
  pose proof end_tree as [Hp Hc]. intros Hcold Hvals. destruct slot as [n|].
  2: { cbn in Hrep. exists db. rewrite Hrep. split; [done|]. split; [by apply Forall_nil|done]. }
  destruct (dfs_ok Hash Hash_range db0 oldHash t 0 t0 [] n) as (sv & -> & Hall & Honly); [done|done|lia|done|]. rewrite bind_ok. cbn [fst snd].
  destruct (consumer_ok Hash Hash_range (fun x => x ∈ nodes Hash 0 t) Hcf) with (ws := sv) (db := db) as (db' & -> & Hkeep & Hsaved).
  { intros x Hx. by apply (nodes_ok t 0 x Hp); [lia|]. }
  { intros h v Hs. destruct (Honly h v Hs) as (x & Hx & ->). exists x. split; [by apply inner_nodes|done]. }
  rewrite bind_ok. exists db'. split; [done|]. split; [|apply Hkeep]. apply Forall_forall. intros x Hx. destruct (nodes_cases t 0 x Hp Hx) as [Hi|(k & v & Hg & ->)].
  - destruct (Hall x Hi) as [Hco|Hs]; [by apply Hkeep; [|apply Hcold]|by apply Hsaved].
  - apply Hkeep; [done|by apply (Hvals k)].
Qed.

Lemma finishBatch_ok mx (db : D) : db_ok db0 -> same_nodes db0 db ->
  exists db', finishBatch Hash false order (map (entryOf Hash) ops) (mkBatch slot (updateNodeHashesForDelete ∅ ws) mx) db = Ok (th Hash 0 t, db') /\
    represents Hash db' t.
Proof.
  intros Hdep [Hsame Hsd]. unfold finishBatch. cbn [smtBatchNodeRoot nodeHashesForDelete].
  destruct (deleteNodes_gone (hashesForDelete order (updateNodeHashesForDelete ∅ ws)) db) as (db1 & -> & Hgone & Hgd).
  { apply Forall_forall. intros h Hh%forDelete_in%visited_old; [|done]. apply elem_of_cons in Hh as [->|(x & -> & _)%list_elem_of_fmap]; [apply zeroKey_ok|apply Hash_range]. }
  rewrite bind_ok.
  destruct (saveValues_ok Hash Hash_range (fun x => x ∈ nodes Hash 0 t) Hcf ops db1 Hops ops_nodes) as (db2 & -> & Hkeep & Hvals). rewrite bind_ok.
  assert (forall x, has Hash db0 x -> hashOf Hash x ∉ ws -> x ∈ nodes Hash 0 t -> has Hash db2 x) as Hold.
  { intros x Hx Hni Hn. apply Hkeep; [done|]. unfold has in *. rewrite Hgone; [by rewrite Hsame|apply Hash_range|by rewrite forDelete_in]. }
  destruct (hashTree_ok db2) as (db3 & -> & Hst & Hd3).
  { intros x Hx Hn. destruct (cold_kept x Hx) as [Hh Hni]. by apply Hold. }
  { intros k v Hg. pose proof (nodes_value t 0 k v Hg) as Hn. destruct (end_values k v Hg) as [(kv & Hin & Hz & <-)|Hg0]; [by apply Hvals|].
    apply Hold; [|intros Hin%visited_old; by apply (proj2 Hsep k v)|done]. unfold stored in Hst0. rewrite Forall_forall in Hst0. by apply Hst0, (nodes_value t0 0 k). }
  rewrite bind_ok. unfold setLastRoot. destruct (law_SetLastRoot db3 (Key_ToBigInt (th Hash 0 t))) as (db4 & -> & [Hs Hd] & Hr); [by apply Key_ToBigInt_range, th_ok|].
  rewrite bind_ok. exists db4. split; [done|]. split; [|split; [|by apply Hd, Hd3, Hkeep, Hgd, Hsd]].
  - exact Hr.
  - eapply Forall_impl; [exact Hst|]. intros x Hx. unfold has in *. by rewrite Hs.
Qed.
End finish.

(** ** What a batch promises *)

Lemma inner_nonzero t : forall d x, nonzero Hash d t -> x ∈ inner Hash d t -> hashOf Hash x <> zeroKey.
Proof.
  induction t as [|k v|l IHl r IHr]; intros d x Hn Hx; cbn [inner] in Hx; [by apply not_elem_of_nil in Hx|..].
  - by apply list_elem_of_singleton in Hx as ->.
  - destruct Hn as (Hn & Nl & Nr). apply elem_of_cons in Hx as [->|[Hx|Hx]%elem_of_app]; eauto.
Qed.

(** The start of a batch: nothing has been loaded. *)
Lemma start_rep : nonzero Hash 0 t0 -> stored Hash db0 0 t0 -> slotRep 0 t0 t0 (th Hash 0 t0) None.
Proof.
  intros Hn Hs. split; [done|]. split; [|by right]. apply stored_inner_of in Hs. unfold stored_inner in Hs. rewrite Forall_forall in Hs |- *. intros x Hx. split; [by apply Hs|].
  split; [right; by apply (list_elem_of_fmap_2 (hashOf Hash))|by eapply inner_nonzero].
Qed.

Lemma calculateRoot_ok root : represents Hash db0 t0 -> root = None \/ root = Some (th Hash 0 t0) -> calculateRootNodeHashIfNil root db0 = Ok (th Hash 0 t0).
Proof. intros Hr [-> | ->]; [by apply represents_root|done]. Qed.

Lemma latest_tput ops m : tree_ok t0 -> holds t0 m -> Forall op_ok ops -> foldl tput t0 (latest ops) = foldl tput t0 ops.
Proof.
  intros Ht Hm Hops. assert (Forall op_ok (latest ops)) as Hl.
  { rewrite Forall_forall in Hops |- *. intros kv Hkv. by apply Hops, latest_in. }
  destruct (tputs_ok ops t0 m Hops Ht Hm) as [T1 H1]. destruct (tputs_ok (latest ops) t0 m Hl Ht Hm) as [T2 H2].
  apply (holds_inj _ _ (foldl mput m ops)); [done..| |done]. by rewrite <- latest_mput.
Qed.

Lemma prepareBatch_ok cpuNum ops hs root m : 1 <= cpuNum -> ops <> [] -> Forall op_ok ops -> hashes_given Hash ops hs ->
  root = None \/ root = Some (th Hash 0 t0) -> tree_ok t0 -> holds t0 m -> nonzero Hash 0 t0 -> separate -> represents Hash db0 t0 -> good_batch t0 (latest ops) ->
  exists slot ws mx db, prepareBatch Hash cpuNum (map fst ops) (values ops) hs root db0 =
      Ok (map (entryOf Hash) (latest ops), mkBatch slot (updateNodeHashesForDelete ∅ ws) mx, db) /\
    treeRep (foldl tput t0 (latest ops)) slot /\ loads Hash ws (inner Hash 0 t0) (treeCold (foldl tput t0 (latest ops)) slot) /\ same_nodes db0 db /\
    list_to_set ws = deletions (latest ops).
Proof.
  intros Hcpu Hne Hops Hg Hroot Ht Hm Hn Hsep Hr Hgood. unfold prepareBatch.
  pose proof (prepare_ok Hash cpuNum ops hs Hcpu Hops Hg) as Hprep.
  apply bind_Ok_inv in Hprep as (l & Hval & Hprep). apply bind_Ok_inv in Hprep as (es & Hdup & Hprep).
  destruct (insertEntries_ok (latest ops) t0 None ∅ 0) as (slot & ws & mx & He & Hrep & Hl & Hv & Hz & Hu); [..|done|by apply start_rep; [|apply Hr]|done|done|].
  { destruct ops as [|kv ops]; [done|]. intros Hnil. pose proof (proj2 (latest_keys (kv :: ops) (fst kv)) ltac:(left)) as Hin. rewrite Hnil in Hin. by apply not_elem_of_nil in Hin. }
  { rewrite Forall_forall in Hops |- *. intros kv Hkv. by apply Hops, latest_in. }
  destruct (updateDepth_ok mx db0) as (db & Hd & Hs); [apply Hr|]. exists slot, ws, mx, db. split; [|by pose proof (deletions_exact _ _ _ Hsep Hl Hv Hz Hu)].
  rewrite Hval, bind_ok, Hdup, bind_ok, Hprep, bind_ok, (calculateRoot_ok _ Hr Hroot), bind_ok, He, bind_ok. cbn [maxInsertingNodePathLevel]. by rewrite Hd, bind_ok.
Qed.
End run.

Section promise.
Context {D : Type} `{SmtDb D} `{BatchDb D} `{!SmtDbLaws D} `{!BatchDbLaws D}.
Context (Hash : list Z -> NodeKey -> NodeKey) (Hash_range : forall i c, key_ok (Hash i c)).
Context (order : forall V, gmap Z V -> list (Z * V)) (order_ok : forall V (m : gmap Z V), order V m ≡ₚ map_to_list m).

(** What a batch relies on: different hashes of old and of new nodes, none of them zero, and
    that the batch is a good one. *)
Record batch_ok (t0 : tree) (ops : list (NodeKey * list Z)) : Prop := {
  batch_nonzero : nonzero Hash 0 t0;
  batch_separate : separate Hash t0;
  batch_good : good_batch Hash t0 t0 (latest ops);
  batch_collision_free : collision_free Hash (nodes Hash 0 (foldl tput t0 ops));
}.

(** Whether the deletions block. *)
Definition tooManyDeletions (shouldPrintProgress : bool) (deleted : gset NodeKey) : bool :=
  negb shouldPrintProgress && (100 <? size (set_map w0 deleted : gset Z))%nat.

Lemma InsertBatch_ok shouldPrintProgress cpuNum ops hs root t0 m db :
  1 <= cpuNum -> ops <> [] -> Forall op_ok ops -> hashes_given Hash ops hs -> root = None \/ root = Some (th Hash 0 t0) ->
  tree_ok t0 -> holds t0 m -> represents Hash db t0 -> batch_ok t0 ops ->
  exists db', InsertBatch Hash false order shouldPrintProgress cpuNum (map fst ops) (values ops) hs root db =
      (if tooManyDeletions shouldPrintProgress (deletions Hash t0 (latest ops)) then None else Some (Ok (th Hash 0 (foldl tput t0 ops), db'))) /\
    represents Hash db' (foldl tput t0 ops).
Proof.
  intros Hcpu Hne Hops Hg Hroot Ht Hm Hr [Hn Hsep Hgood Hcf].
  destruct (prepareBatch_ok Hash Hash_range t0 db cpuNum ops hs root m) as (slot & ws & mx & db1 & He & Hrep & Hl & Hs & Hdel); [done..|].
  assert (Forall op_ok (latest ops)) as Hlat by (rewrite Forall_forall in Hops |- *; intros kv Hkv; by apply Hops, latest_in).
  rewrite <- (latest_tput t0 ops m) in Hcf |- * by done.
  destruct (finishBatch_ok Hash Hash_range t0 db order order_ok (latest ops) Hlat (latest_nodup ops) m Ht Hm (proj1 (proj2 Hr)) Hsep Hcf ws slot Hrep Hl mx db1 (proj2 (proj2 Hr)) Hs)
    as (db' & Hf & Hr').
  exists db'. split; [|done]. unfold InsertBatch. rewrite He, Hf. unfold deletionsBlock. cbn [nodeHashesForDelete]. by rewrite forDelete_size, Hdel.
Qed.

(** C3: a batch refines the update of a map.  On a store that holds a canonical tree with
    the contents [m], [InsertBatch] of a batch that is not empty returns the hash of the
    canonical tree with the contents [m] after all updates, the last value of a key
    counting and a zero deleting it, and leaves a store that holds that tree and that
    root, whatever number of processors shares the hashing and whatever the order in
    which Go visits the map of hashes to delete.  The batch must be a good one
    ([good_batch], part of [batch_ok]): it writes no zero to an absent key whose
    remaining bits are those of a hash in the branch where its path ends, and it does not
    make a tree empty that it then writes to; the hashes of the nodes must differ and not
    be zero.  It fails to return exactly if no progress is printed and the hashes it
    deletes have more than 100 different first words.  These hashes ([deletions]) are
    known from the old tree: those of its nodes on the paths of the keys, those of the
    nodes beside the path of a key that is deleted, and zero if a deletion meets a branch
    with one child only. *)
Theorem batch_refines shouldPrintProgress cpuNum ops hs root t0 m db :
  1 <= cpuNum -> ops <> [] -> Forall op_ok ops -> hashes_given Hash ops hs -> root = None \/ root = Some (th Hash 0 t0) ->
  tree_ok t0 -> holds t0 m -> represents Hash db t0 -> batch_ok t0 ops ->
  exists db' t, InsertBatch Hash false order shouldPrintProgress cpuNum (map fst ops) (values ops) hs root db =
      (if tooManyDeletions shouldPrintProgress (deletions Hash t0 (latest ops)) then None else Some (Ok (th Hash 0 t, db'))) /\
    represents Hash db' t /\ tree_ok t /\ holds t (foldl mput m ops).
Proof.
  intros Hcpu Hne Hops Hg Hroot Ht Hm Hr Hb.
  destruct (InsertBatch_ok shouldPrintProgress cpuNum ops hs root t0 m db) as (db' & He & Hr'); [done..|].
  exists db', (foldl tput t0 ops). split; [done|]. split; [done|]. by apply tputs_ok.
Qed.

(** C4: a good batch is as good as its entries one by one.  On a store that holds a tree,
    and for a batch that is not empty, [InsertBatch] with progress printed and [Insert] of
    every entry in turn both return, and leave stores with the same root that hold the same
    tree.  This needs [batch_ok] for the batch, which rules out a zero written to an absent
    key whose remaining bits are those of a hash in the branch where its path ends, and a
    tree that becomes empty within the batch, and [good_run] for the single insertions; an
    empty batch, or one that deletes the only key and then sets another, ends with another
    root than the insertions. *)
Theorem batch_root_is_insert_root cpuNum ops t0 m db :
  1 <= cpuNum -> ops <> [] -> Forall op_ok ops -> tree_ok t0 -> holds t0 m -> represents Hash db t0 ->
  batch_ok t0 ops -> good_run Hash t0 ops ->
  exists root db1 db2, InsertBatch Hash false order true cpuNum (map fst ops) (values ops) None None db = Some (Ok (root, db1)) /\
    Inserts Hash ops db = Ok db2 /\ getLastRoot db1 = Ok root /\ getLastRoot db2 = Ok root /\
    exists t, stored Hash db1 0 t /\ stored Hash db2 0 t /\ holds t (foldl mput m ops).
Proof.
  intros Hcpu Hne Hops Ht Hm Hr Hb Hrun.
  destruct (InsertBatch_ok true cpuNum ops None None t0 m db) as (db1 & He & Hr1); try done; [by left|].
  destruct (Inserts_ok Hash Hash_range ops t0 db) as (db2 & Hi & Hr2); [done|done|apply Hb|done|done|].
  exists (th Hash 0 (foldl tput t0 ops)), db1, db2. split; [exact He|]. split; [done|]. split; [by apply represents_root|]. split; [by apply represents_root|].
  exists (foldl tput t0 ops). split; [apply Hr1|]. split; [apply Hr2|]. by apply tputs_ok.
Qed.

(** ** Where the root is lost *)

Definition zeroValue : list Z := replicate 8 0.

Lemma zeroValue_ok : value_ok zeroValue.
Proof. split; [done|]. unfold zeroValue, word_ok. repeat (apply Forall_cons; split; [lia|]). by apply Forall_nil. Qed.

Section single.
Context (k1 : NodeKey) (v1 : list Z) (Hk1 : key_ok k1) (Hv1 : value_ok v1).
Let t0 := Leaf k1 v1.
Let h0 := th Hash 0 t0.
Context (db : D) (Hr : represents Hash db t0) (Hn : nonzero Hash 0 t0).

(** A single leaf is loaded from the store, no matter what has been done to it in memory. *)
Lemma find_root_leaf fuel k fetch : findInsertingPoint (S fuel) db (GetPath k) fetch (-1) h0 None =
  Ok (Some (leafNode 0 k1 (Some (valHash Hash v1))), 0, [], [h0]).
Proof.
  destruct (start_rep Hash t0 db Hn (proj1 (proj2 Hr))) as [_ Hu].
  destruct (fetch_ok Hash Hash_range db (oldHash Hash t0) (oldHash_zero Hash t0) 0 t0) as (n & Hf & Hrep & _); [done|done|lia|apply Hu|].
  cbn in Hrep. subst n. cbn [findInsertingPoint]. rewrite Key_IsZero_spec, bool_decide_false by apply Hn. cbn [negb].
  unfold h0. by rewrite Hf, !bind_ok.
Qed.

Lemma delete_root del mx : insertEntry db h0 (entryOf Hash (k1, zeroValue)) (mkBatch None del mx) = Ok (mkBatch None (setNodeKeyMapValue del h0 h0) (Z.max mx (-1))).
Proof.
  unfold insertEntry. cbn [entryOf nodeKey nodeValue nodeValueHash smtBatchNodeRoot nodeHashesForDelete maxInsertingNodePathLevel fst snd nonNil].
  cbv zeta. rewrite bind_ok, (find_root_leaf 256), bind_ok. change (Value8_IsZero (map Some zeroValue)) with true. cbn [negb].
  cbn [deleteValue nonNil]. rewrite bind_ok. unfold leafNode. cbn [leftOf]. change (Z.of_nat 0) with 0. rewrite IsEqualTo_spec, bool_decide_true by done.
  by rewrite !bind_ok.
Qed.

Lemma insert_root k2 v2 del mx : key_ok k2 -> value_ok v2 -> is_zero v2 = false -> exists n mx',
  insertEntry db h0 (entryOf Hash (k2, v2)) (mkBatch None del mx) = Ok (mkBatch (Some n) (setNodeKeyMapValue del h0 h0) mx') /\
  brep Hash db (oldHash Hash t0) 0 t0 (tput t0 (k2, v2)) n /\ cold Hash 0 (tput t0 (k2, v2)) n = [].
Proof.
  intros Hk2 Hv2 Hz. unfold insertEntry, tput. cbn [entryOf nodeKey nodeValue nodeValueHash smtBatchNodeRoot nodeHashesForDelete maxInsertingNodePathLevel fst snd nonNil].
  cbv zeta. rewrite bind_ok, (find_root_leaf 256), bind_ok, Value8_IsZero_some, Hz by done. cbn [negb updateSlot nonNil]. rewrite bind_ok.
  unfold setValue. cbn [leafNode batch_isLeaf negb].
  destruct (setAtLeaf_ok Hash db (oldHash Hash t0) (oldHash_zero Hash t0) k2 Hk2 0 t0 v2 k1 v1) as (n & lvl & He & Hrep & Hc); [done|lia|by intros j Hj; lia|].
  change (Z.of_nat 0) with 0 in He. fold (leafNode 0 k1 (Some (valHash Hash v1))). rewrite He, !bind_ok. eexists _, _. split; [done|]. by split.
Qed.
End single.

Lemma empty_batch shouldPrintProgress cpuNum root (db : D) : 1 <= cpuNum -> getLastRoot db = Ok root -> db_ok db ->
  exists db', InsertBatch Hash false order shouldPrintProgress cpuNum [] [] None None db = Some (Ok (zeroKey, db')) /\ getLastRoot db' = Ok zeroKey.
Proof.
  intros Hcpu Hr Hdep. unfold InsertBatch, prepareBatch. pose proof (prepare_ok Hash cpuNum [] None Hcpu (proj2 (Forall_nil _) I) I) as Hprep.
  cbn [map latest] in Hprep. change (values []) with (@nil NodeValue8) in Hprep. apply bind_Ok_inv in Hprep as (l & -> & Hprep). apply bind_Ok_inv in Hprep as (es & Hdup & Hprep).
  rewrite bind_ok, Hdup, bind_ok, Hprep, bind_ok. cbn [calculateRootNodeHashIfNil insertEntries].
  rewrite Hr, !bind_ok. cbn [maxInsertingNodePathLevel]. destruct (updateDepth_ok 0 db Hdep) as (db1 & -> & _). rewrite bind_ok.
  assert (deletionsBlock shouldPrintProgress (mkBatch None ∅ 0) = false) as ->.
  { unfold deletionsBlock. cbn [nodeHashesForDelete]. rewrite map_size_empty. by rewrite andb_false_r. }
  unfold finishBatch. cbn [nodeHashesForDelete smtBatchNodeRoot].
  assert (hashesForDelete order ∅ = []) as ->.
  { unfold hashesForDelete. assert (order _ (∅ : nodeKeyMap NodeKey) = []) as ->; [|done]. apply Permutation_nil_r. rewrite order_ok. by rewrite map_to_list_empty. }
  cbn [map deleteNodes saveValues]. rewrite !bind_ok. unfold setLastRoot.
  destruct (law_SetLastRoot db1 (Key_ToBigInt zeroKey)) as (db2 & -> & _ & Hroot); [apply Key_ToBigInt_range, zeroKey_ok|]. rewrite bind_ok. exists db2. split; [done|].
  unfold getLastRoot. rewrite Hroot, bind_ok, ScalarToRoot_ToBigInt by apply zeroKey_ok. done.
Qed.

Lemma resurrecting_batch shouldPrintProgress cpuNum k1 v1 k2 v2 (db : D) : 1 <= cpuNum -> op_ok (k1, v1) -> op_ok (k2, v2) -> is_zero v2 = false -> k1 <> k2 ->
  let t0 := Leaf k1 v1 in represents Hash db t0 -> nonzero Hash 0 t0 -> separate Hash t0 -> collision_free Hash (nodes Hash 0 (tput t0 (k2, v2))) ->
  exists db', InsertBatch Hash false order shouldPrintProgress cpuNum [k1; k2] (values [(k1, zeroValue); (k2, v2)]) None None db =
    Some (Ok (th Hash 0 (tput t0 (k2, v2)), db')) /\ represents Hash db' (tput t0 (k2, v2)).
Proof.
  intros Hcpu [Hk1 Hv1] [Hk2 Hv2] Hz Hne t0 Hr Hn Hsep Hcf. cbn [fst snd] in *.
  assert (Forall op_ok [(k1, zeroValue); (k2, v2)]) as Hops.
  { apply Forall_cons. split; [split; [done|apply zeroValue_ok]|by apply Forall_singleton]. }
  pose proof (prepare_ok Hash cpuNum [(k1, zeroValue); (k2, v2)] None Hcpu Hops I) as Hprep. cbn [latest map fst] in Hprep.
  rewrite decide_False in Hprep by (by intros ?%list_elem_of_singleton). rewrite decide_False in Hprep by (apply not_elem_of_nil).
  unfold InsertBatch, prepareBatch. apply bind_Ok_inv in Hprep as (l & -> & Hprep). apply bind_Ok_inv in Hprep as (es & Hdup & Hprep).
  rewrite bind_ok, Hdup, bind_ok, Hprep, bind_ok. cbn [calculateRootNodeHashIfNil]. rewrite (represents_root Hash Hash_range _ _ Hr), bind_ok.
  destruct (insert_root k1 v1 Hk1 Hv1 db Hr Hn k2 v2 (setNodeKeyMapValue ∅ (th Hash 0 t0) (th Hash 0 t0)) (Z.max 0 (-1)) Hk2 Hv2 Hz) as (n & mx & Hi & Hrep & Hc).
  cbn [map insertEntries]. fold t0 in Hi. unfold t0 at 1. rewrite (delete_root k1 v1 Hk1 Hv1 db Hr Hn), bind_ok. fold t0. rewrite Hi, !bind_ok, set_again. cbn [maxInsertingNodePathLevel].
  destruct (updateDepth_ok mx db) as (db1 & -> & Hs); [apply Hr|]. rewrite bind_ok.
  assert (deletionsBlock shouldPrintProgress (mkBatch (Some n) (updateNodeHashesForDelete ∅ [th Hash 0 t0]) mx) = false) as Hb.
  { unfold deletionsBlock. cbn [nodeHashesForDelete]. rewrite forDelete_size. cbn [list_to_set]. rewrite union_empty_r_L, set_map_singleton_L, size_singleton. by rewrite andb_false_r. }
  cbn [updateNodeHashesForDelete foldl] in Hb. rewrite Hb.
  destruct (finishBatch_ok Hash Hash_range t0 db order order_ok [(k2, v2)]) with (m := {[k1 := v1]} : gmap NodeKey (list Z)) (ws := [th Hash 0 t0]) (slot := Some n) (mx := mx) (db := db1)
    as (db' & Hf & Hr'); [by apply Forall_singleton|by apply NoDup_singleton|done| |apply Hr|done|done|done| |apply Hr|done|].
  { intros k. cbn [t0 tget]. rewrite lookup_singleton. repeat case_decide; congruence. }
  { unfold loads. cbn [treeCold foldl]. unfold t0 at 3. rewrite Hc. cbn [map]. rewrite filter_cons_True by apply Hn. done. }
  exists db'. split; [|done]. f_equal. etrans; [|exact Hf]. done.
Qed.

(** C38: two batches after which the tree is not what it should be.  A batch without
    entries sets the last root to that of the empty tree, whatever the store holds.  And a
    batch that first deletes the only key of a tree and then sets another one brings the
    deleted key back, because the old root is loaded again from the store. *)
Theorem batch_root_lost shouldPrintProgress cpuNum t0 db : 1 <= cpuNum -> represents Hash db t0 ->
  (exists db', InsertBatch Hash false order shouldPrintProgress cpuNum [] [] None None db = Some (Ok (zeroKey, db')) /\ getLastRoot db' = Ok zeroKey) /\
  (forall k1 v1 k2 v2, t0 = Leaf k1 v1 -> op_ok (k1, v1) -> op_ok (k2, v2) -> is_zero v2 = false -> k1 <> k2 ->
     nonzero Hash 0 t0 -> separate Hash t0 -> collision_free Hash (nodes Hash 0 (tput t0 (k2, v2))) ->
     exists db' t, InsertBatch Hash false order shouldPrintProgress cpuNum [k1; k2] (values [(k1, zeroValue); (k2, v2)]) None None db =
       Some (Ok (th Hash 0 t, db')) /\ represents Hash db' t /\ tget 0 k1 t = Some v1 /\ tget 0 k2 t = Some v2).
Proof.
  intros Hcpu Hr. split; [apply (empty_batch shouldPrintProgress cpuNum (th Hash 0 t0)); [done|by apply represents_root|apply Hr]|].
  intros k1 v1 k2 v2 -> Hop1 Hop2 Hz Hne Hn Hsep Hcf.
  destruct (resurrecting_batch shouldPrintProgress cpuNum k1 v1 k2 v2 db) as (db' & He & Hr'); [done..|].
  eexists db', _. split; [exact He|]. split; [done|]. unfold tput. cbn [fst snd]. rewrite Hz.
  rewrite !tins_get; try (lia || apply Hop1 || apply Hop2 || apply under_0). rewrite decide_False, decide_True by done. cbn [tget]. by rewrite decide_True.
Qed.
End promise.

(** ** Deciding the conditions on a batch *)

Section decide.
Context (Hash : list Z -> NodeKey -> NodeKey) (t0 : tree).

Definition oldHashb (h : NodeKey) : bool := bool_decide (h ∈ zeroKey :: map (hashOf Hash) (inner Hash 0 t0)).

Fixpoint good_batchb (t : tree) (ops : list (NodeKey * list Z)) : bool :=
  match ops with
  | [] => true
  | kv :: ops =>
      let t' := tput t kv in
      (if is_zero (snd kv) then match blocked (fst kv) 0 t with Some j => negb (oldHashb (RemoveKeyBits (fst kv) (Z.of_nat j))) | None => true end else true) &&
      (negb (is_E t') || (match ops with [] => true | _ => is_E t0 end)) && good_batchb t' ops
  end.

Fixpoint leafValues (t : tree) : list (list Z) :=
  match t with E => [] | Leaf _ v => [v] | B l r => leafValues l ++ leafValues r end.

Definition separateb : bool :=
  bool_decide (NoDup (map (hashOf Hash) (inner Hash 0 t0))) && forallb (fun v => negb (oldHashb (valHash Hash v))) (leafValues t0).

Definition batch_okb (ops : list (NodeKey * list Z)) : bool :=
  nonzerob Hash 0 t0 && separateb && good_batchb t0 (latest ops) && collision_freeb Hash (nodes Hash 0 (foldl tput t0 ops)).

Lemma oldHashb_ok h : negb (oldHashb h) = true -> ~ oldHash Hash t0 h.
Proof. intros Hb%negb_true_iff. by apply bool_decide_eq_false in Hb. Qed.

Lemma good_batchb_ok ops : forall t, good_batchb t ops = true -> good_batch Hash t0 t ops.
Proof.
  induction ops as [|kv ops IH]; intros t Hb; [done|]. cbn [good_batchb] in Hb. cbv zeta in Hb.
  apply andb_true_iff in Hb as [[Hz He]%andb_true_iff Hg]. split; [|split; [|by apply IH]].
  - intros Hzero j Hj. rewrite Hzero, Hj in Hz. by apply oldHashb_ok.
  - intros HE. apply is_E_ok in HE. rewrite HE in He. destruct ops; [by left|right]. by apply is_E_ok.
Qed.

Lemma tget_leafValues t : forall d k v, tget d k t = Some v -> v ∈ leafValues t.
Proof.
  induction t as [|k' v'|l IHl r IHr]; intros d k v Hg; cbn [tget leafValues] in *; [done|..].
  - case_decide; [|done]. injection Hg as ->. left.
  - apply elem_of_app. destruct (bit k d); [right|left]; eauto.
Qed.

Lemma separateb_ok : separateb = true -> separate Hash t0.
Proof.
  intros [Hn Hv]%andb_true_iff. split; [by apply bool_decide_eq_true in Hn|]. intros k v Hg%tget_leafValues. rewrite forallb_forall in Hv.
  apply oldHashb_ok, Hv. by apply list_elem_of_In.
Qed.

Lemma batch_okb_ok ops : batch_okb ops = true -> batch_ok Hash t0 ops.
Proof.
  intros [[[Hn Hs]%andb_true_iff Hg]%andb_true_iff Hc]%andb_true_iff.
  split; [by apply nonzerob_ok|by apply separateb_ok|by apply good_batchb_ok|by apply collision_freeb_ok].
Qed.
End decide.

(** ** Witnesses *)

Definition anyOrder (V : Type) (m : gmap Z V) : list (Z * V) := map_to_list m.

Lemma anyOrder_ok V (m : gmap Z V) : anyOrder V m ≡ₚ map_to_list m.
Proof. done. Qed.

(** One key is set twice, one deleted. *)
Definition example_batch : list (NodeKey * list Z) :=
  [(example_key 5, example_value 12); (example_key 1, example_value 0); (example_key 5, example_value 13)].

Lemma example_batch_ok : Forall op_ok example_batch.
Proof. repeat (apply Forall_cons; split; [apply example_op_ok; lia|]). by apply Forall_nil. Qed.

Lemma batch_refines_witness : exists db' t,
  InsertBatch toyHash false anyOrder false 2 (map fst example_batch) (values example_batch) None None example_store = Some (Ok (th toyHash 0 t, db')) /\
  tget 0 (example_key 1) t = None /\ tget 0 (example_key 3) t = Some (example_value 11) /\ tget 0 (example_key 5) t = Some (example_value 13).
Proof.
  destruct example_contents as [Ht Hh].
  destruct (batch_refines toyHash toyHash_range anyOrder anyOrder_ok false 2 example_batch None None example_tree _ example_store
    ltac:(lia) ltac:(done) example_batch_ok I (or_introl eq_refl) Ht Hh example_represents) as (db' & t & Hi & _ & _ & Hm);
    [apply batch_okb_ok; vm_compute; reflexivity|].
  assert (tooManyDeletions false (deletions toyHash example_tree (latest example_batch)) = false) as Hdel by (vm_compute; reflexivity).
  rewrite Hdel in Hi. exists db', t. split; [exact Hi|]. rewrite !Hm. split_and!; vm_compute; reflexivity.
Defined.

Lemma batch_root_is_insert_root_witness : exists root db1 db2,
  InsertBatch toyHash false anyOrder true 2 (map fst example_batch) (values example_batch) None None example_store = Some (Ok (root, db1)) /\
  Inserts toyHash example_batch example_store = Ok db2 /\ getLastRoot db1 = Ok root /\ getLastRoot db2 = Ok root.
Proof.
  destruct example_contents as [Ht Hh].
  destruct (batch_root_is_insert_root toyHash toyHash_range anyOrder anyOrder_ok 2 example_batch example_tree _ example_store
    ltac:(lia) ltac:(done) example_batch_ok Ht Hh example_represents) as (root & db1 & db2 & H1 & H2 & H3 & H4 & _);
    [apply batch_okb_ok; vm_compute; reflexivity|decide_compute|].
  exists root, db1, db2. split; [exact H1|]. split; [exact H2|]. split; [exact H3|exact H4].
Defined.

Definition single_store : MemDb :=
  match Inserts toyHash [(example_key 1, example_value 10)] NewMemDb with Ok d => d | _ => NewMemDb end.

Lemma single_represents : represents toyHash single_store (Leaf (example_key 1) (example_value 10)).
Proof.
  split; [vm_compute; reflexivity|]. split; [|apply MemDb_db_ok].
  repeat (apply Forall_cons; split; [vm_compute; reflexivity|]). by apply Forall_nil.
Qed.

Lemma batch_root_lost_witness : exists db' t,
  InsertBatch toyHash false anyOrder false 2 [example_key 1; example_key 3] (values [(example_key 1, zeroValue); (example_key 3, example_value 11)]) None None single_store =
    Some (Ok (th toyHash 0 t, db')) /\ tget 0 (example_key 1) t = Some (example_value 10).
Proof.
  destruct (batch_root_lost toyHash toyHash_range anyOrder anyOrder_ok false 2 (Leaf (example_key 1) (example_value 10)) single_store ltac:(lia) single_represents) as [_ Hlost].
  destruct (Hlost (example_key 1) (example_value 10) (example_key 3) (example_value 11)) as (db' & t & Hi & _ & Hg & _);
    [done|apply example_op_ok; lia|apply example_op_ok; lia|done|by intros [=]|decide_compute|apply separateb_ok; vm_compute; reflexivity|decide_compute|].
  exists db', t. split; [exact Hi|exact Hg].
Defined.
