(* ===== verification/HermezDb.v ===== *)
(** * The hermez tables: blocks, batches, L1 sequences (zk/hermez_db/db.go)

    What the node knows about batches on top of the Ethereum database: which block
    is in which batch, in two tables that have to agree, and in which L1 block the
    batches were sequenced and verified.  The transaction is any implementation of
    [Kv]; a [HermezDb] holds nothing else, so it is the transaction here.

    Shown: the two block tables implement one map, through writing and unwinding;
    a rollback of sequences ends and removes exactly the batches above its bound,
    one after the other. *)
From stdpp Require Import sorting.
From S2P Require Import Prelude Bytes Kv.

Definition L1VERIFICATIONS : string := "hermez_l1Verifications".
Definition L1SEQUENCES : string := "hermez_l1Sequences".
Definition BLOCKBATCHES : string := "hermez_blockBatches".
Definition BATCH_BLOCKS : string := "batch_blocks".

Definition ErrorNotStored : string := "not stored".

(** [common.BytesToHash]: the last 32 bytes, zeros in front. *)
Definition BytesToHash (b : list Z) : list Z :=
  let b := drop (length b - 32) b in replicate (32 - length b) 0 ++ b.

Record L1BatchInfo := mkL1BatchInfo {
  BatchNo : Z;
  L1BlockNo : Z;
  L1TxHash : list Z;
  StateRoot : list Z;
  L1InfoRoot : list Z;
}.

Section hermez.
Context {T : Type} `{Kv T}.
(** A bound on the entries of a table, the fuel of the loops over cursors. *)
Context (fuel : nat).

(** ** Blocks and batches *)

Definition GetBatchNoByL2Block (l2BlockNo : Z) (tx : T) : outcome Z :=
  kv ← tx_Seek BLOCKBATCHES (Uint64ToBytes l2BlockNo) tx;
  match kv with
  | None => Err ErrorNotStored
  | Some (k, v) => if negb (BytesToUint64 k =? l2BlockNo) then Ok 0 else Ok (BytesToUint64 v)
  end.

Definition CheckBatchNoByL2Block (l2BlockNo : Z) (tx : T) : outcome (Z * bool) :=
  kv ← tx_Seek BLOCKBATCHES (Uint64ToBytes l2BlockNo) tx;
  match kv with
  | None => Ok (0, false)
  | Some (k, v) =>
      if negb (BytesToUint64 k =? l2BlockNo) then Ok (0, false) else Ok (BytesToUint64 v, true)
  end.

Definition concatenateBlockNumbers (blocks : list Z) : list Z := concat (map Uint64ToBytes blocks).

Definition parseConcatenatedBlockNumbers (v : list Z) : list Z :=
  map (fun i => BytesToUint64 (take 8 (drop (i * 8) v))) (seq 0 (length v / 8)).

Definition GetL2BlockNosByBatch (batchNo : Z) (tx : T) : outcome (list Z) :=
  v ← tx_GetOne BATCH_BLOCKS (Uint64ToBytes batchNo) tx;
  Ok (parseConcatenatedBlockNumbers (default [] v)).

Definition GetLatestDownloadedBatchNo (tx : T) : outcome Z :=
  kv ← tx_Last BLOCKBATCHES tx;
  Ok (match kv with Some (_, v) => BytesToUint64 v | None => BytesToUint64 [] end).

Definition GetHighestBlockInBatch (batchNo : Z) (tx : T) : outcome (Z * bool) :=
  if batchNo =? 0 then Ok (0, true)
  else
    blocks ← GetL2BlockNosByBatch batchNo tx;
    match blocks with
    | [] => Ok (0, false)
    | _ => Ok (foldl (fun max block => if max <? block then block else max) 0 blocks, true)
    end.

Definition GetLowestBlockInBatch (batchNo : Z) (tx : T) : outcome (Z * bool) :=
  if batchNo =? 0 then Ok (0, true)
  else
    blocks ← GetL2BlockNosByBatch batchNo tx;
    match blocks with
    | [] => Ok (0, false)
    | _ => Ok (foldl (fun min block => if (block <? min) || (min =? 0) then block else min) 0 blocks, true)
    end.

Definition WriteBlockBatch (l2BlockNo batchNo : Z) (tx : T) : outcome T :=
  tx ← tx_Put BLOCKBATCHES (Uint64ToBytes l2BlockNo) (Uint64ToBytes batchNo) tx;
  v ← tx_GetOne BATCH_BLOCKS (Uint64ToBytes batchNo) tx;
  let v := default [] v in
  let blocks := parseConcatenatedBlockNumbers v in
  if existsb (fun b => b =? l2BlockNo) blocks then Ok tx
  else tx_Put BATCH_BLOCKS (Uint64ToBytes batchNo) (v ++ Uint64ToBytes l2BlockNo) tx.

Definition deleteFromBucketWithUintKeysRange (bucket : string) (fromBlockNum toBlockNum : Z) (tx : T)
    : outcome T :=
  countUp (Z.to_nat (toBlockNum - fromBlockNum + 1)) fromBlockNum toBlockNum
    (fun i => tx_Delete bucket (Uint64ToBytes i)) tx.

(** The batches of the blocks from [i] to [to], as the keys of a map. *)
Fixpoint gatherBatches (n : nat) (i to : Z) (batches : gset Z) (tx : T) : outcome (gset Z) :=
  if i <=? to then
    match n with
    | O => Panic
    | S n =>
        batch ← (match GetBatchNoByL2Block i tx with
                 | Err e => if decide (e = ErrorNotStored) then Ok 0 else Err e
                 | r => r
                 end) : outcome Z;
        gatherBatches n (u64 (i + 1)) to ({[batch]} ∪ batches) tx
    end
  else Ok batches.

(** One batch loses the blocks of the range. *)
Definition removeBlocks (fromBlockNum toBlockNum batchNumber : Z) (tx : T) : outcome T :=
  data ← tx_GetOne BATCH_BLOCKS (Uint64ToBytes batchNumber) tx;
  let blockNos := parseConcatenatedBlockNumbers (default [] data) in
  let newBlockNos := filter (fun b => (b <? fromBlockNum) || (toBlockNum <? b) = true) blockNos in
  let newData := concatenateBlockNumbers newBlockNos in
  match newData with
  | [] => tx_Delete BATCH_BLOCKS (Uint64ToBytes batchNumber) tx
  | _ => tx_Put BATCH_BLOCKS (Uint64ToBytes batchNumber) newData tx
  end.

Fixpoint removeFromBatches (fromBlockNum toBlockNum : Z) (batches : list Z) (tx : T) : outcome T :=
  match batches with
  | [] => Ok tx
  | n :: batches =>
      tx ← removeBlocks fromBlockNum toBlockNum n tx; removeFromBatches fromBlockNum toBlockNum batches tx
  end.

(** [order] is the order in which the range statement visits the map. *)
Definition DeleteBlockBatches (order : gset Z -> list Z) (fromBlockNum toBlockNum : Z) (tx : T) : outcome T :=
  batchNumbersMap ← gatherBatches (Z.to_nat (toBlockNum - fromBlockNum + 1)) fromBlockNum toBlockNum ∅ tx;
  tx ← removeFromBatches fromBlockNum toBlockNum (order batchNumbersMap) tx;
  deleteFromBucketWithUintKeysRange BLOCKBATCHES fromBlockNum toBlockNum tx.

(** ** L1 sequences and verifications *)

Definition parseL1BatchInfo (l1BlockN batchN : Z) (v : list Z) : outcome L1BatchInfo :=
  if negb (length v =? 96)%nat && negb (length v =? 64)%nat then Err "invalid hash length"
  else Ok (mkL1BatchInfo batchN l1BlockN (BytesToHash (take 32 v)) (BytesToHash (take 32 (drop 32 v)))
             (BytesToHash (drop 64 v))).

Definition getByL1Block (t : string) (l1BlockNo : Z) (tx : T) : outcome (option L1BatchInfo) :=
  scan fuel t (fun k v _ =>
    lb ← SplitKey k;
    if fst lb =? l1BlockNo then i ← parseL1BatchInfo (fst lb) (snd lb) v; Ok (Break (Some i))
    else Ok (Continue None)) None tx.

Definition getByBatchNo (t : string) (batchNo : Z) (tx : T) : outcome (option L1BatchInfo) :=
  scan fuel t (fun k v _ =>
    lb ← SplitKey k;
    if snd lb =? batchNo then i ← parseL1BatchInfo (fst lb) (snd lb) v; Ok (Break (Some i))
    else Ok (Continue None)) None tx.

Definition GetSequenceByBatchNo (batchNo : Z) (tx : T) : outcome (option L1BatchInfo) :=
  getByBatchNo L1SEQUENCES batchNo tx.
Definition GetVerificationByBatchNo (batchNo : Z) (tx : T) : outcome (option L1BatchInfo) :=
  getByBatchNo L1VERIFICATIONS batchNo tx.

(** The variables of the loop: L1 block, batch, value. *)
Definition getLatest (t : string) (tx : T) : outcome (option L1BatchInfo) :=
  s ← scan fuel t (fun k v (s : Z * Z * list Z) =>
        lb ← SplitKey k;
        Ok (Continue (if snd (fst s) <? snd lb then (fst lb, snd lb, v) else s))) (0, 0, []) tx;
  let '(l1BlockNo, batchNo, value) := s : Z * Z * list Z in
  match value with
  | [] => Ok None
  | _ => i ← parseL1BatchInfo l1BlockNo batchNo value; Ok (Some i)
  end.

Definition GetLatestSequence (tx : T) : outcome (option L1BatchInfo) := getLatest L1SEQUENCES tx.
Definition GetLatestVerification (tx : T) : outcome (option L1BatchInfo) := getLatest L1VERIFICATIONS tx.

Definition GetSequenceByBatchNoOrHighest (batchNo : Z) (tx : T) : outcome (option L1BatchInfo) :=
  seq ← GetSequenceByBatchNo batchNo tx;
  match seq with
  | Some s => Ok (Some s)
  | None =>
      scanFrom fuel L1SEQUENCES (Uint64ToBytes batchNo) (fun k v _ =>
        lb ← SplitKey k;
        if batchNo <? snd lb then i ← parseL1BatchInfo (fst lb) (snd lb) v; Ok (Break (Some i))
        else Ok (Continue None)) None tx
  end.

Definition WriteSequence (l1BlockNo batchNo : Z) (l1TxHash stateRoot l1InfoRoot : list Z) (tx : T) : outcome T :=
  tx_Put L1SEQUENCES (ConcatKey l1BlockNo batchNo) (l1TxHash ++ stateRoot ++ l1InfoRoot) tx.

Definition WriteVerification (l1BlockNo batchNo : Z) (l1TxHash stateRoot : list Z) (tx : T) : outcome T :=
  tx_Put L1VERIFICATIONS (ConcatKey l1BlockNo batchNo) (l1TxHash ++ stateRoot) tx.

(** The loop deletes an entry in each round, so the bound on the entries is fuel enough. *)
Fixpoint rollbackLoop (n : nat) (batchNo : Z) (tx : T) : outcome T :=
  latest ← GetLatestSequence tx;
  match latest with
  | None => Ok tx
  | Some s =>
      if BatchNo s <=? batchNo then Ok tx
      else
        match n with
        | O => Panic
        | S n =>
            tx ← tx_Delete L1SEQUENCES (ConcatKey (L1BlockNo s) (BatchNo s)) tx;
            rollbackLoop n batchNo tx
        end
  end.

Definition RollbackSequences (batchNo : Z) (tx : T) : outcome T := rollbackLoop fuel batchNo tx.

(** [for i := latest; i > batchNo; i--]: one entry of each batch number is deleted. *)
Fixpoint truncateLoop (n : nat) (t : string) (i batchNo : Z) (tx : T) : outcome T :=
  if batchNo <? i then
    match n with
    | O => Panic
    | S n =>
        s ← getByBatchNo t i tx;
        tx ← (match s with
              | None => Ok tx
              | Some s => tx_Delete t (ConcatKey (L1BlockNo s) (BatchNo s)) tx
              end) : outcome T;
        truncateLoop n t (u64 (i - 1)) batchNo tx
    end
  else Ok tx.

Definition truncate (t : string) (l2BlockNo : Z) (tx : T) : outcome T :=
  batchNo ← (match GetBatchNoByL2Block l2BlockNo tx with
             | Err e => if decide (e = ErrorNotStored) then Ok 0 else Err e
             | r => r
             end) : outcome Z;
  if batchNo =? 0 then Ok tx
  else
    latest ← getLatest t tx;
    match latest with
    | None => Ok tx
    | Some s =>
        if BatchNo s <=? batchNo then Ok tx
        else truncateLoop (Z.to_nat (BatchNo s - batchNo)) t (BatchNo s) batchNo tx
    end.

Definition TruncateSequences (l2BlockNo : Z) (tx : T) : outcome T := truncate L1SEQUENCES l2BlockNo tx.
Definition TruncateVerifications (l2BlockNo : Z) (tx : T) : outcome T := truncate L1VERIFICATIONS l2BlockNo tx.

Context `{!KvLaws T}.

(** ** Numbers as keys and values *)

Definition uint64 (n : Z) : Prop := 0 <= n < 2 ^ 64.

Lemma BytesToUint64_U n : uint64 n -> BytesToUint64 (Uint64ToBytes n) = n.
Proof. intros Hn. unfold Uint64ToBytes. rewrite <- (app_nil_r (be_encode 8 n)). by apply BytesToUint64_encode. Qed.

Lemma Uint64ToBytes_inj a b : uint64 a -> uint64 b -> Uint64ToBytes a = Uint64ToBytes b -> a = b.
Proof. intros Ha Hb Heq. by rewrite <- (BytesToUint64_U a), Heq, BytesToUint64_U. Qed.

Lemma Uint64ToBytes_length n : length (Uint64ToBytes n) = 8%nat.
Proof. apply be_encode_length. Qed.

Lemma Uint64ToBytes_lt a b : uint64 a -> uint64 b -> bytes_ltb (Uint64ToBytes a) (Uint64ToBytes b) = (a <? b).
Proof. intros Ha Hb. by apply bytes_ltb_encode. Qed.

Lemma concatenate_length bs : length (concatenateBlockNumbers bs) = (length bs * 8)%nat.
Proof.
  unfold concatenateBlockNumbers. induction bs as [|b bs IH]; [done|]. cbn [map concat length].
  rewrite length_app, Uint64ToBytes_length, IH. lia.
Qed.

Lemma parse_concatenate bs : Forall uint64 bs ->
  parseConcatenatedBlockNumbers (concatenateBlockNumbers bs) = bs.
Proof.
  intros Hbs. unfold parseConcatenatedBlockNumbers. rewrite concatenate_length, Nat.div_mul by lia.
  induction Hbs as [|b bs Hb _ IH]; [done|]. cbn [length seq map].
  change (concatenateBlockNumbers (b :: bs)) with (Uint64ToBytes b ++ concatenateBlockNumbers bs).
  f_equal.
  - rewrite drop_0, take_app_length' by (by rewrite Uint64ToBytes_length). by apply BytesToUint64_U.
  - rewrite <- seq_shift, map_map. rewrite <- IH at 2. apply map_ext. intros i.
    rewrite drop_app_ge by (rewrite Uint64ToBytes_length; lia). rewrite Uint64ToBytes_length.
    by replace (S i * 8 - 8)%nat with (i * 8)%nat by lia.
Qed.

Lemma concatenate_snoc bs b : concatenateBlockNumbers (bs ++ [b]) = concatenateBlockNumbers bs ++ Uint64ToBytes b.
Proof.
  unfold concatenateBlockNumbers. rewrite map_app, concat_app. simpl map. cbn [concat]. by rewrite app_nil_r.
Qed.

Lemma concatenate_nil bs : concatenateBlockNumbers bs = [] -> bs = [].
Proof. intros Hbs. pose proof (concatenate_length bs) as Hl. rewrite Hbs in Hl. by destruct bs. Qed.

(** ** The block tables implement a map from blocks to batches *)

(** The list of blocks of each batch, as it is stored. *)
Definition stored_blocks (bs : list Z) : option (list Z) :=
  match bs with [] => None | _ => Some (concatenateBlockNumbers bs) end.

Definition batch_lists (tx : T) (f : Z -> list Z) : Prop :=
  forall n, uint64 n -> tx_table tx BATCH_BLOCKS !! Uint64ToBytes n = stored_blocks (f n).

(** The lists hold the blocks of the map, each once. *)
Definition lists_of (idx : gmap Z Z) (f : Z -> list Z) : Prop :=
  forall n, uint64 n -> NoDup (f n) /\ forall b, b ∈ f n <-> idx !! b = Some n.

Record block_index (tx : T) (idx : gmap Z Z) : Prop := {
  index_range b n : idx !! b = Some n -> uint64 b /\ uint64 n;
  index_blocks k v : tx_table tx BLOCKBATCHES !! k = Some v <->
    exists b n, idx !! b = Some n /\ k = Uint64ToBytes b /\ v = Uint64ToBytes n;
  index_batches : exists f, batch_lists tx f /\ lists_of idx f;
}.

Lemma index_block tx idx b : block_index tx idx -> uint64 b ->
  tx_table tx BLOCKBATCHES !! Uint64ToBytes b = Uint64ToBytes <$> idx !! b.
Proof.
  intros Hi Hb. apply option_eq. intros v. rewrite (index_blocks _ _ Hi), fmap_Some. split.
  - intros (b' & n & Hb' & Heq & ->). apply (index_range _ _ Hi) in Hb' as Hr.
    apply Uint64ToBytes_inj in Heq as <-; [|done|apply Hr]. eauto.
  - intros (n & Hn & ->). eauto.
Qed.

Lemma stored_default bs : default [] (stored_blocks bs) = concatenateBlockNumbers bs.
Proof. by destruct bs. Qed.

Lemma lists_uint64 tx idx f n : block_index tx idx -> lists_of idx f -> uint64 n -> Forall uint64 (f n).
Proof.
  intros Hi Hf Hn. apply Forall_forall. intros b Hb. apply Hf in Hb; [|done].
  by destruct (index_range _ _ Hi _ _ Hb).
Qed.

Lemma GetL2BlockNos_ok tx idx f n : block_index tx idx -> batch_lists tx f -> lists_of idx f -> uint64 n ->
  GetL2BlockNosByBatch n tx = Ok (f n).
Proof.
  intros Hi Hb Hf Hn. unfold GetL2BlockNosByBatch. rewrite law_GetOne, bind_ok, Hb, stored_default by done.
  by rewrite parse_concatenate by (by eapply lists_uint64).
Qed.

(** *** Writing *)

Lemma existsb_eqb b bs : existsb (fun b' => b' =? b) bs = bool_decide (b ∈ bs).
Proof.
  induction bs as [|x bs IH]; [done|]. cbn [existsb]. rewrite IH.
  destruct (Z.eqb_spec x b) as [->|Hne]; simpl.
  - symmetry. apply bool_decide_eq_true. left.
  - apply bool_decide_ext. rewrite elem_of_cons. split; [by right|]. by intros [->|?].
Qed.

Lemma lists_insert idx f b n : lists_of idx f -> uint64 n -> idx !! b = None ->
  lists_of (<[b := n]> idx) (fun n' => if decide (n' = n) then f n ++ [b] else f n').
Proof.
  intros Hf Hn Hb n' Hn'. case_decide as Heq.
  - subst n'. destruct (Hf n Hn) as [Hnd Hbs]. split.
    + apply NoDup_app. split; [done|]. split; [|apply NoDup_singleton]. intros x Hx ->%list_elem_of_singleton.
      apply Hbs in Hx. congruence.
    + intros b'. rewrite elem_of_app, list_elem_of_singleton, Hbs, lookup_insert_Some.
      destruct (decide (b = b')) as [->|Hne].
      * split; [by left|by right].
      * split; [intros [?| ->]; [by right|done]|intros [[? _]|[_ ?]]; [done|by left]].
  - destruct (Hf n' Hn') as [Hnd Hbs]. split; [done|]. intros b'. rewrite Hbs, lookup_insert_Some.
    split; [intros Hb'; right; split; [congruence|done]|intros [[_ ?]|[_ ?]]; [congruence|done]].
Qed.

Lemma index_insert tx' tx idx b n : block_index tx idx -> uint64 b -> uint64 n ->
  tx_table tx' BLOCKBATCHES = <[Uint64ToBytes b := Uint64ToBytes n]> (tx_table tx BLOCKBATCHES) ->
  forall k v, tx_table tx' BLOCKBATCHES !! k = Some v <->
    exists b' n', <[b := n]> idx !! b' = Some n' /\ k = Uint64ToBytes b' /\ v = Uint64ToBytes n'.
Proof.
  intros Hi Hb Hn -> k v. rewrite lookup_insert_Some, (index_blocks _ _ Hi). split.
  - intros [[<- <-]|(Hne & b' & n' & Hb' & -> & ->)].
    + exists b, n. by rewrite lookup_insert_eq.
    + exists b', n'. rewrite lookup_insert_ne; [done|]. congruence.
  - intros (b' & n' & Hb' & -> & ->). apply lookup_insert_Some in Hb' as [[-> ->]|[Hne Hb']]; [by left|].
    right. split; [|eauto]. intros Heq. apply Hne. eapply Uint64ToBytes_inj; [done| |done].
    by destruct (index_range _ _ Hi _ _ Hb').
Qed.

Lemma WriteBlockBatch_ok tx idx b n : block_index tx idx -> uint64 b -> uint64 n ->
  idx !! b = None \/ idx !! b = Some n ->
  exists tx', WriteBlockBatch b n tx = Ok tx' /\ block_index tx' (<[b := n]> idx) /\
    forall t, t <> BLOCKBATCHES -> t <> BATCH_BLOCKS -> tx_table tx' t = tx_table tx t.
Proof.
  intros Hi Hb Hn Hidx. destruct (index_batches _ _ Hi) as (f & Hbl & Hlf). unfold WriteBlockBatch.
  destruct (law_Put BLOCKBATCHES (Uint64ToBytes b) (Uint64ToBytes n) tx) as (tx1 & -> & Ht1).
  rewrite bind_ok, law_GetOne, bind_ok. rewrite Ht1, decide_False by done.
  rewrite Hbl, stored_default by done. rewrite parse_concatenate, existsb_eqb by (by eapply lists_uint64).
  pose proof (Ht1 BLOCKBATCHES) as Hblocks. rewrite decide_True in Hblocks by done.
  assert (forall b' n', <[b := n]> idx !! b' = Some n' -> uint64 b' /\ uint64 n') as Hr.
  { intros b' n' [[<- <-]|[_ Hb']]%lookup_insert_Some; [done|by apply (index_range _ _ Hi)]. }
  case_bool_decide as Hin.
  - apply Hlf in Hin; [|done]. exists tx1. split; [done|]. split.
    + split; [exact Hr|by apply (index_insert _ tx)|]. exists f. rewrite insert_id by done.
      split; [|done]. intros n' Hn'. rewrite Ht1, decide_False by done. by apply Hbl.
    + intros t Ht _. by rewrite Ht1, decide_False.
  - assert (idx !! b = None) as Hnone.
    { destruct Hidx as [?|Hs]; [done|]. destruct Hin. by apply Hlf. }
    destruct (law_Put BATCH_BLOCKS (Uint64ToBytes n) (concatenateBlockNumbers (f n) ++ Uint64ToBytes b) tx1)
      as (tx2 & -> & Ht2). exists tx2. split; [done|]. split.
    + split; [exact Hr| |].
      * apply (index_insert _ tx); [done..|]. by rewrite Ht2, decide_False.
      * eexists. split; [|by apply lists_insert]. intros n' Hn'. rewrite Ht2, decide_True by done.
        rewrite Ht1, decide_False by done. case_decide as Heq.
        -- subst n'. rewrite lookup_insert_eq, <- concatenate_snoc. by destruct (f n).
        -- rewrite lookup_insert_ne; [by apply Hbl|]. intros He. by apply Uint64ToBytes_inj in He.
    + intros t Ht Ht'. rewrite Ht2, decide_False by done. by rewrite Ht1, decide_False.
Qed.

(** *** Reading *)

(** What the seek in [GetBatchNoByL2Block] stops at. *)
Lemma seek_block tx idx b : block_index tx idx -> uint64 b ->
  match idx !! b with
  | Some n => tx_Seek BLOCKBATCHES (Uint64ToBytes b) tx = Ok (Some (Uint64ToBytes b, Uint64ToBytes n))
  | None =>
      (exists b' n', b < b' /\ idx !! b' = Some n' /\
         tx_Seek BLOCKBATCHES (Uint64ToBytes b) tx = Ok (Some (Uint64ToBytes b', Uint64ToBytes n'))) \/
      ((forall b' n', idx !! b' = Some n' -> b' < b) /\ tx_Seek BLOCKBATCHES (Uint64ToBytes b) tx = Ok None)
  end.
Proof.
  intros Hi Hb. rewrite law_Seek. pose proof (index_block _ _ _ Hi Hb) as Hk.
  destruct (idx !! b) as [n|] eqn:Hidx; simpl in Hk; [by rewrite (seek_found _ _ _ Hk)|].
  destruct (head _) as [e|] eqn:Hh; [left|right].
  - apply seek_missing in Hh as [He Hlt]; [|done]. destruct e as [k v]. apply elem_of_entries in He.
    apply (index_blocks _ _ Hi) in He as (b' & n' & Hb' & -> & ->). exists b', n'.
    cbn [fst] in Hlt. rewrite Uint64ToBytes_lt in Hlt by (done || by destruct (index_range _ _ Hi _ _ Hb')).
    apply Z.ltb_lt in Hlt. done.
  - split; [|done]. intros b' n' Hb'. destruct (index_range _ _ Hi _ _ Hb') as [Hr _].
    assert (tx_table tx BLOCKBATCHES !! Uint64ToBytes b' = Some (Uint64ToBytes n')) as Hs
      by (apply (index_blocks _ _ Hi); eauto).
    pose proof (seek_end _ _ Hh _ _ Hs) as Hlt. rewrite Uint64ToBytes_lt in Hlt by done. by apply Z.ltb_lt in Hlt.
Qed.

Lemma GetBatchNo_ok tx idx b : block_index tx idx -> uint64 b ->
  GetBatchNoByL2Block b tx =
    match idx !! b with
    | Some n => Ok n
    | None => match filter (fun bn => b < fst bn) (map_to_list idx) with [] => Err ErrorNotStored | _ => Ok 0 end
    end /\
  CheckBatchNoByL2Block b tx = Ok (default 0 (idx !! b), bool_decide (is_Some (idx !! b))).
Proof.
  intros Hi Hb. pose proof (seek_block _ _ _ Hi Hb) as Hs.
  unfold GetBatchNoByL2Block, CheckBatchNoByL2Block. destruct (idx !! b) as [n|] eqn:Hidx.
  - rewrite Hs, !bind_ok, !BytesToUint64_U by (done || by destruct (index_range _ _ Hi _ _ Hidx)).
    rewrite Z.eqb_refl. done.
  - destruct Hs as [(b' & n' & Hlt & Hb' & ->)|[Hall ->]]; rewrite !bind_ok.
    + rewrite BytesToUint64_U by (by destruct (index_range _ _ Hi _ _ Hb')).
      rewrite (proj2 (Z.eqb_neq b' b)) by lia. split; [|done].
      assert ((b', n') ∈ filter (fun bn => b < fst bn) (map_to_list idx)) as Hin
        by (apply list_elem_of_filter; split; [done|by apply elem_of_map_to_list]).
      destruct (filter _ _); [by apply not_elem_of_nil in Hin|done].
    + split; [|done]. destruct (filter _ _) as [|[b' n'] l] eqn:Hfil; [done|]. exfalso.
      assert ((b', n') ∈ filter (fun bn => b < fst bn) (map_to_list idx)) as Hin by (rewrite Hfil; left).
      apply list_elem_of_filter in Hin as [Hlt Hin]. apply elem_of_map_to_list in Hin. apply Hall in Hin. simpl in *. lia.
Qed.

(** *** Unwinding *)

Lemma gather_ok tx idx to : block_index tx idx -> 0 <= to < 2 ^ 64 - 1 -> forall n i batches,
  0 <= i -> (Z.to_nat (to - i + 1) <= n)%nat -> exists batches', gatherBatches n i to batches tx = Ok batches' /\
    batches ⊆ batches' /\ (forall b nb, i <= b <= to -> idx !! b = Some nb -> nb ∈ batches') /\
    (forall x, x ∈ batches' -> x ∈ batches \/ uint64 x).
Proof.
  intros Hi Hto. induction n as [|n IH]; intros i batches Hi0 Hn; cbn [gatherBatches];
    (destruct (Z.leb_spec i to) as [Hle|Hgt]; [try lia|exists batches; split; [done|]; split; [done|]; split;
      [intros; lia|by left]]).
  destruct (GetBatchNo_ok tx idx i Hi ltac:(unfold uint64; lia)) as [-> _].
  assert (exists nb, match (match idx !! i with
      | Some n => Ok n
      | None => match filter (fun bn => i < fst bn) (map_to_list idx) with [] => Err ErrorNotStored | _ => Ok 0 end
      end) with Err e => if decide (e = ErrorNotStored) then Ok 0 else Err e | r => r end = Ok nb /\ uint64 nb /\
      forall nb', idx !! i = Some nb' -> nb' = nb) as (nb & -> & Hnb & Hidx).
  { destruct (idx !! i) as [nb|] eqn:He.
    - exists nb. split; [done|]. split; [by destruct (index_range _ _ Hi _ _ He)|]. by intros ? [= ->].
    - exists 0. split; [by destruct (filter _ _)|]. split; [done|]. done. }
  rewrite bind_ok, u64_small by lia.
  destruct (IH (i + 1) ({[nb]} ∪ batches)) as (batches' & Hg & Hsub & Hall & Hr); [lia..|].
  exists batches'. split; [exact Hg|]. split; [set_solver|]. split.
  - intros b nb' Hb Hnb'. destruct (decide (b = i)) as [->|]; [|apply (Hall b); [lia|done]].
    rewrite (Hidx _ Hnb'). set_solver.
  - intros x Hx. destruct (Hr x Hx) as [[->%elem_of_singleton|?]%elem_of_union|?]; auto.
Qed.

Section range.
Context (from to : Z).

Definition keep (bs : list Z) : list Z := filter (fun b => (b <? from) || (to <? b) = true) bs.

Lemma removeBlocks_ok tx f n : batch_lists tx f -> Forall uint64 (f n) -> uint64 n ->
  exists tx', removeBlocks from to n tx = Ok tx' /\
    (forall t, t <> BATCH_BLOCKS -> tx_table tx' t = tx_table tx t) /\
    batch_lists tx' (fun n' => if decide (n' = n) then keep (f n) else f n').
Proof.
  intros Hbl Hu Hn. unfold removeBlocks. rewrite law_GetOne, bind_ok, Hbl, stored_default, parse_concatenate by done.
  fold (keep (f n)). destruct (concatenateBlockNumbers (keep (f n))) as [|x l] eqn:Hc.
  - apply concatenate_nil in Hc. destruct (law_Delete BATCH_BLOCKS (Uint64ToBytes n) tx) as (tx1 & -> & Ht).
    exists tx1. split; [done|]. split; [intros t Hne; by rewrite Ht, decide_False|].
    intros n' Hn'. rewrite Ht, decide_True by done. case_decide as Heq.
    + subst. by rewrite lookup_delete_eq, Hc.
    + rewrite lookup_delete_ne; [by apply Hbl|]. intros He. by apply Uint64ToBytes_inj in He.
  - rewrite <- Hc.
    destruct (law_Put BATCH_BLOCKS (Uint64ToBytes n) (concatenateBlockNumbers (keep (f n))) tx) as (tx1 & -> & Ht).
    exists tx1. split; [done|]. split; [intros t Hne; by rewrite Ht, decide_False|].
    intros n' Hn'. rewrite Ht, decide_True by done. case_decide as Heq.
    + subst. rewrite lookup_insert_eq. by destruct (keep (f n)).
    + rewrite lookup_insert_ne; [by apply Hbl|]. intros He. by apply Uint64ToBytes_inj in He.
Qed.

Lemma keep_keep bs : keep (keep bs) = keep bs.
Proof.
  unfold keep. rewrite list_filter_filter. apply list_filter_iff. tauto.
Qed.

Lemma removeFromBatches_ok ns : forall tx f, batch_lists tx f -> (forall n, uint64 n -> Forall uint64 (f n)) ->
  Forall uint64 ns ->
  exists tx', removeFromBatches from to ns tx = Ok tx' /\
    (forall t, t <> BATCH_BLOCKS -> tx_table tx' t = tx_table tx t) /\
    batch_lists tx' (fun n => if decide (n ∈ ns) then keep (f n) else f n).
Proof.
  induction ns as [|n ns IH]; intros tx f Hbl Hu Hns.
  { exists tx. split; [done|]. split; [done|]. intros n Hn. rewrite decide_False by apply not_elem_of_nil. by apply Hbl. }
  apply Forall_cons in Hns as [Hn Hns]. cbn [removeFromBatches].
  destruct (removeBlocks_ok tx f n Hbl (Hu n Hn) Hn) as (tx1 & -> & Ho1 & Hbl1). rewrite bind_ok.
  destruct (IH tx1 _ Hbl1) as (tx2 & Hr & Ho2 & Hbl2); [|done|].
  { intros n' Hn'. case_decide; [|by apply Hu]. apply Forall_forall. intros b [_ Hb]%list_elem_of_filter.
    specialize (Hu n Hn). rewrite Forall_forall in Hu. auto. }
  exists tx2. split; [exact Hr|]. split; [intros t Ht; by rewrite Ho2, Ho1|].
  intros n' Hn'. rewrite Hbl2 by done. f_equal. destruct (decide (n' = n)) as [->|Hne].
  - rewrite (decide_True (P := n ∈ n :: ns)) by left. by case_decide; rewrite ?keep_keep.
  - destruct (decide (n' ∈ ns)) as [Hin|Hin]; [by rewrite decide_True by (by right)|].
    rewrite decide_False; [done|]. by intros [?|?]%elem_of_cons.
Qed.

(** What is left of the map. *)
Definition unwound (idx : gmap Z Z) : gmap Z Z :=
  filter (fun bn => (fst bn <? from) || (to <? fst bn) = true) idx.

Lemma unwound_Some idx b n : unwound idx !! b = Some n <-> idx !! b = Some n /\ (b < from \/ to < b).
Proof.
  unfold unwound. rewrite map_lookup_filter_Some. cbn [fst]. by rewrite orb_true_iff, !Z.ltb_lt.
Qed.

Lemma lists_unwound idx f (S : gset Z) (ns : list Z) : lists_of idx f -> (forall n, n ∈ ns <-> n ∈ S) ->
  (forall b n, from <= b <= to -> idx !! b = Some n -> n ∈ S) ->
  lists_of (unwound idx) (fun n => if decide (n ∈ ns) then keep (f n) else f n).
Proof.
  intros Hf Hns Hall n Hn. destruct (Hf n Hn) as [Hnd Hbs]. case_decide as Hin.
  - split; [by apply NoDup_filter|]. intros b. unfold keep. rewrite list_elem_of_filter, Hbs, unwound_Some.
    rewrite orb_true_iff, !Z.ltb_lt. tauto.
  - split; [done|]. intros b. rewrite Hbs, unwound_Some. split; [|tauto]. intros Hb. split; [done|].
    destruct (decide (from <= b <= to)) as [Hr|]; [|lia]. destruct Hin. apply Hns. eauto.
Qed.

Lemma DeleteBlockBatches_ok tx idx order : block_index tx idx -> 0 <= from -> 0 <= to < 2 ^ 64 - 1 ->
  (forall (S : gset Z) n, n ∈ order S <-> n ∈ S) ->
  exists tx', DeleteBlockBatches order from to tx = Ok tx' /\ block_index tx' (unwound idx) /\
    forall t, t <> BLOCKBATCHES -> t <> BATCH_BLOCKS -> tx_table tx' t = tx_table tx t.
Proof.
  intros Hi Hfrom Hto Horder. destruct (index_batches _ _ Hi) as (f & Hbl & Hlf). unfold DeleteBlockBatches.
  destruct (gather_ok tx idx to Hi Hto (Z.to_nat (to - from + 1)) from ∅ Hfrom) as (S & -> & _ & Hall & Hr); [done|].
  rewrite bind_ok. destruct (removeFromBatches_ok (order S) tx f Hbl) as (tx1 & -> & Ho1 & Hbl1).
  { intros n Hn. by eapply lists_uint64. }
  { apply Forall_forall. intros n Hn%Horder. destruct (Hr n Hn) as [?%not_elem_of_empty|?]; done. }
  rewrite bind_ok. unfold deleteFromBucketWithUintKeysRange.
  destruct (countUp_delete BLOCKBATCHES Uint64ToBytes to Hto (Z.to_nat (to - from + 1)) from tx1 Hfrom)
    as (tx2 & Hc & Ho2 & Htab); [done|].
  exists tx2. split; [exact Hc|]. split; [|intros t Ht Ht'; by rewrite Ho2, Ho1].
  split.
  - intros b n [Hb _]%unwound_Some. by apply (index_range _ _ Hi).
  - intros k v. rewrite Htab, Ho1, (index_blocks _ _ Hi) by done. split.
    + intros [(b & n & Hb & -> & ->) Hne]. exists b, n. rewrite unwound_Some. split; [|done]. split; [done|].
      destruct (decide (from <= b <= to)) as [Hin|]; [by destruct (Hne b Hin)|lia].
    + intros (b & n & [Hb Hout]%unwound_Some & -> & ->). split; [eauto|]. intros j Hj He.
      destruct (index_range _ _ Hi _ _ Hb) as [Hub _]. apply Uint64ToBytes_inj in He; [lia|unfold uint64; lia|done].
  - eexists. split; [|by eapply lists_unwound]. intros n Hn. rewrite Ho2 by done. by apply Hbl1.
Qed.
End range.

(** *** The highest and the lowest block *)

Lemma foldl_max bs : forall m, let r := foldl (fun max block => if max <? block then block else max) m bs in
  m <= r /\ Forall (fun b => b <= r) bs /\ (r = m \/ r ∈ bs).
Proof.
  induction bs as [|b bs IH]; intros m; [by split; [|split; [|left]]|]. cbn [foldl].
  destruct (Z.ltb_spec m b); [destruct (IH b) as (H1 & H2 & H3)|destruct (IH m) as (H1 & H2 & H3)];
    (split; [lia|]; split; [constructor; [lia|done]|]).
  - right. destruct H3 as [->|?]; [left|by right].
  - destruct H3 as [->|?]; [by left|right; by right].
Qed.

Lemma foldl_min bs : Forall (fun b => 0 < b) bs -> forall m, 0 <= m ->
  let r := foldl (fun min block => if (block <? min) || (min =? 0) then block else min) m bs in
  (bs <> [] \/ 0 < m -> 0 < r) /\ (0 < m -> r <= m) /\ Forall (fun b => r <= b) bs /\ (r = m \/ r ∈ bs).
Proof.
  induction 1 as [|b bs Hb _ IH]; intros m Hm.
  { split; [intros [?|?]; done|]. split; [done|]. split; [done|by left]. }
  cbn [foldl]. destruct ((b <? m) || (m =? 0)) eqn:Hc.
  - apply orb_true_iff in Hc. rewrite Z.ltb_lt, Z.eqb_eq in Hc. destruct (IH b) as (H1 & H2 & H3 & H4); [lia|].
    split; [intros _; apply H1; by right|]. split; [intros; specialize (H2 Hb); lia|].
    split; [constructor; [by apply H2|done]|]. right. destruct H4 as [->|?]; [left|by right].
  - apply orb_false_iff in Hc. rewrite Z.ltb_ge, Z.eqb_neq in Hc. destruct (IH m) as (H1 & H2 & H3 & H4); [lia|].
    split; [intros _; apply H1; right; lia|]. split; [done|].
    split; [constructor; [specialize (H2 ltac:(lia)); lia|done]|]. destruct H4 as [->|?]; [by left|right; by right].
Qed.

(** ** Sequences *)

Definition l1Of (k : list Z) : Z := BytesToUint64 (take 8 k).
Definition batchOf (k : list Z) : Z := BytesToUint64 (drop 8 k).

(** A table of sequences or verifications. *)
Definition batch_table (m : table) : Prop := forall k v, m !! k = Some v ->
  (exists l b, uint64 l /\ uint64 b /\ k = ConcatKey l b) /\ (length v = 96 \/ length v = 64)%nat.

Lemma key_parts l b : uint64 l -> uint64 b -> l1Of (ConcatKey l b) = l /\ batchOf (ConcatKey l b) = b /\
  SplitKey (ConcatKey l b) = Ok (l, b).
Proof.
  intros Hl Hb. unfold l1Of, batchOf, SplitKey, ConcatKey.
  rewrite length_app, !be_encode_length, take_app_length', drop_app_length' by (by rewrite be_encode_length).
  change (be_encode 8 l) with (Uint64ToBytes l). change (be_encode 8 b) with (Uint64ToBytes b).
  by rewrite !BytesToUint64_U.
Qed.

Lemma batch_table_key m k v : batch_table m -> m !! k = Some v ->
  SplitKey k = Ok (l1Of k, batchOf k) /\ ConcatKey (l1Of k) (batchOf k) = k /\ uint64 (batchOf k) /\
  exists i, parseL1BatchInfo (l1Of k) (batchOf k) v = Ok i /\ BatchNo i = batchOf k /\ L1BlockNo i = l1Of k.
Proof.
  intros Hm Hk. destruct (Hm k v Hk) as [(l & b & Hl & Hb & ->) Hv].
  destruct (key_parts l b Hl Hb) as (-> & -> & ->). split; [done|]. split; [done|]. split; [done|].
  unfold parseL1BatchInfo. by destruct Hv as [-> | ->]; eexists.
Qed.

Lemma batch_table_delete m k : batch_table m -> batch_table (delete k m).
Proof. intros Hm k' v [_ Hk']%lookup_delete_Some. by apply Hm. Qed.

Section batches.
Context (t : string).

Lemma latest_walk m l : batch_table m -> (forall k v, (k, v) ∈ l -> m !! k = Some v) -> forall s,
  exists s', walk (fun k v (s : Z * Z * list Z) => lb ← SplitKey k;
      Ok (Continue (if snd (fst s) <? snd lb then (fst lb, snd lb, v) else s))) l s = Ok s' /\
    snd (fst s) <= snd (fst s') /\ (forall k v, (k, v) ∈ l -> batchOf k <= snd (fst s')) /\
    (s' = s \/ exists k v, (k, v) ∈ l /\ s' = (l1Of k, batchOf k, v) /\ snd (fst s) < batchOf k).
Proof.
  intros Hm. induction l as [|[k v] l IH]; intros Hl s.
  { exists s. split; [done|]. split; [done|]. split; [|by left]. intros k v Hin. by apply not_elem_of_nil in Hin. }
  cbn [walk]. destruct (batch_table_key m k v Hm (Hl k v ltac:(left))) as (-> & _). rewrite !bind_ok. cbn [fst snd].
  destruct (Z.ltb_spec (snd (fst s)) (batchOf k)) as [Hlt|Hge].
  - destruct (IH ltac:(intros; apply Hl; by right) (l1Of k, batchOf k, v)) as (s' & Hw & Hle & Hall & Hcase).
    cbn [fst snd] in Hle, Hcase. exists s'. split; [exact Hw|]. split; [lia|]. split.
    + intros k' v' [[= -> ->]|Hin]%elem_of_cons; [done|by eapply Hall].
    + right. destruct Hcase as [->|(k' & v' & Hin & -> & Hlt')].
      * exists k, v. split; [left|]. done.
      * exists k', v'. split; [by right|]. split; [done|lia].
  - destruct (IH ltac:(intros; apply Hl; by right) s) as (s' & Hw & Hle & Hall & Hcase).
    exists s'. split; [exact Hw|]. split; [done|]. split.
    + intros k' v' [[= -> ->]|Hin]%elem_of_cons; [lia|by eapply Hall].
    + destruct Hcase as [->|(k' & v' & Hin & -> & Hlt')]; [by left|]. right. exists k', v'. split; [by right|done].
Qed.

Lemma getLatest_ok tx : batch_table (tx_table tx t) -> (size (tx_table tx t) <= fuel)%nat ->
  (exists i k v, getLatest t tx = Ok (Some i) /\ tx_table tx t !! k = Some v /\
     ConcatKey (L1BlockNo i) (BatchNo i) = k /\ BatchNo i = batchOf k /\ 0 < BatchNo i /\
     forall k' v', tx_table tx t !! k' = Some v' -> batchOf k' <= BatchNo i) \/
  (getLatest t tx = Ok None /\ forall k' v', tx_table tx t !! k' = Some v' -> batchOf k' <= 0).
Proof.
  intros Hm Hf. unfold getLatest. rewrite scan_walk by done.
  destruct (latest_walk _ (entries (tx_table tx t)) Hm ltac:(intros; by apply elem_of_entries) (0, 0, []))
    as (s' & -> & Hle & Hall & Hcase).
  rewrite bind_ok. cbn [fst snd] in Hcase. destruct Hcase as [->|(k & v & Hin & -> & Hpos)].
  - right. split; [done|]. intros k' v' Hk'. by apply (Hall k' v'), elem_of_entries.
  - left. apply elem_of_entries in Hin. destruct (batch_table_key _ _ _ Hm Hin) as (_ & Hck & _ & i & Hp & Hb & Hl).
    exists i, k, v. cbn [fst snd] in Hall. rewrite Hp, Hb, Hl.
    split; [destruct (Hm _ _ Hin) as [_ [Hv|Hv]]; destruct v; done|].
    split; [done|]. split; [done|]. split; [done|]. split; [done|].
    intros k' v' Hk'. by apply (Hall k' v'), elem_of_entries.
Qed.
End batches.

(** *** Rollback *)

(** The entries above a batch number. *)
Definition above (batchNo : Z) (m : table) : table := filter (fun e => batchNo < batchOf (fst e)) m.

Lemma size_delete_above batchNo m k v : m !! k = Some v -> batchNo < batchOf k ->
  size (above batchNo m) = S (size (above batchNo (delete k m))).
Proof.
  intros Hk Hb. unfold above. rewrite map_filter_delete.
  assert (filter (fun e => batchNo < batchOf (fst e)) m !! k = Some v) as Hf by (by apply map_lookup_filter_Some).
  rewrite (map_size_delete_Some k) by done.
  pose proof (map_size_ne_0_lookup_2 _ k ltac:(eauto) : size (filter (fun e => batchNo < batchOf (fst e)) m) <> 0%nat). lia.
Qed.

Lemma rollbackLoop_ok batchNo : 0 <= batchNo -> forall n tx, batch_table (tx_table tx L1SEQUENCES) ->
  (size (tx_table tx L1SEQUENCES) <= fuel)%nat -> (size (above batchNo (tx_table tx L1SEQUENCES)) <= n)%nat ->
  exists tx', rollbackLoop n batchNo tx = Ok tx' /\
    (forall t, t <> L1SEQUENCES -> tx_table tx' t = tx_table tx t) /\
    forall k v, tx_table tx' L1SEQUENCES !! k = Some v <->
      tx_table tx L1SEQUENCES !! k = Some v /\ batchOf k <= batchNo.
Proof.
  intros H0. induction n as [|n IH]; intros tx Hm Hf Hn; cbn [rollbackLoop]; unfold GetLatestSequence;
    (destruct (getLatest_ok L1SEQUENCES tx Hm Hf) as [(i & k & v & -> & Hk & Hck & Hb & Hpos & Hmax)|[-> Hall]];
     rewrite bind_ok;
     [|exists tx; split; [done|]; split; [done|]; intros k v; split; [|tauto]; intros Hk; split; [done|];
       apply Hall in Hk; lia]);
    (destruct (Z.leb_spec (BatchNo i) batchNo) as [Hle|Hgt];
     [exists tx; split; [done|]; split; [done|]; intros k' v'; split; [|tauto]; intros Hk'; split; [done|];
       apply Hmax in Hk'; lia|]);
    pose proof (size_delete_above batchNo _ k v Hk ltac:(lia)) as Hsize; [lia|].
  rewrite Hck. destruct (law_Delete L1SEQUENCES k tx) as (tx1 & -> & Ht). rewrite bind_ok.
  pose proof (Ht L1SEQUENCES) as Hs. rewrite decide_True in Hs by done.
  destruct (IH tx1) as (tx2 & Hr & Ho & Htab); rewrite ?Hs.
  { by apply batch_table_delete. }
  { rewrite (map_size_delete_Some k) by eauto. lia. }
  { lia. }
  exists tx2. split; [exact Hr|]. split; [intros t Hne; by rewrite Ho, Ht, decide_False|].
  intros k' v'. rewrite Htab, Hs, lookup_delete_Some. split; [tauto|]. intros [Hk' Hle].
  split; [|done]. split; [|done]. intros <-. lia.
Qed.

(** *** Truncation *)

(** The first entry of its batch number. *)
Definition first_of_batch (m : table) (k : list Z) : Prop :=
  forall k' v', m !! k' = Some v' -> batchOf k' = batchOf k -> k' = k \/ bytes_ltb k k' = true.

Lemma find_batch_walk m l n : batch_table m -> (forall k v, (k, v) ∈ l -> m !! k = Some v) ->
  StronglySorted entry_lt l ->
  let r := walk (fun k v _ => lb ← SplitKey k;
    if snd lb =? n then i ← parseL1BatchInfo (fst lb) (snd lb) v; Ok (Break (Some i)) else Ok (Continue None)) l None in
  (exists i k v, r = Ok (Some i) /\ (k, v) ∈ l /\ ConcatKey (L1BlockNo i) (BatchNo i) = k /\ batchOf k = n /\
     forall k' v', (k', v') ∈ l -> batchOf k' = n -> k' = k \/ bytes_ltb k k' = true) \/
  (r = Ok None /\ forall k' v', (k', v') ∈ l -> batchOf k' <> n).
Proof.
  intros Hm Hl Hs r. subst r. induction Hs as [|[k v] l Hs IH Hlt].
  { right. split; [done|]. intros k v Hin. by apply not_elem_of_nil in Hin. }
  cbn [walk]. destruct (batch_table_key m k v Hm (Hl k v ltac:(left))) as (-> & Hck & _ & i & Hp & Hb & Hl1).
  rewrite !bind_ok. cbn [fst snd]. destruct (Z.eqb_spec (batchOf k) n) as [Heq|Hne].
  - left. rewrite Hp, !bind_ok. exists i, k, v. rewrite Hb, Hl1. split; [done|]. split; [left|]. split; [done|].
    split; [done|]. intros k' v' [[= -> ->]|Hin]%elem_of_cons _; [by left|right].
    rewrite Forall_forall in Hlt. by apply (Hlt (k', v')).
  - rewrite bind_ok. destruct IH as [(i' & k' & v' & -> & Hin & H1 & H2 & H3)|[-> Hall]].
    { intros k' v' Hin. apply Hl. by right. }
    + left. exists i', k', v'. split; [done|]. split; [by right|]. split; [done|]. split; [done|].
      intros k2 v2 [[= -> ->]|Hin2]%elem_of_cons Hk2; [done|by eapply H3].
    + right. split; [done|]. intros k' v' [[= -> ->]|Hin]%elem_of_cons; [done|by eapply Hall].
Qed.

Section truncate.
Context (t : string).

Lemma getByBatchNo_ok tx n : batch_table (tx_table tx t) -> (size (tx_table tx t) <= fuel)%nat ->
  (exists i k v, getByBatchNo t n tx = Ok (Some i) /\ tx_table tx t !! k = Some v /\
     ConcatKey (L1BlockNo i) (BatchNo i) = k /\ batchOf k = n /\ first_of_batch (tx_table tx t) k) \/
  (getByBatchNo t n tx = Ok None /\ forall k' v', tx_table tx t !! k' = Some v' -> batchOf k' <> n).
Proof.
  intros Hm Hf. unfold getByBatchNo. rewrite scan_walk by done.
  destruct (find_batch_walk _ (entries (tx_table tx t)) n Hm ltac:(intros; by apply elem_of_entries)
    (entries_sorted _)) as [(i & k & v & -> & Hin & H1 & H2 & H3)|[-> Hall]]; [left|right].
  - exists i, k, v. split; [done|]. split; [by apply elem_of_entries|]. split; [done|]. split; [done|].
    intros k' v' Hk' Hb'. apply (H3 k' v'); [by apply elem_of_entries|congruence].
  - split; [done|]. intros k' v' Hk'. by apply (Hall k' v'), elem_of_entries.
Qed.

Lemma first_of_batch_delete m k k2 v2 : m !! k = Some v2 -> batchOf k2 <> batchOf k ->
  first_of_batch (delete k m) k2 <-> first_of_batch m k2.
Proof.
  intros Hk Hne. split; intros Hf k' v' Hk' Hb'.
  - apply (Hf k' v'); [|done]. apply lookup_delete_Some. split; [congruence|done].
  - apply lookup_delete_Some in Hk' as [_ Hk']. by eapply Hf.
Qed.

Lemma truncateLoop_ok batchNo : 0 <= batchNo -> forall n i tx, i < 2 ^ 64 -> (Z.to_nat (i - batchNo) <= n)%nat ->
  batch_table (tx_table tx t) -> (size (tx_table tx t) <= fuel)%nat ->
  exists tx', truncateLoop n t i batchNo tx = Ok tx' /\
    (forall t', t' <> t -> tx_table tx' t' = tx_table tx t') /\
    forall k v, tx_table tx' t !! k = Some v <->
      tx_table tx t !! k = Some v /\ ~ (batchNo < batchOf k <= i /\ first_of_batch (tx_table tx t) k).
Proof.
  intros H0. induction n as [|n IH]; intros i tx Hi Hn Hm Hf; cbn [truncateLoop];
    (destruct (Z.ltb_spec batchNo i) as [Hlt|Hge];
     [try lia|exists tx; split; [done|]; split; [done|]; intros k v; split; [|tauto]; intros Hk; split; [done|];
       intros [? _]; lia]).
  destruct (getByBatchNo_ok tx i Hm Hf) as [(info & k & v & -> & Hk & Hck & Hb & Hfirst)|[-> Hall]]; rewrite bind_ok.
  - rewrite Hck. destruct (law_Delete t k tx) as (tx1 & -> & Ht). rewrite bind_ok, u64_small by lia.
    pose proof (Ht t) as Hs. rewrite decide_True in Hs by done.
    destruct (IH (i - 1) tx1) as (tx2 & Hr & Ho & Htab); [lia..| | |]; rewrite ?Hs.
    { by apply batch_table_delete. }
    { rewrite (map_size_delete_Some k) by eauto. lia. }
    exists tx2. split; [exact Hr|]. split; [intros t' Hne; by rewrite Ho, Ht, decide_False|].
    intros k' v'. rewrite Htab, Hs, lookup_delete_Some. split.
    + intros [[Hne Hk'] Hno]. split; [done|]. intros [Hr' Hf']. destruct (decide (batchOf k' = i)) as [He|He].
      * destruct (Hf' k v Hk ltac:(congruence)) as [?|Hlt1]; [congruence|].
        destruct (Hfirst k' v' Hk' ltac:(congruence)) as [?|Hlt2]; [congruence|].
        by rewrite (bytes_ltb_asym _ _ Hlt1) in Hlt2.
      * apply Hno. split; [lia|]. apply (first_of_batch_delete _ _ _ v Hk); [congruence|done].
    + intros [Hk' Hno]. assert (k' <> k) as Hne by (intros ->; apply Hno; split; [lia|done]).
      split; [done|]. intros [Hr' Hf']. apply Hno. split; [lia|].
      apply (first_of_batch_delete _ _ _ v Hk) in Hf'; [done|lia].
  - rewrite bind_ok, u64_small by lia. destruct (IH (i - 1) tx) as (tx2 & Hr & Ho & Htab); [lia..|done|done|].
    exists tx2. split; [exact Hr|]. split; [done|]. intros k' v'. rewrite Htab. split; intros [Hk' Hno]; (split; [done|]);
      intros [Hr' Hf']; apply Hno; (split; [|done]); apply Hall in Hk'; lia.
Qed.
End truncate.

Lemma bytes_ltb_app a b x y : bytes_ltb a b = true -> length a = length b -> bytes_ltb (a ++ x) (b ++ y) = true.
Proof.
  revert b. induction a as [|p a IH]; intros [|q b] Hlt Hl; [done..|]. cbn [app bytes_ltb] in *.
  apply orb_true_iff. apply orb_true_iff in Hlt as [?|[? ?]%andb_true_iff]; [by left|right].
  apply andb_true_iff. split; [done|]. apply IH; [done|]. by injection Hl.
Qed.

(** ** What the tables promise *)

(** C21: the two block tables implement one map from blocks to batches.  Writing a
    block that is new, or already in that batch, inserts it; deleting a range of
    blocks removes exactly those blocks from the map, in whatever order the batches
    of the range are visited.  Both always succeed, and touch no other table. *)
Theorem block_tables_refine_map tx idx : block_index tx idx ->
  (forall b n, uint64 b -> uint64 n -> idx !! b = None \/ idx !! b = Some n ->
     exists tx', WriteBlockBatch b n tx = Ok tx' /\ block_index tx' (<[b := n]> idx) /\
       forall t, t <> BLOCKBATCHES -> t <> BATCH_BLOCKS -> tx_table tx' t = tx_table tx t) /\
  (forall from to order, 0 <= from -> 0 <= to < 2 ^ 64 - 1 -> (forall (S : gset Z) n, n ∈ order S <-> n ∈ S) ->
     exists tx', DeleteBlockBatches order from to tx = Ok tx' /\ block_index tx' (unwound from to idx) /\
       forall t, t <> BLOCKBATCHES -> t <> BATCH_BLOCKS -> tx_table tx' t = tx_table tx t).
Proof.
  intros Hi. split; [intros; by apply WriteBlockBatch_ok|intros; by apply DeleteBlockBatches_ok].
Qed.

(** What the readers see of the map.  The batch of a block is found exactly if
    the block has one; without one, [GetBatchNoByL2Block] answers 0 if there is a
    later block and "not stored" if there is none.  The blocks of a batch are those
    the map puts there; the highest and, for batches without block 0, the lowest of
    them are computed right, and a batch without blocks has neither. *)
Theorem block_reads tx idx b n : block_index tx idx -> uint64 b -> uint64 n -> n <> 0 -> idx !! 0 <> Some n ->
  GetBatchNoByL2Block b tx =
    match idx !! b with
    | Some n => Ok n
    | None => match filter (fun bn => b < fst bn) (map_to_list idx) with [] => Err ErrorNotStored | _ => Ok 0 end
    end /\
  CheckBatchNoByL2Block b tx = Ok (default 0 (idx !! b), bool_decide (is_Some (idx !! b))) /\
  exists bs hi lo, GetL2BlockNosByBatch n tx = Ok bs /\ NoDup bs /\ (forall b, b ∈ bs <-> idx !! b = Some n) /\
    GetHighestBlockInBatch n tx = Ok (hi, bool_decide (bs <> [])) /\
    GetLowestBlockInBatch n tx = Ok (lo, bool_decide (bs <> [])) /\
    (bs <> [] -> hi ∈ bs /\ lo ∈ bs /\ Forall (fun b => lo <= b <= hi) bs).
Proof.
  intros Hi Hb Hn Hn0 H0. destruct (GetBatchNo_ok _ _ _ Hi Hb) as [H1 H2]. split; [exact H1|]. split; [exact H2|].
  destruct (index_batches _ _ Hi) as (f & Hbl & Hlf). destruct (Hlf n Hn) as [Hnd Hbs].
  pose proof (GetL2BlockNos_ok _ _ _ _ Hi Hbl Hlf Hn) as Hg.
  assert (Forall (fun b => 0 < b) (f n)) as Hpos.
  { apply Forall_forall. intros b' Hb'. apply Hbs in Hb'. destruct (index_range _ _ Hi _ _ Hb') as [Hr _].
    unfold uint64 in Hr. destruct (decide (b' = 0)) as [->|]; [done|lia]. }
  exists (f n). unfold GetHighestBlockInBatch, GetLowestBlockInBatch.
  rewrite (proj2 (Z.eqb_neq n 0) Hn0), Hg, !bind_ok.
  destruct (f n) as [|b1 bs] eqn:Hfn; [by exists 0, 0|].
  destruct (foldl_max (b1 :: bs) 0) as (M1 & M2 & M3). destruct (foldl_min (b1 :: bs) Hpos 0) as (L1 & _ & L3 & L4); [done|].
  eexists _, _. split; [done|]. split; [done|]. split; [done|]. split; [done|]. split; [done|]. intros _.
  specialize (L1 ltac:(by left)). apply Forall_cons in Hpos as Hp1. apply Forall_cons in M2 as HM2.
  split; [destruct M3 as [M3|M3]; [lia|exact M3]|]. split; [destruct L4 as [L4|L4]; [lia|exact L4]|].
  apply Forall_forall. intros x Hx. rewrite Forall_forall in M2, L3. auto.
Qed.

(** C22: a rollback ends and is exact.  On a table of sequences, whatever its order
    and even with several sequences of one batch, [RollbackSequences] returns, the
    number of entries being rounds enough, and exactly the sequences up to the given
    batch are left; no other table changes. *)
Theorem rollback_sequences_exact batchNo tx : 0 <= batchNo ->
  batch_table (tx_table tx L1SEQUENCES) -> (size (tx_table tx L1SEQUENCES) <= fuel)%nat ->
  exists tx', RollbackSequences batchNo tx = Ok tx' /\
    (forall t, t <> L1SEQUENCES -> tx_table tx' t = tx_table tx t) /\
    forall k v, tx_table tx' L1SEQUENCES !! k = Some v <->
      tx_table tx L1SEQUENCES !! k = Some v /\ batchOf k <= batchNo.
Proof.
  intros H0 Hm Hf. apply rollbackLoop_ok; [done..|]. etrans; [|exact Hf]. apply map_subseteq_size, map_filter_subseteq.
Qed.

(** A truncation removes one sequence of each later batch.  For a block in a
    batch, [TruncateSequences] removes of every later batch number the entry with
    the lowest L1 block, and no other: a second sequence of a later batch stays,
    where [RollbackSequences] would have removed it.  For a block without a batch
    nothing is removed. *)
Theorem truncate_keeps_later_entries tx idx b : block_index tx idx -> uint64 b ->
  batch_table (tx_table tx L1SEQUENCES) -> (size (tx_table tx L1SEQUENCES) <= fuel)%nat ->
  exists tx', TruncateSequences b tx = Ok tx' /\
    forall k v, tx_table tx' L1SEQUENCES !! k = Some v <-> tx_table tx L1SEQUENCES !! k = Some v /\
      (default 0 (idx !! b) = 0 \/ batchOf k <= default 0 (idx !! b) \/
       ~ first_of_batch (tx_table tx L1SEQUENCES) k).
Proof.
  intros Hi Hb Hm Hf. unfold TruncateSequences, truncate.
  destruct (GetBatchNo_ok _ _ _ Hi Hb) as [-> _].
  assert (match (match idx !! b with
      | Some n => Ok n
      | None => match filter (fun bn => b < fst bn) (map_to_list idx) with [] => Err ErrorNotStored | _ => Ok 0 end
      end) with Err e => if decide (e = ErrorNotStored) then Ok 0 else Err e | r => r end = Ok (default 0 (idx !! b)))
    as -> by (destruct (idx !! b); [done|by destruct (filter _ _)]).
  rewrite bind_ok. set (n := default 0 (idx !! b)).
  assert (0 <= n) as Hn0.
  { unfold n. destruct (idx !! b) as [n'|] eqn:He; [|done]. destruct (index_range _ _ Hi _ _ He) as [_ [? _]]. done. }
  destruct (Z.eqb_spec n 0) as [Hz|Hz]; [exists tx; split; [done|]; tauto|].
  destruct (getLatest_ok L1SEQUENCES tx Hm Hf) as [(i & k & v & -> & Hk & Hck & Hbk & Hpos & Hmax)|[-> Hall]]; rewrite bind_ok.
  2: { exists tx. split; [done|]. intros k v. split; [|tauto]. intros Hk. split; [done|]. apply Hall in Hk. lia. }
  destruct (Z.leb_spec (BatchNo i) n) as [Hle|Hgt].
  { exists tx. split; [done|]. intros k' v'. split; [|tauto]. intros Hk'. split; [done|]. apply Hmax in Hk'. lia. }
  destruct (truncateLoop_ok L1SEQUENCES n Hn0 (Z.to_nat (BatchNo i - n)) (BatchNo i) tx) as (tx' & -> & _ & Htab); [|done..|].
  { destruct (batch_table_key _ _ _ Hm Hk) as (_ & _ & [_ Hu] & _). lia. }
  exists tx'. split; [done|]. intros k' v'. rewrite Htab. split; intros [Hk' Hc]; (split; [done|]).
  - destruct (decide (batchOf k' <= n)) as [?|Hgt']; [auto|]. right. right. intros Hfst. apply Hc. split; [|done].
    apply Hmax in Hk'. lia.
  - intros [Hr Hfst]. destruct Hc as [?|[?|?]]; [lia..|done].
Qed.

(** The search for the next sequence looks in the wrong place.
    [GetSequenceByBatchNoOrHighest] is to find the next sequence above a batch that
    has none, but it seeks the batch number in keys that start with the L1 block:
    if all sequences are in L1 blocks below that number, it finds nothing, whatever
    later batches there are. *)
Theorem next_sequence_missed batchNo tx : uint64 batchNo ->
  batch_table (tx_table tx L1SEQUENCES) -> (size (tx_table tx L1SEQUENCES) <= fuel)%nat ->
  (forall k v, tx_table tx L1SEQUENCES !! k = Some v -> batchOf k <> batchNo /\ l1Of k < batchNo) ->
  GetSequenceByBatchNoOrHighest batchNo tx = Ok None.
Proof.
  intros Hu Hm Hf Hall. unfold GetSequenceByBatchNoOrHighest, GetSequenceByBatchNo.
  destruct (getByBatchNo_ok L1SEQUENCES tx batchNo Hm Hf) as [(i & k & v & _ & Hk & _ & Hb & _)|[-> _]].
  { by destruct (Hall k v Hk). }
  rewrite bind_ok, scanFrom_walk by done. rewrite filter_keep_none; [done|].
  intros [k v] Hin. apply elem_of_entries in Hin. destruct (Hall _ _ Hin) as [_ Hl].
  destruct (Hm _ _ Hin) as [(l & b & Hul & Hub & ->) _]. destruct (key_parts l b Hul Hub) as (Hl1 & _).
  cbn [fst]. unfold bytes_leb, ConcatKey. rewrite <- (app_nil_r (Uint64ToBytes batchNo)).
  rewrite (bytes_ltb_app (be_encode 8 l) (Uint64ToBytes batchNo)); [done| |by rewrite be_encode_length, Uint64ToBytes_length].
  change (be_encode 8 l) with (Uint64ToBytes l). rewrite Uint64ToBytes_lt by done. apply Z.ltb_lt. lia.
Qed.
End hermez.

(** ** Witnesses *)

(** Block 7 is in batch 1; batch 1 was sequenced in L1 block 10, batch 2 twice. *)
Definition example_sequences : table :=
  list_to_map [(ConcatKey 10 1, replicate 96 0); (ConcatKey 11 2, replicate 96 1); (ConcatKey 12 2, replicate 64 2)].

Definition example_db : MemKv :=
  <[BLOCKBATCHES := {[Uint64ToBytes 7 := Uint64ToBytes 1]}]>
  (<[BATCH_BLOCKS := {[Uint64ToBytes 1 := Uint64ToBytes 7]}]>
  (<[L1SEQUENCES := example_sequences]> ∅)).

Lemma example_index : block_index example_db {[7 := 1]}.
Proof.
  split.
  - intros b n [<- <-]%lookup_singleton_Some. done.
  - intros k v. change (tx_table example_db BLOCKBATCHES) with ({[Uint64ToBytes 7 := Uint64ToBytes 1]} : table).
    rewrite lookup_singleton_Some. split.
    + intros [<- <-]. exists 7, 1. by rewrite lookup_singleton_eq.
    + intros (b & n & [<- <-]%lookup_singleton_Some & -> & ->). done.
  - exists (fun n => if decide (n = 1) then [7] else []). split.
    + intros n Hn. change (tx_table example_db BATCH_BLOCKS) with ({[Uint64ToBytes 1 := Uint64ToBytes 7]} : table).
      case_decide as Heq; [subst; by rewrite lookup_singleton_eq|]. rewrite lookup_singleton_ne; [done|].
      intros He. by apply Uint64ToBytes_inj in He.
    + intros n Hn. case_decide as Heq.
      * subst. split; [apply NoDup_singleton|]. intros b. rewrite list_elem_of_singleton, lookup_singleton_Some.
        split; [by intros ->|by intros [-> _]].
      * split; [apply NoDup_nil_2|]. intros b. rewrite lookup_singleton_Some.
        split; [by intros ?%not_elem_of_nil|intros [_ He]; congruence].
Qed.

Lemma example_table : tx_table example_db L1SEQUENCES = example_sequences.
Proof. reflexivity. Qed.

Lemma example_batch_table : batch_table (tx_table example_db L1SEQUENCES).
Proof.
  rewrite example_table. intros k v Hk. apply elem_of_list_to_map_2 in Hk.
  repeat (apply elem_of_cons in Hk as [[-> ->]%pair_equal_spec|Hk];
    [split; [eexists _, _; split; [|split; [|reflexivity]]; done|rewrite length_replicate; auto]|]).
  by apply not_elem_of_nil in Hk.
Qed.

Lemma example_sequence k v : (k, v) ∈ [(ConcatKey 10 1, replicate 96 0); (ConcatKey 11 2, replicate 96 1);
  (ConcatKey 12 2, replicate 64 2)] -> tx_table example_db L1SEQUENCES !! k = Some v.
Proof.
  intros Hin. rewrite example_table. apply elem_of_list_to_map_1; [|done].
  apply (bool_decide_unpack _). vm_compute. exact I.
Qed.

Lemma block_tables_refine_map_witness :
  (exists tx', WriteBlockBatch 8 1 example_db = Ok tx' /\ block_index tx' (<[8 := 1]> {[7 := 1]})) /\
  (exists tx', DeleteBlockBatches elements 7 9 example_db = Ok tx' /\ block_index tx' (unwound 7 9 {[7 := 1]})).
Proof.
  destruct (block_tables_refine_map example_db _ example_index) as [Hw Hd]. split.
  - destruct (Hw 8 1) as (tx' & Hok & Hi & _); [done|done|left; reflexivity|]. eauto.
  - destruct (Hd 7 9 elements) as (tx' & Hok & Hi & _); [lia|lia|intros; apply elem_of_elements|]. eauto.
Defined.

Lemma block_reads_witness : exists bs, GetL2BlockNosByBatch 1 example_db = Ok bs /\ 7 ∈ bs /\
  GetHighestBlockInBatch 1 example_db = Ok (7, true) /\ GetBatchNoByL2Block 7 example_db = Ok 1.
Proof.
  destruct (block_reads example_db _ 7 1 example_index) as (H1 & _ & bs & hi & lo & Hg & _ & Hbs & Hh & _ & Hr);
    [done..|].
  assert (7 ∈ bs) as H7 by (by apply Hbs). assert (bs <> []) as Hne by (intros ->; by apply not_elem_of_nil in H7).
  destruct (Hr Hne) as (Hhi & _). apply Hbs, lookup_singleton_Some in Hhi as [Hhi _].
  exists bs. split; [exact Hg|]. split; [exact H7|]. split; [|exact H1]. rewrite Hh, <- Hhi. by rewrite bool_decide_true.
Defined.

Lemma rollback_sequences_exact_witness : exists tx', RollbackSequences 3 1 example_db = Ok tx' /\
  tx_table tx' L1SEQUENCES !! ConcatKey 10 1 = Some (replicate 96 0) /\
  tx_table tx' L1SEQUENCES !! ConcatKey 12 2 = None.
Proof.
  destruct (rollback_sequences_exact 3 1 example_db) as (tx' & Hr & _ & Htab);
    [lia|exact example_batch_table|vm_compute; lia|].
  exists tx'. split; [exact Hr|]. split.
  - apply Htab. split; [apply example_sequence; left|]. vm_compute. discriminate.
  - destruct (tx_table tx' L1SEQUENCES !! ConcatKey 12 2) as [v|] eqn:He; [|done].
    apply Htab in He as [_ Hle]. vm_compute in Hle. by destruct Hle.
Defined.

(** The second sequence of batch 2 survives. *)
Lemma truncate_keeps_later_entries_witness : exists tx', TruncateSequences 3 7 example_db = Ok tx' /\
  tx_table tx' L1SEQUENCES !! ConcatKey 12 2 = Some (replicate 64 2).
Proof.
  destruct (truncate_keeps_later_entries 3 example_db _ 7 example_index) as (tx' & Hr & Htab);
    [done|exact example_batch_table|vm_compute; lia|].
  exists tx'. split; [exact Hr|]. apply Htab. split; [apply example_sequence; right; right; left|].
  right. right. intros Hf. destruct (Hf (ConcatKey 11 2) (replicate 96 1)) as [He|Hlt].
  - apply example_sequence. right. left.
  - reflexivity.
  - vm_compute in He. discriminate.
  - vm_compute in Hlt. discriminate.
Defined.

(** A development chain: batch 200 was sequenced in L1 block 5, and is not found from batch 100 on. *)
Lemma next_sequence_missed_witness :
  GetSequenceByBatchNoOrHighest 1 100 (<[L1SEQUENCES := {[ConcatKey 5 200 := replicate 96 0]}]> ∅ : MemKv) = Ok None.
Proof.
  assert (tx_table (<[L1SEQUENCES := {[ConcatKey 5 200 := replicate 96 0]}]> ∅ : MemKv) L1SEQUENCES =
    {[ConcatKey 5 200 := replicate 96 0]}) as Ht by reflexivity.
  apply (next_sequence_missed 1 100 (<[L1SEQUENCES := {[ConcatKey 5 200 := replicate 96 0]}]> ∅ : MemKv));
    rewrite ?Ht.
  - done.
  - intros k v [<- <-]%lookup_singleton_Some. split; [exists 5, 200; done|by left].
  - by rewrite map_size_singleton.
  - intros k v [<- _]%lookup_singleton_Some. split; vm_compute; congruence.
Defined.
