(* ===== verification/HermezTables.v ===== *)
(** * The hermez tables: L1 info, exit roots, forks, depths (zk/hermez_db/db.go, zk/types/zk_types.go)

    The other tables of the hermez database that are more than a number under a
    number: records of fixed layout with their encoders, tables that may only grow,
    searches for the nearest entry, and the intervals of batches per fork. *)
From stdpp Require Import sorting.
From S2P Require Import Prelude Bytes Kv HermezDb.

(** ** Little-endian numbers *)

Definition le_encode (w : nat) (z : Z) : list Z := reverse (be_encode w z).
(** [binary.LittleEndian.Uint64(b)]: a slice that is too short panics. *)
Definition leUint (w : nat) (b : list Z) : outcome Z :=
  if (length b <? w)%nat then Panic else Ok (be_decode (reverse (take w b))).

(** [s[i:]] *)
Definition sliceFrom {A} (l : list A) (i : Z) : outcome (list A) := slice l i (Z.of_nat (length l)).

(** ** Records (zk/types/zk_types.go) *)

Record L1InfoTreeUpdate := mkUpdate {
  u_Index : Z;
  u_GER : list Z;
  u_MainnetExitRoot : list Z;
  u_RollupExitRoot : list Z;
  u_ParentHash : list Z;
  u_Timestamp : Z;
  u_BlockNumber : Z;
}.

Definition Update_Marshall (l : L1InfoTreeUpdate) : list Z :=
  le_encode 8 (u_Index l) ++ u_GER l ++ u_MainnetExitRoot l ++ u_RollupExitRoot l ++ u_ParentHash l ++
  le_encode 8 (u_Timestamp l) ++ le_encode 8 (u_BlockNumber l).

(** On a new record, whose block number is 0. *)
Definition Update_Unmarshall (input : list Z) : outcome L1InfoTreeUpdate :=
  idx ← slice input 0 8; idx ← leUint 8 idx;
  ger ← slice input 8 40;
  mainnet ← slice input 40 72;
  rollup ← slice input 72 104;
  parent ← slice input 104 136;
  ts ← sliceFrom input 136; ts ← leUint 8 ts;
  if (144 <? length input)%nat then
    bn ← sliceFrom input 144; bn ← leUint 8 bn;
    Ok (mkUpdate idx ger mainnet rollup parent ts bn)
  else Ok (mkUpdate idx ger mainnet rollup parent ts 0).

Record L1InjectedBatch := mkInjected {
  ib_L1BlockNumber : Z;
  ib_Timestamp : Z;
  ib_L1BlockHash : list Z;
  ib_L1ParentHash : list Z;
  ib_LastGlobalExitRoot : list Z;
  ib_Sequencer : list Z;
  ib_Transaction : list Z;
}.

Definition Injected_Marshall (ib : L1InjectedBatch) : list Z :=
  le_encode 8 (ib_L1BlockNumber ib) ++ le_encode 8 (ib_Timestamp ib) ++ ib_L1BlockHash ib ++
  ib_L1ParentHash ib ++ ib_LastGlobalExitRoot ib ++ ib_Sequencer ib ++ ib_Transaction ib.

Definition Injected_Unmarshall (input : list Z) : outcome L1InjectedBatch :=
  if (length input <? 132)%nat then Err "unmarshall error, input is too short"
  else
    bn ← slice input 0 8; bn ← leUint 8 bn;
    ts ← slice input 8 16; ts ← leUint 8 ts;
    bh ← slice input 16 48;
    ph ← slice input 48 80;
    ger ← slice input 80 112;
    seqr ← slice input 112 132;
    txs ← sliceFrom input 132;
    Ok (mkInjected bn ts bh ph ger seqr txs).

(** ** Exit root updates (zk/datastream/types/ger_update.go) *)

Record GerUpdate := mkGerUpdate {
  g_BatchNumber : Z;
  g_Timestamp : Z;
  g_GlobalExitRoot : list Z;
  g_Coinbase : list Z;
  g_ForkId : Z;
  g_ChainId : Z;
  g_StateRoot : list Z;
}.

Definition gerUpdateDataLength : nat := 106.
Definition gerUpdateDataLengthPreEtrog : nat := 102.

Definition Ger_EncodeToBytes (g : GerUpdate) : list Z :=
  le_encode 8 (g_BatchNumber g) ++ le_encode 8 (g_Timestamp g) ++ g_GlobalExitRoot g ++ g_Coinbase g ++
  le_encode 2 (g_ForkId g) ++ le_encode 4 (g_ChainId g) ++ g_StateRoot g.

Definition decodeGerUpdatePreEtrog (data : list Z) : outcome GerUpdate :=
  ts ← slice data 8 16; ts ← leUint 8 ts;
  bn ← slice data 0 8; bn ← leUint 8 bn;
  ger ← slice data 16 48;
  coinbase ← slice data 48 68;
  forkId ← slice data 68 70; forkId ← leUint 2 forkId;
  root ← slice data 70 102;
  Ok (mkGerUpdate bn ts (BytesToHash ger) coinbase forkId 0 (BytesToHash root)).

Definition DecodeGerUpdate (data : list Z) : outcome GerUpdate :=
  if negb (length data =? gerUpdateDataLength)%nat then
    if (length data =? gerUpdateDataLengthPreEtrog)%nat then decodeGerUpdatePreEtrog data
    else Err "expected data length"
  else
    ts ← slice data 8 16; ts ← leUint 8 ts;
    bn ← slice data 0 8; bn ← leUint 8 bn;
    ger ← slice data 16 48;
    coinbase ← slice data 48 68;
    forkId ← slice data 68 70; forkId ← leUint 2 forkId;
    chainId ← slice data 70 74; chainId ← leUint 4 chainId;
    root ← slice data 74 106;
    Ok (mkGerUpdate bn ts (BytesToHash ger) coinbase forkId chainId (BytesToHash root)).

Definition Ger_EncodeToBytesBigEndian (g : GerUpdate) : list Z :=
  be_encode 8 (g_BatchNumber g) ++ be_encode 8 (g_Timestamp g) ++ g_GlobalExitRoot g ++ g_Coinbase g ++
  be_encode 2 (g_ForkId g) ++ be_encode 4 (g_ChainId g) ++ g_StateRoot g.

(** [binary.BigEndian.Uint64(b)] *)
Definition beUint (w : nat) (b : list Z) : outcome Z :=
  if (length b <? w)%nat then Panic else Ok (be_decode (take w b)).

(** The chain id alone is read as little-endian. *)
Definition DecodeGerUpdateBigEndian (data : list Z) : outcome GerUpdate :=
  if negb (length data =? gerUpdateDataLength)%nat then Err "expected data length"
  else
    ts ← slice data 8 16; ts ← beUint 8 ts;
    bn ← slice data 0 8; bn ← beUint 8 bn;
    ger ← slice data 16 48;
    coinbase ← slice data 48 68;
    forkId ← slice data 68 70; forkId ← beUint 2 forkId;
    chainId ← slice data 70 74; chainId ← leUint 4 chainId;
    root ← slice data 74 106;
    Ok (mkGerUpdate bn ts (BytesToHash ger) coinbase forkId chainId (BytesToHash root)).

(** ** Round trips of the records *)

Lemma le_encode_length w z : length (le_encode w z) = w.
Proof. unfold le_encode. by rewrite length_reverse, be_encode_length. Qed.

Lemma leUint_encode w z rest : 0 <= z < 256 ^ Z.of_nat w -> leUint w (le_encode w z ++ rest) = Ok z.
Proof.
  intros Hz. unfold leUint. rewrite length_app, le_encode_length.
  rewrite (proj2 (Nat.ltb_ge (w + length rest) w)), take_app_length' by (rewrite ?le_encode_length; lia).
  unfold le_encode. by rewrite reverse_involutive, be_decode_encode_small.
Qed.

Lemma beUint_encode w z rest : 0 <= z < 256 ^ Z.of_nat w -> beUint w (be_encode w z ++ rest) = Ok z.
Proof.
  intros Hz. unfold beUint. rewrite length_app, be_encode_length.
  rewrite (proj2 (Nat.ltb_ge (w + length rest) w)), take_app_length' by (rewrite ?be_encode_length; lia).
  by rewrite be_decode_encode_small.
Qed.

Lemma concat_length (parts : list (list Z)) : length (concat parts) = sum_list_with length parts.
Proof. induction parts as [|q l IH]; [done|]. simpl. by rewrite length_app, IH. Qed.

(** A field of a record that is laid out field by field. *)
Lemma slice_part (parts : list (list Z)) i p a b : parts !! i = Some p ->
  a = Z.of_nat (sum_list_with length (take i parts)) -> b = a + Z.of_nat (length p) ->
  slice (concat parts) a b = Ok p.
Proof.
  intros Hi Ha Hb. rewrite <- (take_drop_middle _ _ _ Hi), concat_app. cbn [concat].
  eapply slice_at; [reflexivity| |exact Hb]. by rewrite Ha, concat_length.
Qed.

Lemma sliceFrom_part (parts : list (list Z)) i a : a = Z.of_nat (sum_list_with length (take i parts)) ->
  sliceFrom (concat parts) a = Ok (concat (drop i parts)).
Proof.
  intros Ha. unfold sliceFrom. rewrite <- (take_drop i parts) at 1 2. rewrite concat_app.
  apply (slice_at _ (concat (take i parts)) _ []); [by rewrite app_nil_r|by rewrite concat_length|].
  rewrite length_app, !concat_length. lia.
Qed.

Lemma BytesToHash_id h : length h = 32%nat -> BytesToHash h = h.
Proof. intros Hh. unfold BytesToHash. rewrite Hh. cbn [Nat.sub]. by rewrite drop_0, Hh. Qed.

Lemma bind_step {A B} (m : outcome A) (k : A -> outcome B) a r : m = Ok a -> k a = r -> (x ← m; k x) = r.
Proof. intros -> <-. reflexivity. Qed.

Ltac field_length := cbn; rewrite ?le_encode_length, ?be_encode_length; lia.
Ltac field i := eapply bind_step; [apply (slice_part _ i); [reflexivity|field_length|field_length]|cbv beta].
Ltac field_from i := eapply bind_step; [apply (sliceFrom_part _ i); field_length|cbv beta].
(** A number at the start of what was sliced. *)
Ltac number :=
  eapply bind_step;
  [first [apply leUint_encode; done|apply beUint_encode; done
         |rewrite <- (app_nil_r (le_encode _ _)); apply leUint_encode; done
         |rewrite <- (app_nil_r (be_encode _ _)); apply beUint_encode; done]|cbv beta].

Record update_ok (u : L1InfoTreeUpdate) : Prop := {
  uo_index : uint64 (u_Index u);
  uo_ger : length (u_GER u) = 32%nat;
  uo_mainnet : length (u_MainnetExitRoot u) = 32%nat;
  uo_rollup : length (u_RollupExitRoot u) = 32%nat;
  uo_parent : length (u_ParentHash u) = 32%nat;
  uo_timestamp : uint64 (u_Timestamp u);
  uo_block : uint64 (u_BlockNumber u);
}.

Lemma app_last_nil (l1 l2 : list Z) : l1 ++ l2 = l1 ++ l2 ++ [].
Proof. by rewrite app_nil_r. Qed.

Lemma Update_round_trip u : update_ok u -> Update_Unmarshall (Update_Marshall u) = Ok u.
Proof.
  intros [? ? ? ? ? ? ?].
  assert (Update_Marshall u = concat [le_encode 8 (u_Index u); u_GER u; u_MainnetExitRoot u; u_RollupExitRoot u;
    u_ParentHash u; le_encode 8 (u_Timestamp u); le_encode 8 (u_BlockNumber u)]) as ->.
  { unfold Update_Marshall. cbn [concat]. by rewrite app_nil_r. }
  unfold Update_Unmarshall. rewrite concat_length. set (parts := [_; _; _; _; _; _; _]).
  field 0%nat. number. field 1%nat. field 2%nat. field 3%nat. field 4%nat. field_from 5%nat. number.
  rewrite (proj2 (Nat.ltb_lt _ _)) by field_length. field_from 6%nat. number. by destruct u.
Qed.

Record injected_ok (ib : L1InjectedBatch) : Prop := {
  io_block : uint64 (ib_L1BlockNumber ib);
  io_timestamp : uint64 (ib_Timestamp ib);
  io_hash : length (ib_L1BlockHash ib) = 32%nat;
  io_parent : length (ib_L1ParentHash ib) = 32%nat;
  io_ger : length (ib_LastGlobalExitRoot ib) = 32%nat;
  io_sequencer : length (ib_Sequencer ib) = 20%nat;
}.

Lemma Injected_round_trip ib : injected_ok ib -> Injected_Unmarshall (Injected_Marshall ib) = Ok ib.
Proof.
  intros [? ? ? ? ? ?].
  assert (Injected_Marshall ib = concat [le_encode 8 (ib_L1BlockNumber ib); le_encode 8 (ib_Timestamp ib);
    ib_L1BlockHash ib; ib_L1ParentHash ib; ib_LastGlobalExitRoot ib; ib_Sequencer ib; ib_Transaction ib]) as ->.
  { unfold Injected_Marshall. cbn [concat]. by rewrite app_nil_r. }
  unfold Injected_Unmarshall. rewrite concat_length. set (parts := [_; _; _; _; _; _; _]).
  rewrite (proj2 (Nat.ltb_ge _ _)) by field_length.
  field 0%nat. number. field 1%nat. number. field 2%nat. field 3%nat. field 4%nat. field 5%nat. field_from 6%nat.
  unfold parts. cbn. rewrite app_nil_r. by destruct ib.
Qed.

Record ger_ok (g : GerUpdate) : Prop := {
  go_batch : uint64 (g_BatchNumber g);
  go_timestamp : uint64 (g_Timestamp g);
  go_ger : length (g_GlobalExitRoot g) = 32%nat;
  go_coinbase : length (g_Coinbase g) = 20%nat;
  go_fork : 0 <= g_ForkId g < 2 ^ 16;
  go_chain : 0 <= g_ChainId g < 2 ^ 32;
  go_root : length (g_StateRoot g) = 32%nat;
}.

Lemma Ger_round_trip g : ger_ok g -> DecodeGerUpdate (Ger_EncodeToBytes g) = Ok g.
Proof.
  intros [? ? ? ? ? ? ?].
  assert (Ger_EncodeToBytes g = concat [le_encode 8 (g_BatchNumber g); le_encode 8 (g_Timestamp g);
    g_GlobalExitRoot g; g_Coinbase g; le_encode 2 (g_ForkId g); le_encode 4 (g_ChainId g); g_StateRoot g]) as ->.
  { unfold Ger_EncodeToBytes. cbn [concat]. by rewrite app_nil_r. }
  unfold DecodeGerUpdate. rewrite concat_length. set (parts := [_; _; _; _; _; _; _]).
  rewrite (proj2 (Nat.eqb_eq _ gerUpdateDataLength)) by (unfold gerUpdateDataLength; field_length). cbn [negb].
  field 1%nat. number. field 0%nat. number. field 2%nat. field 3%nat. field 4%nat. number. field 5%nat. number.
  field 6%nat. rewrite !BytesToHash_id by done. by destruct g.
Qed.

(** The bytes of the chain id come back in reverse order. *)
Lemma Ger_big_endian g : ger_ok g -> DecodeGerUpdateBigEndian (Ger_EncodeToBytesBigEndian g) =
  Ok (mkGerUpdate (g_BatchNumber g) (g_Timestamp g) (g_GlobalExitRoot g) (g_Coinbase g) (g_ForkId g)
        (be_decode (reverse (be_encode 4 (g_ChainId g)))) (g_StateRoot g)).
Proof.
  intros [? ? ? ? ? ? ?].
  assert (Ger_EncodeToBytesBigEndian g = concat [be_encode 8 (g_BatchNumber g); be_encode 8 (g_Timestamp g);
    g_GlobalExitRoot g; g_Coinbase g; be_encode 2 (g_ForkId g); be_encode 4 (g_ChainId g); g_StateRoot g]) as ->.
  { unfold Ger_EncodeToBytesBigEndian. cbn [concat]. by rewrite app_nil_r. }
  unfold DecodeGerUpdateBigEndian. rewrite concat_length. set (parts := [_; _; _; _; _; _; _]).
  rewrite (proj2 (Nat.eqb_eq _ gerUpdateDataLength)) by (unfold gerUpdateDataLength; field_length). cbn [negb].
  field 1%nat. number. field 0%nat. number. field 2%nat. field 3%nat. field 4%nat. number. field 5%nat.
  eapply bind_step; [unfold leUint; rewrite be_encode_length; reflexivity|]. cbv beta.
  field 6%nat. rewrite !BytesToHash_id, take_ge by (rewrite ?be_encode_length; done || lia). done.
Qed.

(** ** The tables *)

Definition L1_INFO_TREE_UPDATES : string := "l1_info_tree_updates".
Definition L1_INJECTED_BATCHES : string := "l1_injected_batches".
Definition BLOCK_L1_INFO_TREE_INDEX_PROGRESS : string := "block_l1_info_tree_progress".
Definition GLOBAL_EXIT_ROOTS_BATCHES : string := "hermez_globalExitRoots_batches".
Definition SMT_DEPTHS : string := "smt_depths".
Definition FORKIDS : string := "hermez_forkIds".
Definition FORKID_BLOCK : string := "hermez_forkIdBlock".

Definition MaxUint64 : Z := 2 ^ 64 - 1.

Record ForkInterval := mkInterval {
  ForkID : Z;
  FromBatchNumber : Z;
  ToBatchNumber : Z;
  BlockNumber : Z;
}.

Section tables.
Context {T : Type} `{Kv T} (fuel : nat).

(** *** L1 info tree updates and injected batches *)

Definition WriteL1InfoTreeUpdate (update : L1InfoTreeUpdate) (tx : T) : outcome T :=
  tx_Put L1_INFO_TREE_UPDATES (Uint64ToBytes (u_Index update)) (Update_Marshall update) tx.

Definition GetL1InfoTreeUpdate (idx : Z) (tx : T) : outcome (option L1InfoTreeUpdate) :=
  data ← tx_GetOne L1_INFO_TREE_UPDATES (Uint64ToBytes idx) tx;
  match default [] data with
  | [] => Ok None
  | data => u ← Update_Unmarshall data; Ok (Some u)
  end.

Definition GetLatestL1InfoTreeUpdate (tx : T) : outcome (option L1InfoTreeUpdate) :=
  count ← tx_Count L1_INFO_TREE_UPDATES tx;
  if count =? 0 then Ok None
  else
    kv ← tx_Last L1_INFO_TREE_UPDATES tx;
    match default [] (snd <$> kv) with
    | [] => Ok None
    | v => u ← Update_Unmarshall v; Ok (Some u)
    end.

Definition WriteL1InjectedBatch (batch : L1InjectedBatch) (tx : T) : outcome T :=
  count ← tx_Count L1_INJECTED_BATCHES tx;
  let nextIndex := if 0 <? count then u64 (count + 1) else 0 in
  tx_Put L1_INJECTED_BATCHES (Uint64ToBytes nextIndex) (Injected_Marshall batch) tx.

Definition GetL1InjectedBatch (index : Z) (tx : T) : outcome L1InjectedBatch :=
  v ← tx_GetOne L1_INJECTED_BATCHES (Uint64ToBytes index) tx;
  Injected_Unmarshall (default [] v).

(** *** Progress of the L1 info tree index *)

Definition GetLatestBlockL1InfoTreeIndexProgress (tx : T) : outcome (Z * Z) :=
  kv ← tx_Last BLOCK_L1_INFO_TREE_INDEX_PROGRESS tx;
  let '(k, v) := default ([], []) kv in
  Ok (BytesToUint64 k, BytesToUint64 v).

Definition WriteBlockL1InfoTreeIndexProgress (blockNumber l1Index : Z) (tx : T) : outcome T :=
  latest ← GetLatestBlockL1InfoTreeIndexProgress tx;
  let '(latestBlockNumber, latestL1Index) := latest : Z * Z in
  if blockNumber <? latestBlockNumber then Err "unable to set l1index"
  else if l1Index <=? latestL1Index then Ok tx
  else tx_Put BLOCK_L1_INFO_TREE_INDEX_PROGRESS (Uint64ToBytes blockNumber) (Uint64ToBytes l1Index) tx.

(** *** Exit roots of batches *)

Definition WriteBatchGlobalExitRoot (batchNumber : Z) (ger : GerUpdate) (tx : T) : outcome T :=
  tx_Put GLOBAL_EXIT_ROOTS_BATCHES (Uint64ToBytes batchNumber) (Ger_EncodeToBytes ger) tx.

Definition GetBatchGlobalExitRoot (batchNum : Z) (tx : T) : outcome (option GerUpdate) :=
  v ← tx_GetOne GLOBAL_EXIT_ROOTS_BATCHES (Uint64ToBytes batchNum) tx;
  match default [] v with
  | [] => Ok None
  | v => g ← DecodeGerUpdate v; Ok (Some g)
  end.

Definition lastGerStep (batchNum : Z) (k v : list Z) (s : option GerUpdate * Z)
    : outcome (flow (option GerUpdate * Z)) :=
  let currentBatchNo := BytesToUint64 k in
  if negb (length v =? 0)%nat && (snd s <? currentBatchNo) && (currentBatchNo <=? batchNum) then
    g ← DecodeGerUpdate v;
    Ok (Continue (Some g, currentBatchNo))
  else Ok (Continue s).

(** The loop declares a [currentBatchNo] of its own; the one that is returned is never set. *)
Definition GetLastBatchGlobalExitRoot (batchNum : Z) (tx : T) : outcome (option GerUpdate * Z) :=
  s ← scan fuel GLOBAL_EXIT_ROOTS_BATCHES (lastGerStep batchNum) (None, 0) tx;
  Ok (fst s, 0).

(** *** Depths of the state tree *)

Definition WriteSmtDepth (l2BlockNo depth : Z) (tx : T) : outcome T :=
  tx_Put SMT_DEPTHS (Uint64ToBytes l2BlockNo) (Uint64ToBytes depth) tx.

Definition distance (a b : Z) : Z := if b <? a then u64 (a - b) else u64 (b - a).

(** The variables of the loop: closest block, its depth, its distance. *)
Definition GetClosestSmtDepth (l2BlockNo : Z) (tx : T) : outcome (Z * Z) :=
  s ← scan fuel SMT_DEPTHS (fun k v (s : Z * Z * Z) =>
        let currentBlock := BytesToUint64 k in
        let currentRange := distance currentBlock l2BlockNo in
        Ok (Continue (if currentRange <? snd s
                      then (currentBlock, BytesToUint64 v, distance currentBlock l2BlockNo) else s)))
      (0, 0, MaxUint64) tx;
  Ok (fst s).

Definition TruncateSmtDepths (fromBlock : Z) (tx : T) : outcome T :=
  cur ← tx_Seek SMT_DEPTHS (Uint64ToBytes (u64 (fromBlock + 1))) tx;
  forEachWrite fuel SMT_DEPTHS (fun k tx => tx_Delete SMT_DEPTHS k tx) cur tx.

(** *** Forks *)

Definition WriteForkId (batchNo forkId : Z) (tx : T) : outcome T :=
  tx_Put FORKIDS (Uint64ToBytes batchNo) (Uint64ToBytes forkId) tx.

Definition GetForkId (batchNo : Z) (tx : T) : outcome Z :=
  let batchNo := if batchNo =? 0 then 1 else batchNo in
  v ← tx_GetOne FORKIDS (Uint64ToBytes batchNo) tx;
  Ok (BytesToUint64 (default [] v)).

Definition GetForkIdBlock (forkId : Z) (tx : T) : outcome (Z * bool) :=
  scan fuel FORKID_BLOCK (fun k v s =>
    if BytesToUint64 k =? forkId then Ok (Break (BytesToUint64 v, true)) else Ok (Continue s)) (0, false) tx.

Definition WriteForkIdBlockOnce (forkId blockNum : Z) (tx : T) : outcome T :=
  r ← GetForkIdBlock forkId tx;
  if snd r : bool then Ok tx
  else tx_Put FORKID_BLOCK (Uint64ToBytes forkId) (Uint64ToBytes blockNum) tx.

(** One entry of the fork table: the intervals so far, and the last fork. *)
Definition addInterval (filterId : option Z) (k v : list Z) (s : gmap Z ForkInterval * Z)
    : gmap Z ForkInterval * Z :=
  let batchNumber := BytesToUint64 k in
  let forkID := BytesToUint64 v in
  let lastForkId := if snd s <? forkID then forkID else snd s in
  if match filterId with Some f => negb (f =? forkID) | None => false end then (fst s, lastForkId)
  else
    let i := default (mkInterval forkID batchNumber batchNumber 0) (fst s !! forkID) in
    let i := if batchNumber <? FromBatchNumber i
             then mkInterval (ForkID i) batchNumber (ToBatchNumber i) (BlockNumber i) else i in
    let i := if ToBatchNumber i <? batchNumber
             then mkInterval (ForkID i) (FromBatchNumber i) batchNumber (BlockNumber i) else i in
    (<[forkID := i]> (fst s), lastForkId).

Fixpoint finishIntervals (lastForkId : Z) (l : list (Z * ForkInterval)) (tx : T) : outcome (list ForkInterval) :=
  match l with
  | [] => Ok []
  | (forkId, i) :: l =>
      b ← GetForkIdBlock (ForkID i) tx;
      let i := if snd b : bool then mkInterval (ForkID i) (FromBatchNumber i) (ToBatchNumber i) (fst b) else i in
      let i := if forkId =? lastForkId
               then mkInterval (ForkID i) (FromBatchNumber i) MaxUint64 (BlockNumber i) else i in
      rest ← finishIntervals lastForkId l tx;
      Ok (i :: rest)
  end.

Definition from_le (a b : ForkInterval) : Prop := FromBatchNumber a <= FromBatchNumber b.
#[export] Instance from_le_dec a b : Decision (from_le a b).
Proof. unfold from_le. apply _. Defined.

(** [order] is the order in which the range statement visits the map. *)
Definition getForkIntervals (order : gmap Z ForkInterval -> list (Z * ForkInterval)) (filterId : option Z) (tx : T)
    : outcome (list ForkInterval) :=
  s ← scan fuel FORKIDS (fun k v s => Ok (Continue (addInterval filterId k v s))) (∅, 0) tx;
  l ← finishIntervals (snd s) (order (fst s)) tx;
  Ok (merge_sort from_le l).

Context `{!KvLaws T}.

(** ** Tables of numbers *)

(** The table holds a map from numbers to numbers. *)
Record uint_table (m : table) (f : gmap Z Z) : Prop := {
  ut_range b n : f !! b = Some n -> uint64 b /\ uint64 n;
  ut_entries k v : m !! k = Some v <-> exists b n, f !! b = Some n /\ k = Uint64ToBytes b /\ v = Uint64ToBytes n;
}.

Lemma ut_entry m f k v : uint_table m f -> (k, v) ∈ entries m ->
  exists b n, f !! b = Some n /\ uint64 b /\ uint64 n /\ k = Uint64ToBytes b /\ v = Uint64ToBytes n /\
    BytesToUint64 k = b /\ BytesToUint64 v = n.
Proof.
  intros Hf Hin. apply elem_of_entries, (ut_entries _ _ Hf) in Hin as (b & n & Hb & -> & ->).
  destruct (ut_range _ _ Hf _ _ Hb). exists b, n. by rewrite !BytesToUint64_U.
Qed.

Lemma ut_elem m f b n : uint_table m f -> f !! b = Some n -> (Uint64ToBytes b, Uint64ToBytes n) ∈ entries m.
Proof. intros Hf Hb. apply elem_of_entries, (ut_entries _ _ Hf). eauto. Qed.

Lemma ut_insert m f b n : uint_table m f -> uint64 b -> uint64 n ->
  uint_table (<[Uint64ToBytes b := Uint64ToBytes n]> m) (<[b := n]> f).
Proof.
  intros Hf Hb Hn. split.
  - intros b' n' [[<- <-]|[_ Hb']]%lookup_insert_Some; [done|by apply (ut_range _ _ Hf)].
  - intros k v. rewrite lookup_insert_Some, (ut_entries _ _ Hf). split.
    + intros [[<- <-]|(Hne & b' & n' & Hb' & -> & ->)]; [exists b, n; by rewrite lookup_insert_eq|].
      exists b', n'. rewrite lookup_insert_ne; [done|]. congruence.
    + intros (b' & n' & [[<- <-]|[Hne Hb']]%lookup_insert_Some & -> & ->); [by left|]. right. split; [|eauto].
      intros He. apply Hne. apply Uint64ToBytes_inj in He; [done..|]. by destruct (ut_range _ _ Hf _ _ Hb').
Qed.

Lemma last_elem {A} (l : list A) e : last l = Some e -> e ∈ l.
Proof. intros He. apply last_Some in He as (l' & ->). apply elem_of_app. right. left. Qed.

(** The last entry has the greatest number. *)
Lemma ut_last m f : uint_table m f ->
  match last (entries m) with
  | Some (k, v) => exists b n, f !! b = Some n /\ k = Uint64ToBytes b /\ v = Uint64ToBytes n /\
      forall b' n', f !! b' = Some n' -> b' <= b
  | None => f = ∅
  end.
Proof.
  intros Hf. destruct (last (entries m)) as [[k v]|] eqn:He.
  - destruct (ut_entry _ _ k v Hf (last_elem _ _ He)) as (b & n & Hb & Hub & _ & -> & -> & _).
    exists b, n. split; [done|]. split; [done|]. split; [done|]. intros b' n' Hb'.
    apply last_Some in He as (l & Hl). pose proof (entries_sorted m) as Hs. rewrite Hl in Hs.
    pose proof (ut_elem _ _ _ _ Hf Hb') as Hin. rewrite Hl in Hin.
    apply elem_of_app in Hin as [Hin|Hin%list_elem_of_singleton].
    + apply StronglySorted_app in Hs as (Hlt & _). specialize (Hlt _ _ Hin ltac:(left)). unfold entry_lt in Hlt.
      cbn [fst] in Hlt. destruct (ut_range _ _ Hf _ _ Hb'). rewrite Uint64ToBytes_lt in Hlt by done. lia.
    + apply pair_equal_spec in Hin as [Heq _]. destruct (ut_range _ _ Hf _ _ Hb').
      apply Uint64ToBytes_inj in Heq; [lia|done..].
  - apply last_None in He. apply map_empty. intros b. destruct (f !! b) as [n|] eqn:Hb; [|done].
    pose proof (ut_elem _ _ _ _ Hf Hb) as Hin. rewrite He in Hin. by apply not_elem_of_nil in Hin.
Qed.

(** ** Records *)

(** Records survive storage.  An L1 info tree update, an injected batch and an
    exit root update are given back by their decoders, and an update that is written
    is read back under its index.  The big-endian encoding of an exit root update
    does not: the decoder reads the chain id in the wrong byte order, and returns it
    with its four bytes reversed. *)
Theorem records_round_trip u ib g tx : update_ok u -> injected_ok ib -> ger_ok g ->
  Update_Unmarshall (Update_Marshall u) = Ok u /\
  Injected_Unmarshall (Injected_Marshall ib) = Ok ib /\
  DecodeGerUpdate (Ger_EncodeToBytes g) = Ok g /\
  DecodeGerUpdateBigEndian (Ger_EncodeToBytesBigEndian g) =
    Ok (mkGerUpdate (g_BatchNumber g) (g_Timestamp g) (g_GlobalExitRoot g) (g_Coinbase g) (g_ForkId g)
          (be_decode (reverse (be_encode 4 (g_ChainId g)))) (g_StateRoot g)) /\
  exists tx', WriteL1InfoTreeUpdate u tx = Ok tx' /\ GetL1InfoTreeUpdate (u_Index u) tx' = Ok (Some u).
Proof.
  intros Hu Hib Hg. split; [by apply Update_round_trip|]. split; [by apply Injected_round_trip|].
  split; [by apply Ger_round_trip|]. split; [by apply Ger_big_endian|].
  destruct (law_Put L1_INFO_TREE_UPDATES (Uint64ToBytes (u_Index u)) (Update_Marshall u) tx) as (tx' & Hw & Ht).
  exists tx'. split; [exact Hw|]. unfold GetL1InfoTreeUpdate.
  rewrite law_GetOne, Ht, decide_True, lookup_insert_eq, bind_ok by done. cbn [default from_option id].
  assert (exists x l, Update_Marshall u = x :: l) as (x & l & Heq).
  { unfold Update_Marshall. pose proof (le_encode_length 8 (u_Index u)) as Hl.
    destruct (le_encode 8 (u_Index u)); [done|]. by eexists _, _. }
  rewrite Heq, <- Heq, Update_round_trip by done. done.
Qed.

(** ** Injected batches *)

(** The batches are written one after the other. *)
Fixpoint writeInjected (bs : list L1InjectedBatch) (tx : T) : outcome T :=
  match bs with
  | [] => Ok tx
  | b :: bs => tx ← WriteL1InjectedBatch b tx; writeInjected bs tx
  end.

Definition injectedIndex (i : nat) : Z := if (i =? 0)%nat then 0 else Z.of_nat i + 1.

Lemma injectedIndex_inj i j : injectedIndex i = injectedIndex j -> i = j.
Proof. unfold injectedIndex. destruct i, j; cbn [Nat.eqb]; lia. Qed.

Lemma injectedIndex_range i : Z.of_nat i < 2 ^ 64 - 1 -> uint64 (injectedIndex i).
Proof. unfold injectedIndex, uint64. destruct i; cbn [Nat.eqb]; lia. Qed.

(** The batches are under their indices, and nothing else is there. *)
Definition injected_table (m : table) (bs : list L1InjectedBatch) : Prop :=
  size m = length bs /\ (forall k v, m !! k = Some v <->
    exists i ib, bs !! i = Some ib /\ k = Uint64ToBytes (injectedIndex i) /\ v = Injected_Marshall ib).

Lemma WriteInjected_ok ib bs tx : injected_table (tx_table tx L1_INJECTED_BATCHES) bs ->
  Z.of_nat (length bs) < 2 ^ 64 - 1 ->
  exists tx', WriteL1InjectedBatch ib tx = Ok tx' /\ injected_table (tx_table tx' L1_INJECTED_BATCHES) (bs ++ [ib]).
Proof.
  intros [Hsize Htab] Hlen. unfold WriteL1InjectedBatch. rewrite law_Count, bind_ok, Hsize.
  replace (if 0 <? Z.of_nat (length bs) then u64 (Z.of_nat (length bs) + 1) else 0) with (injectedIndex (length bs))
    by (unfold injectedIndex; destruct (length bs); [done|]; rewrite u64_small by lia; done).
  cbv zeta. destruct (law_Put L1_INJECTED_BATCHES (Uint64ToBytes (injectedIndex (length bs))) (Injected_Marshall ib) tx)
    as (tx' & Hw & Ht). exists tx'. split; [exact Hw|]. rewrite Ht, decide_True by done.
  assert (forall i ib', bs !! i = Some ib' ->
    Uint64ToBytes (injectedIndex (length bs)) <> Uint64ToBytes (injectedIndex i)) as Hne.
  { intros i ib' Hi He. apply lookup_lt_Some in Hi.
    apply Uint64ToBytes_inj in He; [|apply injectedIndex_range; lia..]. apply injectedIndex_inj in He. lia. }
  split.
  - rewrite map_size_insert_None, Hsize, length_app; [simpl; lia|].
    destruct (_ !! _) as [v|] eqn:Hv; [|done]. apply Htab in Hv as (i & ib' & Hi & He & _). by destruct (Hne i ib').
  - intros k v. rewrite lookup_insert_Some, Htab. split.
    + intros [[<- <-]|(_ & i & ib' & Hi & -> & ->)].
      * exists (length bs), ib. by rewrite list_lookup_middle.
      * exists i, ib'. split; [by apply lookup_app_l_Some|done].
    + intros (i & ib' & Hi & -> & ->). apply lookup_snoc_Some in Hi as [[Hlt Hi]|[-> ->]]; [|by left].
      right. split; [by eapply Hne|]. eauto.
Qed.

Lemma writeInjected_ok bs2 : forall bs1 tx, injected_table (tx_table tx L1_INJECTED_BATCHES) bs1 ->
  Z.of_nat (length (bs1 ++ bs2)) < 2 ^ 64 ->
  exists tx', writeInjected bs2 tx = Ok tx' /\ injected_table (tx_table tx' L1_INJECTED_BATCHES) (bs1 ++ bs2).
Proof.
  induction bs2 as [|ib bs2 IH]; intros bs1 tx Ht Hl; [exists tx; by rewrite app_nil_r|]. cbn [writeInjected].
  rewrite length_app in Hl. cbn [length] in Hl. destruct (WriteInjected_ok ib bs1 tx Ht) as (tx1 & -> & Ht1); [lia|].
  rewrite bind_ok. destruct (IH (bs1 ++ [ib]) tx1 Ht1) as (tx2 & Hw & Ht2).
  { rewrite !length_app. cbn [length]. lia. }
  exists tx2. split; [exact Hw|]. by rewrite <- app_assoc in Ht2.
Qed.

(** Injected batches skip an index.  After any number of writes to an empty
    table the first batch is found under index 0, but the second under 2, the third
    under 3 and so on; there is never a batch under index 1, where a reader that
    counts up finds an error. *)
Theorem injected_batches_skip_index bs tx : Forall injected_ok bs -> Z.of_nat (length bs) < 2 ^ 64 ->
  tx_table tx L1_INJECTED_BATCHES = ∅ ->
  exists tx', writeInjected bs tx = Ok tx' /\
    (forall i ib, bs !! i = Some ib -> GetL1InjectedBatch (injectedIndex i) tx' = Ok ib) /\
    GetL1InjectedBatch 1 tx' = Err "unmarshall error, input is too short".
Proof.
  intros Hok Hl H0. destruct (writeInjected_ok bs [] tx) as (tx' & Hw & _ & Htab).
  { split; [by rewrite H0|]. intros k v. rewrite H0, lookup_empty. split; [done|]. by intros (i & ib & Hi & _). }
  { done. }
  exists tx'. split; [exact Hw|]. unfold GetL1InjectedBatch. split.
  - intros i ib Hi. rewrite law_GetOne, bind_ok. cbn [app] in Htab.
    rewrite (proj2 (Htab _ (Injected_Marshall ib))) by eauto.
    apply Injected_round_trip. rewrite Forall_forall in Hok. by apply Hok, list_elem_of_lookup_2 with i.
  - rewrite law_GetOne, bind_ok. destruct (_ !! _) as [v|] eqn:Hv; [|done]. exfalso.
    apply Htab in Hv as (i & ib & Hi & He & _). apply lookup_lt_Some in Hi. cbn [app] in Hi.
    apply Uint64ToBytes_inj in He; [|done|apply injectedIndex_range; lia].
    unfold injectedIndex in He. destruct i; cbn [Nat.eqb] in He; lia.
Qed.

(** ** Progress *)

(** Later blocks have higher indices. *)
Definition increasing (f : gmap Z Z) : Prop :=
  forall b1 n1 b2 n2, f !! b1 = Some n1 -> f !! b2 = Some n2 -> b1 < b2 -> n1 < n2.

(** The last block and its index; zeros for an empty map. *)
Definition latest_of (f : gmap Z Z) (lb li : Z) : Prop :=
  (f = ∅ /\ lb = 0 /\ li = 0) \/ (f !! lb = Some li /\ forall b n, f !! b = Some n -> b <= lb).

Lemma GetProgress_ok tx f : uint_table (tx_table tx BLOCK_L1_INFO_TREE_INDEX_PROGRESS) f ->
  exists lb li, GetLatestBlockL1InfoTreeIndexProgress tx = Ok (lb, li) /\ latest_of f lb li.
Proof.
  intros Hf. unfold GetLatestBlockL1InfoTreeIndexProgress. rewrite law_Last, bind_ok. pose proof (ut_last _ _ Hf) as Hl.
  destruct (last _) as [[k v]|].
  - destruct Hl as (b & n & Hb & -> & -> & Hmax). destruct (ut_range _ _ Hf _ _ Hb). exists b, n. cbn [default from_option id].
    rewrite !BytesToUint64_U by done. split; [done|]. right. done.
  - exists 0, 0. split; [done|]. by left.
Qed.

(** Progress only moves forward.  On a table in which later blocks have higher
    L1 info tree indices, a write for a block before the last one is an error, a write
    of an index that is not higher changes nothing, and every other write keeps the
    table increasing; in each case the last entry is the highest of both. *)
Theorem l1_info_progress_increases tx f b i :
  uint_table (tx_table tx BLOCK_L1_INFO_TREE_INDEX_PROGRESS) f -> increasing f -> uint64 b -> uint64 i ->
  exists lb li, GetLatestBlockL1InfoTreeIndexProgress tx = Ok (lb, li) /\ latest_of f lb li /\
    (forall b' n', f !! b' = Some n' -> n' <= li) /\
    (b < lb -> WriteBlockL1InfoTreeIndexProgress b i tx = Err "unable to set l1index") /\
    (lb <= b -> i <= li -> WriteBlockL1InfoTreeIndexProgress b i tx = Ok tx) /\
    (lb <= b -> li < i -> exists tx', WriteBlockL1InfoTreeIndexProgress b i tx = Ok tx' /\
       uint_table (tx_table tx' BLOCK_L1_INFO_TREE_INDEX_PROGRESS) (<[b := i]> f) /\ increasing (<[b := i]> f) /\
       GetLatestBlockL1InfoTreeIndexProgress tx' = Ok (b, i)).
Proof.
  intros Hf Hinc Hb Hi. destruct (GetProgress_ok tx f Hf) as (lb & li & Hg & Hlat). exists lb, li.
  assert (forall b' n', f !! b' = Some n' -> n' <= li /\ b' <= lb) as Hmax.
  { intros b' n' Hb'. destruct Hlat as [(-> & _)|[Hlb Hmax]]; [by rewrite lookup_empty in Hb'|].
    specialize (Hmax _ _ Hb'). split; [|done]. destruct (decide (b' = lb)) as [->|]; [|specialize (Hinc _ _ _ _ Hb' Hlb); lia].
    rewrite Hlb in Hb'. injection Hb' as ->. lia. }
  split; [done|]. split; [done|]. split; [intros b' n' Hb'; by destruct (Hmax _ _ Hb')|].
  unfold WriteBlockL1InfoTreeIndexProgress. rewrite Hg, bind_ok. split; [intros Hlt; by rewrite (proj2 (Z.ltb_lt b lb))|].
  split; [intros Hge Hle; by rewrite (proj2 (Z.ltb_ge b lb)), (proj2 (Z.leb_le i li))|]. intros Hge Hgt.
  rewrite (proj2 (Z.ltb_ge b lb)), (proj2 (Z.leb_gt i li)) by done.
  destruct (law_Put BLOCK_L1_INFO_TREE_INDEX_PROGRESS (Uint64ToBytes b) (Uint64ToBytes i) tx) as (tx' & Hw & Ht).
  exists tx'. split; [exact Hw|]. pose proof (Ht BLOCK_L1_INFO_TREE_INDEX_PROGRESS) as Hp. rewrite decide_True in Hp by done.
  assert (uint_table (tx_table tx' BLOCK_L1_INFO_TREE_INDEX_PROGRESS) (<[b := i]> f)) as Hf'
    by (rewrite Hp; by apply ut_insert).
  split; [done|]. split.
  - intros b1 n1 b2 n2 H1 H2 Hlt. apply lookup_insert_Some in H1 as [[<- <-]|[_ H1]]; apply lookup_insert_Some in H2 as [[<- <-]|[_ H2]].
    + lia.
    + apply Hmax in H2. lia.
    + apply Hmax in H1. lia.
    + by eapply Hinc.
  - destruct (GetProgress_ok tx' _ Hf') as (lb' & li' & -> & [(He & _)|[Hlb' Hmax']]); [by destruct (insert_non_empty _ _ _ He)|].
    assert (b <= lb') by (apply (Hmax' b i); by rewrite lookup_insert_eq).
    apply lookup_insert_Some in Hlb' as [[<- <-]|[Hne Hlb']]; [done|]. apply Hmax in Hlb'. lia.
Qed.

(** ** Depths *)

Lemma walk_continue {St} (g : list Z -> list Z -> St -> St) l : forall s,
  walk (fun k v s => Ok (Continue (g k v s))) l s = Ok (foldl (fun s e => g (fst e) (snd e) s) s l).
Proof. induction l as [|[k v] l IH]; intros s; [done|]. cbn [walk]. rewrite bind_ok. apply IH. Qed.

Lemma distance_abs a b : uint64 a -> uint64 b -> distance a b = Z.abs (a - b).
Proof. unfold uint64, distance. intros Ha Hb. destruct (Z.ltb_spec b a); rewrite u64_small; lia. Qed.

Section closest.
Context (x : Z).

Definition closer (s : Z * Z * Z) (e : entry) : Z * Z * Z :=
  let currentBlock := BytesToUint64 (fst e) in
  if distance currentBlock x <? snd s then (currentBlock, BytesToUint64 (snd e), distance currentBlock x) else s.

Definition dist (e : entry) : Z := distance (BytesToUint64 (fst e)) x.

Lemma closer_fold l : StronglySorted (fun a b => BytesToUint64 (fst a) < BytesToUint64 (fst b)) l -> forall s,
  let s' := foldl closer s l in
  (forall e, e ∈ l -> snd s' <= dist e) /\
  (s' = s \/ exists e, e ∈ l /\ s' = (BytesToUint64 (fst e), BytesToUint64 (snd e), dist e) /\ dist e < snd s /\
     forall e', e' ∈ l -> dist e' = dist e -> BytesToUint64 (fst e) <= BytesToUint64 (fst e')) /\ snd s' <= snd s.
Proof.
  induction 1 as [|e l Hs IH Hlt]; intros s; cbn [foldl].
  { split; [intros e He; by apply not_elem_of_nil in He|]. split; [by left|lia]. }
  rewrite Forall_forall in Hlt. destruct (IH (closer s e)) as (H1 & H2 & H3).
  unfold closer in H1, H2, H3 |- *. fold (dist e) in H1, H2, H3 |- *. fold closer in H1, H2, H3 |- *.
  destruct (Z.ltb_spec (dist e) (snd s)) as [Hd|Hd]; cbn [snd] in H2, H3.
  - split; [intros e' [->|He']%elem_of_cons; auto|]. split; [|lia]. right.
    destruct H2 as [->|(e2 & He2 & -> & Hd2 & Htie)].
    + exists e. split; [left|]. split; [done|]. split; [done|].
      intros e' [->|He']%elem_of_cons _; [lia|]. specialize (Hlt _ He'). lia.
    + exists e2. split; [by right|]. split; [done|]. split; [lia|].
      intros e' [->|He']%elem_of_cons Ht; [lia|auto].
  - split; [intros e' [->|He']%elem_of_cons; [lia|auto]|]. split; [|done].
    destruct H2 as [->|(e2 & He2 & -> & Hd2 & Htie)]; [by left|]. right.
    exists e2. split; [by right|]. split; [done|]. split; [lia|].
    intros e' [->|He']%elem_of_cons Ht; [lia|auto].
Qed.
End closest.

Lemma ut_sorted m f : uint_table m f ->
  StronglySorted (fun a b => BytesToUint64 (fst a) < BytesToUint64 (fst b)) (entries m).
Proof.
  intros Hf. pose proof (entries_sorted m) as Hs.
  assert (forall e, e ∈ entries m -> exists b, uint64 b /\ fst e = Uint64ToBytes b) as Hk.
  { intros [k v] He. destruct (ut_entry _ _ _ _ Hf He) as (b & n & _ & Hb & _ & -> & _). eauto. }
  induction Hs as [|e l Hs IH Hlt]; constructor; [apply IH; intros; apply Hk; by right|].
  rewrite Forall_forall in Hlt |- *. intros e' He'. specialize (Hlt _ He'). unfold entry_lt in Hlt.
  destruct (Hk e ltac:(left)) as (b & Hb & He). destruct (Hk e' ltac:(by right)) as (b' & Hb' & Heq).
  rewrite He, Heq in Hlt |- *.
  rewrite Uint64ToBytes_lt in Hlt by done. rewrite !BytesToUint64_U by done. lia.
Qed.

Lemma closest_ok tx f x : uint_table (tx_table tx SMT_DEPTHS) f -> (size (tx_table tx SMT_DEPTHS) <= fuel)%nat ->
  0 <= x < MaxUint64 -> (forall b n, f !! b = Some n -> b < MaxUint64) ->
  exists b d, GetClosestSmtDepth x tx = Ok (b, d) /\ (f = ∅ -> b = 0 /\ d = 0) /\
    (f <> ∅ -> f !! b = Some d /\ forall b' d', f !! b' = Some d' ->
       Z.abs (b - x) < Z.abs (b' - x) \/ Z.abs (b - x) = Z.abs (b' - x) /\ b <= b').
Proof.
  intros Hf Hs Hx Hlt. unfold GetClosestSmtDepth. rewrite scan_walk, walk_continue, bind_ok by done.
  change (foldl _ _ _) with (foldl (closer x) (0, 0, MaxUint64) (entries (tx_table tx SMT_DEPTHS))).
  destruct (closer_fold x _ (ut_sorted _ _ Hf) (0, 0, MaxUint64)) as (H1 & H2 & _).
  assert (forall b n, f !! b = Some n -> dist x (Uint64ToBytes b, Uint64ToBytes n) = Z.abs (b - x)) as Hdist.
  { intros b n Hb. destruct (ut_range _ _ Hf _ _ Hb). unfold dist. cbn [fst].
    rewrite BytesToUint64_U by done. apply distance_abs; [done|]. unfold uint64, MaxUint64 in *. lia. }
  destruct H2 as [Heq|([k v] & He & Heq & _ & Htie)]; rewrite Heq in H1 |- *; eexists _, _; (split; [reflexivity|]).
  - split; [done|]. intros Hne. exfalso. apply Hne, map_empty. intros b. destruct (f !! b) as [n|] eqn:Hb; [|done].
    specialize (H1 _ (ut_elem _ _ _ _ Hf Hb)). rewrite (Hdist _ _ Hb) in H1. cbn [snd] in H1.
    specialize (Hlt _ _ Hb). destruct (ut_range _ _ Hf _ _ Hb) as [Hr _]. unfold uint64, MaxUint64 in *. lia.
  - destruct (ut_entry _ _ _ _ Hf He) as (b & n & Hb & _ & _ & -> & -> & Hk & Hv). cbn [fst snd] in H1, Htie |- *. rewrite Hk, Hv in *.
    split; [intros ->; by rewrite lookup_empty in Hb|]. intros _. split; [done|]. intros b' d' Hb'.
    specialize (H1 _ (ut_elem _ _ _ _ Hf Hb')). specialize (Htie _ (ut_elem _ _ _ _ Hf Hb')).
    rewrite (Hdist _ _ Hb), (Hdist _ _ Hb') in *. cbn [fst] in Htie.
    rewrite BytesToUint64_U in Htie by (by destruct (ut_range _ _ Hf _ _ Hb')). lia.
Qed.

Lemma truncateDepths_ok tx f x : uint_table (tx_table tx SMT_DEPTHS) f -> (size (tx_table tx SMT_DEPTHS) <= fuel)%nat ->
  0 <= x < MaxUint64 ->
  exists tx', TruncateSmtDepths x tx = Ok tx' /\ (forall t, t <> SMT_DEPTHS -> tx_table tx' t = tx_table tx t) /\
    uint_table (tx_table tx' SMT_DEPTHS) (filter (fun bn => fst bn <= x) f).
Proof.
  intros Hf Hs Hx. unfold MaxUint64 in Hx. unfold TruncateSmtDepths. rewrite law_Seek, bind_ok, u64_small by lia.
  set (P := fun e : entry => bytes_leb (Uint64ToBytes (x + 1)) (fst e) = true).
  destruct (sorted_filter_tail (tx_table tx SMT_DEPTHS) P) as (l1 & Hl1); [by intros a b Ha Hab; eapply leb_up|].
  pose proof (sorted_filter_split _ P l1 Hl1) as Hsplit.
  destruct (forEachWrite_delete SMT_DEPTHS (fun _ => true) (filter P (entries (tx_table tx SMT_DEPTHS))) fuel l1 tx Hl1)
    as (tx' & Hw & Ho & He).
  { pose proof (length_entries (tx_table tx SMT_DEPTHS)) as Hl. rewrite Hl1, length_app in Hl. lia. }
  exists tx'. split; [exact Hw|]. split; [done|]. rewrite filter_keep_none, app_nil_r in He by done. split.
  - intros b n [Hb _]%map_lookup_filter_Some. by apply (ut_range _ _ Hf).
  - intros k v. rewrite <- elem_of_entries, He, Hsplit, elem_of_entries, (ut_entries _ _ Hf). split.
    + intros [(b & n & Hb & -> & ->) Hp]. exists b, n. split; [|done]. apply map_lookup_filter_Some. split; [done|].
      cbn [fst]. unfold P, bytes_leb in Hp. cbn [fst] in Hp. destruct (ut_range _ _ Hf _ _ Hb).
      rewrite Uint64ToBytes_lt in Hp by (done || unfold uint64; lia). destruct (Z.ltb_spec b (x + 1)); [lia|done].
    + intros (b & n & [Hb Hle]%map_lookup_filter_Some & -> & ->). split; [eauto|]. unfold P, bytes_leb. cbn [fst] in *.
      destruct (ut_range _ _ Hf _ _ Hb). rewrite Uint64ToBytes_lt by (done || unfold uint64; lia).
      by rewrite (proj2 (Z.ltb_lt b (x + 1))) by lia.
Qed.

(** The depths of the tree.  The depth looked up for a block is that of the
    nearest block with one, the lower of two that are equally near; for an empty table
    it is 0.  Truncating from a block on keeps the depth of that block itself and of
    all before it, and removes all later ones. *)
Theorem smt_depths tx f x : uint_table (tx_table tx SMT_DEPTHS) f -> (size (tx_table tx SMT_DEPTHS) <= fuel)%nat ->
  0 <= x < MaxUint64 -> (forall b n, f !! b = Some n -> b < MaxUint64) ->
  (exists b d, GetClosestSmtDepth x tx = Ok (b, d) /\ (f = ∅ -> b = 0 /\ d = 0) /\
     (f <> ∅ -> f !! b = Some d /\ forall b' d', f !! b' = Some d' ->
        Z.abs (b - x) < Z.abs (b' - x) \/ Z.abs (b - x) = Z.abs (b' - x) /\ b <= b')) /\
  (exists tx', TruncateSmtDepths x tx = Ok tx' /\ (forall t, t <> SMT_DEPTHS -> tx_table tx' t = tx_table tx t) /\
     uint_table (tx_table tx' SMT_DEPTHS) (filter (fun bn => fst bn <= x) f)).
Proof. intros Hf Hs Hx Hlt. split; [by apply closest_ok|by apply truncateDepths_ok]. Qed.

(** ** Exit roots of batches *)

Record ger_table (m : table) (h : gmap Z GerUpdate) : Prop := {
  gt_range b g : h !! b = Some g -> uint64 b /\ ger_ok g;
  gt_entries k v : m !! k = Some v <-> exists b g, h !! b = Some g /\ k = Uint64ToBytes b /\ v = Ger_EncodeToBytes g;
}.

Lemma Ger_bytes_length g : ger_ok g -> length (Ger_EncodeToBytes g) = 106%nat.
Proof.
  intros [? ? ? ? ? ? ?]. unfold Ger_EncodeToBytes. rewrite !length_app, !le_encode_length. lia.
Qed.

(** The last update so far. *)
Definition last_ger (h : gmap Z GerUpdate) (n : Z) (s : option GerUpdate * Z) : Prop :=
  match fst s with None => snd s = 0 | Some g => h !! snd s = Some g /\ 0 < snd s <= n end.

Lemma ger_walk (h : gmap Z GerUpdate) n l : (forall k v, (k, v) ∈ l -> exists b g, h !! b = Some g /\ uint64 b /\ ger_ok g /\
    k = Uint64ToBytes b /\ v = Ger_EncodeToBytes g) -> forall s, last_ger h n s ->
  exists s', walk (lastGerStep n) l s = Ok s' /\ snd s <= snd s' /\ last_ger h n s' /\
    forall k v, (k, v) ∈ l -> BytesToUint64 k <= snd s' \/ n < BytesToUint64 k.
Proof.
  induction l as [|[k v] l IH]; intros Hl s Hs.
  { exists s. split; [done|]. split; [lia|]. split; [done|]. intros k v Hin. by apply not_elem_of_nil in Hin. }
  destruct (Hl k v ltac:(left)) as (b & g & Hb & Hub & Hg & -> & ->). cbn [walk].
  assert (exists s1, lastGerStep n (Uint64ToBytes b) (Ger_EncodeToBytes g) s = Ok (Continue s1) /\ snd s <= snd s1 /\
    last_ger h n s1 /\ (b <= snd s1 \/ n < b)) as (s1 & -> & Hle & Hs1 & Hb1).
  { unfold lastGerStep. rewrite Ger_bytes_length, BytesToUint64_U by done. cbn [Nat.eqb negb andb].
    destruct ((snd s <? b) && (b <=? n)) eqn:Hc.
    - apply andb_true_iff in Hc as [Hc1%Z.ltb_lt Hc2%Z.leb_le]. rewrite Ger_round_trip, bind_ok by done.
      eexists. split; [done|]. cbn [snd]. split; [lia|]. split; [|lia]. split; [done|]. cbn [snd]. split; [|done].
      unfold last_ger in Hs. destruct (fst s); [destruct Hs as [_ ?]; lia|lia].
    - exists s. split; [done|]. split; [lia|]. split; [done|]. apply andb_false_iff in Hc.
      rewrite Z.ltb_ge, Z.leb_gt in Hc. lia. }
  rewrite bind_ok. destruct (IH ltac:(intros; apply Hl; by right) s1 Hs1) as (s' & Hw & Hle' & Hs' & Hall).
  exists s'. split; [exact Hw|]. split; [lia|]. split; [done|].
  intros k' v' [[-> _]%pair_equal_spec|Hin]%elem_of_cons; [|by eapply Hall]. rewrite BytesToUint64_U by done. lia.
Qed.

(** The batch number of the last exit root is lost.  [GetLastBatchGlobalExitRoot]
    returns the update of the last batch up to the given one, but as its batch number
    always 0, because the loop assigns to a variable of its own. *)
Theorem last_exit_root_number_lost tx h n : ger_table (tx_table tx GLOBAL_EXIT_ROOTS_BATCHES) h ->
  (size (tx_table tx GLOBAL_EXIT_ROOTS_BATCHES) <= fuel)%nat ->
  exists og, GetLastBatchGlobalExitRoot n tx = Ok (og, 0) /\
    match og with
    | Some g => exists b, h !! b = Some g /\ 0 < b <= n /\ forall b' g', h !! b' = Some g' -> b' <= b \/ n < b'
    | None => forall b' g', h !! b' = Some g' -> b' = 0 \/ n < b'
    end.
Proof.
  intros Hh Hs. unfold GetLastBatchGlobalExitRoot. rewrite scan_walk by done.
  destruct (ger_walk h n (entries (tx_table tx GLOBAL_EXIT_ROOTS_BATCHES))) with (s := (@None GerUpdate, 0))
    as ([og last] & -> & _ & Hcase & Hall); [|done|].
  { intros k v Hin. apply elem_of_entries, (gt_entries _ _ Hh) in Hin as (b & g & Hb & -> & ->).
    destruct (gt_range _ _ Hh _ _ Hb). eauto 10. }
  rewrite bind_ok. exists og. split; [done|]. cbn [fst snd] in *.
  assert (forall b' g', h !! b' = Some g' -> (b' <= last \/ n < b') /\ 0 <= b') as Hall'.
  { intros b' g' Hb'. destruct (gt_range _ _ Hh _ _ Hb') as [Hr _]. split; [|by destruct Hr].
    rewrite <- (BytesToUint64_U b') by done. apply (Hall _ (Ger_EncodeToBytes g')), elem_of_entries, (gt_entries _ _ Hh). eauto. }
  unfold last_ger in Hcase. cbn [fst snd] in Hcase. destruct og as [g|].
  - destruct Hcase as [Hg Hr]. exists last. split; [done|]. split; [done|]. intros b' g' Hb'. by apply Hall' in Hb' as [? _].
  - subst. intros b' g' Hb'. apply Hall' in Hb'. lia.
Qed.

(** ** Intervals of forks *)

Lemma GetForkIdBlock_ok tx g F : uint_table (tx_table tx FORKID_BLOCK) g -> (size (tx_table tx FORKID_BLOCK) <= fuel)%nat ->
  GetForkIdBlock F tx = Ok (default 0 (g !! F), bool_decide (is_Some (g !! F))).
Proof.
  intros Hg Hs. unfold GetForkIdBlock. rewrite scan_walk by done.
  assert (forall l, (forall k v, (k, v) ∈ l -> exists b n, g !! b = Some n /\ BytesToUint64 k = b /\ BytesToUint64 v = n) ->
    walk (fun k v s => if BytesToUint64 k =? F then Ok (Break (BytesToUint64 v, true)) else Ok (Continue s)) l (0, false) =
      if existsb (fun e => BytesToUint64 (fst e) =? F) l then Ok (default 0 (g !! F), true) else Ok (0, false)) as Hw.
  { induction l as [|[k v] l IH]; intros Hl; [done|]. cbn [walk existsb fst].
    destruct (Hl k v ltac:(left)) as (b & n & Hb & Hk & Hv).
    destruct (Z.eqb_spec (BytesToUint64 k) F) as [He|He]; rewrite bind_ok; cbn [orb].
    - rewrite <- He, Hk, Hb, Hv. done.
    - apply IH. intros; apply Hl. by right. }
  rewrite Hw; clear Hw.
  2: { intros k v Hin. destruct (ut_entry _ _ _ _ Hg Hin) as (b & n & ? & _ & _ & _ & _ & ? & ?). eauto. }
  destruct (existsb _ _) eqn:He.
  - apply existsb_exists in He as ([k v] & Hin%list_elem_of_In & Hk%Z.eqb_eq).
    destruct (ut_entry _ _ _ _ Hg Hin) as (b & n & Hb & _ & _ & _ & _ & Hkb & _). cbn [fst] in Hk.
    rewrite bool_decide_true; [done|]. rewrite <- Hk, Hkb, Hb. eauto.
  - destruct (g !! F) as [n|] eqn:HF; [|done]. exfalso.
    assert (existsb (fun e => BytesToUint64 (fst e) =? F) (entries (tx_table tx FORKID_BLOCK)) = true) as Hc; [|congruence].
    apply existsb_exists. eexists. split; [apply list_elem_of_In, (ut_elem _ _ _ _ Hg HF)|]. cbn [fst].
    destruct (ut_range _ _ Hg _ _ HF). rewrite BytesToUint64_U by done. apply Z.eqb_refl.
Qed.

Section intervals.
Context (filterId : option Z).

Definition wanted (F : Z) : Prop := match filterId with Some f => f = F | None => True end.

(** What the loop knows after some entries, as pairs of batch and fork. *)
Record intervals_of (l : list (Z * Z)) (s : gmap Z ForkInterval * Z) : Prop := {
  io_each F i : fst s !! F = Some i -> wanted F /\ ForkID i = F /\ BlockNumber i = 0 /\
    (FromBatchNumber i, F) ∈ l /\ (ToBatchNumber i, F) ∈ l /\
    (forall b, (b, F) ∈ l -> FromBatchNumber i <= b <= ToBatchNumber i);
  io_some b F : (b, F) ∈ l -> wanted F -> is_Some (fst s !! F);
  io_last b F : (b, F) ∈ l -> F <= snd s;
  io_reached : snd s = 0 \/ exists b, (b, snd s) ∈ l;
}.

Lemma intervals_nil : intervals_of [] (∅, 0).
Proof.
  split; cbn [fst snd].
  - intros F i Hi. by rewrite lookup_empty in Hi.
  - intros b F Hin. by apply not_elem_of_nil in Hin.
  - intros b F Hin. by apply not_elem_of_nil in Hin.
  - by left.
Qed.

Lemma addInterval_ok l s b F : uint64 b -> uint64 F -> intervals_of l s ->
  intervals_of (l ++ [(b, F)]) (addInterval filterId (Uint64ToBytes b) (Uint64ToBytes F) s).
Proof.
  intros Hb HF [He Hs Hl Hr]. unfold addInterval. rewrite !BytesToUint64_U by done.
  set (last := if snd s <? F then F else snd s).
  assert (forall b' F', (b', F') ∈ l ++ [(b, F)] -> F' <= last) as Hlast.
  { intros b' F' [Hin|[-> ->]%list_elem_of_singleton%pair_equal_spec]%elem_of_app; [apply Hl in Hin|];
      unfold last; destruct (Z.ltb_spec (snd s) F); lia. }
  assert (last = 0 \/ exists b', (b', last) ∈ l ++ [(b, F)]) as Hreach.
  { unfold last. destruct (Z.ltb_spec (snd s) F).
    - right. exists b. apply elem_of_app. right. left.
    - destruct Hr as [?|[b' ?]]; [by left|]. right. exists b'. apply elem_of_app. by left. }
  assert (forall b' F', (b', F') ∈ l -> (b', F') ∈ l ++ [(b, F)]) as Hsub by (intros; apply elem_of_app; by left).
  destruct (match filterId with Some f => negb (f =? F) | None => false end) eqn:Hskip.
  - assert (~ wanted F) as Hnw.
    { unfold wanted. destruct filterId as [f|]; [|done]. by apply negb_true_iff, Z.eqb_neq in Hskip. }
    split; cbn [fst snd]; [| |done|done].
    + intros F' i Hi. destruct (He F' i Hi) as (Hw & H1 & H2 & H3 & H4 & H5). split_and!; auto.
      intros b' [Hin|[-> ->]%list_elem_of_singleton%pair_equal_spec]%elem_of_app; [auto|done].
    + intros b' F' [Hin|[-> ->]%list_elem_of_singleton%pair_equal_spec]%elem_of_app Hw; [by eapply Hs|done].
  - assert (wanted F) as Hw.
    { unfold wanted. destruct filterId as [f|]; [|done]. by apply negb_false_iff, Z.eqb_eq in Hskip. }
    match goal with |- intervals_of _ (<[_ := ?w]> _, _) => remember w as i eqn:Ei end.
    assert (ForkID i = F /\ BlockNumber i = 0 /\ (FromBatchNumber i, F) ∈ l ++ [(b, F)] /\ (ToBatchNumber i, F) ∈ l ++ [(b, F)] /\
      FromBatchNumber i <= b <= ToBatchNumber i /\ forall b', (b', F) ∈ l -> FromBatchNumber i <= b' <= ToBatchNumber i)
      as (H1 & H2 & H3 & H4 & H5 & H6).
    { assert ((b, F) ∈ l ++ [(b, F)]) as Hnew by (apply elem_of_app; right; left).
      destruct (fst s !! F) as [j|] eqn:Hj; cbn [default from_option id] in Ei.
      - destruct (He F j Hj) as (_ & J1 & J2 & J3 & J4 & J5). specialize (J5 _ J3) as J6.
        destruct (Z.ltb_spec b (FromBatchNumber j)); cbn in Ei;
          (destruct (Z.ltb_spec (ToBatchNumber j) b); subst i; cbn; split_and!; auto; try lia;
           intros b' Hb'%J5; lia).
      - cbn [FromBatchNumber] in Ei. rewrite Z.ltb_irrefl in Ei. cbn [ToBatchNumber] in Ei. rewrite Z.ltb_irrefl in Ei.
        subst i; cbn. split_and!; auto; try lia.
        all: intros b' Hb'; destruct (Hs b' F Hb' Hw) as [? Hs']; congruence. }
    clear Ei. split; cbn [fst snd]; [| |done|done].
    + intros F' i' [[-> ->]|[Hne Hi]]%lookup_insert_Some.
      * split_and!; auto. intros b' [Hin|[-> _]%list_elem_of_singleton%pair_equal_spec]%elem_of_app; [auto|lia].
      * destruct (He F' i' Hi) as (Hw' & J1 & J2 & J3 & J4 & J5). split_and!; auto.
        intros b' [Hin|[-> ->]%list_elem_of_singleton%pair_equal_spec]%elem_of_app; [auto|done].
    + intros b' F' Hin Hw'. destruct (decide (F = F')) as [->|Hne]; [rewrite lookup_insert_eq; eauto|].
      rewrite lookup_insert_ne by done.
      apply elem_of_app in Hin as [Hin|[-> ->]%list_elem_of_singleton%pair_equal_spec]; [by eapply Hs|done].
Qed.

Lemma intervals_fold es : forall l s, intervals_of l s ->
  Forall (fun e => exists b F, uint64 b /\ uint64 F /\ e = (Uint64ToBytes b, Uint64ToBytes F)) es ->
  intervals_of (l ++ map (fun e => (BytesToUint64 (fst e), BytesToUint64 (snd e))) es)
    (foldl (fun s e => addInterval filterId (fst e) (snd e) s) s es).
Proof.
  induction es as [|e es IH]; intros l s Hs Hall; [by rewrite app_nil_r|].
  apply Forall_cons in Hall as [(b & F & Hb & HF & ->) Hall]. cbn [foldl map fst snd].
  rewrite !BytesToUint64_U, (cons_middle (b, F)), app_assoc by done. apply IH; [by apply addInterval_ok|done].
Qed.

Definition finish (lastForkId : Z) (g : gmap Z Z) (i : ForkInterval) : ForkInterval :=
  mkInterval (ForkID i) (FromBatchNumber i) (if ForkID i =? lastForkId then MaxUint64 else ToBatchNumber i)
    (default 0 (g !! ForkID i)).

Lemma finishIntervals_ok lastForkId tx g l :
  uint_table (tx_table tx FORKID_BLOCK) g -> (size (tx_table tx FORKID_BLOCK) <= fuel)%nat ->
  (forall F i, (F, i) ∈ l -> ForkID i = F /\ BlockNumber i = 0) ->
  finishIntervals lastForkId l tx = Ok (map (finish lastForkId g) (l.*2)).
Proof.
  intros Hg Hsz. induction l as [|[F i] l IH]; intros Hl; [done|]. cbn [finishIntervals].
  destruct (Hl F i ltac:(left)) as [HF HB]. rewrite (GetForkIdBlock_ok tx g), bind_ok by done. cbn [fst snd].
  rewrite IH, bind_ok by (intros; apply Hl; by right). rewrite fmap_cons. cbn [map snd]. unfold finish at 2. rewrite HF. do 2 f_equal.
  destruct i as [F' fb tb bn]; cbn in *; subst F' bn.
  destruct (g !! F) as [n|]; cbn; destruct (F =? lastForkId); done.
Qed.

(** The interval of a fork: from the first batch of the fork to the last one,
    the highest fork has no end. *)
Definition fork_interval (f g : gmap Z Z) (i : ForkInterval) : Prop :=
  wanted (ForkID i) /\ f !! FromBatchNumber i = Some (ForkID i) /\
  (forall b, f !! b = Some (ForkID i) -> FromBatchNumber i <= b) /\
  BlockNumber i = default 0 (g !! ForkID i) /\
  (((forall b F, f !! b = Some F -> F <= ForkID i) /\ ToBatchNumber i = MaxUint64) \/
   ((exists b F, f !! b = Some F /\ ForkID i < F) /\ f !! ToBatchNumber i = Some (ForkID i) /\
    forall b, f !! b = Some (ForkID i) -> b <= ToBatchNumber i)).

Lemma finish_interval l s f g : intervals_of l s -> (forall b F, (b, F) ∈ l <-> f !! b = Some F) ->
  (forall b F, f !! b = Some F -> 0 <= F) ->
  forall i, i ∈ map (finish (snd s) g) ((map_to_list (fst s)).*2) <-> fork_interval f g i.
Proof.
  intros [He Hs Hl Hr] Hf Hpos i. rewrite list_elem_of_In, in_map_iff. setoid_rewrite <- list_elem_of_In.
  split.
  - intros (j & <- & Hj). apply list_elem_of_fmap in Hj as ([F j'] & -> & Hj). apply elem_of_map_to_list in Hj. cbn [snd].
    destruct (He _ _ Hj) as (Hw & <- & _ & Hfrom & Hto & Hall). split_and!; cbn; [done|by apply Hf| |done|].
    { intros b Hb%Hf. by destruct (Hall b Hb). }
    destruct (Z.eqb_spec (ForkID j') (snd s)) as [Hlast|Hlast].
    + left. split; [|done]. rewrite Hlast. intros b F Hb%Hf. by eapply Hl.
    + right. split; [|split; [by apply Hf|intros b Hb%Hf; by destruct (Hall b Hb)]].
      apply Hl in Hfrom as Hle. destruct Hr as [Hz|[b Hb]]; [|exists b, (snd s); split; [by apply Hf|lia]].
      apply Hf, Hpos in Hfrom. lia.
  - intros (Hw & Hfrom & Hmin & HB & Hto). apply Hf in Hfrom as Hin. destruct (Hs _ _ Hin Hw) as [j Hj].
    destruct (He _ _ Hj) as (_ & HF & _ & Hjf & Hjt & Hall). exists j. split.
    2: { apply list_elem_of_fmap. exists (ForkID i, j). split; [done|]. by apply elem_of_map_to_list. }
    assert (FromBatchNumber j = FromBatchNumber i) as Hfe by (apply Hall in Hin; apply Hf, Hmin in Hjf; lia).
    unfold finish. rewrite HF, Hfe, <- HB. destruct i as [F fb tb bn]; cbn in *. f_equal.
    destruct (Z.eqb_spec F (snd s)) as [Hlast|Hlast], Hto as [[Hall' ->]|((b & F' & Hb & Hlt) & Hto & Hmax)]; [done|..|].
    + apply Hf, Hl in Hb. lia.
    + destruct Hr as [Hz|[b Hb]]; [apply Hl in Hin as ?; apply Hf, Hpos in Hin; lia|].
      apply Hl in Hin. apply Hf, Hall' in Hb. lia.
    + apply Hf, Hall in Hto. apply Hf, Hmax in Hjt. lia.
Qed.

Lemma intervals_forks l s g : intervals_of l s ->
  map ForkID (map (finish (snd s) g) ((map_to_list (fst s)).*2)) = (map_to_list (fst s)).*1.
Proof.
  intros Hio. rewrite map_map, <- (list_fmap_compose snd (fun i => ForkID (finish (snd s) g i))).
  apply list_fmap_ext. intros k [F i] Hk. apply list_elem_of_lookup_2, elem_of_map_to_list in Hk.
  by destruct (io_each _ _ Hio _ _ Hk) as (_ & HF & _).
Qed.

Lemma sorted_from (l : list ForkInterval) : StronglySorted from_le l -> NoDup (map ForkID l) ->
  (forall i j, i ∈ l -> j ∈ l -> FromBatchNumber i = FromBatchNumber j -> ForkID i = ForkID j) ->
  StronglySorted (fun a b => FromBatchNumber a < FromBatchNumber b) l.
Proof.
  induction 1 as [|i l Hs IH Hle]; intros Hnd Hinj; constructor; cbn [map] in Hnd; apply NoDup_cons in Hnd as [Hni Hnd].
  - apply IH; [done|]. intros i' j' Hi Hj. apply Hinj; by right.
  - rewrite Forall_forall in Hle |- *. intros j Hj. specialize (Hle j Hj). unfold from_le in Hle.
    destruct (decide (FromBatchNumber i = FromBatchNumber j)) as [He|]; [|lia].
    apply Hinj in He; [|left|by right]. destruct Hni. rewrite He. by apply (list_elem_of_fmap_2 ForkID).
Qed.

(** C27: The fork intervals are the forks of the FORKIDS table, one interval per
    fork in increasing order of batches: it starts at the fork's first batch and
    ends at its last one (at the largest number for the highest fork, also when
    a filter asks for another fork), with the block recorded for the fork or
    zero.  The result does not depend on the order in which Go visits the map. *)
Theorem fork_intervals order tx f g :
  uint_table (tx_table tx FORKIDS) f -> uint_table (tx_table tx FORKID_BLOCK) g ->
  (size (tx_table tx FORKIDS) <= fuel)%nat -> (size (tx_table tx FORKID_BLOCK) <= fuel)%nat ->
  (forall m : gmap Z ForkInterval, order m ≡ₚ map_to_list m) ->
  exists l, getForkIntervals order filterId tx = Ok l /\
    StronglySorted (fun a b => FromBatchNumber a < FromBatchNumber b) l /\ NoDup (map ForkID l) /\
    forall i, i ∈ l <-> fork_interval f g i.
Proof.
  intros Hf Hg Hs1 Hs2 Hord. unfold getForkIntervals. rewrite scan_walk, walk_continue, bind_ok by done.
  set (es := entries (tx_table tx FORKIDS)). set (s := foldl _ _ _).
  assert (forall e, e ∈ es -> exists b F, f !! b = Some F /\ uint64 b /\ uint64 F /\ e = (Uint64ToBytes b, Uint64ToBytes F)) as Hes.
  { intros [k v] He. destruct (ut_entry _ _ _ _ Hf He) as (b & F & ? & ? & ? & -> & -> & _). eauto 10. }
  assert (intervals_of (map (fun e => (BytesToUint64 (fst e), BytesToUint64 (snd e))) es) s) as Hio.
  { apply (intervals_fold es [] (∅, 0)); [apply intervals_nil|]. apply Forall_forall. intros e He.
    destruct (Hes e He) as (b & F & _ & ? & ? & ->). eauto. }
  set (l0 := map _ es) in *.
  assert (forall b F, (b, F) ∈ l0 <-> f !! b = Some F) as Hl0.
  { intros b F. unfold l0. rewrite list_elem_of_In, in_map_iff. setoid_rewrite <- list_elem_of_In. split.
    - intros (e & Hbf & He). destruct (Hes e He) as (b' & F' & Hb' & ? & ? & ->). cbn [fst snd] in Hbf.
      rewrite !BytesToUint64_U in Hbf by done. by apply pair_equal_spec in Hbf as [<- <-].
    - intros Hb. eexists. split; [|apply (ut_elem _ _ _ _ Hf Hb)]. destruct (ut_range _ _ Hf _ _ Hb).
      cbn [fst snd]. by rewrite !BytesToUint64_U. }
  rewrite (finishIntervals_ok _ _ g) by
    (done || intros F i Hin; rewrite Hord, elem_of_map_to_list in Hin; by destruct (io_each _ _ Hio _ _ Hin) as (_ & ? & ? & _)).
  rewrite bind_ok. set (l := map _ _). exists (merge_sort from_le l). split; [done|].
  assert (l ≡ₚ map (finish (snd s) g) ((map_to_list (fst s)).*2)) as Hp
    by (unfold l; by rewrite Hord).
  assert (forall i, i ∈ merge_sort from_le l <-> fork_interval f g i) as Hmem.
  { intros i. rewrite merge_sort_Permutation, Hp. eapply finish_interval; [done|done|].
    intros b F Hb. destruct (ut_range _ _ Hf _ _ Hb) as [_ []]. done. }
  assert (NoDup (map ForkID (merge_sort from_le l))) as Hnd.
  { change (@map ForkInterval Z) with (fun h => @fmap list list_fmap ForkInterval Z h). cbn beta.
    rewrite merge_sort_Permutation, Hp. change (NoDup (map ForkID (map (finish (snd s) g) (map_to_list (fst s)).*2))).
    rewrite (intervals_forks _ _ _ Hio). apply NoDup_fst_map_to_list. }
  split_and!; [|done|done]. apply sorted_from; [apply StronglySorted_merge_sort; unfold from_le; [intros ???|intros ??]; lia|done|].
  intros i j (_ & Hi & _)%Hmem (_ & Hj & _)%Hmem He. congruence.
Qed.
End intervals.
End tables.

(** ** Examples, on the reference store *)

Lemma ut_empty : uint_table ∅ ∅.
Proof.
  split; [intros b n Hb; by rewrite lookup_empty in Hb|]. intros k v. rewrite lookup_empty. split; [done|].
  intros (b & n & Hb & _). by rewrite lookup_empty in Hb.
Qed.

(** Two entries, 5 with 12 and 9 with 14. *)
Definition two_entries : table := <[Uint64ToBytes 9 := Uint64ToBytes 14]> (<[Uint64ToBytes 5 := Uint64ToBytes 12]> ∅).
Definition two_numbers : gmap Z Z := <[9 := 14]> (<[5 := 12]> ∅).

Lemma two_table : uint_table two_entries two_numbers.
Proof. apply ut_insert; [|done|done]. apply ut_insert; [|done|done]. apply ut_empty. Qed.

Lemma two_cases b n : two_numbers !! b = Some n -> b = 9 /\ n = 14 \/ b = 5 /\ n = 12.
Proof.
  unfold two_numbers. intros [[<- <-]|[_ [[<- <-]|[_ Hb]]%lookup_insert_Some]]%lookup_insert_Some; [by left|by right|].
  by rewrite lookup_empty in Hb.
Qed.

Definition example_update : L1InfoTreeUpdate :=
  mkUpdate 3 (replicate 32 1) (replicate 32 2) (replicate 32 3) (replicate 32 4) 1700000000 77.
Definition example_injected : L1InjectedBatch :=
  mkInjected 4 1700000000 (replicate 32 1) (replicate 32 2) (replicate 32 3) (replicate 20 4) [5; 6].
Definition example_ger : GerUpdate :=
  mkGerUpdate 8 1700000000 (replicate 32 1) (replicate 20 2) 9 1101 (replicate 32 3).

Lemma example_injected_ok : injected_ok example_injected.
Proof. by split. Qed.

Lemma example_ger_ok : ger_ok example_ger.
Proof. by split. Qed.

(** Chain 1101, bytes 0 0 4 77, comes back as 0x4d040000. *)
Lemma records_round_trip_witness :
  Update_Unmarshall (Update_Marshall example_update) = Ok example_update /\
  DecodeGerUpdateBigEndian (Ger_EncodeToBytesBigEndian example_ger) =
    Ok (mkGerUpdate 8 1700000000 (replicate 32 1) (replicate 20 2) 9 0x4d040000 (replicate 32 3)).
Proof.
  destruct (records_round_trip example_update example_injected example_ger (∅ : MemKv)) as (Hu & _ & _ & Hg & _);
    [by split|exact example_injected_ok|exact example_ger_ok|].
  split; [exact Hu|]. rewrite Hg. reflexivity.
Defined.

Lemma injected_batches_skip_index_witness :
  exists tx', writeInjected [example_injected; example_injected] (∅ : MemKv) = Ok tx' /\
    GetL1InjectedBatch 0 tx' = Ok example_injected /\
    GetL1InjectedBatch 1 tx' = Err "unmarshall error, input is too short" /\
    GetL1InjectedBatch 2 tx' = Ok example_injected.
Proof.
  destruct (injected_batches_skip_index [example_injected; example_injected] (∅ : MemKv)) as (tx' & Hw & Hr & H1);
    [by repeat constructor; apply example_injected_ok|done|done|].
  exists tx'. split; [exact Hw|]. split; [exact (Hr 0%nat _ eq_refl)|]. split; [exact H1|exact (Hr 1%nat _ eq_refl)].
Defined.

Definition progress_db : MemKv := {[BLOCK_L1_INFO_TREE_INDEX_PROGRESS := two_entries]}.

Lemma l1_info_progress_increases_witness :
  WriteBlockL1InfoTreeIndexProgress 8 20 progress_db = Err "unable to set l1index".
Proof.
  destruct (l1_info_progress_increases progress_db two_numbers 8 20) as (lb & li & _ & Hl & _ & He & _);
    [exact two_table| |done|done|].
  - intros b1 n1 b2 n2 H1%two_cases H2%two_cases Hlt. lia.
  - apply He. destruct Hl as [(H0 & _)|[_ Hmax]]; [discriminate H0|]. specialize (Hmax 9 14 eq_refl). lia.
Defined.

Definition depths_db : MemKv := {[SMT_DEPTHS := two_entries]}.

(** Block 7 is as near to 5 as to 9. *)
Lemma smt_depths_witness : GetClosestSmtDepth 2 7 depths_db = Ok (5, 12) /\
  exists tx', TruncateSmtDepths 2 5 depths_db = Ok tx' /\ uint_table (tx_table tx' SMT_DEPTHS) (<[5 := 12]> ∅).
Proof.
  assert (forall b n, two_numbers !! b = Some n -> b < MaxUint64) as Hlt.
  { intros b n [[-> _]|[-> _]]%two_cases; reflexivity. }
  split.
  - destruct (smt_depths 2 depths_db two_numbers 7) as ((b & d & Hc & _ & Hn) & _); [exact two_table|done|done|exact Hlt|].
    destruct Hn as [Hb Hmin]; [discriminate|]. rewrite Hc. pose proof (Hmin 5 12 eq_refl).
    apply two_cases in Hb as [[-> ->]|[-> ->]]; [lia|done].
  - destruct (smt_depths 2 depths_db two_numbers 5) as (_ & tx' & Ht & _ & Hu); [exact two_table|done|done|exact Hlt|].
    exists tx'. split; [exact Ht|]. exact Hu.
Defined.

Definition roots_db : MemKv :=
  {[GLOBAL_EXIT_ROOTS_BATCHES := {[Uint64ToBytes 8 := Ger_EncodeToBytes example_ger]}]}.

Lemma roots_table : ger_table (tx_table roots_db GLOBAL_EXIT_ROOTS_BATCHES) {[8 := example_ger]}.
Proof.
  split.
  - intros b g [<- <-]%lookup_singleton_Some. split; [done|exact example_ger_ok].
  - intros k v. change (tx_table roots_db GLOBAL_EXIT_ROOTS_BATCHES)
      with ({[Uint64ToBytes 8 := Ger_EncodeToBytes example_ger]} : table). rewrite lookup_singleton_Some. split.
    + intros [<- <-]. by exists 8, example_ger.
    + by intros (b & g & [<- <-]%lookup_singleton_Some & -> & ->).
Qed.

(** The root of batch 8 is returned with number 0. *)
Lemma last_exit_root_number_lost_witness : GetLastBatchGlobalExitRoot 1 9 roots_db = Ok (Some example_ger, 0).
Proof.
  destruct (last_exit_root_number_lost 1 roots_db {[8 := example_ger]} 9) as (og & Hg & Hog);
    [exact roots_table|done|].
  rewrite Hg. destruct og as [g|].
  - destruct Hog as (b & [_ <-]%lookup_singleton_Some & _). reflexivity.
  - destruct (Hog 8 example_ger eq_refl); lia.
Defined.

Definition forks_db : MemKv := {[FORKIDS := two_entries]}.

(** Fork 12 has batch 5 alone, fork 14 starts at batch 9 and has no end. *)
Lemma fork_intervals_witness : exists l, getForkIntervals 2 map_to_list None forks_db = Ok l /\
  mkInterval 12 5 5 0 ∈ l /\ mkInterval 14 9 MaxUint64 0 ∈ l.
Proof.
  destruct (fork_intervals 2 None map_to_list forks_db two_numbers ∅) as (l & Hl & _ & _ & Hin);
    [exact two_table|exact ut_empty|done|vm_compute; lia|done|].
  exists l. split; [exact Hl|]. split; apply Hin; (split; [exact I|split; [reflexivity|split; [|split; [reflexivity|]]]]).
  - intros b [[-> He]|[-> _]]%two_cases; [discriminate He|cbn; lia].
  - right. split; [exists 9, 14; split; [reflexivity|cbn; lia]|]. split; [reflexivity|]. intros b [[-> He]|[-> _]]%two_cases; [discriminate He|cbn; lia].
  - intros b [[-> _]|[-> He]]%two_cases; [cbn; lia|discriminate He].
  - left. split; [|reflexivity]. intros b F [[_ ->]|[_ ->]]%two_cases; cbn; lia.
Defined.
