(* ===== verification/Etl.v ===== *)
(** * Extract, transform, load (erigon-lib/etl)

    The external merge sort behind bulk writes: buffers that collect entries
    (buffers.go), files of sorted entries (dataprovider.go), a binary heap (heap.go)
    that merges them, the collector (collector.go), and the transformation of a whole
    table (etl.go).  Files hold what was written to them; errors of the file system are
    not modelled, and a flush in the background is over when the merge waits for it.
    The tables loaded are plain ones, without [DupSort]. *)
From S2P Require Import Prelude Bytes Kv.

(** ** Slices that may be nil *)

Abbreviation nilable := (option (list Z)).

Definition lenOf (b : nilable) : Z := Z.of_nat (length (default [] b)).

(** [append(b, l...)]: appending nothing to nil is nil. *)
Definition appendTo (b : nilable) (l : list Z) : nilable :=
  match l with [] => b | _ => Some (default [] b ++ l) end.

(** [b[:0]] *)
Definition emptied (b : nilable) : nilable := match b with None => None | Some _ => Some [] end.

(** [bytes.Equal], to which nil is empty. *)
Definition bytes_Equal (a b : nilable) : bool := bool_decide (default [] a = default [] b).

(** ** Variable-length integers (encoding/binary) *)

Fixpoint putUvarint (fuel : nat) (x : Z) : list Z :=
  match fuel with
  | O => []
  | S fuel => if 0x80 <=? x then Z.lor (u8 x) 0x80 :: putUvarint fuel (Z.shiftr x 7) else [u8 x]
  end.

(** Ten bytes are enough for 64 bits. *)
Definition PutVarint (x : Z) : list Z :=
  let ux := u64 (Z.shiftl x 1) in
  putUvarint 10 (if x <? 0 then u64 (Z.lnot ux) else ux).

Fixpoint readUvarint (fuel : nat) (i x s : Z) (r : list Z) : outcome (Z * list Z) :=
  match fuel with
  | O => Err "binary: varint overflows a 64-bit integer"
  | S fuel =>
      match r with
      | [] => if 0 <? i then Err "unexpected EOF" else Err "EOF"
      | b :: r =>
          if b <? 0x80 then
            if (i =? 9) && (1 <? b) then Err "binary: varint overflows a 64-bit integer"
            else Ok (Z.lor x (u64 (Z.shiftl b s)), r)
          else readUvarint fuel (i + 1) (Z.lor x (u64 (Z.shiftl (Z.land b 0x7f) s))) (s + 7) r
      end
  end.

Definition ReadVarint (r : list Z) : outcome (Z * list Z) :=
  uxr ← readUvarint 10 0 0 0 r;
  let '(ux, r) := uxr : Z * list Z in
  let x := i64 (Z.shiftr ux 1) in
  Ok (if Z.land ux 1 =? 0 then x else Z.lnot x, r).

(** [io.ReadFull] of [n] bytes. *)
Definition ReadFull (n : Z) (r : list Z) : outcome (list Z * list Z) :=
  if Z.of_nat (length r) <? n then if Z.of_nat (length r) =? 0 then Err "EOF" else Err "unexpected EOF"
  else Ok (take (Z.to_nat n) r, drop (Z.to_nat n) r).

(** ** Sorting (package sort) by way of [Less] and [Swap] *)

Section sorting.
Context {B : Type} (less : B -> Z -> Z -> outcome bool) (swap : B -> Z -> Z -> outcome B).

(** [for i := n - 1; i > 0; i-- { if data.Less(i, i-1) { return false } }] *)
Fixpoint isSorted (i : nat) (b : B) : outcome bool :=
  match i with
  | O => Ok true
  | S i' => lt ← less b (Z.of_nat i) (Z.of_nat i'); if lt : bool then Ok false else isSorted i' b
  end.

(** An entry moves back over the greater ones before it. *)
Fixpoint siftBack (j : nat) (b : B) : outcome B :=
  match j with
  | O => Ok b
  | S j' =>
      lt ← less b (Z.of_nat j) (Z.of_nat j');
      if lt : bool then b ← swap b (Z.of_nat j) (Z.of_nat j'); siftBack j' b else Ok b
  end.

(** [sort.Stable], by insertion. *)
Definition sort_Stable (n : nat) (b : B) : outcome B :=
  foldl (fun acc i => b ← acc; siftBack i b) (Ok b) (seq 1 (n - 1)).
End sorting.

(** [l[i], l[j] = l[j], l[i]] *)
Definition swapAt {A} (l : list A) (i j : Z) : outcome (list A) :=
  a ← index l i; b ← index l j;
  l ← store l (Z.to_nat i) b; store l (Z.to_nat j) a.

(** ** The buffer of slices *)

Record sortableBuffer := mkSortable {
  offsets : list Z;
  lens : list Z;
  data : list Z;
  optimalSize : Z;
}.

Definition NewSortableBuffer (bufferOptimalSize : Z) : sortableBuffer := mkSortable [] [] [] bufferOptimalSize.

Definition nilLen (b : nilable) : Z := match b with None => -1 | Some l => Z.of_nat (length l) end.

Definition sb_Put (k v : nilable) (b : sortableBuffer) : sortableBuffer :=
  let data1 := data b ++ default [] k in
  mkSortable (offsets b ++ [Z.of_nat (length (data b)); Z.of_nat (length data1)])
    (lens b ++ [nilLen k; nilLen v]) (data1 ++ default [] v) (optimalSize b).

Definition sb_Size (b : sortableBuffer) : Z :=
  Z.of_nat (length (data b)) + 8 * Z.of_nat (length (offsets b)) + 8 * Z.of_nat (length (lens b)).

Definition sb_Len (b : sortableBuffer) : Z := Z.quot (Z.of_nat (length (offsets b))) 2.

Definition sb_key (b : sortableBuffer) (i : Z) : outcome (list Z) :=
  o ← index (offsets b) (i * 2); l ← index (lens b) (i * 2); slice (data b) o (o + l).

Definition sb_Less (b : sortableBuffer) (i j : Z) : outcome bool :=
  ki ← sb_key b i; kj ← sb_key b j; Ok (bytes_ltb ki kj).

Definition sb_Swap (b : sortableBuffer) (i j : Z) : outcome sortableBuffer :=
  os ← swapAt (offsets b) (i * 2) (j * 2); os ← swapAt os (i * 2 + 1) (j * 2 + 1);
  ls ← swapAt (lens b) (i * 2) (j * 2); ls ← swapAt ls (i * 2 + 1) (j * 2 + 1);
  Ok (mkSortable os ls (data b) (optimalSize b)).

Definition sb_part (b : sortableBuffer) (off l : Z) (buf : nilable) : outcome nilable :=
  if 0 <? l then s ← slice (data b) off (off + l); Ok (appendTo buf s)
  else if l =? 0 then Ok (Some []) else Ok None.

Definition sb_Get (b : sortableBuffer) (i : Z) (keyBuf valBuf : nilable) : outcome (nilable * nilable) :=
  ko ← index (offsets b) (i * 2); vo ← index (offsets b) (i * 2 + 1);
  kl ← index (lens b) (i * 2); vl ← index (lens b) (i * 2 + 1);
  k ← sb_part b ko kl keyBuf; v ← sb_part b vo vl valBuf; Ok (k, v).

Definition sb_Reset (b : sortableBuffer) : sortableBuffer := mkSortable [] [] [] (optimalSize b).

Definition sb_Sort (b : sortableBuffer) : outcome sortableBuffer :=
  let n := Z.to_nat (sb_Len b) in
  sorted ← isSorted sb_Less (n - 1) b;
  if sorted : bool then Ok b else sort_Stable sb_Less sb_Swap n b.

Definition sb_CheckFlushSize (b : sortableBuffer) : bool := optimalSize b <=? sb_Size b.

Fixpoint sb_writeFrom (b : sortableBuffer) (i : Z) (offs : list Z) : outcome (list Z) :=
  match offs with
  | [] => Ok []
  | offset :: offs =>
      l ← index (lens b) i;
      s ← (if l <=? 0 then Ok [] else slice (data b) offset (offset + l)) : outcome (list Z);
      rest ← sb_writeFrom b (i + 1) offs;
      Ok (PutVarint l ++ s ++ rest)
  end.

Definition sb_Write (b : sortableBuffer) : outcome (list Z) := sb_writeFrom b 0 (offsets b).

(** ** The buffers that join the values of a key *)

Record mapBuffer := mkMapBuffer {
  entriesOf : gmap (list Z) nilable;
  sortedBuf : list (list Z * nilable);
  mb_size : Z;
  mb_optimalSize : Z;
}.

Definition newMapBuffer (bufferOptimalSize : Z) : mapBuffer := mkMapBuffer ∅ [] 0 bufferOptimalSize.

(** [appendSortableBuffer.Put] *)
Definition append_Put (k v : nilable) (b : mapBuffer) : mapBuffer :=
  let key := default [] k in
  let stored := match entriesOf b !! key with Some s => s | None => None end in
  let size := match entriesOf b !! key with Some _ => mb_size b | None => mb_size b + lenOf k end in
  mkMapBuffer (<[key := appendTo stored (default [] v)]> (entriesOf b)) (sortedBuf b) (size + lenOf v)
    (mb_optimalSize b).

(** [oldestEntrySortableBuffer.Put] *)
Definition oldest_Put (k v : nilable) (b : mapBuffer) : mapBuffer :=
  let key := default [] k in
  match entriesOf b !! key with
  | Some _ => b
  | None =>
      mkMapBuffer (<[key := v]> (entriesOf b)) (sortedBuf b) (mb_size b + (lenOf k * 2 + lenOf v)) (mb_optimalSize b)
  end.

(** [oldestMergedEntrySortableBuffer.Put] *)
Definition merged_Put (merge : nilable -> nilable -> nilable) (k v : nilable) (b : mapBuffer) : mapBuffer :=
  let key := default [] k in
  match entriesOf b !! key with
  | Some prev =>
      let v' := merge prev v in
      mkMapBuffer (<[key := v']> (entriesOf b)) (sortedBuf b) (mb_size b - lenOf v + lenOf v') (mb_optimalSize b)
  | None => mkMapBuffer (<[key := v]> (entriesOf b)) (sortedBuf b) (mb_size b + (lenOf k + lenOf v)) (mb_optimalSize b)
  end.

Definition mb_Len (b : mapBuffer) : Z := Z.of_nat (size (entriesOf b)).

Definition mb_Less (b : mapBuffer) (i j : Z) : outcome bool :=
  x ← index (sortedBuf b) i; y ← index (sortedBuf b) j; Ok (bytes_ltb (fst x) (fst y)).

Definition mb_Swap (b : mapBuffer) (i j : Z) : outcome mapBuffer :=
  l ← swapAt (sortedBuf b) i j; Ok (mkMapBuffer (entriesOf b) l (mb_size b) (mb_optimalSize b)).

Definition mb_Get (b : mapBuffer) (i : Z) (keyBuf valBuf : nilable) : outcome (nilable * nilable) :=
  e ← index (sortedBuf b) i;
  Ok (appendTo keyBuf (fst e), appendTo valBuf (default [] (snd e))).

Definition mb_Reset (b : mapBuffer) : mapBuffer := mkMapBuffer ∅ [] 0 (mb_optimalSize b).

Definition mb_CheckFlushSize (b : mapBuffer) : bool := mb_optimalSize b <=? mb_size b.

Definition mb_Write (b : mapBuffer) : list Z :=
  concat (map (fun e => PutVarint (Z.of_nat (length (fst e))) ++ fst e ++
                        PutVarint (nilLen (snd e)) ++ default [] (snd e)) (sortedBuf b)).

Section order.
(** The order in which Go visits a map. *)
Context (order : gmap (list Z) nilable -> list (list Z * nilable)).

Definition mb_Sort (b : mapBuffer) : outcome mapBuffer :=
  let l := sortedBuf b ++ order (entriesOf b) in
  sort_Stable mb_Less mb_Swap (length l) (mkMapBuffer (entriesOf b) l (mb_size b) (mb_optimalSize b)).

(** ** The interface of buffers *)

Inductive Buffer :=
| SortableSlice (b : sortableBuffer)
| SortableAppend (b : mapBuffer)
| SortableOldestAppeared (b : mapBuffer)
| SortableMerge (merge : nilable -> nilable -> nilable) (b : mapBuffer).

Definition SortableSliceBuffer : Z := 0.
Definition SortableAppendBuffer : Z := 1.
Definition SortableOldestAppearedBuffer : Z := 2.
Definition SortableMergeBuffer : Z := 3.

Definition getTypeByBuffer (b : Buffer) : Z :=
  match b with
  | SortableSlice _ => SortableSliceBuffer
  | SortableAppend _ => SortableAppendBuffer
  | SortableOldestAppeared _ => SortableOldestAppearedBuffer
  | SortableMerge _ _ => SortableMergeBuffer
  end.

(** The previous buffer is asked for its merge function. *)
Definition getBufferByType (tp size : Z) (prevBuf : option Buffer) : outcome Buffer :=
  if tp =? SortableSliceBuffer then Ok (SortableSlice (NewSortableBuffer size))
  else if tp =? SortableAppendBuffer then Ok (SortableAppend (newMapBuffer size))
  else if tp =? SortableOldestAppearedBuffer then Ok (SortableOldestAppeared (newMapBuffer size))
  else if tp =? SortableMergeBuffer then
    match prevBuf with Some (SortableMerge merge _) => Ok (SortableMerge merge (newMapBuffer size)) | _ => Panic end
  else Panic.

Definition buf_Put (k v : nilable) (b : Buffer) : Buffer :=
  match b with
  | SortableSlice b => SortableSlice (sb_Put k v b)
  | SortableAppend b => SortableAppend (append_Put k v b)
  | SortableOldestAppeared b => SortableOldestAppeared (oldest_Put k v b)
  | SortableMerge merge b => SortableMerge merge (merged_Put merge k v b)
  end.

Definition buf_Len (b : Buffer) : Z :=
  match b with
  | SortableSlice b => sb_Len b
  | SortableAppend b | SortableOldestAppeared b | SortableMerge _ b => mb_Len b
  end.

Definition buf_Get (b : Buffer) : Z -> nilable -> nilable -> outcome (nilable * nilable) :=
  match b with
  | SortableSlice b => sb_Get b
  | SortableAppend b | SortableOldestAppeared b | SortableMerge _ b => mb_Get b
  end.

Definition buf_SizeLimit (b : Buffer) : Z :=
  match b with
  | SortableSlice b => optimalSize b
  | SortableAppend b | SortableOldestAppeared b | SortableMerge _ b => mb_optimalSize b
  end.

Definition buf_CheckFlushSize (b : Buffer) : bool :=
  match b with
  | SortableSlice b => sb_CheckFlushSize b
  | SortableAppend b | SortableOldestAppeared b | SortableMerge _ b => mb_CheckFlushSize b
  end.

Definition buf_Reset (b : Buffer) : Buffer :=
  match b with
  | SortableSlice b => SortableSlice (sb_Reset b)
  | SortableAppend b => SortableAppend (mb_Reset b)
  | SortableOldestAppeared b => SortableOldestAppeared (mb_Reset b)
  | SortableMerge merge b => SortableMerge merge (mb_Reset b)
  end.

Definition buf_Sort (b : Buffer) : outcome Buffer :=
  match b with
  | SortableSlice b => b ← sb_Sort b; Ok (SortableSlice b)
  | SortableAppend b => b ← mb_Sort b; Ok (SortableAppend b)
  | SortableOldestAppeared b => b ← mb_Sort b; Ok (SortableOldestAppeared b)
  | SortableMerge merge b => b ← mb_Sort b; Ok (SortableMerge merge b)
  end.

Definition buf_Write (b : Buffer) : outcome (list Z) :=
  match b with
  | SortableSlice b => sb_Write b
  | SortableAppend b | SortableOldestAppeared b | SortableMerge _ b => Ok (mb_Write b)
  end.

(** ** Sources of sorted entries *)

Inductive dataProvider :=
| memoryDataProvider (buffer : Buffer) (currentIndex : Z)
| fileDataProvider (file : list Z) (reader : option (list Z)).

Definition sortAndFlush (b : Buffer) : outcome (list Z) := b ← buf_Sort b; buf_Write b.

(** [FlushToDisk], and [FlushToDiskAsync] once it is done. *)
Definition FlushToDisk (b : Buffer) : outcome (option dataProvider) :=
  if buf_Len b =? 0 then Ok None
  else file ← sortAndFlush b; Ok (Some (fileDataProvider file None)).

Definition KeepInRAM (b : Buffer) : dataProvider := memoryDataProvider b 0.

Definition readPart (buf : nilable) (r : list Z) : outcome (nilable * list Z) :=
  nr ← ReadVarint r;
  let '(n, r) := nr : Z * list Z in
  if 0 <=? n then
    sr ← ReadFull n r;
    let '(s, r) := sr : list Z * list Z in
    Ok (Some (default [] buf ++ s), r)
  else Ok (None, r).

Definition readElementFromDisk (r : list Z) (keyBuf valBuf : nilable) : outcome (nilable * nilable * list Z) :=
  kr ← readPart keyBuf r;
  let '(k, r) := kr : nilable * list Z in
  vr ← readPart valBuf r;
  let '(v, r) := vr : nilable * list Z in
  Ok (k, v, r).

Definition provider_Next (p : dataProvider) (keyBuf valBuf : nilable) : outcome (nilable * nilable * dataProvider) :=
  match p with
  | memoryDataProvider b i =>
      if buf_Len b <=? i then Err "EOF"
      else kv ← buf_Get b i keyBuf valBuf; Ok (kv, memoryDataProvider b (i + 1))
  | fileDataProvider file reader =>
      kvr ← readElementFromDisk (default file reader) keyBuf valBuf;
      let '(kv, r) := kvr : nilable * nilable * list Z in
      Ok (kv, fileDataProvider file (Some r))
  end.

(** ** The heap *)

Record HeapElem := mkElem { Key : nilable; Value : nilable; TimeIdx : Z }.

Definition elem_less (a b : HeapElem) : bool :=
  if bytes_Equal (Key a) (Key b) then TimeIdx a <? TimeIdx b
  else bytes_ltb (default [] (Key a)) (default [] (Key b)).

Definition heap_Less (h : list HeapElem) (i j : Z) : outcome bool :=
  a ← index h i; b ← index h j; Ok (elem_less a b).

(** [Pop] of the slice: its last element. *)
Definition heap_Pop (h : list HeapElem) : outcome (HeapElem * list HeapElem) :=
  match last h with Some x => Ok (x, removelast h) | None => Panic end.

Fixpoint up (fuel : nat) (h : list HeapElem) (j : Z) : outcome (list HeapElem) :=
  let i := Z.quot (j - 1) 2 in
  if i =? j then Ok h
  else
    lt ← heap_Less h j i;
    if lt : bool then
      match fuel with O => Panic | S fuel => h ← swapAt h i j; up fuel h i end
    else Ok h.

Fixpoint down (fuel : nat) (h : list HeapElem) (i n : Z) : outcome (list HeapElem) :=
  let j1 := 2 * i + 1 in
  if (n <=? j1) || (j1 <? 0) then Ok h
  else
    right ← (if j1 + 1 <? n then heap_Less h (j1 + 1) j1 else Ok false) : outcome bool;
    let j := if right : bool then j1 + 1 else j1 in
    lt ← heap_Less h j i;
    if lt : bool then
      match fuel with O => Panic | S fuel => h ← swapAt h i j; down fuel h j n end
    else Ok h.

(** [for i := n/2 - 1; i >= 0; i-- { down(h, i, n) }] *)
Definition heapInit (h : list HeapElem) : outcome (list HeapElem) :=
  foldl (fun acc i => h ← acc; down (length h) h (Z.of_nat i) (Z.of_nat (length h))) (Ok h)
    (rev (seq 0 (length h / 2))).

Definition heapPush (h : list HeapElem) (x : HeapElem) : outcome (list HeapElem) :=
  up (length h) (h ++ [x]) (Z.of_nat (length h)).

Definition heapPop (h : list HeapElem) : outcome (HeapElem * list HeapElem) :=
  let n := Z.of_nat (length h) - 1 in
  h ← swapAt h 0 n;
  h ← down (length h) h 0 n;
  heap_Pop h.

(** ** Merging *)

Section merge.
Context {St : Type} (load : nilable -> nilable -> St -> outcome St).

(** The merge function of the buffer; only [SortableMerge] has one. *)
Definition mergeOf (b : Buffer) (prev v : nilable) : outcome nilable :=
  match b with SortableMerge merge _ => Ok (merge prev v) | _ => Panic end.

(** One element: what is loaded now, and the key and value that wait for more. *)
Definition mergeElement (tp : Z) (buf : Buffer) (e : HeapElem) (prevK prevV : nilable) (s : St)
    : outcome (nilable * nilable * St) :=
  if tp =? SortableOldestAppearedBuffer then
    if negb (bytes_Equal prevK (Key e)) then s ← load (Key e) (Value e) s; Ok (Key e, prevV, s)
    else Ok (prevK, prevV, s)
  else if (tp =? SortableAppendBuffer) || (tp =? SortableMergeBuffer) then
    if negb (bytes_Equal prevK (Key e)) then
      s ← (match prevK with Some _ => load prevK prevV s | None => Ok s end) : outcome St;
      Ok (Key e, Value e, s)
    else if tp =? SortableAppendBuffer then Ok (prevK, appendTo prevV (default [] (Value e)), s)
    else v ← mergeOf buf prevV (Value e); Ok (prevK, v, s)
  else s ← load (Key e) (Value e) s; Ok (prevK, prevV, s).

(** [for h.Len() > 0], in which every round takes an entry from a provider. *)
Fixpoint mergeLoop (fuel : nat) (quit : bool) (tp : Z) (buf : Buffer) (providers : list dataProvider)
    (h : list HeapElem) (prevK prevV : nilable) (s : St) : outcome (nilable * nilable * St) :=
  match h with
  | [] => Ok (prevK, prevV, s)
  | _ =>
      match fuel with
      | O => Panic
      | S fuel =>
          if quit then Err "stopped"
          else
            eh ← heapPop h;
            let '(element, h) := eh : HeapElem * list HeapElem in
            provider ← index providers (TimeIdx element);
            kvs ← mergeElement tp buf element prevK prevV s;
            let '(prevK, prevV, s) := kvs : nilable * nilable * St in
            match provider_Next provider (emptied (Key element)) (emptied (Value element)) with
            | Ok (k, v, p) =>
                h ← heapPush h (mkElem k v (TimeIdx element));
                mergeLoop fuel quit tp buf (<[Z.to_nat (TimeIdx element) := p]> providers) h prevK prevV s
            | Err e =>
                if String.eqb e "EOF" then mergeLoop fuel quit tp buf providers h prevK prevV s
                else Err ("error while reading next element from disk: " ++ e)%string
            | Panic => Panic
            end
      end
  end.

(** The first entry of every provider. *)
Fixpoint firstElements (i : nat) (providers : list dataProvider) (h : list HeapElem)
    : outcome (list dataProvider * list HeapElem) :=
  match providers with
  | [] => Ok ([], h)
  | p :: providers =>
      match provider_Next p None None with
      | Ok (k, v, p) =>
          h ← heapPush h (mkElem k v (Z.of_nat i));
          ph ← firstElements (S i) providers h;
          Ok (p :: fst ph, snd ph)
      | _ => Panic
      end
  end.

Definition mergeSortFiles (fuel : nat) (providers : list dataProvider) (quit : bool) (tp : Z) (buf : Buffer) (s : St)
    : outcome St :=
  h ← heapInit [];
  ph ← firstElements 0 providers h;
  kvs ← mergeLoop fuel quit tp buf (fst ph) (snd ph) None None s;
  let '(prevK, prevV, s) := kvs : nilable * nilable * St in
  if tp =? SortableAppendBuffer then match prevK with Some _ => load prevK prevV s | None => Ok s end
  else Ok s.
End merge.

(** ** The collector *)

Record Collector := mkCollector {
  cl_buf : Buffer;
  cl_dataProviders : list dataProvider;
  cl_bufType : Z;
  cl_allFlushed : bool;
  cl_autoClean : bool;
  cl_sortAndFlushInBackground : bool;
}.

Definition NewCollector (sortableBuffer : Buffer) : Collector :=
  mkCollector sortableBuffer [] (getTypeByBuffer sortableBuffer) false true false.

Definition NewCriticalCollector (sortableBuffer : Buffer) : Collector :=
  mkCollector sortableBuffer [] (getTypeByBuffer sortableBuffer) false false false.

Definition SortAndFlushInBackground (v : bool) (c : Collector) : Collector :=
  mkCollector (cl_buf c) (cl_dataProviders c) (cl_bufType c) (cl_allFlushed c) (cl_autoClean c) v.

(** The buffer goes to a file, and a new or an emptied one takes its place. *)
Definition spillBuffer (c : Collector) : outcome Collector :=
  b ← (if cl_sortAndFlushInBackground c
       then getBufferByType (cl_bufType c) (buf_SizeLimit (cl_buf c)) (Some (cl_buf c))
       else Ok (buf_Reset (cl_buf c))) : outcome Buffer;
  provider ← FlushToDisk (cl_buf c);
  Ok (mkCollector b (cl_dataProviders c ++ match provider with Some p => [p] | None => [] end) (cl_bufType c)
        (cl_allFlushed c) (cl_autoClean c) (cl_sortAndFlushInBackground c)).

Definition flushBuffer (canStoreInRam : bool) (c : Collector) : outcome Collector :=
  if buf_Len (cl_buf c) =? 0 then Ok c
  else if canStoreInRam && bool_decide (cl_dataProviders c = []) then
    b ← buf_Sort (cl_buf c);
    Ok (mkCollector b [KeepInRAM b] (cl_bufType c) true (cl_autoClean c) (cl_sortAndFlushInBackground c))
  else spillBuffer c.

(** [extractNextFunc]: the first key is not used. *)
Definition extractNextFunc (originalK k v : nilable) (c : Collector) : outcome Collector :=
  let c := mkCollector (buf_Put k v (cl_buf c)) (cl_dataProviders c) (cl_bufType c) (cl_allFlushed c)
             (cl_autoClean c) (cl_sortAndFlushInBackground c) in
  if negb (buf_CheckFlushSize (cl_buf c)) then Ok c else flushBuffer false c.

Definition Collect (k v : nilable) (c : Collector) : outcome Collector := extractNextFunc k k v c.

Definition Flush (c : Collector) : outcome Collector :=
  if negb (cl_allFlushed c) then flushBuffer false c else Ok c.

Definition Collector_reset (c : Collector) : Collector :=
  mkCollector (buf_Reset (cl_buf c)) [] (cl_bufType c) false (cl_autoClean c) (cl_sortAndFlushInBackground c).

Definition Collector_Close (c : Collector) : Collector := Collector_reset c.

(** Enough rounds for the entries of a provider: an entry in a file has two bytes at least. *)
Definition rounds (p : dataProvider) : nat :=
  match p with memoryDataProvider b _ => Z.to_nat (buf_Len b) | fileDataProvider file _ => length file end.

Section load.
Context {T : Type} `{Kv T}.

Record Loading := mkLoading { ld_tx : T; ld_i : Z; ld_canUseAppend : bool }.

(** [LoadFunc]: it may read the table, and calls [next] for what is to be written. *)
Inductive LoadFunc :=
| NilLoadFunc
| IdentityLoadFunc
| UserLoadFunc (f : nilable -> nilable -> (list Z -> Loading -> outcome nilable) ->
    (nilable -> nilable -> nilable -> Loading -> outcome Loading) -> Loading -> outcome Loading).

Definition isIdentityLoadFunc (f : LoadFunc) : bool :=
  match f with NilLoadFunc | IdentityLoadFunc => true | UserLoadFunc _ => false end.

Definition currentTableReader_Get (bucket : string) (key : list Z) (s : Loading) : outcome nilable :=
  tx_GetOne bucket key (ld_tx s).

Definition isNil (tp : Z) (v : nilable) : bool :=
  ((tp =? SortableSliceBuffer) && bool_decide (v = None)) ||
  ((tp =? SortableAppendBuffer) && (lenOf v =? 0)) ||
  ((tp =? SortableOldestAppearedBuffer) && (lenOf v =? 0)).

Definition loadNextFunc (bucket : string) (tp : Z) (haveSortingGuaranties : bool) (lastKey : option (list Z))
    (originalK k v : nilable) (s : Loading) : outcome Loading :=
  let canUseAppend :=
    if ld_i s =? 0 then
      let isEndOfBucket := match lastKey with None => true | Some last => bytes_ltb last (default [] k) end in
      haveSortingGuaranties && isEndOfBucket
    else ld_canUseAppend s in
  let i := ld_i s + 1 in
  if isNil tp v then
    if canUseAppend then Ok (mkLoading (ld_tx s) i canUseAppend)
    else tx ← tx_Delete bucket (default [] k) (ld_tx s); Ok (mkLoading tx i canUseAppend)
  else
    tx ← (if canUseAppend then tx_Append bucket (default [] k) (default [] v) (ld_tx s)
          else tx_Put bucket (default [] k) (default [] v) (ld_tx s)) : outcome T;
    Ok (mkLoading tx i canUseAppend).

Definition simpleLoad (bucket : string) (tp : Z) (lastKey : option (list Z)) (loadFunc : LoadFunc)
    (k v : nilable) (s : Loading) : outcome Loading :=
  let next := loadNextFunc bucket tp (isIdentityLoadFunc loadFunc) lastKey in
  match loadFunc with
  | NilLoadFunc => Panic
  | IdentityLoadFunc => next k k v s
  | UserLoadFunc f => f k v (currentTableReader_Get bucket) next s
  end.

(** [Load] into a table that has a name and is not of the kind with duplicate keys. *)
Definition Load (toBucket : string) (loadFunc : LoadFunc) (quit : bool) (c : Collector) (tx : T) : outcome T :=
  c ← (if negb (cl_allFlushed c) then flushBuffer true c else Ok c) : outcome Collector;
  last ← tx_Last toBucket tx;
  s ← mergeSortFiles (simpleLoad toBucket (cl_bufType c) (fst <$> last) loadFunc)
        (sum_list (map rounds (cl_dataProviders c))) (cl_dataProviders c) quit (cl_bufType c) (cl_buf c)
        (mkLoading tx 0 false);
  Ok (ld_tx s).

(** ** The transformation of a table *)

(** 256 megabytes *)
Definition BufferOptimalSize : Z := 256 * 2 ^ 20.

(** [ExtractFunc]: it calls [next] for what is to be collected. *)
Definition ExtractFunc : Type :=
  list Z -> list Z -> (nilable -> nilable -> nilable -> Collector -> outcome Collector) -> Collector -> outcome Collector.

(** The entries from [startkey] to [endkey]; a return at the end key does not flush. *)
Definition extractBucketIntoFiles (fuel : nat) (bucket : string) (startkey endkey : nilable) (c : Collector)
    (extractFunc : ExtractFunc) (quit : bool) (tx : T) : outcome Collector :=
  cr ← scanFrom fuel bucket (default [] startkey) (fun k v cr =>
         if quit then Err "stopped"
         else if match endkey with Some e => negb (bytes_ltb k e) | None => false end then Ok (Break (fst cr, true))
         else c ← extractFunc k v extractNextFunc (fst cr); Ok (Continue (c, false))) (c, false) tx;
  let '(c, returned) := cr : Collector * bool in
  if returned then Ok c else flushBuffer true c.

Definition Transform (fuel : nat) (fromBucket toBucket : string) (extractFunc : ExtractFunc) (loadFunc : LoadFunc)
    (BufferType BufferSize : Z) (startkey endkey : nilable) (quit : bool) (tx : T) : outcome T :=
  let bufferSize := if 0 <? BufferSize then BufferSize else BufferOptimalSize in
  buffer ← getBufferByType BufferType bufferSize None;
  c ← extractBucketIntoFiles fuel fromBucket startkey endkey (NewCollector buffer) extractFunc quit tx;
  Load toBucket loadFunc quit c tx.
End load.
End order.

(** The loop of [NextKey], from the last byte on. *)
Fixpoint nextKeyFrom (rkey : list Z) : option (list Z) :=
  match rkey with
  | [] => None
  | b :: rkey => if b <? 0xFF then Some (b + 1 :: rkey) else (fun r => 0 :: r) <$> nextKeyFrom rkey
  end.

Definition NextKey (key : list Z) : outcome (list Z) :=
  if bool_decide (key = []) then Err "could not apply NextKey for the empty key"
  else match nextKeyFrom (rev key) with Some r => Ok (rev r) | None => Err "overflow while applying NextKey" end.
