(* ===== verification/EtlTheory.v ===== *)
(** * The external merge sort is a stable sort

    The heap keeps its order and gives its least element; a buffer gives back what was
    put into it, sorted by key with equal keys in the order of their arrival, also by way
    of a file; merging any division of the entries into buffers gives the same as sorting
    all of them.  So [Load] does the same as writing entry after entry, whatever the size
    of the buffers. *)
From stdpp Require Import sorting.
From S2P Require Import Prelude Bytes Kv Etl.

(** ** Swapping *)

Lemma index_nat {A} (l : list A) (i : nat) x : l !! i = Some x -> index l (Z.of_nat i) = Ok x.
Proof. intros Hi. unfold index. rewrite decide_True, Nat2Z.id by lia. by rewrite Hi. Qed.

Lemma swapAt_ok {A} (l : list A) (i j : nat) x y : l !! i = Some x -> l !! j = Some y ->
  swapAt l (Z.of_nat i) (Z.of_nat j) = Ok (<[j := x]> (<[i := y]> l)).
Proof.
  intros Hi Hj. unfold swapAt. rewrite (index_nat _ _ _ Hi), (index_nat _ _ _ Hj), !bind_ok, !Nat2Z.id.
  apply lookup_lt_Some in Hi, Hj. unfold store. rewrite decide_True, bind_ok by done.
  by rewrite decide_True by (by rewrite length_insert).
Qed.

(** ** The order of the heap *)

#[export] Instance HeapElem_inhabited : Inhabited HeapElem := populate (mkElem None None 0).

Definition keyOf (e : HeapElem) : list Z := default [] (Key e).

Lemma elem_less_spec a b : elem_less a b = true <->
  bytes_ltb (keyOf a) (keyOf b) = true \/ (keyOf a = keyOf b /\ TimeIdx a < TimeIdx b).
Proof.
  unfold elem_less, bytes_Equal, keyOf. case_bool_decide as Heq.
  - rewrite Heq, bytes_ltb_irrefl, Z.ltb_lt. split; [by right|by intros [?|[? ?]]].
  - tauto.
Qed.

(** [a] does not come after [b]. *)
Definition ele (a b : HeapElem) : Prop := elem_less b a = false.

Lemma ele_spec a b : ele a b <->
  bytes_ltb (keyOf a) (keyOf b) = true \/ (keyOf a = keyOf b /\ TimeIdx a <= TimeIdx b).
Proof.
  unfold ele. rewrite <- not_true_iff_false, elem_less_spec. split.
  - intros Hn. destruct (decide (keyOf a = keyOf b)) as [Heq|Hne].
    + right. split; [done|]. destruct (decide (TimeIdx b < TimeIdx a)); [|lia]. destruct Hn. auto.
    + destruct (bytes_ltb_total _ _ Hne); [by left|]. destruct Hn. auto.
  - intros [Hlt|[Heq Hle]] [Hlt'|[Heq' Hlt']].
    + pose proof (bytes_ltb_asym _ _ Hlt). congruence.
    + rewrite Heq', bytes_ltb_irrefl in Hlt. done.
    + rewrite Heq, bytes_ltb_irrefl in Hlt'. done.
    + lia.
Qed.

#[export] Instance ele_preorder : PreOrder ele.
Proof.
  split; [intros a; apply ele_spec; right; split; [done|lia]|].
  intros a b c. rewrite !ele_spec. intros [Hab|[Hab ?]] [Hbc|[Hbc ?]].
  - left. by eapply bytes_ltb_trans.
  - left. by rewrite <- Hbc.
  - left. by rewrite Hab.
  - right. split; [congruence|lia].
Qed.

Lemma less_ele a b : elem_less a b = true -> ele a b.
Proof. rewrite elem_less_spec, ele_spec. intros [?|[? ?]]; [by left|right; split; [done|lia]]. Qed.

Lemma heap_Less_ok h i j : (i < length h)%nat -> (j < length h)%nat ->
  heap_Less h (Z.of_nat i) (Z.of_nat j) = Ok (elem_less (h !!! i) (h !!! j)).
Proof.
  intros Hi Hj. apply list_lookup_lookup_total_lt in Hi, Hj. unfold heap_Less.
  by rewrite (index_nat _ _ _ Hi), (index_nat _ _ _ Hj), !bind_ok.
Qed.

Definition parent (j : nat) : nat := ((j - 1) / 2)%nat.

(** The first [n] elements are a heap. *)
Definition heap_upto (h : list HeapElem) (n : nat) : Prop :=
  forall j, (0 < j < n)%nat -> ele (h !!! parent j) (h !!! j).

Lemma heap_min h n j : heap_upto h n -> (j < n)%nat -> ele (h !!! 0%nat) (h !!! j).
Proof.
  intros Hh. induction j as [j IH] using lt_wf_ind. intros Hj. destruct (decide (j = 0%nat)) as [->|Hne]; [reflexivity|].
  etrans; [apply (IH (parent j))|apply Hh; lia]; unfold parent; [apply Nat.Div0.div_lt_upper_bound; lia|].
  apply Nat.Div0.div_lt_upper_bound. lia.
Qed.

(** Exchanging two elements. *)
Definition swapped (h : list HeapElem) (i j : nat) : list HeapElem := <[j := h !!! i]> (<[i := h !!! j]> h).

Lemma swapped_ok h i j : (i < length h)%nat -> (j < length h)%nat ->
  swapAt h (Z.of_nat i) (Z.of_nat j) = Ok (swapped h i j) /\ swapped h i j ≡ₚ h.
Proof.
  intros Hi Hj. apply list_lookup_lookup_total_lt in Hi, Hj. split; [by apply swapAt_ok|].
  by apply Permutation_insert_swap.
Qed.

Lemma swapped_l h i j : (i < length h)%nat -> (j < length h)%nat -> swapped h i j !!! i = h !!! j.
Proof.
  intros Hi Hj. unfold swapped. destruct (decide (i = j)) as [->|].
  - apply list_lookup_total_insert_eq. by rewrite length_insert.
  - by rewrite list_lookup_total_insert_ne, list_lookup_total_insert_eq.
Qed.

Lemma swapped_r h i j : (i < length h)%nat -> (j < length h)%nat -> swapped h i j !!! j = h !!! i.
Proof. intros Hi Hj. unfold swapped. apply list_lookup_total_insert_eq. by rewrite length_insert. Qed.

Lemma swapped_ne h i j m : m <> i -> m <> j -> swapped h i j !!! m = h !!! m.
Proof. intros. unfold swapped. by rewrite !list_lookup_total_insert_ne. Qed.

Lemma swapped_length h i j : length (swapped h i j) = length h.
Proof. unfold swapped. by rewrite !length_insert. Qed.

(** The child that [down] looks at: the lesser one. *)
Definition lesserChild (h : list HeapElem) (i n : nat) : nat :=
  if decide (2 * i + 2 < n)%nat then if elem_less (h !!! (2 * i + 2)%nat) (h !!! (2 * i + 1)%nat) then (2 * i + 2)%nat else (2 * i + 1)%nat
  else (2 * i + 1)%nat.

Lemma lesserChild_ok h i n : (2 * i + 1 < n)%nat -> (lesserChild h i n < n)%nat /\ parent (lesserChild h i n) = i /\
  (i < lesserChild h i n)%nat /\
  forall m, (0 < m < n)%nat -> parent m = i -> ele (h !!! lesserChild h i n) (h !!! m).
Proof.
  intros Hn. assert (forall m, (0 < m)%nat -> parent m = i -> m = (2 * i + 1)%nat \/ m = (2 * i + 2)%nat) as Hch.
  { intros m Hm Hp. unfold parent in Hp. pose proof (Nat.div_mod_eq (m - 1) 2). pose proof (Nat.mod_upper_bound (m - 1) 2). lia. }
  assert (parent (2 * i + 1) = i /\ parent (2 * i + 2) = i) as [P1 P2].
  { unfold parent. split; symmetry; [apply (Nat.div_unique _ _ _ 0)|apply (Nat.div_unique _ _ _ 1)]; lia. }
  unfold lesserChild. case_decide as Hd; [destruct (elem_less _ _) eqn:He|]; split_and!; try lia; try done.
  all: intros m Hm Hp; destruct (Hch m ltac:(lia) Hp) as [->| ->]; try reflexivity; try lia; first [exact He|by apply less_ele].
Qed.

Lemma down_step fuel h i n : (n <= length h)%nat -> (i < n)%nat ->
  down fuel h (Z.of_nat i) (Z.of_nat n) =
  if decide (2 * i + 1 < n)%nat then
    if elem_less (h !!! lesserChild h i n) (h !!! i) then
      match fuel with O => Panic | S fuel => down fuel (swapped h i (lesserChild h i n)) (Z.of_nat (lesserChild h i n)) (Z.of_nat n) end
    else Ok h
  else Ok h.
Proof.
  intros Hn Hi. set (j := lesserChild h i n). assert (down fuel h (Z.of_nat i) (Z.of_nat n) =
    if (Z.of_nat n <=? 2 * Z.of_nat i + 1) || (2 * Z.of_nat i + 1 <? 0) then Ok h
    else right ← (if 2 * Z.of_nat i + 1 + 1 <? Z.of_nat n then heap_Less h (2 * Z.of_nat i + 1 + 1) (2 * Z.of_nat i + 1) else Ok false) : outcome bool;
      let j := if right : bool then 2 * Z.of_nat i + 1 + 1 else 2 * Z.of_nat i + 1 in
      lt ← heap_Less h j (Z.of_nat i);
      if lt : bool then match fuel with O => Panic | S fuel => h ← swapAt h (Z.of_nat i) j; down fuel h j (Z.of_nat n) end else Ok h) as ->
    by (by destruct fuel).
  rewrite (proj2 (Z.ltb_ge (2 * Z.of_nat i + 1) 0)), orb_false_r by lia. case_decide as Hc.
  2: { by rewrite (proj2 (Z.leb_le _ _)) by lia. }
  rewrite (proj2 (Z.leb_gt _ _)) by lia. destruct (lesserChild_ok h i n Hc) as (Hjn & _).
  assert ((right ← (if 2 * Z.of_nat i + 1 + 1 <? Z.of_nat n then heap_Less h (2 * Z.of_nat i + 1 + 1) (2 * Z.of_nat i + 1) else Ok false) : outcome bool;
    Ok (if right : bool then 2 * Z.of_nat i + 1 + 1 else 2 * Z.of_nat i + 1)) = Ok (Z.of_nat j)) as Hj.
  { unfold j, lesserChild. replace (2 * Z.of_nat i + 1 + 1) with (Z.of_nat (2 * i + 2)) by lia. replace (2 * Z.of_nat i + 1) with (Z.of_nat (2 * i + 1)) by lia.
    case_decide; [rewrite (proj2 (Z.ltb_lt _ _)), heap_Less_ok, bind_ok by lia; by destruct (elem_less _ _)|by rewrite (proj2 (Z.ltb_ge _ _)), bind_ok by lia]. }
  apply bind_Ok_inv in Hj as (right & Hright & Hj). rewrite Hright, bind_ok. cbv zeta. injection Hj as ->.
  fold j in Hjn. rewrite heap_Less_ok, bind_ok by lia. destruct (elem_less _ _); [|done]. destruct fuel; [done|].
  by rewrite (proj1 (swapped_ok h i j ltac:(lia) ltac:(lia))), bind_ok.
Qed.

Lemma down_ok n : forall fuel h i, (n <= length h)%nat -> (i < n)%nat -> (n - i <= fuel)%nat ->
  (forall m, (0 < m < n)%nat -> parent m <> i -> ele (h !!! parent m) (h !!! m)) ->
  (forall m, (0 < m < n)%nat -> parent m = i -> (0 < i)%nat -> ele (h !!! parent i) (h !!! m)) ->
  exists h', down fuel h (Z.of_nat i) (Z.of_nat n) = Ok h' /\ h' ≡ₚ h /\ heap_upto h' n /\
    forall m, (n <= m)%nat -> h' !!! m = h !!! m.
Proof.
  induction fuel as [|fuel IH]; intros h i Hn Hi Hf H1 H2; [lia|]. rewrite down_step by done.
  assert (forall j, parent j = i -> (0 < j < n)%nat -> (2 * i + 1 < n)%nat) as Hchild.
  { intros j Hp Hj. unfold parent in Hp. pose proof (Nat.div_mod_eq (j - 1) 2). lia. }
  case_decide as Hc.
  2: { exists h. split_and!; try done. intros j Hj. apply H1; [done|]. intros Hp. specialize (Hchild j Hp Hj). lia. }
  destruct (lesserChild_ok h i n Hc) as (Hjn & Hjp & Hij & Hmin). set (j := lesserChild h i n) in *.
  destruct (elem_less (h !!! j) (h !!! i)) eqn:Hlt.
  2: { exists h. split_and!; try done. intros m Hm. destruct (decide (parent m = i)) as [Hp|Hp]; [|by apply H1].
       rewrite Hp. etrans; [exact Hlt|by apply Hmin]. }
  assert (forall m, (0 < m)%nat -> parent m < m)%nat as Hpl by (intros m Hm; unfold parent; apply Nat.Div0.div_lt_upper_bound; lia).
  pose proof (swapped_l h i j ltac:(lia) ltac:(lia)) as Sl. pose proof (swapped_r h i j ltac:(lia) ltac:(lia)) as Sr.
  destruct (IH (swapped h i j) j) as (h' & Hd & Hp & Hh & Ho); [by rewrite swapped_length|lia|lia| | |].
  - intros m Hm Hpm. destruct (decide (parent m = i)) as [Hpi|Hpi].
    + rewrite Hpi, Sl. destruct (decide (m = j)) as [->|Hmj]; [rewrite Sr; by apply less_ele|].
      rewrite swapped_ne by (done || (intros ->; specialize (Hpl i); lia)). by apply Hmin.
    + destruct (decide (m = i)) as [->|Hmi].
      * rewrite Sl, swapped_ne by (done || (specialize (Hpl i); lia)). by apply H2; [lia..| |lia].
      * rewrite !swapped_ne by (done || congruence). by apply H1.
  - intros m Hm Hpm _. rewrite Hjp, Sl, swapped_ne by (specialize (Hpl m); lia). rewrite <- Hpm. apply H1; [lia|]. lia.
  - exists h'. split; [done|]. split; [rewrite Hp; by apply swapped_ok; lia|]. split; [done|]. intros m Hm.
    by rewrite Ho, swapped_ne by lia.
Qed.

Lemma last_total (h : list HeapElem) n : length h = S n -> last h = Some (h !!! n) /\ removelast h = take n h.
Proof.
  intros Hl. destruct h as [|x h _] using rev_ind; [done|]. rewrite length_app in Hl. simpl in Hl. assert (n = length h) as -> by lia. split.
  - rewrite last_snoc. f_equal. symmetry. apply list_lookup_total_middle. done.
  - by rewrite removelast_last, take_app_length.
Qed.

Lemma heapPop_ok h : h <> [] -> heap_upto h (length h) ->
  exists x rest, heapPop h = Ok (x, rest) /\ h ≡ₚ x :: rest /\ heap_upto rest (length rest) /\ forall y, y ∈ h -> ele x y.
Proof.
  intros Hne Hh. destruct (length h) as [|n] eqn:Hl; [by destruct h|].
  unfold heapPop. rewrite Hl. replace (Z.of_nat (S n) - 1) with (Z.of_nat n) by lia. change 0 with (Z.of_nat 0).
  destruct (swapped_ok h 0 n ltac:(lia) ltac:(lia)) as [-> Hp]. rewrite bind_ok, swapped_length, Hl.
  assert (exists h', down (S n) (swapped h 0 n) (Z.of_nat 0) (Z.of_nat n) = Ok h' /\ h' ≡ₚ h /\ heap_upto h' n /\ h' !!! n = h !!! 0%nat)
    as (h' & -> & Hp' & Hh' & Hlast).
  { pose proof (swapped_r h 0 n ltac:(lia) ltac:(lia)) as Hr. destruct (decide (n = 0%nat)) as [->|Hn0].
    - exists (swapped h 0 0). split_and!; try done. intros j Hj. lia.
    - destruct (down_ok n (S n) (swapped h 0 n) 0) as (h' & Hd & Hp' & Hh' & Ho); [rewrite swapped_length; lia|lia|lia| |lia|].
      + intros m Hm Hpm. assert (parent m < m)%nat by (unfold parent; apply Nat.Div0.div_lt_upper_bound; lia).
        rewrite !swapped_ne by lia. apply Hh. lia.
      + exists h'. split_and!; [done|by rewrite Hp'|done|]. by rewrite Ho. }
  rewrite bind_ok. unfold heap_Pop. assert (length h' = S n) as Hl' by (by rewrite Hp').
  destruct (last_total h' n Hl') as [-> ->]. exists (h' !!! n), (take n h'). split; [done|].
  assert (h' = take n h' ++ [h' !!! n]) as Heq.
  { rewrite <- (take_drop n h') at 1. f_equal. assert (h' !! n = Some (h' !!! n)) as Hn by (apply list_lookup_lookup_total_lt; lia).
    apply drop_S in Hn as ->. f_equal. apply drop_ge. lia. }
  split; [rewrite <- Hp', Heq at 1; by rewrite Permutation_app_comm|]. rewrite length_take, Hl', Nat.min_l by lia. split.
  - intros j Hj. assert (parent j < j)%nat by (unfold parent; apply Nat.Div0.div_lt_upper_bound; lia).
    rewrite !list_lookup_total_alt, !lookup_take_lt by lia. rewrite <- !list_lookup_total_alt. by apply Hh'.
  - intros y [j Hj]%list_elem_of_lookup. rewrite Hlast. pose proof (lookup_lt_Some _ _ _ Hj).
    rewrite <- (list_lookup_total_correct _ _ _ Hj). eapply heap_min; [exact Hh|lia].
Qed.

Lemma up_step fuel h j : (j < length h)%nat ->
  up fuel h (Z.of_nat j) =
  if decide (j = 0%nat) then Ok h
  else if elem_less (h !!! j) (h !!! parent j) then
    match fuel with O => Panic | S fuel => up fuel (swapped h (parent j) j) (Z.of_nat (parent j)) end
  else Ok h.
Proof.
  intros Hj. assert (up fuel h (Z.of_nat j) = let i := Z.quot (Z.of_nat j - 1) 2 in
    if i =? Z.of_nat j then Ok h else lt ← heap_Less h (Z.of_nat j) i;
      if lt : bool then match fuel with O => Panic | S fuel => h ← swapAt h i (Z.of_nat j); up fuel h i end else Ok h) as ->
    by (by destruct fuel).
  cbv zeta. case_decide as H0; [by subst|].
  assert (Z.quot (Z.of_nat j - 1) 2 = Z.of_nat (parent j)) as ->.
  { unfold parent. rewrite Z.quot_div_nonneg, Nat2Z.inj_div by lia. f_equal. lia. }
  assert (parent j < j)%nat by (unfold parent; apply Nat.Div0.div_lt_upper_bound; lia).
  rewrite (proj2 (Z.eqb_neq _ _)), heap_Less_ok, bind_ok by lia. destruct (elem_less _ _); [|done]. destruct fuel; [done|].
  by rewrite (proj1 (swapped_ok h (parent j) j ltac:(lia) ltac:(lia))), bind_ok.
Qed.

Lemma up_ok fuel : forall h j, (j < length h)%nat -> (j <= fuel)%nat ->
  (forall m, (0 < m < length h)%nat -> m <> j -> ele (h !!! parent m) (h !!! m)) ->
  (forall m, (0 < m < length h)%nat -> parent m = j -> (0 < j)%nat -> ele (h !!! parent j) (h !!! m)) ->
  exists h', up fuel h (Z.of_nat j) = Ok h' /\ h' ≡ₚ h /\ heap_upto h' (length h').
Proof.
  assert (forall m, (0 < m)%nat -> parent m < m)%nat as Hpl by (intros m Hm; unfold parent; apply Nat.Div0.div_lt_upper_bound; lia).
  induction fuel as [|fuel IH]; intros h j Hj Hf H1 H2; rewrite up_step by done.
  { rewrite decide_True by lia. exists h. split_and!; try done. intros m Hm. apply H1; lia. }
  case_decide as H0. { exists h. split_and!; try done. intros m Hm. apply H1; lia. }
  destruct (elem_less _ _) eqn:Hlt.
  2: { exists h. split_and!; try done. intros m Hm. destruct (decide (m = j)) as [->|]; [exact Hlt|by apply H1]. }
  specialize (Hpl j ltac:(lia)) as Hpj. set (p := parent j) in *.
  pose proof (swapped_l h p j ltac:(lia) ltac:(lia)) as Sl. pose proof (swapped_r h p j ltac:(lia) ltac:(lia)) as Sr.
  destruct (IH (swapped h p j) p) as (h' & Hu & Hp & Hh); rewrite ?swapped_length; [lia|lia| | |].
  - intros m Hm Hmp. destruct (decide (m = j)) as [->|Hmj]; [fold p; rewrite Sl, Sr; by apply less_ele|].
    rewrite (swapped_ne h p j m) by done. destruct (decide (parent m = j)) as [Hpm|Hpm].
    + rewrite Hpm, Sr. by apply H2; [|done|lia].
    + destruct (decide (parent m = p)) as [Hpp|Hpp].
      * rewrite Hpp, Sl. etrans; [apply less_ele, Hlt|]. rewrite <- Hpp. by apply H1.
      * rewrite swapped_ne by done. by apply H1.
  - intros m Hm Hpm Hp0. specialize (Hpl p Hp0). rewrite (swapped_ne h p j (parent p)) by lia.
    destruct (decide (m = j)) as [->|Hmj]; [rewrite Sr; by apply H1; lia|].
    assert (m <> p) by (intros ->; lia). rewrite swapped_ne by done. etrans; [apply H1; lia|]. rewrite <- Hpm at 1. apply H1; lia.
  - exists h'. split; [done|]. split; [|done]. rewrite Hp. by apply swapped_ok; lia.
Qed.

Lemma heapPush_ok h x : heap_upto h (length h) ->
  exists h', heapPush h x = Ok h' /\ h' ≡ₚ x :: h /\ heap_upto h' (length h').
Proof.
  intros Hh. unfold heapPush.
  assert (forall m, (m < length h)%nat -> (h ++ [x]) !!! m = h !!! m) as Hm by (intros; by rewrite !list_lookup_total_alt, lookup_app_l).
  assert (forall m, (0 < m)%nat -> parent m < m)%nat as Hpl by (intros m Hm0; unfold parent; apply Nat.Div0.div_lt_upper_bound; lia).
  destruct (up_ok (length h) (h ++ [x]) (length h)) as (h' & Hu & Hp & Hh'); rewrite ?length_app; simpl; [lia|lia| | |].
  - intros m Hm1 Hm2. specialize (Hpl m). rewrite !Hm by lia. apply Hh. lia.
  - intros m Hm1 Hm2. specialize (Hpl m). lia.
  - exists h'. split; [done|]. split; [|done]. by rewrite Hp, Permutation_app_comm.
Qed.

(** ** Stable sorting *)

Section stable.
Context {X : Type} (key : X -> list Z).

Definition kle (a b : X) : Prop := bytes_leb (key a) (key b) = true.

(** Sorted by key, with equal keys in the order of the other list. *)
Record stable (l l' : list X) : Prop := {
  stable_sorted : StronglySorted kle l';
  stable_filter k : filter (fun x => key x = k) l' = filter (fun x => key x = k) l;
}.

Lemma bytes_leb_spec a b : bytes_leb a b = true <-> bytes_ltb a b = true \/ a = b.
Proof.
  unfold bytes_leb. rewrite negb_true_iff. split.
  - intros Hn. destruct (decide (a = b)) as [?|Hne]; [by right|]. destruct (bytes_ltb_total _ _ Hne); [by left|congruence].
  - intros [Hlt| ->]; [by apply bytes_ltb_asym|apply bytes_ltb_irrefl].
Qed.

#[export] Instance kle_preorder : PreOrder kle.
Proof.
  split; [intros a; apply bytes_leb_spec; by right|]. intros a b c. unfold kle. rewrite !bytes_leb_spec.
  intros [Hab|Hab] [Hbc|Hbc]; [left; by eapply bytes_ltb_trans|left; congruence|left; congruence|right; congruence].
Qed.

Lemma stable_elem l l' x : stable l l' -> x ∈ l' <-> x ∈ l.
Proof.
  intros [_ Hf]. assert (forall m : list X, x ∈ m <-> x ∈ filter (fun y => key y = key x) m) as Hx.
  { intros m. rewrite list_elem_of_filter. tauto. }
  by rewrite Hx, Hf, <- Hx.
Qed.

Lemma filter_split (Q : X -> Prop) `{!forall x, Decision (Q x)} l : forall x r, filter Q l = x :: r ->
  exists a b, l = a ++ x :: b /\ filter Q a = [] /\ filter Q b = r.
Proof.
  induction l as [|y l IH]; intros x r Hl; [done|]. rewrite filter_cons in Hl. case_decide as Hy.
  - injection Hl as -> <-. by exists [], l.
  - destruct (IH x r Hl) as (a & b & -> & Ha & Hb). exists (y :: a), b. split_and!; [done| |done].
    by rewrite filter_cons, decide_False.
Qed.

Lemma filter_Permutation l : forall l', (forall k, filter (fun x => key x = k) l' = filter (fun x => key x = k) l) -> l' ≡ₚ l.
Proof.
  induction l as [|x l IH]; intros l' Hf.
  { destruct l' as [|y l']; [done|]. specialize (Hf (key y)). by rewrite filter_cons, decide_True in Hf. }
  destruct (filter_split (fun y => key y = key x) l' x (filter (fun y => key y = key x) l)) as (a & b & -> & Ha & Hb).
  { by rewrite Hf, filter_cons, decide_True. }
  rewrite <- Permutation_middle. apply perm_skip, IH. intros k. destruct (decide (k = key x)) as [->|Hne].
  - by rewrite filter_app, Ha.
  - specialize (Hf k). rewrite filter_app, !filter_cons, !decide_False in Hf by done. by rewrite filter_app.
Qed.

Lemma stable_Permutation l l' : stable l l' -> l' ≡ₚ l.
Proof. intros [_ Hf]. by apply filter_Permutation. Qed.

Lemma sorted_snoc_le l x : StronglySorted kle l -> (forall y, y ∈ l -> kle y x) -> StronglySorted kle (l ++ [x]).
Proof.
  intros Hs Hx. apply StronglySorted_app_2; [|done|by repeat constructor]. intros a b Ha Hb%list_elem_of_singleton. subst. auto.
Qed.

Context {B : Type} (less : B -> Z -> Z -> outcome bool) (swap : B -> Z -> Z -> outcome B) (rep : B -> list X -> Prop).
(** [P] holds of the entries that can be compared. *)
Context (P : X -> Prop).
Context (less_ok : forall b l i j x y, rep b l -> Forall P l -> l !! i = Some x -> l !! j = Some y ->
  less b (Z.of_nat i) (Z.of_nat j) = Ok (bytes_ltb (key x) (key y))).
Context (swap_ok : forall b l i j x y, rep b l -> l !! i = Some x -> l !! j = Some y ->
  exists b', swap b (Z.of_nat i) (Z.of_nat j) = Ok b' /\ rep b' (<[j := x]> (<[i := y]> l))).

Lemma siftBack_ok l1 : forall b x l2, rep b (l1 ++ x :: l2) -> Forall P (l1 ++ x :: l2) -> StronglySorted kle l1 ->
  exists b' l1', siftBack less swap (length l1) b = Ok b' /\ rep b' (l1' ++ l2) /\ stable (l1 ++ [x]) l1'.
Proof.
  induction l1 as [|y l1 IH] using rev_ind; intros b x l2 Hr HP Hs.
  { exists b, [x]. split_and!; [done|done|]. split; [by repeat constructor|done]. }
  rewrite length_app, Nat.add_1_r. cbn [siftBack]. rewrite <- app_assoc in Hr, HP. cbn [app] in Hr, HP.
  assert ((l1 ++ y :: x :: l2) !! S (length l1) = Some x) as Hx.
  { rewrite lookup_app_r, Nat.sub_succ_l, Nat.sub_diag by lia. done. }
  assert ((l1 ++ y :: x :: l2) !! length l1 = Some y) as Hy by (by apply list_lookup_middle).
  rewrite (less_ok _ _ _ _ _ _ Hr HP Hx Hy), bind_ok. destruct (bytes_ltb (key x) (key y)) eqn:Hlt.
  - destruct (swap_ok _ _ _ _ _ _ Hr Hx Hy) as (b1 & -> & Hr1). rewrite bind_ok.
    rewrite insert_app_r_alt, Nat.sub_succ_l, Nat.sub_diag in Hr1 by lia. cbn in Hr1.
    rewrite insert_app_r_alt, Nat.sub_diag in Hr1 by lia. cbn in Hr1.
    apply StronglySorted_app in Hs as (Hly & Hs1 & _).
    destruct (IH b1 x (y :: l2) Hr1) as (b' & l1' & He & Hr' & Hst); [|done|].
    { rewrite !Forall_app, !Forall_cons in HP |- *. tauto. }
    exists b', (l1' ++ [y]). split; [done|]. split; [by rewrite <- app_assoc|]. split.
    + apply sorted_snoc_le; [apply Hst|]. intros z Hz. apply (stable_elem _ _ _ Hst) in Hz.
      apply elem_of_app in Hz as [Hz| ->%list_elem_of_singleton]; [apply Hly; [done|left]|]. apply bytes_leb_spec. by left.
    + intros k. rewrite <- app_assoc, !filter_app, (stable_filter _ _ Hst), !filter_app, <- !app_assoc. f_equal. cbn [app].
      rewrite !filter_cons, filter_nil. repeat case_decide; try done. subst. exfalso.
      match goal with H : key _ = key _ |- _ => rewrite H, bytes_ltb_irrefl in Hlt end. done.
  - exists b, ((l1 ++ [y]) ++ [x]). split; [done|]. split; [by rewrite <- !app_assoc|]. split; [|done].
    apply sorted_snoc_le; [done|]. intros z Hz. apply elem_of_app in Hz as [Hz| ->%list_elem_of_singleton].
    + apply StronglySorted_app in Hs as (Hly & _ & _). etrans; [apply Hly; [done|left]|]. unfold kle, bytes_leb. by rewrite Hlt.
    + unfold kle, bytes_leb. by rewrite Hlt.
Qed.

Lemma stable_app l1 l1' l2 l' : stable l1 l1' -> stable (l1' ++ l2) l' -> stable (l1 ++ l2) l'.
Proof. intros H1 H2. split; [apply H2|]. intros k. by rewrite (stable_filter _ _ H2), !filter_app, (stable_filter _ _ H1). Qed.

Lemma sort_Stable_ok b l : rep b l -> Forall P l ->
  exists b' l', sort_Stable less swap (length l) b = Ok b' /\ rep b' l' /\ stable l l'.
Proof.
  intros Hr HP. destruct l as [|x l]. { exists b, []. split_and!; [done|done|]. split; [constructor|done]. }
  unfold sort_Stable. replace (length (x :: l) - 1)%nat with (length l) by (simpl; lia).
  assert (forall l2 l1, rep b (l1 ++ l2) -> Forall P (l1 ++ l2) -> l1 <> [] -> StronglySorted kle l1 ->
    exists b' l', foldl (fun acc i => b ← acc; siftBack less swap i b) (Ok b) (seq (length l1) (length l2)) = Ok b' /\
      rep b' l' /\ stable (l1 ++ l2) l') as Hind.
  2: { destruct (Hind l [x] Hr HP) as (b' & l' & He & Hr' & Hst); [done|by repeat constructor|]. by exists b', l'. }
  clear Hr HP. intros l2. revert b. induction l2 as [|y l2 IH]; intros b l1 Hr HP Hne Hs.
  { exists b, l1. rewrite app_nil_r in *. split_and!; [done|done|]. by split. }
  cbn [length seq foldl]. rewrite bind_ok. destruct (siftBack_ok l1 b y l2 Hr HP Hs) as (b1 & l1' & -> & Hr1 & Hst1).
  pose proof (stable_Permutation _ _ Hst1) as Hp.
  assert (length l1' = S (length l1)) as <- by (rewrite Hp, length_app; simpl; lia).
  destruct (IH b1 l1' Hr1) as (b' & l' & He & Hr' & Hst').
  - rewrite Hp, <- app_assoc. done.
  - intros ->. apply Permutation_nil_l in Hp. by destruct l1.
  - apply Hst1.
  - exists b', l'. split_and!; [done|done|]. replace (l1 ++ y :: l2) with ((l1 ++ [y]) ++ l2) by (by rewrite <- app_assoc).
    by eapply stable_app.
Qed.

Lemma isSorted_ok n : forall b l, rep b l -> Forall P l -> (n < length l)%nat ->
  exists r, isSorted less n b = Ok r /\ (r = true -> StronglySorted kle (take (S n) l)).
Proof.
  induction n as [|n IH]; intros b l Hr HP Hn; cbn [isSorted].
  { exists true. split; [done|]. intros _. destruct l; simpl; repeat constructor. }
  destruct (lookup_lt_is_Some_2 l (S n)) as [x Hx]; [done|]. destruct (lookup_lt_is_Some_2 l n) as [y Hy]; [lia|].
  rewrite (less_ok _ _ _ _ _ _ Hr HP Hx Hy), bind_ok. destruct (bytes_ltb (key x) (key y)) eqn:Hlt; [by exists false|].
  destruct (IH b l Hr HP ltac:(lia)) as (r & He & Hs). exists r. split; [done|]. intros Ht. specialize (Hs Ht).
  rewrite (take_S_r _ _ x) by done. apply sorted_snoc_le; [done|]. intros z Hz.
  assert (kle y x) as Hyx by (unfold kle, bytes_leb; by rewrite Hlt).
  rewrite (take_S_r _ _ y) in Hs, Hz by done. apply StronglySorted_app in Hs as (Hzy & _ & _).
  apply elem_of_app in Hz as [Hz| ->%list_elem_of_singleton]; [|done]. etrans; [|exact Hyx]. apply Hzy; [done|left].
Qed.
End stable.

(** A stable sort is determined by the list. *)
Lemma stable_unique {X} (key : X -> list Z) l l1 : forall l2, stable key l l1 -> stable key l l2 -> l1 = l2.
Proof.
  revert l. induction l1 as [|x l1 IH]; intros l l2 H1 H2.
  { pose proof (stable_Permutation _ _ _ H1) as P1. pose proof (stable_Permutation _ _ _ H2) as P2. apply Permutation_nil_l in P1.
    rewrite <- P1 in P2. by apply Permutation_nil_r in P2. }
  assert (stable key (x :: l1) l2) as H12.
  { split; [apply H2|]. intros k. by rewrite (stable_filter _ _ _ H2), (stable_filter _ _ _ H1). }
  destruct l2 as [|y l2]; [pose proof (stable_Permutation _ _ _ H12) as P; by apply Permutation_nil_l in P|].
  pose proof (stable_sorted _ _ _ H1) as [_ Hx]%StronglySorted_inv. pose proof (stable_sorted _ _ _ H12) as [Hs2 Hy]%StronglySorted_inv.
  rewrite Forall_forall in Hx, Hy.
  assert (key x = key y) as Hk.
  { assert (kle key x y) as Hxy.
    { assert (y ∈ x :: l1) as [->|?]%elem_of_cons by (rewrite <- (stable_elem _ _ _ _ H12); left); [reflexivity|auto]. }
    assert (kle key y x) as Hyx.
    { assert (x ∈ y :: l2) as [->|?]%elem_of_cons by (rewrite (stable_elem _ _ _ _ H12); left); [reflexivity|auto]. }
    apply bytes_leb_spec in Hxy as [Hxy|?]; [|done]. unfold kle, bytes_leb in Hyx. by rewrite Hxy in Hyx. }
  pose proof (stable_filter _ _ _ H12 (key x)) as Hf. rewrite !filter_cons, !decide_True in Hf by done. injection Hf as <- _. f_equal.
  apply (IH l1); [by split; [apply (StronglySorted_inv (stable_sorted _ _ _ H1))|]|]. split; [done|]. intros k.
  pose proof (stable_filter _ _ _ H12 k) as Hf. rewrite !filter_cons in Hf. by case_decide; [injection Hf as ?|].
Qed.

(** ** Merging *)

Abbreviation item := (nilable * nilable)%type.

Definition ikey (x : item) : list Z := default [] (fst x).

(** A slice that the provider may write into. *)
Definition no_bytes (b : nilable) : Prop := default [] b = [].

Lemma no_bytes_emptied b : no_bytes (emptied b).
Proof. by destruct b. Qed.

(** What a provider will give. *)
Fixpoint yields (p : dataProvider) (l : list item) : Prop :=
  match l with
  | [] => forall kb vb, no_bytes kb -> no_bytes vb -> provider_Next p kb vb = Err "EOF"
  | x :: l => exists p', yields p' l /\ forall kb vb, no_bytes kb -> no_bytes vb -> provider_Next p kb vb = Ok (x, p')
  end.

Section merging.
Context {St : Type} (load : nilable -> nilable -> St -> outcome St).

(** Loading entry after entry. *)
Fixpoint loadAll (l : list item) (s : St) : outcome St :=
  match l with
  | [] => Ok s
  | (k, v) :: l => s ← load k v s; loadAll l s
  end.

Definition headAt (i : nat) (f : list item) : list HeapElem :=
  match f with [] => [] | (k, v) :: _ => [mkElem k v (Z.of_nat i)] end.

Fixpoint heads (i : nat) (fs : list (list item)) : list HeapElem :=
  match fs with [] => [] | f :: fs => headAt i f ++ heads (S i) fs end.

Lemma heads_app fs1 : forall i fs2, heads i (fs1 ++ fs2) = heads i fs1 ++ heads (i + length fs1) fs2.
Proof.
  induction fs1 as [|f fs1 IH]; intros i fs2; cbn [app heads length]; [by rewrite Nat.add_0_r|].
  by rewrite IH, <- app_assoc, Nat.add_succ_comm.
Qed.

Lemma heads_elem fs : forall i x, x ∈ heads i fs <->
  exists fs1 k v f fs2, fs = fs1 ++ ((k, v) :: f) :: fs2 /\ x = mkElem k v (Z.of_nat (i + length fs1)).
Proof.
  induction fs as [|f fs IH]; intros i x; cbn [heads].
  { split; [by intros ?%not_elem_of_nil|]. intros (fs1 & k & v & f & fs2 & He & _). by destruct fs1. }
  rewrite elem_of_app, IH. split.
  - intros [Hx|(fs1 & k & v & f' & fs2 & -> & ->)].
    + destruct f as [|[k v] f]; [by apply not_elem_of_nil in Hx|]. apply list_elem_of_singleton in Hx as ->.
      exists [], k, v, f, fs. by rewrite Nat.add_0_r.
    + exists (f :: fs1), k, v, f', fs2. split; [done|]. cbn [length]. by rewrite Nat.add_succ_comm.
  - intros ([|f0 fs1] & k & v & f' & fs2 & He & ->); injection He as -> ->.
    + left. cbn. rewrite Nat.add_0_r. left.
    + right. exists fs1, k, v, f', fs2. split; [done|]. cbn [length]. by rewrite Nat.add_succ_comm.
Qed.

(** The heads of the streams are in the heap, their rests still to be read. *)
Record merging (ps : list dataProvider) (h : list HeapElem) (fs : list (list item)) : Prop := {
  merging_rest : Forall2 (fun p f => yields p (tail f)) ps fs;
  merging_heads : h ≡ₚ heads 0 fs;
  merging_heap : heap_upto h (length h);
  merging_sorted : Forall (StronglySorted (kle ikey)) fs;
}.

(** An element of a stream is not less than its head, which is in the heap. *)
Lemma stream_head a g b y : y ∈ g -> StronglySorted (kle ikey) g ->
  exists k v, mkElem k v (Z.of_nat (length a)) ∈ heads 0 (a ++ g :: b) /\ kle ikey (k, v) y.
Proof.
  intros Hy Hs. destruct g as [|[k v] g]; [by apply not_elem_of_nil in Hy|]. exists k, v. split.
  - apply heads_elem. by exists a, k, v, g, b.
  - apply elem_of_cons in Hy as [->|Hy]; [reflexivity|]. apply StronglySorted_inv in Hs as [_ Ha]. rewrite Forall_forall in Ha. auto.
Qed.

Lemma elem_of_concat {A} (y : A) ls : y ∈ concat ls <-> exists a g b, ls = a ++ g :: b /\ y ∈ g.
Proof.
  rewrite list_elem_of_In, in_concat. split.
  - intros (g & (a & b & ->)%in_split & Hy). exists a, g, b. by rewrite list_elem_of_In.
  - intros (a & g & b & -> & Hy). exists g. split; [apply in_elt|by rewrite <- list_elem_of_In].
Qed.

(** The least head: nothing before it in the streams has its key, and nothing is less. *)
Lemma least_head fs1 k v f fs2 :
  Forall (StronglySorted (kle ikey)) (fs1 ++ ((k, v) :: f) :: fs2) ->
  (forall y, y ∈ heads 0 (fs1 ++ ((k, v) :: f) :: fs2) -> ele (mkElem k v (Z.of_nat (length fs1))) y) ->
  (forall y, y ∈ concat fs1 -> bytes_ltb (ikey (k, v)) (ikey y) = true) /\
  (forall y, y ∈ f ++ concat fs2 -> kle ikey (k, v) y).
Proof.
  intros Hs Hmin. apply Forall_app in Hs as [Hs1 [Hs Hs2]%Forall_cons]. rewrite Forall_forall in Hs1, Hs2. split.
  - intros y (a & g & b & -> & Hy)%elem_of_concat. destruct (stream_head a g (b ++ ((k, v) :: f) :: fs2) y Hy) as (k' & v' & Hin & Hk).
    { apply Hs1, elem_of_app. right. left. }
    rewrite <- app_assoc in Hmin. specialize (Hmin _ Hin). apply ele_spec in Hmin. unfold keyOf in Hmin. cbn in Hmin.
    rewrite length_app in Hmin. cbn [length] in Hmin. destruct Hmin as [Hlt|[_ ?]]; [|lia].
    unfold kle in Hk. apply bytes_leb_spec in Hk as [Hk|Hk]; [by eapply bytes_ltb_trans|]. by rewrite <- Hk.
  - intros y [Hy|(a & g & b & -> & Hy)%elem_of_concat]%elem_of_app.
    + apply StronglySorted_inv in Hs as [_ Ha]. rewrite Forall_forall in Ha. auto.
    + destruct (stream_head (fs1 ++ ((k, v) :: f) :: a) g b y Hy) as (k' & v' & Hin & Hk).
      { apply Hs2, elem_of_app. right. left. }
      rewrite <- app_assoc in Hin. specialize (Hmin _ Hin). apply ele_spec in Hmin. unfold keyOf in Hmin. cbn in Hmin.
      etrans; [|exact Hk]. unfold kle. rewrite bytes_leb_spec. tauto.
Qed.

Lemma least_stable fs1 k v f fs2 out :
  (forall y, y ∈ concat fs1 -> bytes_ltb (ikey (k, v)) (ikey y) = true) ->
  (forall y, y ∈ f ++ concat fs2 -> kle ikey (k, v) y) ->
  stable ikey (concat (fs1 ++ f :: fs2)) out -> stable ikey (concat (fs1 ++ ((k, v) :: f) :: fs2)) ((k, v) :: out).
Proof.
  intros Hlt Hle Hst. rewrite concat_app in Hst |- *. cbn [concat app] in Hst |- *. split.
  - constructor; [apply Hst|]. apply Forall_forall. intros y Hy. apply (stable_elem _ _ _ _ Hst) in Hy.
    apply elem_of_app in Hy as [Hy|Hy]; [apply bytes_leb_spec; left; auto|auto].
  - intros k0. rewrite filter_cons, (stable_filter _ _ _ Hst), !filter_app, !filter_cons, filter_app.
    case_decide as Hk; [|done]. assert (filter (fun x => ikey x = k0) (concat fs1) = []) as ->; [|done].
    apply filter_keep_none. intros y Hy Hk0. specialize (Hlt y Hy).
    by rewrite Hk, Hk0, bytes_ltb_irrefl in Hlt.
Qed.

Lemma no_heads fs i : heads i fs = [] -> concat fs = [].
Proof. revert i. induction fs as [|[|[k v] f] fs IH]; intros i Hh; [done|cbn in *; eauto|done]. Qed.

Lemma mergeLoop_step fuel ps h buf k v i h1 p s : heapPop h = Ok (mkElem k v (Z.of_nat i), h1) -> ps !! i = Some p -> h <> [] ->
  mergeLoop load (S fuel) false SortableSliceBuffer buf ps h None None s =
    s ← load k v s;
    match provider_Next p (emptied k) (emptied v) with
    | Ok (k, v, p) =>
        h ← heapPush h1 (mkElem k v (Z.of_nat i));
        mergeLoop load fuel false SortableSliceBuffer buf (<[i := p]> ps) h None None s
    | Err e => if String.eqb e "EOF" then mergeLoop load fuel false SortableSliceBuffer buf ps h1 None None s
               else Err ("error while reading next element from disk: " ++ e)%string
    | Panic => Panic
    end.
Proof.
  intros Hpop Hp Hne. cbn [mergeLoop]. destruct h as [|x0 h0]; [done|]. rewrite Hpop, bind_ok. cbn [TimeIdx Key Value].
  rewrite (index_nat _ _ _ Hp), bind_ok, Nat2Z.id.
  change (mergeElement load SortableSliceBuffer buf (mkElem k v (Z.of_nat i)) None None s) with (s ← load k v s; Ok (None : nilable, None : nilable, s)).
  by destruct (load k v s).
Qed.

Lemma mergeLoop_ok buf : forall fuel ps h fs, merging ps h fs -> (length (concat fs) <= fuel)%nat ->
  exists out, stable ikey (concat fs) out /\
    forall s, mergeLoop load fuel false SortableSliceBuffer buf ps h None None s = (s ← loadAll out s; Ok (None, None, s)).
Proof.
  induction fuel as [|fuel IH]; intros ps h fs [Hrest Hheads Hheap Hsorted] Hf; (destruct (decide (h = [])) as [->|Hne]; [|]).
  1, 3: rewrite (no_heads fs 0) by (symmetry in Hheads; by apply Permutation_nil_r in Hheads).
  1, 2: exists []; split; [by split; [constructor|]|done].
  { exfalso. destruct h as [|x h]; [done|]. assert (x ∈ heads 0 fs) as Hx by (rewrite <- Hheads; left).
    apply heads_elem in Hx as (fs1 & k & v & f & fs2 & -> & _). rewrite concat_app, length_app in Hf. cbn in Hf. lia. }
  destruct (heapPop_ok h Hne Hheap) as (x & h1 & Hpop & Hp & Hheap1 & Hmin).
  assert (x ∈ heads 0 fs) as Hx by (rewrite <- Hheads, Hp; left).
  apply heads_elem in Hx as (fs1 & k & v & f & fs2 & -> & ->). cbn [Nat.add] in *.
  destruct (least_head fs1 k v f fs2 Hsorted) as [Hlt Hle]; [intros y Hy; apply Hmin; by rewrite Hheads|].
  apply Forall2_app_inv_r in Hrest as (ps1 & ps2' & Hr1 & Hr2 & ->). apply Forall2_cons_inv_r in Hr2 as (p & ps2 & Hp0 & Hr2 & ->). cbn [tail] in Hp0.
  assert (length ps1 = length fs1) as Hl1 by (by eapply Forall2_length).
  assert (h1 ≡ₚ heads 0 fs1 ++ heads (S (length fs1)) fs2) as Hh1.
  { apply (Permutation_cons_inv (a := mkElem k v (Z.of_nat (length fs1)))). rewrite <- Hp, Hheads, heads_app. cbn [heads headAt Nat.add app].
    by rewrite Permutation_middle. }
  assert (forall h2 p2, h2 ≡ₚ headAt (length fs1) f ++ h1 -> yields p2 (tail f) -> heap_upto h2 (length h2) ->
    merging (ps1 ++ p2 :: ps2) h2 (fs1 ++ f :: fs2)) as Hm.
  { intros h2 p2 Hh2 Hp2 Hheap2. split; [|rewrite Hh2, Hh1, heads_app; cbn [heads Nat.add]; by rewrite !app_assoc, (Permutation_app_comm (heads 0 fs1))|done|].
    - apply Forall2_app; [done|]. by constructor.
    - apply Forall_app in Hsorted as [? [[? _]%StronglySorted_inv ?]%Forall_cons]. by apply Forall_app; split; [|constructor]. }
  assert (length (concat (fs1 ++ f :: fs2)) <= fuel)%nat as Hf'.
  { rewrite concat_app, !length_app in Hf |- *. cbn in Hf |- *. rewrite !length_app in Hf |- *. lia. }
  pose proof (mergeLoop_step fuel (ps1 ++ p :: ps2) h buf k v (length fs1) h1 p) as Hstep.
  specialize (fun s => Hstep s Hpop ltac:(rewrite <- Hl1; by apply list_lookup_middle) Hne).
  destruct f as [|[k2 v2] f].
  - destruct (IH (ps1 ++ p :: ps2) h1 (fs1 ++ [] :: fs2) (Hm h1 p ltac:(done) ltac:(done) Hheap1) Hf') as (out & Hst & He).
    exists ((k, v) :: out). split; [by apply least_stable|]. intros s. rewrite Hstep. cbn [loadAll].
    rewrite (Hp0 _ _ (no_bytes_emptied k) (no_bytes_emptied v)). destruct (load k v s); [|done..]. rewrite !bind_ok. apply He.
  - destruct Hp0 as (p2 & Hy & Hnext). destruct (heapPush_ok h1 (mkElem k2 v2 (Z.of_nat (length fs1))) Hheap1) as (h2 & Hpush & Hp2 & Hheap2).
    destruct (IH (ps1 ++ p2 :: ps2) h2 (fs1 ++ ((k2, v2) :: f) :: fs2) (Hm h2 p2 Hp2 Hy Hheap2) Hf') as (out & Hst & He).
    exists ((k, v) :: out). split; [by apply least_stable|]. intros s. rewrite Hstep. cbn [loadAll].
    rewrite (Hnext _ _ (no_bytes_emptied k) (no_bytes_emptied v)). destruct (load k v s); [|done..]. rewrite !bind_ok, Hpush, bind_ok.
    rewrite <- Hl1 at 1. rewrite insert_app_r_alt, Nat.sub_diag by done. apply He.
Qed.

(** The first entries fill the heap. *)
Lemma firstElements_ok ps : forall i h fs, Forall2 yields ps fs -> Forall (fun f => f <> []) fs -> heap_upto h (length h) ->
  exists ps' h', firstElements i ps h = Ok (ps', h') /\ Forall2 (fun p f => yields p (tail f)) ps' fs /\
    h' ≡ₚ h ++ heads i fs /\ heap_upto h' (length h').
Proof.
  induction ps as [|p ps IH]; intros i h fs Hy Hne Hh.
  { apply Forall2_nil_inv_l in Hy as ->. exists [], h. cbn. rewrite app_nil_r. done. }
  apply Forall2_cons_inv_l in Hy as (f & fs' & Hp & Hy & ->). apply Forall_cons in Hne as [Hf Hne]. destruct f as [|[k v] f]; [done|].
  destruct Hp as (p' & Hp' & Hnext). cbn [firstElements]. rewrite (Hnext None None) by done.
  destruct (heapPush_ok h (mkElem k v (Z.of_nat i)) Hh) as (h1 & -> & Hp1 & Hh1). rewrite bind_ok.
  destruct (IH (S i) h1 fs' Hy Hne Hh1) as (ps' & h' & -> & Hr & Hp2 & Hh2). rewrite bind_ok. cbn [fst snd].
  exists (p' :: ps'), h'. split; [done|]. split; [by constructor|]. split; [|done].
  rewrite Hp2, Hp1. cbn [heads headAt app]. by rewrite Permutation_middle.
Qed.

(** Merging sorted streams loads a stable sort of all their entries. *)
Lemma mergeSortFiles_ok fuel ps fs buf : Forall2 yields ps fs -> Forall (fun f => f <> []) fs ->
  Forall (StronglySorted (kle ikey)) fs -> (length (concat fs) <= fuel)%nat ->
  exists out, stable ikey (concat fs) out /\
    forall s, mergeSortFiles load fuel ps false SortableSliceBuffer buf s = loadAll out s.
Proof.
  intros Hy Hne Hs Hf. destruct (firstElements_ok ps 0 [] fs Hy Hne) as (ps' & h & Hfirst & Hrest & Hp & Hh); [intros j Hj; cbn in Hj; lia|].
  destruct (mergeLoop_ok buf fuel ps' h fs) as (out & Hst & He); [by split|done|]. exists out. split; [done|]. intros s.
  unfold mergeSortFiles. change (heapInit []) with (Ok (@nil HeapElem)). rewrite bind_ok, Hfirst, bind_ok. cbn [fst snd]. rewrite He.
  by destruct (loadAll out s).
Qed.
End merging.

(** ** The buffer of slices holds what was put into it *)

Fixpoint pairs {A} (l : list (A * A)) : list A :=
  match l with [] => [] | (x, y) :: l => x :: y :: pairs l end.

Lemma pairs_app {A} (l1 l2 : list (A * A)) : pairs (l1 ++ l2) = pairs l1 ++ pairs l2.
Proof. induction l1 as [|[x y] l1 IH]; [done|]. cbn. by rewrite IH. Qed.

Lemma pairs_length {A} (l : list (A * A)) : length (pairs l) = (2 * length l)%nat.
Proof. induction l as [|[x y] l IH]; [done|]. cbn [pairs length]. lia. Qed.

Lemma pairs_lookup {A} (l : list (A * A)) i x y : l !! i = Some (x, y) ->
  pairs l !! (i * 2)%nat = Some x /\ pairs l !! (i * 2 + 1)%nat = Some y.
Proof. revert i. induction l as [|[a b] l IH]; intros [|i] Hi; [done..|by injection Hi as -> ->|]. by apply IH. Qed.

Lemma pairs_insert {A} (l : list (A * A)) i x y : (i < length l)%nat ->
  <[(i * 2 + 1)%nat := y]> (<[(i * 2)%nat := x]> (pairs l)) = pairs (<[i := (x, y)]> l).
Proof.
  revert i. induction l as [|[a b] l IH]; intros [|i] Hi; cbn [length] in Hi; [lia..|done|].
  cbn. do 2 f_equal. apply IH. lia.
Qed.

Lemma index_pair {A} (l : list (A * A)) (i : nat) x y : l !! i = Some (x, y) ->
  index (pairs l) (Z.of_nat i * 2) = Ok x /\ index (pairs l) (Z.of_nat i * 2 + 1) = Ok y.
Proof.
  intros Hi. apply pairs_lookup in Hi as [Hx Hy].
  replace (Z.of_nat i * 2 + 1) with (Z.of_nat (i * 2 + 1)) by lia. replace (Z.of_nat i * 2) with (Z.of_nat (i * 2)) by lia.
  split; by apply index_nat.
Qed.

Lemma swap_pairs {A} (l : list (A * A)) (i j : nat) p q : l !! i = Some p -> l !! j = Some q ->
  (os ← swapAt (pairs l) (Z.of_nat i * 2) (Z.of_nat j * 2); swapAt os (Z.of_nat i * 2 + 1) (Z.of_nat j * 2 + 1)) =
  Ok (pairs (<[j := p]> (<[i := q]> l))).
Proof.
  destruct p as [x y], q as [x' y']. intros Hi Hj.
  replace (Z.of_nat i * 2 + 1) with (Z.of_nat (i * 2 + 1)) by lia. replace (Z.of_nat i * 2) with (Z.of_nat (i * 2)) by lia.
  replace (Z.of_nat j * 2 + 1) with (Z.of_nat (j * 2 + 1)) by lia. replace (Z.of_nat j * 2) with (Z.of_nat (j * 2)) by lia.
  pose proof (pairs_lookup _ _ _ _ Hi) as [Hix Hiy]. pose proof (pairs_lookup _ _ _ _ Hj) as [Hjx Hjy].
  rewrite (swapAt_ok _ _ _ _ _ Hix Hjx), bind_ok.
  rewrite (swapAt_ok _ _ _ y y') by (by rewrite !list_lookup_insert_ne by lia). f_equal.
  apply lookup_lt_Some in Hi, Hj. rewrite <- (pairs_insert (<[i := (x', y')]> l) j) by (by rewrite length_insert).
  rewrite <- (pairs_insert l i) by done. by rewrite (list_insert_insert_ne _ (i * 2 + 1) (j * 2)) by lia.
Qed.

(** A part of the data: [n] bytes from [o] on, or nil. *)
Definition part (d : list Z) (o n : Z) (x : nilable) : Prop :=
  n = nilLen x /\ (0 <= n -> slice d o (o + n) = Ok (default [] x)).

Lemma slice_more {A} (d e : list A) i j s : slice d i j = Ok s -> slice (d ++ e) i j = Ok s.
Proof.
  unfold slice. case_decide as Hd; [|done]. intros [= <-]. rewrite decide_True by (rewrite length_app; lia). f_equal.
  rewrite drop_app_le, take_app_le by (rewrite ?length_drop; lia). done.
Qed.

Lemma part_more d e o n x : part d o n x -> part (d ++ e) o n x.
Proof. intros [Hn Hs]. split; [done|]. intros H0. by apply slice_more, Hs. Qed.

Lemma part_end d x e : part (d ++ default [] x ++ e) (Z.of_nat (length d)) (nilLen x) x.
Proof. split; [done|]. intros H0. destruct x as [s|]; [|by cbn in H0]. by eapply slice_at. Qed.

Definition sb_rep (b : sortableBuffer) (l : list item) : Prop :=
  exists os ls, offsets b = pairs os /\ lens b = pairs ls /\ length os = length l /\ length ls = length l /\
    forall i k v, l !! i = Some (k, v) -> exists ko vo kl vl, os !! i = Some (ko, vo) /\ ls !! i = Some (kl, vl) /\
      part (data b) ko kl k /\ part (data b) vo vl v.

Lemma sb_rep_empty n : sb_rep (NewSortableBuffer n) [].
Proof. by exists [], []. Qed.

Lemma sb_rep_Put b l k v : sb_rep b l -> sb_rep (sb_Put k v b) (l ++ [(k, v)]).
Proof.
  intros (os & ls & Ho & Hl & Lo & Ll & Hat).
  exists (os ++ [(Z.of_nat (length (data b)), Z.of_nat (length (data b ++ default [] k)))]), (ls ++ [(nilLen k, nilLen v)]).
  cbn [sb_Put offsets lens data]. rewrite !pairs_app, Ho, Hl, !length_app. cbn [pairs length]. split_and!; [done|done|lia|lia|].
  intros i k' v' Hi. apply lookup_app_Some in Hi as [Hi|[Hge Hi]].
  - destruct (Hat i k' v' Hi) as (ko & vo & kl & vl & H1 & H2 & H3 & H4). exists ko, vo, kl, vl.
    split_and!; [by apply lookup_app_l_Some|by apply lookup_app_l_Some|rewrite <- app_assoc; by apply part_more..].
  - assert (i = length l) as -> by (apply lookup_lt_Some in Hi; cbn in Hi; lia). rewrite Nat.sub_diag in Hi. injection Hi as <- <-.
    eexists _, _, _, _. split; [rewrite <- Lo; by apply list_lookup_middle|]. split; [rewrite <- Ll; by apply list_lookup_middle|]. split.
    + rewrite <- app_assoc. apply part_end.
    + rewrite <- (app_nil_r (default [] v)), <- length_app. apply part_end.
Qed.

Lemma sb_rep_Len b l : sb_rep b l -> sb_Len b = Z.of_nat (length l).
Proof.
  intros (os & ls & Ho & _ & Lo & _). unfold sb_Len. rewrite Ho, pairs_length, Lo, Z.quot_div_nonneg by lia.
  symmetry. apply (Z.div_unique _ _ _ 0); lia.
Qed.

Lemma sb_part_ok b o n x buf : part (data b) o n x -> no_bytes buf -> sb_part b o n buf = Ok x.
Proof.
  intros [-> Hs] Hb. unfold sb_part. destruct x as [[|y s]|]; [done| |done]. cbn [nilLen] in *.
  rewrite (proj2 (Z.ltb_lt _ _)), Hs by (cbn; lia). rewrite bind_ok. unfold no_bytes in Hb. cbn. by rewrite Hb.
Qed.

Lemma sb_rep_Get b l i k v kb vb : sb_rep b l -> l !! i = Some (k, v) -> no_bytes kb -> no_bytes vb ->
  sb_Get b (Z.of_nat i) kb vb = Ok (k, v).
Proof.
  intros (os & ls & Ho & Hl & _ & _ & Hat) Hi Hkb Hvb. destruct (Hat i k v Hi) as (ko & vo & kl & vl & H1 & H2 & H3 & H4).
  unfold sb_Get. rewrite Ho, Hl. destruct (index_pair _ _ _ _ H1) as [-> ->]. destruct (index_pair _ _ _ _ H2) as [-> ->].
  by rewrite !bind_ok, (sb_part_ok _ _ _ _ _ H3 Hkb), bind_ok, (sb_part_ok _ _ _ _ _ H4 Hvb), bind_ok.
Qed.

(** Keys that can be compared: those that are not nil. *)
Definition has_key (x : item) : Prop := is_Some (fst x).

Lemma sb_rep_Less b l i j x y : sb_rep b l -> Forall has_key l -> l !! i = Some x -> l !! j = Some y ->
  sb_Less b (Z.of_nat i) (Z.of_nat j) = Ok (bytes_ltb (ikey x) (ikey y)).
Proof.
  intros (os & ls & Ho & Hl & _ & _ & Hat) HP Hi Hj.
  assert (forall i x, l !! i = Some x -> sb_key b (Z.of_nat i) = Ok (ikey x)) as Hkey.
  { clear i j x y Hi Hj. intros i [k v] Hi. destruct (Hat i k v Hi) as (ko & vo & kl & vl & H1 & H2 & [H3 H3'] & _).
    rewrite Forall_lookup in HP. destruct (HP i (k, v) Hi) as [s Hs]. cbn in Hs. subst k kl.
    unfold sb_key. rewrite Ho, Hl. destruct (index_pair _ _ _ _ H1) as [-> _]. destruct (index_pair _ _ _ _ H2) as [-> _].
    rewrite !bind_ok, H3' by (cbn; lia). done. }
  unfold sb_Less. by rewrite (Hkey i x Hi), (Hkey j y Hj), !bind_ok.
Qed.

Lemma sb_rep_Swap b l i j x y : sb_rep b l -> l !! i = Some x -> l !! j = Some y ->
  exists b', sb_Swap b (Z.of_nat i) (Z.of_nat j) = Ok b' /\ sb_rep b' (<[j := x]> (<[i := y]> l)) /\ optimalSize b' = optimalSize b.
Proof.
  intros (os & ls & Ho & Hl & Lo & Ll & Hat) Hi Hj. unfold sb_Swap. rewrite Ho, Hl.
  pose proof (lookup_lt_Some _ _ _ Hi). pose proof (lookup_lt_Some _ _ _ Hj).
  destruct (lookup_lt_is_Some_2 os i) as [oi Hoi]; [lia|]. destruct (lookup_lt_is_Some_2 os j) as [oj Hoj]; [lia|].
  destruct (lookup_lt_is_Some_2 ls i) as [li Hli]; [lia|]. destruct (lookup_lt_is_Some_2 ls j) as [lj Hlj]; [lia|].
  pose proof (swap_pairs os i j oi oj Hoi Hoj) as Hs1. apply bind_Ok_inv in Hs1 as (os1 & -> & Hs1). rewrite bind_ok, Hs1, bind_ok.
  pose proof (swap_pairs ls i j li lj Hli Hlj) as Hs2. apply bind_Ok_inv in Hs2 as (ls1 & -> & Hs2). rewrite bind_ok, Hs2, bind_ok.
  eexists. split; [done|]. split; [|done]. exists (<[j := oi]> (<[i := oj]> os)), (<[j := li]> (<[i := lj]> ls)). cbn [offsets lens data].
  rewrite !length_insert. split_and!; [done..|]. intros m k v Hm.
  destruct (decide (m = j)) as [->|Hnj]; [|destruct (decide (m = i)) as [->|Hni]].
  - rewrite list_lookup_insert_eq in Hm by (rewrite length_insert; lia). injection Hm as ->.
    rewrite !list_lookup_insert_eq by (rewrite length_insert; lia).
    destruct oi as [ko vo], li as [kl vl]. exists ko, vo, kl, vl. split; [done|]. split; [done|].
    destruct (Hat i k v Hi) as (? & ? & ? & ? & H1 & H2 & H3). rewrite Hoi in H1. rewrite Hli in H2. by simplify_eq.
  - rewrite list_lookup_insert_ne, list_lookup_insert_eq in Hm by done. injection Hm as ->.
    destruct oj as [ko vo], lj as [kl vl]. exists ko, vo, kl, vl. split; [|split].
    1, 2: by rewrite list_lookup_insert_ne, list_lookup_insert_eq by (done || lia).
    destruct (Hat j k v Hj) as (? & ? & ? & ? & H1 & H2 & H3). rewrite Hoj in H1. rewrite Hlj in H2. by simplify_eq.
  - rewrite !list_lookup_insert_ne in Hm by done. rewrite !list_lookup_insert_ne by done. by apply Hat.
Qed.

Lemma stable_refl {X} (key : X -> list Z) l : StronglySorted (kle key) l -> stable key l l.
Proof. by split. Qed.

Lemma sb_Sort_ok b l : sb_rep b l -> Forall has_key l ->
  exists b' l', sb_Sort b = Ok b' /\ sb_rep b' l' /\ stable ikey l l'.
Proof.
  intros Hr HP. unfold sb_Sort. rewrite (sb_rep_Len _ _ Hr), Nat2Z.id. cbv zeta.
  assert (exists r, isSorted sb_Less (length l - 1) b = Ok r /\ (r = true -> StronglySorted (kle ikey) l)) as (r & -> & Hs).
  { destruct l as [|x l]; [exists true; split; [done|constructor]|].
    destruct (isSorted_ok ikey sb_Less sb_rep has_key sb_rep_Less (length (x :: l) - 1) b (x :: l) Hr HP) as (r & Hi & Hs); [cbn; lia|].
    exists r. split; [done|]. intros Ht. specialize (Hs Ht). cbn [length] in Hs.
    by rewrite take_ge in Hs by (cbn; lia). }
  rewrite bind_ok. destruct r; [exists b, l; split_and!; [done..|]; by apply stable_refl, Hs|].
  apply (sort_Stable_ok ikey sb_Less sb_Swap sb_rep has_key sb_rep_Less); [|done..].
  intros b0 l0 i j x y H0 Hi Hj. destruct (sb_rep_Swap b0 l0 i j x y H0 Hi Hj) as (b' & He & Hr' & _). eauto.
Qed.

(** ** Files give back what was written to them *)

Lemma shift_split y s : 0 <= s -> Z.lor (Z.shiftl (y mod 128) s) (Z.shiftl (Z.shiftr y 7) (s + 7)) = Z.shiftl y s.
Proof.
  intros Hs. change 128 with (2 ^ 7). rewrite <- Z.land_ones, (Z.add_comm s 7), <- Z.shiftl_shiftl by lia.
  rewrite <- Z.shiftl_lor. f_equal. apply Z.bits_inj'. intros i Hi.
  rewrite Z.lor_spec, Z.land_spec, Z.testbit_ones_nonneg by lia. destruct (Z.ltb_spec i 7).
  - rewrite andb_true_r, Z.shiftl_spec_low, orb_false_r by lia. done.
  - rewrite andb_false_r, orb_false_l, Z.shiftl_spec, Z.shiftr_spec by lia. f_equal. lia.
Qed.

Lemma marked_byte b : 0 <= b < 256 -> Z.land (Z.lor b 0x80) 0x7f = b mod 128 /\ 128 <= Z.lor b 0x80.
Proof.
  intros Hb. assert (forallb (fun n => let b := Z.of_nat n in (Z.land (Z.lor b 0x80) 0x7f =? b mod 128) && (128 <=? Z.lor b 0x80)) (seq 0 256) = true)
    as Hall by (vm_compute; reflexivity).
  rewrite forallb_forall in Hall. specialize (Hall (Z.to_nat b)). rewrite Z2Nat.id in Hall by lia.
  rewrite in_seq in Hall. specialize (Hall ltac:(lia)). apply andb_true_iff in Hall as [?%Z.eqb_eq ?%Z.leb_le]. done.
Qed.

Lemma u8_mod128 y : u8 y mod 128 = y mod 128.
Proof. unfold u8. change (2 ^ 8) with (128 * 2). rewrite Z.rem_mul_r by lia. rewrite Z.mul_comm, Z.mod_add by lia. by apply Z.mod_mod. Qed.

Lemma shiftl_fits b i : 0 <= i -> 0 <= b < 2 ^ (64 - i) -> i <= 64 -> u64 (Z.shiftl b i) = Z.shiftl b i.
Proof.
  intros Hi Hb Hle. apply u64_small. rewrite Z.shiftl_mul_pow2 by lia. split; [nia|].
  replace (2 ^ 64) with (2 ^ (64 - i) * 2 ^ i) by (rewrite <- Z.pow_add_r by lia; f_equal; lia).
  apply Z.mul_lt_mono_pos_r; [apply Z.pow_pos_nonneg; lia|lia].
Qed.

Lemma uvarint_round_trip fuel : forall i x y r, Z.of_nat fuel = 10 - i -> 0 <= i < 10 -> 0 <= y < 2 ^ (64 - 7 * i) ->
  readUvarint fuel i x (7 * i) (putUvarint fuel y ++ r) = Ok (Z.lor x (Z.shiftl y (7 * i)), r).
Proof.
  induction fuel as [|fuel IH]; intros i x y r Hf Hi Hy; [lia|]. cbn [putUvarint].
  assert (2 ^ (64 - 7 * i) <= 2 ^ 64) by (apply Z.pow_le_mono_r; lia).
  destruct (Z.leb_spec 0x80 y) as [Hge|Hlt].
  - assert (i < 9) as Hi9 by (destruct (decide (i = 9)) as [->|]; [change (2 ^ (64 - 7 * 9)) with 2 in Hy; lia|lia]).
    destruct (marked_byte (u8 y)) as [Hland Hle]; [apply Z.mod_pos_bound; lia|].
    cbn [app readUvarint]. rewrite (proj2 (Z.ltb_ge _ _)) by lia. rewrite Hland, u8_mod128.
    replace (7 * i + 7) with (7 * (i + 1)) by lia. rewrite IH; [|lia|lia|].
    + rewrite <- Z.lor_assoc. do 3 f_equal. rewrite shiftl_fits; [|lia| |lia].
      * replace (7 * (i + 1)) with (7 * i + 7) by lia. apply shift_split. lia.
      * pose proof (Z.mod_pos_bound y 128 ltac:(lia)). split; [lia|]. assert (2 ^ 7 <= 2 ^ (64 - 7 * i)) by (apply Z.pow_le_mono_r; lia). lia.
    + rewrite Z.shiftr_div_pow2 by lia. split; [apply Z.div_pos; lia|]. apply Z.div_lt_upper_bound; [lia|].
      rewrite <- Z.pow_add_r by lia. replace (7 + (64 - 7 * (i + 1))) with (64 - 7 * i) by lia. apply Hy.
  - cbn [app readUvarint]. assert (u8 y = y) as -> by (apply Z.mod_small; lia). rewrite (proj2 (Z.ltb_lt y 0x80)) by lia.
    rewrite (proj2 (andb_false_iff _ _)).
    + rewrite shiftl_fits by lia. done.
    + destruct (Z.eqb_spec i 9) as [->|]; [|by left]. right. change (2 ^ (64 - 7 * 9)) with 2 in Hy. apply Z.ltb_ge. lia.
Qed.

Lemma lnot_double x : - 2 ^ 63 <= x < 0 -> u64 (Z.lnot (u64 (Z.shiftl x 1))) = - 2 * x - 1.
Proof.
  intros Hx. rewrite Z.shiftl_mul_pow2 by lia. change (2 ^ 1) with 2. unfold Z.lnot, u64.
  assert ((x * 2) mod 2 ^ 64 = x * 2 + 2 ^ 64) as -> by (symmetry; apply (Z.mod_unique _ _ (-1)); lia).
  symmetry. apply (Z.mod_unique _ _ (-1)); lia.
Qed.

Lemma varint_round_trip x r : - 2 ^ 63 <= x < 2 ^ 63 -> ReadVarint (PutVarint x ++ r) = Ok (x, r).
Proof.
  intros Hx. unfold ReadVarint, PutVarint. cbv zeta.
  set (y := if x <? 0 then u64 (Z.lnot (u64 (Z.shiftl x 1))) else u64 (Z.shiftl x 1)).
  assert (y = if x <? 0 then - 2 * x - 1 else 2 * x) as Hy.
  { unfold y. destruct (Z.ltb_spec x 0); [apply lnot_double; lia|]. rewrite Z.shiftl_mul_pow2 by lia. change (2 ^ 1) with 2. rewrite u64_small by lia. lia. }
  pose proof (uvarint_round_trip 10 0 0 y r) as Hu. change (7 * 0) with 0 in Hu. rewrite Hu; [|done|lia|change (2 ^ (64 - 0)) with (2 ^ 64); rewrite Hy; destruct (Z.ltb_spec x 0); lia].
  rewrite bind_ok, Z.lor_0_l, Z.shiftl_0_r. assert (Z.land y 1 = y mod 2) as -> by exact (Z.land_ones y 1 ltac:(lia)).
  rewrite Z.shiftr_div_pow2 by lia. change (2 ^ 1) with 2.
  rewrite Hy. destruct (Z.ltb_spec x 0).
  - assert ((-2 * x - 1) mod 2 = 1) as -> by (symmetry; apply (Z.mod_unique _ _ (- x - 1)); lia). cbn [Z.eqb].
    assert ((-2 * x - 1) / 2 = - x - 1) as -> by (symmetry; apply (Z.div_unique _ _ _ 1); lia). rewrite i64_small by lia.
    unfold Z.lnot. do 2 f_equal. lia.
  - assert ((2 * x) mod 2 = 0) as -> by (symmetry; apply (Z.mod_unique _ _ x); lia). cbn [Z.eqb].
    assert ((2 * x) / 2 = x) as -> by (symmetry; apply (Z.div_unique _ _ _ 0); lia). by rewrite i64_small by lia.
Qed.

(** An entry in a file. *)
Definition encode (x : item) : list Z :=
  PutVarint (nilLen (fst x)) ++ default [] (fst x) ++ PutVarint (nilLen (snd x)) ++ default [] (snd x).

(** Lengths are [int]s. *)
Definition fits (b : nilable) : Prop := lenOf b < 2 ^ 63.

Lemma readPart_ok x buf r : fits x -> no_bytes buf -> readPart buf (PutVarint (nilLen x) ++ default [] x ++ r) = Ok (x, r).
Proof.
  unfold fits, lenOf, no_bytes. intros Hx Hb. unfold readPart. rewrite varint_round_trip by (destruct x; cbn in *; lia).
  rewrite bind_ok. destruct x as [s|]; [|done]. cbn [nilLen default] in *. rewrite (proj2 (Z.leb_le 0 _)) by lia.
  unfold ReadFull. cbn [id]. rewrite length_app, (proj2 (Z.ltb_ge _ _)), Nat2Z.id by lia. rewrite bind_ok.
  rewrite take_app_length, drop_app_length, Hb. done.
Qed.

Lemma readElement_ok x kb vb r : fits (fst x) -> fits (snd x) -> no_bytes kb -> no_bytes vb ->
  readElementFromDisk (encode x ++ r) kb vb = Ok (x, r).
Proof.
  intros Hk Hv Hkb Hvb. unfold readElementFromDisk, encode. rewrite <- !app_assoc, readPart_ok, bind_ok by done.
  rewrite readPart_ok, bind_ok by done. by destruct x.
Qed.

Lemma sb_Write_ok b l : sb_rep b l -> sb_Write b = Ok (concat (map encode l)).
Proof.
  intros (os & ls & Ho & Hl & Lo & Ll & Hat). unfold sb_Write. rewrite Ho.
  assert (forall l2 os1 ls1 os2 ls2 l1, os = os1 ++ os2 -> ls = ls1 ++ ls2 -> l = l1 ++ l2 -> length os1 = length l1 -> length ls1 = length l1 ->
    sb_writeFrom b (Z.of_nat (length l1) * 2) (pairs os2) = Ok (concat (map encode l2))) as Hfrom.
  2: { apply (Hfrom l [] [] os ls []); done. }
  induction l2 as [|[k v] l2 IH]; intros os1 ls1 os2 ls2 l1 -> -> -> Ho1 Hl1.
  { rewrite app_nil_r, length_app in Lo. destruct os2; [done|]. cbn in Lo. lia. }
  destruct (Hat (length l1) k v) as (ko & vo & kl & vl & H1 & H2 & [H3 H3'] & [H4 H4']); [by apply list_lookup_middle|].
  rewrite lookup_app_r in H1, H2 by lia. rewrite Ho1, Nat.sub_diag in H1. rewrite Hl1, Nat.sub_diag in H2.
  destruct os2 as [|o os2]; [done|]. destruct ls2 as [|l' ls2]; [done|]. injection H1 as ->. injection H2 as ->.
  cbn [pairs sb_writeFrom]. rewrite Hl. destruct (index_pair (ls1 ++ (kl, vl) :: ls2) (length l1) kl vl) as [-> ->]; [rewrite <- Hl1; by apply list_lookup_middle|].
  assert (forall o n x, (0 <= n -> slice (data b) o (o + n) = Ok (default [] x)) -> n = nilLen x ->
    (if n <=? 0 then Ok [] else slice (data b) o (o + n)) = Ok (default [] x)) as Hpart.
  { intros o n x Hs Hn. destruct (Z.leb_spec n 0); [|apply Hs; lia]. destruct x as [[|y s]|]; [done|cbn in Hn; lia|done]. }
  rewrite !bind_ok, (Hpart _ _ _ H3' H3), !bind_ok, (Hpart _ _ _ H4' H4), !bind_ok.
  replace (Z.of_nat (length l1) * 2 + 1 + 1) with (Z.of_nat (length (l1 ++ [(k, v)])) * 2) by (rewrite length_app; cbn; lia).
  rewrite (IH (os1 ++ [(ko, vo)]) (ls1 ++ [(kl, vl)]) os2 ls2) by (rewrite <- ?app_assoc, ?length_app; cbn; done || lia).
  rewrite !bind_ok. cbn [map concat]. unfold encode. cbn [fst snd]. rewrite <- H3, <- H4, <- !app_assoc. done.
Qed.

(** ** What providers give *)

Definition items_fit (l : list item) : Prop := Forall (fun x => fits (fst x) /\ fits (snd x)) l.

Lemma file_yields l : forall file r, items_fit l -> default file r = concat (map encode l) -> yields (fileDataProvider file r) l.
Proof.
  induction l as [|x l IH]; intros file r Hf Hr.
  { intros kb vb _ _. cbn [provider_Next]. by rewrite Hr. }
  apply Forall_cons in Hf as [[Hk Hv] Hf]. exists (fileDataProvider file (Some (concat (map encode l)))). split; [by apply IH|].
  intros kb vb Hkb Hvb. cbn [provider_Next]. rewrite Hr. cbn [map concat]. rewrite readElement_ok by done. done.
Qed.

Lemma memory_yields b l : sb_rep b l -> forall l2 l1, l = l1 ++ l2 -> yields (memoryDataProvider (SortableSlice b) (Z.of_nat (length l1))) l2.
Proof.
  intros Hr l2. induction l2 as [|[k v] l2 IH]; intros l1 Hl.
  { intros kb vb _ _. cbn [provider_Next buf_Len]. rewrite (sb_rep_Len _ _ Hr), Hl, app_nil_r. by rewrite (proj2 (Z.leb_le _ _)). }
  exists (memoryDataProvider (SortableSlice b) (Z.of_nat (length (l1 ++ [(k, v)])))). split; [apply IH; by rewrite <- app_assoc|].
  intros kb vb Hkb Hvb. cbn [provider_Next buf_Len buf_Get]. rewrite (sb_rep_Len _ _ Hr), Hl, (proj2 (Z.leb_gt _ _)) by (rewrite length_app; cbn; lia).
  rewrite (sb_rep_Get b l _ k v) by (done || (rewrite Hl; by apply list_lookup_middle)). rewrite bind_ok. do 3 f_equal. rewrite length_app. cbn. lia.
Qed.

Lemma varint_nonempty x : (1 <= length (PutVarint x))%nat.
Proof. unfold PutVarint. cbn [putUvarint]. destruct (_ <=? _); cbn; lia. Qed.

Lemma encode_long l : (length l <= length (concat (map encode l)))%nat.
Proof.
  induction l as [|x l IH]; [done|]. cbn [map concat length]. rewrite length_app.
  assert (1 <= length (encode x))%nat by (unfold encode; rewrite length_app; pose proof (varint_nonempty (nilLen (fst x))); lia). lia.
Qed.

(** ** The collector holds what was collected *)

Section collector.
Context (order : gmap (list Z) nilable -> list (list Z * nilable)).

Definition good (x : item) : Prop := has_key x /\ fits (fst x) /\ fits (snd x).

(** A provider of sorted entries. *)
Definition source (p : dataProvider) (f : list item) : Prop :=
  yields p f /\ (length f <= rounds p)%nat /\ f <> [] /\ StronglySorted (kle ikey) f.

(** What is in the buffer and in the sources are the entries, those of a key in order. *)
Record collected (kvs : list item) (c : Collector) : Prop := {
  collected_type : cl_bufType c = SortableSliceBuffer;
  collected_items : exists b l fs, cl_buf c = SortableSlice b /\ sb_rep b l /\ Forall2 source (cl_dataProviders c) fs /\
    forall k, filter (fun x => ikey x = k) (concat fs ++ l) = filter (fun x => ikey x = k) kvs;
}.

Lemma collected_new n : collected [] (NewCollector (SortableSlice (NewSortableBuffer n))).
Proof. split; [done|]. exists (NewSortableBuffer n), [], []. split_and!; [done|apply sb_rep_empty|constructor|done]. Qed.

Lemma good_part (fs : list (list item)) l kvs : (forall k, filter (fun x => ikey x = k) (concat fs ++ l) = filter (fun x => ikey x = k) kvs) ->
  Forall good kvs -> Forall good l.
Proof. intros Hf Hg. apply (filter_Permutation ikey) in Hf. rewrite <- Hf in Hg. by apply Forall_app in Hg as [_ ?]. Qed.

(** The buffer becomes a source, in a file or in memory. *)
Lemma flush_source b l : sb_rep b l -> Forall good l -> l <> [] ->
  exists b' l', sb_Sort b = Ok b' /\ sb_rep b' l' /\ stable ikey l l' /\
    (exists file, sortAndFlush order (SortableSlice b) = Ok file /\ source (fileDataProvider file None) l') /\
    source (KeepInRAM (SortableSlice b')) l'.
Proof.
  intros Hr Hg Hne. destruct (sb_Sort_ok b l Hr) as (b' & l' & Hs & Hr' & Hst); [eapply Forall_impl; [exact Hg|]; by intros x []|].
  pose proof (stable_Permutation _ _ _ Hst) as Hp. assert (l' <> []) as Hne' by (intros ->; apply Permutation_nil_l in Hp; done).
  exists b', l'. split_and!; [done..| |].
  - exists (concat (map encode l')). unfold sortAndFlush. cbn [buf_Sort]. rewrite Hs, !bind_ok. cbn [buf_Write]. rewrite (sb_Write_ok _ _ Hr').
    split; [done|]. split; [apply file_yields; [|done]|split; [apply encode_long|split; [done|apply Hst]]].
    rewrite <- Hp in Hg. eapply Forall_impl; [exact Hg|]. by intros x (_ & ? & ?).
  - split; [by apply (memory_yields b' l' Hr' l' [])|]. split; [|split; [done|apply Hst]].
    cbn [KeepInRAM rounds buf_Len]. rewrite (sb_rep_Len _ _ Hr'). lia.
Qed.

Lemma concat_snoc {A} (fs : list (list A)) l : concat (fs ++ [l]) = concat fs ++ l.
Proof. rewrite concat_app. cbn. by rewrite app_nil_r. Qed.

Lemma spillBuffer_ok c b l fs : cl_bufType c = SortableSliceBuffer -> cl_buf c = SortableSlice b -> sb_rep b l -> Forall good l -> l <> [] ->
  Forall2 source (cl_dataProviders c) fs ->
  exists c' b' l', spillBuffer order c = Ok c' /\ cl_bufType c' = SortableSliceBuffer /\ cl_allFlushed c' = cl_allFlushed c /\
    cl_buf c' = SortableSlice b' /\ sb_rep b' [] /\ Forall2 source (cl_dataProviders c') (fs ++ [l']) /\ stable ikey l l'.
Proof.
  intros Ht Hb Hr Hg Hne Hps. destruct (flush_source b l Hr Hg Hne) as (b' & l' & Hs & Hr' & Hst & (file & Hfile & Hsrc) & _).
  unfold spillBuffer. rewrite Hb. cbn [buf_SizeLimit].
  assert (exists b2, (if cl_sortAndFlushInBackground c then getBufferByType (cl_bufType c) (optimalSize b) (Some (SortableSlice b)) else Ok (buf_Reset (SortableSlice b))) =
    Ok (SortableSlice b2) /\ sb_rep b2 []) as (b2 & -> & Hr2).
  { rewrite Ht. destruct (cl_sortAndFlushInBackground c); eexists; (split; [done|]); apply (sb_rep_empty (optimalSize b)). }
  rewrite bind_ok. unfold FlushToDisk. cbn [buf_Len]. rewrite (sb_rep_Len _ _ Hr), (proj2 (Z.eqb_neq _ _)) by (destruct l; [done|cbn; lia]).
  rewrite Hfile, !bind_ok. eexists _, b2, l'. split; [done|]. cbn [cl_bufType cl_allFlushed cl_buf cl_dataProviders]. split_and!; try done.
  apply Forall2_app; [done|]. by constructor.
Qed.

Lemma flushBuffer_ok kvs c : collected kvs c -> Forall good kvs ->
  exists c', flushBuffer order false c = Ok c' /\ collected kvs c' /\ cl_allFlushed c' = cl_allFlushed c.
Proof.
  intros [Ht (b & l & fs & Hb & Hr & Hps & Hf)] Hg. unfold flushBuffer. rewrite Hb. cbn [buf_Len]. rewrite (sb_rep_Len _ _ Hr).
  destruct (Z.eqb_spec (Z.of_nat (length l)) 0) as [Hl|Hl]; [exists c; split_and!; [done| |done]; split; [done|by exists b, l, fs]|].
  cbn [andb]. assert (l <> []) as Hne by (intros ->; by apply Hl).
  destruct (spillBuffer_ok c b l fs Ht Hb Hr (good_part _ _ _ Hf Hg) Hne Hps) as (c' & b' & l' & He & Ht' & Ha & Hb' & Hr' & Hps' & Hst).
  exists c'. split; [done|]. split; [|done]. split; [done|]. exists b', [], (fs ++ [l']). split_and!; [done|done|done|].
  intros k. rewrite app_nil_r, concat_snoc, <- Hf, !filter_app. f_equal. apply Hst.
Qed.

Lemma Collect_ok kvs c k v : collected kvs c -> Forall good kvs -> good (k, v) ->
  exists c', Collect order k v c = Ok c' /\ collected (kvs ++ [(k, v)]) c' /\ cl_allFlushed c' = cl_allFlushed c.
Proof.
  intros [Ht (b & l & fs & Hb & Hr & Hps & Hf)] Hg Hkv. unfold Collect, extractNextFunc. cbv zeta.
  assert (collected (kvs ++ [(k, v)]) (mkCollector (buf_Put k v (cl_buf c)) (cl_dataProviders c) (cl_bufType c) (cl_allFlushed c)
    (cl_autoClean c) (cl_sortAndFlushInBackground c))) as Hc.
  { split; [done|]. exists (sb_Put k v b), (l ++ [(k, v)]), fs. cbn [cl_buf cl_dataProviders]. rewrite Hb. split_and!; [done|by apply sb_rep_Put|done|].
    intros k'. by rewrite app_assoc, filter_app, Hf, filter_app. }
  destruct (buf_CheckFlushSize _); cbn [negb]; [|by eexists].
  apply (flushBuffer_ok _ _ Hc). by apply Forall_app; split; [|apply Forall_singleton].
Qed.

(** [for key, value := range bucket { collector.Collect(key, value) }] *)
Fixpoint collectAll (kvs : list item) (c : Collector) : outcome Collector :=
  match kvs with
  | [] => Ok c
  | (k, v) :: kvs => c ← Collect order k v c; collectAll kvs c
  end.

Lemma collectAll_ok kvs2 : forall kvs1 c, collected kvs1 c -> Forall good kvs1 -> Forall good kvs2 ->
  exists c', collectAll kvs2 c = Ok c' /\ collected (kvs1 ++ kvs2) c' /\ cl_allFlushed c' = cl_allFlushed c.
Proof.
  induction kvs2 as [|[k v] kvs2 IH]; intros kvs1 c Hc H1 H2; [exists c; by rewrite app_nil_r|].
  apply Forall_cons in H2 as [Hkv H2]. cbn [collectAll]. destruct (Collect_ok kvs1 c k v Hc H1 Hkv) as (c1 & -> & Hc1 & Ha1). rewrite bind_ok.
  destruct (IH (kvs1 ++ [(k, v)]) c1 Hc1) as (c' & He & Hc' & Ha'); [by apply Forall_app; split; [|apply Forall_singleton]|done|].
  exists c'. split; [done|]. rewrite <- app_assoc in Hc'. split; [done|congruence].
Qed.

Lemma enough_rounds ps fs : Forall2 source ps fs -> (length (concat fs) <= sum_list (map rounds ps))%nat.
Proof. induction 1 as [|p f ps fs (_ & Hl & _) _ IH]; [done|]. cbn [concat map sum_list]. rewrite length_app. cbn. lia. Qed.

(** Everything is in the sources. *)
Definition gathered (kvs : list item) (c : Collector) : Prop :=
  cl_bufType c = SortableSliceBuffer /\ exists fs, Forall2 source (cl_dataProviders c) fs /\
    forall k, filter (fun x => ikey x = k) (concat fs) = filter (fun x => ikey x = k) kvs.

(** Ready to be loaded. *)
Definition ready_to_load (kvs : list item) (c : Collector) : Prop :=
  if cl_allFlushed c then gathered kvs c else collected kvs c.

Lemma flushAll_ok kvs c : collected kvs c -> cl_allFlushed c = false -> Forall good kvs ->
  exists c', flushBuffer order true c = Ok c' /\ gathered kvs c' /\ ready_to_load kvs c'.
Proof.
  intros Hc Ha Hg. pose proof Hc as [Ht (b & l & fs & Hb & Hr & Hps & Hf)]. unfold flushBuffer. rewrite Hb. cbn [buf_Len]. rewrite (sb_rep_Len _ _ Hr).
  destruct (Z.eqb_spec (Z.of_nat (length l)) 0) as [Hl|Hl].
  { destruct l; [|cbn in Hl; lia]. exists c. split; [done|]. split; [|unfold ready_to_load; by rewrite Ha].
    split; [done|]. exists fs. split; [done|]. intros k. by rewrite <- Hf, app_nil_r. }
  assert (l <> []) as Hne by (intros ->; by apply Hl). pose proof (good_part _ _ _ Hf Hg) as Hgl.
  case_bool_decide as Hnil; cbn [andb].
  - rewrite Hnil in Hps. apply Forall2_nil_inv_l in Hps as ->.
    destruct (flush_source b l Hr Hgl Hne) as (b' & l' & Hs & _ & Hst & _ & Hsrc).
    cbn [buf_Sort]. rewrite Hs, !bind_ok. eexists. split; [done|]. unfold ready_to_load. cbn [cl_allFlushed].
    assert (forall c', cl_bufType c' = SortableSliceBuffer -> cl_dataProviders c' = [KeepInRAM (SortableSlice b')] -> gathered kvs c') as Hgat.
    { intros c' Ht' Hps'. split; [done|]. exists [l']. rewrite Hps'. split; [by constructor|]. intros k. cbn. by rewrite app_nil_r, (stable_filter _ _ _ Hst), <- Hf. }
    split; by apply Hgat.
  - destruct (spillBuffer_ok c b l fs Ht Hb Hr Hgl Hne Hps) as (c' & b' & l' & He & Ht' & Ha' & Hb' & Hr' & Hps' & Hst).
    assert (forall k, filter (fun x => ikey x = k) (concat (fs ++ [l'])) = filter (fun x => ikey x = k) kvs) as Hf'.
    { intros k. rewrite concat_snoc, <- Hf, !filter_app. f_equal. apply Hst. }
    exists c'. split; [done|]. split; [split; [done|]; eauto|]. unfold ready_to_load. rewrite Ha', Ha. split; [done|].
    exists b', [], (fs ++ [l']). split_and!; [done..|]. intros k. by rewrite app_nil_r.
Qed.
End collector.

(** ** What a load writes *)

Section load.
Context {T : Type} `{Kv T} `{!KvLaws T} (order : gmap (list Z) nilable -> list (list Z * nilable)).

Lemma load_source kvs c : ready_to_load kvs c -> Forall good kvs ->
  exists c', (if negb (cl_allFlushed c) then flushBuffer order true c else Ok c) = Ok c' /\ gathered kvs c'.
Proof.
  intros Hc Hg. unfold ready_to_load in Hc. destruct (cl_allFlushed c) eqn:Ha; cbn [negb]; [by exists c|].
  destruct (flushAll_ok order kvs c Hc Ha Hg) as (c' & He & Hgat & _). eauto.
Qed.

(** [Load] is the loading, entry after entry, of a stable sort of what was collected. *)
Lemma Load_sorted kvs c bucket (lf : LoadFunc (T := T)) tx : ready_to_load kvs c -> Forall good kvs ->
  exists out, stable ikey kvs out /\ Load order bucket lf false c tx =
    (s ← loadAll (simpleLoad bucket SortableSliceBuffer (fst <$> last (entries (tx_table tx bucket))) lf) out (mkLoading tx 0 false); Ok (ld_tx s)).
Proof.
  intros Hc Hg. destruct (load_source kvs c Hc Hg) as (c' & He0 & Ht & fs & Hps & Hf). unfold Load. rewrite He0, bind_ok, Ht, law_Last, bind_ok.
  destruct (mergeSortFiles_ok (simpleLoad bucket SortableSliceBuffer (fst <$> last (entries (tx_table tx bucket))) lf)
    (sum_list (map rounds (cl_dataProviders c'))) (cl_dataProviders c') fs (cl_buf c')) as (out & Hst & He).
  - eapply Forall2_impl; [exact Hps|]. by intros p f [? _].
  - clear -Hps. induction Hps as [|p f ps fs (_ & _ & ? & _)]; by constructor.
  - clear -Hps. induction Hps as [|p f ps fs (_ & _ & _ & ?)]; by constructor.
  - by apply enough_rounds.
  - exists out. split; [split; [apply Hst|]; intros k; by rewrite (stable_filter _ _ _ Hst)|]. by rewrite He.
Qed.

(** If the caller has stopped, nothing is loaded. *)
Lemma Load_stopped kvs c bucket (lf : LoadFunc (T := T)) tx : ready_to_load kvs c -> Forall good kvs -> kvs <> [] ->
  Load order bucket lf true c tx = Err "stopped".
Proof.
  intros Hc Hg Hne. destruct (load_source kvs c Hc Hg) as (c' & He & Ht & fs & Hps & Hf). unfold Load. rewrite He, bind_ok, Ht, law_Last, bind_ok.
  destruct (firstElements_ok (cl_dataProviders c') 0 [] fs) as (ps' & h & Hfirst & _ & Hp & _).
  - eapply Forall2_impl; [exact Hps|]. by intros p f [? _].
  - clear -Hps. induction Hps as [|p f ps fs (_ & _ & ? & _)]; by constructor.
  - intros j Hj. cbn in Hj. lia.
  - unfold mergeSortFiles. change (heapInit []) with (Ok (@nil HeapElem)). rewrite bind_ok, Hfirst, bind_ok. cbn [fst snd].
    pose proof (enough_rounds _ _ Hps) as Hr. destruct kvs as [|x kvs]; [done|]. specialize (Hf (ikey x)). rewrite filter_cons, decide_True in Hf by done.
    destruct Hps as [|p f ps fs (_ & _ & Hn & _) Hps]; [done|]. destruct f as [|[k v] f]; [done|]. cbn [app heads headAt] in Hp.
    destruct h as [|e h]; [by apply Permutation_nil_l in Hp|]. cbn [concat app length] in Hr. destruct (sum_list _) as [|n]; [lia|]. done.
Qed.

(** An entry without a value is a deletion. *)
Definition write (m : table) (x : item) : table :=
  match snd x with None => delete (ikey x) m | Some v => <[ikey x := v]> m end.

Lemma write_lookup_ne m x k : ikey x <> k -> write m x !! k = m !! k.
Proof. intros Hne. unfold write. destruct (snd x); [by rewrite lookup_insert_ne|by rewrite lookup_delete_ne]. Qed.

Lemma write_lookup_eq m m' x : write m x !! ikey x = write m' x !! ikey x.
Proof. unfold write. destruct (snd x); [by rewrite !lookup_insert_eq|by rewrite !lookup_delete_eq]. Qed.

Lemma writes_lookup l : forall m m' k, m !! k = m' !! k ->
  foldl write m l !! k = foldl write m' (filter (fun x => ikey x = k) l) !! k.
Proof.
  induction l as [|x l IH]; intros m m' k Hm; [done|]. cbn [foldl]. rewrite filter_cons. case_decide as Hk.
  - cbn [foldl]. apply IH. rewrite <- Hk. apply write_lookup_eq.
  - apply IH. by rewrite write_lookup_ne.
Qed.

(** The entries of different keys may be written in any order. *)
Lemma writes_stable m l l' : (forall k, filter (fun x => ikey x = k) l' = filter (fun x => ikey x = k) l) ->
  foldl write m l' = foldl write m l.
Proof. intros Hf. apply map_eq. intros k. by rewrite (writes_lookup l' m m k), (writes_lookup l m m k), Hf by done. Qed.

(** Another transaction whose table is changed, and no other one. *)
Definition becomes (tx : T) (bucket : string) (m : table) (tx' : T) : Prop :=
  forall t, tx_table tx' t = if decide (t = bucket) then m else tx_table tx t.

Lemma becomes_refl tx bucket : becomes tx bucket (tx_table tx bucket) tx.
Proof. intros t. by case_decide; subst. Qed.

Lemma becomes_at tx bucket m tx' : becomes tx bucket m tx' -> tx_table tx' bucket = m.
Proof. intros Hb. by rewrite Hb, decide_True. Qed.

Lemma becomes_trans tx bucket m tx1 m1 tx' : becomes tx bucket m tx1 -> becomes tx1 bucket m1 tx' -> becomes tx bucket m1 tx'.
Proof. intros H1 H2 t. rewrite H2. case_decide; [done|]. by rewrite H1, decide_False. Qed.

Abbreviation load1 bucket lastKey := (simpleLoad (T := T) bucket SortableSliceBuffer lastKey IdentityLoadFunc).

Lemma isNil_slice v : isNil SortableSliceBuffer v = match v with None => true | Some _ => false end.
Proof. by destruct v. Qed.

(** Whether an entry is appended: decided by the first one. *)
Definition appends (lastKey : option (list Z)) (s : Loading (T := T)) (k : list Z) : bool :=
  if ld_i s =? 0 then match lastKey with None => true | Some last => bytes_ltb last k end else ld_canUseAppend s.

Lemma load1_step bucket lastKey x s : load1 bucket lastKey (fst x) (snd x) s =
  if appends lastKey s (ikey x) then
    tx ← match snd x with None => Ok (ld_tx s) | Some v => tx_Append bucket (ikey x) v (ld_tx s) end;
    Ok (mkLoading tx (ld_i s + 1) true)
  else
    tx ← match snd x with None => tx_Delete bucket (ikey x) (ld_tx s) | Some v => tx_Put bucket (ikey x) v (ld_tx s) end;
    Ok (mkLoading tx (ld_i s + 1) false).
Proof.
  unfold simpleLoad, loadNextFunc, appends, ikey. cbv zeta. cbn [isIdentityLoadFunc andb]. rewrite isNil_slice.
  destruct x as [k [v|]], (if ld_i s =? 0 then _ else _); done.
Qed.

Lemma appends_later lastKey tx i a k : 0 <= i -> appends lastKey (mkLoading tx (i + 1) a) k = a.
Proof. intros Hi. unfold appends. cbn [ld_i ld_canUseAppend]. by rewrite (proj2 (Z.eqb_neq _ _)) by lia. Qed.

Lemma put_all bucket lastKey out : forall s, (forall x, head out = Some x -> appends lastKey s (ikey x) = false) -> 0 <= ld_i s ->
  exists s', loadAll (load1 bucket lastKey) out s = Ok s' /\
    becomes (ld_tx s) bucket (foldl write (tx_table (ld_tx s) bucket) out) (ld_tx s').
Proof.
  induction out as [|x out IH]; intros s Ha H0; [exists s; split; [done|apply becomes_refl]|].
  assert (exists tx1, load1 bucket lastKey (fst x) (snd x) s = Ok (mkLoading tx1 (ld_i s + 1) false) /\
    becomes (ld_tx s) bucket (write (tx_table (ld_tx s) bucket) x) tx1) as (tx1 & Hl & Hb1).
  { rewrite load1_step, (Ha x eq_refl). unfold write. destruct (snd x) as [v|].
    - destruct (law_Put bucket (ikey x) v (ld_tx s)) as (tx1 & -> & Htab). eauto.
    - destruct (law_Delete bucket (ikey x) (ld_tx s)) as (tx1 & -> & Htab). eauto. }
  destruct x as [k v]. cbn [loadAll fst snd] in *. rewrite Hl, bind_ok.
  destruct (IH (mkLoading tx1 (ld_i s + 1) false)) as (s' & He & Hb2); [intros; by apply appends_later|cbn; lia|].
  exists s'. split; [done|]. cbn [ld_tx] in Hb2. rewrite (becomes_at _ _ _ _ Hb1) in Hb2. by eapply becomes_trans.
Qed.

(** The keys of a table come before a key. *)
Definition before (m : table) (k : list Z) : Prop := forall k' v, m !! k' = Some v -> bytes_ltb k' k = true.

Definition klt (a b : item) : Prop := bytes_ltb (ikey a) (ikey b) = true.

Lemma before_write m x y : before m (ikey y) -> klt x y -> before (write m x) (ikey y).
Proof.
  intros Hm Hxy k' v'. unfold write. destruct (snd x) as [v|].
  - intros [[<- _]|[_ Hk]]%lookup_insert_Some; [exact Hxy|by eapply Hm].
  - intros [_ Hk]%lookup_delete_Some. by eapply Hm.
Qed.

Lemma append_all bucket lastKey out : forall s, (forall x, head out = Some x -> appends lastKey s (ikey x) = true) -> 0 <= ld_i s ->
  StronglySorted klt out -> Forall (fun x => before (tx_table (ld_tx s) bucket) (ikey x)) out ->
  exists s', loadAll (load1 bucket lastKey) out s = Ok s' /\
    becomes (ld_tx s) bucket (foldl write (tx_table (ld_tx s) bucket) out) (ld_tx s').
Proof.
  induction out as [|x out IH]; intros s Ha H0 Hs Hbef; [exists s; split; [done|apply becomes_refl]|].
  apply StronglySorted_inv in Hs as [Hs Hlt]. apply Forall_cons in Hbef as [Hx Hbef].
  assert (exists tx1, load1 bucket lastKey (fst x) (snd x) s = Ok (mkLoading tx1 (ld_i s + 1) true) /\
    becomes (ld_tx s) bucket (write (tx_table (ld_tx s) bucket) x) tx1) as (tx1 & Hl & Hb1).
  { rewrite load1_step, (Ha x eq_refl). unfold write. destruct (snd x) as [v|].
    - destruct (law_Append bucket (ikey x) v (ld_tx s)) as (tx1 & -> & Htab); [|eauto].
      intros [k' v'] Hlast%last_Some_elem_of. apply elem_of_entries in Hlast. by apply (Hx k' v').
    - exists (ld_tx s). split; [done|]. rewrite delete_id; [apply becomes_refl|].
      destruct (tx_table (ld_tx s) bucket !! ikey x) eqn:E; [|done]. apply Hx in E. by rewrite bytes_ltb_irrefl in E. }
  destruct x as [k v]. cbn [loadAll fst snd] in *. rewrite Hl, bind_ok.
  destruct (IH (mkLoading tx1 (ld_i s + 1) true)) as (s' & He & Hb2); [intros; by apply appends_later|cbn; lia|done| |].
  { cbn [ld_tx]. rewrite (becomes_at _ _ _ _ Hb1). rewrite Forall_forall in Hlt, Hbef |- *. intros y Hy. apply before_write; auto. }
  exists s'. split; [done|]. cbn [ld_tx] in Hb2. rewrite (becomes_at _ _ _ _ Hb1) in Hb2. by eapply becomes_trans.
Qed.

Lemma strictly_sorted l : StronglySorted (kle ikey) l -> NoDup (map ikey l) -> StronglySorted klt l.
Proof.
  induction 1 as [|x l Hs IH Hx]; intros Hnd; constructor; cbn in Hnd; apply NoDup_cons in Hnd as [Hni Hnd]; [auto|].
  rewrite Forall_forall in Hx |- *. intros y Hy. specialize (Hx y Hy). apply bytes_leb_spec in Hx as [?|Heq]; [done|].
  destruct Hni. rewrite Heq. by apply (list_elem_of_fmap_2 ikey).
Qed.

(** After the last entry. *)
Lemma before_last (m : table) k : match fst <$> last (entries m) with None => true | Some last => bytes_ltb last k end = true -> before m k.
Proof.
  intros Hl k' v' Hk'. apply elem_of_entries in Hk'. pose proof (entries_sorted m) as Hs.
  destruct (entries m) as [|e l _] using rev_ind; [by apply not_elem_of_nil in Hk'|]. rewrite last_snoc in Hl. cbn in Hl.
  apply elem_of_app in Hk' as [Hk'|<-%list_elem_of_singleton]; [|done]. apply StronglySorted_app in Hs as (Hlt & _ & _).
  eapply bytes_ltb_trans; [exact (Hlt (k', v') e Hk' ltac:(left))|done].
Qed.

Lemma Load_ok kvs c bucket tx : ready_to_load kvs c -> Forall good kvs -> NoDup (map ikey kvs) ->
  exists tx', Load order bucket IdentityLoadFunc false c tx = Ok tx' /\ becomes tx bucket (foldl write (tx_table tx bucket) kvs) tx'.
Proof.
  intros Hc Hg Hnd. destruct (Load_sorted kvs c bucket IdentityLoadFunc tx Hc Hg) as (out & Hst & ->).
  rewrite <- (writes_stable _ kvs out) by apply Hst. set (lastKey := fst <$> last (entries (tx_table tx bucket))).
  assert (StronglySorted klt out) as Hsort.
  { apply strictly_sorted; [apply Hst|]. change (map ikey out) with (ikey <$> out). by rewrite (stable_Permutation _ _ _ Hst). }
  assert (exists s', loadAll (load1 bucket lastKey) out (mkLoading tx 0 false) = Ok s' /\
    becomes tx bucket (foldl write (tx_table tx bucket) out) (ld_tx s')) as (s' & -> & Hb); [|rewrite bind_ok; eauto].
  destruct out as [|x out]; [exists (mkLoading tx 0 false); split; [done|apply becomes_refl]|].
  destruct (appends lastKey (mkLoading tx 0 false) (ikey x)) eqn:Hap.
  - apply (append_all bucket lastKey (x :: out) (mkLoading tx 0 false)); [by intros y [= <-]|done|done|]. apply before_last in Hap.
    constructor; [done|]. apply StronglySorted_inv in Hsort as [_ Hlt]. eapply Forall_impl; [exact Hlt|].
    intros y Hy k' v' Hk'. eapply bytes_ltb_trans; [by eapply Hap|exact Hy].
  - apply (put_all bucket lastKey (x :: out) (mkLoading tx 0 false)); [by intros y [= <-]|done].
Qed.
End load.
