(* ===== verification/EtlRuns.v ===== *)
(** * What a load promises

    With the buffer of slices, of whatever size, [Load] does the same as the loading of
    the collected entries in the order of a stable sort by key; with entries of different
    keys it does the same as writing them one by one.  The transformation of a table
    writes what is extracted from the entries of a range.  And where entries are lost. *)
From stdpp Require Import sorting.
From S2P Require Import Prelude Bytes Kv Etl EtlTheory.

Section promise.
Context {T : Type} `{Kv T} `{!KvLaws T}.
Context (order : gmap (list Z) nilable -> list (list Z * nilable)).

(** A collector with a buffer of slices. *)
Definition sliceCollector (bufferSize : Z) (background : bool) : Collector :=
  SortAndFlushInBackground background (NewCollector (SortableSlice (NewSortableBuffer bufferSize))).

Lemma sliceCollector_ok n bg kvs : Forall good kvs ->
  exists c, collectAll order kvs (sliceCollector n bg) = Ok c /\ ready_to_load kvs c.
Proof.
  intros Hg. assert (collected [] (sliceCollector n bg)) as H0.
  { split; [done|]. destruct (collected_new n) as [_ (b & l & fs & Hb)]. by exists b, l, fs. }
  destruct (collectAll_ok order kvs [] _ H0) as (c & He & Hc & Ha); [by apply Forall_nil|done|].
  exists c. split; [done|]. unfold ready_to_load. by rewrite Ha.
Qed.

(** C14: the external merge sort with the buffer of slices is a stable sort, whatever the size
    of the buffer.  For entries whose keys are not nil there is one order, sorted by key with
    the entries of a key in the order in which they were collected, such that [Load] with any
    load function does what that function does on the entries in this order, one after the
    other: for every size of the buffer, and so for every division of the entries into
    sorted files, with the flush in the background or not.  The three buffers that join the
    values of a key are not covered; the one that merges does not load its last key
    ([merge_loses_last]). *)
Theorem etl_load_sorts kvs : Forall good kvs -> exists out, stable ikey kvs out /\
  forall bufferSize background bucket (loadFunc : LoadFunc (T := T)) tx,
    exists c, collectAll order kvs (sliceCollector bufferSize background) = Ok c /\
      Load order bucket loadFunc false c tx =
        (s ← loadAll (simpleLoad bucket SortableSliceBuffer (fst <$> last (entries (tx_table tx bucket))) loadFunc) out
               (mkLoading tx 0 false);
         Ok (ld_tx s)).
Proof.
  intros Hg. assert (exists out, stable ikey kvs out) as [out Hst].
  { destruct (sb_Sort_ok (foldl (fun b x => sb_Put (fst x) (snd x) b) (NewSortableBuffer 0) kvs) kvs) as (_ & out & _ & _ & Hst); [|by eapply Forall_impl; [exact Hg|intros x []]|eauto].
    clear Hg. induction kvs as [|[k v] kvs IH] using rev_ind; [apply sb_rep_empty|]. rewrite foldl_app. by apply sb_rep_Put. }
  exists out. split; [done|]. intros n bg bucket lf tx. destruct (sliceCollector_ok n bg kvs Hg) as (c & Hc & Hready).
  exists c. split; [done|]. destruct (Load_sorted order kvs c bucket lf tx Hready Hg) as (out' & Hst' & ->).
  by rewrite (stable_unique _ _ _ _ Hst Hst').
Qed.

(** C13: with the buffer of slices and the identity for a load function, loading is writing
    one by one.  Entries whose keys are not nil and differ are collected, with any size of
    the buffer; [Load] then returns, and the table is as if every entry had been put, or
    deleted if it has no value, one by one; no other table changes.  That holds also where
    the load appends at the end of the table and skips deletions.  With the same key twice a
    deletion may be skipped ([append_then_delete]), and with the buffer that merges the last
    key is not loaded ([merge_loses_last]). *)
Theorem etl_load_writes kvs bufferSize background bucket tx : Forall good kvs -> NoDup (map ikey kvs) ->
  exists c tx', collectAll order kvs (sliceCollector bufferSize background) = Ok c /\
    Load order bucket IdentityLoadFunc false c tx = Ok tx' /\
    forall t, tx_table tx' t = if decide (t = bucket) then foldl write (tx_table tx bucket) kvs else tx_table tx t.
Proof.
  intros Hg Hnd. destruct (sliceCollector_ok bufferSize background kvs Hg) as (c & Hc & Hready).
  destruct (Load_ok order kvs c bucket tx Hready Hg Hnd) as (tx' & Hl & Hb). by exists c, tx'.
Qed.

(** ** The transformation of a table *)

(** An extract function that emits a list of entries. *)
Definition emits (f : list Z -> list Z -> list item) : ExtractFunc := fun k v next c =>
  foldl (fun acc x => c ← acc; next (Some k) (fst x) (snd x) c) (Ok c) (f k v).

Lemma emits_collectAll f k v c : emits f k v (extractNextFunc order) c = collectAll order (f k v) c.
Proof.
  unfold emits. assert (forall l (r : outcome Collector), foldl (fun acc x => c ← acc; extractNextFunc order (Some k) (fst x) (snd x) c) r l = (c ← r; collectAll order l c)) as Hl.
  { induction l as [|[k1 v1] l IH]; intros r; cbn [foldl collectAll]; [by destruct r|]. rewrite IH. by destruct r as [c'| |]. }
  rewrite Hl. done.
Qed.

(** The entries of a table from [startkey] to [endkey]. *)
Definition in_range (startkey endkey : nilable) (e : entry) : bool :=
  bytes_leb (default [] startkey) (fst e) && match endkey with Some k => bytes_ltb (fst e) k | None => true end.

Definition range_items (f : list Z -> list Z -> list item) (startkey endkey : nilable) (m : table) : list item :=
  concat (map (fun e => f (fst e) (snd e)) (filter (fun e => in_range startkey endkey e = true) (entries m))).

Lemma collectAll_app l1 l2 c : collectAll order (l1 ++ l2) c = (c ← collectAll order l1 c; collectAll order l2 c).
Proof. revert c. induction l1 as [|[k v] l1 IH]; intros c; [done|]. cbn [app collectAll]. destruct (Collect order k v c); [|done..]. rewrite !bind_ok. apply IH. Qed.

(** The walk stops at the end key. *)
Lemma extract_walk f (endkey : nilable) l : StronglySorted entry_lt l -> forall c c' ret,
  collectAll order (concat (map (fun e => f (fst e) (snd e))
    (filter (fun e => match endkey with Some k => bytes_ltb (fst e) k | None => true end = true) l))) c = Ok c' ->
  exists ret', walk (fun k v (cr : Collector * bool) =>
      if match endkey with Some e => negb (bytes_ltb k e) | None => false end then Ok (Break (fst cr, true))
      else c ← emits f k v (extractNextFunc order) (fst cr); Ok (Continue (c, false))) l (c, ret) = Ok (c', ret') /\
    (l = [] -> ret' = ret).
Proof.
  induction 1 as [|[k v] l Hs IH Hlt]; intros c c' ret Hc; [injection Hc as <-; by exists ret|].
  cbn [walk fst]. rewrite filter_cons in Hc. cbn [fst snd] in Hc.
  destruct (match endkey with Some e => negb (bytes_ltb k e) | None => false end) eqn:Hend.
  - destruct endkey as [e|]; [|done]. apply negb_true_iff in Hend. rewrite decide_False in Hc by (by rewrite Hend).
    rewrite filter_keep_none in Hc; [injection Hc as <-; by exists true|]. intros [k' v'] Hx Hlt'. rewrite Forall_forall in Hlt. cbn [fst] in Hlt'.
    specialize (Hlt _ Hx). unfold entry_lt in Hlt. cbn [fst] in Hlt. rewrite (bytes_ltb_trans k k' e) in Hend; done.
  - rewrite decide_True in Hc by (destruct endkey; [by apply negb_false_iff in Hend|done]). cbn [map concat fst snd] in Hc.
    rewrite collectAll_app in Hc. apply bind_Ok_inv in Hc as (c1 & Hc1 & Hc). rewrite emits_collectAll, Hc1, !bind_ok.
    destruct (IH c1 c' false Hc) as (ret' & Hw & _). by exists ret'.
Qed.

(** The transformation of a table.  With a function that extracts a list of entries from
    each entry of the table, [Transform] with the identity returns, and the target table is as
    if the entries extracted from those between the start key and the end key, which is
    excluded, had been written one by one; no other table changes.  The entries extracted have
    different keys; source and target may be the same table. *)
Theorem transform_writes fuel f fromBucket toBucket BufferSize startkey endkey tx :
  let kvs := range_items f startkey endkey (tx_table tx fromBucket) in
  (size (tx_table tx fromBucket) <= fuel)%nat -> Forall good kvs -> NoDup (map ikey kvs) ->
  exists tx', Transform order fuel fromBucket toBucket (emits f) IdentityLoadFunc SortableSliceBuffer BufferSize
      startkey endkey false tx = Ok tx' /\
    forall t, tx_table tx' t = if decide (t = toBucket) then foldl write (tx_table tx toBucket) kvs else tx_table tx t.
Proof.
  intros kvs Hf Hg Hnd. unfold Transform. cbv zeta. set (n := if 0 <? BufferSize then BufferSize else BufferOptimalSize).
  change (getBufferByType SortableSliceBuffer n None) with (Ok (SortableSlice (NewSortableBuffer n))). rewrite bind_ok.
  assert (exists c, extractBucketIntoFiles order fuel fromBucket startkey endkey (NewCollector (SortableSlice (NewSortableBuffer n))) (emits f) false tx = Ok c /\
    ready_to_load kvs c) as (c & -> & Hready); [|rewrite bind_ok; by apply Load_ok].
  destruct (collectAll_ok order kvs [] _ (collected_new n)) as (c & Hc & Hcol & Ha); [by apply Forall_nil|done|]. cbn [app] in Hcol.
  unfold extractBucketIntoFiles. cbn [fst]. rewrite scanFrom_walk by done.
  destruct (extract_walk f endkey (filter (fun e => bytes_leb (default [] startkey) (fst e) = true) (entries (tx_table tx fromBucket)))
    (StronglySorted_filter _ _ (entries_sorted _)) (NewCollector (SortableSlice (NewSortableBuffer n))) c false) as (ret & Hw & _).
  { rewrite list_filter_filter. rewrite (list_filter_iff _ (fun e => in_range startkey endkey e = true)); [exact Hc|].
    intros e. unfold in_range. rewrite andb_true_iff. tauto. }
  rewrite Hw, bind_ok. destruct ret; [exists c; split; [done|]; unfold ready_to_load; by rewrite Ha|].
  destruct (flushAll_ok order kvs c Hcol Ha Hg) as (c' & He & _ & Hready). eauto.
Qed.
End promise.

(** ** Where entries are lost *)

(** A deletion collected after a value of the same key is skipped if the load appends. *)
Lemma append_then_delete k v : good (Some k, Some v) -> let kvs := [(Some k, Some v); (Some k, None)] in
  exists c (tx' : MemKv), collectAll (fun m => map_to_list m) kvs (sliceCollector BufferOptimalSize false) = Ok c /\
    Load (fun m => map_to_list m) "t" IdentityLoadFunc false c (∅ : MemKv) = Ok tx' /\
    kvTable tx' "t" = {[k := v]} /\ foldl write ∅ kvs = ∅.
Proof.
  intros Hg kvs. assert (good (Some k, None)) as Hg2 by (destruct Hg as (? & ? & _); by split_and!).
  destruct (sliceCollector_ok (fun m => map_to_list m) BufferOptimalSize false kvs) as (c & Hc & Hready).
  { repeat (apply Forall_cons; split; [done|]). by apply Forall_nil. }
  destruct (Load_sorted (T := MemKv) (fun m => map_to_list m) kvs c "t" IdentityLoadFunc ∅ Hready) as (out & Hst & Hl).
  { repeat (apply Forall_cons; split; [done|]). by apply Forall_nil. }
  assert (out = kvs) as ->.
  { eapply stable_unique; [exact Hst|]. split; [|done]. repeat constructor. apply bytes_leb_spec. by right. }
  exists c, (<[("t" : string) := {[k := v]}]> ∅). split; [done|]. split; [|split].
  - rewrite Hl. done.
  - unfold kvTable. by rewrite lookup_insert_eq.
  - unfold kvs, write, ikey. cbn. by rewrite delete_insert_eq.
Qed.

(** With the buffer that merges, the last key is not loaded. *)
Lemma merge_loses_last : exists c (tx : MemKv),
  collectAll (fun m => map_to_list m) [(Some [1], Some [10]); (Some [2], Some [20])]
    (NewCollector (SortableMerge (fun _ v => v) (newMapBuffer 100))) = Ok c /\
  Load (fun m => map_to_list m) "t" IdentityLoadFunc false c (∅ : MemKv) = Ok tx /\ kvTable tx "t" = {[ [1] := [10] ]}.
Proof. eexists _, _. split; [vm_compute; reflexivity|]. split; [vm_compute; reflexivity|]. vm_compute. reflexivity. Qed.

(** ** Witnesses *)

Definition example_items : list item := [(Some [3], Some [30]); (Some [1], None); (Some [2], Some [20]); (Some [7], Some [])].

Definition example_tx : MemKv := <[("t" : string) := list_to_map [([1], [10]); ([2], [0])]]> ∅.

Lemma example_good : Forall good example_items.
Proof. repeat (apply Forall_cons; split; [split_and!; [by eexists|by vm_compute..]|]). by apply Forall_nil. Qed.

Lemma example_keys_differ : NoDup (map ikey example_items).
Proof. by apply (bool_decide_unpack _). Qed.

(** Every entry goes to a file of its own. *)
Lemma etl_load_sorts_witness : exists out, stable ikey example_items out /\
  exists c, collectAll (fun m => map_to_list m) example_items (sliceCollector 1 true) = Ok c /\
    Load (fun m => map_to_list m) "t" IdentityLoadFunc false c example_tx =
      (s ← loadAll (simpleLoad "t" SortableSliceBuffer (Some [2]) IdentityLoadFunc) out (mkLoading example_tx 0 false); Ok (ld_tx s)).
Proof.
  destruct (etl_load_sorts (T := MemKv) (fun m => map_to_list m) example_items example_good) as (out & Hst & Hl).
  exists out. split; [exact Hst|]. exact (Hl 1 true "t" IdentityLoadFunc example_tx).
Defined.

Lemma etl_load_writes_witness : exists c (tx' : MemKv), collectAll (fun m => map_to_list m) example_items (sliceCollector 1 true) = Ok c /\
  Load (fun m => map_to_list m) "t" IdentityLoadFunc false c example_tx = Ok tx' /\
  kvTable tx' "t" = list_to_map [([2], [20]); ([3], [30]); ([7], [])].
Proof.
  destruct (etl_load_writes (fun m => map_to_list m) example_items 1 true "t" example_tx example_good example_keys_differ) as (c & tx' & Hc & Hl & Ht).
  exists c, tx'. split; [exact Hc|]. split; [exact Hl|]. specialize (Ht "t"). etransitivity; [exact Ht|]. vm_compute. reflexivity.
Defined.

(** From [2] on, with the value in front of the key. *)
Lemma transform_writes_witness : exists tx' : MemKv,
  Transform (fun m => map_to_list m) 2 "t" "u" (emits (fun k v => [(Some (v ++ k), Some v)])) IdentityLoadFunc SortableSliceBuffer 0
    (Some [2]) None false example_tx = Ok tx' /\ kvTable tx' "u" = list_to_map [([0; 2], [0])].
Proof.
  destruct (transform_writes (fun m => map_to_list m) 2 (fun k v => [(Some (v ++ k), Some v)]) "t" "u" 0 (Some [2]) None example_tx)
    as (tx' & Hl & Ht); [vm_compute; lia| | |].
  - vm_compute range_items. apply Forall_cons. split; [split_and!; [by eexists|by vm_compute..]|by apply Forall_nil].
  - apply NoDup_singleton.
  - exists tx'. split; [exact Hl|]. specialize (Ht "u"). etransitivity; [exact Ht|]. vm_compute. reflexivity.
Defined.
