(* ===== verification/Membatch.v ===== *)
(** * Batches of writes in memory (erigon-lib/kv/membatch/mapmutation.go)

    A [Mapmutation] keeps writes in memory in front of a transaction until they are
    flushed into it by the external merge sort of [Etl].  The walks of a transaction over
    a table (erigon-lib/kv/mdbx/kv_mdbx.go) are here too.  A batch refers to the transaction
    it stands in front of, which is passed to its operations. *)
From stdpp Require Import sorting.
From S2P Require Import Prelude Bytes Kv Etl EtlTheory EtlRuns.

(** ** Strings as bytes *)

(** [[]byte(s)] and [string(b)] *)
Definition bytesOf (s : string) : list Z := map (fun c => Z.of_nat (Ascii.nat_of_ascii c)) (String.list_ascii_of_string s).
Definition stringOf (b : list Z) : string := String.string_of_list_ascii (map (fun z => Ascii.ascii_of_nat (Z.to_nat z)) b).

Lemma stringOf_bytesOf s : stringOf (bytesOf s) = s.
Proof.
  unfold stringOf, bytesOf. rewrite map_map. rewrite (map_ext _ id); [by rewrite map_id, String.string_of_list_ascii_of_string|].
  intros c. by rewrite Nat2Z.id, Ascii.ascii_nat_embedding.
Qed.

Lemma bytesOf_inj s s' : bytesOf s = bytesOf s' -> s = s'.
Proof. intros H. by rewrite <- (stringOf_bytesOf s), H, stringOf_bytesOf. Qed.

(** ** Walks of a transaction over a table *)

Definition bytes_HasPrefix (k prefix : list Z) : bool := bool_decide (take (length prefix) k = prefix).

Section walks.
Context {T : Type} `{Kv T} {St : Type} (walker : list Z -> nilable -> St -> outcome St).

(** [MdbxTx.ForEach]: from a key on, not only the keys with the prefix. *)
Definition Tx_ForEach (fuel : nat) (bucket : string) (fromPrefix : list Z) (s : St) (tx : T) : outcome St :=
  scanFrom fuel bucket fromPrefix (fun k v s => s ← walker k (Some v) s; Ok (Continue s)) s tx.

Definition Tx_ForPrefix (fuel : nat) (bucket : string) (prefix : list Z) (s : St) (tx : T) : outcome St :=
  scanFrom fuel bucket prefix (fun k v s =>
    if negb (bytes_HasPrefix k prefix) then Ok (Break s) else s ← walker k (Some v) s; Ok (Continue s)) s tx.

Definition Tx_ForAmount (fuel : nat) (bucket : string) (fromPrefix : list Z) (amount : Z) (s : St) (tx : T) : outcome St :=
  if amount =? 0 then Ok s
  else
    sa ← scanFrom fuel bucket fromPrefix (fun k v (sa : St * Z) =>
           if 0 <? snd sa then s ← walker k (Some v) (fst sa); Ok (Continue (s, snd sa - 1)) else Ok (Break sa))
           (s, amount) tx;
    Ok (fst (sa : St * Z)).
End walks.

(** [MdbxTx.Has] *)
Definition Tx_Has {T} `{Kv T} (bucket : string) (key : list Z) (tx : T) : outcome bool :=
  e ← tx_Seek bucket key tx; Ok (bytes_Equal (Some key) (fst <$> e)).

(** ** The batch *)

(** [clean] is nil, closes the channel of the batch, or does nothing; [quit] tells whether
    the channel is closed. *)
Record Mapmutation := mkMutation {
  puts : gmap string (gmap (list Z) nilable);
  quit : bool;
  clean : option bool;
  mm_size : Z;
  mm_count : Z;
}.

(** Without a channel the batch makes one, to be closed when it is cleaned. *)
Definition NewHashBatch (quitCh : option bool) : Mapmutation :=
  match quitCh with
  | None => mkMutation ∅ false (Some true) 0 0
  | Some closed => mkMutation ∅ closed (Some false) 0 0
  end.

Definition getMem (t : string) (key : list Z) (m : Mapmutation) : option nilable :=
  match puts m !! t with Some bucket => bucket !! key | None => None end.

Definition mm_Put (t : string) (k : list Z) (v : nilable) (m : Mapmutation) : Mapmutation :=
  let bucket := default ∅ (puts m !! t) in
  let puts' := <[t := <[k := v]> bucket]> (puts m) in
  match bucket !! k with
  | Some old => mkMutation puts' (quit m) (clean m) (i64 (mm_size m + (lenOf v - lenOf old))) (mm_count m)
  | None => mkMutation puts' (quit m) (clean m) (i64 (mm_size m + (Z.of_nat (length k) + lenOf v))) (u64 (mm_count m + 1))
  end.

Definition mm_Append := mm_Put.
Definition mm_AppendDup := mm_Put.

(** A deletion is a value that is nil. *)
Definition mm_Delete (t : string) (k : list Z) (m : Mapmutation) : Mapmutation := mm_Put t k None m.

Definition BatchSize (m : Mapmutation) : Z := mm_size m.

Definition mm_Close (m : Mapmutation) : Mapmutation :=
  match clean m with
  | None => m
  | Some closes => mkMutation ∅ (quit m || closes) None 0 0
  end.

(** [binary.BigEndian.Uint64] reads eight bytes. *)
Definition beUint64 (v : list Z) : outcome Z :=
  if Z.of_nat (length v) <? 8 then Panic else Ok (be_decode (take 8 v)).

Definition Sequence : string := "Sequence".

Section batch.
Context {T : Type} `{Kv T}.
(** The transaction behind the batch; [None] is nil. *)
Context (db : option T).

Definition mm_GetOne (t : string) (key : list Z) (m : Mapmutation) : outcome nilable :=
  match getMem t key m with
  | Some value => Ok value
  | None => match db with Some tx => tx_GetOne t key tx | None => Ok None end
  end.

Definition mm_Has (t : string) (key : list Z) (m : Mapmutation) : outcome bool :=
  match getMem t key m with
  | Some _ => Ok true
  | None => match db with Some tx => Tx_Has t key tx | None => Ok false end
  end.

Definition mm_Last (t : string) : outcome (option entry) :=
  match db with Some tx => tx_Last t tx | None => Panic end.

(** The current value of a sequence. *)
Definition mm_ReadSequence (bucket : string) (m : Mapmutation) : outcome Z :=
  v ← mm_GetOne Sequence (bytesOf bucket) m;
  if 0 <? lenOf v then beUint64 (default [] v) else Ok 0.

Definition mm_IncrementSequence (bucket : string) (amount : Z) (m : Mapmutation) : outcome (Z * Mapmutation) :=
  currentV ← mm_ReadSequence bucket m;
  Ok (currentV, mm_Put Sequence (bytesOf bucket) (Some (be_encode 8 (u64 (currentV + amount)))) m).

(** [sort.Search]: the least index from which on the test holds, by bisection. *)
Fixpoint sort_Search (fuel : nat) (i j : Z) (f : Z -> outcome bool) : outcome Z :=
  if i <? j then
    match fuel with
    | O => Panic
    | S fuel => let h := Z.shiftr (i + j) 1 in
        b ← f h; if negb b then sort_Search fuel (h + 1) j f else sort_Search fuel i h f
    end
  else Ok i.

(** One key of the cache goes to its place among the keys. *)
Definition mm_insertKey (keys : list (list Z)) (k : list Z) : outcome (list (list Z)) :=
  i ← sort_Search (length keys) 0 (Z.of_nat (length keys)) (fun i => ki ← index keys i; Ok (negb (bytes_ltb ki k)));
  Ok (take (Z.to_nat i) keys ++ k :: drop (Z.to_nat i) keys).

Definition list_less (l : list (list Z)) (i j : Z) : outcome bool := a ← index l i; b ← index l j; Ok (bytes_ltb a b).

Section foreach.
Context (order : gmap (list Z) nilable -> list (list Z * nilable)).
Context {St : Type} (walker : list Z -> nilable -> St -> outcome St).

Fixpoint visit (fromPrefix : list Z) (values : gmap (list Z) nilable) (keys : list (list Z)) (s : St) : outcome St :=
  match keys with
  | [] => Ok s
  | k :: keys =>
      if negb (bytes_HasPrefix k fromPrefix) then visit fromPrefix values keys s
      else s ← walker k (default None (values !! k)) s; visit fromPrefix values keys s
  end.

Definition mm_ForEach (fuel : nat) (bucket : string) (fromPrefix : list Z) (m : Mapmutation) (s : St) : outcome St :=
  match db with
  | None => Panic
  | Some tx =>
      match puts m !! bucket with
      | None => Tx_ForEach walker fuel bucket fromPrefix s tx
      | Some cache =>
          kv ← Tx_ForEach (fun k v kv => Ok (fst kv ++ [k], <[k := v]> (snd kv))) fuel bucket fromPrefix
                 ([], ∅ : gmap (list Z) nilable) tx;
          kv ← foldl (fun acc e => kv ← acc; keys ← mm_insertKey (fst kv) (fst e); Ok (keys, <[fst e := snd e]> (snd kv)))
                 (Ok kv) (order cache);
          let '(keys, values) := kv : list (list Z) * gmap (list Z) nilable in
          keys ← sort_Stable list_less swapAt (length keys) keys;
          visit fromPrefix values keys s
      end
  end.

Definition mm_ForPrefix (fuel : nat) (bucket : string) (prefix : list Z) (s : St) : outcome St :=
  match db with None => Panic | Some tx => Tx_ForPrefix walker fuel bucket prefix s tx end.

Definition mm_ForAmount (fuel : nat) (bucket : string) (prefix : list Z) (amount : Z) (s : St) : outcome St :=
  match db with None => Panic | Some tx => Tx_ForAmount walker fuel bucket prefix amount s tx end.
End foreach.
End batch.

(** ** Flushing *)

Section flush.
Context {T : Type} `{Kv T}.
(** The order in which Go visits the tables, and the keys of a table. *)
Context (tables : gmap string (gmap (list Z) nilable) -> list (string * gmap (list Z) nilable)).
Context (order : gmap (list Z) nilable -> list (list Z * nilable)).

Definition commitTable (m : Mapmutation) (table : string) (bucket : gmap (list Z) nilable) (tx : T) : outcome T :=
  let collector := SortAndFlushInBackground true
    (NewCollector (SortableSlice (NewSortableBuffer (BufferOptimalSize / 2)))) in
  collector ← foldl (fun acc kv => c ← acc; Collect order (Some (fst kv)) (snd kv) c) (Ok collector) (order bucket);
  Load order table IdentityLoadFunc (quit m) collector tx.

Definition doCommit (m : Mapmutation) (tx : T) : outcome T :=
  foldl (fun acc tb => tx ← acc; commitTable m (fst tb) (snd tb) tx) (Ok tx) (tables (puts m)).

(** The transaction to flush into; [None] is nil. *)
Definition mm_Flush (tx : option T) (m : Mapmutation) : outcome (T * Mapmutation) :=
  match tx with
  | None => Err "rwTx needed"
  | Some tx =>
      tx ← doCommit m tx;
      Ok (tx, mkMutation ∅ (quit m) (clean m) 0 0)
  end.
End flush.
