(* ===== verification/MembatchTheory.v ===== *)
(** * A batch is as good as direct writes

    What is read through a batch is what would be read after the same writes to the
    transaction, and flushing it makes them.  What [Has] and [ForEach] tell instead. *)
From stdpp Require Import sorting.
From S2P Require Import Prelude Bytes Kv Etl EtlTheory EtlRuns Membatch.

(** ** The tables seen through a batch *)

Definition overlay (bucket : gmap (list Z) nilable) (m : table) : table :=
  merge (fun o b => match o with Some v => v | None => b end) bucket m.

Lemma overlay_lookup bucket m k : overlay bucket m !! k = match bucket !! k with Some v => v | None => m !! k end.
Proof. unfold overlay. rewrite lookup_merge. by destruct (bucket !! k), (m !! k). Qed.

Lemma overlay_empty m : overlay ∅ m = m.
Proof. apply map_eq. intros k. by rewrite overlay_lookup, lookup_empty. Qed.

(** A value is put, nil deletes. *)
Definition put (k : list Z) (v : nilable) (m : table) : table := match v with Some v => <[k := v]> m | None => delete k m end.

Lemma overlay_insert bucket m k v : overlay (<[k := v]> bucket) m = put k v (overlay bucket m).
Proof.
  apply map_eq. intros k'. rewrite overlay_lookup. destruct (decide (k = k')) as [->|Hne].
  - rewrite lookup_insert_eq. destruct v; cbn [put]; [by rewrite lookup_insert_eq|by rewrite lookup_delete_eq].
  - rewrite lookup_insert_ne by done. destruct v; cbn [put]; [rewrite lookup_insert_ne by done|rewrite lookup_delete_ne by done]; by rewrite overlay_lookup.
Qed.

Section theory.
Context {T : Type} `{Kv T} `{!KvLaws T}.

Definition view (m : Mapmutation) (tx : T) (t : string) : table := overlay (default ∅ (puts m !! t)) (tx_table tx t).

Lemma getMem_view m tx t k : match getMem t k m with Some v => v | None => tx_table tx t !! k end = view m tx t !! k.
Proof. unfold getMem, view. rewrite overlay_lookup. by destruct (puts m !! t) as [b|]; cbn; [|rewrite lookup_empty]. Qed.

Lemma mm_GetOne_ok m tx t k : mm_GetOne (Some tx) t k m = Ok (view m tx t !! k).
Proof. unfold mm_GetOne. rewrite <- getMem_view. destruct (getMem t k m); [done|apply law_GetOne]. Qed.

(** A seek finds a key exactly if it is there; an empty key is equal to that of no entry. *)
Lemma Tx_Has_ok t k tx : k <> [] -> Tx_Has t k tx = Ok (bool_decide (is_Some (tx_table tx t !! k))).
Proof.
  intros Hk. unfold Tx_Has. rewrite law_Seek, bind_ok. f_equal. unfold bytes_Equal. apply bool_decide_ext. destruct (tx_table tx t !! k) as [v|] eqn:Hv.
  { rewrite (seek_found _ _ _ Hv). by split. }
  split; [|by intros []]. destruct (head _) as [[k' v']|] eqn:Hh; [|done]. apply seek_missing in Hh as [_ Hlt]; [|done].
  cbn in *. intros <-. by rewrite bytes_ltb_irrefl in Hlt.
Qed.

(** A key that waits to be deleted is there for [Has]; the others are there if they are in the view. *)
Lemma mm_Has_ok m tx tx1 t k : k <> [] -> (forall t, view m tx t = tx_table tx1 t) ->
  mm_Has (Some tx) t k m = if decide (getMem t k m = Some None) then Ok true else Tx_Has t k tx1.
Proof.
  intros Hk Hv. rewrite (Tx_Has_ok t k tx1), <- Hv, <- getMem_view by done. unfold mm_Has. destruct (getMem t k m) as [[v|]|]; [|done|].
  - rewrite decide_False by done. by rewrite bool_decide_true by (by exists v).
  - rewrite decide_False by done. by apply Tx_Has_ok.
Qed.

Lemma mm_Put_puts t k v m : puts (mm_Put t k v m) = <[t := <[k := v]> (default ∅ (puts m !! t))]> (puts m).
Proof. unfold mm_Put. by destruct (_ !! k). Qed.

Lemma mm_Put_quit t k v m : quit (mm_Put t k v m) = quit m /\ clean (mm_Put t k v m) = clean m.
Proof. unfold mm_Put. by destruct (_ !! k). Qed.

Lemma mm_Put_view t k v m tx t' : view (mm_Put t k v m) tx t' = if decide (t' = t) then put k v (view m tx t) else view m tx t'.
Proof.
  unfold view. rewrite mm_Put_puts. case_decide as Ht; [subst; rewrite lookup_insert_eq; apply overlay_insert|by rewrite lookup_insert_ne].
Qed.

(** ** Flushing *)

Section flush.
Context (tables : gmap string (gmap (list Z) nilable) -> list (string * gmap (list Z) nilable)).
Context (tables_ok : forall m, tables m ≡ₚ map_to_list m).
Context (order : gmap (list Z) nilable -> list (list Z * nilable)).
Context (order_ok : forall m, order m ≡ₚ map_to_list m).

(** The lengths of keys and values are [int]s. *)
Definition batch_fits (m : Mapmutation) : Prop :=
  forall t bucket k v, puts m !! t = Some bucket -> bucket !! k = Some v -> fits (Some k) /\ fits v.

Definition itemOf (e : list Z * nilable) : item := (Some (fst e), snd e).

Lemma items_keys bucket : NoDup (map ikey (map itemOf (order bucket))).
Proof.
  rewrite map_map. change (NoDup (fst <$> order bucket)). rewrite order_ok. apply NoDup_fst_map_to_list.
Qed.

Lemma writes_overlay bucket m : foldl write m (map itemOf (order bucket)) = overlay bucket m.
Proof.
  apply map_eq. intros k. rewrite (writes_lookup _ m m k), overlay_lookup by done.
  assert (forall e, e ∈ order bucket <-> bucket !! fst e = Some (snd e)) as Hin.
  { intros [k' v']. rewrite order_ok. apply elem_of_map_to_list. }
  pose proof (items_keys bucket) as Hnd. rewrite map_map in Hnd. revert Hin Hnd. generalize (order bucket). intros l Hin Hnd.
  destruct (bucket !! k) as [v|] eqn:Hk.
  - assert ((k, v) ∈ l) as (l1 & l2 & ->)%list_elem_of_split by (by apply Hin).
    rewrite map_app in Hnd. cbn [map] in Hnd. apply NoDup_app in Hnd as (_ & Hd1 & [Hd2 _]%NoDup_cons).
    rewrite map_app, filter_app. cbn [map]. rewrite filter_cons, decide_True by done.
    rewrite !filter_keep_none.
    + cbn. unfold write. destruct v; cbn; [by rewrite lookup_insert_eq|by rewrite lookup_delete_eq].
    + intros x (e & -> & He)%list_elem_of_fmap Hx. apply Hd2. change (fst e = k) in Hx. cbn. rewrite <- Hx. by apply (list_elem_of_fmap_2 (fun e => fst e)).
    + intros x (e & -> & He)%list_elem_of_fmap Hx. change (fst e = k) in Hx. apply (Hd1 k); [rewrite <- Hx; by apply (list_elem_of_fmap_2 (fun e => fst e))|left].
  - rewrite filter_keep_none; [done|]. intros x (e & -> & He)%list_elem_of_fmap Hx. change (fst e = k) in Hx.
    apply Hin in He. rewrite Hx in He. congruence.
Qed.

Lemma bucket_good bucket : (forall k v, bucket !! k = Some v -> fits (Some k) /\ fits v) -> Forall good (map itemOf (order bucket)).
Proof.
  intros Hf. apply Forall_forall. intros x (e & -> & He)%list_elem_of_fmap. rewrite order_ok in He. destruct e as [k v]. apply elem_of_map_to_list in He.
  split; [by eexists|]. by apply Hf.
Qed.

(** Writing a table is a load of its entries. *)
Lemma commitTable_load m t bucket tx : (forall k v, bucket !! k = Some v -> fits (Some k) /\ fits v) ->
  exists c, ready_to_load (map itemOf (order bucket)) c /\ commitTable order m t bucket tx = Load order t IdentityLoadFunc (quit m) c tx.
Proof.
  intros Hf. unfold commitTable. cbv zeta.
  assert (forall l r, foldl (fun acc kv => c ← acc; Collect order (Some (fst kv)) (snd kv) c) r l =
    (c ← r; collectAll order (map itemOf l) c)) as Hfold.
  { induction l as [|e l IH]; intros r; cbn [foldl map collectAll itemOf]; [by destruct r|]. rewrite IH. by destruct r. }
  rewrite Hfold, bind_ok.
  destruct (sliceCollector_ok order (BufferOptimalSize / 2) true (map itemOf (order bucket)) (bucket_good bucket Hf)) as (c & Hc & Hready).
  unfold sliceCollector in Hc. rewrite Hc, bind_ok. eauto.
Qed.

Lemma commitTable_ok m t bucket tx : quit m = false -> (forall k v, bucket !! k = Some v -> fits (Some k) /\ fits v) ->
  exists tx', commitTable order m t bucket tx = Ok tx' /\
    forall t', tx_table tx' t' = if decide (t' = t) then overlay bucket (tx_table tx t) else tx_table tx t'.
Proof.
  intros Hq Hf. destruct (commitTable_load m t bucket tx Hf) as (c & Hready & ->). rewrite Hq.
  destruct (Load_ok order (map itemOf (order bucket)) c t tx Hready (bucket_good bucket Hf) (items_keys bucket)) as (tx' & Hl & Hb).
  exists tx'. split; [done|]. intros t'. by rewrite Hb, writes_overlay.
Qed.

Lemma doCommit_ok m tx : quit m = false -> batch_fits m ->
  exists tx', doCommit tables order m tx = Ok tx' /\ forall t, tx_table tx' t = view m tx t.
Proof.
  intros Hq Hf. unfold doCommit.
  assert (forall l tx, NoDup (fst <$> l) -> (forall t b, (t, b) ∈ l -> puts m !! t = Some b) ->
    exists tx', foldl (fun acc tb => tx ← acc; commitTable order m (fst tb) (snd tb) tx) (Ok tx) l = Ok tx' /\
      forall t, tx_table tx' t = match list_find (fun tb => fst tb = t) l with Some (_, tb) => overlay (snd tb) (tx_table tx t) | None => tx_table tx t end) as Hall.
  { induction l as [|[t b] l IH]; intros tx0 Hnd Hl; [by exists tx0|]. cbn [fmap list_fmap] in Hnd. apply NoDup_cons in Hnd as [Hni Hnd]. cbn [foldl fst snd].
    rewrite bind_ok. destruct (commitTable_ok m t b tx0 Hq) as (tx1 & -> & Ht1); [intros k v; apply (Hf t), Hl; left|].
    destruct (IH tx1 Hnd) as (tx' & He & Ht'); [intros t' b' Hin; apply Hl; by right|]. exists tx'. split; [done|]. intros t'. rewrite Ht', Ht1.
    cbn [list_find]. cbn [fst]. destruct (decide (t' = t)) as [->|Hne].
    - rewrite (decide_True (P := t = t)) by done. cbn [snd]. destruct (list_find (fun tb => fst tb = t) l) as [[i [t2 b2]]|] eqn:Hfd; [|done].
      apply list_find_Some in Hfd as (Hlk & Heq & _). destruct Hni. rewrite <- Heq. apply (list_elem_of_fmap_2 fst l (t2, b2)). by eapply list_elem_of_lookup_2.
    - rewrite (decide_False (P := t = t')) by done. destruct (list_find (fun tb => fst tb = t') l) as [[i tb]|]; done. }
  destruct (Hall (tables (puts m)) tx) as (tx' & He & Ht).
  { rewrite tables_ok. apply NoDup_fst_map_to_list. }
  { intros t b Hin. rewrite tables_ok in Hin. by apply elem_of_map_to_list in Hin. }
  exists tx'. split; [done|]. intros t. rewrite Ht. unfold view.
  destruct (list_find (fun tb => fst tb = t) (tables (puts m))) as [[i [t2 b]]|] eqn:Hfd.
  - apply list_find_Some in Hfd as (Hlk & Heq & _). cbn [fst] in Heq. subst t2. apply list_elem_of_lookup_2 in Hlk. rewrite tables_ok in Hlk.
    apply elem_of_map_to_list in Hlk. by rewrite Hlk.
  - apply list_find_None in Hfd. destruct (puts m !! t) as [b|] eqn:Hb; [|symmetry; apply overlay_empty].
    exfalso. rewrite Forall_forall in Hfd. apply (Hfd (t, b)); [|done]. rewrite tables_ok. by apply elem_of_map_to_list.
Qed.

Lemma mm_Flush_ok m tx : quit m = false -> batch_fits m ->
  exists tx', mm_Flush tables order (Some tx) m = Ok (tx', mkMutation ∅ (quit m) (clean m) 0 0) /\ forall t, tx_table tx' t = view m tx t.
Proof.
  intros Hq Hf. destruct (doCommit_ok m tx Hq Hf) as (tx' & He & Ht). exists tx'. unfold mm_Flush. by rewrite He, bind_ok.
Qed.

(** If the channel is closed, nothing that waits can be flushed. *)
Lemma mm_Flush_stopped m tx : quit m = true -> batch_fits m -> puts m <> ∅ -> (forall t b, puts m !! t = Some b -> b <> ∅) ->
  mm_Flush tables order (Some tx) m = Err "stopped".
Proof.
  intros Hq Hf Hne Hb. unfold mm_Flush, doCommit. assert (forall tb, tb ∈ tables (puts m) -> puts m !! fst tb = Some (snd tb)) as Hin.
  { intros [t b] Hin. rewrite tables_ok in Hin. by apply elem_of_map_to_list in Hin. }
  destruct (tables (puts m)) as [|[t b] l] eqn:Ht.
  - exfalso. apply Hne. apply map_to_list_empty_iff. symmetry in Ht. pose proof (tables_ok (puts m)) as Hp. rewrite <- Ht in Hp. by apply Permutation_nil_l in Hp.
  - specialize (Hin (t, b) ltac:(left)). cbn [fst snd foldl] in *. rewrite bind_ok.
    destruct (commitTable_load m t b tx) as (c & Hready & ->); [intros k v; by apply (Hf t)|]. rewrite Hq.
    rewrite (Load_stopped order (map itemOf (order b)) c t _ tx Hready).
    + clear. induction l as [|tb l IH]; [done|]. exact IH.
    + apply bucket_good. intros k v. by apply (Hf t).
    + intros Hnil%map_eq_nil. apply (Hb t b Hin), map_to_list_empty_iff. pose proof (order_ok b) as Hp. rewrite Hnil in Hp. by apply Permutation_nil_l in Hp.
Qed.

(** ** Writes to a batch and to a transaction *)

Inductive write_op :=
| WritePut (t : string) (k v : list Z)
| WriteDelete (t : string) (k : list Z).

Definition op_fits (o : write_op) : Prop :=
  match o with WritePut _ k v => fits (Some k) /\ fits (Some v) | WriteDelete _ k => fits (Some k) end.

Definition batch_write (o : write_op) (m : Mapmutation) : Mapmutation :=
  match o with WritePut t k v => mm_Put t k (Some v) m | WriteDelete t k => mm_Delete t k m end.

Definition tx_write (o : write_op) (tx : T) : outcome T :=
  match o with WritePut t k v => tx_Put t k v tx | WriteDelete t k => tx_Delete t k tx end.

Fixpoint batch_writes (os : list write_op) (m : Mapmutation) : Mapmutation :=
  match os with [] => m | o :: os => batch_writes os (batch_write o m) end.

Fixpoint tx_writes (os : list write_op) (tx : T) : outcome T :=
  match os with [] => Ok tx | o :: os => tx ← tx_write o tx; tx_writes os tx end.

Lemma batch_write_fits o m : op_fits o -> batch_fits m -> batch_fits (batch_write o m).
Proof.
  assert (forall t k v, fits (Some k) -> fits v -> batch_fits m -> batch_fits (mm_Put t k v m)) as Hput.
  { intros t k v Hk Hv Hm t' b k' v'. rewrite mm_Put_puts. intros [[<- <-]|[_ Hb]]%lookup_insert_Some Hb'; [|by eapply Hm].
    apply lookup_insert_Some in Hb' as [[<- <-]|[_ Hb']]; [done|]. destruct (puts m !! t) as [b|] eqn:Hb; [by eapply (Hm t b)|].
    cbn in Hb'. by rewrite lookup_empty in Hb'. }
  destruct o as [t k v|t k]; [intros [? ?]|intros ?]; by apply Hput.
Qed.

(** The view follows the tables. *)
Lemma write_same o m tx tx1 : (forall t, view m tx t = tx_table tx1 t) ->
  exists tx2, tx_write o tx1 = Ok tx2 /\ forall t, view (batch_write o m) tx t = tx_table tx2 t.
Proof.
  intros Hv. destruct o as [t k v|t k].
  - destruct (law_Put t k v tx1) as (tx2 & He & Ht). exists tx2. split; [done|]. intros t'. cbn [batch_write]. by rewrite mm_Put_view, Ht, !Hv.
  - destruct (law_Delete t k tx1) as (tx2 & He & Ht). exists tx2. split; [done|]. intros t'. cbn [batch_write]. unfold mm_Delete. by rewrite mm_Put_view, Ht, !Hv.
Qed.

Lemma writes_same os : forall m tx tx1, Forall op_fits os -> batch_fits m -> (forall t, view m tx t = tx_table tx1 t) ->
  exists tx2, tx_writes os tx1 = Ok tx2 /\ (forall t, view (batch_writes os m) tx t = tx_table tx2 t) /\
    batch_fits (batch_writes os m) /\ quit (batch_writes os m) = quit m /\ clean (batch_writes os m) = clean m.
Proof.
  induction os as [|o os IH]; intros m tx tx1 Hos Hf Hv; [by exists tx1|]. apply Forall_cons in Hos as [Ho Hos].
  destruct (write_same o m tx tx1 Hv) as (tx2 & He & Hv2). cbn [tx_writes batch_writes]. rewrite He, bind_ok.
  destruct (IH (batch_write o m) tx tx2 Hos (batch_write_fits _ _ Ho Hf) Hv2) as (tx3 & He3 & Hv3 & Hf3 & Hq3 & Hc3).
  exists tx3. split_and!; [done..| |].
  - rewrite Hq3. destruct o; apply mm_Put_quit.
  - rewrite Hc3. destruct o; apply mm_Put_quit.
Qed.

(** C12: a batch in memory refines direct writes.  After any puts and deletions on a new batch
    whose channel is not closed, [GetOne] through the batch gives what [GetOne] of the
    transaction gives after the same puts and deletions on it, and so does [Has] for a key
    that is not empty, except that it is true for a key whose deletion waits in the batch;
    [Flush] returns, the tables are then what those writes would have made them, and the
    batch is empty.  Nothing is said of the walks: [ForEach] visits deleted keys, and some
    keys twice. *)
Theorem batch_refines_writes os own tx : Forall op_fits os ->
  let m := batch_writes os (NewHashBatch (if own : bool then None else Some false)) in
  exists tx1 tx2 m', tx_writes os tx = Ok tx1 /\ (forall t k, mm_GetOne (Some tx) t k m = tx_GetOne t k tx1) /\
    (forall t k, k <> [] -> mm_Has (Some tx) t k m = if decide (getMem t k m = Some None) then Ok true else Tx_Has t k tx1) /\
    mm_Flush tables order (Some tx) m = Ok (tx2, m') /\ (forall t, tx_table tx2 t = tx_table tx1 t) /\ puts m' = ∅.
Proof.
  intros Hos m. set (m0 := NewHashBatch (if own then None else Some false)) in *.
  assert (puts m0 = ∅ /\ quit m0 = false) as [Hp Hq] by (by destruct own).
  destruct (writes_same os m0 tx tx Hos) as (tx1 & He & Hv & Hf & Hq' & _).
  { intros t b k v. by rewrite Hp, lookup_empty. }
  { intros t. unfold view. rewrite Hp, lookup_empty. apply overlay_empty. }
  fold m in Hv, Hf, Hq'. rewrite Hq in Hq'. destruct (mm_Flush_ok m tx Hq' Hf) as (tx2 & Hfl & Ht2).
  exists tx1, tx2. eexists. split; [done|]. split; [intros t k; by rewrite mm_GetOne_ok, Hv, law_GetOne|].
  split; [intros t k Hk; by apply mm_Has_ok|]. split; [exact Hfl|]. split; [|done]. intros t. by rewrite Ht2, Hv.
Qed.
End flush.

(** ** What a batch gets wrong *)

(** A deleted key is still there for [Has]. *)
Lemma has_deleted (db : option T) m t k : mm_Has db t k (mm_Delete t k m) = Ok true /\ mm_GetOne db t k (mm_Delete t k m) = Ok None.
Proof.
  unfold mm_Has, mm_GetOne, mm_Delete. assert (getMem t k (mm_Put t k None m) = Some None) as ->; [|done].
  unfold getMem. by rewrite mm_Put_puts, lookup_insert_eq, lookup_insert_eq.
Qed.

Lemma sort_Search_ok f n : (forall i, 0 <= i < n -> exists b, f i = Ok b) -> forall fuel i j, 0 <= i <= j -> j <= n -> j - i <= Z.of_nat fuel ->
  exists r, sort_Search fuel i j f = Ok r /\ i <= r <= j.
Proof.
  intros Hf. induction fuel as [|fuel IH]; intros i j Hij Hj Hfu; cbn [sort_Search].
  { rewrite (proj2 (Z.ltb_ge _ _)) by lia. exists i. split; [done|lia]. }
  destruct (Z.ltb_spec i j) as [Hlt|Hge]; [|exists i; split; [done|lia]]. cbv zeta. rewrite Z.shiftr_div_pow2 by lia. change (2 ^ 1) with 2.
  assert (i <= (i + j) / 2 < j) as Hh by (split; [apply Z.div_le_lower_bound; lia|apply Z.div_lt_upper_bound; lia]).
  destruct (Hf ((i + j) / 2)) as [b ->]; [lia|]. rewrite bind_ok. destruct b; cbn [negb].
  - destruct (IH i ((i + j) / 2)) as (r & Hr & Hb); [lia..|]. exists r. split; [done|lia].
  - destruct (IH ((i + j) / 2 + 1) j) as (r & Hr & Hb); [lia..|]. exists r. split; [done|lia].
Qed.

Lemma mm_insertKey_ok keys k : exists keys', mm_insertKey keys k = Ok keys' /\ keys' ≡ₚ k :: keys.
Proof.
  unfold mm_insertKey. destruct (sort_Search_ok (fun i => ki ← index keys i; Ok (negb (bytes_ltb ki k))) (Z.of_nat (length keys))) with
    (fuel := length keys) (i := 0) (j := Z.of_nat (length keys)) as (r & -> & Hr); [|lia..|].
  - intros i Hi. destruct (lookup_lt_is_Some_2 keys (Z.to_nat i)) as [x Hx]; [lia|]. rewrite <- (Z2Nat.id i) by lia.
    rewrite (index_nat _ _ _ Hx), bind_ok. eauto.
  - rewrite bind_ok. eexists. split; [done|]. by rewrite <- Permutation_middle, take_drop.
Qed.

Section foreach.
Context (order : gmap (list Z) nilable -> list (list Z * nilable)).
Context (order_ok : forall m, order m ≡ₚ map_to_list m).

(** The keys of the transaction are collected with their values. *)
Lemma collect_walk l : forall (kv : list (list Z) * gmap (list Z) nilable), NoDup (fst <$> l) ->
  exists values, walk (fun k v kv => kv ← Ok (fst kv ++ [k], <[k := Some v]> (snd kv)); Ok (Continue kv)) l kv = Ok (fst kv ++ map fst l, values) /\
    forall k, values !! k = match list_to_map (M := gmap (list Z) (list Z)) l !! k with Some v => Some (Some v) | None => snd kv !! k end.
Proof.
  induction l as [|[k v] l IH]; intros [keys vals] Hnd; [exists vals; cbn; rewrite app_nil_r; split; [done|intros k; by rewrite lookup_empty]|].
  cbn [fmap list_fmap] in Hnd. apply NoDup_cons in Hnd as [Hni Hnd]. cbn [walk fst snd]. rewrite !bind_ok.
  destruct (IH (keys ++ [k], <[k := Some v]> vals) Hnd) as (values & -> & Hv). cbn [fst snd] in Hv |- *. exists values. rewrite <- app_assoc. split; [done|].
  intros k'. rewrite Hv. rewrite list_to_map_cons. destruct (decide (k = k')) as [->|Hne].
  - by rewrite not_elem_of_list_to_map_1, !lookup_insert_eq by done.
  - by rewrite !lookup_insert_ne.
Qed.

(** The keys of the cache go among them. *)
Lemma insert_cache l : forall keys (vals : gmap (list Z) nilable), NoDup (fst <$> l) ->
  exists keys' vals', foldl (fun acc e => kv ← acc; keys ← mm_insertKey (fst kv) (fst e); Ok (keys, <[fst e := snd e]> (snd kv))) (Ok (keys, vals)) l = Ok (keys', vals') /\
    keys' ≡ₚ map fst l ++ keys /\
    forall k, vals' !! k = match list_to_map (M := gmap (list Z) nilable) l !! k with Some v => Some v | None => vals !! k end.
Proof.
  induction l as [|[k v] l IH]; intros keys vals Hnd; [exists keys, vals; split; [done|]; split; [done|]; intros k; by rewrite list_to_map_nil, lookup_empty|].
  cbn [fmap list_fmap] in Hnd. apply NoDup_cons in Hnd as [Hni Hnd]. cbn [foldl]. rewrite bind_ok. cbn [fst snd]. destruct (mm_insertKey_ok keys k) as (keys1 & -> & Hp1). rewrite bind_ok.
  destruct (IH keys1 (<[k := v]> vals) Hnd) as (keys' & vals' & -> & Hp & Hv). exists keys', vals'. split; [done|].
  split; [rewrite Hp, Hp1; symmetry; apply Permutation_middle|]. intros k'. rewrite Hv. rewrite list_to_map_cons. destruct (decide (k = k')) as [->|Hne].
  - by rewrite not_elem_of_list_to_map_1, !lookup_insert_eq by done.
  - by rewrite !lookup_insert_ne.
Qed.

Lemma sort_keys keys : exists keys', sort_Stable list_less swapAt (length keys) keys = Ok keys' /\ keys' ≡ₚ keys /\ StronglySorted (kle id) keys'.
Proof.
  destruct (sort_Stable_ok id list_less swapAt (fun b l => b = l) (fun _ => True)) with (b := keys) (l := keys) as (keys' & l' & He & <- & Hst).
  - intros b l i j x y -> _ Hi Hj. unfold list_less. by rewrite (index_nat _ _ _ Hi), (index_nat _ _ _ Hj), !bind_ok.
  - intros b l i j x y -> Hi Hj. rewrite (swapAt_ok _ _ _ _ _ Hi Hj). eauto.
  - done.
  - by apply Forall_true.
  - exists keys'. split; [done|]. split; [by eapply stable_Permutation|apply Hst].
Qed.

Lemma prefix_before k prefix : bytes_HasPrefix k prefix = true -> bytes_leb prefix k = true.
Proof.
  unfold bytes_HasPrefix. rewrite bool_decide_eq_true. intros Hp. rewrite <- (take_drop (length prefix) k), Hp. clear Hp. unfold bytes_leb. rewrite negb_true_iff. generalize (drop (length prefix) k) as q. intros q.
  induction prefix as [|x p IH]; cbn; [by destruct q|]. rewrite Z.ltb_irrefl, Z.eqb_refl. cbn. exact IH.
Qed.

(** What is seen under a prefix. *)
Definition visited (values : gmap (list Z) nilable) (prefix : list Z) (keys : list (list Z)) : list (list Z * nilable) :=
  map (fun k => (k, default None (values !! k))) (filter (fun k => bytes_HasPrefix k prefix = true) keys).

Lemma visit_collect prefix values keys : forall s,
  visit (fun k v s => Ok (s ++ [(k, v)])) prefix values keys s = Ok (s ++ visited values prefix keys).
Proof.
  induction keys as [|k keys IH]; intros s; cbn [visit]; unfold visited; [by rewrite app_nil_r|]. rewrite filter_cons.
  destruct (bytes_HasPrefix k prefix); cbn [negb]; [|by rewrite decide_False by done; apply IH].
  rewrite decide_True, bind_ok, IH by done. unfold visited. by rewrite <- app_assoc.
Qed.

Lemma NoDup_fst_filter {A B} (P : A * B -> Prop) `{!forall x, Decision (P x)} (l : list (A * B)) : NoDup (fst <$> l) -> NoDup (fst <$> filter P l).
Proof.
  induction l as [|e l IH]; [done|]. cbn [fmap list_fmap]. rewrite NoDup_cons. intros [Hni Hnd]. rewrite filter_cons. destruct (decide (P e)); [|by apply IH].
  cbn [fmap list_fmap]. apply NoDup_cons. split; [|by apply IH]. intros (e' & He' & Hin%list_elem_of_filter)%list_elem_of_fmap. apply Hni, list_elem_of_fmap. exists e'. tauto.
Qed.

Lemma count_one (k : list Z) l : NoDup l -> k ∈ l -> length (filter (fun k' => k' = k) l) = 1%nat.
Proof.
  induction l as [|x l IH]; [by intros _ ?%elem_of_nil|]. rewrite NoDup_cons, elem_of_cons, filter_cons. intros [Hni Hnd] Hk. destruct (decide (x = k)) as [->|Hne].
  - cbn [length]. f_equal. apply length_zero_iff_nil, filter_keep_none. intros k' Hk' ->. done.
  - apply IH; [done|]. by destruct Hk as [->|?].
Qed.

Lemma visited_count values prefix keys k : bytes_HasPrefix k prefix = true ->
  length (filter (fun e => fst e = k) (visited values prefix keys)) = length (filter (fun k' => k' = k) keys).
Proof.
  intros Hpre. unfold visited. induction keys as [|x keys IH]; [done|]. rewrite !filter_cons. destruct (decide (bytes_HasPrefix x prefix = true)) as [Hx|Hx].
  - cbn [map]. rewrite filter_cons. cbn [fst]. destruct (decide (x = k)); cbn [length]; [by f_equal|done].
  - rewrite decide_False by congruence. exact IH.
Qed.

(** A walk over a table of which a batch holds writes.  [ForEach] visits every entry that
    is in the table seen through the batch and has the prefix.  But it also visits the deleted
    keys, with nil for a value, and it visits twice the keys that are both in the transaction
    and in the batch. *)
Theorem foreach_visits fuel bucket prefix m cache tx : puts m !! bucket = Some cache -> (size (tx_table tx bucket) <= fuel)%nat ->
  exists l, mm_ForEach (Some tx) order (fun k v s => Ok (s ++ [(k, v)])) fuel bucket prefix m [] = Ok l /\
    (forall k v, bytes_HasPrefix k prefix = true -> view m tx bucket !! k = Some v -> (k, Some v) ∈ l) /\
    (forall k, bytes_HasPrefix k prefix = true -> cache !! k = Some None -> (k, None) ∈ l) /\
    (forall k v v', bytes_HasPrefix k prefix = true -> cache !! k = Some v' -> tx_table tx bucket !! k = Some v ->
       length (filter (fun e => fst e = k) l) = 2%nat).
Proof.
  intros Hc Hf. unfold mm_ForEach. rewrite Hc. unfold Tx_ForEach. rewrite scanFrom_walk by done.
  set (es := filter (fun e => bytes_leb prefix (fst e) = true) (entries (tx_table tx bucket))).
  assert (forall k v, (k, v) ∈ es <-> bytes_leb prefix k = true /\ tx_table tx bucket !! k = Some v) as Hes.
  { intros k v. unfold es. by rewrite list_elem_of_filter, elem_of_entries. }
  assert (NoDup (fst <$> es)) as Hnd.
  { apply NoDup_fst_filter, NoDup_entries. }
  destruct (collect_walk es ([], ∅) Hnd) as (vals & -> & Hv). rewrite bind_ok. cbn [fst snd app] in *.
  destruct (insert_cache (order cache) (map fst es) vals) as (keys & vals' & -> & Hp & Hv'); [rewrite order_ok; apply NoDup_fst_map_to_list|].
  rewrite bind_ok. destruct (sort_keys keys) as (keys' & -> & Hp' & _). rewrite bind_ok, visit_collect. cbn [app].
  assert (list_to_map (M := gmap (list Z) nilable) (order cache) = cache) as Hcache.
  { rewrite <- (list_to_map_to_list cache) at 2. apply list_to_map_proper; [rewrite order_ok; apply NoDup_fst_map_to_list|apply order_ok]. }
  rewrite Hcache in Hv'.
  assert (forall k, bytes_HasPrefix k prefix = true -> vals' !! k = match cache !! k with Some v => Some v | None => Some <$> tx_table tx bucket !! k end) as Hval.
  { intros k Hpre. rewrite Hv', Hv, lookup_empty. destruct (cache !! k); [done|]. destruct (list_to_map es !! k) as [v|] eqn:Hk.
    - apply elem_of_list_to_map_2, Hes in Hk as [_ ->]. done.
    - destruct (tx_table tx bucket !! k) as [v|] eqn:Hk'; [|done]. apply not_elem_of_list_to_map_2 in Hk. destruct Hk.
      apply (list_elem_of_fmap_2 fst es (k, v)). apply Hes. split; [by apply prefix_before|done]. }
  assert (keys' ≡ₚ map fst (map_to_list cache) ++ map fst es) as Hkeys by (rewrite Hp', Hp; f_equiv; apply fmap_Permutation, order_ok).
  assert (forall k, bytes_HasPrefix k prefix = true -> k ∈ keys' -> (k, default None (vals' !! k)) ∈ visited vals' prefix keys') as Hvis.
  { intros k Hpre Hk. apply (list_elem_of_fmap_2 (fun k => (k, default None (vals' !! k)))). by apply list_elem_of_filter. }
  assert (forall k v, cache !! k = Some v -> k ∈ keys') as Hin1.
  { intros k v Hk. rewrite Hkeys. apply elem_of_app. left. apply (list_elem_of_fmap_2 fst _ (k, v)). by apply elem_of_map_to_list. }
  assert (forall k v, bytes_HasPrefix k prefix = true -> tx_table tx bucket !! k = Some v -> k ∈ keys') as Hin2.
  { intros k v Hpre Hk. rewrite Hkeys. apply elem_of_app. right. apply (list_elem_of_fmap_2 fst es (k, v)). apply Hes. split; [by apply prefix_before|done]. }
  eexists. split; [done|]. split; [|split].
  - intros k v Hpre Hk. unfold view in Hk. rewrite Hc in Hk. cbn in Hk. rewrite overlay_lookup in Hk. specialize (Hval k Hpre). specialize (Hvis k Hpre).
    destruct (cache !! k) as [v'|] eqn:Hck; [subst v'|rewrite Hk in Hval]; rewrite Hval in Hvis; [by eapply Hvis, Hin1|by eapply Hvis, Hin2].
  - intros k Hpre Hk. specialize (Hval k Hpre). specialize (Hvis k Hpre). rewrite Hk in Hval. rewrite Hval in Hvis. by eapply Hvis, Hin1.
  - intros k v v' Hpre Hck Hk. rewrite visited_count, Hkeys, filter_app, length_app by done. rewrite !count_one; [done|..].
    + done.
    + apply (list_elem_of_fmap_2 fst es (k, v)). apply Hes. split; [by apply prefix_before|done].
    + apply NoDup_fst_map_to_list.
    + apply (list_elem_of_fmap_2 fst _ (k, v')). by apply elem_of_map_to_list.
Qed.
End foreach.
End theory.

(** ** Examples *)

Definition anyTables (m : gmap string (gmap (list Z) nilable)) : list (string * gmap (list Z) nilable) := map_to_list m.
Definition anyKeys (m : gmap (list Z) nilable) : list (list Z * nilable) := map_to_list m.

Lemma anyTables_ok m : anyTables m ≡ₚ map_to_list m.
Proof. reflexivity. Qed.

Lemma anyKeys_ok m : anyKeys m ≡ₚ map_to_list m.
Proof. reflexivity. Qed.

Definition example_db : MemKv := {["T" := {[ [1] := [10]; [2] := [20] ]}]}.

Definition example_writes : list write_op := [WritePut "T" [3] [30]; WriteDelete "T" [1]; WritePut "U" [1] [11]; WritePut "T" [3] [31]].

Lemma example_writes_fit : Forall op_fits example_writes.
Proof. repeat (apply Forall_cons; split; [done|]). by apply Forall_nil. Qed.

Lemma batch_refines_writes_witness :
  let m := batch_writes example_writes (NewHashBatch None) in
  exists tx1 tx2 m', tx_writes example_writes example_db = Ok tx1 /\ mm_GetOne (Some example_db) "T" [3] m = Ok (Some [31]) /\
    mm_Has (Some example_db) "T" [4] m = Ok false /\
    mm_Flush anyTables anyKeys (Some example_db) m = Ok (tx2, m') /\ tx_table tx2 "T" !! [1] = None /\ puts m' = ∅.
Proof.
  destruct (batch_refines_writes anyTables anyTables_ok anyKeys anyKeys_ok example_writes true example_db example_writes_fit)
    as (tx1 & tx2 & m' & H1 & _ & _ & H3 & H4 & H5).
  exists tx1, tx2, m'. split; [exact H1|]. split; [vm_compute; reflexivity|]. split; [vm_compute; reflexivity|]. split; [exact H3|]. split; [|exact H5].
  rewrite H4. cbn in H1. injection H1 as <-. vm_compute. reflexivity.
Defined.

Lemma foreach_visits_witness :
  let m := batch_writes example_writes (NewHashBatch None) in
  exists l, mm_ForEach (Some example_db) anyKeys (fun k v s => Ok (s ++ [(k, v)])) 2 "T" [] m [] = Ok l /\
    ([1], None) ∈ l /\ length (filter (fun e => fst e = [1]) l) = 2%nat.
Proof.
  destruct (foreach_visits anyKeys anyKeys_ok 2 "T" [] (batch_writes example_writes (NewHashBatch None)) {[ [1] := None; [3] := Some [31] ]} example_db)
    as (l & He & _ & Hd & H2); [vm_compute; reflexivity|vm_compute; lia|].
  exists l. split; [exact He|]. split; [by apply Hd|]. by apply (H2 [1] [10] None).
Defined.

(** ** A batch knows its size *)

Section sums.
Context {K A : Type} `{Countable K} (f : K -> A -> Z).

Definition msum (m : gmap K A) : Z := map_fold (fun k a s => f k a + s) 0 m.

Lemma msum_fresh m k a : m !! k = None -> msum (<[k := a]> m) = f k a + msum m.
Proof. intros Hk. unfold msum. apply (map_fold_insert_L (fun k a s => f k a + s)); [intros; lia|done]. Qed.

Lemma msum_insert m k a : msum (<[k := a]> m) = msum m + f k a - match m !! k with Some b => f k b | None => 0 end.
Proof.
  destruct (m !! k) as [b|] eqn:Hk; [|rewrite msum_fresh by done; lia].
  rewrite <- (insert_delete_id m k b Hk) at 2. rewrite <- insert_delete_eq, !msum_fresh by apply lookup_delete_eq. lia.
Qed.
End sums.

(** The size is that of all keys and values, the count is that of the keys, as far as their
    integers hold them; every table of the batch has a key. *)
Record mutation_wf (m : Mapmutation) : Prop := {
  wf_size : mm_size m = i64 (msum (fun _ b => msum (fun k v => Z.of_nat (length k) + lenOf v) b) (puts m));
  wf_count : mm_count m = u64 (msum (fun _ b => Z.of_nat (size b)) (puts m));
  wf_tables t b : puts m !! t = Some b -> b <> ∅;
}.

Lemma mutation_wf_empty q c : mutation_wf (mkMutation ∅ q c 0 0).
Proof. split; [done|done|]. intros t b. cbn. by rewrite lookup_empty. Qed.

Lemma mutation_wf_Put t k v m : mutation_wf m -> mutation_wf (mm_Put t k v m).
Proof.
  intros [Hs Hc Ht]. assert (forall g, g ∅ = 0 -> match puts m !! t with Some b => g b | None => 0 end = g (default ∅ (puts m !! t))) as Hdef.
  { intros g Hg. by destruct (puts m !! t). }
  split.
  - rewrite mm_Put_puts, msum_insert. rewrite (Hdef (fun b => msum (fun k v => Z.of_nat (length k) + lenOf v) b)) by done.
    rewrite msum_insert. unfold mm_Put. destruct (default ∅ (puts m !! t) !! k) as [old|]; cbn [mm_size]; rewrite Hs, i64_i64_add; f_equal; lia.
  - rewrite mm_Put_puts, msum_insert. rewrite (Hdef (fun b => Z.of_nat (size b))) by done.
    unfold mm_Put. destruct (default ∅ (puts m !! t) !! k) as [old|] eqn:Hk; cbn [mm_count]; rewrite Hc.
    + rewrite map_size_insert_Some by (by eexists). f_equal. lia.
    + rewrite map_size_insert_None by done. unfold u64. rewrite Zplus_mod_idemp_l. f_equal. lia.
  - intros t' b. rewrite mm_Put_puts. intros [[<- <-]|[_ Hb]]%lookup_insert_Some; [apply insert_non_empty|by eapply Ht].
Qed.

(** C36: a batch is well formed.  A new batch is, and every operation that changes a batch keeps
    it so: its size is the number of bytes of its keys and values, its count that of its
    keys, whatever is overwritten or deleted on the way, and every table it lists has an
    entry. *)
Theorem mutation_typed {T} `{Kv T} : (forall q, mutation_wf (NewHashBatch q)) /\ forall m, mutation_wf m ->
  (forall t k v, mutation_wf (mm_Put t k v m) /\ mutation_wf (mm_Append t k v m) /\ mutation_wf (mm_AppendDup t k v m)) /\
  (forall t k, mutation_wf (mm_Delete t k m)) /\ mutation_wf (mm_Close m) /\
  (forall (db : option T) t n r m', mm_IncrementSequence db t n m = Ok (r, m') -> mutation_wf m') /\
  (forall tables order (tx : option T) tx' m', mm_Flush tables order tx m = Ok (tx', m') -> mutation_wf m').
Proof.
  split; [intros [q|]; apply mutation_wf_empty|]. intros m Hm. split_and!.
  - intros t k v. split_and!; by apply mutation_wf_Put.
  - intros t k. by apply mutation_wf_Put.
  - unfold mm_Close. destruct (clean m); [apply mutation_wf_empty|done].
  - intros db t n r m' He. unfold mm_IncrementSequence in He. apply bind_Ok_inv in He as (c & _ & [= _ <-]). by apply mutation_wf_Put.
  - intros tables order [tx|] tx' m' He; [|done]. unfold mm_Flush in He. apply bind_Ok_inv in He as (tx1 & _ & [= _ <-]). apply mutation_wf_empty.
Qed.

Lemma mutation_typed_witness : mutation_wf (mm_Delete "T" [1] (mm_Put "T" [1] (Some [2; 3]) (NewHashBatch None))).
Proof.
  destruct (mutation_typed (T := MemKv)) as [Hnew Hstep].
  destruct (Hstep _ (proj1 (proj1 (Hstep _ (Hnew None)) "T" [1] (Some [2; 3])))) as (_ & Hd & _). apply Hd.
Defined.
