(* ===== verification/SmtKeys.v ===== *)
(** * Keys of accounts, storage and code (smt/pkg/utils/utils.go)

    The keys under which balances, nonces, storage and code are kept in the tree are
    hashes of the address, the kind of the entry and the position; the value kept for a
    code is the hash of its padded bytes, in codeBlocks of 56.  The Poseidon hash is the
    parameter [Hash].  The hash of a code is what hashing its padded bytes block by block
    gives, and it determines the code as far as the hash of a block does. *)
From Stdlib Require Import Ascii.
From S2P Require Import Prelude Float64 Bytes Hex SmtUtils.

(** ** Strings *)

Definition has0x (s : string) : bool := String.prefix "0x" s.

(** [s[lo:hi]] *)
Definition str_slice (s : string) (lo hi : Z) : outcome string :=
  if (0 <=? lo) && (lo <=? hi) && (hi <=? slen s) then Ok (String.substring (Z.to_nat lo) (Z.to_nat (hi - lo)) s)
  else Panic.

(** A digit as [SetString(_, 10)] reads it. *)
Definition decVal (c : ascii) : option Z :=
  let n := Z.of_nat (nat_of_ascii c) in
  if (48 <=? n) && (n <=? 57) then Some (n - 48) else None.

Fixpoint parseDecDigits (acc : Z) (s : string) : option Z :=
  match s with
  | EmptyString => Some acc
  | String c s => d ← decVal c; parseDecDigits (acc * 10 + d) s
  end.

Definition parseDecNat (s : string) : option Z :=
  match s with EmptyString => None | _ => parseDecDigits 0 s end.

(** [new(big.Int).SetString(s, 10)] *)
Definition ParseDec (s : string) : option Z :=
  match s with
  | String c rest =>
      if Ascii.eqb c "-" then Z.opp <$> parseDecNat rest
      else if Ascii.eqb c "+" then parseDecNat rest
      else parseDecNat s
  | EmptyString => None
  end.

(** [strconv.ParseUint(s, 16, 64)]: no sign. *)
Definition ParseUint16 (s : string) : option Z :=
  z ← parseNat s; if z <? 2 ^ 64 then Some z else None.

(** [hex.EncodeToString] *)
Fixpoint EncodeToString (b : list Z) : string :=
  match b with [] => EmptyString | x :: b => (hexDigits 2 x ++ EncodeToString b)%string end.

(** ** Keys *)

Definition HASH_POSEIDON_ALL_ZEROES : string := "0xc71603f33a1144ca7953db0ab48808f4c4055e3364a246c33c18a9786cb0b359".
Definition BYTECODE_ELEMENTS_HASH : Z := 8.
Definition BYTECODE_BYTES_ELEMENT : Z := 7.

Definition StringToH4 (s : string) : outcome NodeKey :=
  if negb (has0x s) then Err "hexadecimal required"
  else if negb (slen s =? 66) then Err "hexadecimal all digits required"
  else
    let word (i : Z) : outcome Z :=
      w ← str_slice s (2 + 16 * i) (18 + 16 * i);
      match ParseUint16 w with Some z => Ok z | None => Err "failed to convert string to uint64" end in
    r3 ← word 0; r2 ← word 1; r1 ← word 2; r0 ← word 3;
    Ok (mkKey r0 r1 r2 r3).

(** [nil] if the string is not a number. *)
Definition StrValToBigInt (v : string) : option Z :=
  if has0x v then ParseHex (TrimPrefix0x v) else ParseDec v.

Section keys.
Context (Hash : list Z -> NodeKey -> NodeKey).

(** The first six limbs of an address, the kind of the entry, and zero. *)
Definition keyInput (add : list Z) (c : Z) : outcome NodeValue8 :=
  a0 ← index add 0; a1 ← index add 1; a2 ← index add 2; a3 ← index add 3; a4 ← index add 4; a5 ← index add 5;
  Ok (map Some [a0; a1; a2; a3; a4; a5; c; 0]).

Definition Key (ethAddr : string) (c : Z) : outcome NodeKey :=
  a ← nonNil (ConvertHexToBigInt ethAddr);
  key1 ← keyInput (ScalarToArrayBig a) c;
  match StringToH4 HASH_POSEIDON_ALL_ZEROES with
  | Ok key1Capacity => Ok (Hash (ToUintArray key1) key1Capacity)
  | _ => Ok zeroKey
  end.

Definition KeyEthAddrBalance (ethAddr : string) : outcome NodeKey := Key ethAddr KEY_BALANCE.
Definition KeyEthAddrNonce (ethAddr : string) : outcome NodeKey := Key ethAddr KEY_NONCE.
Definition KeyContractCode (ethAddr : string) : outcome NodeKey := Key ethAddr SC_CODE.
Definition KeyContractLength (ethAddr : string) : outcome NodeKey := Key ethAddr SC_LENGTH.

Definition KeyBig (k : option Z) (c : Z) : outcome NodeKey :=
  match k with
  | None => Err "nil key"
  | Some k =>
      key1 ← keyInput (ScalarToArrayBig k) c;
      key1Capacity ← StringToH4 HASH_POSEIDON_ALL_ZEROES;
      Ok (Hash (ToUintArray key1) key1Capacity)
  end.

Definition KeyContractStorage (ethAddr : list Z) (storagePosition : string) : outcome NodeKey :=
  sp ← nonNil (StrValToBigInt storagePosition);
  match NodeValue8FromBigIntArray (map Some (ScalarToArrayBig sp)) with
  | Ok spArray =>
      let hk0 := Hash (ToUintArray spArray) zeroKey in
      key1 ← keyInput ethAddr SC_STORAGE;
      Ok (Hash (ToUintArray key1) hk0)
  | _ => Ok zeroKey
  end.

(** ** The hash of a code *)

(** [for len(bytecode)%(56*2) != 0 { bytecode += "00" }]; 56 rounds are enough. *)
Fixpoint padZeros (fuel : nat) (bytecode : string) : outcome string :=
  if slen bytecode mod (56 * 2) =? 0 then Ok bytecode
  else match fuel with O => Panic | S fuel => padZeros fuel (bytecode ++ "00")%string end.

(** The bytes [j], [j + 1], ... of a block: seven of them are an element, the first the least
    significant. *)
Fixpoint blockElements (n : nat) (j : Z) (subset tmpElem : string) (counter : Z) (elements : list Z) : outcome (list Z) :=
  match n with
  | O => Ok elements
  | S n =>
      byteToAdd ← (if j <? slen subset / 2 then str_slice subset (j * 2) ((j + 1) * 2) else Ok "00"%string);
      let tmpElem := (byteToAdd ++ tmpElem)%string in
      let counter := counter + 1 in
      if counter =? BYTECODE_BYTES_ELEMENT then
        tmpScalar ← nonNil (ParseHex tmpElem);
        blockElements n (j + 1) subset EmptyString 0 (elements ++ [bigUint64 tmpScalar])
      else blockElements n (j + 1) subset tmpElem counter elements
  end.

Fixpoint hashBlocks (n : nat) (bytecode : string) (bytesPointer : Z) (tmpHash : NodeKey) : outcome NodeKey :=
  match n with
  | O => Ok tmpHash
  | S n =>
      let maxBytesToAdd := BYTECODE_ELEMENTS_HASH * BYTECODE_BYTES_ELEMENT in
      subset ← str_slice bytecode bytesPointer (bytesPointer + maxBytesToAdd * 2);
      elementsToHash ← blockElements (Z.to_nat maxBytesToAdd) 0 subset EmptyString 0 (words tmpHash);
      inp ← slice elementsToHash 4 12;
      hashBlocks n bytecode (bytesPointer + maxBytesToAdd * 2) (Hash inp tmpHash)
  end.

(** The errors of the conversion of the last byte are dropped, its value is then 0. *)
Definition HashContractBytecodeBigInt (bc : string) : outcome Z :=
  let bytecode := if has0x bc then TrimPrefix0x bc else bc in
  let bytecode := if slen bytecode mod 2 =? 0 then bytecode else String "0" bytecode in
  bytecode ← padZeros 56 (bytecode ++ "01")%string;
  last2 ← str_slice bytecode (slen bytecode - 2) (slen bytecode);
  let lastByteInt := default 0 (ParseHex last2) in
  let lastByte := FormatHex (Z.lor lastByteInt 0x80) in
  start ← str_slice bytecode 0 (slen bytecode - 2);
  let bytecode := (start ++ lastByte)%string in
  let numBytes := fdiv (of_int (slen bytecode)) (of_int 2) in
  let numHashes := Ceil (fdiv numBytes (of_int (BYTECODE_ELEMENTS_HASH * BYTECODE_BYTES_ELEMENT))) in
  tmpHash ← hashBlocks (Z.to_nat numHashes) bytecode 0 zeroKey;
  Ok (ArrayToScalar (words tmpHash)).

Definition HashContractBytecode (bc : string) : outcome string :=
  z ← HashContractBytecodeBigInt bc; Ok (ConvertBigIntToHex (Some z)).

(** [convertBytecodeToBigInt] of smt/pkg/smt/entity_storage.go: the hash of a code and its length. *)
Definition convertBytecodeToBigInt (bytecode : string) : outcome (Z * Z) :=
  bi ← HashContractBytecodeBigInt bytecode;
  let parsedBytecode := TrimPrefix0x bytecode in
  let parsedBytecode := if slen parsedBytecode mod 2 =? 0 then parsedBytecode else String "0" parsedBytecode in
  let bytecodeLength := slen parsedBytecode / 2 in
  if slen bytecode =? 0 then Ok (0, 0) else Ok (bi, bytecodeLength).
End keys.

(** ** Hexadecimal strings of bytes *)

Lemma str_app_cons c a b : (String c a ++ b)%string = String c (a ++ b)%string.
Proof. done. Qed.

Lemma str_app_nil b : ("" ++ b)%string = b.
Proof. done. Qed.

Lemma str_app_assoc (a b c : string) : ((a ++ b) ++ c)%string = (a ++ (b ++ c))%string.
Proof. induction a as [|x a IH]; [done|]. by rewrite !str_app_cons, IH. Qed.

Lemma str_length_app (a b : string) : String.length (a ++ b) = (String.length a + String.length b)%nat.
Proof. induction a as [|x a IH]; [done|]. rewrite str_app_cons. cbn [String.length]. by rewrite IH. Qed.

Lemma substring_app (a b c : string) : String.substring (String.length a) (String.length b) (a ++ (b ++ c)) = b.
Proof.
  induction a as [|x a IH]; [|exact IH]. rewrite str_app_nil. cbn [String.length]. induction b as [|y b IH]; [by destruct c|].
  rewrite str_app_cons. cbn [String.length String.substring]. by rewrite IH.
Qed.

Lemma EncodeToString_app a b : EncodeToString (a ++ b) = (EncodeToString a ++ EncodeToString b)%string.
Proof. induction a as [|x a IH]; [done|]. cbn [EncodeToString app]. by rewrite IH, str_app_assoc. Qed.

Lemma EncodeToString_length b : String.length (EncodeToString b) = (2 * length b)%nat.
Proof. induction b as [|x b IH]; [done|]. cbn [EncodeToString length]. rewrite str_length_app, hexDigits_length, IH. lia. Qed.

Lemma slen_Encode b : slen (EncodeToString b) = 2 * Z.of_nat (length b).
Proof. unfold slen. rewrite EncodeToString_length. lia. Qed.

(** A slice at bytes. *)
Lemma slice_Encode a b c lo hi : lo = 2 * Z.of_nat (length a) -> hi = 2 * Z.of_nat (length (a ++ b)) ->
  str_slice (EncodeToString (a ++ b ++ c)) lo hi = Ok (EncodeToString b).
Proof.
  intros -> ->. unfold str_slice. rewrite slen_Encode, !length_app.
  rewrite (proj2 (Z.leb_le _ _)), (proj2 (Z.leb_le _ _)), (proj2 (Z.leb_le _ _)) by lia. cbn [andb]. f_equal.
  rewrite !EncodeToString_app. rewrite <- (substring_app (EncodeToString a) (EncodeToString b) (EncodeToString c)) at 2.
  rewrite !EncodeToString_length. f_equal; lia.
Qed.

Lemma parseDigits_app s : forall acc s', parseDigits acc (s ++ s') = acc ← parseDigits acc s; parseDigits acc s'.
Proof.
  induction s as [|c s IH]; intros acc s'; [done|]. rewrite str_app_cons. cbn [parseDigits]. destruct (hexVal c) as [d|]; [|done]. apply IH.
Qed.

Lemma parseDigits_Encode b : bytes_ok b -> forall acc, parseDigits acc (EncodeToString b) = Some (acc * 256 ^ Z.of_nat (length b) + be_decode b).
Proof.
  induction 1 as [|x b Hx _ IH]; intros acc; cbn [EncodeToString length].
  { cbn. f_equal. lia. }
  rewrite parseDigits_app, parseDigits_hexDigits by (unfold byte_ok in Hx; lia). cbn [option_bind mbind].
  change (16 ^ Z.of_nat 2) with 256. rewrite Z.mod_small, IH by exact Hx.
  rewrite be_decode_cons, Nat2Z.inj_succ, Z.pow_succ_r by lia. f_equal. lia.
Qed.

Lemma ParseHex_Encode b : bytes_ok b -> b <> [] -> ParseHex (EncodeToString b) = Some (be_decode b).
Proof.
  intros Hb Hne. pose proof (parseDigits_Encode b Hb 0) as Hp. destruct b as [|x b]; [done|]. cbn [EncodeToString hexDigits] in *. rewrite !str_app_cons in *.
  unfold ParseHex. destruct (hexDigit_plain (x / 16 ^ Z.of_nat 1 mod 16)) as [-> ->]; [apply Z.mod_pos_bound; lia|]. exact Hp.
Qed.

Lemma Encode_no0x b : bytes_ok b -> has0x (EncodeToString b) = false.
Proof.
  destruct b as [|x b]; [done|]. intros _. unfold has0x. cbn [EncodeToString hexDigits]. rewrite !str_app_cons. cbn [String.prefix].
  destruct (ascii_dec "0" (hexDigit (x / 16 ^ Z.of_nat 1 mod 16))); [|done].
  destruct (ascii_dec "x" (hexDigit (x / 16 ^ Z.of_nat 0 mod 16))) as [He|]; [|done].
  pose proof (hexVal_hexDigit (x / 16 ^ Z.of_nat 0 mod 16) ltac:(apply Z.mod_pos_bound; lia)) as Hv. rewrite <- He in Hv. done.
Qed.

(** ** Padding *)

(** The zero bytes after the byte that ends a code. *)
Definition zeros (n : nat) : nat := Z.to_nat ((- Z.of_nat (n + 1)) mod 56).

(** A one, zeros up to a multiple of 56 bytes, and the top bit of the last byte set. *)
Definition padCode (code : list Z) : list Z :=
  match zeros (length code) with
  | O => code ++ [0x81]
  | S z => code ++ [0x01] ++ replicate z 0 ++ [0x80]
  end.

Lemma zeros_small n : (zeros n < 56)%nat.
Proof. unfold zeros. pose proof (Z.mod_pos_bound (- Z.of_nat (n + 1)) 56 ltac:(lia)). lia. Qed.

Lemma zeros_full n : (Z.of_nat (n + 1) + Z.of_nat (zeros n)) mod 56 = 0.
Proof.
  unfold zeros. rewrite Z2Nat.id by (apply Z.mod_pos_bound; lia). rewrite Zplus_mod_idemp_r. by rewrite Z.add_opp_diag_r.
Qed.

Lemma padCode_length code : Z.of_nat (length (padCode code)) = Z.of_nat (length code + 1) + Z.of_nat (zeros (length code)).
Proof. unfold padCode. destruct (zeros (length code)) as [|z]; rewrite !length_app; cbn [length]; [lia|]. rewrite length_replicate. lia. Qed.

Lemma padCode_ok code : bytes_ok code -> bytes_ok (padCode code).
Proof.
  intros Hc. unfold padCode. destruct (zeros (length code)) as [|z]; repeat (apply bytes_ok_app; split); try done; try by repeat constructor.
  apply Forall_replicate. done.
Qed.

Lemma replicate_zeros_inj z z' (a b : list Z) : replicate z 0 ++ 1 :: a = replicate z' 0 ++ 1 :: b -> a = b.
Proof. revert z'. induction z as [|z IH]; intros [|z'] [=]; eauto. Qed.

(** The padding can be undone. *)
Lemma padCode_inj a b : padCode a = padCode b -> a = b.
Proof.
  assert (forall (c : list Z) z, c ++ [1] ++ replicate z 0 ++ [128] = (c ++ [1] ++ replicate z 0) ++ [128]) as Has by (intros; by rewrite <- !app_assoc).
  unfold padCode. destruct (zeros (length a)) as [|z], (zeros (length b)) as [|z']; rewrite ?Has; intros [He Hl]%app_inj_2; try done.
  apply (f_equal reverse) in He. rewrite !reverse_app, !reverse_replicate, <- !app_assoc in He. apply (inj reverse).
  by eapply replicate_zeros_inj.
Qed.

(** ** Blocks *)

(** Seven bytes are a word, the first the least significant; eight words are a block. *)
Definition blockWords (block : list Z) : list Z :=
  map (fun i => be_decode (reverse (take 7 (drop (7 * i) block)))) (seq 0 8).

Fixpoint elementWords (cur rest : list Z) : list Z :=
  match rest with
  | [] => []
  | b :: rest => if decide (length cur = 6)%nat then be_decode (b :: cur) :: elementWords [] rest else elementWords (b :: cur) rest
  end.

Lemma elementWords_ok block : length block = 56%nat -> elementWords [] block = blockWords block.
Proof.
  intros Hl. do 56 (destruct block as [|? block]; [done|]). destruct block; [|done]. reflexivity.
Qed.

Lemma be_decode_word (l : list Z) : bytes_ok l -> (length l <= 7)%nat -> bigUint64 (be_decode l) = be_decode l.
Proof.
  intros Hb Hl. apply bigUint64_small. pose proof (be_decode_range l Hb) as Hr.
  pose proof (Z.pow_le_mono_r 256 (Z.of_nat (length l)) 7 ltac:(lia) ltac:(lia)) as Hm. change (256 ^ 7) with (2 ^ 56) in Hm. lia.
Qed.

Lemma blockElements_ok rest : forall pre cur els, bytes_ok (pre ++ rest) -> bytes_ok cur -> (length cur < 7)%nat ->
  blockElements (length rest) (Z.of_nat (length pre)) (EncodeToString (pre ++ rest)) (EncodeToString cur) (Z.of_nat (length cur)) els =
    Ok (els ++ elementWords cur rest).
Proof.
  induction rest as [|b rest IH]; intros pre cur els Hok Hcur Hlen; [cbn [length blockElements elementWords]; by rewrite (app_nil_r els)|]. cbn [length blockElements].
  rewrite slen_Encode, (Z.mul_comm 2), Z.div_mul, (proj2 (Z.ltb_lt _ _)) by (rewrite ?length_app; cbn [length]; lia).
  rewrite (slice_Encode pre [b] rest) by (rewrite ?length_app; cbn [length]; lia). rewrite bind_ok. cbv zeta.
  rewrite <- EncodeToString_app. cbn [app].
  assert (byte_ok b) as Hb by (apply bytes_ok_app in Hok as [_ [Hb _]%Forall_cons]; done).
  assert (bytes_ok (b :: cur)) as Hbc by (by apply Forall_cons).
  specialize (IH (pre ++ [b])). rewrite length_app, <- app_assoc in IH. cbn [length app] in IH.
  replace (Z.of_nat (length pre + 1)) with (Z.of_nat (length pre) + 1) in IH by lia.
  unfold BYTECODE_BYTES_ELEMENT. cbn [elementWords]. destruct (Z.eqb_spec (Z.of_nat (length cur) + 1) 7) as [H7|H7].
  - rewrite decide_True by lia. rewrite ParseHex_Encode by done. cbn [nonNil]. rewrite bind_ok, be_decode_word by (done || cbn [length]; lia).
    specialize (IH [] (els ++ [be_decode (b :: cur)])). cbn [EncodeToString length] in IH. change (Z.of_nat 0) with 0 in IH.
    rewrite IH by (done || by apply Forall_nil || lia). by rewrite <- app_assoc.
  - rewrite decide_False by lia. specialize (IH (b :: cur) els). cbn [length] in IH.
    replace (Z.of_nat (S (length cur))) with (Z.of_nat (length cur) + 1) in IH by lia. by rewrite IH by (done || lia).
Qed.

Section hash.
Context (Hash : list Z -> NodeKey -> NodeKey).

(** The codeBlocks of 56 bytes, hashed one after the other. *)
Definition codeBlock (p : list Z) (i : nat) : list Z := take 56 (drop (56 * i) p).
Definition codeBlocks (p : list Z) : list (list Z) := map (codeBlock p) (seq 0 (length p / 56)).
Definition chain (bs : list (list Z)) : NodeKey := foldl (fun h b => Hash (blockWords b) h) zeroKey bs.
Definition codeHash (code : list Z) : NodeKey := chain (codeBlocks (padCode code)).

Lemma hashBlocks_ok p n : forall i h, bytes_ok p -> (length p = 56 * (i + n))%nat ->
  hashBlocks Hash n (EncodeToString p) (112 * Z.of_nat i) h = Ok (foldl (fun h b => Hash (blockWords b) h) h (map (codeBlock p) (seq i n))).
Proof.
  induction n as [|n IH]; intros i h Hok Hlen; [done|]. cbn [hashBlocks seq map foldl]. cbv zeta.
  change (BYTECODE_ELEMENTS_HASH * BYTECODE_BYTES_ELEMENT) with 56. change (Z.to_nat 56) with 56%nat. change (56 * 2) with 112.
  assert (length (codeBlock p i) = 56%nat) as Hb by (unfold codeBlock; rewrite length_take, length_drop; lia).
  assert (p = take (56 * i) p ++ codeBlock p i ++ drop 56 (drop (56 * i) p)) as Hp by (unfold codeBlock; by rewrite !take_drop).
  assert (bytes_ok (codeBlock p i)) as Hbok by (by apply Forall_take, Forall_drop).
  assert (length (take (56 * i) p) = (56 * i)%nat) as Hpre by (rewrite length_take; lia).
  rewrite Hp at 1. rewrite slice_Encode by (rewrite ?length_app, ?Hpre, ?Hb; lia). rewrite bind_ok.
  pose proof (blockElements_ok (codeBlock p i) [] [] (words h)) as He. cbn [app length] in He. rewrite Hb in He.
  change (EncodeToString []) with ""%string in He. change (Z.of_nat 0) with 0 in He. rewrite He by (done || by apply Forall_nil || lia).
  rewrite bind_ok, elementWords_ok by done. rewrite (slice_at _ (words h) (blockWords (codeBlock p i)) []) by (rewrite ?app_nil_r; done).
  rewrite bind_ok. replace (112 * Z.of_nat i + 112) with (112 * Z.of_nat (S i)) by lia. apply IH; [done|lia].
Qed.

(** The zeros are written one by one. *)
Lemma padZeros_ok z : forall fuel c, (z <= fuel)%nat -> (Z.of_nat (length c) + Z.of_nat z) mod 56 = 0 ->
  (forall y, 0 <= y < Z.of_nat z -> (Z.of_nat (length c) + y) mod 56 <> 0) ->
  padZeros fuel (EncodeToString c) = Ok (EncodeToString (c ++ replicate z 0)).
Proof.
  induction z as [|z IH]; intros fuel c Hf H0 Hne.
  - destruct fuel; cbn [padZeros replicate]; rewrite slen_Encode, (Z.mul_comm 2), Zmult_mod_distr_r, app_nil_r;
      change (Z.of_nat 0) with 0 in H0; rewrite Z.add_0_r in H0; by rewrite H0.
  - destruct fuel as [|fuel]; [lia|]. cbn [padZeros]. rewrite slen_Encode, (Z.mul_comm 2), Zmult_mod_distr_r.
    specialize (Hne 0 ltac:(lia)) as Hn0. rewrite Z.add_0_r in Hn0. rewrite (proj2 (Z.eqb_neq _ _)) by lia.
    change "00"%string with (EncodeToString [0]). rewrite <- EncodeToString_app. rewrite IH; [by rewrite <- app_assoc|lia|..].
    + rewrite length_app. cbn [length]. rewrite <- H0. f_equal. lia.
    + intros y Hy. rewrite length_app. cbn [length]. replace (Z.of_nat (length c + 1) + y) with (Z.of_nat (length c) + (y + 1)) by lia. apply Hne. lia.
Qed.

Lemma padZeros_code code : padZeros 56 (EncodeToString (code ++ [1])) = Ok (EncodeToString (code ++ [1] ++ replicate (zeros (length code)) 0)).
Proof.
  rewrite (padZeros_ok (zeros (length code))); [by rewrite <- app_assoc|pose proof (zeros_small (length code)); lia|rewrite length_app; apply zeros_full|].
  rewrite length_app. cbn [length]. intros y Hy H0. pose proof (zeros_full (length code)) as Hz. pose proof (zeros_small (length code)).
  apply Z.mod_divide in H0 as [a Ha]; [|lia]. apply Z.mod_divide in Hz as [b Hb]; [|lia]. lia.
Qed.

(** The last byte gets its top bit. *)
Lemma mark_last code : let s := EncodeToString (code ++ [1] ++ replicate (zeros (length code)) 0) in
  exists start last2, str_slice s (slen s - 2) (slen s) = Ok last2 /\ str_slice s 0 (slen s - 2) = Ok start /\
    (start ++ FormatHex (Z.lor (default 0 (ParseHex last2)) 0x80))%string = EncodeToString (padCode code).
Proof.
  cbv zeta. unfold padCode. destruct (zeros (length code)) as [|z].
  - exists (EncodeToString code), (EncodeToString [1]). cbn [replicate]. rewrite app_nil_r, slen_Encode. split_and!.
    + rewrite <- (app_nil_r [1]). apply slice_Encode; rewrite !length_app; cbn [length]; lia.
    + apply (slice_Encode []); [done|]. rewrite length_app. cbn [length app]. lia.
    + rewrite EncodeToString_app. done.
  - exists (EncodeToString (code ++ [1] ++ replicate z 0)), (EncodeToString [0]).
    replace (code ++ [1] ++ replicate (S z) 0) with ((code ++ [1] ++ replicate z 0) ++ [0])
      by (replace (S z) with (z + 1)%nat by lia; by rewrite replicate_add, <- !app_assoc).
    rewrite slen_Encode. split_and!.
    + rewrite <- (app_nil_r [0]). apply slice_Encode; rewrite !length_app; cbn [length]; lia.
    + apply (slice_Encode []); [done|]. rewrite length_app. cbn [length app]. lia.
    + replace (code ++ [1] ++ replicate z 0 ++ [128]) with ((code ++ [1] ++ replicate z 0) ++ [128]) by (by rewrite <- !app_assoc).
      by rewrite (EncodeToString_app (code ++ [1] ++ replicate z 0)).
Qed.

Lemma half_blocks q : 0 < q -> 112 * q < 2 ^ 53 -> Ceil (fdiv (fdiv (of_int (112 * q)) (of_int 2)) (of_int 56)) = q.
Proof.
  intros Hq Hlt. destruct (fdiv_of_int (112 * q) 2) as (K & HK & ->); [lia..|].
  destruct (round_ratio_integer (112 * q) 2 K) as (s & Hs & ->); [lia..|replace (112 * q) with (56 * q * 2) by lia; apply Z.mod_mul; lia|].
  replace (112 * q / 2) with (56 * q) by (replace (112 * q) with (56 * q * 2) by lia; by rewrite Z.div_mul).
  destruct (of_int_exact 56 ltac:(lia)) as (t & Ht & ->). unfold fdiv. rewrite !fnum_neg, !fden_neg by lia.
  pose proof (Z.pow_pos_nonneg 2 s ltac:(lia) Hs). pose proof (Z.pow_pos_nonneg 2 t ltac:(lia) Ht). rewrite Z.sgn_pos, Z.abs_eq by nia.
  replace (1 * (56 * q * 2 ^ s) * 2 ^ t) with (56 * q * (2 ^ s * 2 ^ t)) by lia. replace (2 ^ s * (56 * 2 ^ t)) with (56 * (2 ^ s * 2 ^ t)) by lia.
  destruct (round_ratio_integer (56 * q) 56 (2 ^ s * 2 ^ t)) as (s' & Hs' & ->); [lia..|nia|rewrite Z.mul_comm; apply Z.mod_mul; lia|].
  rewrite Ceil_integer by done. rewrite Z.mul_comm. by apply Z.div_mul.
Qed.

Lemma HashContractBytecodeBigInt_ok code (prefixed : bool) : bytes_ok code -> Z.of_nat (length code) < 2 ^ 50 ->
  HashContractBytecodeBigInt Hash (if prefixed then String "0" (String "x" (EncodeToString code)) else EncodeToString code) =
    Ok (Key_ToBigInt (codeHash code)).
Proof.
  intros Hok Hlen. unfold HashContractBytecodeBigInt.
  assert ((if has0x (if prefixed then String "0" (String "x" (EncodeToString code)) else EncodeToString code)
    then TrimPrefix0x (if prefixed then String "0" (String "x" (EncodeToString code)) else EncodeToString code)
    else (if prefixed then String "0" (String "x" (EncodeToString code)) else EncodeToString code)) = EncodeToString code) as ->.
  { destruct prefixed; [|by rewrite Encode_no0x]. unfold has0x. cbn [String.prefix]. by destruct (EncodeToString code). }
  cbv zeta. rewrite slen_Encode. rewrite (Z.mul_comm 2), Z.mod_mul by lia. cbn [Z.eqb].
  change "01"%string with (EncodeToString [1]). rewrite <- EncodeToString_app, padZeros_code, bind_ok.
  destruct (mark_last code) as (start & last2 & -> & Hst & Hm). rewrite bind_ok, Hst, bind_ok, Hm, slen_Encode.
  pose proof (padCode_length code) as Hpl. pose proof (zeros_full (length code)) as Hz. pose proof (zeros_small (length code)).
  rewrite <- Hpl in Hz. apply Z.mod_divide in Hz as [q Hq]; [|lia]. rewrite Hq. replace (2 * (q * 56)) with (112 * q) by lia.
  change (BYTECODE_ELEMENTS_HASH * BYTECODE_BYTES_ELEMENT) with 56. rewrite half_blocks by lia.
  pose proof (hashBlocks_ok (padCode code) (Z.to_nat q) 0 zeroKey (padCode_ok _ Hok) ltac:(lia)) as Hh. change (112 * Z.of_nat 0) with 0 in Hh.
  rewrite Hh, bind_ok. unfold Key_ToBigInt, codeHash, chain, codeBlocks.
  by replace (length (padCode code) / 56)%nat with (Z.to_nat q) by (apply Nat.div_unique_exact; lia).
Qed.

(** ** The hash of a code determines it *)

(** What is hashed. *)
Fixpoint chainInputs (h : NodeKey) (bs : list (list Z)) : list (list Z * NodeKey) :=
  match bs with [] => [] | b :: bs => (blockWords b, h) :: chainInputs (Hash (blockWords b) h) bs end.

Definition codeInputs (code : list Z) : list (list Z * NodeKey) := chainInputs zeroKey (codeBlocks (padCode code)).

Lemma chainInputs_snoc bs : forall h b, chainInputs h (bs ++ [b]) = chainInputs h bs ++ [(blockWords b, foldl (fun h b => Hash (blockWords b) h) h bs)].
Proof. induction bs as [|b' bs IH]; intros h b; [done|]. cbn [app chainInputs foldl]. by rewrite IH. Qed.

(** Without collisions and zeros the chains are equal only if the codeBlocks are. *)
Lemma chain_inj bs : forall bs', let ins := chainInputs zeroKey bs ++ chainInputs zeroKey bs' in
  (forall x y, x ∈ ins -> y ∈ ins -> Hash (fst x) (snd x) = Hash (fst y) (snd y) -> x = y) ->
  (forall x, x ∈ ins -> Hash (fst x) (snd x) <> zeroKey) -> chain bs = chain bs' -> map blockWords bs = map blockWords bs'.
Proof.
  cbv zeta. induction bs as [|b bs IH] using rev_ind; intros bs' Hcf Hnz Heq; destruct bs' as [|b' bs' _] using rev_ind; [done|..];
    unfold chain in Heq; rewrite ?foldl_snoc in Heq; rewrite ?chainInputs_snoc in Hcf, Hnz.
  - destruct (Hnz (blockWords b', chain bs')); [set_solver|]. by symmetry.
  - destruct (Hnz (blockWords b, chain bs)); [set_solver|]. done.
  - assert ((blockWords b, chain bs) = (blockWords b', chain bs')) as [Hw Hc]%pair_equal_spec by (apply Hcf; [set_solver|set_solver|done]).
    rewrite !map_app, (IH bs'); [cbn [map]; by rewrite Hw| | |done].
    + intros x y Hx Hy. apply Hcf; set_solver.
    + intros x Hx. apply Hnz. set_solver.
Qed.

Lemma be_decode_inj (a b : list Z) : bytes_ok a -> bytes_ok b -> length a = length b -> be_decode a = be_decode b -> a = b.
Proof. intros Ha Hb Hl He. rewrite <- (be_encode_decode a), <- (be_encode_decode b) by done. by rewrite Hl, He. Qed.

(** Lists cut at multiples of [n] are equal if the pieces are. *)
Lemma pieces_eq n k (a b : list Z) : (0 < n)%nat -> length a = (n * k)%nat -> length b = (n * k)%nat ->
  (forall i, (i < k)%nat -> take n (drop (n * i) a) = take n (drop (n * i) b)) -> a = b.
Proof.
  intros Hn Ha Hb Hp. apply list_eq. intros j. destruct (decide (j < n * k)%nat) as [Hj|Hj].
  - specialize (Hp (j / n)%nat ltac:(apply Nat.Div0.div_lt_upper_bound; lia)).
    pose proof (Nat.div_mod_eq j n) as Hd. pose proof (Nat.mod_upper_bound j n ltac:(lia)) as Hm.
    apply (f_equal (fun l => l !! (j mod n)%nat)) in Hp. rewrite !lookup_take_lt, !lookup_drop in Hp by done. by rewrite <- Hd in Hp.
  - by rewrite !lookup_ge_None_2 by lia.
Qed.

Lemma blockWords_inj a b : bytes_ok a -> bytes_ok b -> length a = 56%nat -> length b = 56%nat -> blockWords a = blockWords b -> a = b.
Proof.
  intros Ha Hb La Lb He. apply (pieces_eq 7 8); [lia|done|done|]. intros i Hi. unfold blockWords in He.
  apply (f_equal (fun l => l !! i)) in He. rewrite !list_lookup_fmap, lookup_seq_lt in He by done. injection He as He.
  apply be_decode_inj in He; [by apply (inj reverse)|..].
  - by apply Forall_reverse, Forall_take, Forall_drop.
  - by apply Forall_reverse, Forall_take, Forall_drop.
  - rewrite !length_reverse, !length_take, !length_drop. lia.
Qed.

Lemma blocks_inj p p' : bytes_ok p -> bytes_ok p' -> (exists q, length p = 56 * q)%nat -> (exists q, length p' = 56 * q)%nat ->
  map blockWords (codeBlocks p) = map blockWords (codeBlocks p') -> p = p'.
Proof.
  intros Hp Hp' [q Hq] [q' Hq'] He. unfold codeBlocks in He. rewrite Hq, Hq', !(Nat.mul_comm 56), !Nat.div_mul in He by done.
  assert (q = q') as <- by (apply (f_equal length) in He; by rewrite !length_map, !length_seq in He).
  apply (pieces_eq 56 q); [lia|done|done|]. intros i Hi. apply (f_equal (fun l => l !! i)) in He.
  rewrite !list_lookup_fmap, lookup_seq_lt in He by done. cbn [fmap option_fmap option_map] in He. apply (inj Some) in He.
  assert (forall r, length r = (56 * q)%nat -> length (codeBlock r i) = 56%nat) as Hl by (intros r Hr; unfold codeBlock; rewrite length_take, length_drop; lia).
  apply blockWords_inj in He; [exact He|by apply Forall_take, Forall_drop|by apply Forall_take, Forall_drop|by apply Hl..].
Qed.

Lemma padCode_blocks code : (exists q, length (padCode code) = 56 * q)%nat.
Proof.
  pose proof (padCode_length code) as Hl. pose proof (zeros_full (length code)) as Hz. rewrite <- Hl in Hz.
  apply Z.mod_divide in Hz as [q Hq]; [|lia]. exists (Z.to_nat q). lia.
Qed.

Lemma chain_ok (Hash_range : forall i c, key_ok (Hash i c)) bs : key_ok (chain bs).
Proof.
  destruct bs as [|b bs _] using rev_ind; [by intros [|[|[|[|?]]]] ?; [..|lia]|]. unfold chain. rewrite foldl_snoc. apply Hash_range.
Qed.

(** C19: the hash of a code is a commitment to it.  For codes of bytes, with or without the
    prefix [0x], [HashContractBytecodeBigInt] returns; the results are equal exactly if the codes
    are, as far as the hash does not collide on the codeBlocks of the two padded codes and is not
    zero on them: padding and cutting into words lose nothing. *)
Theorem code_hash_commits (Hash_range : forall i c, key_ok (Hash i c)) code code' (p p' : bool) :
  bytes_ok code -> bytes_ok code' -> Z.of_nat (length code) < 2 ^ 50 -> Z.of_nat (length code') < 2 ^ 50 ->
  let ins := codeInputs code ++ codeInputs code' in
  (forall x y, x ∈ ins -> y ∈ ins -> Hash (fst x) (snd x) = Hash (fst y) (snd y) -> x = y) ->
  (forall x, x ∈ ins -> Hash (fst x) (snd x) <> zeroKey) ->
  exists h h', HashContractBytecodeBigInt Hash (if p then String "0" (String "x" (EncodeToString code)) else EncodeToString code) = Ok h /\
    HashContractBytecodeBigInt Hash (if p' then String "0" (String "x" (EncodeToString code')) else EncodeToString code') = Ok h' /\
    (h = h' <-> code = code').
Proof.
  intros Hc Hc' Hl Hl' ins Hcf Hnz. rewrite !HashContractBytecodeBigInt_ok by done. eexists _, _. split; [done|]. split; [done|].
  split; [|by intros ->]. intros He. apply Key_ToBigInt_inj in He; [|by apply chain_ok..]. apply padCode_inj, blocks_inj;
    [by apply padCode_ok|by apply padCode_ok|apply padCode_blocks|apply padCode_blocks|]. by apply chain_inj.
Qed.
End hash.

(** ** An example *)

Definition sumHash (inp : list Z) (cap : NodeKey) : NodeKey := mkKey (u64 (1 + default 0 (head inp))) (u64 (w0 cap)) 0 0.

Lemma sumHash_range inp cap : key_ok (sumHash inp cap).
Proof. intros [|[|[|[|?]]]] ?; cbn; [apply Z.mod_pos_bound; lia..|lia|lia|lia]. Qed.

Lemma code_hash_commits_witness : exists h h', HashContractBytecodeBigInt sumHash "0x60" = Ok h /\
  HashContractBytecodeBigInt sumHash "61" = Ok h' /\ h <> h'.
Proof.
  destruct (code_hash_commits sumHash sumHash_range [0x60] [0x61] true false) as (h & h' & He & He' & Hiff);
    [by repeat constructor|by repeat constructor|done|done| | |].
  - change (codeInputs sumHash [0x60] ++ codeInputs sumHash [0x61]) with
      [([352; 0; 0; 0; 0; 0; 0; 36028797018963968], zeroKey); ([353; 0; 0; 0; 0; 0; 0; 36028797018963968], zeroKey)].
    intros x y [->|[->|Hx%elem_of_nil]%elem_of_cons]%elem_of_cons [->|[->|Hy%elem_of_nil]%elem_of_cons]%elem_of_cons; done.
  - change (codeInputs sumHash [0x60] ++ codeInputs sumHash [0x61]) with
      [([352; 0; 0; 0; 0; 0; 0; 36028797018963968], zeroKey); ([353; 0; 0; 0; 0; 0; 0; 36028797018963968], zeroKey)].
    intros x [->|[->|Hx%elem_of_nil]%elem_of_cons]%elem_of_cons; done.
  - exists h, h'. split; [exact He|]. split; [exact He'|]. intros Heq%Hiff. done.
Defined.
