(* ===== verification/SmtMdbx.v ===== *)
(** * The node store over the database (smt/pkg/db/mdbx.go)

    [EriDb] keeps the nodes of the tree in tables of a transaction, directly or through a
    batch in memory ([Membatch]).  It obeys the laws the tree relies on, so everything shown
    of the tree holds over it; a batch that is committed leaves the tree in the
    transaction, one that is rolled back leaves the transaction alone. *)
From Stdlib Require Import Ascii.
From stdpp Require Import sorting.
From S2P Require Import Prelude Bytes Hex Kv Etl EtlTheory EtlRuns Membatch MembatchTheory SmtUtils SmtTree SmtDb Smt SmtRefine SmtCreate SmtCreateRuns RetainList SmtRead SmtBatch SmtBatchTheory SmtBatchRuns SmtKeys.

Definition TableSmt : string := "HermezSmt".
Definition TableStats : string := "HermezSmtStats".
Definition TableAccountValues : string := "HermezSmtAccountValues".
Definition TableMetadata : string := "HermezSmtMetadata".
Definition TableHashKey : string := "HermezSmtHashKey".
Definition TableCode : string := "Code".

(** ** Values of nodes as one number (smt/pkg/utils/utils.go) *)

(** A nil element panics. *)
Definition ArrayToScalarBig (array : list (option Z)) : outcome Z :=
  arr ← mapM nonNil array; Ok (foldr (fun v scalar => Z.shiftl scalar 64 + v) 0 arr).

Definition ScalarToNodeValue (scalar : Z) : NodeValue12 :=
  map (fun i => Some (Z.land (Z.shiftr scalar (64 * i)) 0xFFFFFFFFFFFFFFFF)) [0; 1; 2; 3; 4; 5; 6; 7; 8; 9; 10; 11].

(** ** Reading: [EriRoDb] *)

Section reading.
(** [kvTxRo.GetOne] *)
Context (GetOne : string -> list Z -> outcome nilable).

(** A nil result is that of [ConvertHexToBigInt] on what is not a number. *)
Definition Ro_GetLastRoot : outcome (option Z) :=
  data ← GetOne TableStats (bytesOf "lastRoot");
  match data with None => Ok (Some 0) | Some data => Ok (ConvertHexToBigInt (stringOf data)) end.

Definition Ro_GetDepth : outcome Z :=
  data ← GetOne TableStats (bytesOf "depth");
  match data with None => Ok 0 | Some data => index data 0 end.

Definition Ro_Get (key : NodeKey) : outcome NodeValue12 :=
  data ← GetOne TableSmt (bytesOf (hexKey key));
  match data with
  | None => Ok (replicate 12 None)
  | Some data => vConc ← nonNil (ConvertHexToBigInt (stringOf data)); Ok (ScalarToNodeValue vConc)
  end.

Definition Ro_GetAccountValue (key : NodeKey) : outcome NodeValue8 :=
  data ← GetOne TableAccountValues (bytesOf (hexKey key));
  match data with
  | None => Ok (replicate 8 None)
  | Some data => vConc ← nonNil (ConvertHexToBigInt (stringOf data)); Ok (ScalarToNodeValue8 vConc)
  end.

(** [keyConc.Bytes()] *)
Definition bytesKey (key : NodeKey) : list Z := big_bytes (ArrayToScalar (words key)).

Definition Ro_GetKeySource (key : NodeKey) : outcome (list Z) :=
  data ← GetOne TableMetadata (bytesKey key);
  match data with None => Err "key not found" | Some data => Ok data end.

Definition Ro_GetHashKey (key : NodeKey) : outcome NodeKey :=
  data ← GetOne TableHashKey (bytesKey key);
  match data with
  | None => Err "hash key not found"
  | Some data =>
      let na := ScalarToArray (be_decode data) in
      a ← index na 0; b ← index na 1; c ← index na 2; d ← index na 3; Ok (mkKey a b c d)
  end.

Definition Ro_GetCode (codeHash : list Z) : outcome (list Z) :=
  let codeHash := ResizeHashTo32BytesByPrefixingWithZeroes codeHash in
  data ← GetOne TableCode codeHash;
  match data with None => Err "code hash not found" | Some data => Ok data end.
End reading.

(** ** Writing: [EriDb] *)

(** The transaction, and the batch in front of it if one is open: reads and writes go to
    the batch then. *)
Record EriDb (T : Type) := mkEri { kvTx : T; pending : option Mapmutation }.
Arguments mkEri {T}.
Arguments kvTx {T}.
Arguments pending {T}.

Section store.
Context {T : Type} `{Kv T}.

Definition NewEriDb (tx : T) : EriDb T := mkEri tx None.

(** The batch is closed when [OpenBatch] returns; if [quitCh] is nil that closes its channel. *)
Definition OpenBatch (quitCh : option bool) (m : EriDb T) : EriDb T :=
  mkEri (kvTx m) (Some (mm_Close (NewHashBatch quitCh))).

Definition RollbackBatch (m : EriDb T) : EriDb T := mkEri (kvTx m) None.

Definition Eri_GetOne (m : EriDb T) (t : string) (k : list Z) : outcome nilable :=
  match pending m with None => tx_GetOne t k (kvTx m) | Some b => mm_GetOne (Some (kvTx m)) t k b end.

Definition Eri_Put (t : string) (k v : list Z) (m : EriDb T) : outcome (EriDb T) :=
  match pending m with
  | None => tx ← tx_Put t k v (kvTx m); Ok (mkEri tx None)
  | Some b => Ok (mkEri (kvTx m) (Some (mm_Put t k (Some v) b)))
  end.

Definition Eri_DeleteOne (t : string) (k : list Z) (m : EriDb T) : outcome (EriDb T) :=
  match pending m with
  | None => tx ← tx_Delete t k (kvTx m); Ok (mkEri tx None)
  | Some b => Ok (mkEri (kvTx m) (Some (mm_Delete t k b)))
  end.

Definition Eri_SetLastRoot (r : Z) (m : EriDb T) : outcome (EriDb T) :=
  Eri_Put TableStats (bytesOf "lastRoot") (bytesOf (ConvertBigIntToHex (Some r))) m.

(** The key is that of the last root. *)
Definition Eri_SetDepth (depth : Z) (m : EriDb T) : outcome (EriDb T) :=
  Eri_Put TableStats (bytesOf "lastRoot") [depth] m.

Definition Eri_Insert (key : NodeKey) (value : NodeValue12) (m : EriDb T) : outcome (EriDb T) :=
  vConc ← ArrayToScalarBig value;
  Eri_Put TableSmt (bytesOf (hexKey key)) (bytesOf (ConvertBigIntToHex (Some vConc))) m.

Definition Eri_Delete (key : string) (m : EriDb T) : outcome (EriDb T) := Eri_DeleteOne TableSmt (bytesOf key) m.

Definition Eri_DeleteByNodeKey (key : NodeKey) (m : EriDb T) : outcome (EriDb T) :=
  Eri_DeleteOne TableSmt (bytesOf (hexKey key)) m.

Definition Eri_InsertAccountValue (key : NodeKey) (value : NodeValue8) (m : EriDb T) : outcome (EriDb T) :=
  vConc ← ArrayToScalarBig value;
  Eri_Put TableAccountValues (bytesOf (hexKey key)) (bytesOf (ConvertBigIntToHex (Some vConc))) m.

Definition Eri_InsertKeySource (key : NodeKey) (value : list Z) (m : EriDb T) : outcome (EriDb T) :=
  Eri_Put TableMetadata (bytesKey key) value m.

Definition Eri_DeleteKeySource (key : NodeKey) (m : EriDb T) : outcome (EriDb T) :=
  Eri_DeleteOne TableMetadata (bytesKey key) m.

Definition Eri_InsertHashKey (key value : NodeKey) (m : EriDb T) : outcome (EriDb T) :=
  Eri_Put TableHashKey (bytesKey key) (bytesKey value) m.

Definition Eri_DeleteHashKey (key : NodeKey) (m : EriDb T) : outcome (EriDb T) :=
  Eri_DeleteOne TableHashKey (bytesKey key) m.

(** [hex.DecodeString]: pairs of digits. *)
Fixpoint DecodeHexString (s : string) : option (list Z) :=
  match s with
  | EmptyString => Some []
  | String a (String b s) => x ← hexVal a; y ← hexVal b; l ← DecodeHexString s; Some (x * 16 + y :: l)
  | String _ EmptyString => None
  end.

Definition Eri_AddCode (Hash : list Z -> NodeKey -> NodeKey) (code : list Z) (m : EriDb T) : outcome (EriDb T) :=
  codeHash ← HashContractBytecode Hash (EncodeToString code);
  match DecodeHexString (TrimPrefix0x codeHash) with
  | None => Err "encoding/hex: odd length hex string"
  | Some codeHashBytes => Eri_Put TableCode (ResizeHashTo32BytesByPrefixingWithZeroes codeHashBytes) code m
  end.

(** The orders in which the batch visits its tables and keys.  After an error the
    transaction is given up. *)
Definition CommitBatch (tables : gmap string (gmap (list Z) nilable) -> list (string * gmap (list Z) nilable))
    (order : gmap (list Z) nilable -> list (list Z * nilable)) (m : EriDb T) : outcome (EriDb T) :=
  match pending m with
  | None => Ok m
  | Some batch => r ← mm_Flush tables order (Some (kvTx m)) batch; Ok (mkEri (fst (r : T * Mapmutation)) None)
  end.

(** The code table of the store in memory (smt/pkg/db/mem-db.go): the key is the hash as it is printed. *)
Definition Mem_AddCode (Hash : list Z -> NodeKey -> NodeKey) (code : list Z) (m : MemDb) : outcome MemDb :=
  codeHash ← HashContractBytecode Hash (EncodeToString code);
  Ok (mkMemDb (Db m) (DbAccVal m) (DbKeySource m) (DbHashKey m) (<[codeHash := code]> (DbCode m)) (LastRoot m) (Depth m)).

Definition Mem_GetCode (m : MemDb) (codeHash : list Z) : outcome (list Z) :=
  let codeHash := ResizeHashTo32BytesByPrefixingWithZeroes codeHash in
  match DbCode m !! (String "0" (String "x" (EncodeToString codeHash))) with Some s => Ok s | None => Err "key not found" end.

(** What the tree uses; a nil root is dereferenced by whoever asks for it. *)
#[export] Instance EriDb_SmtDb : SmtDb (EriDb T) := {
  db_Get m := Ro_Get (Eri_GetOne m);
  db_Insert := Eri_Insert;
  db_InsertHashKey := Eri_InsertHashKey;
  db_InsertKeySource := Eri_InsertKeySource;
  db_GetDepth m := Ro_GetDepth (Eri_GetOne m);
  db_SetDepth := Eri_SetDepth;
  db_GetLastRoot m := r ← Ro_GetLastRoot (Eri_GetOne m); nonNil r;
  db_SetLastRoot := Eri_SetLastRoot;
}.

#[export] Instance EriDb_batch : BatchDb (EriDb T) := {
  db_DeleteByNodeKey := Eri_DeleteByNodeKey;
  db_DeleteHashKey := Eri_DeleteHashKey;
}.

#[export] Instance EriDb_accounts : AccountDb (EriDb T) := { db_GetAccountValue m := Ro_GetAccountValue (Eri_GetOne m) }.
End store.

(** ** Numbers of words *)

Definition pack (ws : list Z) : Z := foldr (fun v scalar => Z.shiftl scalar 64 + v) 0 ws.

Lemma pack_nonneg ws : Forall word_ok ws -> 0 <= pack ws.
Proof.
  induction 1 as [|w ws [Hw _] _ IH]; [done|]. cbn [pack foldr]. fold (pack ws). rewrite Z.shiftl_mul_pow2 by lia. lia.
Qed.

Lemma pack_lookup ws i w : Forall word_ok ws -> ws !! i = Some w -> Z.land (Z.shiftr (pack ws) (64 * Z.of_nat i)) 0xFFFFFFFFFFFFFFFF = w.
Proof.
  intros Hws. revert i. induction Hws as [|x ws Hx _ IH]; intros i Hi; [done|]. change 0xFFFFFFFFFFFFFFFF with (Z.ones 64) in *.
  cbn [pack foldr]. fold (pack ws). rewrite Z.shiftl_mul_pow2 by lia. unfold word_ok in Hx. destruct i as [|i].
  - injection Hi as ->. change (64 * Z.of_nat 0) with 0. rewrite Z.shiftr_0_r, Z.land_ones, Z.add_comm, Z.mod_add, Z.mod_small by lia. done.
  - specialize (IH i Hi). replace (64 * Z.of_nat (S i)) with (64 + 64 * Z.of_nat i) by lia. rewrite <- Z.shiftr_shiftr by lia.
    rewrite (Z.shiftr_div_pow2 _ 64) by lia. rewrite Z.add_comm, Z.div_add, (Z.div_small x) by lia. exact IH.
Qed.

Lemma ArrayToScalarBig_ok ws : ArrayToScalarBig (map Some ws) = Ok (pack ws).
Proof. unfold ArrayToScalarBig. by rewrite mapM_nonNil, bind_ok. Qed.

Lemma ScalarToNodeValue_ok ws : Forall word_ok ws -> length ws = 12%nat -> ScalarToNodeValue (pack ws) = map Some ws.
Proof.
  intros Hw Hl. pose proof (fun i w => pack_lookup ws i w Hw) as Hp. revert Hp. generalize (pack ws). intros p Hp.
  do 12 (destruct ws as [|? ws]; [done|]). destruct ws; [|done]. unfold ScalarToNodeValue. cbn [map].
  repeat f_equal; [apply (Hp 0%nat)|apply (Hp 1%nat)|apply (Hp 2%nat)|apply (Hp 3%nat)|apply (Hp 4%nat)|apply (Hp 5%nat)|apply (Hp 6%nat)|
    apply (Hp 7%nat)|apply (Hp 8%nat)|apply (Hp 9%nat)|apply (Hp 10%nat)|apply (Hp 11%nat)]; done.
Qed.

Lemma ScalarToNodeValue8_ok ws : Forall word_ok ws -> length ws = 8%nat -> ScalarToNodeValue8 (pack ws) = map Some ws.
Proof.
  intros Hw Hl. pose proof (fun i w => pack_lookup ws i w Hw) as Hp. revert Hp. generalize (pack ws). intros p Hp.
  do 8 (destruct ws as [|? ws]; [done|]). destruct ws; [|done]. unfold ScalarToNodeValue8. cbn [map].
  repeat f_equal; [apply (Hp 0%nat)|apply (Hp 1%nat)|apply (Hp 2%nat)|apply (Hp 3%nat)|apply (Hp 4%nat)|apply (Hp 5%nat)|apply (Hp 6%nat)|
    apply (Hp 7%nat)]; done.
Qed.

Lemma value12_words v : value12_ok v -> exists ws, v = map Some ws /\ length ws = 12%nat /\ Forall word_ok ws.
Proof.
  intros [Hl Hv]. revert Hl. generalize 12%nat. induction Hv as [|o v (z & -> & Hz) _ IH]; intros n Hn; [by exists []|].
  destruct n as [|n]; [done|]. destruct (IH n ltac:(cbn in Hn; lia)) as (ws & -> & Hw & Hok). exists (z :: ws). cbn [length]. split_and!; [done|lia|by apply Forall_cons].
Qed.

Lemma hex_read z : 0 <= z -> ConvertHexToBigInt (stringOf (bytesOf (ConvertBigIntToHex (Some z)))) = Some z.
Proof. intros Hz. rewrite stringOf_bytesOf. by apply (ConvertHex_round_trip (Some z)). Qed.

(** ** The tables behind the store *)

Section laws.
Context {T : Type} `{Kv T} `{!KvLaws T}.

Definition Eri_table (m : EriDb T) (t : string) : table :=
  match pending m with None => tx_table (kvTx m) t | Some b => view b (kvTx m) t end.

Lemma Eri_GetOne_ok m t k : Eri_GetOne m t k = Ok (Eri_table m t !! k).
Proof. unfold Eri_GetOne, Eri_table. destruct (pending m); [apply mm_GetOne_ok|apply law_GetOne]. Qed.

(** Writes leave an open batch open, and then do not touch the transaction. *)
Definition same_mode (m m' : EriDb T) : Prop :=
  match pending m, pending m' with
  | None, None => True
  | Some b, Some b' => kvTx m' = kvTx m /\ quit b' = quit b
  | _, _ => False
  end.

#[local] Instance same_mode_preorder : PreOrder same_mode.
Proof.
  split; unfold same_mode.
  - intros m. by destruct (pending m).
  - intros a b c Hab Hbc. destruct (pending a), (pending b), (pending c); try done. destruct Hab, Hbc. split; congruence.
Qed.

Lemma Eri_Put_ok t k v m : exists m', Eri_Put t k v m = Ok m' /\ same_mode m m' /\
  forall t', Eri_table m' t' = if decide (t' = t) then <[k := v]> (Eri_table m t) else Eri_table m t'.
Proof.
  unfold Eri_Put, same_mode, Eri_table. destruct (pending m) as [b|].
  - eexists. split; [done|]. cbn [pending kvTx]. split; [split; [done|apply mm_Put_quit]|]. intros t'. apply (mm_Put_view t k (Some v)).
  - destruct (law_Put t k v (kvTx m)) as (tx & -> & Ht). eexists. split; [done|]. by cbn [pending kvTx].
Qed.

Lemma Eri_DeleteOne_ok t k m : exists m', Eri_DeleteOne t k m = Ok m' /\ same_mode m m' /\
  forall t', Eri_table m' t' = if decide (t' = t) then delete k (Eri_table m t) else Eri_table m t'.
Proof.
  unfold Eri_DeleteOne, same_mode, Eri_table. destruct (pending m) as [b|].
  - eexists. split; [done|]. cbn [pending kvTx]. split; [split; [done|apply mm_Put_quit]|]. intros t'. apply (mm_Put_view t k None).
  - destruct (law_Delete t k (kvTx m)) as (tx & -> & Ht). eexists. split; [done|]. by cbn [pending kvTx].
Qed.

Lemma string_keys a b : a <> b -> bytesOf a <> bytesOf b.
Proof. intros Hne He. by apply Hne, bytesOf_inj. Qed.

(** The tables hold what is read. *)
Lemma Eri_same_Get m m' k : Eri_table m' TableSmt !! bytesOf (hexKey k) = Eri_table m TableSmt !! bytesOf (hexKey k) -> db_Get m' k = db_Get m k.
Proof. intros He. cbn. unfold Ro_Get. by rewrite !Eri_GetOne_ok, He. Qed.

(** Nothing is written where the depth is looked for. *)
Definition depth_readable (m : EriDb T) : Prop := db_GetDepth m <> Panic.

Lemma depth_kept m m' : Eri_table m' TableStats !! bytesOf "depth" = Eri_table m TableStats !! bytesOf "depth" -> depth_readable m -> depth_readable m'.
Proof. intros He. unfold depth_readable. cbn. unfold Ro_GetDepth. by rewrite !Eri_GetOne_ok, He. Qed.

(** A write to another table than that of the nodes, and not to the depth. *)
Lemma put_elsewhere t k v m : t <> TableSmt -> (t = TableStats -> k <> bytesOf "depth") ->
  exists m', Eri_Put t k v m = Ok m' /\ (forall k', db_Get m' k' = db_Get m k') /\ same_mode m m' /\ (depth_readable m -> depth_readable m').
Proof.
  intros Ht Hk. destruct (Eri_Put_ok t k v m) as (m' & He & Hm & Htab). exists m'. split; [done|]. split; [|split; [done|]].
  - intros k'. apply Eri_same_Get. by rewrite Htab, decide_False.
  - apply depth_kept. rewrite Htab. destruct (decide (TableStats = t)) as [<-|]; [|done]. by rewrite lookup_insert_ne by auto.
Qed.

Lemma delete_elsewhere t k m : t <> TableSmt -> t <> TableStats ->
  exists m', Eri_DeleteOne t k m = Ok m' /\ (forall k', db_Get m' k' = db_Get m k') /\ same_mode m m' /\ (depth_readable m -> depth_readable m').
Proof.
  intros Ht Hk. destruct (Eri_DeleteOne_ok t k m) as (m' & He & Hm & Htab). exists m'. split; [done|]. split; [|split; [done|]].
  - intros k'. apply Eri_same_Get. by rewrite Htab, decide_False.
  - apply depth_kept. by rewrite Htab, decide_False.
Qed.

(** While the tree is at work on a store that was [m0], the depth can be read, and an open
    batch stays open. *)
Section invariant.
Context (m0 : EriDb T).

Definition Eri_ok (m : EriDb T) : Prop := same_mode m0 m /\ depth_readable m.

Lemma Eri_ok_kept m m' : same_mode m m' -> (depth_readable m -> depth_readable m') -> Eri_ok m -> Eri_ok m'.
Proof. intros Hm Hd [H0 H1]. split; [by etrans|auto]. Qed.

#[local] Obligation Tactic := idtac.

#[local] Program Instance Eri_laws : SmtDbLaws (EriDb T) := { db_ok := Eri_ok }.
Next Obligation. by intros d [_ Hd]. Qed.
Next Obligation.
  intros d k v Hk Hv. destruct (value12_words v Hv) as (ws & -> & Hl & Hw). cbn. unfold Eri_Insert. rewrite ArrayToScalarBig_ok, bind_ok.
  destruct (Eri_Put_ok TableSmt (bytesOf (hexKey k)) (bytesOf (ConvertBigIntToHex (Some (pack ws)))) d) as (d' & He & Hm & Htab). exists d'. split; [done|]. split_and!.
  - cbn. unfold Ro_Get. rewrite Eri_GetOne_ok, bind_ok, Htab, decide_True, lookup_insert_eq by done.
    rewrite hex_read by (by apply pack_nonneg). cbn [nonNil]. by rewrite bind_ok, ScalarToNodeValue_ok.
  - intros k' Hk' Hne. apply Eri_same_Get. rewrite Htab, decide_True, lookup_insert_ne by (done || by intros E%bytesOf_inj%hexKey_inj). done.
  - apply Eri_ok_kept; [done|]. apply depth_kept. by rewrite Htab, decide_False.
Qed.
Next Obligation.
  intros d h k. destruct (put_elsewhere TableHashKey (bytesKey h) (bytesKey k) d) as (d' & He & Hg & Hm & Hd); [done..|].
  exists d'. eauto using Eri_ok_kept.
Qed.
Next Obligation.
  intros d k s. destruct (put_elsewhere TableMetadata (bytesKey k) s d) as (d' & He & Hg & Hm & Hd); [done..|].
  exists d'. eauto using Eri_ok_kept.
Qed.
Next Obligation.
  intros d n. destruct (put_elsewhere TableStats (bytesOf "lastRoot") [n] d) as (d' & He & Hg & Hm & Hd); [done..|].
  exists d'. eauto using Eri_ok_kept.
Qed.
Next Obligation.
  intros d r Hr. destruct (put_elsewhere TableStats (bytesOf "lastRoot") (bytesOf (ConvertBigIntToHex (Some r))) d) as (d' & He & Hg & Hm & Hd); [done..|].
  exists d'. split; [done|]. split; [eauto using Eri_ok_kept|]. cbn. unfold Ro_GetLastRoot.
  destruct (Eri_Put_ok TableStats (bytesOf "lastRoot") (bytesOf (ConvertBigIntToHex (Some r))) d) as (d2 & He2 & _ & Htab).
  assert (d2 = d') as -> by congruence. rewrite Eri_GetOne_ok, bind_ok, Htab, decide_True, lookup_insert_eq by done. by rewrite hex_read.
Qed.

#[local] Instance Eri_batch_laws : BatchDbLaws (EriDb T).
Proof.
  split.
  - intros d k Hk. destruct (Eri_DeleteOne_ok TableSmt (bytesOf (hexKey k)) d) as (d' & He & Hm & Htab). exists d'. split; [done|]. split.
    + intros k' Hk' Hne. apply Eri_same_Get. rewrite Htab, decide_True, lookup_delete_ne by (done || by intros E%bytesOf_inj%hexKey_inj). done.
    + apply Eri_ok_kept; [done|]. apply depth_kept. by rewrite Htab, decide_False.
  - intros d k. destruct (delete_elsewhere TableHashKey (bytesKey k) d) as (d' & He & Hg & Hm & Hd); [done..|].
    exists d'. split; [done|]. split; [done|by apply Eri_ok_kept].
Qed.
End invariant.

#[export] Instance Eri_account_laws : AccountLaws (EriDb T).
Proof.
  assert (forall t k v d d' a, t <> TableAccountValues -> Eri_Put t k v d = Ok d' -> db_GetAccountValue d' a = db_GetAccountValue d a) as Hput.
  { intros t k v d d' a Ht He. destruct (Eri_Put_ok t k v d) as (d2 & He2 & _ & Htab). assert (d2 = d') as -> by congruence.
    cbn. unfold Ro_GetAccountValue. rewrite !Eri_GetOne_ok, Htab. by rewrite decide_False. }
  split; cbn.
  - intros d k v d' a He. apply bind_Ok_inv in He as (z & _ & He). by eapply Hput; [|exact He].
  - intros d h k d' a He. by eapply Hput; [|exact He].
  - intros d n d' a He. by eapply Hput; [|exact He].
Qed.
End laws.

(** ** Batches *)

Section batches.
Context {T : Type} `{Kv T} `{!KvLaws T}.
Context (tables : gmap string (gmap (list Z) nilable) -> list (string * gmap (list Z) nilable)).
Context (tables_ok : forall m, tables m ≡ₚ map_to_list m).
Context (order : gmap (list Z) nilable -> list (list Z * nilable)).
Context (order_ok : forall m, order m ≡ₚ map_to_list m).
Context (Hash : list Z -> NodeKey -> NodeKey) (Hash_range : forall i c, key_ok (Hash i c)).

(** The tree is read from the tables. *)
Lemma same_tables_tree (m m' : EriDb T) t : (forall tb, Eri_table m' tb = Eri_table m tb) -> keeps_tree Hash m t -> keeps_tree Hash m' t.
Proof.
  intros Htab [Hr Hs]. split.
  - rewrite <- Hr. cbn. unfold Ro_GetLastRoot. by rewrite !Eri_GetOne_ok, Htab.
  - eapply Forall_impl; [exact Hs|]. intros x Hx. unfold has in *. rewrite <- Hx. apply Eri_same_Get. by rewrite Htab.
Qed.

Lemma open_tables quitCh m tb : Eri_table (OpenBatch quitCh m) tb = tx_table (kvTx m) tb.
Proof. unfold Eri_table, OpenBatch, view. destruct quitCh; cbn; by rewrite lookup_empty, overlay_empty. Qed.

Lemma commit_tables m b : pending m = Some b -> quit b = false -> batch_fits b ->
  exists m', CommitBatch tables order m = Ok m' /\ pending m' = None /\ forall tb, Eri_table m' tb = Eri_table m tb.
Proof.
  intros Hb Hq Hf. unfold CommitBatch, Eri_table. rewrite Hb. destruct (mm_Flush_ok tables tables_ok order order_ok b (kvTx m) Hq Hf) as (tx & -> & Ht).
  rewrite bind_ok. eexists. split; [done|]. by cbn.
Qed.

(** The lengths of what waits in a batch are [int]s. *)
Definition pending_fits (m : EriDb T) : Prop := forall b, pending m = Some b -> batch_fits b.

(** What work on an open batch leaves. *)
Record finished (tx : T) (m : EriDb T) (t : tree) : Prop := {
  finished_rollback : RollbackBatch m = NewEriDb tx;
  finished_tree : keeps_tree Hash m t;
  finished_commit : pending_fits m -> exists m', CommitBatch tables order m = Ok m' /\ pending m' = None /\ keeps_tree Hash m' t;
}.

Lemma represents_finished tx m t : represents (SmtDbLaws0 := Eri_laws (OpenBatch (Some false) (NewEriDb tx))) Hash m t -> finished tx m t.
Proof.
  intros (Hr & Hs & [Hm _]). assert (keeps_tree Hash m t) as Hk by (by split). unfold same_mode in Hm. cbn in Hm. destruct (pending m) as [b|] eqn:Hb; [|done].
  destruct Hm as [Htx Hq]. split; [unfold RollbackBatch, NewEriDb; by rewrite Htx|done|]. intros Hf.
  destruct (commit_tables m b Hb Hq) as (m' & He & Hn & Htab); [by apply Hf|]. exists m'. split; [done|]. split; [done|]. by eapply same_tables_tree.
Qed.

Lemma open_represents tx t : keeps_tree Hash (NewEriDb tx) t -> depth_readable (NewEriDb tx) ->
  represents (SmtDbLaws0 := Eri_laws (OpenBatch (Some false) (NewEriDb tx))) Hash (OpenBatch (Some false) (NewEriDb tx)) t.
Proof.
  intros Hk Hd. destruct (same_tables_tree (NewEriDb tx) (OpenBatch (Some false) (NewEriDb tx)) t) as [Hr Hs]; [intros tb; by rewrite open_tables|done|].
  split; [done|]. split; [done|]. split; [done|]. eapply depth_kept; [|exact Hd]. by rewrite open_tables.
Qed.

Context (orderB : forall V, gmap Z V -> list (Z * V)) (orderB_ok : forall V (m : gmap Z V), orderB V m ≡ₚ map_to_list m).

(** C11: a batch of the tree over the database.  With a channel that is not nil and stays open
    (with a nil one [OpenBatch] closes the channel of the batch, and a commit fails), and with
    progress printed, [InsertBatch] of a batch that is
    not empty and that is a good one ([batch_ok]: no zero is written to an absent key whose
    remaining bits are those of a hash in the branch where its path ends, and the tree does
    not become empty before the last entry), on a store that opened a batch over a transaction
    that holds a tree, returns the root of the updated tree; [RollbackBatch] then leaves the
    transaction as it was, and [CommitBatch] instead, if the lengths of what waits are [int]s
    ([pending_fits]), succeeds and leaves that tree, with that root, in the
    transaction itself. *)
Theorem mdbx_batch_commits cpuNum ops t0 m tx :
  1 <= cpuNum -> ops <> [] -> Forall op_ok ops -> tree_ok t0 -> holds t0 m -> batch_ok Hash t0 ops ->
  keeps_tree Hash (NewEriDb tx) t0 -> depth_readable (NewEriDb tx) ->
  exists t db, InsertBatch Hash false orderB true cpuNum (map fst ops) (values ops) None None (OpenBatch (Some false) (NewEriDb tx)) =
      Some (Ok (th Hash 0 t, db)) /\ tree_ok t /\ holds t (foldl mput m ops) /\ RollbackBatch db = NewEriDb tx /\
    (pending_fits db -> exists db', CommitBatch tables order db = Ok db' /\ pending db' = None /\ keeps_tree Hash db' t).
Proof.
  intros Hcpu Hne Hops Ht Hm Hb Hk Hd.
  destruct (InsertBatch_ok (SmtDbLaws0 := Eri_laws (OpenBatch (Some false) (NewEriDb tx))) (BatchDbLaws0 := Eri_batch_laws _)
    Hash Hash_range orderB orderB_ok true cpuNum ops None None t0 m (OpenBatch (Some false) (NewEriDb tx))) as (db & He & Hr); try done;
    [by left|by apply open_represents|].
  exists (foldl tput t0 ops), db. split; [exact He|]. destruct (tputs_ok ops t0 m Hops Ht Hm) as [Ht1 Hm1]. apply represents_finished in Hr as [Hrb _ Hc]. done.
Qed.
End batches.

(** ** Codes *)

Lemma Decode_even n z : 0 <= z -> DecodeHexString (hexDigits (2 * n) z) = Some (be_encode n z).
Proof.
  intros Hz. induction n as [|n IH]; [done|]. replace (2 * S n)%nat with (S (S (2 * n))) by lia. cbn [hexDigits DecodeHexString].
  rewrite !hexVal_hexDigit by (apply Z.mod_pos_bound; lia). cbn [mbind option_bind]. rewrite IH. cbn [mbind option_bind be_encode]. do 2 f_equal.
  replace (Z.of_nat (S (2 * n))) with (Z.of_nat (2 * n) + 1) by lia. rewrite Z.pow_add_r, <- Z.div_div by lia. change (16 ^ 1) with 16.
  replace (16 ^ Z.of_nat (2 * n)) with (256 ^ Z.of_nat n) by (change 256 with (16 ^ 2); rewrite <- Z.pow_mul_r by lia; f_equal; lia).
  set (q := z / 256 ^ Z.of_nat n). change 256 with (16 * 16). rewrite Z.rem_mul_r by lia. lia.
Qed.

Lemma Decode_odd n z : 0 <= z -> DecodeHexString (hexDigits (S (2 * n)) z) = None.
Proof.
  intros Hz. induction n as [|n IH]; [done|]. replace (S (2 * S n)) with (S (S (S (2 * n)))) by lia. remember (S (2 * n)) as k. cbn [hexDigits DecodeHexString].
  rewrite !hexVal_hexDigit by (apply Z.mod_pos_bound; lia). cbn [mbind option_bind]. by rewrite IH.
Qed.

Lemma Resize_encode n z : (n <= 32)%nat -> 0 <= z < 256 ^ Z.of_nat n -> ResizeHashTo32BytesByPrefixingWithZeroes (be_encode n z) = be_encode 32 z.
Proof.
  intros Hn Hz. unfold ResizeHashTo32BytesByPrefixingWithZeroes. rewrite be_encode_length. destruct (Z.leb_spec (32 - Z.of_nat n) 0); [by replace n with 32%nat by lia|].
  apply be_decode_inj.
  - apply bytes_ok_app. split; [by apply Forall_replicate|apply be_encode_ok].
  - apply be_encode_ok.
  - rewrite length_app, length_replicate, !be_encode_length. lia.
  - rewrite be_decode_app. assert (forall k, be_decode (replicate k 0) = 0) as ->.
    { induction k as [|k IH]; [done|]. cbn [replicate]. rewrite be_decode_cons, IH. lia. }
    rewrite !be_decode_encode_small; [lia|..|lia]. pose proof (Z.pow_le_mono_r 256 (Z.of_nat n) (Z.of_nat 32) ltac:(lia) ltac:(lia)). lia.
Qed.

Section codes.
Context {T : Type} `{Kv T} `{!KvLaws T}.
Context (Hash : list Z -> NodeKey -> NodeKey) (Hash_range : forall i c, key_ok (Hash i c)).

(** C37: storing a code.  [AddCode] stores a code under its hash, where [GetCode] finds it, if
    the hash has an even number of hexadecimal digits; otherwise it fails, because the
    digits do not make bytes. *)
Theorem code_stored code (m : EriDb T) : bytes_ok code -> Z.of_nat (length code) < 2 ^ 50 ->
  let h := Key_ToBigInt (codeHash Hash code) in
  if Nat.even (String.length (FormatHex h)) then
    exists m', Eri_AddCode Hash code m = Ok m' /\ Ro_GetCode (Eri_GetOne m') (be_encode 32 h) = Ok code
  else Eri_AddCode Hash code m = Err "encoding/hex: odd length hex string".
Proof.
  intros Hok Hlen h. assert (0 <= h < 256 ^ Z.of_nat 32) as Hh by (change (256 ^ Z.of_nat 32) with (2 ^ 256); by apply Key_ToBigInt_range, chain_ok).
  unfold Eri_AddCode, HashContractBytecode. rewrite (HashContractBytecodeBigInt_ok Hash code false) by done. rewrite bind_ok. fold h. unfold ConvertBigIntToHex.
  rewrite (proj2 (Z.ltb_ge h 0)) by lia. rewrite bind_ok. change (TrimPrefix0x (String "0" (String "x" (FormatHex h)))) with (FormatHex h).
  pose proof (FormatHex_fits h ltac:(lia)) as Hfit. unfold FormatHex in *. set (n := if h =? 0 then 1%nat else Z.to_nat (Z.log2 h / 4 + 1)) in *. rewrite hexDigits_length.
  assert (n <= 64)%nat as Hn64.
  { unfold n. destruct (Z.eqb_spec h 0); [lia|]. pose proof (Z.log2_lt_pow2 h 256 ltac:(lia)) as [Hl _]. specialize (Hl ltac:(change (2 ^ 256) with (256 ^ Z.of_nat 32); lia)).
    pose proof (Z.div_le_upper_bound (Z.log2 h) 4 63 ltac:(lia)). pose proof (Z.div_lt_upper_bound (Z.log2 h) 4 64 ltac:(lia) ltac:(lia)). lia. }
  destruct (Nat.even n) eqn:He.
  - apply Nat.even_spec in He as [k Hk]. rewrite Hk, Decode_even by lia.
    rewrite Resize_encode by (rewrite Hk in Hfit; replace (16 ^ Z.of_nat (2 * k)) with (256 ^ Z.of_nat k) in Hfit
      by (change 256 with (16 ^ 2); rewrite <- Z.pow_mul_r by lia; f_equal; lia); lia).
    destruct (Eri_Put_ok TableCode (be_encode 32 h) code m) as (m' & Hp & _ & Htab). exists m'. split; [done|]. unfold Ro_GetCode.
    rewrite <- (be_encode_length 32 h) in Hn64 |- *. unfold ResizeHashTo32BytesByPrefixingWithZeroes. rewrite be_encode_length. cbn [Z.leb].
    rewrite Eri_GetOne_ok, bind_ok, Htab, decide_True, lookup_insert_eq by done. done.
  - assert (Nat.odd n = true) as [k Hk]%Nat.odd_spec by (by rewrite <- Nat.negb_even, He). rewrite Hk. replace (2 * k + 1)%nat with (S (2 * k)) by lia.
    by rewrite Decode_odd by lia.
Qed.

Lemma Encode_digits n z : 0 <= z -> EncodeToString (be_encode n z) = hexDigits (2 * n) z.
Proof.
  intros Hz. induction n as [|n IH]; [done|]. replace (2 * S n)%nat with (S (S (2 * n))) by lia. cbn [be_encode EncodeToString].
  rewrite IH. remember (hexDigits (2 * n) z) as rest eqn:Hrest. cbn [hexDigits]. rewrite <- Hrest, !str_app_cons, str_app_nil. clear.
  change (Z.of_nat 1) with 1. change (Z.of_nat 0) with 0. rewrite Z.pow_1_r, Z.pow_0_r, Z.div_1_r.
  replace (Z.of_nat (S (2 * n))) with (Z.of_nat (2 * n) + 1) by lia. rewrite Z.pow_add_r, <- Z.div_div by lia. change (16 ^ 1) with 16.
  replace (16 ^ Z.of_nat (2 * n)) with (256 ^ Z.of_nat n) by (change 256 with (16 ^ 2); rewrite <- Z.pow_mul_r by lia; f_equal; lia).
  set (q := z / 256 ^ Z.of_nat n). assert (q mod 256 / 16 mod 16 = q / 16 mod 16) as ->.
  { change 256 with (16 * 16). rewrite Z.rem_mul_r, (Z.mul_comm 16 (_ mod _)), Z.div_add, (Z.div_small (q mod 16)) by (try apply Z.mod_pos_bound; lia).
    by rewrite Z.add_0_l, Z.mod_mod by lia. }
  assert ((q mod 256) mod 16 = q mod 16) as -> by (apply Z.mod_mod_divide; by exists 16). done.
Qed.

(** The code table in memory is keyed by hexadecimal strings: a code is found under its hash
    exactly if the hash has all its 64 digits. *)
Lemma mem_code_stored code (m : MemDb) : bytes_ok code -> Z.of_nat (length code) < 2 ^ 50 ->
  let h := Key_ToBigInt (codeHash Hash code) in
  exists m', Mem_AddCode Hash code m = Ok m' /\
    (String.length (FormatHex h) = 64%nat -> Mem_GetCode m' (be_encode 32 h) = Ok code) /\
    (String.length (FormatHex h) <> 64%nat -> Mem_GetCode m' (be_encode 32 h) = Mem_GetCode m (be_encode 32 h)).
Proof.
  intros Hok Hlen h. assert (0 <= h < 256 ^ Z.of_nat 32) as Hh by (change (256 ^ Z.of_nat 32) with (2 ^ 256); by apply Key_ToBigInt_range, chain_ok).
  unfold Mem_AddCode, HashContractBytecode. rewrite (HashContractBytecodeBigInt_ok Hash code false) by done. rewrite bind_ok. fold h. unfold ConvertBigIntToHex.
  rewrite (proj2 (Z.ltb_ge h 0)), bind_ok by lia. eexists. split; [done|]. unfold Mem_GetCode. cbn [DbCode].
  unfold ResizeHashTo32BytesByPrefixingWithZeroes. rewrite be_encode_length. change (32 - Z.of_nat 32 <=? 0) with true. cbv iota zeta. rewrite Encode_digits by lia. split.
  - intros Hl. unfold FormatHex in *. rewrite hexDigits_length in Hl. rewrite Hl. by rewrite lookup_insert_eq.
  - intros Hl. rewrite lookup_insert_ne; [done|]. intros [= He]. apply Hl. rewrite He. reflexivity.
Qed.
End codes.

(** ** What goes wrong *)

Section wrong.
Context {T : Type} `{Kv T} `{!KvLaws T}.

(** The depth is written over the last root, and not found where it is looked for. *)
Lemma depth_overwrites_root n (m : EriDb T) : exists m', Eri_SetDepth n m = Ok m' /\
  Ro_GetLastRoot (Eri_GetOne m') = Ok (ConvertHexToBigInt (stringOf [n])) /\ Ro_GetDepth (Eri_GetOne m') = Ro_GetDepth (Eri_GetOne m).
Proof.
  destruct (Eri_Put_ok TableStats (bytesOf "lastRoot") [n] m) as (m' & He & _ & Htab). exists m'. split; [done|].
  unfold Ro_GetLastRoot, Ro_GetDepth. rewrite !Eri_GetOne_ok, Htab, decide_True, lookup_insert_eq, lookup_insert_ne by done. done.
Qed.

Context (tables : gmap string (gmap (list Z) nilable) -> list (string * gmap (list Z) nilable)).
Context (tables_ok : forall m, tables m ≡ₚ map_to_list m).
Context (order : gmap (list Z) nilable -> list (list Z * nilable)).
Context (order_ok : forall m, order m ≡ₚ map_to_list m).

(** A batch opened without a channel cannot be committed once something is written. *)
Lemma nil_channel_commit t k v (m : EriDb T) : fits (Some k) -> fits (Some v) ->
  exists m', Eri_Put t k v (OpenBatch None m) = Ok m' /\ CommitBatch tables order m' = Err "stopped".
Proof.
  intros Hk Hv. eexists. split; [done|]. unfold CommitBatch. cbn [pending].
  assert (puts (mm_Put t k (Some v) (mm_Close (NewHashBatch None))) = {[t := {[k := Some v]}]}) as Hp by (rewrite mm_Put_puts; reflexivity).
  rewrite mm_Flush_stopped; [done|done|done|by destruct (mm_Put_quit t k (Some v) (mm_Close (NewHashBatch None))) as [-> _]|..].
  - intros t' b k' v' Hb Hb'. rewrite Hp in Hb. apply lookup_singleton_Some in Hb as [_ <-]. by apply lookup_singleton_Some in Hb' as [<- <-].
  - rewrite Hp. apply map_non_empty_singleton.
  - intros t' b Hb. rewrite Hp in Hb. apply lookup_singleton_Some in Hb as [_ <-]. apply map_non_empty_singleton.
Qed.
End wrong.

(** ** Examples *)

Definition batch_fitsb (m : Mapmutation) : bool :=
  forallb (fun tb => forallb (fun kv => (Z.of_nat (length (fst kv)) <? 2 ^ 63) && (lenOf (snd kv) <? 2 ^ 63)) (map_to_list (snd tb))) (map_to_list (puts m)).

Lemma batch_fitsb_ok m : batch_fitsb m = true -> batch_fits m.
Proof.
  unfold batch_fitsb. rewrite forallb_forall. intros Hall t b k v Ht Hk. specialize (Hall (t, b)). rewrite forallb_forall in Hall.
  specialize (Hall ltac:(by apply list_elem_of_In, elem_of_map_to_list) (k, v) ltac:(by apply list_elem_of_In, elem_of_map_to_list)).
  apply andb_true_iff in Hall as [H1%Z.ltb_lt H2%Z.ltb_lt]. done.
Qed.

Definition first_batch : list (NodeKey * list Z) := [(example_key 1, example_value 10)].

Lemma first_batch_ok : Forall op_ok first_batch.
Proof. apply Forall_singleton, example_op_ok; lia. Qed.

Lemma empty_tx_keeps : keeps_tree toyHash (NewEriDb (∅ : MemKv)) E.
Proof. split; [done|by apply Forall_nil]. Qed.

(** The first key of a tree. *)
Lemma mdbx_batch_commits_witness : exists t db db',
  InsertBatch toyHash false anyOrder true 1 (map fst first_batch) (values first_batch) None None (OpenBatch (Some false) (NewEriDb (∅ : MemKv))) =
    Some (Ok (th toyHash 0 t, db)) /\ CommitBatch anyTables anyKeys db = Ok db' /\ keeps_tree toyHash db' t /\
  tget 0 (example_key 1) t = Some (example_value 10).
Proof.
  destruct E_ok as [Ht Hh].
  destruct (mdbx_batch_commits anyTables anyTables_ok anyKeys anyKeys_ok toyHash toyHash_range anyOrder anyOrder_ok 1 first_batch E ∅ ∅
    ltac:(lia) ltac:(done) first_batch_ok Ht Hh) as (t & db & Hi & _ & Hm & _ & Hc);
    [apply batch_okb_ok; vm_compute; reflexivity|apply empty_tx_keeps|done|].
  destruct Hc as (db' & Hc & _ & Hk).
  - intros b Hb. apply batch_fitsb_ok.
    assert (match InsertBatch toyHash false anyOrder true 1 (map fst first_batch) (values first_batch) None None (OpenBatch (Some false) (NewEriDb (∅ : MemKv))) with
      Some (Ok (_, db)) => match pending db with Some b => batch_fitsb b | None => false end | _ => false end = true) as He by (vm_compute; reflexivity).
    by rewrite Hi, Hb in He.
  - exists t, db, db'. split; [exact Hi|]. split; [exact Hc|]. split; [exact Hk|]. rewrite !Hm. vm_compute. reflexivity.
Defined.

(** A hash of three digits, and one of fourteen. *)
Lemma code_stored_witness : Eri_AddCode sumHash [0x60] (NewEriDb (∅ : MemKv)) = Err "encoding/hex: odd length hex string" /\
  exists m', Eri_AddCode sumHash [1; 2; 3; 4; 5; 6; 0x60] (NewEriDb (∅ : MemKv)) = Ok m'.
Proof.
  split; [exact (code_stored sumHash sumHash_range [0x60] (NewEriDb (∅ : MemKv)) ltac:(by repeat constructor) ltac:(done))|].
  destruct (code_stored sumHash sumHash_range [1; 2; 3; 4; 5; 6; 0x60] (NewEriDb (∅ : MemKv)) ltac:(by repeat constructor) ltac:(done)) as (m' & Hc & _).
  exists m'. exact Hc.
Defined.
