(* ===== verification/SmtEntity.v ===== *)
(** * Accounts, storage and code in the tree (smt/pkg/smt/entity_storage.go, smt_state_reader.go)

    The state of the chain is kept in the sparse Merkle tree: balance, nonce, code hash and
    code length of every account, and the values of its storage, each under a key of its own
    ([SmtKeys]).  [SetStorage] writes the changes of many blocks in one batch; the readers
    of accounts go down the tree.  Addresses are printed with a checksum
    (erigon-lib/common/address.go), for which Keccak is a parameter. *)
From Stdlib Require Import Ascii.
From stdpp Require Import sorting.
From S2P Require Import Prelude Bytes Hex Kv Etl EtlTheory EtlRuns Membatch MembatchTheory SmtUtils SmtTree SmtDb Smt SmtRefine SmtCreate SmtCreateRuns RetainList SmtRead SmtBatch SmtBatchTheory SmtBatchRuns SmtKeys SmtMdbx.

(** ** Addresses *)

Section addresses.
Context (keccak : list Z -> list Z).

(** Twenty bytes. *)
Definition Address : Type := list Z.

Definition checksumChar (hash : list Z) (i : nat) (c : ascii) : outcome ascii :=
  hashByte ← index hash (Z.of_nat i / 2);
  let hashByte := if Nat.even i then Z.shiftr hashByte 4 else Z.land hashByte 0xf in
  Ok (if (57 <? Z.of_nat (nat_of_ascii c)) && (7 <? hashByte) then ascii_of_nat (nat_of_ascii c - 32) else c).

(** The digits after [0x], from the [i]-th on. *)
Fixpoint checksumFrom (hash : list Z) (i : nat) (buf : string) : outcome string :=
  match buf with
  | EmptyString => Ok EmptyString
  | String c buf => c ← checksumChar hash i c; buf ← checksumFrom hash (S i) buf; Ok (String c buf)
  end.

(** [Address.checksumHex]; [Hex] and [String] are the same. *)
Definition checksumHex (a : Address) : outcome string :=
  let buf := EncodeToString a in
  buf ← checksumFrom (keccak (bytesOf buf)) 0 buf;
  Ok (String "0" (String "x" buf)).

(** [common.BigToAddress] and [common.BigToHash] as numbers: what is too long loses its first bytes. *)
Definition BigToAddress (b : Z) : Z := Z.abs b mod 2 ^ 160.
Definition BigToHash (b : Z) : Z := Z.abs b mod 2 ^ 256.

Definition ConvertHexToAddress (hex : string) : outcome Z :=
  bigInt ← nonNil (ConvertHexToBigInt hex); Ok (BigToAddress bigInt).
End addresses.

(** [hexutility.Encode], the string of a hash. *)
Definition Hash_String (h : list Z) : string := String "0" (String "x" (EncodeToString h)).

Record Account := mkAccount {
  Initialised : bool;
  Nonce : Z;
  Balance : Z;
  Root : list Z;
  CodeHash : list Z;
  Incarnation : Z;
  PrevIncarnation : Z;
}.

(** [nil] if it is not a number. *)
Definition convertStringToBigInt (v : string) : option Z :=
  if has0x v then ParseHex (TrimPrefix0x v) else ParseDec v.

(** What the writing of accounts needs of the store besides [SmtDb]. *)
Class KeySourceDb (D : Type) := {
  db_DeleteKeySource : NodeKey -> D -> outcome D;
}.

#[export] Instance MemDb_sources : KeySourceDb MemDb := { db_DeleteKeySource := Mem_DeleteKeySource }.
#[export] Instance EriDb_sources {T} `{Kv T} : KeySourceDb (EriDb T) := { db_DeleteKeySource := Eri_DeleteKeySource }.

(** ** Writing entry by entry *)

Section entities.
Context {D : Type} `{SmtDb D} `{BatchDb D} `{KeySourceDb D}.
Context (keccak : list Z -> list Z) (Hash : list Z -> NodeKey -> NodeKey) (noSaveOnInsert : bool).

(** An entry of an account: the key, the value, and where the key comes from. *)
Definition setEntry (key : NodeKey) (value : Z) (t : Z) (ethAddr : string) (d : D) : outcome (SMTResponse * D) :=
  rd ← InsertKA Hash noSaveOnInsert key value d;
  let '(response, d) := rd : SMTResponse * D in
  addr ← ConvertHexToAddress ethAddr;
  d ← db_InsertKeySource key (EncodeKeySource t addr 0) d;
  Ok (response, d).

Definition SetAccountBalance (ethAddr : string) (balance : Z) (d : D) : outcome (Z * D) :=
  keyBalance ← KeyEthAddrBalance Hash ethAddr;
  rd ← setEntry keyBalance balance KEY_BALANCE ethAddr d;
  Ok (Key_ToBigInt (NewRootScalar (fst (rd : SMTResponse * D))), snd rd).

Definition SetAccountNonce (ethAddr : string) (nonce : Z) (d : D) : outcome (Z * D) :=
  keyNonce ← KeyEthAddrNonce Hash ethAddr;
  rd ← setEntry keyNonce nonce KEY_NONCE ethAddr d;
  Ok (Key_ToBigInt (NewRootScalar (fst (rd : SMTResponse * D))), snd rd).

Definition SetAccountState (ethAddr : string) (balance nonce : Z) (d : D) : outcome (Z * D) :=
  r ← SetAccountBalance ethAddr balance d;
  SetAccountNonce ethAddr nonce (snd (r : Z * D)).

Definition SetAccountStorage (addr : Address) (acc : option Account) (d : D) : outcome D :=
  ethAddr ← checksumHex keccak addr;
  r ← match acc with
      | Some acc => SetAccountState ethAddr (Balance acc) (Nonce acc) d
      | None => SetAccountState ethAddr 0 0 d
      end;
  Ok (snd (r : Z * D)).

Definition SetContractBytecode (ethAddr bytecode : string) (d : D) : outcome D :=
  keyContractCode ← KeyContractCode Hash ethAddr;
  keyContractLength ← KeyContractLength Hash ethAddr;
  bl ← convertBytecodeToBigInt Hash bytecode;
  let '(bi, bytecodeLength) := bl : Z * Z in
  rd ← setEntry keyContractCode bi SC_CODE ethAddr d;
  rd ← setEntry keyContractLength bytecodeLength SC_LENGTH ethAddr (snd (rd : SMTResponse * D));
  Ok (snd (rd : SMTResponse * D)).

(** ** The storage of a contract *)

Definition calcHashVal (v : string) : outcome (NodeValue8 * NodeKey) :=
  val ← nonNil (convertStringToBigInt v);
  value ← NodeValue8FromBigIntArray (map Some (ScalarToArrayBig val));
  Ok (value, Hash (ToUintArray value) BranchCapacity).

(** The values and hashes of the keys, the keys without a value left out. *)
Fixpoint calcAll (storage : gmap string string) (keys : list string) : outcome (list (string * (NodeValue8 * NodeKey))) :=
  match keys with
  | [] => Ok []
  | k :: keys =>
      let v := default EmptyString (storage !! k) in
      if String.eqb v EmptyString then calcAll storage keys
      else ch ← calcHashVal v; rest ← calcAll storage keys; Ok ((k, ch) :: rest)
  end.

(** The keys of goroutine [cpuI]: every [cpuNum]-th. *)
Definition cpuKeys (cpuNum cpuI : nat) (keys : list string) : list string :=
  omap (fun j => if decide (j mod cpuNum = cpuI)%nat then keys !! j else None) (seq 0 (length keys)).

(** One goroutine writes its results into an array of a fixed length. *)
Definition cpuShare (storage : gmap string string) (cpuNum : nat) (keys : list string) (cpuI : nat)
    : outcome (list (string * (NodeValue8 * NodeKey))) :=
  es ← calcAll storage (cpuKeys cpuNum cpuI keys);
  let operationsPerCpu := (length keys / cpuNum + length keys mod cpuNum)%nat in
  if decide (operationsPerCpu < length es)%nat then Panic
  else Ok (filter (fun e => fst e <> EmptyString) es).

Definition calcStorage (cpuNum : nat) (storage : gmap string string) (keys : list string)
    : outcome (list (string * (NodeValue8 * NodeKey))) :=
  if decide (100 < size storage)%nat then
    if decide (cpuNum = 0%nat) then Panic else
    shares ← mapM (cpuShare storage cpuNum keys) (seq 0 cpuNum); Ok (concat shares)
  else calcAll storage keys.

(** [for k := range *storage] of [InsertStorage], from the root on; a key without a value has none in [chm]. *)
Fixpoint insertStorageKeys (ethAddr : string) (add : list Z) (chm : gmap string (NodeValue8 * NodeKey)) (keys : list string)
    (root : NodeKey) (d : D) : outcome (NodeKey * D) :=
  match keys with
  | [] => Ok (root, d)
  | k :: keys =>
      keyStoragePosition ← KeyContractStorage Hash add k;
      vh ← nonNil (chm !! k);
      rd ← insert Hash noSaveOnInsert keyStoragePosition (fst vh) (snd vh) root d;
      let '(smtr, d) := rd : SMTResponse * D in
      sp ← nonNil (StrValToBigInt k);
      addr ← ConvertHexToAddress ethAddr;
      d ← db_InsertKeySource keyStoragePosition (EncodeKeySource SC_STORAGE addr (BigToHash sp)) d;
      insertStorageKeys ethAddr add chm keys (NewRootScalar smtr) d
  end.

(** The root of the response.  The channel of the progress is nil; [keys] is the order in which
    the map is visited. *)
Definition InsertStorage (ethAddr : string) (keys : list string) (chm : gmap string (NodeValue8 * NodeKey)) (d : D)
    : outcome (NodeKey * D) :=
  a ← nonNil (ConvertHexToBigInt ethAddr);
  or ← getLastRoot d;
  rd ← insertStorageKeys ethAddr (ScalarToArrayBig a) chm keys or d;
  let '(root, d) := rd : NodeKey * D in
  d ← setLastRoot root d;
  Ok (root, d).

(** [keys] and [keys'] are the orders in which the map is visited the two times. *)
Definition SetContractStorage (cpuNum : nat) (ethAddr : string) (storage : gmap string string) (keys keys' : list string) (d : D)
    : outcome (Z * D) :=
  chs ← calcStorage cpuNum storage keys;
  rd ← InsertStorage ethAddr keys' (list_to_map chs) d;
  Ok (Key_ToBigInt (fst (rd : NodeKey * D)), snd rd).

(** ** Writing many changes at once *)

Definition InsertKeySource (nodeKey : NodeKey) (key : Z) (accountAddr : Address) (storagePosition : Z) (d : D) : outcome D :=
  db_InsertKeySource nodeKey (EncodeKeySource key (be_decode accountAddr) storagePosition) d.

Definition DeleteKeySource (nodeKey : NodeKey) (d : D) : outcome D := db_DeleteKeySource nodeKey d.

Definition appendToValuesBatchStorageBigInt (valuesBatchStorage : list NodeValue8) (value : Z) : outcome (list NodeValue8 * bool) :=
  nodeValue ← NodeValue8FromBigInt value;
  Ok (valuesBatchStorage ++ [nodeValue], Value8_IsZero nodeValue).

(** What the three loops build: [keysBatchStorage], [valuesBatchStorage] and the store. *)
Record Gathering := mkGathering { keysBatchStorage : list NodeKey; valuesBatchStorage : list NodeValue8; g_db : D }.

(** One entry of the batch; [position] is computed only for a value that is not zero. *)
Definition gather (key : NodeKey) (value : Z) (t : Z) (addr : Address) (position : outcome Z) (g : Gathering) : outcome Gathering :=
  let keys := keysBatchStorage g ++ [key] in
  vd ← appendToValuesBatchStorageBigInt (valuesBatchStorage g) value;
  let '(values, isDelete) := vd : list NodeValue8 * bool in
  d ← (if negb isDelete then hash ← position; InsertKeySource key t addr hash (g_db g) else DeleteKeySource key (g_db g));
  Ok (mkGathering keys values d).

Definition gatherAccount (addr : Address) (acc : option Account) (g : Gathering) : outcome Gathering :=
  ethAddr ← checksumHex keccak addr;
  keyBalance ← KeyEthAddrBalance Hash ethAddr;
  keyNonce ← KeyEthAddrNonce Hash ethAddr;
  let balance := match acc with Some acc => Balance acc | None => 0 end in
  let nonce := match acc with Some acc => Nonce acc | None => 0 end in
  g ← gather keyBalance balance KEY_BALANCE addr (Ok 0) g;
  gather keyNonce nonce KEY_NONCE addr (Ok 0) g.

Definition gatherCode (addr : Address) (code : string) (g : Gathering) : outcome Gathering :=
  ethAddr ← checksumHex keccak addr;
  keyContractCode ← KeyContractCode Hash ethAddr;
  keyContractLength ← KeyContractLength Hash ethAddr;
  bl ← convertBytecodeToBigInt Hash code;
  let '(bi, bytecodeLength) := bl : Z * Z in
  g ← gather keyContractCode bi SC_CODE addr (Ok 0) g;
  gather keyContractLength bytecodeLength SC_LENGTH addr (Ok 0) g.

Fixpoint gatherSlots (addr : Address) (ethAddrBigIntArray : list Z) (storage : list (string * string)) (g : Gathering) : outcome Gathering :=
  match storage with
  | [] => Ok g
  | (k, v) :: storage =>
      keyStoragePosition ← KeyContractStorage Hash ethAddrBigIntArray k;
      valueBigInt ← nonNil (convertStringToBigInt v);
      g ← gather keyStoragePosition valueBigInt SC_STORAGE addr (sp ← nonNil (StrValToBigInt k); Ok (BigToHash sp)) g;
      gatherSlots addr ethAddrBigIntArray storage g
  end.

Definition gatherStorage (addr : Address) (storage : list (string * string)) (g : Gathering) : outcome Gathering :=
  ethAddr ← checksumHex keccak addr;
  ethAddrBigInt ← nonNil (ConvertHexToBigInt ethAddr);
  gatherSlots addr (ScalarToArrayBig ethAddrBigInt) storage g.

(** A loop over one of the maps: the context is asked before every round. *)
Fixpoint changesLoop {A} (done : nat -> bool) (body : Address -> A -> Gathering -> outcome Gathering) (changes : list (Address * A))
    (i : nat) (g : Gathering) : outcome Gathering :=
  match changes with
  | [] => Ok g
  | (addr, c) :: changes =>
      if done i then Err "Context done" else g ← body addr c g; changesLoop done body changes (S i) g
  end.

(** The maps of the changes, in the orders in which they are visited. *)
Record Changes := mkChanges {
  accChanges : list (Address * option Account);
  codeChanges : list (Address * string);
  storageChanges : list (Address * list (string * string));
}.

Definition gatherAll (ctxDone : nat -> nat -> bool) (c : Changes) (d : D) : outcome Gathering :=
  g ← changesLoop (ctxDone 0%nat) gatherAccount (accChanges c) 0 (mkGathering [] [] d);
  g ← changesLoop (ctxDone 1%nat) gatherCode (codeChanges c) 0 g;
  changesLoop (ctxDone 2%nat) gatherStorage (storageChanges c) 0 g.

Definition noChanges (c : Changes) : bool :=
  bool_decide (storageChanges c = []) && bool_decide (accChanges c = []) && bool_decide (codeChanges c = []).

(** [None] if the batch does not return.  [ctxDone] says in which rounds of the loops the context
    is done; the batch itself runs to its end. *)
Definition SetStorage (order : forall V, gmap Z V -> list (Z * V)) (cpuNum : Z) (ctxDone : nat -> nat -> bool) (c : Changes) (d : D)
    : option (outcome (list NodeKey * list NodeValue8 * D)) :=
  if noChanges c then Some (Ok ([], [], d))
  else
    match gatherAll ctxDone c d with
    | Ok g =>
        r ← InsertBatch Hash noSaveOnInsert order true cpuNum (keysBatchStorage g) (valuesBatchStorage g) None None (g_db g);
        Some (rd ← r; Ok (keysBatchStorage g, valuesBatchStorage g, snd (rd : NodeKey * D)))
    | Err e => Some (Err e)
    | Panic => Some Panic
    end.
End entities.

(** ** Reading *)

(** The codes of a store. *)
Class CodeDb (D : Type) := { db_GetCode : D -> list Z -> outcome (list Z) }.

#[export] Instance MemDb_codes : CodeDb MemDb := { db_GetCode := Mem_GetCode }.
#[export] Instance EriDb_codes {T} `{Kv T} : CodeDb (EriDb T) := { db_GetCode m := Ro_GetCode (Eri_GetOne m) }.

(** [uint256.Int.SetBytes] and [Hash.SetBytes]: the last 32 bytes count. *)
Definition lastBytes (n : nat) (b : list Z) : list Z := drop (length b - n) b.
Definition Int_SetBytes (b : list Z) : Z := be_decode (lastBytes 32 b).
Definition Hash_SetBytes (b : list Z) : list Z := replicate (32 - length b) 0 ++ lastBytes 32 b.

Section readers.
Context {D : Type} `{SmtDb D} `{CodeDb D}.
Context (keccak : list Z -> list Z) (Hash : list Z -> NodeKey -> NodeKey) (fuel : nat) (db : D).

(** A storage key is a hash: 32 bytes. *)
Definition getValue (key : Z) (address : Address) (storageKey : option (list Z)) : outcome (list Z) :=
  ethAddr ← checksumHex keccak address;
  kn ← match storageKey with
       | None => Key Hash ethAddr key
       | Some storageKey =>
           a ← nonNil (ConvertHexToBigInt ethAddr);
           KeyContractStorage Hash (ScalarToArrayBig a) (Hash_String storageKey)
       end;
  getValueInBytes fuel db kn.

Definition GetAccountBalance (address : Address) : outcome Z :=
  valueInBytes ← getValue KEY_BALANCE address None; Ok (Int_SetBytes valueInBytes).

Definition GetAccountNonce (address : Address) : outcome Z :=
  valueInBytes ← getValue KEY_NONCE address None; Ok (Int_SetBytes valueInBytes).

Definition GetAccountCodeHash (address : Address) : outcome (list Z) :=
  valueInBytes ← getValue SC_CODE address None; Ok (Hash_SetBytes valueInBytes).

Definition ReadAccountData (address : Address) : outcome Account :=
  balance ← GetAccountBalance address;
  nonce ← GetAccountNonce address;
  codeHash ← GetAccountCodeHash address;
  Ok (mkAccount false (u64 nonce) balance (replicate 32 0) codeHash 0 0).

Definition ReadAccountStorage (address : Address) (incarnation : Z) (key : option (list Z)) : outcome (list Z) :=
  getValue 0 address key.

Definition ReadAccountCode (address : Address) (incarnation : Z) (codeHash : list Z) : outcome (list Z) :=
  db_GetCode db codeHash.

Definition ReadAccountCodeSize (address : Address) (incarnation : Z) (codeHash : list Z) : outcome Z :=
  valueInBytes ← getValue SC_LENGTH address None;
  let sizeBig := be_decode valueInBytes in
  if negb (sizeBig <? 2 ^ 63) then Err "code size value is too large to fit into an int"
  else if 2 ^ 63 - 1 <? sizeBig then Err "code size value overflows int"
  else Ok sizeBig.

Definition ReadAccountIncarnation (address : Address) : outcome Z :=
  Err "ReadAccountIncarnation not implemented for SMT".
End readers.
