(* ===== verification/SmtEntityTheory.v ===== *)
(** * Writing and reading accounts

    What [SmtEntity] promises.  An address printed with its checksum is read back as the
    number it is, so that the keys of accounts, written as hashes of numbers, are those of
    the code.  [SetStorage] then refines the update of the contents of the tree by the entries of
    the changes, [keysBatchStorage] and [valuesBatchStorage] being these entries; the routines
    that write entry by entry end at the same root; and after [SetStorage] the readers
    return what has been set, also after a commit to the database. *)
From Stdlib Require Import Ascii.
From stdpp Require Import sorting.
From S2P Require Import Prelude Bytes Hex SmtProof Kv Etl EtlTheory EtlRuns Membatch MembatchTheory SmtUtils SmtTree SmtDb Smt SmtRefine SmtCreate SmtCreateRuns RetainList SmtRead SmtBatch SmtBatchTheory SmtBatchRuns SmtKeys SmtMdbx SmtEntity.

(** ** Addresses *)

(** Two strings of the same hexadecimal digits, in whatever case. *)
Fixpoint same_digits (s s' : string) : Prop :=
  match s, s' with
  | EmptyString, EmptyString => True
  | String c s, String c' s' => hexVal c' = hexVal c /\ is_Some (hexVal c) /\ same_digits s s'
  | _, _ => False
  end.

Lemma same_digits_parse s : forall s' acc, same_digits s s' -> parseDigits acc s' = parseDigits acc s.
Proof.
  induction s as [|c s IH]; intros [|c' s'] acc; try done. cbn [same_digits parseDigits]. intros (-> & [d ->] & Hs). by apply IH.
Qed.

Lemma hexVal_unsigned c : is_Some (hexVal c) -> (Ascii.eqb c "-" = false) /\ (Ascii.eqb c "+" = false).
Proof. intros [d Hd]. split; apply Ascii.eqb_neq; intros ->; done. Qed.

Lemma same_digits_ParseHex s s' : same_digits s s' -> ParseHex s' = ParseHex s.
Proof.
  intros Hs. pose proof (same_digits_parse s s' 0 Hs) as Hp. destruct s as [|c s], s' as [|c' s']; try done.
  destruct Hs as (Hc & Hd & _). unfold ParseHex. assert (is_Some (hexVal c')) as Hd' by (by rewrite Hc).
  destruct (hexVal_unsigned c Hd) as [-> ->], (hexVal_unsigned c' Hd') as [-> ->]. exact Hp.
Qed.

(** The digits as [hexDigit] prints them. *)
Fixpoint lower (s : string) : Prop :=
  match s with EmptyString => True | String c s => (exists d, 0 <= d < 16 /\ c = hexDigit d) /\ lower s end.

Lemma lower_Encode b : lower (EncodeToString b).
Proof.
  induction b as [|x b IH]; [done|]. cbn [EncodeToString hexDigits]. rewrite !str_app_cons. cbn [lower].
  split; [eexists; split; [|done]; apply Z.mod_pos_bound; lia|]. split; [eexists; split; [|done]; apply Z.mod_pos_bound; lia|done].
Qed.

Lemma upper_digit d : 0 <= d < 16 -> 57 < Z.of_nat (nat_of_ascii (hexDigit d)) -> hexVal (ascii_of_nat (nat_of_ascii (hexDigit d) - 32)) = Some d.
Proof.
  intros Hd. assert (forallb (fun k => let c := hexDigit (Z.of_nat k) in negb (57 <? Z.of_nat (nat_of_ascii c)) ||
    bool_decide (hexVal (ascii_of_nat (nat_of_ascii c - 32)) = Some (Z.of_nat k))) (seq 0 16) = true) as H by reflexivity.
  rewrite forallb_forall in H. specialize (H (Z.to_nat d) ltac:(apply in_seq; lia)). cbv zeta in H. rewrite Z2Nat.id in H by lia.
  intros Hg%Z.ltb_lt. rewrite Hg in H. by apply bool_decide_eq_true in H.
Qed.

Lemma checksumChar_ok hash i d : (i < 2 * length hash)%nat -> 0 <= d < 16 ->
  exists c, checksumChar hash i (hexDigit d) = Ok c /\ hexVal c = Some d.
Proof.
  intros Hi Hd. unfold checksumChar, index. rewrite decide_True by (apply Z.div_pos; lia).
  destruct (lookup_lt_is_Some_2 hash (Z.to_nat (Z.of_nat i / 2))) as [b ->].
  { apply Nat2Z.inj_lt. rewrite Z2Nat.id by (apply Z.div_pos; lia). apply Z.div_lt_upper_bound; lia. }
  rewrite bind_ok. eexists. split; [reflexivity|]. cbv zeta. destruct (57 <? Z.of_nat (nat_of_ascii (hexDigit d))) eqn:Hg; cbn [andb]; [|by apply hexVal_hexDigit].
  destruct (7 <? _); [by apply upper_digit; [|apply Z.ltb_lt]|by apply hexVal_hexDigit].
Qed.

Lemma checksumFrom_ok hash buf : forall i, lower buf -> (i + String.length buf <= 2 * length hash)%nat ->
  exists s, checksumFrom hash i buf = Ok s /\ same_digits buf s.
Proof.
  induction buf as [|c buf IH]; intros i Hl Hi; [by exists EmptyString|]. destruct Hl as [(d & Hd & ->) Hl]. cbn [String.length] in Hi.
  destruct (checksumChar_ok hash i d) as (c & Hc & Hv); [lia|done|]. destruct (IH (S i) Hl) as (s & Hs & Hsame); [lia|].
  exists (String c s). cbn [checksumFrom same_digits]. rewrite Hc, bind_ok, Hs, bind_ok, Hv, hexVal_hexDigit by done. eauto.
Qed.

Section addresses.
Context (keccak : list Z -> list Z) (keccak_length : forall b, length (keccak b) = 32%nat).

Definition address_ok (a : Address) : Prop := bytes_ok a /\ length a = 20%nat.

(** The string of an address stands for its number. *)
Lemma checksumHex_ok a : address_ok a -> exists s, checksumHex keccak a = Ok s /\ ConvertHexToBigInt s = Some (be_decode a).
Proof.
  intros [Hb Hl]. unfold checksumHex. cbv zeta.
  destruct (checksumFrom_ok (keccak (bytesOf (EncodeToString a))) (EncodeToString a) 0) as (s & -> & Hs);
    [apply lower_Encode|rewrite EncodeToString_length, keccak_length; lia|].
  rewrite bind_ok. eexists. split; [reflexivity|]. unfold ConvertHexToBigInt. cbn [TrimPrefix0x].
  change (ParseHex s = Some (be_decode a)). rewrite (same_digits_ParseHex _ _ Hs), ParseHex_Encode; [done..|]. by intros ->.
Qed.
End addresses.

(** ** Entries *)

Lemma ScalarToArrayBig_limbs z : limbs_ok (ScalarToArrayBig z).
Proof.
  split; [done|]. unfold ScalarToArrayBig. apply Forall_map, Forall_forall. intros i _. change 4294967295 with (Z.ones 32).
  rewrite Z.land_ones by lia. apply Z.mod_pos_bound. lia.
Qed.

Lemma ScalarToArrayBig_inj z z' : 0 <= z < 2 ^ 256 -> 0 <= z' < 2 ^ 256 -> ScalarToArrayBig z = ScalarToArrayBig z' -> z = z'.
Proof. intros Hz Hz' He. by rewrite <- (ArrayBigToScalar_ScalarToArrayBig z), He, ArrayBigToScalar_ScalarToArrayBig. Qed.

Lemma NodeValue8FromBigInt_ok z : NodeValue8FromBigInt z = Ok (map Some (ScalarToArrayBig z)).
Proof. done. Qed.

(** What [StringToH4] makes of [HASH_POSEIDON_ALL_ZEROES]. *)
Definition allZeroes : NodeKey :=
  Eval vm_compute in match StringToH4 HASH_POSEIDON_ALL_ZEROES with Ok k => k | _ => zeroKey end.

Lemma allZeroes_ok : StringToH4 HASH_POSEIDON_ALL_ZEROES = Ok allZeroes.
Proof. vm_compute. reflexivity. Qed.

(** An entry of the state: of an account, by its kind, or a slot of its storage.  Accounts
    and positions are numbers. *)
Inductive stateEntry := AccountEntry (account kind : Z) | SlotEntry (account position : Z).

#[export] Instance stateEntry_eq_dec : EqDecision stateEntry.
Proof. solve_decision. Defined.

Definition keyWords (account kind : Z) : list Z := take 6 (ScalarToArrayBig account) ++ [kind; 0].

Lemma keyWords_ok account kind : word_ok kind -> Forall word_ok (keyWords account kind).
Proof.
  intros Hk. apply Forall_app. split; [|repeat constructor; unfold word_ok in *; lia]. apply Forall_take.
  eapply Forall_impl; [apply ScalarToArrayBig_limbs|]. unfold word_ok. intros w Hw. lia.
Qed.

Lemma keyInput_ok account kind : keyInput (ScalarToArrayBig account) kind = Ok (map Some (keyWords account kind)).
Proof. done. Qed.

Section keys.
Context (Hash : list Z -> NodeKey -> NodeKey) (Hash_range : forall i c, key_ok (Hash i c)).

(** The key of an entry is a hash; the hash of a position is the capacity of that of its slot. *)
Definition entryInput (e : stateEntry) : list Z * NodeKey :=
  match e with
  | AccountEntry account kind => (keyWords account kind, allZeroes)
  | SlotEntry account position => (keyWords account SC_STORAGE, Hash (ScalarToArrayBig position) zeroKey)
  end.

Definition entryKey (e : stateEntry) : NodeKey := Hash (fst (entryInput e)) (snd (entryInput e)).

(** All that is hashed for the key of an entry. *)
Definition entryInputs (e : stateEntry) : list (list Z * NodeKey) :=
  entryInput e :: match e with SlotEntry _ position => [(ScalarToArrayBig position, zeroKey)] | _ => [] end.

Definition entry_ok (e : stateEntry) : Prop :=
  match e with
  | AccountEntry account kind => 0 <= account < 2 ^ 160 /\ word_ok kind /\ kind <> SC_STORAGE
  | SlotEntry account position => 0 <= account < 2 ^ 160 /\ 0 <= position < 2 ^ 256
  end.

Lemma Key_ok ethAddr account kind : ConvertHexToBigInt ethAddr = Some account -> word_ok kind ->
  Key Hash ethAddr kind = Ok (entryKey (AccountEntry account kind)).
Proof.
  intros Ha Hk. unfold Key. rewrite Ha. cbn [nonNil]. rewrite bind_ok, keyInput_ok, bind_ok, allZeroes_ok.
  unfold entryKey. cbn [entryInput fst snd]. by rewrite ToUintArray_some by (by apply keyWords_ok).
Qed.

Lemma KeyContractStorage_ok account k position : StrValToBigInt k = Some position ->
  KeyContractStorage Hash (ScalarToArrayBig account) k = Ok (entryKey (SlotEntry account position)).
Proof.
  intros Hk. unfold KeyContractStorage. rewrite Hk. cbn [nonNil]. rewrite bind_ok.
  change (NodeValue8FromBigIntArray (map Some (ScalarToArrayBig position))) with (Ok (map Some (ScalarToArrayBig position))). cbv iota zeta.
  rewrite keyInput_ok, bind_ok. unfold entryKey. cbn [entryInput fst snd].
  rewrite !ToUintArray_some by (apply keyWords_ok || apply limbs_value_ok, ScalarToArrayBig_limbs; done). done.
Qed.

(** Different entries have different keys if the hash does not collide on what is hashed. *)
Lemma keyWords_inj a k a' k' : 0 <= a < 2 ^ 160 -> 0 <= a' < 2 ^ 160 -> keyWords a k = keyWords a' k' -> a = a' /\ k = k'.
Proof.
  intros Ha Ha' [He [= ->]]%app_inj_1; [|done]. split; [|done].
  assert (forall z, 0 <= z < 2 ^ 160 -> drop 6 (ScalarToArrayBig z) = [0; 0]) as Hd.
  { intros z Hz. unfold ScalarToArrayBig. cbn [map drop]. rewrite !Z.shiftr_div_pow2 by lia. rewrite !Z.div_small; [done|..];
      (split; [lia|]; eapply Z.lt_le_trans; [apply Hz|apply Z.pow_le_mono_r; lia]). }
  apply ScalarToArrayBig_inj; [split; [lia|eapply Z.lt_trans; [|apply Z.pow_lt_mono_r with (b := 160)]; lia]..|].
  by rewrite <- (take_drop 6 (ScalarToArrayBig a)), He, (Hd a), <- (Hd a'), take_drop by done.
Qed.

Lemma entryKey_inj (es : list stateEntry) e e' : collision_free Hash (es ≫= entryInputs) -> e ∈ es -> e' ∈ es -> entry_ok e -> entry_ok e' ->
  entryKey e = entryKey e' -> e = e'.
Proof.
  intros Hcf He He' Hok Hok' Hk.
  assert (entryInput e = entryInput e') as Hi by (apply Hcf; [apply list_elem_of_bind; eexists; split; [left|done]..|done]).
  destruct e as [a k|a p], e' as [a' k'|a' p']; cbn [entryInput] in Hi; apply pair_equal_spec in Hi as [Hw Hc];
    destruct Hok as [Ha Hok], Hok' as [Ha' Hok']; destruct (keyWords_inj _ _ _ _ Ha Ha' Hw) as [<- Hkk].
  - by rewrite Hkk.
  - by destruct Hok.
  - by destruct Hok'.
  - f_equal. apply ScalarToArrayBig_inj; [done..|].
    enough ((ScalarToArrayBig p, zeroKey) = (ScalarToArrayBig p', zeroKey)) as [? _]%pair_equal_spec by done.
    apply Hcf; [apply list_elem_of_bind; exists (SlotEntry a p)|apply list_elem_of_bind; exists (SlotEntry a p')|done];
      (split; [right; left|done]).
Qed.
End keys.

(** ** The changes and their entries *)

(** What the code relies on besides [SmtDbLaws]: sources do not touch the root. *)
Class KeySourceLaws (D : Type) `{SmtDb D} `{KeySourceDb D} `{!SmtDbLaws D} := {
  law_source_root d k s d' : db_InsertKeySource k s d = Ok d' -> db_GetLastRoot d' = db_GetLastRoot d;
  law_DeleteKeySource d k : exists d', db_DeleteKeySource k d = Ok d' /\ same_nodes d d' /\ db_GetLastRoot d' = db_GetLastRoot d;
}.

#[export] Instance MemDb_source_laws : KeySourceLaws MemDb.
Proof. split; [by intros d k s d' [= <-]|]. intros d k. by eexists. Qed.

Lemma Eri_source_laws {T} `{KvLaws T} (m0 : EriDb T) : KeySourceLaws (EriDb T) (SmtDbLaws0 := Eri_laws m0).
Proof.
  assert (forall (d d' : EriDb T), Eri_table d' TableStats = Eri_table d TableStats -> db_GetLastRoot d' = db_GetLastRoot d) as Hroot.
  { intros d d' He. cbn. unfold Ro_GetLastRoot. by rewrite !Eri_GetOne_ok, He. }
  split.
  - intros d k s d' He. apply Hroot. destruct (Eri_Put_ok TableMetadata (bytesKey k) s d) as (d2 & He2 & _ & Htab).
    assert (d2 = d') as -> by (cbn in He; unfold Eri_InsertKeySource in He; congruence). by rewrite Htab, decide_False.
  - intros d k. destruct (Eri_DeleteOne_ok TableMetadata (bytesKey k) d) as (d2 & He2 & _ & Htab).
    destruct (delete_elsewhere TableMetadata (bytesKey k) d) as (d' & He & Hg & Hm & Hd); [done..|]. assert (d2 = d') as -> by congruence.
    exists d'. split; [done|]. split; [split; [done|by apply Eri_ok_kept]|]. apply Hroot. by rewrite Htab, decide_False.
Qed.

Section changes.
Context (Hash : list Z -> NodeKey -> NodeKey) (Hash_range : forall i c, key_ok (Hash i c)).

Definition balanceOf (acc : option Account) : Z := match acc with Some acc => Balance acc | None => 0 end.
Definition nonceOf (acc : option Account) : Z := match acc with Some acc => Nonce acc | None => 0 end.
Definition codeOf (code : string) : Z * Z := match convertBytecodeToBigInt Hash code with Ok bl => bl | _ => (0, 0) end.

(** What a change sets. *)
Definition accNamed (ac : Address * option Account) : list (stateEntry * Z) :=
  [(AccountEntry (be_decode (fst ac)) KEY_BALANCE, balanceOf (snd ac)); (AccountEntry (be_decode (fst ac)) KEY_NONCE, nonceOf (snd ac))].

Definition codeNamed (ac : Address * string) : list (stateEntry * Z) :=
  [(AccountEntry (be_decode (fst ac)) SC_CODE, fst (codeOf (snd ac))); (AccountEntry (be_decode (fst ac)) SC_LENGTH, snd (codeOf (snd ac)))].

Definition slotNamed (a : Address) (kv : string * string) : stateEntry * Z :=
  (SlotEntry (be_decode a) (default 0 (StrValToBigInt (fst kv))), default 0 (convertStringToBigInt (snd kv))).

Definition storageNamed (ac : Address * list (string * string)) : list (stateEntry * Z) := map (slotNamed (fst ac)) (snd ac).

Definition named (c : Changes) : list (stateEntry * Z) :=
  (accChanges c ≫= accNamed) ++ (codeChanges c ≫= codeNamed) ++ (storageChanges c ≫= storageNamed).

Definition written (ev : stateEntry * Z) : NodeKey * list Z := (entryKey Hash (fst ev), ScalarToArrayBig (snd ev)).

(** The entries that the changes write in the tree. *)
Definition stateEntries (c : Changes) : list (NodeKey * list Z) := map written (named c).

Definition account_ok (acc : option Account) : Prop := 0 <= balanceOf acc < 2 ^ 256 /\ 0 <= nonceOf acc < 2 ^ 64.

(** The code in hexadecimal; the prefix may be missing. *)
Definition code_ok (s : string) : Prop := exists (code : list Z) (prefixed : bool), bytes_ok code /\ Z.of_nat (length code) < 2 ^ 50 /\
  s = if prefixed then String "0" (String "x" (EncodeToString code)) else EncodeToString code.

Definition slot_ok (kv : string * string) : Prop :=
  exists p x, StrValToBigInt (fst kv) = Some p /\ convertStringToBigInt (snd kv) = Some x /\ 0 <= p < 2 ^ 256 /\ 0 <= x < 2 ^ 256.

Record changes_ok (c : Changes) : Prop := {
  changes_acc : Forall (fun ac => address_ok (fst ac) /\ account_ok (snd ac)) (accChanges c);
  changes_code : Forall (fun ac => address_ok (fst ac) /\ code_ok (snd ac)) (codeChanges c);
  changes_storage : Forall (fun ac => address_ok (fst ac) /\ Forall slot_ok (snd ac)) (storageChanges c);
}.

Lemma written_ok ev : op_ok (written ev).
Proof. split; [apply Hash_range|apply limbs_value_ok, ScalarToArrayBig_limbs]. Qed.

Lemma stateEntries_ok c : Forall op_ok (stateEntries c).
Proof. apply Forall_map, Forall_forall. intros ev _. apply written_ok. Qed.

(** The hash and the length of a code; an empty string stands for none. *)
Lemma convertBytecodeToBigInt_ok code (prefixed : bool) : bytes_ok code -> Z.of_nat (length code) < 2 ^ 50 ->
  convertBytecodeToBigInt Hash (if prefixed then String "0" (String "x" (EncodeToString code)) else EncodeToString code) =
    Ok (if prefixed || negb (bool_decide (code = [])) then (Key_ToBigInt (codeHash Hash code), Z.of_nat (length code)) else (0, 0)).
Proof.
  intros Hb Hl. unfold convertBytecodeToBigInt. rewrite HashContractBytecodeBigInt_ok, bind_ok by done.
  assert (TrimPrefix0x (if prefixed then String "0" (String "x" (EncodeToString code)) else EncodeToString code) = EncodeToString code) as ->.
  { destruct prefixed; [done|]. pose proof (Encode_no0x code Hb) as Hn. unfold has0x in Hn.
    destruct (EncodeToString code) as [|c1 [|c2 s]]; [done..|]. cbn [String.prefix] in Hn. cbn [TrimPrefix0x].
    destruct (ascii_dec "0" c1) as [<-|]; [|by rewrite (proj2 (Ascii.eqb_neq _ _)) by congruence]. destruct (ascii_dec "x" c2) as [<-|]; [by destruct s|].
    by rewrite (proj2 (Ascii.eqb_neq c2 _)), andb_false_r by congruence. }
  cbv zeta. rewrite slen_Encode, (Z.mul_comm 2), Z.mod_mul by lia. cbn [Z.eqb]. rewrite slen_Encode, (Z.mul_comm 2), Z.div_mul by lia.
  destruct prefixed; [done|]. rewrite slen_Encode. destruct code as [|x code]; [done|]. by rewrite (proj2 (Z.eqb_neq _ _)) by (cbn [length]; lia).
Qed.

Lemma codeOf_ok s : code_ok s -> convertBytecodeToBigInt Hash s = Ok (codeOf s).
Proof. intros (code & p & Hb & Hl & ->). unfold codeOf. by rewrite convertBytecodeToBigInt_ok. Qed.
End changes.

(** ** Writing many changes at once *)

Section gathering.
Context {D : Type} `{SmtDb D} `{BatchDb D} `{KeySourceDb D} `{!SmtDbLaws D} `{!BatchDbLaws D} `{!KeySourceLaws D}.
Context (keccak : list Z -> list Z) (keccak_length : forall b, length (keccak b) = 32%nat).
Context (Hash : list Z -> NodeKey -> NodeKey) (Hash_range : forall i c, key_ok (Hash i c)).

(** The tree is the same in both stores, root included. *)
Definition same_tree (d d' : D) : Prop := same_nodes d d' /\ db_GetLastRoot d' = db_GetLastRoot d.

#[export] Instance same_tree_preorder : PreOrder same_tree.
Proof.
  split; [by intros d|]. intros d1 d2 d3 [[Hg Ho] Hr] [[Hg' Ho'] Hr']. split; [split|congruence]; [intros k; by rewrite Hg'|auto].
Qed.

Lemma same_tree_represents d d' t : same_tree d d' -> represents Hash d t -> represents Hash d' t.
Proof.
  intros [[Hg Ho] Hr] (Hroot & Hs & Hd). split; [by rewrite Hr|]. split; [|auto]. eapply Forall_impl; [exact Hs|]. intros x Hx. unfold has in *. by rewrite Hg.
Qed.

Lemma InsertKeySource_same k s d : exists d', db_InsertKeySource k s d = Ok d' /\ same_tree d d'.
Proof. destruct (law_InsertKeySource d k s) as (d' & He & Hs). exists d'. split; [done|]. split; [done|]. by eapply law_source_root. Qed.

(** The batch has grown by these entries. *)
Definition gathered (ops : list (NodeKey * list Z)) (g g' : Gathering) : Prop :=
  keysBatchStorage g' = keysBatchStorage g ++ map fst ops /\ valuesBatchStorage g' = valuesBatchStorage g ++ values ops /\
  same_tree (g_db g) (g_db g').

Lemma gathered_nil g : gathered [] g g.
Proof. split; [by rewrite app_nil_r|]. split; [by rewrite app_nil_r|done]. Qed.

Lemma gathered_app ops ops' g1 g2 g3 : gathered ops g1 g2 -> gathered ops' g2 g3 -> gathered (ops ++ ops') g1 g3.
Proof.
  intros (Hk & Hv & Hs) (Hk' & Hv' & Hs'). unfold gathered, values in *. rewrite Hk', Hk, Hv', Hv, !map_app, !(assoc_L (++)).
  split; [done|]. split; [done|]. by etrans.
Qed.

Lemma gather_entry_ok e z t addr position g : (exists p, position = Ok p) ->
  exists g', gather (entryKey Hash e) z t addr position g = Ok g' /\ gathered [written Hash (e, z)] g g'.
Proof.
  intros [p ->]. unfold gather, appendToValuesBatchStorageBigInt. cbv zeta. rewrite NodeValue8FromBigInt_ok, !bind_ok. cbv iota.
  destruct (negb _); unfold InsertKeySource, DeleteKeySource; rewrite ?bind_ok.
  - destruct (InsertKeySource_same (entryKey Hash e) (EncodeKeySource t (be_decode addr) p) (g_db g)) as (d & -> & Hs). rewrite bind_ok. by eexists.
  - destruct (law_DeleteKeySource (g_db g) (entryKey Hash e)) as (d & -> & Hs & Hr). rewrite bind_ok. by eexists.
Qed.

(** Two entries in a row. *)
Lemma gather_two e1 z1 t1 e2 z2 t2 addr g :
  exists g', (g ← gather (entryKey Hash e1) z1 t1 addr (Ok 0) g; gather (entryKey Hash e2) z2 t2 addr (Ok 0) g) = Ok g' /\
    gathered [written Hash (e1, z1); written Hash (e2, z2)] g g'.
Proof.
  destruct (gather_entry_ok e1 z1 t1 addr (Ok 0) g) as (g1 & -> & G1); [eauto|]. rewrite bind_ok.
  destruct (gather_entry_ok e2 z2 t2 addr (Ok 0) g1) as (g2 & -> & G2); [eauto|]. exists g2. split; [done|]. exact (gathered_app _ _ _ _ _ G1 G2).
Qed.

Lemma gatherAccount_ok addr acc g : address_ok addr ->
  exists g', gatherAccount keccak Hash addr acc g = Ok g' /\ gathered (map (written Hash) (accNamed (addr, acc))) g g'.
Proof.
  intros Ha. unfold gatherAccount. destruct (checksumHex_ok keccak keccak_length addr Ha) as (s & -> & Hs). rewrite bind_ok.
  unfold KeyEthAddrBalance, KeyEthAddrNonce. rewrite !(Key_ok Hash s (be_decode addr)), !bind_ok by (done || unfold word_ok; done). cbv zeta. apply gather_two.
Qed.

Lemma gatherCode_ok addr code g : address_ok addr -> code_ok code ->
  exists g', gatherCode keccak Hash addr code g = Ok g' /\ gathered (map (written Hash) (codeNamed Hash (addr, code))) g g'.
Proof.
  intros Ha Hc. unfold gatherCode. destruct (checksumHex_ok keccak keccak_length addr Ha) as (s & -> & Hs). rewrite bind_ok.
  unfold KeyContractCode, KeyContractLength. rewrite !(Key_ok Hash s (be_decode addr)), !bind_ok by (done || unfold word_ok; done).
  rewrite (codeOf_ok Hash code Hc), bind_ok. unfold codeNamed. cbn [fst snd]. destruct (codeOf Hash code) as [bi len]. apply gather_two.
Qed.

Lemma gatherSlots_ok addr storage : forall g, Forall slot_ok storage ->
  exists g', gatherSlots Hash addr (ScalarToArrayBig (be_decode addr)) storage g = Ok g' /\
    gathered (map (written Hash) (storageNamed (addr, storage))) g g'.
Proof.
  induction storage as [|[k v] storage IH]; intros g Hs; [exists g; split; [done|apply gathered_nil]|].
  apply Forall_cons in Hs as [(p & x & Hp & Hx & _) Hs]. cbn [fst snd] in *. cbn [gatherSlots].
  rewrite (KeyContractStorage_ok Hash _ k p), bind_ok, Hx, Hp by done. cbn [nonNil]. rewrite bind_ok.
  destruct (gather_entry_ok (SlotEntry (be_decode addr) p) x SC_STORAGE addr (Ok (BigToHash p)) g) as (g1 & Hg & G1); [eauto|].
  rewrite bind_ok, Hg, bind_ok. destruct (IH g1 Hs) as (g2 & -> & G2). exists g2. split; [done|].
  pose proof (gathered_app _ _ _ _ _ G1 G2) as G3. unfold storageNamed, slotNamed in *. cbn [map fst snd app] in *. rewrite Hp, Hx. exact G3.
Qed.

Lemma gatherStorage_ok addr storage g : address_ok addr -> Forall slot_ok storage ->
  exists g', gatherStorage keccak Hash addr storage g = Ok g' /\ gathered (map (written Hash) (storageNamed (addr, storage))) g g'.
Proof.
  intros Ha Hs. unfold gatherStorage. destruct (checksumHex_ok keccak keccak_length addr Ha) as (s & -> & Hc). rewrite bind_ok, Hc. cbn [nonNil].
  rewrite bind_ok. by apply gatherSlots_ok.
Qed.

Lemma changesLoop_ok {A} (done : nat -> bool) (body : Address -> A -> Gathering -> outcome Gathering) (f : Address * A -> list (stateEntry * Z)) changes :
  (forall i, done i = false) ->
  Forall (fun ac => forall g, exists g', body (fst ac) (snd ac) g = Ok g' /\ gathered (map (written Hash) (f ac)) g g') changes ->
  forall i g, exists g', changesLoop done body changes i g = Ok g' /\ gathered (map (written Hash) (changes ≫= f)) g g'.
Proof.
  intros Hd. induction 1 as [|[addr c] changes Hb _ IH]; intros i g; [exists g; split; [reflexivity|apply gathered_nil]|].
  cbn [changesLoop]. rewrite Hd. destruct (Hb g) as (g1 & Hg & G1). cbn [fst snd] in Hg. rewrite Hg, bind_ok. destruct (IH (S i) g1) as (g2 & -> & G2).
  exists g2. split; [reflexivity|]. rewrite bind_cons, map_app. by eapply gathered_app.
Qed.

Lemma gatherAll_ok ctxDone c d : (forall l i, ctxDone l i = false) -> changes_ok c ->
  exists g, gatherAll keccak Hash ctxDone c d = Ok g /\ keysBatchStorage g = map fst (stateEntries Hash c) /\ valuesBatchStorage g = values (stateEntries Hash c) /\
    same_tree d (g_db g).
Proof.
  intros Hd [Ha Hc Hs]. unfold gatherAll.
  destruct (changesLoop_ok (ctxDone 0%nat) (gatherAccount keccak Hash) accNamed (accChanges c) (Hd _)) with (i := 0%nat) (g := mkGathering [] [] d) as (g1 & -> & G1).
  { eapply Forall_impl; [exact Ha|]. intros [addr acc] [Hx _] g. by apply gatherAccount_ok. }
  rewrite bind_ok. destruct (changesLoop_ok (ctxDone 1%nat) (gatherCode keccak Hash) (codeNamed Hash) (codeChanges c) (Hd _)) with (i := 0%nat) (g := g1) as (g2 & -> & G2).
  { eapply Forall_impl; [exact Hc|]. intros [addr code] [Hx Hy] g. by apply gatherCode_ok. }
  rewrite bind_ok. destruct (changesLoop_ok (ctxDone 2%nat) (gatherStorage keccak Hash) storageNamed (storageChanges c) (Hd _)) with (i := 0%nat) (g := g2) as (g3 & -> & G3).
  { eapply Forall_impl; [exact Hs|]. intros [addr st] [Hx Hy] g. by apply gatherStorage_ok. }
  exists g3. split; [done|]. destruct (gathered_app _ _ _ _ _ G1 (gathered_app _ _ _ _ _ G2 G3)) as (Hk & Hv & Hst).
  unfold stateEntries, named. rewrite !map_app. by rewrite !map_app in Hk.
Qed.

Context (order : forall V, gmap Z V -> list (Z * V)) (order_ok : forall V (m : gmap Z V), order V m ≡ₚ map_to_list m).

Lemma stateEntries_changes c : stateEntries Hash c <> [] -> noChanges c = false.
Proof. intros Hne. unfold noChanges. destruct c as [[|] [|] [|]]; done. Qed.

Lemma SetStorage_ok cpuNum ctxDone c t0 m db :
  1 <= cpuNum -> (forall l i, ctxDone l i = false) -> changes_ok c -> stateEntries Hash c <> [] ->
  tree_ok t0 -> holds t0 m -> represents Hash db t0 -> batch_ok Hash t0 (stateEntries Hash c) ->
  exists db', SetStorage keccak Hash false order cpuNum ctxDone c db = Some (Ok (map fst (stateEntries Hash c), values (stateEntries Hash c), db')) /\
    represents Hash db' (foldl tput t0 (stateEntries Hash c)).
Proof.
  intros Hcpu Hd Hc Hne Ht Hm Hr Hb. unfold SetStorage. rewrite stateEntries_changes by done.
  destruct (gatherAll_ok ctxDone c db Hd Hc) as (g & -> & -> & -> & Hs).
  destruct (InsertBatch_ok Hash Hash_range order order_ok true cpuNum (stateEntries Hash c) None None t0 m (g_db g)) as (db' & -> & Hr'); try done;
    [by apply stateEntries_ok|by left|by eapply same_tree_represents|].
  by exists db'.
Qed.

(** C7: writing the state.  On a store that holds a tree with the contents [m], and unless its
    context is cancelled, [SetStorage] of changes that have at least one entry
    ([stateEntries Hash c <> []]) and whose entries are a good batch ([batch_ok]: no zero is
    written to an absent key whose remaining bits are those of a hash in the branch where its
    path ends, and the tree does not become empty before the last entry) succeeds: it returns the keys and the values of the
    entries that the changes set, balance and nonce of every account, hash and length of every code,
    every slot of the storage, in this order; and the store then holds, with its root, the
    canonical tree whose contents are [m] updated by these entries in turn. *)
Theorem set_storage_refines cpuNum ctxDone c t0 m db :
  1 <= cpuNum -> (forall l i, ctxDone l i = false) -> changes_ok c -> stateEntries Hash c <> [] ->
  tree_ok t0 -> holds t0 m -> represents Hash db t0 -> batch_ok Hash t0 (stateEntries Hash c) ->
  exists db' t, SetStorage keccak Hash false order cpuNum ctxDone c db = Some (Ok (map fst (stateEntries Hash c), values (stateEntries Hash c), db')) /\
    tree_ok t /\ holds t (foldl mput m (stateEntries Hash c)) /\ represents Hash db' t.
Proof.
  intros Hcpu Hd Hc Hne Ht Hm Hr Hb. destruct (SetStorage_ok cpuNum ctxDone c t0 m db) as (db' & He & Hr'); [done..|].
  destruct (tputs_ok (stateEntries Hash c) t0 m (stateEntries_ok Hash Hash_range c) Ht Hm) as [Ht1 Hm1]. exists db', (foldl tput t0 (stateEntries Hash c)). done.
Qed.

(** Without changes nothing is read or written. *)
Lemma SetStorage_nothing cpuNum ctxDone db : SetStorage keccak Hash false order cpuNum ctxDone (mkChanges [] [] []) db = Some (Ok ([], [], db)).
Proof. done. Qed.

(** An account without slots among the changes of the storage, and nothing else: the root is lost. *)
Lemma SetStorage_no_slots cpuNum ctxDone a t0 db : 1 <= cpuNum -> (forall l i, ctxDone l i = false) -> address_ok a -> represents Hash db t0 ->
  exists db', SetStorage keccak Hash false order cpuNum ctxDone (mkChanges [] [] [(a, [])]) db = Some (Ok ([], [], db')) /\ getLastRoot db' = Ok zeroKey.
Proof.
  intros Hcpu Hd Ha Hr. unfold SetStorage. change (noChanges (mkChanges [] [] [(a, [])])) with false. cbv iota.
  destruct (gatherAll_ok ctxDone (mkChanges [] [] [(a, [])]) db Hd) as (g & -> & -> & -> & Hs).
  { split; [by apply Forall_nil..|]. apply Forall_singleton. split; [done|by apply Forall_nil]. }
  pose proof (same_tree_represents _ _ _ Hs Hr) as Hr'. pose proof (represents_root Hash Hash_range _ _ Hr') as Hroot.
  destruct (empty_batch Hash order order_ok true cpuNum (th Hash 0 t0) (g_db g) Hcpu Hroot (proj2 (proj2 Hr'))) as (db' & He & Hl).
  exists db'. change (stateEntries Hash (mkChanges [] [] [(a, [])])) with (@nil (NodeKey * list Z)). change (values []) with (@nil NodeValue8). cbn [map]. by rewrite He.
Qed.

(** A context that is done before the first account stops everything. *)
Lemma SetStorage_stopped cpuNum ctxDone c db : accChanges c <> [] -> ctxDone 0%nat 0%nat = true ->
  SetStorage keccak Hash false order cpuNum ctxDone c db = Some (Err "Context done").
Proof.
  intros Ha Hd. unfold SetStorage, gatherAll. destruct c as [[|[addr acc] accs] codes st]; [by destruct Ha|]. cbn [accChanges changesLoop]. rewrite Hd.
  unfold noChanges. cbn [accChanges]. by rewrite (bool_decide_eq_false_2 ((addr, acc) :: accs = [])), andb_false_r by done.
Qed.
End gathering.

(** ** What has been written is read *)

(** Every value given to a key is the same: in the end the key has that value. *)
Lemma mputs_lookup_set (ops : list (NodeKey * list Z)) k v : (k, v) ∈ ops -> (forall v', (k, v') ∈ ops -> v' = v) ->
  forall m, foldl mput m ops !! k = if is_zero v then None else Some v.
Proof.
  induction ops as [|[k' v'] ops IH] using rev_ind; [by intros ?%elem_of_nil|]. intros Hin Hsame m. rewrite foldl_app. cbn [foldl mput]. unfold mput. cbn [fst snd].
  destruct (decide (k = k')) as [<-|Hne].
  - rewrite (Hsame v') by (apply elem_of_app; right; by left). destruct (is_zero v); [apply lookup_delete_eq|apply lookup_insert_eq].
  - destruct (is_zero v'); [rewrite lookup_delete_ne by done|rewrite lookup_insert_ne by done];
      (apply IH; [|intros w Hw; apply Hsame, elem_of_app; by left]; apply elem_of_app in Hin as [?|[= ? ?]%list_elem_of_singleton]; done).
Qed.

Lemma mputs_other (ops : list (NodeKey * list Z)) k : k ∉ map fst ops -> forall m, foldl mput m ops !! k = m !! k.
Proof.
  induction ops as [|[k' v'] ops IH]; intros Hk m; [done|]. cbn [map fst] in Hk. apply not_elem_of_cons in Hk as [Hne Hk]. cbn [foldl]. rewrite IH by done.
  unfold mput. cbn [fst snd]. destruct (is_zero v'); [by rewrite lookup_delete_ne|by rewrite lookup_insert_ne].
Qed.

(** The order does not matter if no key is given two values. *)
Lemma mputs_same (ops ops' : list (NodeKey * list Z)) m : (forall kv, kv ∈ ops <-> kv ∈ ops') -> (forall k v v', (k, v) ∈ ops -> (k, v') ∈ ops -> v = v') ->
  foldl mput m ops = foldl mput m ops'.
Proof.
  intros Hsame Hone. apply map_eq. intros k. destruct (decide (k ∈ map fst ops)) as [Hk|Hk].
  - apply list_elem_of_fmap in Hk as ([k' v] & -> & Hin). cbn [fst].
    rewrite (mputs_lookup_set ops k' v), (mputs_lookup_set ops' k' v); [done|by apply Hsame|intros v' Hv'%Hsame; eauto|done|eauto].
  - rewrite !mputs_other; [done|intros Hk'|done]. apply Hk. apply list_elem_of_fmap in Hk' as (kv & -> & Hin%Hsame). by apply (list_elem_of_fmap_2 fst).
Qed.

Lemma is_zero_limbs z : 0 <= z < 2 ^ 256 -> is_zero (ScalarToArrayBig z) = (z =? 0).
Proof.
  intros Hz. destruct (Z.eqb_spec z 0) as [->|Hne]; [done|]. apply not_true_is_false. intros Hall. apply Hne, ScalarToArrayBig_inj; [done|lia|].
  unfold is_zero in Hall. rewrite forallb_forall in Hall. symmetry. change (ScalarToArrayBig 0) with (replicate (length (ScalarToArrayBig z)) 0).
  apply replicate_as_Forall. split; [done|]. apply Forall_forall. intros x Hx%list_elem_of_In%Hall. by apply Z.eqb_eq in Hx.
Qed.

Lemma big_bytes_short z : 0 <= z < 2 ^ 256 -> (length (big_bytes z) <= 32)%nat.
Proof.
  intros Hz. unfold big_bytes. rewrite be_encode_length. unfold byte_length. destruct (Z.leb_spec z 0); [lia|].
  pose proof (Z.log2_lt_pow2 z 256 ltac:(lia)) as [Hl _]. specialize (Hl ltac:(lia)).
  pose proof (Z.div_lt_upper_bound (Z.log2 z) 8 32 ltac:(lia) ltac:(lia)). lia.
Qed.

Lemma Int_SetBytes_big z : 0 <= z < 2 ^ 256 -> Int_SetBytes (big_bytes z) = z.
Proof.
  intros Hz. unfold Int_SetBytes, lastBytes. pose proof (big_bytes_short z Hz). replace (length (big_bytes z) - 32)%nat with 0%nat by lia.
  apply be_decode_big_bytes. lia.
Qed.

Lemma be_decode_zeros n l : be_decode (replicate n 0 ++ l) = be_decode l.
Proof. induction n as [|n IH]; [done|]. cbn [replicate app]. rewrite be_decode_cons, IH. lia. Qed.

Lemma Hash_SetBytes_big z : 0 <= z < 2 ^ 256 -> Hash_SetBytes (big_bytes z) = be_encode 32 z.
Proof.
  intros Hz. unfold Hash_SetBytes, lastBytes. pose proof (big_bytes_short z Hz). replace (length (big_bytes z) - 32)%nat with 0%nat by lia. rewrite drop_0.
  apply be_decode_inj.
  - apply Forall_app. split; [by apply Forall_replicate|apply be_encode_ok].
  - apply be_encode_ok.
  - rewrite length_app, length_replicate, (be_encode_length 32). lia.
  - rewrite be_decode_zeros, be_decode_big_bytes by lia. symmetry. by apply be_decode_encode_small.
Qed.

(** The string of a hash is read as its number. *)
Lemma StrVal_Hash_String h : bytes_ok h -> h <> [] -> StrValToBigInt (Hash_String h) = Some (be_decode h).
Proof.
  intros Hb Hne. unfold StrValToBigInt, Hash_String, has0x.
  assert (String.prefix "0x" (String "0" (String "x" (EncodeToString h))) = true) as -> by (cbn; by destruct (EncodeToString h)).
  by apply ParseHex_Encode.
Qed.

(** The maps of the changes have every address once, and every storage each position once. *)
Record changes_distinct (c : Changes) : Prop := {
  distinct_acc : NoDup (map fst (accChanges c));
  distinct_code : NoDup (map fst (codeChanges c));
  distinct_storage : NoDup (map fst (storageChanges c));
  distinct_slots : Forall (fun ac => NoDup (map (fun kv => StrValToBigInt (fst kv)) (snd ac))) (storageChanges c);
}.

Lemma once {A B} (l : list (A * B)) a x y : NoDup (map fst l) -> (a, x) ∈ l -> (a, y) ∈ l -> x = y.
Proof.
  induction l as [|[a' z] l IH]; [by intros _ ?%elem_of_nil|]. cbn [map fst]. intros [Hn Hd]%NoDup_cons [[= -> ->]|Hx]%elem_of_cons [[= ->]|Hy]%elem_of_cons; [done|..].
  - destruct Hn. by apply (list_elem_of_fmap_2 fst _ _ Hy).
  - subst. destruct Hn. by apply (list_elem_of_fmap_2 fst _ _ Hx).
  - by apply IH.
Qed.

Section consistent.
Context (Hash : list Z -> NodeKey -> NodeKey).
Context (c : Changes) (Hc : changes_ok c) (Hd : changes_distinct c).

Lemma address_inj a a' : address_ok a -> address_ok a' -> be_decode a = be_decode a' -> a = a'.
Proof. intros [Hb Hl] [Hb' Hl']. apply be_decode_inj; [done..|]. by rewrite Hl, Hl'. Qed.

Lemma address_range a : address_ok a -> 0 <= be_decode a < 2 ^ 160.
Proof. intros [Hb Hl]. pose proof (be_decode_range a Hb) as Hr. by rewrite Hl in Hr. Qed.

(** Which entries there are. *)
Inductive sets : stateEntry -> Z -> Prop :=
| sets_balance a acc : (a, acc) ∈ accChanges c -> sets (AccountEntry (be_decode a) KEY_BALANCE) (balanceOf acc)
| sets_nonce a acc : (a, acc) ∈ accChanges c -> sets (AccountEntry (be_decode a) KEY_NONCE) (nonceOf acc)
| sets_code a s : (a, s) ∈ codeChanges c -> sets (AccountEntry (be_decode a) SC_CODE) (fst (codeOf Hash s))
| sets_length a s : (a, s) ∈ codeChanges c -> sets (AccountEntry (be_decode a) SC_LENGTH) (snd (codeOf Hash s))
| sets_slot a st kv : (a, st) ∈ storageChanges c -> kv ∈ st ->
    sets (SlotEntry (be_decode a) (default 0 (StrValToBigInt (fst kv)))) (default 0 (convertStringToBigInt (snd kv))).

Lemma sets_named e z : (e, z) ∈ named Hash c <-> sets e z.
Proof.
  unfold named. rewrite !elem_of_app, !list_elem_of_bind. split.
  - intros [([a acc] & Hin & Ha)|[([a s] & Hin & Ha)|([a st] & Hin & Ha)]].
    + apply elem_of_cons in Hin as [[= -> ->]|[= -> ->]%list_elem_of_singleton]; by constructor.
    + apply elem_of_cons in Hin as [[= -> ->]|[= -> ->]%list_elem_of_singleton]; by constructor.
    + apply list_elem_of_fmap in Hin as (kv & [= -> ->] & Hkv). by eapply sets_slot.
  - destruct 1 as [a acc Ha|a acc Ha|a s Ha|a s Ha|a st kv Ha Hkv].
    + left. exists (a, acc). split; [left|done].
    + left. exists (a, acc). split; [right; left|done].
    + right. left. exists (a, s). split; [left|done].
    + right. left. exists (a, s). split; [right; left|done].
    + right. right. exists (a, st). split; [|done]. by apply (list_elem_of_fmap_2 (slotNamed a)).
Qed.

Lemma slot_once st kv kv' : Forall slot_ok st -> NoDup (map (fun kv => StrValToBigInt (fst kv)) st) -> kv ∈ st -> kv' ∈ st ->
  default 0 (StrValToBigInt (fst kv)) = default 0 (StrValToBigInt (fst kv')) -> snd kv = snd kv'.
Proof.
  rewrite Forall_forall. intros Hok Hn Hin Hin' He. destruct (Hok _ Hin) as (p & x & Hp & _), (Hok _ Hin') as (p' & x' & Hp' & _).
  rewrite Hp, Hp' in He. cbn in He. subst p'.
  apply (once (map (fun kv => (StrValToBigInt (fst kv), snd kv)) st) (Some p)); [by rewrite map_map|..].
  - rewrite <- Hp. by apply (list_elem_of_fmap_2 (fun kv => (StrValToBigInt (fst kv), snd kv))).
  - rewrite <- Hp'. by apply (list_elem_of_fmap_2 (fun kv => (StrValToBigInt (fst kv), snd kv))).
Qed.

Lemma acc_address a acc : (a, acc) ∈ accChanges c -> address_ok a.
Proof. intros Hin. destruct Hc as [Ha _ _]. rewrite Forall_forall in Ha. by apply (Ha _ Hin). Qed.

Lemma code_address a s : (a, s) ∈ codeChanges c -> address_ok a.
Proof. intros Hin. destruct Hc as [_ Ha _]. rewrite Forall_forall in Ha. by apply (Ha _ Hin). Qed.

Lemma storage_address a st : (a, st) ∈ storageChanges c -> address_ok a.
Proof. intros Hin. destruct Hc as [_ _ Ha]. rewrite Forall_forall in Ha. by apply (Ha _ Hin). Qed.

(** An entry is set once. *)
Lemma sets_once e z z' : sets e z -> sets e z' -> z = z'.
Proof.
  destruct Hd as [Da Dc Ds Dp]. rewrite Forall_forall in Dp.
  destruct 1 as [a acc Hin|a acc Hin|a s Hin|a s Hin|a st kv Hin Hkv]; inversion 1; try done;
    match goal with E : be_decode ?b = be_decode ?a |- _ => assert (b = a) as -> by (apply address_inj; [..|exact E]; eauto using acc_address, code_address, storage_address) end.
  - f_equal. by eapply once.
  - f_equal. by eapply once.
  - do 2 f_equal. by eapply once.
  - do 2 f_equal. by eapply once.
  - match goal with Hin' : (a, ?st') ∈ storageChanges c |- _ => assert (st = st') as <- by (by eapply once) end.
    do 2 f_equal. destruct Hc as [_ _ Hs]. rewrite Forall_forall in Hs. eapply slot_once; [apply (Hs _ Hin)|apply (Dp _ Hin)|done..].
Qed.

Lemma codeOf_range s : (forall i c, key_ok (Hash i c)) -> code_ok s -> 0 <= fst (codeOf Hash s) < 2 ^ 256 /\ 0 <= snd (codeOf Hash s) < 2 ^ 50.
Proof.
  intros Hr (code & p & Hb & Hl & ->). unfold codeOf. rewrite convertBytecodeToBigInt_ok by done. destruct (_ || _); cbn [fst snd]; [|lia].
  split; [|lia]. apply Key_ToBigInt_range. by apply chain_ok.
Qed.

Lemma sets_ok e z : (forall i c, key_ok (Hash i c)) -> sets e z -> entry_ok e /\ 0 <= z < 2 ^ 256.
Proof.
  intros Hr. destruct Hc as [Ha Hco Hs]. rewrite !Forall_forall in *. destruct 1 as [a acc Hin|a acc Hin|a s Hin|a s Hin|a st kv Hin Hkv].
  - destruct (Ha _ Hin) as [Hx [Hy _]]. split; [|done]. split; [by apply address_range|done].
  - destruct (Ha _ Hin) as [Hx [_ Hy]]. split; [|cbn [snd] in *; lia]. split; [by apply address_range|done].
  - destruct (Hco _ Hin) as [Hx Hy]. split; [|by apply codeOf_range]. split; [by apply address_range|done].
  - destruct (Hco _ Hin) as [Hx Hy]. split; [|destruct (codeOf_range s Hr Hy); lia]. split; [by apply address_range|done].
  - destruct (Hs _ Hin) as [Hx Hy]. rewrite Forall_forall in Hy. destruct (Hy _ Hkv) as (p & x & -> & -> & Hp & Hz). split; [|done]. split; [by apply address_range|done].
Qed.
End consistent.

Section reading.
Context {D : Type} `{SmtDb D} `{CodeDb D}.
Context (keccak : list Z -> list Z) (keccak_length : forall b, length (keccak b) = 32%nat).
Context (Hash : list Z -> NodeKey -> NodeKey) (Hash_range : forall i c, key_ok (Hash i c)).

(** What the readers return of everything that the changes set to something else than zero. *)
Record reads_changes (fuel : nat) (db : D) (c : Changes) : Prop := {
  reads_balance a acc : (a, acc) ∈ accChanges c -> balanceOf acc <> 0 -> GetAccountBalance keccak Hash fuel db a = Ok (balanceOf acc);
  reads_nonce a acc : (a, acc) ∈ accChanges c -> nonceOf acc <> 0 -> GetAccountNonce keccak Hash fuel db a = Ok (nonceOf acc);
  reads_code a s : (a, s) ∈ codeChanges c -> fst (codeOf Hash s) <> 0 ->
    GetAccountCodeHash keccak Hash fuel db a = Ok (be_encode 32 (fst (codeOf Hash s)));
  reads_size a s i h : (a, s) ∈ codeChanges c -> snd (codeOf Hash s) <> 0 -> ReadAccountCodeSize keccak Hash fuel db a i h = Ok (snd (codeOf Hash s));
  reads_slot a st k v p x i : (a, st) ∈ storageChanges c -> (k, v) ∈ st -> StrValToBigInt k = Some p -> convertStringToBigInt v = Some x -> x <> 0 ->
    ReadAccountStorage keccak Hash fuel db a i (Some (be_encode 32 p)) = Ok (big_bytes x);
}.

(** All that is hashed for the keys of the changes. *)
Definition changesInputs (c : Changes) : list (list Z * NodeKey) := map fst (named Hash c) ≫= entryInputs Hash.

Lemma getValue_account fuel (db : D) a kind : address_ok a -> word_ok kind ->
  getValue keccak Hash fuel db kind a None = getValueInBytes fuel db (entryKey Hash (AccountEntry (be_decode a) kind)).
Proof.
  intros Ha Hk. unfold getValue. destruct (checksumHex_ok keccak keccak_length a Ha) as (s & -> & Hs). rewrite bind_ok.
  by rewrite (Key_ok Hash s (be_decode a)), bind_ok.
Qed.

Lemma getValue_slot fuel (db : D) kind a p : address_ok a -> 0 <= p < 2 ^ 256 ->
  getValue keccak Hash fuel db kind a (Some (be_encode 32 p)) = getValueInBytes fuel db (entryKey Hash (SlotEntry (be_decode a) p)).
Proof.
  intros Ha Hp. unfold getValue. destruct (checksumHex_ok keccak keccak_length a Ha) as (s & -> & Hs). rewrite bind_ok, Hs. cbn [nonNil].
  rewrite bind_ok, (KeyContractStorage_ok Hash (be_decode a) _ p), bind_ok; [done|].
  rewrite StrVal_Hash_String by (apply be_encode_ok || done). f_equal. by apply be_decode_encode_small.
Qed.

(** Entries of the changes with the same key have the same value. *)
Lemma sets_key_once c e z e' z' : changes_ok c -> changes_distinct c -> collision_free Hash (changesInputs c) ->
  sets Hash c e z -> sets Hash c e' z' -> entryKey Hash e = entryKey Hash e' -> z = z'.
Proof.
  intros Hc Hd Hcf Hs Hs' He. destruct (sets_ok Hash c Hc e z Hash_range Hs) as [Hok _], (sets_ok Hash c Hc e' z' Hash_range Hs') as [Hok' _].
  assert (e = e') as <-; [|by eapply sets_once]. eapply entryKey_inj; [exact Hcf|..|done|done|done].
  - apply (list_elem_of_fmap_2 fst _ (e, z)). by apply sets_named.
  - apply (list_elem_of_fmap_2 fst _ (e', z')). by apply sets_named.
Qed.

Lemma contents_same c evs evs' m : changes_ok c -> changes_distinct c -> collision_free Hash (changesInputs c) ->
  (forall e z, (e, z) ∈ evs <-> sets Hash c e z) -> (forall e z, (e, z) ∈ evs' <-> sets Hash c e z) ->
  foldl mput m (map (written Hash) evs) = foldl mput m (map (written Hash) evs').
Proof.
  intros Hc Hd Hcf Hevs Hevs'. apply mputs_same.
  - intros kv. rewrite !list_elem_of_fmap. split; intros ([e z] & -> & Hin); exists (e, z); (split; [done|]); [by apply Hevs', Hevs|by apply Hevs, Hevs'].
  - intros k v v' ([e z] & [= -> ->] & Hin)%list_elem_of_fmap ([e' z'] & [= He ->] & Hin')%list_elem_of_fmap. f_equal.
    apply (sets_key_once c e z e' z'); [done..|by apply Hevs|by apply Hevs|done].
Qed.

Section shown.
Context (fuel : nat) (db : D) (t : tree) (m : gmap NodeKey (list Z)) (c : Changes).
Context (evs : list (stateEntry * Z)) (Hevs : forall e z, (e, z) ∈ evs <-> sets Hash c e z).
Context (Hf : (256 < fuel)%nat) (Hc : changes_ok c) (Hd : changes_distinct c) (Hcf : collision_free Hash (changesInputs c)).
Context (Ht : tree_ok t) (Hm : holds t (foldl mput m (map (written Hash) evs))) (Hn : nonzero Hash 0 t) (Hk : keeps_tree Hash db t).

(** An entry that is set is the last one of its key. *)
Lemma sets_contents e z : sets Hash c e z -> z <> 0 -> foldl mput m (map (written Hash) evs) !! entryKey Hash e = Some (ScalarToArrayBig z).
Proof.
  intros Hs Hz. destruct (sets_ok Hash c Hc e z Hash_range Hs) as [He Hr]. rewrite (mputs_lookup_set (map (written Hash) evs) (entryKey Hash e) (ScalarToArrayBig z)).
  - rewrite is_zero_limbs by done. by rewrite (proj2 (Z.eqb_neq _ _)).
  - apply (list_elem_of_fmap_2 (written Hash) _ (e, z)). by apply Hevs.
  - intros v' ([e' z'] & [= He' ->] & Hin)%list_elem_of_fmap. f_equal. apply Hevs in Hin as Hs'.
    symmetry. by eapply sets_key_once.
Qed.

Lemma sets_read e z : sets Hash c e z -> z <> 0 -> getValueInBytes fuel db (entryKey Hash e) = Ok (big_bytes z).
Proof.
  intros Hs Hz. destruct (sets_ok Hash c Hc e z Hash_range Hs) as [_ Hr].
  rewrite (getValueInBytes_held Hash Hash_range fuel db t _ _ (ScalarToArrayBig z) Hf Ht Hm Hn Hk) by (by apply sets_contents).
  unfold value_bytes. by rewrite ArrayBigToScalar_ScalarToArrayBig.
Qed.

Lemma sets_account a kind z : sets Hash c (AccountEntry (be_decode a) kind) z -> address_ok a -> z <> 0 ->
  getValue keccak Hash fuel db kind a None = Ok (big_bytes z) /\ 0 <= z < 2 ^ 256.
Proof.
  intros Hs Ha Hz. destruct (sets_ok Hash c Hc _ z Hash_range Hs) as [(_ & Hw & _) Hr]. split; [|done].
  rewrite getValue_account by done. by apply sets_read.
Qed.

(** A tree that holds the entries of the changes shows them. *)
Lemma reads_changes_ok : reads_changes fuel db c.
Proof.
  split.
  - intros a acc Hin Hz. destruct (sets_account a KEY_BALANCE (balanceOf acc)) as [He Hr]; [by constructor|by eapply acc_address|done|].
    unfold GetAccountBalance. by rewrite He, bind_ok, Int_SetBytes_big.
  - intros a acc Hin Hz. destruct (sets_account a KEY_NONCE (nonceOf acc)) as [He Hr]; [by constructor|by eapply acc_address|done|].
    unfold GetAccountNonce. by rewrite He, bind_ok, Int_SetBytes_big.
  - intros a s Hin Hz. destruct (sets_account a SC_CODE (fst (codeOf Hash s))) as [He Hr]; [by constructor|by eapply code_address|done|].
    unfold GetAccountCodeHash. by rewrite He, bind_ok, Hash_SetBytes_big.
  - intros a s i h Hin Hz. destruct (sets_account a SC_LENGTH (snd (codeOf Hash s))) as [He Hr]; [by constructor|by eapply code_address|done|].
    destruct (codeOf_range Hash s Hash_range) as [_ Hl]; [by apply (proj1 (Forall_forall _ _) (changes_code c Hc) _ Hin)|].
    unfold ReadAccountCodeSize. rewrite He, bind_ok, be_decode_big_bytes by lia. cbv zeta. rewrite (proj2 (Z.ltb_lt _ _)), (proj2 (Z.ltb_ge _ _)) by lia. done.
  - intros a st k v p x i Hin Hkv Hp Hx Hz. pose proof (sets_slot Hash c a st (k, v) Hin Hkv) as Hs. cbn [fst snd] in Hs. rewrite Hp, Hx in Hs. cbn in Hs.
    destruct (sets_ok Hash c Hc _ x Hash_range Hs) as [[_ Hpr] _]. unfold ReadAccountStorage. rewrite getValue_slot by (done || by eapply storage_address).
    by apply sets_read.
Qed.
End shown.

Lemma reads_named fuel db t m c : (256 < fuel)%nat -> changes_ok c -> changes_distinct c -> collision_free Hash (changesInputs c) ->
  tree_ok t -> holds t (foldl mput m (stateEntries Hash c)) -> nonzero Hash 0 t -> keeps_tree Hash db t -> reads_changes fuel db c.
Proof. intros Hf Hc Hd Hcf Ht Hm Hn Hk. apply (reads_changes_ok fuel db t m c (named Hash c)); try done. intros e z. apply sets_named. Qed.
End reading.

(** ** The state of the chain in the database *)

Section committed.
Context {T : Type} `{Kv T} `{!KvLaws T}.
Context (tables : gmap string (gmap (list Z) nilable) -> list (string * gmap (list Z) nilable)).
Context (tables_ok : forall m, tables m ≡ₚ map_to_list m).
Context (order : gmap (list Z) nilable -> list (list Z * nilable)).
Context (order_ok : forall m, order m ≡ₚ map_to_list m).
Context (orderB : forall V, gmap Z V -> list (Z * V)) (orderB_ok : forall V (m : gmap Z V), orderB V m ≡ₚ map_to_list m).
Context (keccak : list Z -> list Z) (keccak_length : forall b, length (keccak b) = 32%nat).
Context (Hash : list Z -> NodeKey -> NodeKey) (Hash_range : forall i c, key_ok (Hash i c)).

(** C5: the state of the chain survives.  On a transaction that holds a tree, [SetStorage] in a
    batch opened with a channel that stays open succeeds, for changes that are well formed,
    name every account and slot once, have at least one entry and are a good batch
    ([batch_ok]), and from then on, both before and after [CommitBatch], the readers return
    every balance, nonce, code hash, code size and slot of the storage that the
    changes have set to something else than zero, whatever else is in the tree;
    [RollbackBatch] instead leaves the transaction as it was. *)
Theorem state_committed fuel cpuNum ctxDone c t0 m (tx : T) :
  (256 < fuel)%nat -> 1 <= cpuNum -> (forall l i, ctxDone l i = false) ->
  changes_ok c -> changes_distinct c -> collision_free Hash (changesInputs Hash c) -> stateEntries Hash c <> [] ->
  tree_ok t0 -> holds t0 m -> batch_ok Hash t0 (stateEntries Hash c) -> nonzero Hash 0 (foldl tput t0 (stateEntries Hash c)) ->
  keeps_tree Hash (NewEriDb tx) t0 -> depth_readable (NewEriDb tx) ->
  exists db, SetStorage keccak Hash false orderB cpuNum ctxDone c (OpenBatch (Some false) (NewEriDb tx)) =
      Some (Ok (map fst (stateEntries Hash c), values (stateEntries Hash c), db)) /\
    reads_changes keccak Hash fuel db c /\ RollbackBatch db = NewEriDb tx /\
    (pending_fits db -> exists db', CommitBatch tables order db = Ok db' /\ pending db' = None /\ reads_changes keccak Hash fuel db' c).
Proof.
  intros Hf Hcpu Hctx Hc Hd Hcf Hne Ht Hm Hb Hn Hk Hdep.
  destruct (SetStorage_ok (SmtDbLaws0 := Eri_laws (OpenBatch (Some false) (NewEriDb tx))) (BatchDbLaws0 := Eri_batch_laws _)
    (KeySourceLaws0 := Eri_source_laws _) keccak keccak_length Hash Hash_range orderB orderB_ok cpuNum ctxDone c t0 m
    (OpenBatch (Some false) (NewEriDb tx))) as (db & He & Hr); [done..|by apply open_represents|done|].
  destruct (tputs_ok (stateEntries Hash c) t0 m (stateEntries_ok Hash Hash_range c) Ht Hm) as [Ht1 Hm1].
  apply (represents_finished tables tables_ok order order_ok) in Hr as [Hrb Hkt Hcommit].
  exists db. split; [done|]. split; [by apply (reads_named keccak keccak_length Hash Hash_range fuel _ (foldl tput t0 (stateEntries Hash c)) m)|]. split; [done|].
  intros (db' & Hco & Hp & Hk')%Hcommit. exists db'. split; [done|]. split; [done|]. by apply (reads_named keccak keccak_length Hash Hash_range fuel _ (foldl tput t0 (stateEntries Hash c)) m).
Qed.
End committed.

(** ** Writing entry by entry *)

Section oneByOne.
Context {D : Type} `{SmtDb D} `{BatchDb D} `{KeySourceDb D} `{!SmtDbLaws D} `{!BatchDbLaws D} `{!KeySourceLaws D}.
Context (keccak : list Z -> list Z) (keccak_length : forall b, length (keccak b) = 32%nat).
Context (Hash : list Z -> NodeKey -> NodeKey) (Hash_range : forall i c, key_ok (Hash i c)).

(** A store with a tree that an insertion can start from. *)
Definition startsIn (held : D -> tree -> Prop) (d : D) (t : tree) : Prop := db_GetLastRoot d = Ok (Key_ToBigInt (th Hash 0 t)) /\ held d t.

(** The outcome of writing entries one after the other. *)
Definition wroteIn (held : D -> tree -> Prop) {A} (o : outcome (A * D)) (root : A -> Prop) (t : tree) : Prop :=
  exists a d, o = Ok (a, d) /\ startsIn held d t /\ root a.

#[local] Instance whole_held : TreeStore Hash (whole Hash) (sound_put Hash) := whole_store Hash Hash_range.

Definition starts : D -> tree -> Prop := startsIn (whole Hash).
Definition wrote {A} : outcome (A * D) -> (A -> Prop) -> tree -> Prop := wroteIn (whole Hash).

Lemma starts_represents d t : starts d t -> tree_ok t /\ nonzero Hash 0 t /\ represents Hash d t.
Proof. intros (Hr & Ht & Hn & Hs & Hd). exact (conj Ht (conj Hn (conj Hr (conj Hs Hd)))). Qed.

Lemma starts_root held d t : startsIn held d t -> getLastRoot d = Ok (th Hash 0 t).
Proof. intros [Hr _]. unfold getLastRoot. by rewrite Hr, bind_ok, ScalarToRoot_ToBigInt by (by apply th_ok). Qed.

Section held.
Context (held : D -> tree -> Prop) (good : tree -> NodeKey * list Z -> Prop) `{!TreeStore Hash held good}.

Lemma setEntry_held e z kind s account t d : ConvertHexToBigInt s = Some account -> startsIn held d t -> good t (written Hash (e, z)) ->
  wroteIn held (setEntry Hash false (entryKey Hash e) z kind s d) (fun r => NewRootScalar r = th Hash 0 (tput t (written Hash (e, z)))) (tput t (written Hash (e, z))).
Proof.
  intros Hs Hst Hg. unfold setEntry, InsertKA.
  change (NodeValue8FromBigIntArray (map Some (ScalarToArrayBig z))) with (Ok (map Some (ScalarToArrayBig z))). rewrite bind_ok.
  unfold insertSingle. rewrite (starts_root held d t Hst), bind_ok.
  destruct (held_insert Hash t (entryKey Hash e) (ScalarToArrayBig z) zeroKey d (written_ok Hash Hash_range (e, z)) (or_introl eq_refl) (proj2 Hst) Hg) as (mode & d1 & -> & Hh).
  rewrite bind_ok. cbn [NewRootScalar]. unfold setLastRoot. change (entryKey Hash e, ScalarToArrayBig z) with (written Hash (e, z)) in *. set (t' := tput t (written Hash (e, z))) in *.
  destruct (law_SetLastRoot d1 (Key_ToBigInt (th Hash 0 t'))) as (d2 & -> & Hsame & Hr); [by apply Key_ToBigInt_range, th_ok|]. rewrite !bind_ok.
  unfold ConvertHexToAddress. rewrite Hs. cbn [nonNil]. rewrite !bind_ok.
  destruct (InsertKeySource_same (entryKey Hash e) (EncodeKeySource kind (BigToAddress account) 0) d2) as (d3 & -> & Hs3 & Hr3). rewrite bind_ok.
  eexists _, d3. split; [done|]. split; [|done]. split; [by rewrite Hr3|]. by eapply (held_same Hash), (held_same Hash).
Qed.

Lemma SetAccountState_held s account balance nonce t d : ConvertHexToBigInt s = Some account -> startsIn held d t ->
  let ops := map (written Hash) [(AccountEntry account KEY_BALANCE, balance); (AccountEntry account KEY_NONCE, nonce)] in
  put_run good t ops ->
  wroteIn held (SetAccountState Hash false s balance nonce d) (fun r => r = Key_ToBigInt (th Hash 0 (foldl tput t ops))) (foldl tput t ops).
Proof.
  intros Hs Hst ops (Hg1 & Hg2 & _). unfold SetAccountState, SetAccountBalance, SetAccountNonce, KeyEthAddrBalance, KeyEthAddrNonce.
  rewrite !(Key_ok Hash s account), !bind_ok by done.
  destruct (setEntry_held _ balance KEY_BALANCE s account t d Hs Hst Hg1) as (r1 & d1 & -> & Hst1 & _). rewrite !bind_ok. cbn [snd].
  destruct (setEntry_held _ nonce KEY_NONCE s account _ d1 Hs Hst1 Hg2) as (r2 & d2 & -> & Hst2 & Hr2). rewrite bind_ok.
  eexists _, d2. split; [done|]. split; [done|]. cbn [fst]. by rewrite Hr2.
Qed.

Lemma SetContractBytecode_held s account code t d : ConvertHexToBigInt s = Some account -> convertBytecodeToBigInt Hash code = Ok (codeOf Hash code) -> startsIn held d t ->
  let ops := map (written Hash) [(AccountEntry account SC_CODE, fst (codeOf Hash code)); (AccountEntry account SC_LENGTH, snd (codeOf Hash code))] in
  put_run good t ops -> exists d', SetContractBytecode Hash false s code d = Ok d' /\ startsIn held d' (foldl tput t ops).
Proof.
  intros Hs Hc Hst ops (Hg1 & Hg2 & _). unfold SetContractBytecode, KeyContractCode, KeyContractLength.
  rewrite !(Key_ok Hash s account), !bind_ok by done. rewrite Hc, bind_ok. destruct (codeOf Hash code) as [bi len] eqn:E. cbn [fst snd] in *.
  destruct (setEntry_held _ bi SC_CODE s account t d Hs Hst Hg1) as (r1 & d1 & -> & Hst1 & _). rewrite !bind_ok. cbn [snd].
  destruct (setEntry_held _ len SC_LENGTH s account _ d1 Hs Hst1 Hg2) as (r2 & d2 & -> & Hst2 & Hr2). rewrite bind_ok.
  by exists d2.
Qed.
End held.

Lemma good_run_app ops ops' t : good_run Hash t (ops ++ ops') <-> good_run Hash t ops /\ good_run Hash (foldl tput t ops) ops'.
Proof. rewrite !good_run_puts. apply put_run_app. Qed.

Lemma SetAccountStorage_ok a acc t d : address_ok a -> starts d t -> good_run Hash t (map (written Hash) (accNamed (a, acc))) ->
  exists d', SetAccountStorage keccak Hash false a acc d = Ok d' /\ starts d' (foldl tput t (map (written Hash) (accNamed (a, acc)))).
Proof.
  intros Ha Hst Hg%good_run_puts. unfold SetAccountStorage. destruct (checksumHex_ok keccak keccak_length a Ha) as (s & -> & Hs). rewrite bind_ok.
  destruct (SetAccountState_held _ (sound_put Hash) s (be_decode a) (balanceOf acc) (nonceOf acc) t d Hs Hst Hg) as (r & d' & He & Hst' & _).
  exists d'. split; [|done]. by destruct acc as [acc|]; cbn [balanceOf nonceOf] in He; rewrite He, bind_ok.
Qed.

(** ** The storage of a contract *)

(** The value and its hash that belong to a string. *)
Definition hashed (v : string) : NodeValue8 * NodeKey :=
  let limbs := ScalarToArrayBig (default 0 (convertStringToBigInt v)) in (map Some limbs, valHash Hash limbs).

Lemma calcHashVal_ok v x : convertStringToBigInt v = Some x -> calcHashVal Hash v = Ok (hashed v).
Proof.
  intros Hv. unfold calcHashVal, hashed. rewrite Hv. cbn [nonNil]. rewrite bind_ok.
  change (NodeValue8FromBigIntArray (map Some (ScalarToArrayBig x))) with (Ok (map Some (ScalarToArrayBig x))). rewrite bind_ok.
  by rewrite ToUintArray_some by apply limbs_value_ok, ScalarToArrayBig_limbs.
Qed.

Definition storage_ok (storage : gmap string string) : Prop := map_Forall (fun k v => slot_ok (k, v)) storage.

(** A value that has a hash, or that is left out. *)
Definition convertible (v : string) : Prop := v = EmptyString \/ is_Some (convertStringToBigInt v).

#[export] Instance convertible_dec v : Decision (convertible v) := ltac:(unfold convertible; apply _).

Definition valueOf (storage : gmap string string) (k : string) : string := default EmptyString (storage !! k).

(** The keys that have a value, with it and its hash. *)
Definition withHashes (storage : gmap string string) (keys : list string) : list (string * (NodeValue8 * NodeKey)) :=
  map (fun k => (k, hashed (valueOf storage k))) (filter (fun k => valueOf storage k <> EmptyString) keys).

Lemma calcAll_ok storage keys : Forall (fun k => convertible (valueOf storage k)) keys -> calcAll Hash storage keys = Ok (withHashes storage keys).
Proof.
  unfold withHashes. induction 1 as [|k keys Hk _ IH]; [done|]. cbn [calcAll]. fold (valueOf storage k). cbv zeta. destruct (String.eqb_spec (valueOf storage k) EmptyString) as [He|Hne].
  - rewrite filter_cons_False by (by intros Hn). done.
  - rewrite filter_cons_True by done. cbn [map]. destruct Hk as [?|[x Hx]]; [done|]. by rewrite (calcHashVal_ok _ x Hx), bind_ok, IH, bind_ok.
Qed.

Lemma calcAll_panic storage keys : Exists (fun k => ~ convertible (valueOf storage k)) keys -> calcAll Hash storage keys = Panic.
Proof.
  induction keys as [|k keys IH]; [by intros ?%Exists_nil|]. intros He. cbn [calcAll]. fold (valueOf storage k). cbv zeta.
  destruct (decide (convertible (valueOf storage k))) as [Hc|Hc].
  - apply Exists_cons in He as [?|He]; [done|]. destruct (String.eqb_spec (valueOf storage k) EmptyString) as [_|Hne]; [by apply IH|].
    destruct Hc as [?|[x Hx]]; [done|]. by rewrite (calcHashVal_ok _ x Hx), bind_ok, IH.
  - destruct (String.eqb_spec (valueOf storage k) EmptyString) as [Hv|Hne]; [by destruct Hc; left|]. unfold calcHashVal.
    destruct (convertStringToBigInt (valueOf storage k)) as [x|] eqn:Hx; [|done]. destruct Hc. right. by exists x.
Qed.

Section shares.
Context (cpuNum : nat) (Hcpu : (0 < cpuNum)%nat).

Lemma cpuKeys_snoc i keys k : cpuKeys cpuNum i (keys ++ [k]) =
  cpuKeys cpuNum i keys ++ if decide (length keys mod cpuNum = i)%nat then [k] else [].
Proof.
  unfold cpuKeys. rewrite length_app. cbn [length]. rewrite Nat.add_comm, seq_S, omap_app. cbn [Nat.add]. f_equal.
  - apply list_omap_ext. apply Forall_Forall2_diag, Forall_forall. intros j Hj%elem_of_seq. case_decide; [|done]. by rewrite lookup_app_l by lia.
  - cbn. case_decide; [|done]. by rewrite lookup_app_r, Nat.sub_diag by lia.
Qed.

Lemma concat_none {A B} (f : A -> list B) l : (forall i, i ∈ l -> f i = []) -> concat (map f l) = [].
Proof.
  induction l as [|i l IH]; intros Hf; [done|]. cbn [map concat]. rewrite Hf by left. apply IH. intros j Hj. apply Hf. by right.
Qed.

Lemma concat_split {A B} (f g : A -> list B) l : concat (map (fun i => f i ++ g i) l) ≡ₚ concat (map f l) ++ concat (map g l).
Proof.
  induction l as [|i l IH]; [done|]. cbn [map concat]. rewrite IH, !(assoc_L (++)). apply Permutation_app_tail.
  rewrite <- !(assoc_L (++)). apply Permutation_app_head, Permutation_app_comm.
Qed.

Lemma pick_one {A} (x : A) r n : (r < n)%nat -> concat (map (fun i => if decide (r = i) then [x] else []) (seq 0 n)) = [x].
Proof.
  induction n as [|n IH]; intros Hr; [lia|]. rewrite seq_S, map_app, concat_app. cbn [map concat Nat.add]. rewrite app_nil_r.
  case_decide as Hd; [|by rewrite IH, app_nil_r by lia].
  rewrite concat_none; [done|]. intros i Hi%elem_of_seq. case_decide; [lia|done].
Qed.

(** Every key belongs to one goroutine. *)
Lemma shares_perm keys : concat (map (fun i => cpuKeys cpuNum i keys) (seq 0 cpuNum)) ≡ₚ keys.
Proof.
  induction keys as [|k keys IH] using rev_ind; [by rewrite concat_none|].
  rewrite (map_ext _ (fun i => cpuKeys cpuNum i keys ++ if decide (length keys mod cpuNum = i)%nat then [k] else [])) by (intros i; apply cpuKeys_snoc).
  rewrite concat_split, IH, pick_one; [done|]. apply Nat.mod_upper_bound. lia.
Qed.

(** No share is longer than the arrays for its results. *)
Lemma share_length i keys : (i < cpuNum)%nat -> (length (cpuKeys cpuNum i keys) <= length keys / cpuNum + length keys mod cpuNum)%nat.
Proof.
  intros Hi. assert (length (cpuKeys cpuNum i keys) <= length keys / cpuNum + if decide (i < length keys mod cpuNum) then 1 else 0)%nat as Hl.
  2: { case_decide; lia. }
  induction keys as [|k keys IH] using rev_ind; [cbn; lia|]. rewrite cpuKeys_snoc, !length_app. cbn [length]. set (L := length keys) in *.
  pose proof (Nat.div_mod_eq L cpuNum) as E. pose proof (Nat.mod_upper_bound L cpuNum ltac:(lia)) as Hm.
  destruct (decide (L mod cpuNum = cpuNum - 1)%nat) as [Hlast|Hlast].
  - assert ((L + 1) / cpuNum = L / cpuNum + 1 /\ (L + 1) mod cpuNum = 0)%nat as [-> ->].
    { replace (L + 1)%nat with (0 + (L / cpuNum + 1) * cpuNum)%nat by nia. rewrite Nat.div_add, Nat.Div0.mod_add, Nat.Div0.mod_0_l, Nat.Div0.div_0_l by lia. lia. }
    repeat case_decide; cbn [length] in *; lia.
  - assert ((L + 1) / cpuNum = L / cpuNum /\ (L + 1) mod cpuNum = L mod cpuNum + 1)%nat as [-> ->].
    { replace (L + 1)%nat with ((L mod cpuNum + 1) + (L / cpuNum) * cpuNum)%nat by nia. rewrite Nat.div_add, Nat.Div0.mod_add by lia.
      rewrite Nat.div_small, Nat.mod_small by lia. lia. }
    repeat case_decide; cbn [length] in *; lia.
Qed.
End shares.

Lemma slot_key_nonempty k v : slot_ok (k, v) -> k <> EmptyString.
Proof. intros (p & x & Hp & _) ->. done. Qed.

Section storage.
Context (storage : gmap string string) (keys : list string) (Hkeys : keys ≡ₚ map fst (map_to_list storage)).

Lemma keys_present : Forall (fun k => is_Some (storage !! k)) keys.
Proof.
  apply Forall_forall. intros k Hk. rewrite Hkeys in Hk. apply list_elem_of_fmap in Hk as ([k' v] & -> & Hv%elem_of_map_to_list). by exists v.
Qed.

Lemma keys_convertible : Forall (fun k => convertible (valueOf storage k)) keys <-> map_Forall (fun _ v => convertible v) storage.
Proof.
  split; [intros Hc k v Hk|intros Hc; eapply Forall_impl; [exact keys_present|intros k [v Hk]]].
  - rewrite Forall_forall in Hc. specialize (Hc k). unfold valueOf in Hc. rewrite Hk in Hc. apply Hc.
    rewrite Hkeys. apply list_elem_of_fmap. exists (k, v). split; [done|]. by apply elem_of_map_to_list.
  - unfold valueOf. rewrite Hk. by apply (Hc k).
Qed.

Lemma filter_all {A} (P : A -> Prop) `{!forall x, Decision (P x)} l : Forall P l -> filter P l = l.
Proof. induction 1 as [|x l Hx _ IH]; [done|]. by rewrite filter_cons_True, IH. Qed.

Lemma mapM_Ok {A B} (f : A -> outcome B) (g : A -> B) l : (forall x, x ∈ l -> f x = Ok (g x)) -> mapM f l = Ok (map g l).
Proof.
  induction l as [|x l IH]; intros Hf; [done|]. cbn [mapM map]. rewrite Hf, bind_ok by left. rewrite IH by (intros y Hy; apply Hf; by right). done.
Qed.

(** A panic of one goroutine ends the program, if none returns an error. *)
Lemma mapM_Panic {A B} (f : A -> outcome B) l : (forall x, x ∈ l -> f x = Panic \/ exists y, f x = Ok y) -> Exists (fun x => f x = Panic) l -> mapM f l = Panic.
Proof.
  induction l as [|x l IH]; intros Hf He; [by apply Exists_nil in He|]. cbn [mapM]. destruct (Hf x ltac:(left)) as [->|[y Hy]]; [done|]. rewrite Hy, bind_ok.
  apply Exists_cons in He as [He|He]; [congruence|]. rewrite IH; [done| |done]. intros z Hz. apply Hf. by right.
Qed.

Section cpus.
Context (cpuNum : nat) (Hcpu : (0 < cpuNum)%nat).

Lemma share_of k : k ∈ keys <-> exists i, (i < cpuNum)%nat /\ k ∈ cpuKeys cpuNum i keys.
Proof.
  rewrite <- (shares_perm cpuNum Hcpu keys) at 1. rewrite list_elem_of_In, in_concat. split.
  - intros (ks & (i & <- & Hi%in_seq)%in_map_iff & Hk). exists i. split; [lia|by apply list_elem_of_In].
  - intros (i & Hi & Hk). exists (cpuKeys cpuNum i keys). split; [|by apply list_elem_of_In]. apply in_map_iff. exists i. split; [done|]. apply in_seq. lia.
Qed.

(** A goroutine panics only if a value of its share does. *)
Lemma cpuShare_ok i : storage !! EmptyString = None -> (i < cpuNum)%nat -> cpuShare Hash storage cpuNum keys i =
  if decide (Forall (fun k => convertible (valueOf storage k)) (cpuKeys cpuNum i keys)) then Ok (withHashes storage (cpuKeys cpuNum i keys)) else Panic.
Proof.
  intros Hne Hi. unfold cpuShare. case_decide as Hc.
  2: { rewrite calcAll_panic; [done|]. by apply not_Forall_Exists in Hc; [|apply _]. }
  rewrite calcAll_ok, bind_ok by done. cbv zeta. rewrite decide_False.
  2: { unfold withHashes. rewrite length_map. pose proof (share_length cpuNum Hcpu i keys Hi) as Hl.
       pose proof (length_filter (fun k => valueOf storage k <> EmptyString) (cpuKeys cpuNum i keys)). lia. }
  f_equal. apply filter_all, Forall_forall. intros e (k & -> & [_ Hk]%list_elem_of_filter)%list_elem_of_fmap. cbn [fst]. intros ->.
  pose proof keys_present as Hp. rewrite Forall_forall in Hp. destruct (Hp EmptyString) as [v Hv]; [apply share_of; by exists i|congruence].
Qed.

Lemma calcStorage_perm : storage !! EmptyString = None -> map_Forall (fun _ v => convertible v) storage ->
  exists chs, calcStorage Hash cpuNum storage keys = Ok chs /\ chs ≡ₚ withHashes storage keys.
Proof.
  intros Hne Hc%keys_convertible. unfold calcStorage. case_decide; [|by rewrite calcAll_ok by done; eexists].
  rewrite decide_False by lia. rewrite (mapM_Ok _ (fun i => withHashes storage (cpuKeys cpuNum i keys))).
  2: { intros i Hi%elem_of_seq. rewrite cpuShare_ok, decide_True; [done| |done|lia]. rewrite Forall_forall in Hc |- *. intros k Hk. apply Hc, share_of. exists i. split; [lia|done]. }
  rewrite bind_ok. eexists. split; [done|]. unfold withHashes.
  rewrite <- (map_map (fun i => filter (fun k => valueOf storage k <> EmptyString) (cpuKeys cpuNum i keys)) (map _)), <- concat_map. apply Permutation_map.
  transitivity (filter (fun k => valueOf storage k <> EmptyString) (concat (map (fun i => cpuKeys cpuNum i keys) (seq 0 cpuNum)))).
  2: { by rewrite (shares_perm cpuNum Hcpu keys). }
  generalize (seq 0 cpuNum). intros l. induction l as [|i l IH]; [done|]. cbn [map concat]. by rewrite filter_app, IH.
Qed.

Lemma calcStorage_panic : storage !! EmptyString = None -> ~ map_Forall (fun _ v => convertible v) storage ->
  calcStorage Hash cpuNum storage keys = Panic /\ calcAll Hash storage keys = Panic.
Proof.
  intros Hne Hc. rewrite <- keys_convertible in Hc. apply not_Forall_Exists in Hc; [|apply _].
  assert (calcAll Hash storage keys = Panic) as Hall by (by apply calcAll_panic). split; [|done]. unfold calcStorage. case_decide; [|done].
  rewrite decide_False by lia. rewrite mapM_Panic; [done|..].
  - intros i Hi%elem_of_seq. rewrite cpuShare_ok by (done || lia). case_decide; eauto.
  - apply Exists_exists in Hc as (k & (i & Hi & Hk)%share_of & Hbad). apply Exists_exists. exists i. split; [apply elem_of_seq; lia|].
    rewrite cpuShare_ok, decide_False; [done| |done|done]. intros Hall'. rewrite Forall_forall in Hall'. by apply Hbad, Hall'.
Qed.

(** Whichever way the hashes are computed, they are those of the values. *)
Lemma calcStorage_map : storage !! EmptyString = None -> map_Forall (fun _ v => convertible v) storage ->
  exists chs, calcStorage Hash cpuNum storage keys = Ok chs /\ chs ≡ₚ withHashes storage keys /\
    list_to_map chs =@{gmap string (NodeValue8 * NodeKey)} hashed <$> filter (fun kv => snd kv <> EmptyString) storage.
Proof.
  intros Hne Hc. destruct (calcStorage_perm Hne Hc) as (chs & He & Hp). exists chs. split; [done|]. split; [done|].
  assert (map fst chs ≡ₚ filter (fun k => valueOf storage k <> EmptyString) keys) as Hfst by (rewrite Hp; unfold withHashes; rewrite map_map; cbn [fst]; by rewrite map_id).
  assert (NoDup (map fst chs)) as Hn by (rewrite Hfst; apply NoDup_filter; rewrite Hkeys; apply NoDup_fst_map_to_list).
  apply map_eq. intros k. rewrite lookup_fmap. destruct (filter (fun kv => snd kv <> EmptyString) storage !! k) as [v|] eqn:Hk; cbn [fmap option_fmap option_map].
  - apply map_lookup_filter_Some in Hk as [Hk Hv]. cbn [snd] in Hv. apply elem_of_list_to_map_1; [done|]. rewrite Hp. apply list_elem_of_fmap. exists k.
    unfold valueOf. rewrite Hk. split; [done|]. apply list_elem_of_filter. rewrite Hk. split; [done|].
    rewrite Hkeys. apply list_elem_of_fmap. exists (k, v). split; [done|]. by apply elem_of_map_to_list.
  - apply not_elem_of_list_to_map_1. rewrite Hfst. intros [Hv Hin]%list_elem_of_filter. pose proof keys_present as Hpr. rewrite Forall_forall in Hpr.
    destruct (Hpr k Hin) as [v Hk']. unfold valueOf in Hv. rewrite Hk' in Hv. cbn in Hv.
    assert (filter (fun kv => snd kv <> EmptyString) storage !! k = Some v) by (by apply map_lookup_filter_Some). congruence.
Qed.
End cpus.

Lemma storage_ok_convertible : storage_ok storage -> storage !! EmptyString = None /\ map_Forall (fun _ v => convertible v) storage /\
  filter (fun kv => snd kv <> EmptyString) storage = storage.
Proof.
  intros Hs. split_and!.
  - destruct (storage !! EmptyString) as [v|] eqn:Hv; [|done]. by apply Hs, slot_key_nonempty in Hv.
  - intros k v (p & x & _ & Hx & _)%Hs. right. by exists x.
  - apply map_filter_id. intros k v (p & x & _ & Hx & _)%Hs. cbn [snd] in *. by intros ->.
Qed.
End storage.

(** C18: the hashes of the values of a storage.  [SetContractStorage] computes them in parallel if
    there are more than a hundred slots.  With at least one goroutine, and if no key is the
    empty string, the shares cover the keys and none overflows the arrays made for its
    results, so that in whichever order the keys are visited the result is that of the
    sequential loop: if every value that is not empty is a number, the slots with such a
    value, each with the limbs and the hash of the number, those with an empty value being
    left out; otherwise both ways panic. *)
Theorem storage_hashes_agree cpuNum storage keys : (0 < cpuNum)%nat -> storage !! EmptyString = None -> keys ≡ₚ map fst (map_to_list storage) ->
  if decide (map_Forall (fun _ v => convertible v) storage) then
    exists chs chs', calcStorage Hash cpuNum storage keys = Ok chs /\ calcAll Hash storage keys = Ok chs' /\ chs ≡ₚ chs' /\
      list_to_map chs =@{gmap string (NodeValue8 * NodeKey)} hashed <$> filter (fun kv => snd kv <> EmptyString) storage
  else calcStorage Hash cpuNum storage keys = Panic /\ calcAll Hash storage keys = Panic.
Proof.
  intros Hcpu Hne Hk. case_decide as Hc; [|by apply calcStorage_panic].
  destruct (calcStorage_map storage keys Hk cpuNum Hcpu Hne Hc) as (chs & He & Hp & Hm). exists chs, (withHashes storage keys). split; [done|].
  split; [by apply calcAll_ok, keys_convertible|]. by split.
Qed.

(** The slots of a storage, in the order in which it is visited. *)
Definition slotsOf (storage : gmap string string) (keys : list string) : list (string * string) :=
  map (fun k => (k, default EmptyString (storage !! k))) keys.

Section held_slots.
Context (held : D -> tree -> Prop) (good : tree -> NodeKey * list Z -> Prop) `{!TreeStore Hash held good}.

Lemma insertStorageKeys_held s a storage keys : ConvertHexToBigInt s = Some (be_decode a) -> storage_ok storage ->
  Forall (fun k => is_Some (storage !! k)) keys ->
  let ops keys := map (written Hash) (storageNamed (a, slotsOf storage keys)) in
  forall t d, held d t -> put_run good t (ops keys) ->
  exists d', insertStorageKeys Hash false s (ScalarToArrayBig (be_decode a)) (hashed <$> storage) keys (th Hash 0 t) d =
      Ok (th Hash 0 (foldl tput t (ops keys)), d') /\ held d' (foldl tput t (ops keys)).
Proof.
  intros Ha Hs Hk ops. induction Hk as [|k keys [v Hv] _ IH]; intros t d Hh Hg; [by exists d|].
  destruct (Hs k v Hv) as (p & x & Hp & Hx & _). cbn [fst snd] in Hp, Hx.
  assert (ops (k :: keys) = written Hash (SlotEntry (be_decode a) p, x) :: ops keys) as Hops.
  { unfold ops, storageNamed, slotsOf, slotNamed. cbn [map fst snd]. rewrite Hv. cbn. by rewrite Hp, Hx. }
  rewrite Hops in Hg |- *. destruct Hg as (Hg1 & Hg). cbn [foldl].
  cbn [insertStorageKeys]. rewrite (KeyContractStorage_ok Hash _ k p Hp), bind_ok, lookup_fmap, Hv. cbn [fmap option_fmap option_map nonNil]. rewrite bind_ok.
  assert (hashed v = (map Some (ScalarToArrayBig x), valHash Hash (ScalarToArrayBig x))) as -> by (unfold hashed; by rewrite Hx). cbn [fst snd].
  destruct (held_insert Hash t (entryKey Hash (SlotEntry (be_decode a) p)) (ScalarToArrayBig x) (valHash Hash (ScalarToArrayBig x)) d (written_ok Hash Hash_range (SlotEntry (be_decode a) p, x)) (or_intror eq_refl) Hh Hg1)
    as (mode & d1 & -> & Hh1).
  rewrite bind_ok, Hp. cbn [nonNil]. unfold ConvertHexToAddress. rewrite Ha. cbn [nonNil]. rewrite !bind_ok.
  destruct (InsertKeySource_same (entryKey Hash (SlotEntry (be_decode a) p)) (EncodeKeySource SC_STORAGE (BigToAddress (be_decode a)) (BigToHash p)) d1)
    as (d2 & -> & [Hsame _]). rewrite bind_ok. cbn [NewRootScalar].
  apply (IH (tput t (written Hash (SlotEntry (be_decode a) p, x))) d2); [|done]. by eapply (held_same Hash).
Qed.

Lemma SetContractStorage_held cpuNum s a storage keys keys' t d : (0 < cpuNum)%nat -> ConvertHexToBigInt s = Some (be_decode a) -> storage_ok storage ->
  keys ≡ₚ map fst (map_to_list storage) -> keys' ≡ₚ map fst (map_to_list storage) -> startsIn held d t ->
  let ops := map (written Hash) (storageNamed (a, slotsOf storage keys')) in put_run good t ops ->
  wroteIn held (SetContractStorage Hash false cpuNum s storage keys keys' d) (fun r => r = Key_ToBigInt (th Hash 0 (foldl tput t ops))) (foldl tput t ops).
Proof.
  intros Hcpu Ha Hs Hk Hk' Hst ops Hg. unfold SetContractStorage.
  destruct (storage_ok_convertible storage Hs) as (Hse & Hsc & Hsf). destruct (calcStorage_map storage keys Hk cpuNum Hcpu Hse Hsc) as (chs & -> & _ & Hm). rewrite bind_ok, Hm, Hsf. unfold InsertStorage. rewrite Ha. cbn [nonNil].
  rewrite bind_ok, (starts_root held d t Hst), bind_ok.
  destruct (insertStorageKeys_held s a storage keys' Ha Hs (keys_present storage keys' Hk') t d (proj2 Hst) Hg) as (d1 & -> & Hh).
  rewrite bind_ok. unfold setLastRoot. fold ops in Hh |- *.
  destruct (law_SetLastRoot d1 (Key_ToBigInt (th Hash 0 (foldl tput t ops)))) as (d2 & -> & Hsame & Hroot); [apply Key_ToBigInt_range; by apply th_ok|].
  rewrite !bind_ok. eexists _, d2. split; [done|]. split; [|done]. split; [done|]. by eapply (held_same Hash).
Qed.
End held_slots.

Lemma tputs_tree_ok ops : Forall op_ok ops -> forall t, tree_ok t -> tree_ok (foldl tput t ops).
Proof. induction 1 as [|kv ops Hkv _ IH]; intros t Ht; [done|]. by apply IH, tput_ok. Qed.

(** A slot whose value is the empty string has no hash: [InsertStorage] follows a nil pointer. *)
Lemma empty_value_panics cpuNum s a k p t d : ConvertHexToBigInt s = Some (be_decode a) -> StrValToBigInt k = Some p -> starts d t ->
  SetContractStorage Hash false cpuNum s {[k := EmptyString]} [k] [k] d = Panic.
Proof.
  intros Ha Hp Hst. unfold SetContractStorage, calcStorage. rewrite map_size_singleton, decide_False by lia. cbn [calcAll]. rewrite lookup_singleton_eq.
  cbn [default from_option id String.eqb]. cbv zeta. rewrite bind_ok. unfold InsertStorage. rewrite Ha. cbn [nonNil].
  rewrite bind_ok, (starts_root _ _ _ Hst), bind_ok. cbn [insertStorageKeys]. by rewrite (KeyContractStorage_ok Hash _ k p Hp), bind_ok, list_to_map_nil, lookup_empty.
Qed.
End oneByOne.

(** ** Examples *)

Definition example_keccak (b : list Z) : list Z := replicate 32 255.
Definition example_address : Address := replicate 19 0 ++ [0xab].

(** A balance and a nonce. *)
Definition example_changes : Changes := mkChanges [(example_address, Some (mkAccount true 1 5 [] [] 0 0))] [] [].

Lemma example_address_ok : address_ok example_address.
Proof. split; [|done]. unfold bytes_ok, byte_ok, example_address. repeat (apply Forall_cons; split; [lia|]). by apply Forall_nil. Qed.

Lemma example_changes_ok : changes_ok example_changes.
Proof. split; [|by apply Forall_nil..]. apply Forall_singleton. split; [apply example_address_ok|split; cbn; lia]. Qed.

Lemma example_changes_distinct : changes_distinct example_changes.
Proof. split; [apply NoDup_singleton|apply NoDup_nil_2..|by apply Forall_nil]. Qed.

Lemma set_storage_refines_witness : exists db' t,
  SetStorage example_keccak toyHash false anyOrder 1 (fun _ _ => false) example_changes NewMemDb =
    Some (Ok (map fst (stateEntries toyHash example_changes), values (stateEntries toyHash example_changes), db')) /\
  tget 0 (entryKey toyHash (AccountEntry 0xab KEY_BALANCE)) t = Some (example_value 5) /\ represents toyHash db' t.
Proof.
  destruct E_ok as [Ht Hh].
  destruct (set_storage_refines example_keccak (fun _ => eq_refl) toyHash toyHash_range anyOrder anyOrder_ok 1 (fun _ _ => false) example_changes E ∅ NewMemDb
    ltac:(lia) ltac:(done) example_changes_ok ltac:(done) Ht Hh) as (db' & t & He & _ & Hm & Hr).
  - split; [done|]. split; [by apply Forall_nil|done].
  - apply batch_okb_ok. vm_compute. reflexivity.
  - exists db', t. split; [exact He|]. split; [|exact Hr]. rewrite Hm. vm_compute. reflexivity.
Defined.

(** The balance is read from the database after the commit. *)
Lemma state_committed_witness : exists db db',
  SetStorage example_keccak toyHash false anyOrder 1 (fun _ _ => false) example_changes (OpenBatch (Some false) (NewEriDb (∅ : MemKv))) =
    Some (Ok (map fst (stateEntries toyHash example_changes), values (stateEntries toyHash example_changes), db)) /\
  CommitBatch anyTables anyKeys db = Ok db' /\ GetAccountBalance example_keccak toyHash 257 db' example_address = Ok 5.
Proof.
  destruct E_ok as [Ht Hh].
  destruct (state_committed anyTables anyTables_ok anyKeys anyKeys_ok anyOrder anyOrder_ok example_keccak (fun _ => eq_refl) toyHash toyHash_range
    257 1 (fun _ _ => false) example_changes E ∅ (∅ : MemKv) ltac:(lia) ltac:(lia) ltac:(done) example_changes_ok example_changes_distinct) as (db & He & _ & _ & Hc);
    [apply collision_freeb_ok; vm_compute; reflexivity|done|done|done|apply batch_okb_ok; vm_compute; reflexivity|
     apply nonzerob_ok; vm_compute; reflexivity|apply empty_tx_keeps|done|].
  destruct Hc as (db' & Hc & _ & Hr).
  - intros b Hb. apply batch_fitsb_ok.
    assert (match SetStorage example_keccak toyHash false anyOrder 1 (fun _ _ => false) example_changes (OpenBatch (Some false) (NewEriDb (∅ : MemKv))) with
      Some (Ok (_, db)) => match pending db with Some b => batch_fitsb b | None => false end | _ => false end = true) as Hfits by (vm_compute; reflexivity).
    by rewrite He, Hb in Hfits.
  - exists db, db'. split; [exact He|]. split; [exact Hc|]. by apply (reads_balance _ _ _ _ _ Hr example_address (Some (mkAccount true 1 5 [] [] 0 0))); [left|].
Defined.

(** A storage with 120 slots, one of them with an empty value. *)
Fixpoint manyKey (i : nat) : string := match i with O => "1"%string | S i => String "1" (manyKey i) end.

Definition manyEntries : list (string * string) := map (fun i => (manyKey i, if decide (i = 7%nat) then EmptyString else "0x5"%string)) (seq 0 120).

Definition manySlots : gmap string string := list_to_map manyEntries.

Lemma manyKey_length i : String.length (manyKey i) = S i.
Proof. induction i as [|i IH]; [done|]. cbn [manyKey String.length]. by rewrite IH. Qed.

Lemma many_NoDup : NoDup (map fst manyEntries).
Proof.
  unfold manyEntries. rewrite map_map. cbn [fst]. apply NoDup_fmap_2_strong; [|apply NoDup_seq].
  intros i j _ _ He. apply (f_equal String.length) in He. rewrite !manyKey_length in He. lia.
Qed.

Lemma many_size : size manySlots = 120%nat.
Proof. rewrite <- length_map_to_list. unfold manySlots. rewrite (map_to_list_to_map manyEntries many_NoDup). unfold manyEntries. by rewrite length_map, length_seq. Qed.

Lemma many_value k v : manySlots !! k = Some v -> k <> EmptyString /\ convertible v.
Proof.
  intros Hk%elem_of_list_to_map_2. apply list_elem_of_fmap in Hk as (i & [= -> ->] & _). split.
  - intros He. pose proof (manyKey_length i) as Hl. by rewrite He in Hl.
  - case_decide; [by left|right]. exists 5. vm_compute. reflexivity.
Qed.

Lemma many_skipped : manySlots !! manyKey 7 = Some EmptyString.
Proof.
  apply elem_of_list_to_map_1; [apply many_NoDup|]. apply list_elem_of_fmap. exists 7%nat. split; [by rewrite decide_True|]. apply elem_of_seq. lia.
Qed.

(** The goroutines agree with the loop, and the slot without a value is left out. *)
Lemma storage_hashes_agree_witness : let keys := map fst (map_to_list manySlots) in
  (100 < size manySlots)%nat /\ manySlots !! manyKey 7 = Some EmptyString /\
  exists chs chs', calcStorage toyHash 4 manySlots keys = Ok chs /\ calcAll toyHash manySlots keys = Ok chs' /\ chs ≡ₚ chs' /\
    (list_to_map chs : gmap string (NodeValue8 * NodeKey)) !! manyKey 7 = None.
Proof.
  intros keys. split; [rewrite many_size; lia|]. split; [exact many_skipped|].
  assert (manySlots !! EmptyString = None) as Hne.
  { destruct (manySlots !! EmptyString) as [v|] eqn:Hv; [|reflexivity]. by destruct (many_value _ _ Hv). }
  pose proof (storage_hashes_agree toyHash 4 manySlots keys ltac:(lia) Hne (Permutation_refl _)) as Hagree.
  rewrite decide_True in Hagree by (intros k v Hk; exact (proj2 (many_value k v Hk))). destruct Hagree as (chs & chs' & He & He' & Hp & Hm).
  exists chs, chs'. split; [exact He|]. split; [exact He'|]. split; [exact Hp|]. rewrite Hm, lookup_fmap.
  rewrite (proj2 (map_lookup_filter_None (fun kv : string * string => snd kv <> EmptyString) manySlots (manyKey 7))); [reflexivity|].
  right. intros v Hv. rewrite many_skipped in Hv. injection Hv as <-. cbn [snd]. intros Hn. by apply Hn.
Defined.
