(* ===== verification/Genesis.v ===== *)
(** * The tree of the genesis block (core/genesis_write.go, genesis_write_zkevm.go)

    The allocation of the genesis block is written account by account into a tree in memory,
    in the order of the addresses.  [genesisTree] is what [GenesisToBlock] does to that tree; the
    state database that it fills beside it is not modelled.  The order in which the maps of the
    storage are visited, and how many goroutines hash their values, are parameters. *)
From stdpp Require Import sorting.
From S2P Require Import Prelude Bytes Hex SmtProof Kv SmtUtils SmtTree SmtDb Smt SmtRefine RetainList SmtRead SmtBatch SmtBatchTheory SmtBatchRuns SmtKeys SmtMdbx SmtEntity SmtEntityTheory.

(** Keys and values of the storage are hashes, 32 bytes. *)
Record GenesisAccount := mkGenesisAccount {
  Constructor : list Z;
  Code : list Z;
  Storage : gmap (list Z) (list Z);
  ga_Balance : option Z;
  ga_Nonce : Z;
  PrivateKey : list Z;
}.

Definition GenesisAlloc : Type := gmap Address GenesisAccount.

Definition bytes_le (a b : list Z) : Prop := bytes_leb a b = true.

#[export] Instance bytes_le_dec a b : Decision (bytes_le a b) := decide (bytes_leb a b = true).

Section genesis.
Context {D : Type} `{SmtDb D} `{BatchDb D} `{KeySourceDb D}.
Context (keccak : list Z -> list Z) (Hash : list Z -> NodeKey -> NodeKey).
Context (cpuNum : nat) (visit : bool -> gmap string string -> list string).

(** [RoSMT.LastRoot] panics on an error. *)
Definition smt_LastRoot (s : D) : outcome Z :=
  match db_GetLastRoot s with Ok lr => Ok lr | _ => Panic end.

(** The storage with keys and values in hexadecimal. *)
Definition storageStrings (storage : gmap (list Z) (list Z)) : gmap string string :=
  list_to_map (map (fun kv => (Hash_String (fst kv), Hash_String (snd kv))) (map_to_list storage)).

Definition processAccount (a : GenesisAccount) (addr : Address) (s : D) : outcome (Z * D) :=
  ethAddr ← checksumHex keccak addr;
  balance ← nonNil (ga_Balance a);
  r ← SetAccountState Hash false ethAddr balance (ga_Nonce a) s;
  let s := snd (r : Z * D) in
  s ← (if 0 <? Z.of_nat (length (Code a)) then
         let xs := EncodeToString (Code a) in SetContractBytecode Hash false ethAddr xs s
       else Ok s);
  let sm := storageStrings (Storage a) in
  s ← (if 0 <? Z.of_nat (size sm) then
         r ← SetContractStorage Hash false cpuNum ethAddr sm (visit false sm) (visit true sm) s; Ok (snd (r : Z * D))
       else Ok s);
  root ← smt_LastRoot s;
  Ok (root, s).

(** [slices.Sort] of the addresses as strings. *)
Definition sortedAllocKeys (m : GenesisAlloc) : list Address := merge_sort bytes_le (map fst (map_to_list m)).

(** The balance must fit into 256 bits; [ro] is nil until an account is written. *)
Fixpoint genesisLoop (keys : list Address) (alloc : GenesisAlloc) (ro : option Z) (s : D) : outcome (option Z * D) :=
  match keys with
  | [] => Ok (ro, s)
  | addr :: keys =>
      account ← nonNil (alloc !! addr);
      balance ← nonNil (ga_Balance account);
      if 2 ^ 256 <=? Z.abs balance then Panic
      else rs ← processAccount account addr s; genesisLoop keys alloc (Some (fst (rs : Z * D))) (snd rs)
  end.

(** The root of the genesis block and the tree. *)
Definition genesisTree (alloc : GenesisAlloc) (s : D) : outcome (Z * D) :=
  rs ← genesisLoop (sortedAllocKeys alloc) alloc None s;
  let '(ro, s) := rs : option Z * D in
  ro ← nonNil ro;
  Ok (BigToHash ro, s).
End genesis.

(** ** The entries of an allocation *)

Definition account_storage_ok (storage : gmap (list Z) (list Z)) : Prop :=
  map_Forall (fun k v => (bytes_ok k /\ length k = 32%nat) /\ bytes_ok v /\ length v = 32%nat) storage.

Record genesis_account_ok (a : GenesisAccount) : Prop := {
  ga_balance_ok : exists b, ga_Balance a = Some b /\ 0 <= b < 2 ^ 256;
  ga_nonce_ok : 0 <= ga_Nonce a < 2 ^ 64;
  ga_code_ok : bytes_ok (Code a) /\ Z.of_nat (length (Code a)) < 2 ^ 50;
  ga_storage_ok : account_storage_ok (Storage a);
}.

Definition alloc_ok (alloc : GenesisAlloc) : Prop := map_Forall (fun addr a => address_ok addr /\ genesis_account_ok a) alloc.

Lemma Hash_String_32 h : bytes_ok h -> length h = 32%nat ->
  StrValToBigInt (Hash_String h) = Some (be_decode h) /\ convertStringToBigInt (Hash_String h) = Some (be_decode h) /\ 0 <= be_decode h < 2 ^ 256.
Proof.
  intros Hb Hl. assert (h <> []) as Hne by (by intros ->). split; [by apply StrVal_Hash_String|]. split; [by apply StrVal_Hash_String|].
  pose proof (be_decode_range h Hb) as Hr. by rewrite Hl in Hr.
Qed.

(** Every string of a storage comes from a hash. *)
Lemma storageStrings_lookup storage k v : storageStrings storage !! k = Some v ->
  exists k0 v0, storage !! k0 = Some v0 /\ k = Hash_String k0 /\ v = Hash_String v0.
Proof. intros ([k0 v0] & [= -> ->] & Hin%elem_of_map_to_list)%elem_of_list_to_map_2%list_elem_of_fmap. eauto. Qed.

Lemma storageStrings_ok storage : account_storage_ok storage -> storage_ok (storageStrings storage).
Proof.
  intros Hs k v (k0 & v0 & Hl & -> & ->)%storageStrings_lookup. destruct (Hs k0 v0 Hl) as ([Hb Hl0] & Hbv & Hlv).
  destruct (Hash_String_32 k0 Hb Hl0) as (Hk & _ & Hr), (Hash_String_32 v0 Hbv Hlv) as (_ & Hv & Hrv). by exists (be_decode k0), (be_decode v0).
Qed.

Section entries.
Context (Hash : list Z -> NodeKey -> NodeKey) (Hash_range : forall i c, key_ok (Hash i c)).
Context (visit : bool -> gmap string string -> list string) (visit_ok : forall b m, visit b m ≡ₚ map fst (map_to_list m)).

Definition genesisCodeNamed (addr : Address) (a : GenesisAccount) : list (stateEntry * Z) :=
  if 0 <? Z.of_nat (length (Code a)) then codeNamed Hash (addr, EncodeToString (Code a)) else [].

Definition genesisSlotsNamed (addr : Address) (a : GenesisAccount) : list (stateEntry * Z) :=
  let sm := storageStrings (Storage a) in storageNamed (addr, slotsOf sm (visit true sm)).

(** What the account sets, in the order in which it is written. *)
Definition genesisAccountNamed (addr : Address) (a : GenesisAccount) : list (stateEntry * Z) :=
  [(AccountEntry (be_decode addr) KEY_BALANCE, default 0 (ga_Balance a)); (AccountEntry (be_decode addr) KEY_NONCE, ga_Nonce a)] ++
  genesisCodeNamed addr a ++ genesisSlotsNamed addr a.

Definition genesisNamed (alloc : GenesisAlloc) (keys : list Address) : list (stateEntry * Z) :=
  keys ≫= fun addr => match alloc !! addr with Some a => genesisAccountNamed addr a | None => [] end.
End entries.

Section genesis_ok.
Context {D : Type} `{SmtDb D} `{BatchDb D} `{KeySourceDb D} `{!SmtDbLaws D} `{!BatchDbLaws D} `{!KeySourceLaws D}.
Context (keccak : list Z -> list Z) (keccak_length : forall b, length (keccak b) = 32%nat).
Context (Hash : list Z -> NodeKey -> NodeKey) (Hash_range : forall i c, key_ok (Hash i c)).
Context (cpuNum : nat) (Hcpu : (0 < cpuNum)%nat).
Context (visit : bool -> gmap string string -> list string) (visit_ok : forall b m, visit b m ≡ₚ map fst (map_to_list m)).

#[local] Instance genesis_held : TreeStore Hash (whole Hash) (sound_put Hash) := whole_store Hash Hash_range.

Lemma smt_LastRoot_ok (d : D) t : starts Hash d t -> smt_LastRoot d = Ok (Key_ToBigInt (th Hash 0 t)).
Proof. intros [Hr _]. unfold smt_LastRoot. by rewrite Hr. Qed.

Lemma code_string_ok code : bytes_ok code -> Z.of_nat (length code) < 2 ^ 50 -> code_ok (EncodeToString code).
Proof. intros Hb Hl. by exists code, false. Qed.

Lemma genesisCode_ok s addr a t d : ConvertHexToBigInt s = Some (be_decode addr) -> genesis_account_ok a -> starts Hash d t ->
  let ops := map (written Hash) (genesisCodeNamed Hash addr a) in good_run Hash t ops ->
  exists d', (if 0 <? Z.of_nat (length (Code a)) then SetContractBytecode Hash false s (EncodeToString (Code a)) d else Ok d) = Ok d' /\
    starts Hash d' (foldl tput t ops).
Proof.
  intros Haddr [_ _ [Hb Hl] _] Hs. unfold genesisCodeNamed. destruct (0 <? Z.of_nat (length (Code a))); [|by exists d]. intros Hg%good_run_puts.
  apply (SetContractBytecode_held Hash Hash_range _ (sound_put Hash)); [done..|by apply codeOf_ok, code_string_ok|done|done].
Qed.

Lemma genesisSlots_ok s addr a t d : ConvertHexToBigInt s = Some (be_decode addr) -> genesis_account_ok a -> starts Hash d t ->
  let sm := storageStrings (Storage a) in
  let ops := map (written Hash) (genesisSlotsNamed visit addr a) in good_run Hash t ops ->
  exists d', (if 0 <? Z.of_nat (size sm) then
      r ← SetContractStorage Hash false cpuNum s sm (visit false sm) (visit true sm) d; Ok (snd (r : Z * D)) else Ok d) = Ok d' /\
    starts Hash d' (foldl tput t ops).
Proof.
  intros Haddr [_ _ _ Hst] Hs sm. unfold genesisSlotsNamed. fold sm. cbv zeta. intros Hg%good_run_puts. destruct (Z.ltb_spec 0 (Z.of_nat (size sm))) as [Hz|Hz].
  - destruct (SetContractStorage_held Hash Hash_range _ (sound_put Hash) cpuNum s addr sm (visit false sm) (visit true sm) t d) as (r & d' & -> & Hs' & _); try done;
      [by apply storageStrings_ok|]. rewrite bind_ok. by exists d'.
  - exists d. split; [done|]. assert (sm = ∅) as -> by (apply map_size_empty_inv; lia).
    pose proof (visit_ok true ∅) as Hv. rewrite map_to_list_empty in Hv. apply Permutation_nil_r in Hv. by rewrite Hv.
Qed.

Lemma processAccount_ok addr a t d : address_ok addr -> genesis_account_ok a -> starts Hash d t ->
  let ops := map (written Hash) (genesisAccountNamed Hash visit addr a) in good_run Hash t ops ->
  wrote Hash (processAccount keccak Hash cpuNum visit a addr d) (fun r => r = Key_ToBigInt (th Hash 0 (foldl tput t ops))) (foldl tput t ops).
Proof.
  intros Ha Hok Hs ops Hg. unfold processAccount. destruct (checksumHex_ok keccak keccak_length addr Ha) as (s & -> & Haddr).
  destruct (ga_balance_ok a Hok) as (b & Hb & _). rewrite bind_ok, Hb.
  unfold ops, genesisAccountNamed in Hg |- *. rewrite Hb in Hg |- *. cbn [default from_option id nonNil] in Hg |- *. rewrite bind_ok. rewrite !map_app in Hg |- *.
  apply good_run_app in Hg as [Hg1%good_run_puts [Hg2 Hg3]%good_run_app]. rewrite !foldl_app.
  destruct (SetAccountState_held Hash Hash_range _ (sound_put Hash) s (be_decode addr) b (ga_Nonce a) t d Haddr Hs Hg1) as (r1 & d1 & -> & Hs1 & _). rewrite bind_ok. cbn [snd]. cbv zeta.
  destruct (genesisCode_ok s addr a _ d1 Haddr Hok Hs1 Hg2) as (d2 & -> & Hs2). rewrite bind_ok.
  destruct (genesisSlots_ok s addr a _ d2 Haddr Hok Hs2 Hg3) as (d3 & -> & Hs3). rewrite bind_ok.
  rewrite (smt_LastRoot_ok d3 _ Hs3), bind_ok. by eexists _, d3.
Qed.

Lemma genesisLoop_ok alloc keys : alloc_ok alloc -> Forall (fun addr => is_Some (alloc !! addr)) keys ->
  forall ro t d, starts Hash d t -> let ops := map (written Hash) (genesisNamed Hash visit alloc keys) in good_run Hash t ops ->
  wrote Hash (genesisLoop keccak Hash cpuNum visit keys alloc ro d)
    (fun r => r = if bool_decide (keys = []) then ro else Some (Key_ToBigInt (th Hash 0 (foldl tput t ops)))) (foldl tput t ops).
Proof.
  intros Hok. induction 1 as [|addr keys [a Ha] _ IH]; intros ro t d Hs ops Hg; [by eexists _, d|]. destruct (Hok addr a Ha) as [Haddr Hacc].
  assert (ops = map (written Hash) (genesisAccountNamed Hash visit addr a) ++ map (written Hash) (genesisNamed Hash visit alloc keys)) as Hops.
  { unfold ops, genesisNamed. rewrite bind_cons, Ha. apply map_app. }
  rewrite Hops in Hg |- *. apply good_run_app in Hg as [Hg1 Hg2]. rewrite foldl_app. cbn [genesisLoop]. rewrite Ha. cbn [nonNil].
  destruct (ga_balance_ok a Hacc) as (b & Hb & Hr). rewrite bind_ok, Hb. cbn [nonNil]. rewrite bind_ok, (proj2 (Z.leb_gt _ _)) by lia.
  destruct (processAccount_ok addr a t d Haddr Hacc Hs Hg1) as (r1 & d1 & -> & Hs1 & Hr1). rewrite bind_ok. cbn [fst snd].
  destruct (IH (Some r1) _ d1 Hs1 Hg2) as (r2 & d2 & -> & Hs2 & Hr2). eexists _, d2. split; [done|]. split; [done|]. rewrite Hr2.
  case_bool_decide as Hk; [|done]. subst keys. by rewrite Hr1.
Qed.
End genesis_ok.

(** ** The allocation as changes of the state *)

Definition genesisAcc (a : GenesisAccount) : Account := mkAccount true (ga_Nonce a) (default 0 (ga_Balance a)) [] [] 0 0.

Definition genesisChanges (alloc : GenesisAlloc) : Changes :=
  mkChanges (map (fun aa => (fst aa, Some (genesisAcc (snd aa)))) (map_to_list alloc))
    (map (fun aa => (fst aa, EncodeToString (Code (snd aa)))) (filter (fun aa => 0 < Z.of_nat (length (Code (snd aa)))) (map_to_list alloc)))
    (map (fun aa => (fst aa, map_to_list (storageStrings (Storage (snd aa))))) (map_to_list alloc)).

Lemma genesis_acc alloc a acc : (a, acc) ∈ accChanges (genesisChanges alloc) <-> exists ga, alloc !! a = Some ga /\ acc = Some (genesisAcc ga).
Proof.
  cbn [genesisChanges accChanges]. rewrite list_elem_of_fmap. split.
  - intros ([a0 ga] & [= -> ->] & Hin%elem_of_map_to_list). eauto.
  - intros (ga & Hin & ->). exists (a, ga). split; [done|]. by apply elem_of_map_to_list.
Qed.

Lemma genesis_code alloc a s : (a, s) ∈ codeChanges (genesisChanges alloc) <->
  exists ga, alloc !! a = Some ga /\ 0 < Z.of_nat (length (Code ga)) /\ s = EncodeToString (Code ga).
Proof.
  cbn [genesisChanges codeChanges]. rewrite list_elem_of_fmap. split.
  - intros ([a0 ga] & [= -> ->] & [Hl Hin%elem_of_map_to_list]%list_elem_of_filter). eauto.
  - intros (ga & Hin & Hl & ->). exists (a, ga). split; [done|]. apply list_elem_of_filter. split; [done|]. by apply elem_of_map_to_list.
Qed.

Lemma genesis_storage alloc a st : (a, st) ∈ storageChanges (genesisChanges alloc) <->
  exists ga, alloc !! a = Some ga /\ st = map_to_list (storageStrings (Storage ga)).
Proof.
  cbn [genesisChanges storageChanges]. rewrite list_elem_of_fmap. split.
  - intros ([a0 ga] & [= -> ->] & Hin%elem_of_map_to_list). eauto.
  - intros (ga & Hin & ->). exists (a, ga). split; [done|]. by apply elem_of_map_to_list.
Qed.

Lemma genesisChanges_ok alloc : alloc_ok alloc -> changes_ok (genesisChanges alloc).
Proof.
  intros Hok. split; apply Forall_forall.
  - intros [a acc] (ga & Hin & ->)%genesis_acc. destruct (Hok a ga Hin) as [Ha [(b & Hb & Hr) Hn _ _]]. split; [done|]. unfold account_ok. cbn. by rewrite Hb.
  - intros [a s] (ga & Hin & _ & ->)%genesis_code. destruct (Hok a ga Hin) as [Ha [_ _ [Hb Hl] _]]. split; [done|]. by apply code_string_ok.
  - intros [a st] (ga & Hin & ->)%genesis_storage. destruct (Hok a ga Hin) as [Ha [_ _ _ Hs]]. split; [done|]. apply Forall_forall.
    intros [k v] Hkv%elem_of_map_to_list. by apply (storageStrings_ok _ Hs).
Qed.

Lemma genesisChanges_distinct alloc : alloc_ok alloc -> changes_distinct (genesisChanges alloc).
Proof.
  intros Hok. split.
  - cbn [genesisChanges accChanges]. rewrite map_map. apply NoDup_fst_map_to_list.
  - cbn [genesisChanges codeChanges]. rewrite map_map. cbn [fst].
    eapply sublist_NoDup; [apply (NoDup_fst_map_to_list alloc)|]. apply (fmap_sublist fst), sublist_filter.
  - cbn [genesisChanges storageChanges]. rewrite map_map. apply NoDup_fst_map_to_list.
  - apply Forall_forall. intros [a st] (ga & Hin & ->)%genesis_storage. destruct (Hok a ga Hin) as [_ [_ _ _ Hs]]. cbn [snd].
    apply (NoDup_fmap_2_strong (fun kv => StrValToBigInt (fst kv))); [|apply NoDup_map_to_list].
    intros [k v] [k' v'] Hkv%elem_of_map_to_list Hkv'%elem_of_map_to_list He. cbn [fst] in He.
    destruct (storageStrings_lookup _ _ _ Hkv) as (k0 & v0 & Hl & Ek & _), (storageStrings_lookup _ _ _ Hkv') as (k1 & v1 & Hl' & Ek' & _).
    destruct (Hs _ _ Hl) as ([Hb0 Hl0] & _), (Hs _ _ Hl') as ([Hb1 Hl1] & _). subst k k'.
    rewrite (proj1 (Hash_String_32 k0 Hb0 Hl0)), (proj1 (Hash_String_32 k1 Hb1 Hl1)) in He. injection He as He.
    assert (k0 = k1) as <- by (apply be_decode_inj; [done..|by rewrite Hl0, Hl1|done]). f_equal. congruence.
Qed.

Lemma sorted_keys (alloc : GenesisAlloc) a : a ∈ sortedAllocKeys alloc <-> is_Some (alloc !! a).
Proof.
  unfold sortedAllocKeys. rewrite merge_sort_Permutation, list_elem_of_fmap. split.
  - intros ([a' ga] & -> & Hin%elem_of_map_to_list). eauto.
  - intros [ga Hga]. exists (a, ga). split; [done|]. by apply elem_of_map_to_list.
Qed.

Section same_entries.
Context (Hash : list Z -> NodeKey -> NodeKey).
Context (visit : bool -> gmap string string -> list string) (visit_ok : forall b m, visit b m ≡ₚ map fst (map_to_list m)).

Lemma slotsOf_elem sm kv : kv ∈ slotsOf sm (visit true sm) <-> kv ∈ map_to_list sm.
Proof.
  unfold slotsOf. rewrite list_elem_of_fmap. destruct kv as [k v]. rewrite elem_of_map_to_list. setoid_rewrite visit_ok. split.
  - intros (k' & [= -> ->] & ([k0 v0] & -> & Hv%elem_of_map_to_list)%list_elem_of_fmap). cbn [fst]. by rewrite Hv.
  - intros Hv. exists k. rewrite Hv. split; [done|]. apply list_elem_of_fmap. exists (k, v). split; [done|]. by apply elem_of_map_to_list.
Qed.

(** What is written for the genesis block is what these changes set. *)
Lemma genesis_sets alloc e z : (e, z) ∈ genesisNamed Hash visit alloc (sortedAllocKeys alloc) <-> sets Hash (genesisChanges alloc) e z.
Proof.
  unfold genesisNamed. rewrite list_elem_of_bind. split.
  - intros (a & Hin & [ga Hga]%sorted_keys). rewrite Hga in Hin. unfold genesisAccountNamed in Hin. rewrite !elem_of_app in Hin. destruct Hin as [Hin|[Hin|Hin]].
    + apply elem_of_cons in Hin as [[= -> ->]|[= -> ->]%list_elem_of_singleton].
      * apply (sets_balance Hash (genesisChanges alloc) a (Some (genesisAcc ga))), genesis_acc. eauto.
      * apply (sets_nonce Hash (genesisChanges alloc) a (Some (genesisAcc ga))), genesis_acc. eauto.
    + unfold genesisCodeNamed in Hin. destruct (Z.ltb_spec 0 (Z.of_nat (length (Code ga)))); [|by apply elem_of_nil in Hin].
      apply elem_of_cons in Hin as [[= -> ->]|[= -> ->]%list_elem_of_singleton]; constructor; apply genesis_code; eauto.
    + apply list_elem_of_fmap in Hin as (kv & [= -> ->] & Hkv%slotsOf_elem). eapply sets_slot; [apply genesis_storage; eauto|done].
  - destruct 1 as [a acc Ha|a acc Ha|a s Ha|a s Ha|a st kv Ha Hkv].
    + apply genesis_acc in Ha as (ga & Hga & ->). exists a. rewrite sorted_keys, Hga. split; [left|done].
    + apply genesis_acc in Ha as (ga & Hga & ->). exists a. rewrite sorted_keys, Hga. split; [right; left|done].
    + apply genesis_code in Ha as (ga & Hga & Hl & ->). exists a. rewrite sorted_keys, Hga. split; [|done].
      apply elem_of_app. right. apply elem_of_app. left. unfold genesisCodeNamed. rewrite (proj2 (Z.ltb_lt _ _)) by done. left.
    + apply genesis_code in Ha as (ga & Hga & Hl & ->). exists a. rewrite sorted_keys, Hga. split; [|done].
      apply elem_of_app. right. apply elem_of_app. left. unfold genesisCodeNamed. rewrite (proj2 (Z.ltb_lt _ _)) by done. right. left.
    + apply genesis_storage in Ha as (ga & Hga & ->). exists a. rewrite sorted_keys, Hga. split; [|done].
      apply elem_of_app. right. apply elem_of_app. right. apply (list_elem_of_fmap_2 (slotNamed a)). by apply slotsOf_elem.
Qed.
End same_entries.

(** ** The root of the genesis block *)

Section root.
Context (keccak : list Z -> list Z) (keccak_length : forall b, length (keccak b) = 32%nat).
Context (Hash : list Z -> NodeKey -> NodeKey) (Hash_range : forall i c, key_ok (Hash i c)).

Lemma empty_starts : starts Hash NewMemDb E.
Proof. destruct E_ok as [Ht _]. split; [done|]. split; [done|]. split; [done|]. split; [by apply Forall_nil|done]. Qed.

Definition genesisEntries (visit : bool -> gmap string string -> list string) (alloc : GenesisAlloc) : list (NodeKey * list Z) :=
  map (written Hash) (genesisNamed Hash visit alloc (sortedAllocKeys alloc)).

Lemma genesisTree_ok cpuNum visit alloc : (0 < cpuNum)%nat -> (forall b m, visit b m ≡ₚ map fst (map_to_list m)) -> alloc_ok alloc -> alloc <> ∅ ->
  let ops := genesisEntries visit alloc in good_run Hash E ops ->
  wrote Hash (genesisTree keccak Hash cpuNum visit alloc NewMemDb) (fun r => r = Key_ToBigInt (th Hash 0 (foldl tput E ops))) (foldl tput E ops).
Proof.
  intros Hcpu Hv Hok Hne ops Hg. unfold genesisTree.
  destruct (genesisLoop_ok keccak keccak_length Hash Hash_range cpuNum Hcpu visit Hv alloc (sortedAllocKeys alloc) Hok) with (ro := @None Z) (t := E) (d := NewMemDb)
    as (ro & d & -> & Hs & Hro); [apply Forall_forall; intros a Ha; by apply sorted_keys|apply empty_starts|done|].
  rewrite bind_ok, Hro, bool_decide_eq_false_2; cbn [nonNil]; rewrite ?bind_ok.
  - eexists _, d. split; [done|]. split; [done|]. unfold BigToHash.
    pose proof (Key_ToBigInt_range (th Hash 0 (foldl tput E ops)) (th_ok Hash Hash_range _ _)) as Hr. rewrite Z.abs_eq by apply Hr. by apply Z.mod_small.
  - intros Hnil. destruct (map_choose alloc Hne) as (a & ga & Hga). assert (a ∈ sortedAllocKeys alloc) as Hin by (apply sorted_keys; eauto).
    rewrite Hnil in Hin. by apply elem_of_nil in Hin.
Qed.

(** C6: the genesis block.  Writing an allocation that is not empty into an empty tree succeeds
    and gives one root, whatever the orders in which the maps are visited and the numbers of goroutines;
    the readers return every balance, nonce, code hash, code size and slot of the
    allocation that is not zero. *)
Theorem genesis_root fuel cpuNum cpuNum' visit visit' alloc :
  (256 < fuel)%nat -> (0 < cpuNum)%nat -> (0 < cpuNum')%nat ->
  (forall b m, visit b m ≡ₚ map fst (map_to_list m)) -> (forall b m, visit' b m ≡ₚ map fst (map_to_list m)) ->
  alloc_ok alloc -> alloc <> ∅ -> collision_free Hash (changesInputs Hash (genesisChanges alloc)) ->
  good_run Hash E (genesisEntries visit alloc) -> good_run Hash E (genesisEntries visit' alloc) ->
  exists root db db', genesisTree keccak Hash cpuNum visit alloc NewMemDb = Ok (root, db) /\
    genesisTree keccak Hash cpuNum' visit' alloc NewMemDb = Ok (root, db') /\
    reads_changes keccak Hash fuel db (genesisChanges alloc) /\ reads_changes keccak Hash fuel db' (genesisChanges alloc).
Proof.
  intros Hf Hcpu Hcpu' Hv Hv' Hok Hne Hcf Hg Hg'. pose proof (genesisChanges_ok alloc Hok) as Hc. pose proof (genesisChanges_distinct alloc Hok) as Hd.
  destruct (genesisTree_ok cpuNum visit alloc Hcpu Hv Hok Hne Hg) as (r & d & He & (Ht & Hn & Hr)%starts_represents & ->).
  destruct (genesisTree_ok cpuNum' visit' alloc Hcpu' Hv' Hok Hne Hg') as (r' & d' & He' & (Ht' & Hn' & Hr')%starts_represents & ->).
  assert (forall visit, holds (foldl tput E (genesisEntries visit alloc)) (foldl mput ∅ (genesisEntries visit alloc))) as Hm.
  { intros w. destruct E_ok as [HE HEh]. apply tputs_ok; [|done..]. apply Forall_map, Forall_forall. intros ev _. by apply written_ok. }
  assert (foldl tput E (genesisEntries visit alloc) = foldl tput E (genesisEntries visit' alloc)) as Hsame.
  { eapply holds_inj; [exact Ht|exact Ht'|exact (Hm visit)|].
    assert (foldl mput ∅ (genesisEntries visit alloc) = foldl mput ∅ (genesisEntries visit' alloc)) as ->; [|exact (Hm visit')].
    apply (contents_same Hash Hash_range (genesisChanges alloc)); [done..| |]; intros e z; by apply genesis_sets. }
  rewrite <- Hsame in He', Hn', Hr', Ht'. eexists _, d, d'. split; [exact He|]. split; [exact He'|].
  assert (forall db, keeps_tree Hash db (foldl tput E (genesisEntries visit alloc)) -> reads_changes keccak Hash fuel db (genesisChanges alloc)) as Hread.
  { intros db Hk. apply (reads_changes_ok keccak keccak_length Hash Hash_range fuel db (foldl tput E (genesisEntries visit alloc)) ∅ (genesisChanges alloc)
      (genesisNamed Hash visit alloc (sortedAllocKeys alloc))); try done. intros e z. by apply genesis_sets. }
  split; apply Hread; [by destruct Hr as (? & ? & _)|by destruct Hr' as (? & ? & _)].
Qed.
End root.

(** ** An example *)

(** An account with a nonce and one slot. *)
Definition example_alloc : GenesisAlloc :=
  {[ example_address := mkGenesisAccount [] [] {[be_encode 32 7 := be_encode 32 9]} (Some 0) 1 [] ]}.

Definition anyVisit (_ : bool) (m : gmap string string) : list string := map fst (map_to_list m).

Lemma example_alloc_ok : alloc_ok example_alloc.
Proof.
  apply map_Forall_singleton. split; [apply example_address_ok|]. split; cbn [ga_Balance ga_Nonce Code Storage].
  - exists 0. split; [done|lia].
  - lia.
  - split; [by apply Forall_nil|done].
  - apply map_Forall_singleton. split; (split; [apply be_encode_ok|apply be_encode_length]).
Qed.

(** The keys visited in the opposite order, and on one goroutine or four. *)
Lemma genesis_root_witness : exists root db db',
  genesisTree example_keccak toyHash 1 anyVisit example_alloc NewMemDb = Ok (root, db) /\
  genesisTree example_keccak toyHash 4 (fun b m => reverse (anyVisit b m)) example_alloc NewMemDb = Ok (root, db') /\
  GetAccountNonce example_keccak toyHash 257 db example_address = Ok 1.
Proof.
  destruct (genesis_root example_keccak (fun _ => eq_refl) toyHash toyHash_range 257 1 4 anyVisit (fun b m => reverse (anyVisit b m)) example_alloc)
    as (root & db & db' & He & He' & Hr & _); [lia|lia|lia|reflexivity|intros b m; apply reverse_Permutation|apply example_alloc_ok|apply map_non_empty_singleton|
      apply collision_freeb_ok; vm_compute; reflexivity|apply good_runb_ok; vm_compute; reflexivity|apply good_runb_ok; vm_compute; reflexivity|].
  exists root, db, db'. split; [exact He|]. split; [exact He'|].
  apply (reads_nonce _ _ _ _ _ Hr example_address (Some (genesisAcc (mkGenesisAccount [] [] {[be_encode 32 7 := be_encode 32 9]} (Some 0) 1 [])))); [|done].
  apply genesis_acc. eexists. split; [apply lookup_singleton_eq|reflexivity].
Defined.
