(* ===== verification/SmtWitness.v ===== *)
(** * Witnesses of the sparse Merkle tree (smt/pkg/smt/witness.go, smt.go)

    A witness is the tree in preorder, as operators: a branch with the mask of its children, a
    leaf with the source of its key and its value, after the code if it is the
    hash of one, and the hash alone of what is not retained.  [BuildWitness] is an action of
    the traversal; [BuildSMTfromWitness] follows the operators with a stack of directions,
    inserts the hashes where they were and then writes the leaves as accounts, codes
    and storage.  What decides what is retained, the interface [RetainDecider], is a
    parameter; so are the two functions of the package keycard-go/hexutils. *)
From Stdlib Require Import Ascii.
From stdpp Require Import pretty sorting.
From S2P Require Import Prelude Bytes Hex SmtProof Kv SmtUtils SmtTree SmtDb Smt SmtRefine RetainList SmtRead SmtBatch SmtBatchTheory SmtBatchRuns SmtKeys SmtMdbx SmtEntity SmtEntityTheory.

(** The operators of turbo/trie/witness_operators.go; the other ones are of the tries of accounts. *)
Inductive WitnessOperator :=
| OperatorHash (Hash : list Z)
| OperatorCode (Code : list Z)
| OperatorBranch (Mask : Z)
| OperatorSMTLeafValue (NodeType : Z) (Address StorageKey Value : list Z)
| OtherOperator.

(** Where the keys of leaves come from. *)
Class WitnessDb (D : Type) := {
  db_GetHashKey : D -> NodeKey -> outcome NodeKey;
  db_GetKeySource : D -> NodeKey -> outcome (list Z);
}.

#[export] Instance MemDb_witness : WitnessDb MemDb := { db_GetHashKey := Mem_GetHashKey; db_GetKeySource := Mem_GetKeySource }.
#[export] Instance EriDb_witness {T} `{Kv T} : WitnessDb (EriDb T) :=
  { db_GetHashKey m := Ro_GetHashKey (Eri_GetOne m); db_GetKeySource m := Ro_GetKeySource (Eri_GetOne m) }.

(** ** Building a witness *)

Section build.
Context {D : Type} `{SmtDb D} `{CodeDb D} `{WitnessDb D}.
Context {RD : Type} (Retain : list Z -> RD -> outcome (bool * RD)).

(** Whether the node is retained: the decider is asked for its parent.  Without a decider everything is. *)
Definition retainNode (prefix : list Z) (rd : option RD) : outcome (bool * option RD) :=
  match rd with
  | None => Ok (true, None)
  | Some rd =>
      let prefixLen := Z.of_nat (length prefix) in
      br ← (if 0 <? prefixLen then p ← slice prefix 0 (prefixLen - 1); Retain p rd else Retain prefix rd);
      Ok (fst (br : bool * RD), Some (snd br))
  end.

Definition leafOperators (db : D) (k : NodeKey) (v : NodeValue12) (operands : list WitnessOperator) : outcome (list WitnessOperator) :=
  actualK ← db_GetHashKey db k;
  keySource ← db_GetKeySource db actualK;
  source ← DecodeKeySource keySource;
  let '(t, addr, storage) := source : Z * Z * Z in
  vInBytes ← readValue db v;
  operands ← (if t =? SC_CODE then code ← db_GetCode db vInBytes; Ok (operands ++ [OperatorCode code]) else Ok operands);
  Ok (operands ++ [OperatorSMTLeafValue (u8 t) (be_encode 20 addr) (be_encode 32 storage) vInBytes]).

Definition branchMask (v : NodeValue12) : outcome Z :=
  left ← Get0to4 v;
  right ← Get4to8 v;
  let mask := if negb (Key_IsZero left) then Z.lor 0 1 else 0 in
  Ok (if negb (Key_IsZero right) then Z.lor mask 2 else mask).

Definition witnessAction (db : D) : TraverseAction (list WitnessOperator * option RD) := fun prefix k v s =>
  let '(operands, rd) := s in
  br ← retainNode prefix rd;
  let '(retain, rd) := br : bool * option RD in
  if negb retain then Ok (false, (operands ++ [OperatorHash (be_encode 32 (BigToHash (Key_ToBigInt k)))], rd))
  else if IsFinalNode v then operands ← leafOperators db k v operands; Ok (false, (operands, rd))
  else mask ← branchMask v; Ok (true, (operands ++ [OperatorBranch mask], rd)).

Definition BuildWitness (fuel : nat) (db : D) (rd : option RD) : outcome (list WitnessOperator) :=
  root ← db_GetLastRoot db;
  s ← Traverse fuel db root (witnessAction db) ([], rd);
  Ok (fst (s : list WitnessOperator * option RD)).
End build.

(** ** Hash nodes *)

Section hash_nodes.
Context {D : Type} `{SmtDb D}.
Context (Hash : list Z -> NodeKey -> NodeKey) (noSaveOnInsert : bool).

Fixpoint insertHashNode (path : list Z) (hash root : NodeKey) (d : D) : outcome (NodeKey * D) :=
  match path with
  | [] =>
      let newValHBig := ArrayToScalar (words hash) in
      let v := ScalarToNodeValue8 newValHBig in
      d ← hashSave noSaveOnInsert (ToUintArray v) LeafCapacity hash d;
      Ok (hash, d)
  | childIndex :: path =>
      rootVal ← (if negb (Key_IsZero root) then db_Get d root else Ok (replicate 12 None));
      childOldRoot ← childAt rootVal childIndex;
      rd ← insertHashNode path hash childOldRoot d;
      let '(childNewRoot, d) := rd : NodeKey * D in
      let empty := bool_decide (rootVal = replicate 12 None) in
      newIn ← (if childIndex =? 0 then
                 sibling ← (if empty then Ok zeroKey else Get4to8 rootVal);
                 Ok (ConcatArrays4 childNewRoot sibling)
               else
                 sibling ← (if empty then Ok zeroKey else Get0to4 rootVal);
                 Ok (ConcatArrays4 sibling childNewRoot));
      hashcalcAndSave Hash noSaveOnInsert newIn BranchCapacity d
  end.

Definition InsertHashNode (path : list Z) (hash : Z) (d : D) : outcome (Z * D) :=
  or ← getLastRoot d;
  let h := ScalarToArray hash in
  a ← index h 0; b ← index h 1; c ← index h 2; e ← index h 3;
  rd ← insertHashNode path (mkKey a b c e) or d;
  let '(lastRoot, d) := rd : NodeKey * D in
  d ← setLastRoot lastRoot d;
  Ok (Key_ToBigInt lastRoot, d).
End hash_nodes.

(** ** A tree from a witness *)

Fixpoint intArrayToString (a : list Z) : string :=
  match a with [] => EmptyString | v :: a => (pretty v ++ intArrayToString a)%string end.

(** The path of directions to the next node, how many children of a branch are begun or done,
    and how many it has. *)
Record Cursor := mkCursor {
  path : list Z;
  firstNode : bool;
  NodeChildCountMap : gmap string Z;
  NodesBranchValueMap : gmap string Z;
}.

Definition countOf (m : gmap string Z) (path : list Z) : Z := default 0 (m !! intArrayToString path).

Definition addChild (path : list Z) (counts : gmap string Z) : gmap string Z :=
  <[intArrayToString path := u32 (countOf counts path + 1)]> counts.

(** [for len(path) != 0 && count == value { path = path[:len(path)-1] }]; every round shortens the path. *)
Fixpoint popFull (fuel : nat) (counts vals : gmap string Z) (path : list Z) : list Z :=
  match fuel with
  | O => path
  | S fuel =>
      if negb (Z.of_nat (length path) =? 0) && (countOf counts path =? countOf vals path)
      then popFull fuel counts vals (take (length path - 1) path) else path
  end.

(** After a leaf or a hash: to the next branch that misses a child, and to its right. *)
Definition leaveNode (c : Cursor) : outcome Cursor :=
  path ← slice (path c) 0 (Z.of_nat (length (path c)) - 1);
  let counts := addChild path (NodeChildCountMap c) in
  let path := popFull (length path) counts (NodesBranchValueMap c) path in
  let path := if countOf counts path <? countOf (NodesBranchValueMap c) path then path ++ [1] else path in
  Ok (mkCursor path (firstNode c) counts (NodesBranchValueMap c)).

Definition enterBranch (mask : Z) (c : Cursor) : outcome Cursor :=
  counts ← (if firstNode c then Ok (NodeChildCountMap c)
            else p ← slice (path c) 0 (Z.of_nat (length (path c)) - 1); Ok (addChild p (NodeChildCountMap c)));
  let set n := <[intArrayToString (path c) := n]> (NodesBranchValueMap c) in
  Ok (if mask =? 1 then mkCursor (path c ++ [0]) false counts (set 1)
      else if mask =? 2 then mkCursor (path c ++ [1]) false counts (set 1)
      else if mask =? 3 then mkCursor (path c ++ [0]) false counts (set 2)
      else mkCursor (path c) false counts (NodesBranchValueMap c)).

(** What has been read of a witness. *)
Record Decoded := mkDecoded {
  balanceMap : gmap string Z;
  nonceMap : gmap string Z;
  contractMap : gmap string string;
  storageMap : gmap string (gmap string string);
  nodeHashes : list (list Z * list Z);
  cursor : Cursor;
  w_db : MemDb;
}.

Section rebuild.
Context (keccak : list Z -> list Z) (Hash : list Z -> NodeKey -> NodeKey).
Context (BytesToHex : list Z -> string) (HexToBytes : string -> list Z).

Definition BytesToAddress (b : list Z) : Address := replicate (20 - length b) 0 ++ lastBytes 20 b.

Definition decodeLeaf (NodeType : Z) (address storageKey value : list Z) (d : Decoded) : outcome Decoded :=
  let valScaler := be_decode value in
  let addr := BytesToAddress address in
  addrString ← checksumHex keccak addr;
  let '(mkDecoded balances nonces contracts storages hashes c db) := d in
  c ← leaveNode c;
  Ok (if NodeType =? KEY_BALANCE then mkDecoded (<[addrString := valScaler]> balances) nonces contracts storages hashes c db
      else if NodeType =? KEY_NONCE then mkDecoded balances (<[addrString := valScaler]> nonces) contracts storages hashes c db
      else if NodeType =? SC_STORAGE then
        let stKey := BytesToHex storageKey in
        let stKey := if 0 <? slen stKey then String "0" (String "x" stKey) else stKey in
        let storage := default ∅ (storages !! addrString) in
        mkDecoded balances nonces contracts (<[addrString := <[stKey := pretty valScaler]> storage]> storages) hashes c db
      else mkDecoded balances nonces contracts storages hashes c db).

(** [next] is [w.Operators[i+1]], the leaf of the hash of the code. *)
Definition decodeCode (opCode : list Z) (next : option WitnessOperator) (d : Decoded) : outcome Decoded :=
  match next with
  | Some (OperatorSMTLeafValue _ address _ _) =>
      let addr := BytesToAddress address in
      let code := BytesToHex opCode in
      let '(mkDecoded balances nonces contracts storages hashes c db) := d in
      db ← (if 0 <? slen code then Mem_AddCode Hash (HexToBytes code) db else Ok db);
      let code := if 0 <? slen code then String "0" (String "x" code) else code in
      addrString ← checksumHex keccak addr;
      Ok (mkDecoded balances nonces (<[addrString := code]> contracts) storages hashes c db)
  | _ => Panic
  end.

Definition decodeOperator (op : WitnessOperator) (next : option WitnessOperator) (d : Decoded) : outcome Decoded :=
  match op with
  | OperatorSMTLeafValue t address storageKey value => decodeLeaf t address storageKey value d
  | OperatorCode code => decodeCode code next d
  | OperatorBranch mask =>
      let '(mkDecoded balances nonces contracts storages hashes c db) := d in
      c ← enterBranch mask c; Ok (mkDecoded balances nonces contracts storages hashes c db)
  | OperatorHash hash =>
      let '(mkDecoded balances nonces contracts storages hashes c db) := d in
      let hashes := hashes ++ [(path c, hash)] in
      c ← leaveNode c; Ok (mkDecoded balances nonces contracts storages hashes c db)
  | OtherOperator => Err "unsupported operator type"
  end.

Fixpoint decodeOperators (ops : list WitnessOperator) (d : Decoded) : outcome Decoded :=
  match ops with
  | [] => Ok d
  | op :: ops => d ← decodeOperator op (head ops) d; decodeOperators ops d
  end.

Definition startDecoding : Decoded := mkDecoded ∅ ∅ ∅ ∅ [] (mkCursor [] true ∅ ∅) NewMemDb.

Fixpoint insertHashNodes (hashes : list (list Z * list Z)) (db : MemDb) : outcome MemDb :=
  match hashes with
  | [] => Ok db
  | (path, hash) :: hashes =>
      rd ← InsertHashNode Hash false path (be_decode hash) db;
      let db := snd (rd : Z * MemDb) in
      _ ← db_GetLastRoot db;
      insertHashNodes hashes db
  end.

(** A loop over one of the maps, in the order of [keys]. *)
Fixpoint forKeys {A} (keys : list string) (m : gmap string A) (f : string -> A -> MemDb -> outcome MemDb) (db : MemDb) : outcome MemDb :=
  match keys with
  | [] => Ok db
  | k :: keys => match m !! k with Some x => db ← f k x db; forKeys keys m f db | None => forKeys keys m f db end
  end.

Context (cpuNum : nat) (visit : bool -> forall A, gmap string A -> list string).

(** An error of [SetContractStorage] is printed and dropped; here it ends the function, since
    the store that it leaves is not part of an outcome. *)
Definition writeDecoded (d : Decoded) (db : MemDb) : outcome MemDb :=
  db ← forKeys (visit false _ (balanceMap d)) (balanceMap d) (fun addr balance db =>
         r ← SetAccountBalance Hash false addr balance db; Ok (snd (r : Z * MemDb))) db;
  db ← forKeys (visit false _ (nonceMap d)) (nonceMap d) (fun addr nonce db =>
         r ← SetAccountNonce Hash false addr nonce db; Ok (snd (r : Z * MemDb))) db;
  db ← forKeys (visit false _ (contractMap d)) (contractMap d) (fun addr code db => SetContractBytecode Hash false addr code db) db;
  forKeys (visit false _ (storageMap d)) (storageMap d) (fun addr storage db =>
    r ← SetContractStorage Hash false cpuNum addr storage (visit false _ storage) (visit true _ storage) db; Ok (snd (r : Z * MemDb))) db.

Definition BuildSMTfromWitness (w : list WitnessOperator) : outcome MemDb :=
  d ← decodeOperators w startDecoding;
  db ← insertHashNodes (nodeHashes d) (w_db d);
  writeDecoded d db.
End rebuild.
