(* ===== verification/SmtWitnessTheory.v ===== *)
(** * What witnesses show

    On a store that holds a tree with the sources of its keys, [BuildWitness] returns the
    operators of the tree in preorder, cut at the nodes that the decider does not retain.
    [BuildSMTfromWitness] finds the way back: its cursor leads every operator to the path of
    its node, so what it reads is the leaves and, with their paths, the hashes. *)
From Stdlib Require Import Ascii.
From stdpp Require Import pretty sorting.
From S2P Require Import Prelude Bytes Hex SmtProof Kv SmtUtils SmtTree SmtDb Smt SmtRefine RetainList SmtRead SmtBatch SmtBatchTheory SmtBatchRuns SmtKeys SmtMdbx SmtEntity SmtEntityTheory SmtWitness.

(** ** The operators of a tree *)

(** The kind, the account and the position that the source of a key holds. *)
Definition sourceOf (e : stateEntry) : Z * Z * Z :=
  match e with AccountEntry account kind => (kind, account, 0) | SlotEntry account position => (SC_STORAGE, account, position) end.

Definition kindOf (e : stateEntry) : Z := fst (fst (sourceOf e)).
Definition accountOf (e : stateEntry) : Z := snd (fst (sourceOf e)).
Definition positionOf (e : stateEntry) : Z := snd (sourceOf e).

Definition keySourceOf (e : stateEntry) : list Z := EncodeKeySource (kindOf e) (accountOf e) (positionOf e).

(** One of the kinds that accounts have. *)
Definition entry_known (e : stateEntry) : Prop :=
  match e with
  | AccountEntry account kind => 0 <= account < 2 ^ 160 /\ kind ∈ [KEY_BALANCE; KEY_NONCE; SC_CODE; SC_LENGTH]
  | SlotEntry account position => 0 <= account < 2 ^ 160 /\ 0 <= position < 2 ^ 256
  end.

Lemma entry_known_ranges e : entry_known e -> 0 <= kindOf e < 256 /\ 0 <= accountOf e < 2 ^ 160 /\ 0 <= positionOf e < 2 ^ 256.
Proof.
  destruct e as [a k|a p]; intros [Ha Hk]; cbn; [|split; [done|lia]]. split; [|lia].
  apply list_elem_of_In in Hk. cbn in Hk. destruct Hk as [<-|[<-|[<-|[<-|[]]]]]; done.
Qed.

Lemma DecodeKeySource_ok e : entry_known e -> DecodeKeySource (keySourceOf e) = Ok (sourceOf e).
Proof.
  intros He. destruct (entry_known_ranges e He) as (Hk & Ha & Hp). unfold keySourceOf.
  destruct (smt_value_round_trip 0 (kindOf e) (accountOf e) (positionOf e) ltac:(lia) Hk Ha Hp) as [_ ->].
  destruct e as [a k|a p]; [|done]. cbn [kindOf accountOf positionOf sourceOf fst snd] in *. by destruct (k =? SC_STORAGE).
Qed.

(** A property of the leaves that are asked for, with their levels. *)
Fixpoint on_kept (ask : list Z -> bool) (P : nat -> NodeKey -> list Z -> Prop) (d : nat) (p : list Z) (t : tree) : Prop :=
  match t with
  | E => True
  | Leaf k v => ask p = true -> P d k v
  | B l r => ask p = true -> on_kept ask P (S d) (p ++ [0]) l /\ on_kept ask P (S d) (p ++ [1]) r
  end.

Section build_ok.
Context {D : Type} `{SmtDb D} `{CodeDb D} `{WitnessDb D}.
Context (Hash : list Z -> NodeKey -> NodeKey) (Hash_range : forall i c, key_ok (Hash i c)).
Context (entryAt : NodeKey -> stateEntry) (codeAt : list Z -> list Z).

Definition leafOps (k : NodeKey) (v : list Z) : list WitnessOperator :=
  let e := entryAt k in
  (if kindOf e =? SC_CODE then [OperatorCode (codeAt v)] else []) ++
  [OperatorSMTLeafValue (kindOf e) (be_encode 20 (accountOf e)) (be_encode 32 (positionOf e)) (value_bytes v)].

Definition is_node (t : tree) : bool := match t with E => false | _ => true end.

(** One bit per child. *)
Definition maskOf (l r : tree) : Z := (if is_node l then 1 else 0) + (if is_node r then 2 else 0).

Context (ask : list Z -> bool).

(** The tree in preorder. *)
Fixpoint witnessOps (d : nat) (p : list Z) (t : tree) : list WitnessOperator :=
  match t with
  | E => []
  | Leaf k v => if ask p then leafOps k v else [OperatorHash (be_encode 32 (Key_ToBigInt (th Hash d t)))]
  | B l r =>
      if ask p then OperatorBranch (maskOf l r) :: witnessOps (S d) (p ++ [0]) l ++ witnessOps (S d) (p ++ [1]) r
      else [OperatorHash (be_encode 32 (Key_ToBigInt (th Hash d t)))]
  end.

(** The store knows the sources of the leaves, and their codes. *)
Record leaf_known (db : D) (d : nat) (k : NodeKey) (v : list Z) : Prop := {
  known_hash : db_GetHashKey db (th Hash d (Leaf k v)) = Ok k;
  known_source : db_GetKeySource db k = Ok (keySourceOf (entryAt k));
  known_entry : entry_known (entryAt k);
  known_code : kindOf (entryAt k) = SC_CODE -> db_GetCode db (value_bytes v) = Ok (codeAt v);
}.

Definition leaves_known (db : D) : nat -> list Z -> tree -> Prop := on_kept ask (leaf_known db).

Context {RD : Type} (Retain : list Z -> RD -> outcome (bool * RD)) (I : option RD -> Prop).
Context (ask_ok : forall p rd, I rd -> exists rd', retainNode Retain p rd = Ok (ask p, rd') /\ I rd').

Lemma leafOperators_ok db d k v operands : (d <= 256)%nat -> key_ok k -> value_ok v -> stored Hash db d (Leaf k v) -> leaf_known db d k v ->
  leafOperators db (th Hash d (Leaf k v)) (node_of Hash d (Leaf k v)) operands = Ok (operands ++ leafOps k v).
Proof.
  intros Hd Hk Hv Hs [Hh Hsrc He Hc]. unfold leafOperators. rewrite Hh, bind_ok, Hsrc, bind_ok, DecodeKeySource_ok, bind_ok by done.
  destruct (sourceOf (entryAt k)) as [[t a] p] eqn:Es.
  rewrite readValue_ok, bind_ok by (done || by apply Forall_cons in Hs as [_ [Hs _]%Forall_cons]).
  destruct (entry_known_ranges _ He) as (Hkr & _). unfold leafOps, kindOf, accountOf, positionOf in *. rewrite Es in *. cbn [fst snd] in *.
  assert (u8 t = t) as -> by (by apply Z.mod_small).
  destruct (Z.eqb_spec t SC_CODE) as [->|Hne]; [|by rewrite bind_ok].
  by rewrite Hc, !bind_ok, (assoc_L (++)).
Qed.

Lemma branchMask_ok d l r : nonzero Hash d (B l r) -> branchMask (node_of Hash d (B l r)) = Ok (maskOf l r).
Proof.
  intros Hn. unfold branchMask. cbn [node_of].
  destruct (Get_node12 (th Hash (S d) l) (th Hash (S d) r) BranchCapacity) as [-> ->]; [by apply th_ok|by apply th_ok|]. rewrite !bind_ok.
  assert (forall t, nonzero Hash (S d) t -> Key_IsZero (th Hash (S d) t) = negb (is_node t)) as Hz.
  { intros t Ht. rewrite Key_IsZero_spec. destruct t; [done|..]; (apply bool_decide_false; by apply (nonzero_th Hash (S d) _ Ht)). }
  destruct Hn as (_ & Hl & Hr). rewrite (Hz l Hl), (Hz r Hr). unfold maskOf. by destruct (is_node l), (is_node r).
Qed.

Lemma witnessAction_eq db p h v operands rd : witnessAction Retain db p h v (operands, rd) =
  br ← retainNode Retain p rd;
  let '(retain, rd) := br : bool * option RD in
  if negb retain then Ok (false, (operands ++ [OperatorHash (be_encode 32 (BigToHash (Key_ToBigInt h)))], rd))
  else if IsFinalNode v then operands ← leafOperators db h v operands; Ok (false, (operands, rd))
  else mask ← branchMask v; Ok (true, (operands ++ [OperatorBranch mask], rd)).
Proof. done. Qed.

(** The hash of a node that is cut off. *)
Lemma hash_bytes d t : BigToHash (Key_ToBigInt (th Hash d t)) = Key_ToBigInt (th Hash d t).
Proof.
  unfold BigToHash. pose proof (Key_ToBigInt_range (th Hash d t) (th_ok Hash Hash_range d t)) as Hr. rewrite Z.abs_eq by lia. by apply Z.mod_small.
Qed.

Lemma walk_witness db t : forall d p operands rd, placed d t -> stored Hash db d t -> nonzero Hash d t -> leaves_known db d p t -> (d <= 256)%nat -> I rd ->
  exists rd', walk Hash (witnessAction Retain db) d p t (operands, rd) = Ok (operands ++ witnessOps d p t, rd') /\ I rd'.
Proof.
  induction t as [|k v|l IHl r IHr]; intros d p operands rd Hp Hs Hn Hk Hd Hi; cbn [walk witnessOps]; [exists rd; by rewrite app_nil_r|..]; rewrite witnessAction_eq.
  - destruct (ask_ok p rd Hi) as (rd' & -> & Hi'). rewrite bind_ok. exists rd'. split; [|done]. destruct (ask p) eqn:Ha; cbn [negb].
    + cbn [node_of]. rewrite IsFinalNode_node12. cbn [w0 LeafCapacity Z.eqb Pos.eqb].
      change (node12 (RemoveKeyBits k (Z.of_nat d)) (valHash Hash v) LeafCapacity) with (node_of Hash d (Leaf k v)).
      destruct Hp as [Hk' Hv']. by rewrite leafOperators_ok, !bind_ok by (done || by apply Hk).
    + by rewrite bind_ok, hash_bytes.
  - destruct (ask_ok p rd Hi) as (rd1 & -> & Hi1). rewrite bind_ok. destruct (ask p) eqn:Ha; cbn [negb].
    + rewrite branchMask_ok by done. cbn [node_of]. rewrite IsFinalNode_node12. cbn [w0 BranchCapacity Z.eqb]. rewrite !bind_ok. destruct Hp as (Hd' & _ & _ & Pl & Pr).
      apply stored_halves in Hs as [Sl Sr]. destruct Hn as (_ & Nl & Nr), (Hk Ha) as [Kl Kr].
      destruct (IHl (S d) (p ++ [0]) (operands ++ [OperatorBranch (maskOf l r)]) rd1) as (rd2 & -> & Hi2); [done..|lia|done|]. rewrite bind_ok.
      destruct (IHr (S d) (p ++ [1]) ((operands ++ [OperatorBranch (maskOf l r)]) ++ witnessOps (S d) (p ++ [0]) l) rd2) as (rd3 & -> & Hi3); [done..|lia|done|].
      exists rd3. split; [|done]. by rewrite <- !(assoc_L (++)).
    + rewrite bind_ok, hash_bytes. by exists rd1.
Qed.

Lemma BuildWitness_ok fuel db t rd : (256 < fuel)%nat -> tree_ok t -> nonzero Hash 0 t -> keeps_tree Hash db t -> leaves_known db 0 [] t -> I rd ->
  BuildWitness Retain fuel db rd = Ok (witnessOps 0 [] t).
Proof.
  intros Hf Ht Hn Hk Hl Hi. unfold BuildWitness. pose proof (Traverse_walk Hash Hash_range (witnessAction Retain db) fuel db t ([], rd) Hf Ht Hn Hk) as Hw.
  destruct (walk_witness db t 0 [] [] rd (proj1 Ht) (keeps_stored_tree _ _ _ Hk) Hn Hl ltac:(lia) Hi) as (rd' & He & _). rewrite He in Hw.
  apply bind_Ok_inv in Hw as (root & -> & Hw). by rewrite bind_ok, Hw.
Qed.
End build_ok.

(** ** The cursor finds the paths *)

Definition bits (p : list Z) : Prop := Forall (fun z => z = 0 \/ z = 1) p.

Lemma bits_snoc p b : bits p -> b = 0 \/ b = 1 -> bits (p ++ [b]).
Proof. intros Hp Hb. apply Forall_app. split; [done|by apply Forall_singleton]. Qed.

Lemma intArrayToString_inj p : forall q, bits p -> bits q -> intArrayToString p = intArrayToString q -> p = q.
Proof.
  assert (forall z s, z = 0 \/ z = 1 -> (pretty z ++ s)%string = String (if z =? 0 then "0"%char else "1"%char) s) as Hone by (intros z s [->| ->]; done).
  induction p as [|x p IH]; intros [|y q] Hp Hq He; [done|..]; cbn [intArrayToString] in He.
  - apply Forall_cons in Hq as [Hy _]. by rewrite Hone in He.
  - apply Forall_cons in Hp as [Hx _]. by rewrite Hone in He.
  - apply Forall_cons in Hp as [Hx Hp]. apply Forall_cons in Hq as [Hy Hq]. rewrite !Hone in He by done. injection He as Hxy He.
    f_equal; [|by apply IH]. destruct Hx as [->| ->], Hy as [->| ->]; done.
Qed.

Lemma countOf_insert m p x n : bits p -> bits x -> countOf (<[intArrayToString p := n]> m) x = if decide (x = p) then n else countOf m x.
Proof.
  intros Hp Hx. unfold countOf. case_decide as Hd; [subst; by rewrite lookup_insert_eq|]. rewrite lookup_insert_ne; [done|].
  intros He. apply Hd. symmetry. by apply intArrayToString_inj.
Qed.

Lemma countOf_addChild m p x : bits p -> bits x -> 0 <= countOf m p <= 1 -> countOf (addChild p m) x = if decide (x = p) then countOf m p + 1 else countOf m x.
Proof. intros Hp Hx Hr. unfold addChild. rewrite countOf_insert by done. case_decide; [|done]. apply Z.mod_small. lia. Qed.

(** Where the cursor goes from a branch one of whose children is done. *)
Definition advance (counts vals : gmap string Z) (q : list Z) : list Z :=
  let r := popFull (length q) counts vals q in if countOf counts r <? countOf vals r then r ++ [1] else r.

Lemma advance_right counts vals p : countOf counts p < countOf vals p -> advance counts vals p = p ++ [1].
Proof.
  intros Hlt. unfold advance. assert (popFull (length p) counts vals p = p) as ->.
  { destruct (length p) eqn:Hl; [done|]. cbn [popFull]. by rewrite (proj2 (Z.eqb_neq (countOf counts p) (countOf vals p))), andb_false_r by lia. }
  cbv zeta. by rewrite (proj2 (Z.ltb_lt _ _)).
Qed.

Lemma advance_up counts vals q b : countOf counts (q ++ [b]) = countOf vals (q ++ [b]) -> advance counts vals (q ++ [b]) = advance counts vals q.
Proof.
  intros He. unfold advance. rewrite length_app. cbn [length]. rewrite Nat.add_comm. cbn [Nat.add popFull]. rewrite length_app, He, Z.eqb_refl. cbn [length].
  rewrite (proj2 (Z.eqb_neq _ _)) by lia. cbn [negb andb]. by rewrite Nat.add_sub, take_app_length.
Qed.

Lemma advance_end counts vals : countOf counts [] = countOf vals [] -> advance counts vals [] = [].
Proof. intros He. unfold advance. cbn [length popFull]. cbv zeta. by rewrite He, Z.ltb_irrefl. Qed.

Lemma slice_parent (q : list Z) b : slice (q ++ [b]) 0 (Z.of_nat (length (q ++ [b])) - 1) = Ok q.
Proof. apply (slice_at _ [] q [b]); [done..|]. rewrite length_app. cbn. lia. Qed.

Lemma leaveNode_ok q b fst counts vals : leaveNode (mkCursor (q ++ [b]) fst counts vals) =
  Ok (mkCursor (advance (addChild q counts) vals q) fst (addChild q counts) vals).
Proof. unfold leaveNode. cbn [path]. by rewrite slice_parent, bind_ok. Qed.

(** Nothing below the path has been visited. *)
Definition fresh (p : list Z) (c : Cursor) : Prop := forall s, bits s -> countOf (NodeChildCountMap c) (p ++ s) = 0.

(** The node at the path [q ++ [b]] is done. *)
Record passed (q : list Z) (b : Z) (c c' : Cursor) : Prop := {
  passed_path : path c' = advance (NodeChildCountMap c') (NodesBranchValueMap c') q;
  passed_first : firstNode c' = false;
  passed_count : countOf (NodeChildCountMap c') q = countOf (NodeChildCountMap c) q + 1;
  passed_counts x : bits x -> ~ (q ++ [b]) `prefix_of` x -> x <> q -> countOf (NodeChildCountMap c') x = countOf (NodeChildCountMap c) x;
  passed_vals x : bits x -> ~ (q ++ [b]) `prefix_of` x -> countOf (NodesBranchValueMap c') x = countOf (NodesBranchValueMap c) x;
}.

Lemma leaveNode_passed q b c : bits q -> path c = q ++ [b] -> firstNode c = false -> 0 <= countOf (NodeChildCountMap c) q <= 1 ->
  exists c', leaveNode c = Ok c' /\ passed q b c c'.
Proof.
  intros Hq Hp Hf Hc. destruct c as [p f counts vals]. cbn [path firstNode NodeChildCountMap NodesBranchValueMap] in *. subst p f. rewrite leaveNode_ok.
  eexists. split; [done|]. split; cbn [path firstNode NodeChildCountMap NodesBranchValueMap]; try done.
  - rewrite countOf_addChild by done. by rewrite decide_True.
  - intros x Hx _ Hne. rewrite countOf_addChild by done. by rewrite decide_False.
Qed.

(** The next child is the left one if there is one. *)
Definition firstChild (l : tree) : Z := if is_node l then 0 else 1.

Definition children (l r : tree) : Z := (if is_node l then 1 else 0) + (if is_node r then 1 else 0).

Lemma enterBranch_ok l r c counts : is_node l || is_node r = true ->
  (if firstNode c then Ok (NodeChildCountMap c) else p ← slice (path c) 0 (Z.of_nat (length (path c)) - 1); Ok (addChild p (NodeChildCountMap c))) = Ok counts ->
  enterBranch (maskOf l r) c =
    Ok (mkCursor (path c ++ [firstChild l]) false counts (<[intArrayToString (path c) := children l r]> (NodesBranchValueMap c))).
Proof.
  intros Hn He. unfold enterBranch. rewrite He, bind_ok. revert Hn. unfold maskOf, firstChild, children. by destruct (is_node l), (is_node r).
Qed.

(** ** Decoding *)

Section decode_ok.
Context (keccak : list Z -> list Z) (keccak_length : forall b, length (keccak b) = 32%nat).
Context (Hash : list Z -> NodeKey -> NodeKey) (Hash_range : forall i c, key_ok (Hash i c)).
Context (BytesToHex : list Z -> string) (HexToBytes : string -> list Z).
Context (BytesToHex_digits : forall b, bytes_ok b -> same_digits (EncodeToString b) (BytesToHex b)).
Context (HexToBytes_inv : forall b, bytes_ok b -> HexToBytes (BytesToHex b) = b).
Context (entryAt : NodeKey -> stateEntry) (codeAt : list Z -> list Z) (ask : list Z -> bool).

Definition setCursor (c : Cursor) (d : Decoded) : Decoded :=
  mkDecoded (balanceMap d) (nonceMap d) (contractMap d) (storageMap d) (nodeHashes d) c (w_db d).

Definition addressString (account : Z) : string :=
  match checksumHex keccak (be_encode 20 account) with Ok s => s | _ => EmptyString end.

Definition slotString (position : Z) : string := String "0" (String "x" (BytesToHex (be_encode 32 position))).
Definition codeString (code : list Z) : string := if 0 <? slen (BytesToHex code) then String "0" (String "x" (BytesToHex code)) else BytesToHex code.

(** What a leaf adds to the maps. *)
Definition addValue (e : stateEntry) (z : Z) (d : Decoded) : Decoded :=
  let s := addressString (accountOf e) in
  if kindOf e =? KEY_BALANCE then mkDecoded (<[s := z]> (balanceMap d)) (nonceMap d) (contractMap d) (storageMap d) (nodeHashes d) (cursor d) (w_db d)
  else if kindOf e =? KEY_NONCE then mkDecoded (balanceMap d) (<[s := z]> (nonceMap d)) (contractMap d) (storageMap d) (nodeHashes d) (cursor d) (w_db d)
  else if kindOf e =? SC_STORAGE then
    mkDecoded (balanceMap d) (nonceMap d) (contractMap d)
      (<[s := <[slotString (positionOf e) := pretty z]> (default ∅ (storageMap d !! s))]> (storageMap d)) (nodeHashes d) (cursor d) (w_db d)
  else d.

Definition addCode (e : stateEntry) (code : list Z) (d : Decoded) : Decoded :=
  mkDecoded (balanceMap d) (nonceMap d) (<[addressString (accountOf e) := codeString code]> (contractMap d)) (storageMap d) (nodeHashes d) (cursor d)
    (if 0 <? slen (BytesToHex code) then match Mem_AddCode Hash code (w_db d) with Ok db => db | _ => w_db d end else w_db d).

Definition addLeaf (k : NodeKey) (v : list Z) (d : Decoded) : Decoded :=
  let e := entryAt k in addValue e (ArrayBigToScalar v) (if kindOf e =? SC_CODE then addCode e (codeAt v) d else d).

Definition addHash (p : list Z) (h : NodeKey) (d : Decoded) : Decoded :=
  mkDecoded (balanceMap d) (nonceMap d) (contractMap d) (storageMap d) (nodeHashes d ++ [(p, be_encode 32 (Key_ToBigInt h))]) (cursor d) (w_db d).

(** The tree is read in preorder. *)
Fixpoint absorb (d : nat) (p : list Z) (t : tree) (D : Decoded) : Decoded :=
  match t with
  | E => D
  | Leaf k v => if ask p then addLeaf k v D else addHash p (th Hash d t) D
  | B l r => if ask p then absorb (S d) (p ++ [1]) r (absorb (S d) (p ++ [0]) l D) else addHash p (th Hash d t) D
  end.

(** What the code at the leaves must be. *)
Definition leaf_readable (k : NodeKey) (v : list Z) : Prop :=
  entry_known (entryAt k) /\ 0 <= ArrayBigToScalar v /\
  (kindOf (entryAt k) = SC_CODE -> bytes_ok (codeAt v) /\ Z.of_nat (length (codeAt v)) < 2 ^ 50).

Definition readable : nat -> list Z -> tree -> Prop := on_kept ask (fun _ => leaf_readable).

Lemma addressString_ok account : checksumHex keccak (be_encode 20 account) = Ok (addressString account).
Proof.
  unfold addressString. destruct (checksumHex_ok keccak keccak_length (be_encode 20 account)) as (s & -> & _); [|done].
  split; [apply be_encode_ok|apply be_encode_length].
Qed.

Lemma BytesToAddress_20 account : BytesToAddress (be_encode 20 account) = be_encode 20 account.
Proof. unfold BytesToAddress, lastBytes. rewrite be_encode_length. done. Qed.

Lemma same_digits_length s : forall s', same_digits s s' -> String.length s' = String.length s.
Proof. induction s as [|c s IH]; intros [|c' s']; try done. cbn. intros (_ & _ & Hs). by rewrite (IH s'). Qed.

Lemma BytesToHex_length b : bytes_ok b -> slen (BytesToHex b) = 2 * Z.of_nat (length b).
Proof. intros Hb. unfold slen. rewrite (same_digits_length _ _ (BytesToHex_digits b Hb)), EncodeToString_length. lia. Qed.

Lemma decodeLeaf_ok k v D c' : entry_known (entryAt k) -> 0 <= ArrayBigToScalar v -> leaveNode (cursor D) = Ok c' ->
  let e := entryAt k in
  decodeLeaf keccak BytesToHex (kindOf e) (be_encode 20 (accountOf e)) (be_encode 32 (positionOf e)) (value_bytes v) D =
    Ok (setCursor c' (addValue e (ArrayBigToScalar v) D)).
Proof.
  intros He Hv Hc e. unfold decodeLeaf. rewrite BytesToAddress_20, addressString_ok, bind_ok. destruct D as [bs ns cs ss hs c db]. cbn [cursor] in Hc. rewrite Hc, bind_ok.
  unfold value_bytes. rewrite be_decode_big_bytes by done. f_equal. unfold addValue. cbn [balanceMap nonceMap contractMap storageMap nodeHashes w_db].
  destruct (kindOf e =? KEY_BALANCE); [done|]. destruct (kindOf e =? KEY_NONCE); [done|]. destruct (kindOf e =? SC_STORAGE); [|done].
  cbv zeta. rewrite BytesToHex_length, be_encode_length by apply be_encode_ok. done.
Qed.

Lemma decodeCode_ok k v D t st val : kindOf (entryAt k) = SC_CODE -> bytes_ok (codeAt v) -> Z.of_nat (length (codeAt v)) < 2 ^ 50 ->
  let e := entryAt k in
  decodeCode keccak Hash BytesToHex HexToBytes (codeAt v) (Some (OperatorSMTLeafValue t (be_encode 20 (accountOf e)) st val)) D = Ok (addCode e (codeAt v) D).
Proof.
  intros Hk Hb Hl e. unfold decodeCode. rewrite BytesToAddress_20. destruct D as [bs ns cs ss hs c db]. cbv zeta. rewrite HexToBytes_inv by done.
  unfold addCode, codeString. cbn [balanceMap nonceMap contractMap storageMap nodeHashes w_db cursor].
  destruct (0 <? slen (BytesToHex (codeAt v))); [|by rewrite bind_ok, addressString_ok, bind_ok]. unfold Mem_AddCode, HashContractBytecode.
  rewrite (HashContractBytecodeBigInt_ok Hash (codeAt v) false Hb Hl), !bind_ok. by rewrite addressString_ok, bind_ok.
Qed.

Lemma setCursor_addValue c e z D : setCursor c (addValue e z D) = addValue e z (setCursor c D).
Proof. unfold addValue. by repeat case_match. Qed.

(** One leaf, after the code that belongs to it. *)
Lemma decode_leaf k v D rest c' : leaf_readable k v -> leaveNode (cursor D) = Ok c' ->
  decodeOperators keccak Hash BytesToHex HexToBytes (leafOps entryAt codeAt k v ++ rest) D =
    decodeOperators keccak Hash BytesToHex HexToBytes rest (setCursor c' (addLeaf k v D)).
Proof.
  intros (He & Hv & Hcode) Hc. unfold leafOps, addLeaf. destruct (Z.eqb_spec (kindOf (entryAt k)) SC_CODE) as [Hk|Hk]; cbn [app decodeOperators decodeOperator head].
  - destruct (Hcode Hk) as [Hb Hl]. rewrite decodeCode_ok, bind_ok by done. cbn [decodeOperators decodeOperator]. by rewrite (decodeLeaf_ok k v _ c'), bind_ok by done.
  - by rewrite (decodeLeaf_ok k v _ c'), bind_ok by done.
Qed.

Lemma decode_hash h D rest c' : leaveNode (cursor D) = Ok c' ->
  decodeOperators keccak Hash BytesToHex HexToBytes ([OperatorHash (be_encode 32 (Key_ToBigInt h))] ++ rest) D =
    decodeOperators keccak Hash BytesToHex HexToBytes rest (setCursor c' (addHash (path (cursor D)) h D)).
Proof. intros Hc. cbn [app decodeOperators decodeOperator]. destruct D as [bs ns cs ss hs c db]. cbn [cursor] in Hc |- *. by rewrite Hc, !bind_ok. Qed.

Lemma decode_branch m D rest c' : enterBranch m (cursor D) = Ok c' ->
  decodeOperators keccak Hash BytesToHex HexToBytes (OperatorBranch m :: rest) D = decodeOperators keccak Hash BytesToHex HexToBytes rest (setCursor c' D).
Proof. intros Hc. cbn [decodeOperators decodeOperator]. destruct D as [bs ns cs ss hs c db]. cbn [cursor] in Hc. by rewrite Hc, !bind_ok. Qed.

Lemma cursor_absorb t : forall d p D, cursor (absorb d p t D) = cursor D.
Proof.
  assert (forall e z D, cursor (addValue e z D) = cursor D) as Hv by (intros e z D; unfold addValue; by repeat case_match).
  induction t as [|k v|l IHl r IHr]; intros d p D; cbn [absorb]; [done|..]; destruct (ask p); try done.
  - unfold addLeaf. rewrite Hv. by case_match.
  - by rewrite IHr, IHl.
Qed.

Lemma absorb_cursor t : forall d p D c, absorb d p t (setCursor c D) = setCursor c (absorb d p t D).
Proof.
  induction t as [|k v|l IHl r IHr]; intros d p D c; cbn [absorb]; [done|..]; destruct (ask p); try done.
  - unfold addLeaf. rewrite setCursor_addValue. by destruct (kindOf (entryAt k) =? SC_CODE).
  - by rewrite IHl, IHr.
Qed.

(** Every branch has a child. *)
Fixpoint branching (t : tree) : Prop :=
  match t with B l r => (is_node l || is_node r = true) /\ branching l /\ branching r | _ => True end.

Abbreviation decode := (decodeOperators keccak Hash BytesToHex HexToBytes).
Abbreviation ops := (witnessOps Hash entryAt codeAt ask).

(** What holds when the cursor arrives at the node of the path [q ++ [b]]. *)
Record arrives (q : list Z) (b : Z) (c : Cursor) : Prop := {
  arrives_bits : bits q /\ (b = 0 \/ b = 1);
  arrives_path : path c = q ++ [b];
  arrives_first : firstNode c = false;
  arrives_count : 0 <= countOf (NodeChildCountMap c) q <= 1;
  arrives_fresh : fresh (q ++ [b]) c;
}.

(** The operators of a subtree are read, and the cursor has passed it. *)
Definition decodes (d : nat) (q : list Z) (b : Z) (t : tree) : Prop :=
  forall D rest, arrives q b (cursor D) ->
    exists c', decode (ops d (q ++ [b]) t ++ rest) D = decode rest (setCursor c' (absorb d (q ++ [b]) t D)) /\ passed q b (cursor D) c'.

Lemma not_below (p : list Z) b : ~ (p ++ [b]) `prefix_of` p.
Proof. intros Hp%prefix_length. rewrite length_app in Hp. cbn in Hp. lia. Qed.

Lemma longer (p : list Z) b s : p ++ b :: s <> p.
Proof. intros He%(f_equal length). rewrite length_app in He. cbn in He. lia. Qed.

Lemma other_child (p : list Z) b b' s : b <> b' -> ~ (p ++ [b]) `prefix_of` (p ++ b' :: s).
Proof. intros Hb Hp. apply prefix_app_inv, prefix_cons_inv_1 in Hp. done. Qed.

Lemma below_path (p x : list Z) : ~ p `prefix_of` x -> ~ (p ++ [0]) `prefix_of` x /\ ~ (p ++ [1]) `prefix_of` x /\ x <> p.
Proof.
  intros Hn. split; [intros Hp; apply Hn; by apply prefix_app_l in Hp|]. split; [intros Hp; apply Hn; by apply prefix_app_l in Hp|]. intros ->. by apply Hn.
Qed.

Lemma arrives_child p b c : bits p -> b = 0 \/ b = 1 -> path c = p ++ [b] -> firstNode c = false ->
  (forall s, bits s -> countOf (NodeChildCountMap c) (p ++ s) = 0) -> arrives p b c.
Proof.
  intros Hp Hb Hpath Hf Hfresh. split; [done|done|done| |].
  - rewrite <- (app_nil_r p), Hfresh; [lia|constructor].
  - intros s Hs. rewrite <- (assoc_L (++)). apply Hfresh. by apply Forall_cons.
Qed.

(** The children of a branch at [p], once it is entered: the cursor moves up or to the right
    according to the number of children. *)
Lemma decode_children d p l r D rest : bits p -> is_node l || is_node r = true ->
  (is_node l = true -> decodes d p 0 l) -> (is_node r = true -> decodes d p 1 r) ->
  path (cursor D) = p ++ [firstChild l] -> firstNode (cursor D) = false ->
  countOf (NodesBranchValueMap (cursor D)) p = children l r ->
  (forall s, bits s -> countOf (NodeChildCountMap (cursor D)) (p ++ s) = 0) ->
  exists c', decode (ops d (p ++ [0]) l ++ ops d (p ++ [1]) r ++ rest) D = decode rest (setCursor c' (absorb d (p ++ [1]) r (absorb d (p ++ [0]) l D))) /\
    path c' = advance (NodeChildCountMap c') (NodesBranchValueMap c') p /\ firstNode c' = false /\
    countOf (NodeChildCountMap c') p = children l r /\ countOf (NodesBranchValueMap c') p = children l r /\
    (forall x, bits x -> ~ p `prefix_of` x -> countOf (NodeChildCountMap c') x = countOf (NodeChildCountMap (cursor D)) x /\
       countOf (NodesBranchValueMap c') x = countOf (NodesBranchValueMap (cursor D)) x).
Proof.
  intros Hp Hn Hl Hr Hpath Hf Hv Hfresh.
  assert (firstChild l = if is_node l then 0 else 1) as Fl by done.
  destruct (is_node l) eqn:El; [|cbn [orb] in Hn].
  - destruct (Hl eq_refl D (ops d (p ++ [1]) r ++ rest)) as (c1 & -> & [P1 F1 C1 X1 V1]); [apply arrives_child; [done|by left|by rewrite Hpath, Fl|done|done]|].
    assert (countOf (NodeChildCountMap (cursor D)) p = 0) as C0 by (rewrite <- (app_nil_r p); apply Hfresh; constructor).
    assert (countOf (NodesBranchValueMap c1) p = children l r) as Hv1 by (rewrite V1; [done|done|apply not_below]).
    destruct (is_node r) eqn:Er.
    + assert (children l r = 2) as Hch by (unfold children; by rewrite El, Er).
      destruct (Hr eq_refl (setCursor c1 (absorb d (p ++ [0]) l D)) rest) as (c2 & -> & [P2 F2 C2 X2 V2]); cbn [cursor setCursor] in *.
      { split; [by split; [|right]| |done|lia|].
        - rewrite P1. apply advance_right. lia.
        - intros s Hs. rewrite <- (assoc_L (++)) in *. cbn [app]. rewrite X1; [by apply Hfresh, Forall_cons; split; [right|]|..].
          + apply Forall_app. split; [done|]. apply Forall_cons. split; [by right|done].
          + apply other_child. done.
          + apply longer. }
      exists c2. split; [by rewrite absorb_cursor|]. split; [done|]. split; [done|]. split; [lia|]. split; [rewrite V2; [done|done|apply not_below]|].
      intros x Hx Hnp. destruct (below_path p x Hnp) as (N0 & N1 & Nx). rewrite X2, X1, V2, V1 by done. done.
    + assert (children l r = 1) as Hch by (unfold children; by rewrite El, Er).
      destruct r; try done. cbn [witnessOps absorb app]. exists c1. split; [done|]. split; [done|]. split; [done|]. split; [lia|]. split; [done|].
      intros x Hx Hnp. destruct (below_path p x Hnp) as (N0 & N1 & Nx). rewrite X1, V1 by done. done.
  - assert (children l r = 1) as Hch by (unfold children; by rewrite El, Hn).
    assert (countOf (NodeChildCountMap (cursor D)) p = 0) as C0 by (rewrite <- (app_nil_r p); apply Hfresh; constructor).
    destruct l; try done. cbn [witnessOps absorb app]. destruct (Hr Hn D rest) as (c1 & -> & [P1 F1 C1 X1 V1]); [apply arrives_child; [done|by right|by rewrite Hpath|done|done]|].
    exists c1. split; [done|]. split; [done|]. split; [done|]. split; [lia|]. split; [rewrite V1; [done|done|apply not_below]|].
    intros x Hx Hnp. destruct (below_path p x Hnp) as (N0 & N1 & Nx). rewrite X1, V1 by done. done.
Qed.

Lemma decode_subtree t : forall d q b, is_node t = true -> branching t -> readable d (q ++ [b]) t -> decodes d q b t.
Proof.
  induction t as [|k v|l IHl r IHr]; intros d q b Hn Hb Hr D rest [[Hq Hbit] Hpath Hf Hc Hfresh]; [done|..]; cbn [witnessOps absorb].
  - destruct (leaveNode_passed q b (cursor D) Hq Hpath Hf Hc) as (c' & Hl & Hp). exists c'. split; [|done]. destruct (ask (q ++ [b])) eqn:Ha.
    + by apply decode_leaf; [apply Hr|].
    + rewrite <- Hpath. by apply decode_hash.
  - destruct (ask (q ++ [b])) eqn:Ha.
    2: { destruct (leaveNode_passed q b (cursor D) Hq Hpath Hf Hc) as (c' & Hl & Hp). exists c'. split; [|done]. rewrite <- Hpath. by apply decode_hash. }
    destruct Hb as (Hch & Bl & Br), (Hr Ha) as [Rl Rr]. pose proof (bits_snoc q b Hq Hbit) as Hp.
    pose proof (enterBranch_ok l r (cursor D) (addChild q (NodeChildCountMap (cursor D))) Hch) as He. rewrite Hf, Hpath, slice_parent, bind_ok in He. specialize (He eq_refl).
    cbn [app]. rewrite <- (assoc_L (++)). rewrite (decode_branch _ D _ _ He). set (p := q ++ [b]) in *. set (c1 := mkCursor _ _ _ _) in He |- *.
    destruct (decode_children (S d) p l r (setCursor c1 D) rest Hp Hch) as (c' & -> & P & F & C & V & X).
    + intros Hnl. by apply IHl.
    + intros Hnr. by apply IHr.
    + done.
    + done.
    + cbn. rewrite countOf_insert by done. by rewrite decide_True.
    + intros s Hs. cbn. assert (bits (p ++ s)) by (by apply Forall_app). rewrite countOf_addChild by done. rewrite decide_False; [by apply Hfresh|].
      unfold p. rewrite <- (assoc_L (++)). apply longer.
    + exists c'. split; [by rewrite !absorb_cursor|]. cbn [cursor setCursor NodeChildCountMap NodesBranchValueMap c1] in X. split.
      * rewrite P. apply advance_up. fold p. congruence.
      * done.
      * destruct (X q Hq (not_below q b)) as [-> _]. rewrite countOf_addChild by done. by rewrite decide_True.
      * intros x Hx Hnp Hne. destruct (X x Hx Hnp) as [-> _]. rewrite countOf_addChild by done. by rewrite decide_False.
      * intros x Hx Hnp. destruct (X x Hx Hnp) as [_ ->]. rewrite countOf_insert by done. rewrite decide_False; [done|]. intros ->. by apply Hnp.
Qed.

(** The operators of a tree whose root is a branch that is retained. *)
Lemma decode_tree l r : is_node l || is_node r = true -> branching l -> branching r -> readable 0 [] (B l r) -> ask [] = true ->
  exists c', decode (ops 0 [] (B l r)) startDecoding = Ok (setCursor c' (absorb 0 [] (B l r) startDecoding)) /\ path c' = [].
Proof.
  intros Hch Bl Br Hr Ha. destruct (Hr Ha) as [Rl Rr]. cbn [witnessOps absorb]. rewrite Ha. pose proof (enterBranch_ok l r (cursor startDecoding) ∅ Hch eq_refl) as He.
  rewrite (decode_branch _ _ _ _ He). set (c1 := mkCursor _ _ _ _) in He |- *. rewrite <- (app_nil_r (_ ++ _)), <- (assoc_L (++)).
  destruct (decode_children 1 [] l r (setCursor c1 startDecoding) [] (proj2 (Forall_nil _) I) Hch) as (c' & -> & P & F & C & V & X).
  - intros Hnl. by apply decode_subtree.
  - intros Hnr. by apply decode_subtree.
  - done.
  - done.
  - cbn. rewrite (countOf_insert ∅ [] []) by constructor. by rewrite decide_True.
  - done.
  - exists c'. cbn [decodeOperators]. rewrite !absorb_cursor. split; [done|]. rewrite P. apply advance_end. congruence.
Qed.

(** Without a branch at the root there is no path to shorten. *)
Lemma decode_no_branch t : (forall l r, t = B l r -> ask [] = false) -> t <> E -> readable 0 [] t ->
  decode (ops 0 [] t) startDecoding = Panic.
Proof.
  intros Hb Hne Hr. assert (decode [OperatorHash (be_encode 32 (Key_ToBigInt (th Hash 0 t)))] startDecoding = Panic) as Hh by done.
  destruct t as [|k v|l r]; [done|..]; cbn [witnessOps].
  - destruct (ask []) eqn:Ha; [|done]. destruct (Hr Ha) as (He & Hv & Hcode). unfold leafOps.
    assert (forall D, cursor D = cursor startDecoding -> decodeLeaf keccak BytesToHex (kindOf (entryAt k))
      (be_encode 20 (accountOf (entryAt k))) (be_encode 32 (positionOf (entryAt k))) (value_bytes v) D = Panic) as Hp.
    { intros D Hc. unfold decodeLeaf. rewrite BytesToAddress_20, addressString_ok, bind_ok. destruct D as [bs ns cs ss hs c db]. cbn [cursor] in Hc. by subst c. }
    destruct (Z.eqb_spec (kindOf (entryAt k)) SC_CODE) as [Hk|Hk]; cbn [app decodeOperators].
    + destruct (Hcode Hk) as [Hcb Hcl]. cbn [decodeOperator hd_error]. rewrite decodeCode_ok, bind_ok by done. by rewrite Hp.
    + cbn [decodeOperator]. by rewrite Hp.
  - by rewrite (Hb l r eq_refl).
Qed.
End decode_ok.
