(* ===== verification/SmtPartial.v ===== *)
(** * Trees of which a store has only a part

    A witness leaves out what the decider does not retain, so the store that is built from it
    has the nodes above the hashes and not those below.  An insertion needs the nodes on the
    path of its key only: it works on such a store as on a whole one, as long as
    the path does not lead below a hash. *)
From stdpp Require Import sorting.
From S2P Require Import Prelude Bytes Hex SmtProof Kv SmtUtils SmtTree SmtDb Smt SmtRefine RetainList SmtRead SmtBatch SmtBatchTheory SmtBatchRuns SmtKeys SmtMdbx SmtEntity SmtEntityTheory SmtWitness SmtWitnessTheory.

Section partial.
Context {D : Type} `{SmtDb D} `{!SmtDbLaws D}.
Context (Hash : list Z -> NodeKey -> NodeKey) (Hash_range : forall i c, key_ok (Hash i c)).
(** Whether the node at a position is there. *)
Context (ask : list Z -> bool).

(** The nodes that are there. *)
Fixpoint seen (d : nat) (p : list Z) (t : tree) : list (list Z * NodeKey) :=
  match t with
  | B l r =>
      if ask p then (ConcatArrays4 (th Hash (S d) l) (th Hash (S d) r), BranchCapacity) :: seen (S d) (p ++ [0]) l ++ seen (S d) (p ++ [1]) r else []
  | _ => if ask p then nodes Hash d t else []
  end.

(** Nothing is missing on the path of a key. *)
Fixpoint open (d : nat) (p : list Z) (k : NodeKey) (t : tree) : bool :=
  ask p && match t with
           | B l r => if bit k d then open (S d) (p ++ [1]) k r else open (S d) (p ++ [0]) k l
           | _ => true
           end.

Lemma seen_nodes t : forall d p x, x ∈ seen d p t -> x ∈ nodes Hash d t.
Proof.
  induction t as [|k v|l IHl r IHr]; intros d p x; cbn [seen]; destruct (ask p); try done; try (by intros Hx%not_elem_of_nil).
  cbn [nodes]. rewrite !elem_of_cons, !elem_of_app. intros [->|[Hx|Hx]]; [by left|right; left; by eapply IHl|right; right; by eapply IHr].
Qed.

Lemma seen_E d p : seen d p E = [].
Proof. cbn. by destruct (ask p). Qed.

Section key.
Context (k : NodeKey).

Lemma seen_branch d p sub o x : x ∈ seen d p (branch d k sub o) <-> ask p = true /\
  (x = (pathInput k d (th Hash (S d) sub) (th Hash (S d) o), BranchCapacity) \/
   x ∈ seen (S d) (p ++ [Z.b2z (bit k d)]) sub \/ x ∈ seen (S d) (p ++ [Z.b2z (negb (bit k d))]) o).
Proof.
  unfold branch, pathInput. destruct (bit k d); cbn [seen negb Z.b2z]; destruct (ask p); rewrite ?elem_of_cons, ?elem_of_app, ?elem_of_nil; intuition congruence.
Qed.

Lemma open_branch d p sub o : open d p k (branch d k sub o) = ask p && open (S d) (p ++ [Z.b2z (bit k d)]) k sub.
Proof. unfold branch. destruct (bit k d) eqn:Hb; cbn [open Z.b2z]; by rewrite Hb. Qed.

(** The path that is there can be searched. *)
Lemma open_path ctx : forall d p sub (P : list Z * NodeKey -> Prop), is_end sub -> open d p k (plug k d ctx sub) = true ->
  Forall P (seen d p (plug k d ctx sub)) -> Forall P (branchNodes Hash k d ctx sub) /\ Forall P (nodes Hash (d + length ctx) sub).
Proof.
  induction ctx as [|o ctx IH]; intros d p sub P He Ho Hs; cbn [plug branchNodes length] in *.
  - rewrite Nat.add_0_r. split; [by apply Forall_nil|]. destruct sub; try done; cbn [open seen] in Ho, Hs; rewrite andb_true_r in Ho; by rewrite Ho in Hs.
  - rewrite open_branch in Ho. apply andb_true_iff in Ho as [Ha Ho]. rewrite Forall_forall in Hs.
    destruct (IH (S d) _ sub P He Ho) as [H1 H2]; [apply Forall_forall; intros x Hx; apply Hs, seen_branch; tauto|].
    rewrite <- Nat.add_succ_comm. split; [|done]. apply Forall_cons. split; [|done]. apply Hs, seen_branch. tauto.
Qed.

(** What is there after a change at the end of the path was there before, or is on the path. *)
Lemma seen_change ctx : forall d p sub sub' x, x ∈ seen d p (plug k d ctx sub') ->
  x ∈ branchNodes Hash k d ctx sub' \/ x ∈ nodes Hash (d + length ctx) sub' \/ x ∈ seen d p (plug k d ctx sub).
Proof.
  induction ctx as [|o ctx IH]; intros d p sub sub' x Hx; cbn [plug branchNodes length] in *.
  - rewrite Nat.add_0_r. right. left. by eapply seen_nodes.
  - rewrite seen_branch in Hx |- *. rewrite <- Nat.add_succ_comm, elem_of_cons. destruct Hx as (Ha & [->|[Hx|Hx]]); [tauto| |tauto].
    destruct (IH _ _ sub _ _ Hx) as [?|[?|?]]; tauto.
Qed.
End key.

(** A store that has the nodes that are there. *)
Definition partial (db : D) (t : tree) : Prop := tree_ok t /\ nonzero Hash 0 t /\ Forall (has Hash db) (seen 0 [] t) /\ db_ok db.

Definition open_put (t : tree) (kv : NodeKey * list Z) : Prop :=
  is_zero (snd kv) = false /\ open 0 [] (fst kv) t = true /\ sound_put Hash t kv.

Lemma partial_store : TreeStore Hash partial open_put.
Proof.
  split.
  - by intros d t [Ht _].
  - intros t k v newValH d Hop Hn (Ht & Hnz & Hs & Hd) (Hz & Ho & Hcf & Hnz'). pose proof Hop as [Hk Hv]. cbn [fst snd] in *.
    pose proof (tput_ok t (k, v) Hop Ht) as Ht'. unfold tput in *. cbn [fst snd] in *. rewrite Hz in *.
    destruct (decompose k t 0) as (ctx & sub & -> & Hend). rewrite tins_plug in *. cbn [Nat.add] in *.
    destruct (open_path k ctx 0 [] sub _ Hend Ho Hs) as [Hb Hsub].
    destruct (insert_path Hash Hash_range k Hk ctx sub v newValH d Hend (proj1 Ht) Hnz Hb Hsub Hd Hv Hz Hn Hcf) as (mode & d' & -> & Hb' & Hsub' & Hkeep & Hd').
    exists mode, d'. split; [done|]. split; [done|]. split; [done|]. split; [|done].
    unfold stored in Hsub'. rewrite !Forall_forall in *. intros x Hx. destruct (seen_change k ctx 0 [] sub _ x Hx) as [?|[?|Hold]]; [auto..|].
    apply Hkeep; [by eapply seen_nodes|auto].
  - intros d d' t [Hg Hd'] (Ht & Hnz & Hs & Hd). split; [done|]. split; [done|]. split; [|auto].
    eapply Forall_impl; [exact Hs|]. intros x Hx. unfold has in *. by rewrite Hg.
Qed.

(** ** Hashes in the place of trees *)

(** A tree put in at a position, on a path of branches that are made where there are none. *)
Fixpoint graft (q : list Z) (s t : tree) : tree :=
  match q with
  | [] => s
  | b :: q =>
      let '(l, r) := match t with B l r => (l, r) | _ => (E, E) end in
      if b =? 0 then B (graft q s l) r else B l (graft q s r)
  end.

(** The position can be reached: it lies below branches that are there, or below nothing. *)
Fixpoint hollow (p q : list Z) (t : tree) : Prop :=
  match q with
  | [] => ask p = false
  | b :: q => ask p = true /\ (b = 0 \/ b = 1) /\
      match t with
      | E => hollow (p ++ [b]) q E
      | Leaf _ _ => False
      | B l r => hollow (p ++ [b]) q (if b =? 0 then l else r)
      end
  end.

Section save.
Context (N : list Z * NodeKey -> Prop) (h : NodeKey) (Hh : key_ok h).
Context (N_inj : forall x y, N x -> N y -> Hash (fst x) (snd x) = Hash (fst y) (snd y) -> x = y).
Context (N_h : forall x, N x -> Hash (fst x) (snd x) <> h).

#[local] Instance keeps_trans : PreOrder (keeps_nodes Hash N) := keeps_nodes_preorder Hash N.

Lemma hash_value_ok : value_ok (ToUintArray (ScalarToNodeValue8 (ArrayToScalar (words h)))).
Proof.
  split; [done|]. unfold ToUintArray, ScalarToNodeValue8. cbn [map]. repeat (apply Forall_cons; split); [..|by apply Forall_nil];
    unfold word_ok, bigUint64; apply Z.mod_pos_bound; lia.
Qed.

Lemma save_hash db : exists db', insertHashNode Hash false [] h zeroKey db = Ok (h, db') /\ keeps_nodes Hash N db db'.
Proof.
  cbn [insertHashNode]. cbv zeta. unfold hashSave.
  destruct (law_Insert db h (ConcatArrays8AndCapacity (ToUintArray (ScalarToNodeValue8 (ArrayToScalar (words h)))) LeafCapacity)) as (db' & -> & _ & Hother & Hd);
    [done|apply concat8_ok; [apply hash_value_ok|apply LeafCapacity_ok]|].
  rewrite bind_ok. exists db'. split; [done|]. split; [|done]. intros x Hx Hhas. unfold has in *. by rewrite Hother by (apply Hash_range || by apply N_h).
Qed.

Lemma node12_filled a b : bool_decide (node12 a b BranchCapacity = replicate 12 None) = false.
Proof. by apply bool_decide_false. Qed.

Lemma empty_child b : b = 0 \/ b = 1 -> childAt (replicate 12 None) b = Ok zeroKey.
Proof. by intros [->| ->]. Qed.

(** What the function reads of the root. *)
Definition halves (t : tree) : tree * tree := match t with B l r => (l, r) | _ => (E, E) end.

Lemma read_root d p t db b : ask p = true -> (b = 0 \/ b = 1) -> t = E \/ (exists l r, t = B l r) -> nonzero Hash d t -> Forall (has Hash db) (seen d p t) ->
  let '(l, r) := halves t in exists rootVal,
    (if negb (Key_IsZero (th Hash d t)) then db_Get db (th Hash d t) else Ok (replicate 12 None)) = Ok rootVal /\
    childAt rootVal b = Ok (th Hash (S d) (if b =? 0 then l else r)) /\
    (if bool_decide (rootVal = replicate 12 None) then Ok zeroKey else Get4to8 rootVal) = Ok (th Hash (S d) r) /\
    (if bool_decide (rootVal = replicate 12 None) then Ok zeroKey else Get0to4 rootVal) = Ok (th Hash (S d) l).
Proof.
  intros Ha Hb [->|(l & r & ->)] Hn Hs; cbn [halves].
  - exists (replicate 12 None). cbn [th]. rewrite Key_IsZero_spec, bool_decide_true by done. split; [done|]. rewrite empty_child by done. by destruct (b =? 0).
  - cbn [seen] in Hs. rewrite Ha in Hs. apply Forall_cons in Hs as [Hs _]. exists (node12 (th Hash (S d) l) (th Hash (S d) r) BranchCapacity).
    rewrite Key_IsZero_spec, bool_decide_false by apply Hn. cbn [negb]. split; [exact Hs|]. rewrite node12_filled.
    destruct (childAt_node12 (th Hash (S d) l) (th Hash (S d) r) BranchCapacity) as (C0 & C1 & _); [by apply th_ok|by apply th_ok|apply zeroKey_ok|].
    destruct (Get_node12 (th Hash (S d) l) (th Hash (S d) r) BranchCapacity) as [-> ->]; [by apply th_ok|by apply th_ok|]. split; [|done].
    by destruct Hb as [->| ->].
Qed.

Lemma insertHashNode_ok q : forall d p s t db, hollow p q t -> nonzero Hash d t -> Forall (has Hash db) (seen d p t) -> th Hash (d + length q) s = h ->
  (forall x, x ∈ seen d p (graft q s t) -> N x) ->
  exists db', insertHashNode Hash false q h (th Hash d t) db = Ok (th Hash d (graft q s t), db') /\
    Forall (has Hash db') (seen d p (graft q s t)) /\ keeps_nodes Hash N db db'.
Proof.
  induction q as [|b q IH]; intros d p s t db Hq Hn Hs Hth HN; cbn [graft].
  - destruct (save_hash db) as (db' & He & Hk). exists db'. cbn [length] in Hth. rewrite Nat.add_0_r in Hth. rewrite Hth. split; [exact He|]. split; [|done].
    destruct s; cbn [seen]; cbn [hollow] in Hq; rewrite Hq; by apply Forall_nil.
  - destruct Hq as (Ha & Hb & Hq). assert (t = E \/ exists l r, t = B l r) as Ht by (destruct t; [by left|done|right; by eexists _, _]).
    pose proof (read_root d p t db b Ha Hb Ht Hn Hs) as Hr. destruct (halves t) as [l r] eqn:Hlr. destruct Hr as (rootVal & Hroot & Hc & H48 & H04).
    assert (match t with B l r => (l, r) | _ => (E, E) end = (l, r)) as Hm by (by destruct t). cbn [graft] in HN. rewrite Hm in HN |- *.
    assert (hollow (p ++ [b]) q (if b =? 0 then l else r) /\ nonzero Hash (S d) l /\ nonzero Hash (S d) r /\
      Forall (has Hash db) (seen (S d) (p ++ [0]) l) /\ Forall (has Hash db) (seen (S d) (p ++ [1]) r)) as (Hq' & Nl & Nr & Sl & Sr).
    { destruct Ht as [->|(l' & r' & ->)]; injection Hlr as <- <-.
      - rewrite !seen_E. destruct (b =? 0); repeat split; done || apply Forall_nil_2.
      - cbn [seen] in Hs. rewrite Ha in Hs. apply Forall_cons in Hs as [_ [? ?]%Forall_app]. destruct Hn as (_ & ? & ?). done. }
    cbn [insertHashNode]. unfold NodeValue12 in *. rewrite Hroot, bind_ok, Hc, bind_ok. cbn [length] in Hth. rewrite <- Nat.add_succ_comm in Hth.
    destruct Hb as [->| ->]; cbn [Z.eqb] in *.
    + destruct (IH (S d) (p ++ [0]) s l db Hq' Nl Sl Hth) as (db1 & -> & Hs1 & Hk1).
      { intros x Hx. apply HN. cbn [seen]. rewrite Ha. right. apply elem_of_app. by left. }
      rewrite bind_ok, H48, !bind_ok.
      destruct (hashcalcAndSave_ok Hash Hash_range N N_inj (ConcatArrays4 (th Hash (S d) (graft q s l)) (th Hash (S d) r)) BranchCapacity db1)
        as (db2 & -> & Hh2 & Hk2); [apply concat4_ok; by apply th_ok|apply zeroKey_ok|apply HN; cbn [seen]; rewrite Ha; left|].
      exists db2. split; [done|]. split; [|by etrans]. cbn [seen] in HN |- *. rewrite Ha in HN |- *. apply Forall_cons. split; [done|]. apply Forall_app.
      rewrite !Forall_forall in *. split; intros x Hx; apply Hk2; [apply HN; right; apply elem_of_app; by left|by apply Hs1|apply HN; right; apply elem_of_app; by right|].
      apply Hk1; [apply HN; right; apply elem_of_app; by right|by apply Sr].
    + destruct (IH (S d) (p ++ [1]) s r db Hq' Nr Sr Hth) as (db1 & -> & Hs1 & Hk1).
      { intros x Hx. apply HN. cbn [seen]. rewrite Ha. right. apply elem_of_app. by right. }
      rewrite bind_ok, H04, !bind_ok.
      destruct (hashcalcAndSave_ok Hash Hash_range N N_inj (ConcatArrays4 (th Hash (S d) l) (th Hash (S d) (graft q s r))) BranchCapacity db1)
        as (db2 & -> & Hh2 & Hk2); [apply concat4_ok; by apply th_ok|apply zeroKey_ok|apply HN; cbn [seen]; rewrite Ha; left|].
      exists db2. split; [done|]. split; [|by etrans]. cbn [seen] in HN |- *. rewrite Ha in HN |- *. apply Forall_cons. split; [done|]. apply Forall_app.
      rewrite !Forall_forall in *. split; intros x Hx; apply Hk2; [apply HN; right; apply elem_of_app; by left| |apply HN; right; apply elem_of_app; by right|by apply Hs1].
      apply Hk1; [apply HN; right; apply elem_of_app; by left|by apply Sl].
Qed.
End save.

(** A store with the root of a tree, and the nodes of it that are there. *)
Definition grafted (db : D) (t : tree) : Prop :=
  db_GetLastRoot db = Ok (Key_ToBigInt (th Hash 0 t)) /\ nonzero Hash 0 t /\ Forall (has Hash db) (seen 0 [] t) /\ db_ok db.

(** The hash that is put in is not the hash of a node that is there, and these do not collide. *)
Definition sound_graft (q : list Z) (s t : tree) : Prop :=
  let t' := graft q s t in
  nonzero Hash 0 t' /\ collision_free Hash (seen 0 [] t') /\ Forall (fun x => Hash (fst x) (snd x) <> th Hash (length q) s) (seen 0 [] t').

Lemma InsertHashNode_ok q s t db : grafted db t -> hollow [] q t -> sound_graft q s t ->
  exists db', InsertHashNode Hash false q (Key_ToBigInt (th Hash (length q) s)) db = Ok (Key_ToBigInt (th Hash 0 (graft q s t)), db') /\ grafted db' (graft q s t).
Proof.
  intros (Hr & Hn & Hs & Hd) Hq (Hn' & Hcf & Hne). unfold InsertHashNode, getLastRoot. rewrite Hr, !bind_ok, ScalarToRoot_ToBigInt by (by apply th_ok).
  rewrite ScalarToArray_ToBigInt by (by apply th_ok). set (h := th Hash (length q) s) in *.
  change (index (words h) 0) with (Ok (w0 h)). change (index (words h) 1) with (Ok (w1 h)). change (index (words h) 2) with (Ok (w2 h)). change (index (words h) 3) with (Ok (w3 h)).
  rewrite !bind_ok. assert (mkKey (w0 h) (w1 h) (w2 h) (w3 h) = h) as -> by (by destruct h). rewrite Forall_forall in Hne.
  destruct (insertHashNode_ok (fun x => x ∈ seen 0 [] (graft q s t)) h (th_ok Hash Hash_range _ _) Hcf Hne q 0 [] s t db Hq Hn Hs eq_refl (fun x Hx => Hx))
    as (db1 & -> & Hs1 & Hk1). rewrite bind_ok. unfold setLastRoot.
  destruct (law_SetLastRoot db1 (Key_ToBigInt (th Hash 0 (graft q s t)))) as (db2 & -> & [Hg Hd2] & Hr2); [by apply Key_ToBigInt_range, th_ok|].
  rewrite bind_ok. exists db2. split; [done|]. split; [done|]. split; [done|]. split; [|by apply Hd2, Hk1].
  eapply Forall_impl; [exact Hs1|]. intros x Hx. unfold has in *. by rewrite Hg.
Qed.

(** ** What a witness leaves out *)

(** The subtrees whose hashes are in a witness, with their positions below [p]. *)
Fixpoint stubs (p : list Z) (t : tree) : list (list Z * tree) :=
  match t with
  | E => []
  | Leaf _ _ => if ask p then [] else [([], t)]
  | B l r =>
      if ask p then map (fun qs => (0 :: fst qs, snd qs)) (stubs (p ++ [0]) l) ++ map (fun qs => (1 :: fst qs, snd qs)) (stubs (p ++ [1]) r)
      else [([], t)]
  end.

Definition bare (l r : tree) : tree := match l, r with E, E => E | _, _ => B l r end.

(** The tree without the leaves that are there. *)
Fixpoint cut (p : list Z) (t : tree) : tree :=
  match t with
  | B l r => if ask p then bare (cut (p ++ [0]) l) (cut (p ++ [1]) r) else t
  | _ => if ask p then E else t
  end.

Definition graftOne (t : tree) (qs : list Z * tree) : tree := graft (fst qs) (snd qs) t.

Fixpoint hollows (p : list Z) (t : tree) (qs : list (list Z * tree)) : Prop :=
  match qs with [] => True | x :: qs => hollow p (fst x) t /\ hollows p (graftOne t x) qs end.

Fixpoint sound_grafts (t : tree) (qs : list (list Z * tree)) : Prop :=
  match qs with [] => True | x :: qs => sound_graft (fst x) (snd x) t /\ sound_grafts (graftOne t x) qs end.

Lemma stubs_nonE t : forall p, Forall (fun qs => snd qs <> E) (stubs p t).
Proof.
  induction t as [|k v|l IHl r IHr]; intros p; cbn [stubs]; [by apply Forall_nil|..]; destruct (ask p); try (by apply Forall_singleton); [by apply Forall_nil|].
  apply Forall_app. split; apply Forall_map; [apply IHl|apply IHr].
Qed.

Lemma graft_nonE q s t : s <> E -> graft q s t <> E.
Proof. destruct q as [|b q]; [done|]. cbn. intros _. by destruct t, (b =? 0). Qed.

Lemma grafts_nonE qs t : Forall (fun qs => snd qs <> E) qs -> t <> E -> foldl graftOne t qs <> E.
Proof. intros Hq. revert t. induction Hq as [|x qs Hx _ IH]; intros t Ht; [done|]. by apply IH, graft_nonE. Qed.

Lemma bare_B l r : l <> E \/ r <> E -> bare l r = B l r.
Proof. intros [Hl|Hr]; [by destruct l|by destruct l, r]. Qed.

Lemma halves_bare l r : halves (bare l r) = (l, r).
Proof. by destruct l, r. Qed.

Lemma graft_left q s l r : s <> E -> graft (0 :: q) s (bare l r) = bare (graft q s l) r.
Proof.
  intros Hs. cbn [graft]. change (match bare l r with B l r => (l, r) | _ => (E, E) end) with (halves (bare l r)). rewrite halves_bare. cbn [Z.eqb].
  symmetry. apply bare_B. left. by apply graft_nonE.
Qed.

Lemma graft_right q s l r : s <> E -> graft (1 :: q) s (bare l r) = bare l (graft q s r).
Proof.
  intros Hs. cbn [graft]. change (match bare l r with B l r => (l, r) | _ => (E, E) end) with (halves (bare l r)). rewrite halves_bare. cbn [Z.eqb].
  symmetry. apply bare_B. right. by apply graft_nonE.
Qed.

Lemma hollow_bare p b q l r : ask p = true -> b = 0 \/ b = 1 -> hollow (p ++ [b]) q (if b =? 0 then l else r) -> hollow p (b :: q) (bare l r).
Proof.
  intros Ha Hb Hq. cbn [hollow]. split; [done|]. split; [done|]. destruct l, r; cbn [bare]; try done. by destruct (b =? 0).
Qed.

(** The positions of one side. *)
Lemma grafts_left p qs r : forall l, ask p = true -> Forall (fun qs => snd qs <> E) qs -> hollows (p ++ [0]) l qs ->
  let qs' := map (fun qs => (0 :: fst qs, snd qs)) qs in
  hollows p (bare l r) qs' /\ foldl graftOne (bare l r) qs' = bare (foldl graftOne l qs) r.
Proof.
  intros l Ha Hne. revert l. induction Hne as [|[q s] qs Hs _ IH]; intros l Hh; [done|]. destruct Hh as [Hq Hh]. cbn [map fst snd hollows foldl] in *.
  unfold graftOne at 1 3. cbn [fst snd]. rewrite graft_left by done. destruct (IH (graft q s l) Hh) as [IH1 IH2].
  split; [|exact IH2]. split; [|exact IH1]. apply hollow_bare; [done|by left|done].
Qed.

Lemma grafts_right p qs l : forall r, ask p = true -> Forall (fun qs => snd qs <> E) qs -> hollows (p ++ [1]) r qs ->
  let qs' := map (fun qs => (1 :: fst qs, snd qs)) qs in
  hollows p (bare l r) qs' /\ foldl graftOne (bare l r) qs' = bare l (foldl graftOne r qs).
Proof.
  intros r Ha Hne. revert r. induction Hne as [|[q s] qs Hs _ IH]; intros r Hh; [done|]. destruct Hh as [Hq Hh]. cbn [map fst snd hollows foldl] in *.
  unfold graftOne at 1 3. cbn [fst snd]. rewrite graft_right by done. destruct (IH (graft q s r) Hh) as [IH1 IH2].
  split; [|exact IH2]. split; [|exact IH1]. apply hollow_bare; [done|by right|done].
Qed.

Lemma hollows_app p qs qs' : forall t, hollows p t qs -> hollows p (foldl graftOne t qs) qs' -> hollows p t (qs ++ qs').
Proof. induction qs as [|x qs IH]; intros t Hq Hq'; [done|]. destruct Hq as [Hx Hq]. split; [done|]. by apply IH. Qed.

(** Putting in all hashes of a witness gives the tree without the leaves that are there. *)
Lemma grafts_cut t : forall p, hollows p E (stubs p t) /\ foldl graftOne E (stubs p t) = cut p t.
Proof.
  induction t as [|k v|l IHl r IHr]; intros p; cbn [stubs cut]; [by destruct (ask p)|..]; destruct (ask p) eqn:Ha; try done.
  destruct (IHl (p ++ [0])) as [Hl El], (IHr (p ++ [1])) as [Hr Er].
  destruct (grafts_left p (stubs (p ++ [0]) l) E E Ha (stubs_nonE l _) Hl) as [H1 E1]. cbn [bare] in H1, E1. rewrite El in E1.
  destruct (grafts_right p (stubs (p ++ [1]) r) (cut (p ++ [0]) l) E Ha (stubs_nonE r _) Hr) as [H2 E2]. rewrite Er in E2.
  split; [apply hollows_app; [done|by rewrite E1]|]. by rewrite foldl_app, E1.
Qed.

(** ** The leaves that are there *)

Fixpoint shown (d : nat) (p : list Z) (k : NodeKey) (t : tree) : bool :=
  ask p && match t with
           | E => false
           | Leaf k' _ => bool_decide (k = k')
           | B l r => if bit k d then shown (S d) (p ++ [1]) k r else shown (S d) (p ++ [0]) k l
           end.

Lemma bare_get d k l r : tget d k (bare l r) = tget d k (B l r).
Proof. destruct l, r; try done. cbn. by destruct (bit k d). Qed.

Lemma bare_placed d l r : placed d (B l r) -> placed d (bare l r).
Proof. by destruct l, r. Qed.

Lemma bare_inT k l r : inT k (bare l r) <-> inT k l \/ inT k r.
Proof. destruct l, r; cbn; tauto. Qed.

Lemma cut_false p t : ask p = false -> cut p t = t.
Proof. intros Ha. destruct t; cbn; by rewrite Ha. Qed.

Lemma cut_inT k t : forall p, inT k (cut p t) -> inT k t.
Proof.
  induction t as [|k' v'|l IHl r IHr]; intros p; cbn [cut]; destruct (ask p); try done.
  rewrite bare_inT. cbn. intros [Hl|Hr]; [left; by eapply IHl|right; by eapply IHr].
Qed.

Lemma cut_placed t : forall d p, placed d t -> placed d (cut p t).
Proof.
  induction t as [|k' v'|l IHl r IHr]; intros d p Hp; cbn [cut]; destruct (ask p); try done.
  destruct Hp as (Hd & Hl & Hr & Pl & Pr). apply bare_placed. split; [done|]. split; [intros k Hk; by apply Hl; eapply cut_inT|].
  split; [intros k Hk; by apply Hr; eapply cut_inT|]. auto.
Qed.

Lemma cut_get k t : forall d p, tget d k (cut p t) = if shown d p k t then None else tget d k t.
Proof.
  induction t as [|k' v'|l IHl r IHr]; intros d p; cbn [cut shown]; destruct (ask p); cbn [andb]; try done.
  - cbn. case_bool_decide; [done|]. by rewrite decide_False.
  - rewrite bare_get. cbn [tget]. destruct (bit k d); [apply IHr|apply IHl].
Qed.

(** Siblings are both there, or both left out: the node is asked about its parent. *)
Context (paired : forall p, ask (p ++ [0]) = ask (p ++ [1])).

Lemma many_BB l r : (l = E \/ exists a b, l = B a b) -> (r = E \/ exists a b, r = B a b) -> l <> E \/ r <> E -> many l r.
Proof. intros [->|(a & b & ->)] [->|(a' & b' & ->)] [?|?]; done. Qed.

Lemma cut_canonical t : forall p, canonical t -> canonical (cut p t) /\ (ask p = true -> cut p t = E \/ exists l r, cut p t = B l r).
Proof.
  induction t as [|k' v'|l IHl r IHr]; intros p Hc; cbn [cut]; destruct (ask p); try done; [by split; [|left]..|]. destruct Hc as (Cl & Cr & Hm).
  destruct (IHl (p ++ [0]) Cl) as [Cl' El], (IHr (p ++ [1]) Cr) as [Cr' Er].
  assert (bare (cut (p ++ [0]) l) (cut (p ++ [1]) r) = E \/ exists l' r', bare (cut (p ++ [0]) l) (cut (p ++ [1]) r) = B l' r') as Hshape
    by (destruct (cut (p ++ [0]) l), (cut (p ++ [1]) r); cbn; eauto). split; [|done].
  destruct (ask (p ++ [0])) eqn:Ha.
  - specialize (El eq_refl). specialize (Er (eq_trans (eq_sym (paired p)) Ha)).
    destruct (decide (is_node (cut (p ++ [0]) l) || is_node (cut (p ++ [1]) r) = true)) as [Hn|Hn].
    + assert (cut (p ++ [0]) l <> E \/ cut (p ++ [1]) r <> E) as Hne.
      { destruct (cut (p ++ [0]) l); [right|left; done..]. by destruct (cut (p ++ [1]) r). }
      rewrite bare_B by done. split; [done|]. split; [done|]. by apply many_BB.
    + destruct (cut (p ++ [0]) l), (cut (p ++ [1]) r); done.
  - rewrite !cut_false by (done || by rewrite <- paired). rewrite bare_B; [done|]. destruct l, r; auto. 
Qed.

Lemma cut_tree_ok t : tree_ok t -> tree_ok (cut [] t).
Proof. intros [Hp Hc]. split; [by apply cut_placed|by apply cut_canonical]. Qed.

Lemma shown_inT k t : forall d p, shown d p k t = true -> inT k t.
Proof.
  induction t as [|k' v'|l IHl r IHr]; intros d p; cbn [shown]; destruct (ask p); cbn [andb]; try done.
  - by intros Hk%bool_decide_eq_true.
  - cbn. destruct (bit k d); intros Hs; [right; by eapply IHr|left; by eapply IHl].
Qed.

Lemma inT_side d k2 k l r : placed d (B l r) -> inT k2 (side k d l r) -> bit k2 d = bit k d /\ inT k2 (B l r).
Proof. intros (_ & Hl & Hr & _). unfold side. destruct (bit k d); cbn; auto. Qed.

(** The path of a leaf that is there is open in every tree with fewer leaves. *)
Lemma open_shown k t : forall t' d p, placed d t -> placed d t' -> canonical t' -> (forall k2, inT k2 t' -> inT k2 t) ->
  shown d p k t = true -> open d p k t' = true.
Proof.
  induction t as [|k' v'|l IHl r IHr]; intros t' d p Hp Hp' Hc' Hsub Hs; cbn [shown] in Hs; destruct (ask p) eqn:Ha; try done; cbn [andb] in Hs.
  - destruct t' as [|? ?|l' r']; cbn [open]; [by rewrite Ha..|]. pose proof (canonical_leaves (B l' r') d Hp' Hc') as (k1 & k2 & Hne & H1 & H2).
    destruct Hne. apply Hsub in H1, H2. cbn in H1, H2. congruence.
  - destruct t' as [|? ?|l' r']; cbn [open]; rewrite Ha; cbn [andb]; [done..|]. pose proof Hp as (_ & Hl & Hr & Pl & Pr). pose proof Hp' as (_ & Hl' & Hr' & Pl' & Pr').
    destruct Hc' as (Cl' & Cr' & _). destruct (bit k d) eqn:Hb.
    + apply IHr; [done..| |done]. intros k2 H2. destruct (Hsub k2) as [Hin|Hin]; [by right| |done]. specialize (Hr' k2 H2). specialize (Hl k2 Hin). congruence.
    + apply IHl; [done..| |done]. intros k2 H2. destruct (Hsub k2) as [Hin|Hin]; [by left|done|]. specialize (Hl' k2 H2). specialize (Hr k2 Hin). congruence.
Qed.
End partial.
