(* ===== verification/SmtRebuild.v ===== *)
(** * From a witness back to the tree

    [BuildSMTfromWitness] on the operators of [BuildWitness] gives a tree with the root of the
    original, with every node that the decider retained.  First the hashes are put in,
    which gives the tree without the leaves that are in the witness; then the leaves are written as
    accounts, codes and storage in the orders in which the maps are visited, and no
    path leads below a hash. *)
From Stdlib Require Import Ascii.
From stdpp Require Import pretty sorting.
From S2P Require Import Prelude Bytes Hex SmtProof Kv SmtUtils SmtTree SmtDb Smt SmtRefine RetainList SmtRead SmtBatch SmtBatchTheory SmtBatchRuns SmtKeys SmtMdbx SmtEntity SmtEntityTheory SmtWitness SmtWitnessTheory SmtPartial.

(** ** The case of hexadecimal digits *)

(** Two outcomes of the same kind, with related results. *)
Definition related {A} (R : A -> A -> Prop) (o o' : outcome A) : Prop :=
  match o, o' with Ok a, Ok b => R a b | Err e, Err e' => e = e' | Panic, Panic => True | _, _ => False end.

Lemma related_bind {A B} (R : A -> A -> Prop) (S : B -> B -> Prop) m m' f f' : related R m m' ->
  (forall a b, R a b -> related S (f a) (f' b)) -> related S (a ← m; f a) (a ← m'; f' a).
Proof. destruct m, m'; cbn; intros Hm Hf; first [done|by apply Hf]. Qed.

Lemma related_eq {A} (o o' : outcome A) : related eq o o' -> o = o'.
Proof. destruct o, o'; try done; cbn; congruence. Qed.

Lemma related_refl {A} (o : outcome A) : related eq o o.
Proof. by destruct o. Qed.

(** Strings that differ in the case of digits only. *)
Fixpoint alike (s s' : string) : Prop :=
  match s, s' with
  | EmptyString, EmptyString => True
  | String c s, String c' s' => (c = c' \/ hexVal c' = hexVal c /\ is_Some (hexVal c)) /\ alike s s'
  | _, _ => False
  end.

Lemma alike_refl s : alike s s.
Proof. induction s as [|c s IH]; [done|]. split; [by left|done]. Qed.

Lemma same_digits_alike s : forall s', same_digits s s' -> alike s s'.
Proof. induction s as [|c s IH]; intros [|c' s']; try done. intros (Hc & Hd & Hs). split; [by right|by apply IH]. Qed.

Lemma alike_slen s : forall s', alike s s' -> slen s' = slen s.
Proof. unfold slen. induction s as [|c s IH]; intros [|c' s']; try done. intros [_ Hs]. cbn [String.length]. specialize (IH s' Hs). lia. Qed.

Lemma alike_app a : forall a' b b', alike a a' -> alike b b' -> alike (a ++ b) (a' ++ b').
Proof. induction a as [|c a IH]; intros [|c' a'] b b'; try done. intros [Hc Ha] Hb. rewrite !str_app_cons. split; [done|by apply IH]. Qed.

Lemma alike_substring s : forall s' n m, alike s s' -> alike (String.substring n m s) (String.substring n m s').
Proof.
  induction s as [|c s IH]; intros [|c' s'] n m Hs; try done; [by destruct n, m|]. destruct Hs as [Hc Hs].
  destruct n; cbn [String.substring]; [destruct m; [done|]; split; [done|]|]; by apply IH.
Qed.

Lemma alike_slice s s' lo hi : alike s s' -> related alike (str_slice s lo hi) (str_slice s' lo hi).
Proof. intros Hs. unfold str_slice. rewrite (alike_slen _ _ Hs). case_match; [|done]. by apply alike_substring. Qed.

Lemma alike_parse s : forall s' acc, alike s s' -> parseDigits acc s' = parseDigits acc s.
Proof.
  induction s as [|c s IH]; intros [|c' s'] acc; try done. intros [Hc Hs]. cbn [parseDigits].
  assert (hexVal c' = hexVal c) as -> by (by destruct Hc as [->|[Hc _]]). destruct (hexVal c); [|done]. by apply IH.
Qed.

Lemma alike_parseNat s s' : alike s s' -> parseNat s' = parseNat s.
Proof. intros Hs. destruct s, s'; try done. by apply alike_parse. Qed.

Lemma alike_ParseHex s s' : alike s s' -> ParseHex s' = ParseHex s.
Proof.
  intros Hs. pose proof (alike_parseNat _ _ Hs) as Hp. destruct s as [|c s], s' as [|c' s']; try done. pose proof Hs as [Hc Hs'].
  unfold ParseHex. destruct Hc as [->|[Hc Hd]]; [by rewrite Hp, (alike_parseNat _ _ Hs')|].
  assert (is_Some (hexVal c')) as Hd' by (by rewrite Hc). destruct (hexVal_unsigned c Hd) as [-> ->], (hexVal_unsigned c' Hd') as [-> ->]. exact Hp.
Qed.

Lemma padZeros_alike fuel : forall s s', alike s s' -> related alike (padZeros fuel s) (padZeros fuel s').
Proof.
  induction fuel as [|fuel IH]; intros s s' Hs; cbn [padZeros]; rewrite (alike_slen _ _ Hs); case_match; try done.
  apply IH, alike_app; [done|apply alike_refl].
Qed.

Lemma blockElements_alike n : forall j s s' tmp tmp' counter els, alike s s' -> alike tmp tmp' ->
  related eq (blockElements n j s tmp counter els) (blockElements n j s' tmp' counter els).
Proof.
  induction n as [|n IH]; intros j s s' tmp tmp' counter els Hs Ht; cbn [blockElements]; [done|]. rewrite (alike_slen _ _ Hs).
  apply (related_bind alike); [case_match; [by apply alike_slice|apply alike_refl]|]. intros b b' Hb. cbv zeta.
  pose proof (alike_app _ _ _ _ Hb Ht) as Hbt. rewrite (alike_ParseHex _ _ Hbt). case_match; [|by apply IH].
  apply (related_bind eq); [apply related_refl|]. intros z _ <-. by apply IH.
Qed.

Section codes.
Context (Hash : list Z -> NodeKey -> NodeKey).

Lemma hashBlocks_alike n : forall s s' at_ h, alike s s' -> related eq (hashBlocks Hash n s at_ h) (hashBlocks Hash n s' at_ h).
Proof.
  induction n as [|n IH]; intros s s' at_ h Hs; cbn [hashBlocks]; [done|]. cbv zeta. apply (related_bind alike); [by apply alike_slice|]. intros b b' Hb.
  apply (related_bind eq); [by apply blockElements_alike|]. intros els _ <-. apply (related_bind eq); [apply related_refl|]. intros i _ <-. by apply IH.
Qed.

Lemma alike_even s s' : alike s s' ->
  alike (if slen s mod 2 =? 0 then s else String "0" s) (if slen s' mod 2 =? 0 then s' else String "0" s').
Proof. intros Hs. rewrite (alike_slen _ _ Hs). case_match; [done|]. by split; [left|]. Qed.

(** The hash of a code does not depend on the case of its digits. *)
Lemma code_hash_alike s s' : alike s s' ->
  HashContractBytecodeBigInt Hash (String "0" (String "x" s')) = HashContractBytecodeBigInt Hash (String "0" (String "x" s)).
Proof.
  intros Hs. symmetry. apply related_eq. unfold HashContractBytecodeBigInt.
  assert (forall s, has0x (String "0" (String "x" s)) = true) as Hx by (intros u; unfold has0x; cbn; by destruct u). rewrite !Hx. cbn [TrimPrefix0x].
  change (TrimPrefix0x (String "0" (String "x" s))) with s. change (TrimPrefix0x (String "0" (String "x" s'))) with s'. cbv zeta.
  apply (related_bind alike); [apply padZeros_alike, alike_app; [by apply alike_even|apply alike_refl]|]. intros b b' Hb. rewrite (alike_slen _ _ Hb).
  apply (related_bind alike); [by apply alike_slice|]. intros l l' Hl. rewrite (alike_ParseHex _ _ Hl).
  apply (related_bind alike); [by apply alike_slice|]. intros u u' Hu.
  pose proof (alike_app _ _ _ _ Hu (alike_refl (FormatHex (Z.lor (default 0 (ParseHex l)) 0x80)))) as Ha. rewrite (alike_slen _ _ Ha).
  apply (related_bind eq); [by apply hashBlocks_alike|]. by intros h _ <-.
Qed.

Lemma convert_alike s s' : alike s s' ->
  convertBytecodeToBigInt Hash (String "0" (String "x" s')) = convertBytecodeToBigInt Hash (String "0" (String "x" s)).
Proof.
  intros Hs. unfold convertBytecodeToBigInt. rewrite (code_hash_alike _ _ Hs). change (TrimPrefix0x (String "0" (String "x" s))) with s.
  change (TrimPrefix0x (String "0" (String "x" s'))) with s'. cbv zeta. rewrite (alike_slen _ _ (alike_even _ _ Hs)).
  assert (slen (String "0" (String "x" s')) = slen (String "0" (String "x" s))) as -> by (apply alike_slen; by split; [left|split; [left|]]). done.
Qed.
End codes.

(** ** Decimal numbers *)

Fixpoint decimal (s : string) : Prop := match s with EmptyString => True | String c s => is_Some (decVal c) /\ decimal s end.

Lemma decVal_char n : (n < 10)%N -> decVal (pretty_N_char n) = Some (Z.of_N n).
Proof.
  intros Hn. assert (forallb (fun k => bool_decide (decVal (pretty_N_char (N.of_nat k)) = Some (Z.of_nat k))) (seq 0 10) = true) as Hc by reflexivity.
  rewrite forallb_forall in Hc. specialize (Hc (N.to_nat n) ltac:(apply in_seq; lia)). apply bool_decide_eq_true in Hc. rewrite N2Nat.id in Hc. rewrite Hc. f_equal. lia.
Qed.

Lemma parse_pretty_go n : forall s, parseDecDigits 0 (pretty_N_go n s) = parseDecDigits (Z.of_N n) s /\ (decimal s -> decimal (pretty_N_go n s)).
Proof.
  induction (N.lt_wf_0 n) as [n _ IH]. intros s. destruct (decide (0 < n)%N) as [Hn|Hn].
  - rewrite pretty_N_go_step by done. destruct (IH (n / 10)%N ltac:(apply N.div_lt; lia) (String (pretty_N_char (n mod 10)) s)) as [Hp Hd].
    pose proof (decVal_char (n mod 10) ltac:(apply N.mod_lt; lia)) as Hc. split.
    + rewrite Hp. cbn [parseDecDigits]. rewrite Hc. cbn [mbind option_bind]. f_equal. pose proof (N.div_mod n 10 ltac:(lia)). lia.
    + intros Hs. apply Hd. split; [by rewrite Hc|done].
  - assert (n = 0%N) as -> by lia. by rewrite pretty_N_go_0.
Qed.

Lemma decimal_signs c : is_Some (decVal c) -> Ascii.eqb c "-" = false /\ Ascii.eqb c "+" = false /\ Ascii.eqb c "x" = false.
Proof. intros [d Hd]. split_and!; apply Ascii.eqb_neq; by intros ->. Qed.

Lemma ParseDec_decimal s z : decimal s -> s <> EmptyString -> parseDecDigits 0 s = Some z -> ParseDec s = Some z.
Proof. destruct s as [|c s]; [done|]. intros [Hc _] _ Hp. unfold ParseDec. by destruct (decimal_signs c Hc) as (-> & -> & _). Qed.

Lemma decimal_no0x s : decimal s -> has0x s = false.
Proof.
  unfold has0x. destruct s as [|c [|c' s]]; [done|by intros _; cbn [String.prefix]; destruct (ascii_dec "0" c)|]. intros (_ & Hc & _). cbn [String.prefix].
  destruct (ascii_dec "0" c); [|done]. destruct (ascii_dec "x" c') as [<-|]; [by destruct Hc|done].
Qed.

(** The string of a number is read as the number. *)
Lemma convert_pretty z : 0 <= z -> convertStringToBigInt (pretty z) = Some z.
Proof.
  intros Hz. assert (decimal (pretty z) /\ pretty z <> EmptyString /\ parseDecDigits 0 (pretty z) = Some z) as (Hd & Hne & Hp).
  { destruct z as [|p|p]; [cbn; split; [by split; [eexists|]|done]| |lia].
    change (pretty (Z.pos p)) with (pretty (N.pos p)). unfold pretty, pretty_N. destruct (parse_pretty_go (N.pos p) EmptyString) as [Hp Hd].
    rewrite decide_False by done. split; [by apply Hd|]. split; [|by rewrite Hp]. intros He. by rewrite He in Hp. }
  unfold convertStringToBigInt. rewrite decimal_no0x by done. by apply ParseDec_decimal.
Qed.

(** ** The leaves of a witness *)

(** The leaves that are asked for, in preorder. *)
Fixpoint kept (ask : list Z -> bool) (p : list Z) (t : tree) : list (NodeKey * list Z) :=
  match t with
  | E => []
  | Leaf k v => if ask p then [(k, v)] else []
  | B l r => if ask p then kept ask (p ++ [0]) l ++ kept ask (p ++ [1]) r else []
  end.

Lemma kept_on ask (P : NodeKey -> list Z -> Prop) t : forall d p, Forall (fun kv => P (fst kv) (snd kv)) (kept ask p t) -> on_kept ask (fun _ => P) d p t.
Proof.
  induction t as [|k v|l IHl r IHr]; intros d p; cbn [kept on_kept]; [done|..]; intros Hk Ha; rewrite Ha in Hk.
  - exact (proj1 (Forall_singleton _ _) Hk).
  - apply Forall_app in Hk as [Hl Hr]. auto.
Qed.

Lemma kept_inT ask t : forall p k v, (k, v) ∈ kept ask p t -> inT k t.
Proof.
  induction t as [|k' v'|l IHl r IHr]; intros p k v; cbn [kept]; [by intros ?%elem_of_nil|..]; destruct (ask p); try (by intros ?%elem_of_nil).
  - by intros [= -> ->]%list_elem_of_singleton.
  - rewrite elem_of_app. cbn. intros [Hl|Hr]; [left; by eapply IHl|right; by eapply IHr].
Qed.

(** They are the leaves that [shown] tells of. *)
Lemma kept_shown ask t : forall d p k v, placed d t -> (k, v) ∈ kept ask p t <-> shown ask d p k t = true /\ tget d k t = Some v.
Proof.
  induction t as [|k' v'|l IHl r IHr]; intros d p k v Hp; cbn [kept shown tget].
  - rewrite elem_of_nil. by split; [|intros [? ?]].
  - destruct (ask p); cbn [andb]; [|rewrite elem_of_nil; by split; [|intros [? ?]]]. rewrite list_elem_of_singleton.
    case_bool_decide as Hk; [subst; rewrite decide_True by done|]; split; [by intros [= ->]|by intros [_ [= ->]]|by intros [= -> ->]|by intros [? _]].
  - destruct (ask p); cbn [andb]; [|rewrite elem_of_nil; by split; [|intros [? ?]]]. destruct Hp as (_ & Hl & Hr & Pl & Pr). rewrite elem_of_app.
    destruct (bit k d) eqn:Hb; [rewrite <- (IHr (S d)) by done|rewrite <- (IHl (S d)) by done]; (split; [|tauto]); intros [Hk|Hk]; try done;
      apply kept_inT in Hk; [specialize (Hl k Hk)|specialize (Hr k Hk)]; congruence.
Qed.

(** The cases of what a leaf adds. *)
Ltac by_kind e :=
  destruct (kindOf e =? KEY_BALANCE), (kindOf e =? KEY_NONCE), (kindOf e =? SC_STORAGE); done.

Section write.
Context (keccak : list Z -> list Z) (keccak_length : forall b, length (keccak b) = 32%nat).
Context (Hash : list Z -> NodeKey -> NodeKey) (Hash_range : forall i c, key_ok (Hash i c)).
Context (BytesToHex : list Z -> string) (HexToBytes : string -> list Z).
Context (BytesToHex_digits : forall b, bytes_ok b -> same_digits (EncodeToString b) (BytesToHex b)).
Context (HexToBytes_inv : forall b, bytes_ok b -> HexToBytes (BytesToHex b) = b).
Context (entryAt : NodeKey -> stateEntry) (codeAt : list Z -> list Z) (ask : list Z -> bool).

Abbreviation add := (fun D kv => addLeaf keccak Hash BytesToHex entryAt codeAt (fst kv) (snd kv) D).

Definition setHashes (hs : list (list Z * list Z)) (D : Decoded) : Decoded :=
  mkDecoded (balanceMap D) (nonceMap D) (contractMap D) (storageMap D) hs (cursor D) (w_db D).

Definition stubHash (d : nat) (p : list Z) (qs : list Z * tree) : list Z * list Z :=
  (p ++ fst qs, be_encode 32 (Key_ToBigInt (th Hash (d + length (fst qs)) (snd qs)))).

Lemma add_setHashes hs D kv : add (setHashes hs D) kv = setHashes hs (add D kv).
Proof.
  unfold addLeaf. cbv zeta. destruct (kindOf (entryAt (fst kv)) =? SC_CODE); unfold addValue; cbv zeta;
    by_kind (entryAt (fst kv)).
Qed.

Lemma adds_setHashes hs L : forall D, foldl add (setHashes hs D) L = setHashes hs (foldl add D L).
Proof. induction L as [|kv L IH]; intros D; [done|]. cbn [foldl]. by rewrite add_setHashes, IH. Qed.

Lemma adds_hashes L : forall D, nodeHashes (foldl add D L) = nodeHashes D.
Proof.
  induction L as [|kv L IH]; intros D; [done|]. cbn [foldl]. rewrite IH. unfold addLeaf. cbv zeta. destruct (kindOf (entryAt (fst kv)) =? SC_CODE); unfold addValue; cbv zeta;
    by_kind (entryAt (fst kv)).
Qed.

(** What is read is the leaves that are there and the hashes of what is not. *)
Lemma absorb_parts t : forall d p D, absorb keccak Hash BytesToHex entryAt codeAt ask d p t D =
  setHashes (nodeHashes D ++ map (stubHash d p) (stubs ask p t)) (foldl add D (kept ask p t)).
Proof.
  assert (forall D, setHashes (nodeHashes D) D = D) as Hid by (by intros []).
  assert (forall l1 l2 D, nodeHashes D = l1 -> l1 = l2 -> setHashes l2 D = D) as Hid' by (by intros l1 l2 [] <- <-).
  induction t as [|k v|l IHl r IHr]; intros d p D; cbn [absorb stubs kept].
  - cbn [map foldl]. by rewrite app_nil_r, Hid.
  - destruct (ask p); cbn [map foldl fst snd]; [rewrite app_nil_r; symmetry; apply (Hid' (nodeHashes D)); [apply (adds_hashes [(k, v)])|done]|].
    unfold stubHash. cbn [fst snd length]. rewrite app_nil_r, Nat.add_0_r. by destruct D.
  - destruct (ask p); cbn [map foldl fst snd].
    + rewrite IHr, IHl, adds_setHashes. rewrite foldl_app, map_app, !map_map. cbn [nodeHashes setHashes]. unfold setHashes at 1 3. f_equal.
      rewrite <- (assoc_L (++)). f_equal. f_equal; apply map_ext; intros [q s]; unfold stubHash; cbn [fst snd length]; rewrite <- (assoc_L (++)), Nat.add_succ_r; done.
    + unfold stubHash. cbn [fst snd length]. rewrite app_nil_r, Nat.add_0_r. by destruct D.
Qed.

(** The store only gains codes. *)
Lemma adds_store L : forall D, (forall k, db_Get (w_db (foldl add D L)) k = db_Get (w_db D) k) /\
  db_GetLastRoot (w_db (foldl add D L)) = db_GetLastRoot (w_db D) /\ (db_ok (w_db D) -> db_ok (w_db (foldl add D L))).
Proof.
  assert (forall code m m', Mem_AddCode Hash code m = Ok m' -> (forall k, db_Get m' k = db_Get m k) /\ db_GetLastRoot m' = db_GetLastRoot m /\ (db_ok m -> db_ok m')) as Hm.
  { intros code m m' Hc. unfold Mem_AddCode in Hc. apply bind_Ok_inv in Hc as (h & _ & [= <-]). done. }
  induction L as [|kv L IH]; intros D; [done|]. cbn [foldl]. destruct (IH (add D kv)) as (H1 & H2 & H3).
  assert ((forall k, db_Get (w_db (add D kv)) k = db_Get (w_db D) k) /\ db_GetLastRoot (w_db (add D kv)) = db_GetLastRoot (w_db D) /\
    (db_ok (w_db D) -> db_ok (w_db (add D kv)))) as (G1 & G2 & G3).
  { assert (forall e z D, w_db (addValue keccak BytesToHex e z D) = w_db D) as Hv by (intros e z D'; unfold addValue; cbv zeta; by_kind e).
    unfold addLeaf. rewrite Hv. case_match; [|done]. unfold addCode. cbn [w_db]. case_match; [|done].
    destruct (Mem_AddCode Hash (codeAt (snd kv)) (w_db D)) as [m'| |] eqn:Hc; [|done|done]. by eapply Hm. }
  split; [intros k; by rewrite H1, G1|]. split; [by rewrite H2, G2|auto].
Qed.

(** ** What the maps hold *)

(** A leaf of the state: its key is that of its entry, its value is a number, and a code is there
    for the hash of one. *)
Record leaf_state (kv : NodeKey * list Z) : Prop := {
  leaf_key : entryKey Hash (entryAt (fst kv)) = fst kv;
  leaf_entry : entry_known (entryAt (fst kv));
  leaf_value : snd kv = ScalarToArrayBig (ArrayBigToScalar (snd kv)) /\ 0 < ArrayBigToScalar (snd kv) < 2 ^ 256;
  leaf_code : kindOf (entryAt (fst kv)) = SC_CODE -> let code := codeAt (snd kv) in
    bytes_ok code /\ code <> [] /\ Z.of_nat (length code) < 2 ^ 50 /\ ArrayBigToScalar (snd kv) = Key_ToBigInt (codeHash Hash code);
}.

Lemma leaf_state_readable kv : leaf_state kv -> leaf_readable entryAt codeAt (fst kv) (snd kv).
Proof. intros [_ He [_ Hv] Hc]. split; [done|]. split; [lia|]. intros (? & _ & ? & _)%Hc. done. Qed.

Lemma leaf_written kv : leaf_state kv -> written Hash (entryAt (fst kv), ArrayBigToScalar (snd kv)) = kv.
Proof. intros [Hk _ [Hv _] _]. unfold written. cbn [fst snd]. rewrite Hk, <- Hv. by destruct kv. Qed.

Lemma leaf_nonzero kv : leaf_state kv -> is_zero (snd kv) = false.
Proof. intros [_ _ [Hv Hz] _]. rewrite Hv, is_zero_limbs by lia. apply Z.eqb_neq. lia. Qed.

(** A map that every leaf may set one key of. *)
Section told.
Context {K A : Type} `{EqDecision K} (look : Decoded -> K -> option A) (tell : NodeKey * list Z -> option (K * A)).
Context (look_add : forall D kv s, look (add D kv) s = match tell kv with Some (s', x) => if decide (s = s') then Some x else look D s | None => look D s end).

Lemma told_ok L : (forall kv kv' s x x', kv ∈ L -> kv' ∈ L -> tell kv = Some (s, x) -> tell kv' = Some (s, x') -> x = x') ->
  forall D s x, look D s = None -> look (foldl add D L) s = Some x <-> exists kv, kv ∈ L /\ tell kv = Some (s, x).
Proof.
  induction L as [|kv L IH] using rev_ind; intros Hone D s x Hn.
  { cbn [foldl]. rewrite Hn. split; [done|]. by intros (kv & Hk%elem_of_nil & _). }
  assert (forall kv1 kv2 s x x', kv1 ∈ L -> kv2 ∈ L -> tell kv1 = Some (s, x) -> tell kv2 = Some (s, x') -> x = x') as Hone'
    by (intros kv1 kv2 s' y y' H1 H2; apply Hone; apply elem_of_app; by left).
  rewrite foldl_app. cbn [foldl]. rewrite look_add. setoid_rewrite elem_of_app. setoid_rewrite list_elem_of_singleton.
  destruct (tell kv) as [[s' y]|] eqn:Ht; [destruct (decide (s = s')) as [<-|Hne]|]; [|rewrite IH by done..].
  - split; [intros [= ->]; by exists kv; split; [right|]|]. intros (kv' & Hin & Ht'). f_equal. eapply (Hone kv kv'); [..|exact Ht|exact Ht'].
    + apply elem_of_app. right. by apply list_elem_of_singleton.
    + by rewrite elem_of_app, list_elem_of_singleton.
  - split; [intros (kv' & ? & ?); exists kv'; tauto|]. intros (kv' & [Hin| ->] & Ht'); [by exists kv'|]. congruence.
  - split; [intros (kv' & ? & ?); exists kv'; tauto|]. intros (kv' & [Hin| ->] & Ht'); [by exists kv'|]. congruence.
Qed.
End told.

Definition tellKind {A} (kind : Z) (x : stateEntry -> list Z -> A) (kv : NodeKey * list Z) : option (string * A) :=
  let e := entryAt (fst kv) in if kindOf e =? kind then Some (addressString keccak (accountOf e), x e (snd kv)) else None.

Definition tellSlot (kv : NodeKey * list Z) : option ((string * string) * string) :=
  let e := entryAt (fst kv) in
  if kindOf e =? SC_STORAGE then Some ((addressString keccak (accountOf e), slotString BytesToHex (positionOf e)), pretty (ArrayBigToScalar (snd kv))) else None.

Definition lookSlot (D : Decoded) (s : string * string) : option string := storageMap D !! fst s ≫= fun m => m !! snd s.

Lemma look_balance D kv s : balanceMap (add D kv) !! s =
  match tellKind KEY_BALANCE (fun _ => ArrayBigToScalar) kv with Some (s', x) => if decide (s = s') then Some x else balanceMap D !! s | None => balanceMap D !! s end.
Proof.
  unfold addLeaf, addValue, tellKind. cbv zeta. set (e := entryAt (fst kv)). destruct (Z.eqb_spec (kindOf e) SC_CODE) as [->|_]; [done|].
  destruct (kindOf e =? KEY_BALANCE); [|by_kind e]. cbn [balanceMap]. case_decide; [subst; apply lookup_insert_eq|by apply lookup_insert_ne].
Qed.

Lemma look_nonce D kv s : nonceMap (add D kv) !! s =
  match tellKind KEY_NONCE (fun _ => ArrayBigToScalar) kv with Some (s', x) => if decide (s = s') then Some x else nonceMap D !! s | None => nonceMap D !! s end.
Proof.
  unfold addLeaf, addValue, tellKind. cbv zeta. set (e := entryAt (fst kv)). destruct (Z.eqb_spec (kindOf e) SC_CODE) as [->|_]; [done|].
  destruct (Z.eqb_spec (kindOf e) KEY_BALANCE) as [->|_]; [done|].
  destruct (kindOf e =? KEY_NONCE); [|by_kind e]. cbn [nonceMap]. case_decide; [subst; apply lookup_insert_eq|by apply lookup_insert_ne].
Qed.

Lemma look_code D kv s : contractMap (add D kv) !! s =
  match tellKind SC_CODE (fun _ v => codeString BytesToHex (codeAt v)) kv with Some (s', x) => if decide (s = s') then Some x else contractMap D !! s | None => contractMap D !! s end.
Proof.
  unfold addLeaf, addValue, tellKind. cbv zeta. set (e := entryAt (fst kv)). destruct (Z.eqb_spec (kindOf e) SC_CODE) as [->|_]; [|by_kind e].
  cbn -[lookup insert addressString codeString]. case_decide; [subst; apply lookup_insert_eq|by apply lookup_insert_ne].
Qed.

Lemma look_slot D kv s : lookSlot (add D kv) s =
  match tellSlot kv with Some (s', x) => if decide (s = s') then Some x else lookSlot D s | None => lookSlot D s end.
Proof.
  unfold addLeaf, addValue, tellSlot, lookSlot. cbv zeta. set (e := entryAt (fst kv)). destruct (Z.eqb_spec (kindOf e) SC_CODE) as [->|_]; [done|].
  destruct (Z.eqb_spec (kindOf e) KEY_BALANCE) as [->|_]; [done|]. destruct (Z.eqb_spec (kindOf e) KEY_NONCE) as [->|_]; [done|].
  destruct (kindOf e =? SC_STORAGE); [|done]. cbn [storageMap]. destruct s as [s u]. cbn [fst snd].
  destruct (decide (s = addressString keccak (accountOf e))) as [->|Hs].
  - rewrite lookup_insert_eq. cbn [mbind option_bind]. destruct (decide (u = slotString BytesToHex (positionOf e))) as [->|Hu].
    + by rewrite decide_True, lookup_insert_eq.
    + rewrite decide_False, lookup_insert_ne by congruence. by destruct (storageMap D !! _).
  - rewrite lookup_insert_ne, decide_False by congruence. done.
Qed.

Lemma entry_unique e e' : entry_known e -> entry_known e' -> sourceOf e = sourceOf e' -> e = e'.
Proof.
  destruct e as [a k|a p], e' as [a' k'|a' p']; intros [_ He] [_ He'] [= Hk Ha]; [congruence|..|congruence].
  - subst. apply list_elem_of_In in He. cbn in He. unfold SC_STORAGE, KEY_BALANCE, KEY_NONCE, SC_CODE, SC_LENGTH in He. lia.
  - subst. apply list_elem_of_In in He'. cbn in He'. unfold SC_STORAGE, KEY_BALANCE, KEY_NONCE, SC_CODE, SC_LENGTH in He'. lia.
Qed.

Lemma entry_account e kind : entry_known e -> kindOf e = kind -> kind <> SC_STORAGE -> e = AccountEntry (accountOf e) kind.
Proof. destruct e as [a k|a p]; cbn; [by intros _ ->|by intros _ <- ?]. Qed.

Lemma entry_slot e : entry_known e -> kindOf e = SC_STORAGE -> e = SlotEntry (accountOf e) (positionOf e).
Proof.
  destruct e as [a k|a p]; [|done]. intros [_ He]. cbn. intros ->. apply list_elem_of_In in He. cbn in He.
  unfold SC_STORAGE, KEY_BALANCE, KEY_NONCE, SC_CODE, SC_LENGTH in He. lia.
Qed.

Lemma address_account account : 0 <= account < 2 ^ 160 -> address_ok (be_encode 20 account) /\ be_decode (be_encode 20 account) = account.
Proof. intros Ha. split; [split; [apply be_encode_ok|apply be_encode_length]|]. by apply be_decode_encode_small. Qed.

(** The strings in the maps stand for what they were made of. *)
Lemma addressString_account account : 0 <= account < 2 ^ 160 -> ConvertHexToBigInt (addressString keccak account) = Some account.
Proof.
  intros Ha. destruct (address_account account Ha) as [Hok Hd]. unfold addressString.
  destruct (checksumHex_ok keccak keccak_length _ Hok) as (s & -> & Hs). by rewrite Hs, Hd.
Qed.

Lemma slotString_position position : 0 <= position < 2 ^ 256 -> StrValToBigInt (slotString BytesToHex position) = Some position.
Proof.
  intros Hp. unfold StrValToBigInt, slotString. set (b := be_encode 32 position).
  assert (forall s, has0x (String "0" (String "x" s)) = true) as -> by (intros u; unfold has0x; cbn; by destruct u).
  change (TrimPrefix0x (String "0" (String "x" (BytesToHex b)))) with (BytesToHex b).
  rewrite (same_digits_ParseHex _ _ (BytesToHex_digits b (be_encode_ok _ _))), ParseHex_Encode; [|apply be_encode_ok|].
  - f_equal. by apply be_decode_encode_small.
  - intros Hb. by apply (f_equal length) in Hb.
Qed.

Lemma codeString_code code : bytes_ok code -> code <> [] -> Z.of_nat (length code) < 2 ^ 50 ->
  let r := (Key_ToBigInt (codeHash Hash code), Z.of_nat (length code)) in
  convertBytecodeToBigInt Hash (codeString BytesToHex code) = Ok r /\ codeOf Hash (codeString BytesToHex code) = r.
Proof.
  intros Hb Hne Hl r. assert (convertBytecodeToBigInt Hash (codeString BytesToHex code) = Ok r) as Hr; [|split; [done|]; unfold codeOf; by rewrite Hr].
  unfold codeString. rewrite (BytesToHex_length BytesToHex BytesToHex_digits) by done. assert ((0 <? 2 * Z.of_nat (length code)) = true) as ->.
  { apply Z.ltb_lt. destruct code; [done|]. cbn [length]. lia. }
  rewrite (convert_alike Hash (EncodeToString code)) by (by apply same_digits_alike, BytesToHex_digits).
  exact (convertBytecodeToBigInt_ok Hash code true Hb Hl).
Qed.

Lemma tellKind_Some {A} kind (x : stateEntry -> list Z -> A) kv s y : tellKind kind x kv = Some (s, y) <->
  kindOf (entryAt (fst kv)) = kind /\ s = addressString keccak (accountOf (entryAt (fst kv))) /\ y = x (entryAt (fst kv)) (snd kv).
Proof.
  unfold tellKind. cbv zeta. destruct (Z.eqb_spec (kindOf (entryAt (fst kv))) kind) as [E1|E1]; [|by split; [|intros [? _]]].
  split; [by intros [= <- <-]|]. by intros (_ & -> & ->).
Qed.

Lemma tellSlot_Some kv s y : tellSlot kv = Some (s, y) <-> kindOf (entryAt (fst kv)) = SC_STORAGE /\
  fst s = addressString keccak (accountOf (entryAt (fst kv))) /\ snd s = slotString BytesToHex (positionOf (entryAt (fst kv))) /\ y = pretty (ArrayBigToScalar (snd kv)).
Proof.
  unfold tellSlot. cbv zeta. destruct (Z.eqb_spec (kindOf (entryAt (fst kv))) SC_STORAGE) as [E1|E1]; [|by split; [|intros [? _]]]. split.
  - intros Ht%(inj Some)%pair_equal_spec. destruct Ht as [<- <-]. done.
  - destruct s as [s u]. cbn [fst snd]. by intros (_ & -> & -> & ->).
Qed.

(** *** A list of leaves of the state *)

Section leaves.
Context (L : list (NodeKey * list Z)) (HL : Forall leaf_state L) (L_once : forall k v v', (k, v) ∈ L -> (k, v') ∈ L -> v = v').

(** The hash of a code comes with its length, and the length with the hash. *)
Record codes_paired : Prop := {
  code_length kv account : kv ∈ L -> entryAt (fst kv) = AccountEntry account SC_CODE ->
    exists kv', kv' ∈ L /\ entryAt (fst kv') = AccountEntry account SC_LENGTH /\ ArrayBigToScalar (snd kv') = Z.of_nat (length (codeAt (snd kv)));
  length_code kv account : kv ∈ L -> entryAt (fst kv) = AccountEntry account SC_LENGTH ->
    exists kv', kv' ∈ L /\ entryAt (fst kv') = AccountEntry account SC_CODE /\ ArrayBigToScalar (snd kv) = Z.of_nat (length (codeAt (snd kv')));
}.

Lemma leaf_at kv : kv ∈ L -> leaf_state kv.
Proof. rewrite Forall_forall in HL. apply HL. Qed.

Lemma leaf_same kv kv' : kv ∈ L -> kv' ∈ L -> sourceOf (entryAt (fst kv)) = sourceOf (entryAt (fst kv')) -> kv = kv'.
Proof.
  intros Hk Hk' Hs. pose proof (leaf_at _ Hk) as [K1 E1 _ _]. pose proof (leaf_at _ Hk') as [K2 E2 _ _].
  pose proof (entry_unique _ _ E1 E2 Hs) as He. destruct kv as [k v], kv' as [k' v']. cbn [fst snd] in *. assert (k = k') as <- by congruence.
  f_equal. by eapply L_once.
Qed.

Lemma leaf_ranges kv : kv ∈ L -> 0 <= accountOf (entryAt (fst kv)) < 2 ^ 160 /\ 0 <= positionOf (entryAt (fst kv)) < 2 ^ 256.
Proof. intros Hk%leaf_at. by destruct (entry_known_ranges _ (leaf_entry _ Hk)) as (_ & ? & ?). Qed.

Lemma address_same kv kv' : kv ∈ L -> kv' ∈ L -> addressString keccak (accountOf (entryAt (fst kv))) = addressString keccak (accountOf (entryAt (fst kv'))) ->
  accountOf (entryAt (fst kv)) = accountOf (entryAt (fst kv')).
Proof.
  intros Hk Hk' Hs. apply (f_equal ConvertHexToBigInt) in Hs. rewrite !addressString_account in Hs by (by apply leaf_ranges). congruence.
Qed.

Lemma tellKind_once {A} kind (x : stateEntry -> list Z -> A) kv kv' s y y' : kind <> SC_STORAGE -> kv ∈ L -> kv' ∈ L ->
  tellKind kind x kv = Some (s, y) -> tellKind kind x kv' = Some (s, y') -> y = y'.
Proof.
  intros Hst Hk Hk' (E1 & -> & ->)%tellKind_Some (E2 & Hs & ->)%tellKind_Some.
  assert (kv = kv') as <-; [|done]. apply leaf_same; [done..|]. pose proof (address_same _ _ Hk Hk' Hs) as Ha.
  rewrite (entry_account _ kind (leaf_entry _ (leaf_at _ Hk)) E1 Hst), (entry_account _ kind (leaf_entry _ (leaf_at _ Hk')) E2 Hst). by rewrite Ha.
Qed.

Lemma tellSlot_once kv kv' s y y' : kv ∈ L -> kv' ∈ L -> tellSlot kv = Some (s, y) -> tellSlot kv' = Some (s, y') -> y = y'.
Proof.
  intros Hk Hk' (E1 & Hs & Hu & ->)%tellSlot_Some (E2 & Hs' & Hu' & ->)%tellSlot_Some. assert (kv = kv') as <-; [|done]. apply leaf_same; [done..|].
  pose proof (address_same _ _ Hk Hk' (eq_trans (eq_sym Hs) Hs')) as Ha.
  rewrite Hu in Hu'. apply (f_equal StrValToBigInt) in Hu'. rewrite !slotString_position in Hu' by (by apply leaf_ranges). injection Hu' as Hp.
  rewrite (entry_slot _ (leaf_entry _ (leaf_at _ Hk)) E1), (entry_slot _ (leaf_entry _ (leaf_at _ Hk')) E2). by rewrite Ha, Hp.
Qed.

(** What has been read after all leaves. *)
Definition readLeaves : Decoded := foldl add startDecoding L.

Lemma balance_read s z : balanceMap readLeaves !! s = Some z <-> exists kv, kv ∈ L /\ tellKind KEY_BALANCE (fun _ => ArrayBigToScalar) kv = Some (s, z).
Proof.
  apply (told_ok (fun D s => balanceMap D !! s) (tellKind KEY_BALANCE (fun _ => ArrayBigToScalar)) look_balance); [|done].
  intros kv kv' s' x x'. by apply tellKind_once.
Qed.

Lemma nonce_read s z : nonceMap readLeaves !! s = Some z <-> exists kv, kv ∈ L /\ tellKind KEY_NONCE (fun _ => ArrayBigToScalar) kv = Some (s, z).
Proof.
  apply (told_ok (fun D s => nonceMap D !! s) (tellKind KEY_NONCE (fun _ => ArrayBigToScalar)) look_nonce); [|done].
  intros kv kv' s' x x'. by apply tellKind_once.
Qed.

Lemma code_read s c : contractMap readLeaves !! s = Some c <-> exists kv, kv ∈ L /\ tellKind SC_CODE (fun _ v => codeString BytesToHex (codeAt v)) kv = Some (s, c).
Proof.
  apply (told_ok (fun D s => contractMap D !! s) (tellKind SC_CODE (fun _ v => codeString BytesToHex (codeAt v))) look_code); [|done].
  intros kv kv' s' x x'. by apply tellKind_once.
Qed.

Lemma slot_read s c : lookSlot readLeaves s = Some c <-> exists kv, kv ∈ L /\ tellSlot kv = Some (s, c).
Proof. apply (told_ok lookSlot tellSlot look_slot); [|done]. intros kv kv' s' x x'. apply tellSlot_once. Qed.

(** No storage is empty, so each belongs to an account. *)
Lemma storage_account s st : storageMap readLeaves !! s = Some st -> exists kv, kv ∈ L /\ kindOf (entryAt (fst kv)) = SC_STORAGE /\ s = addressString keccak (accountOf (entryAt (fst kv))).
Proof.
  assert (forall L' D, (forall s st, storageMap D !! s = Some st -> st <> ∅) -> forall s st, storageMap (foldl add D L') !! s = Some st -> st <> ∅) as Hne.
  { induction L' as [|kv L' IH]; intros D HD; [done|]. cbn [foldl]. apply IH. intros s' st'. unfold addLeaf, addValue. cbv zeta. set (e := entryAt (fst kv)).
    assert (storageMap (if kindOf e =? SC_CODE then addCode keccak Hash BytesToHex e (codeAt (snd kv)) D else D) = storageMap D) as Hc by (by destruct (kindOf e =? SC_CODE)).
    destruct (kindOf e =? KEY_BALANCE); [cbn [storageMap]; rewrite Hc; apply HD|]. destruct (kindOf e =? KEY_NONCE); [cbn [storageMap]; rewrite Hc; apply HD|].
    destruct (kindOf e =? SC_STORAGE); [|rewrite Hc; apply HD]. cbn [storageMap]. rewrite Hc. intros [[_ <-]|[_ Hs]]%lookup_insert_Some; [apply insert_non_empty|by eapply HD]. }
  intros Hs. assert (st <> ∅) as (u & x & Hu)%map_choose by (by eapply (Hne L startDecoding)).
  assert (lookSlot readLeaves (s, u) = Some x) as (kv & Hk & Ht)%slot_read by (unfold lookSlot; cbn [fst snd]; by rewrite Hs).
  exists kv. split; [done|]. apply tellSlot_Some in Ht as (E1 & Hs1 & _). done.
Qed.

Lemma storage_slots s st : storageMap readLeaves !! s = Some st -> storage_ok st.
Proof.
  intros Hs u x Hu. assert (lookSlot readLeaves (s, u) = Some x) as (kv & Hk & Ht)%slot_read by (unfold lookSlot; cbn [fst snd]; by rewrite Hs).
  apply tellSlot_Some in Ht as (E1 & _ & Hu' & ->). cbn [snd] in Hu'. subst u. destruct (leaf_value _ (leaf_at _ Hk)) as [_ Hv].
  exists (positionOf (entryAt (fst kv))), (ArrayBigToScalar (snd kv)). cbn [fst snd]. rewrite slotString_position by (by apply leaf_ranges).
  rewrite convert_pretty by lia. split; [done|]. split; [done|]. split; [by apply leaf_ranges|lia].
Qed.

(** ** Writing what has been read *)

Context (visit : bool -> forall A, gmap string A -> list string) (visit_ok : forall b A (m : gmap string A), visit b A m ≡ₚ map fst (map_to_list m)).

Definition accountAt (s : string) : Z := default 0 (ConvertHexToBigInt s).

Definition codePair (s code : string) : list (stateEntry * Z) :=
  [(AccountEntry (accountAt s) SC_CODE, fst (codeOf Hash code)); (AccountEntry (accountAt s) SC_LENGTH, snd (codeOf Hash code))].

(** The entries that a map stands for, in the order in which it is visited. *)
Definition visited {A} (m : gmap string A) (f : string -> A -> list (stateEntry * Z)) : list (stateEntry * Z) :=
  visit false A m ≫= fun s => match m !! s with Some x => f s x | None => [] end.

Definition slotsNamed (s : string) (st : gmap string string) : list (stateEntry * Z) := storageNamed (be_encode 20 (accountAt s), slotsOf st (visit true _ st)).

Definition decodedNamed (D : Decoded) : list (stateEntry * Z) :=
  visited (balanceMap D) (fun s z => [(AccountEntry (accountAt s) KEY_BALANCE, z)]) ++
  visited (nonceMap D) (fun s z => [(AccountEntry (accountAt s) KEY_NONCE, z)]) ++
  visited (contractMap D) codePair ++ visited (storageMap D) slotsNamed.

Lemma visit_elem b {A} (m : gmap string A) s : s ∈ visit b A m <-> is_Some (m !! s).
Proof.
  rewrite (visit_ok b A m), list_elem_of_fmap. split.
  - intros ([s' x] & -> & Hx%elem_of_map_to_list). by exists x.
  - intros [x Hx]. exists (s, x). split; [done|]. by apply elem_of_map_to_list.
Qed.

Lemma visited_elem {A} (m : gmap string A) f ez : ez ∈ visited m f <-> exists s x, m !! s = Some x /\ ez ∈ f s x.
Proof.
  unfold visited. rewrite list_elem_of_bind. split.
  - intros (s & He & [x Hx]%visit_elem). rewrite Hx in He. eauto.
  - intros (s & x & Hx & He). exists s. rewrite Hx. split; [done|]. apply visit_elem. eauto.
Qed.

Lemma slotsNamed_elem s st ez : 0 <= accountAt s < 2 ^ 160 ->
  ez ∈ slotsNamed s st <-> exists u x, st !! u = Some x /\ ez = (SlotEntry (accountAt s) (default 0 (StrValToBigInt u)), default 0 (convertStringToBigInt x)).
Proof.
  intros Ha. unfold slotsNamed, storageNamed, slotsOf. cbn [fst snd]. rewrite map_map, list_elem_of_fmap.
  unfold slotNamed. destruct (address_account _ Ha) as [_ Hd]. rewrite Hd. cbn [fst snd]. split.
  - intros (u & -> & [x Hx]%visit_elem). exists u, x. by rewrite Hx.
  - intros (u & x & Hx & ->). exists u. rewrite Hx. split; [done|]. apply visit_elem. eauto.
Qed.

Lemma accountAt_leaf kv : kv ∈ L -> accountAt (addressString keccak (accountOf (entryAt (fst kv)))) = accountOf (entryAt (fst kv)).
Proof. intros Hk. unfold accountAt. by rewrite addressString_account by (by apply leaf_ranges). Qed.

Definition leafEntry (kv : NodeKey * list Z) : stateEntry * Z := (entryAt (fst kv), ArrayBigToScalar (snd kv)).

Lemma kind_visited kind (m : gmap string Z) ez : kind <> SC_STORAGE ->
  (forall s z, m !! s = Some z <-> exists kv, kv ∈ L /\ tellKind kind (fun _ => ArrayBigToScalar) kv = Some (s, z)) ->
  ez ∈ visited m (fun s z => [(AccountEntry (accountAt s) kind, z)]) <-> exists kv, kv ∈ L /\ kindOf (entryAt (fst kv)) = kind /\ ez = leafEntry kv.
Proof.
  intros Hkind Hm. rewrite visited_elem. split.
  - intros (s & z & (kv & Hk & (Hkv & -> & ->)%tellKind_Some)%Hm & ->%list_elem_of_singleton). exists kv. split; [done|]. split; [done|].
    unfold leafEntry. rewrite accountAt_leaf by done. by rewrite <- (entry_account _ kind (leaf_entry _ (leaf_at _ Hk)) Hkv Hkind).
  - intros (kv & Hk & Hkv & ->). exists (addressString keccak (accountOf (entryAt (fst kv)))), (ArrayBigToScalar (snd kv)). split.
    + apply Hm. exists kv. split; [done|]. by apply tellKind_Some.
    + apply list_elem_of_singleton. unfold leafEntry. rewrite accountAt_leaf by done. by rewrite <- (entry_account _ kind (leaf_entry _ (leaf_at _ Hk)) Hkv Hkind).
Qed.

Lemma slot_visited ez : ez ∈ visited (storageMap readLeaves) slotsNamed <-> exists kv, kv ∈ L /\ kindOf (entryAt (fst kv)) = SC_STORAGE /\ ez = leafEntry kv.
Proof.
  rewrite visited_elem. split.
  - intros (s & st & Hs & He). destruct (storage_account s st Hs) as (kv0 & Hk0 & _ & Hs0).
    apply slotsNamed_elem in He as (u & x & Hu & ->); [|subst s; rewrite accountAt_leaf by done; by apply leaf_ranges].
    assert (lookSlot readLeaves (s, u) = Some x) as (kv & Hk & (Hkv & Hs1 & Hu1 & ->)%tellSlot_Some)%slot_read by (unfold lookSlot; cbn [fst snd]; by rewrite Hs).
    cbn [fst snd] in Hs1, Hu1. exists kv. split; [done|]. split; [done|]. destruct (leaf_value _ (leaf_at _ Hk)) as [_ Hv].
    rewrite Hs1, Hu1, accountAt_leaf, slotString_position, convert_pretty by (done || lia || by apply leaf_ranges). cbn [default from_option id].
    by rewrite <- (entry_slot _ (leaf_entry _ (leaf_at _ Hk)) Hkv).
  - intros (kv & Hk & Hkv & ->). destruct (leaf_value _ (leaf_at _ Hk)) as [_ Hv].
    assert (lookSlot readLeaves (addressString keccak (accountOf (entryAt (fst kv))), slotString BytesToHex (positionOf (entryAt (fst kv)))) = Some (pretty (ArrayBigToScalar (snd kv)))) as Hl
      by (apply slot_read; exists kv; split; [done|]; by apply tellSlot_Some).
    unfold lookSlot in Hl. cbn [fst snd] in Hl. destruct (storageMap readLeaves !! _) as [st|] eqn:Hs; [|done]. cbn [mbind option_bind] in Hl.
    eexists _, st. split; [exact Hs|]. apply slotsNamed_elem; [rewrite accountAt_leaf by done; by apply leaf_ranges|]. eexists _, _. split; [exact Hl|].
    rewrite accountAt_leaf, slotString_position, convert_pretty by (done || lia || by apply leaf_ranges). cbn [default from_option id].
    by rewrite <- (entry_slot _ (leaf_entry _ (leaf_at _ Hk)) Hkv).
Qed.

(** Without the hash of a code its length is not written either. *)
Lemma lone_named ez : (forall kv, kv ∈ L -> kindOf (entryAt (fst kv)) <> SC_CODE) ->
  ez ∈ decodedNamed readLeaves -> exists kv, kv ∈ L /\ kindOf (entryAt (fst kv)) <> SC_LENGTH /\ ez = leafEntry kv.
Proof.
  intros Hno. unfold decodedNamed. rewrite !elem_of_app, (kind_visited KEY_BALANCE _ _ ltac:(done) balance_read), (kind_visited KEY_NONCE _ _ ltac:(done) nonce_read), slot_visited.
  intros [(kv & Hk & Hkv & He)|[(kv & Hk & Hkv & He)|[Hc|(kv & Hk & Hkv & He)]]]; [exists kv; by rewrite Hkv..| |exists kv; by rewrite Hkv].
  apply visited_elem in Hc as (s & c & (kv & Hk & (Hkv & _)%tellKind_Some)%code_read & _). by destruct (Hno kv Hk).
Qed.

Lemma lone_written kv : (forall kv, kv ∈ L -> kindOf (entryAt (fst kv)) <> SC_CODE) ->
  kv ∈ map (written Hash) (decodedNamed readLeaves) -> kv ∈ L /\ kindOf (entryAt (fst kv)) <> SC_LENGTH.
Proof.
  intros Hno (ez & -> & (kv' & Hk & Hl & ->)%(lone_named ez Hno))%list_elem_of_fmap. unfold leafEntry. by rewrite (leaf_written _ (leaf_at _ Hk)).
Qed.

Context (L_codes : codes_paired).

Lemma code_leaf kv : kv ∈ L -> kindOf (entryAt (fst kv)) = SC_CODE ->
  entryAt (fst kv) = AccountEntry (accountOf (entryAt (fst kv))) SC_CODE /\
  convertBytecodeToBigInt Hash (codeString BytesToHex (codeAt (snd kv))) = Ok (codeOf Hash (codeString BytesToHex (codeAt (snd kv)))) /\
  codeOf Hash (codeString BytesToHex (codeAt (snd kv))) = (ArrayBigToScalar (snd kv), Z.of_nat (length (codeAt (snd kv)))).
Proof.
  intros Hk Hkv. pose proof (leaf_at _ Hk) as Hl. split; [by apply entry_account; [apply Hl|..]|]. destruct (leaf_code _ Hl Hkv) as (Hb & Hne & Hlen & Hv).
  destruct (codeString_code _ Hb Hne Hlen) as [Hc Ho]. by rewrite Ho, Hv.
Qed.

Lemma code_visited ez : ez ∈ visited (contractMap readLeaves) codePair <->
  exists kv, kv ∈ L /\ (kindOf (entryAt (fst kv)) = SC_CODE \/ kindOf (entryAt (fst kv)) = SC_LENGTH) /\ ez = leafEntry kv.
Proof.
  rewrite visited_elem. split.
  - intros (s & c & (kv & Hk & (Hkv & -> & ->)%tellKind_Some)%code_read & He). destruct (code_leaf kv Hk Hkv) as (Hent & _ & Hof).
    unfold codePair in He. rewrite Hof, accountAt_leaf in He by done. cbn [fst snd] in He. apply elem_of_cons in He as [-> | ->%list_elem_of_singleton].
    + exists kv. split; [done|]. split; [by left|]. unfold leafEntry. by rewrite <- Hent.
    + destruct (code_length L_codes kv _ Hk Hent) as (kv' & Hk' & He' & Hv'). exists kv'. split; [done|]. split; [right; by rewrite He'|]. unfold leafEntry. by rewrite He', Hv'.
  - assert (forall kv, kv ∈ L -> kindOf (entryAt (fst kv)) = SC_CODE -> forall ez, ez = leafEntry kv \/ ez = (AccountEntry (accountOf (entryAt (fst kv))) SC_LENGTH, Z.of_nat (length (codeAt (snd kv)))) ->
      exists s x, contractMap readLeaves !! s = Some x /\ ez ∈ codePair s x) as Hcode.
    { intros kv Hk Hkv ez' Hez. destruct (code_leaf kv Hk Hkv) as (Hent & _ & Hof). eexists _, _. split.
      - apply code_read. exists kv. split; [done|]. by apply tellKind_Some.
      - unfold codePair. rewrite Hof, accountAt_leaf by done. cbn [fst snd]. rewrite <- Hent. unfold leafEntry in Hez. destruct Hez as [->| ->]; set_solver. }
    intros (kv & Hk & [Hkv|Hkv] & ->); [eapply Hcode; [done|done|by left]|].
    pose proof (entry_account _ SC_LENGTH (leaf_entry _ (leaf_at _ Hk)) Hkv ltac:(done)) as Hent. destruct (length_code L_codes kv _ Hk Hent) as (kv' & Hk' & He' & Hv').
    eapply (Hcode kv'); [done|by rewrite He'|]. right. unfold leafEntry. rewrite Hv', Hent, He'. done.
Qed.

(** The entries are those of the leaves, each of them. *)
Lemma decodedNamed_elem ez : ez ∈ decodedNamed readLeaves <-> exists kv, kv ∈ L /\ ez = leafEntry kv.
Proof.
  unfold decodedNamed. rewrite !elem_of_app, (kind_visited KEY_BALANCE _ _ ltac:(done) balance_read), (kind_visited KEY_NONCE _ _ ltac:(done) nonce_read), code_visited, slot_visited.
  split; [intros [(kv & ? & _ & ?)|[(kv & ? & _ & ?)|[(kv & ? & _ & ?)|(kv & ? & _ & ?)]]]; by exists kv|]. intros (kv & Hk & ->).
  pose proof (leaf_entry _ (leaf_at _ Hk)) as He. destruct (entryAt (fst kv)) as [a k|a p] eqn:Ee.
  - destruct He as [_ He]. apply list_elem_of_In in He. cbn in He. assert (kindOf (entryAt (fst kv)) = k) as Hkind by (by rewrite Ee).
    destruct He as [<-|[<-|[<-|[<-|[]]]]]; [left|right; left|right; right; left|right; right; left]; exists kv; auto.
  - right. right. right. exists kv. by rewrite Ee.
Qed.

Lemma decoded_written kv : kv ∈ map (written Hash) (decodedNamed readLeaves) <-> kv ∈ L.
Proof.
  rewrite list_elem_of_fmap. split.
  - intros (ez & -> & (kv' & Hk & ->)%decodedNamed_elem). unfold leafEntry. by rewrite (leaf_written _ (leaf_at _ Hk)).
  - intros Hk. exists (leafEntry kv). unfold leafEntry. rewrite (leaf_written _ (leaf_at _ Hk)). split; [done|]. apply decodedNamed_elem. eauto.
Qed.

Lemma forKeys_held (held : MemDb -> tree -> Prop) (good : tree -> NodeKey * list Z -> Prop) {A} (m : gmap string A) f (named : string -> A -> list (stateEntry * Z)) keys :
  (forall s x t d, m !! s = Some x -> startsIn Hash held d t -> put_run good t (map (written Hash) (named s x)) ->
     exists d', f s x d = Ok d' /\ startsIn Hash held d' (foldl tput t (map (written Hash) (named s x)))) ->
  forall t d, startsIn Hash held d t -> let ops := map (written Hash) (keys ≫= fun s => match m !! s with Some x => named s x | None => [] end) in
    put_run good t ops -> exists d', forKeys keys m f d = Ok d' /\ startsIn Hash held d' (foldl tput t ops).
Proof.
  intros Hf. induction keys as [|s keys IH]; intros t d Hs ops Hg; [by exists d|]. unfold ops in *. rewrite bind_cons, map_app in Hg |- *. cbn [forKeys].
  destruct (m !! s) as [x|] eqn:Hx; [|by apply IH]. apply put_run_app in Hg as [Hg1 Hg2]. destruct (Hf s x t d Hx Hs Hg1) as (d1 & -> & Hs1).
  rewrite bind_ok, foldl_app. by apply IH.
Qed.

Section held.
Context (cpuNum : nat) (Hcpu : (0 < cpuNum)%nat).
Context (held : MemDb -> tree -> Prop) (good : tree -> NodeKey * list Z -> Prop) `{!TreeStore Hash held good}.

Lemma accountAt_string s : is_Some (ConvertHexToBigInt s) -> ConvertHexToBigInt s = Some (accountAt s).
Proof. intros [a Ha]. unfold accountAt. by rewrite Ha. Qed.

Lemma tell_string {A} kind (x : stateEntry -> list Z -> A) s y : (exists kv, kv ∈ L /\ tellKind kind x kv = Some (s, y)) -> ConvertHexToBigInt s = Some (accountAt s).
Proof. intros (kv & Hk & (_ & -> & _)%tellKind_Some). apply accountAt_string. rewrite addressString_account by (by apply leaf_ranges). by eexists. Qed.

Lemma set_balance s z t d : balanceMap readLeaves !! s = Some z -> startsIn Hash held d t ->
  let ops := map (written Hash) [(AccountEntry (accountAt s) KEY_BALANCE, z)] in put_run good t ops ->
  exists d', (r ← SetAccountBalance Hash false s z d; Ok (snd (r : Z * MemDb))) = Ok d' /\ startsIn Hash held d' (foldl tput t ops).
Proof.
  intros Ha%balance_read%tell_string Hs ops [Hg _]. unfold SetAccountBalance, KeyEthAddrBalance. rewrite (Key_ok Hash s (accountAt s)), !bind_ok by done.
  destruct (setEntry_held Hash Hash_range held good _ z KEY_BALANCE s (accountAt s) t d Ha Hs Hg) as (r & d' & -> & Hs' & _). rewrite !bind_ok. by exists d'.
Qed.

Lemma set_nonce s z t d : nonceMap readLeaves !! s = Some z -> startsIn Hash held d t ->
  let ops := map (written Hash) [(AccountEntry (accountAt s) KEY_NONCE, z)] in put_run good t ops ->
  exists d', (r ← SetAccountNonce Hash false s z d; Ok (snd (r : Z * MemDb))) = Ok d' /\ startsIn Hash held d' (foldl tput t ops).
Proof.
  intros Ha%nonce_read%tell_string Hs ops [Hg _]. unfold SetAccountNonce, KeyEthAddrNonce. rewrite (Key_ok Hash s (accountAt s)), !bind_ok by done.
  destruct (setEntry_held Hash Hash_range held good _ z KEY_NONCE s (accountAt s) t d Ha Hs Hg) as (r & d' & -> & Hs' & _). rewrite !bind_ok. by exists d'.
Qed.

Lemma set_code s c t d : contractMap readLeaves !! s = Some c -> startsIn Hash held d t -> let ops := map (written Hash) (codePair s c) in put_run good t ops ->
  exists d', SetContractBytecode Hash false s c d = Ok d' /\ startsIn Hash held d' (foldl tput t ops).
Proof.
  intros Hc%code_read Hs ops Hg. pose proof (tell_string _ _ _ _ Hc) as Ha. destruct Hc as (kv & Hk & (Hkv & _ & ->)%tellKind_Some).
  by apply (SetContractBytecode_held Hash Hash_range held good); [|apply code_leaf|..].
Qed.

Lemma set_slots s st t d : storageMap readLeaves !! s = Some st -> startsIn Hash held d t -> let ops := map (written Hash) (slotsNamed s st) in put_run good t ops ->
  exists d', (r ← SetContractStorage Hash false cpuNum s st (visit false _ st) (visit true _ st) d; Ok (snd (r : Z * MemDb))) = Ok d' /\ startsIn Hash held d' (foldl tput t ops).
Proof.
  intros Hst Hs ops Hg. destruct (storage_account s st Hst) as (kv & Hk & _ & Hs0). pose proof (leaf_ranges kv Hk) as [Hr _]. pose proof (accountAt_leaf kv Hk) as Hacc.
  rewrite <- Hs0 in Hacc. rewrite <- Hacc in Hr. destruct (address_account _ Hr) as [_ Hd].
  destruct (SetContractStorage_held Hash Hash_range held good cpuNum s (be_encode 20 (accountAt s)) st (visit false _ st) (visit true _ st) t d) as (r & d' & -> & Hs' & _); try done.
  - rewrite Hd, Hacc, Hs0. apply addressString_account, leaf_ranges, Hk.
  - by eapply storage_slots.
  - rewrite bind_ok. by exists d'.
Qed.

(** All of it is written in the order of the maps. *)
Lemma writeDecoded_held t d : startsIn Hash held d t -> let ops := map (written Hash) (decodedNamed readLeaves) in put_run good t ops ->
  exists d', writeDecoded Hash cpuNum visit readLeaves d = Ok d' /\ startsIn Hash held d' (foldl tput t ops).
Proof.
  intros Hs ops Hg. unfold ops, decodedNamed in *. rewrite !map_app, !foldl_app in *. apply put_run_app in Hg as [Hg1 [Hg2 [Hg3 Hg4]%put_run_app]%put_run_app].
  unfold writeDecoded.
  destruct (forKeys_held held good (balanceMap readLeaves) _ _ (visit false _ (balanceMap readLeaves)) set_balance t d Hs Hg1) as (d1 & -> & Hs1). rewrite bind_ok.
  destruct (forKeys_held held good (nonceMap readLeaves) _ _ (visit false _ (nonceMap readLeaves)) set_nonce _ d1 Hs1 Hg2) as (d2 & -> & Hs2). rewrite bind_ok.
  destruct (forKeys_held held good (contractMap readLeaves) (fun addr code db => SetContractBytecode Hash false addr code db) _ (visit false _ (contractMap readLeaves)) set_code _ d2 Hs2 Hg3) as (d3 & -> & Hs3). rewrite bind_ok.
  exact (forKeys_held held good (storageMap readLeaves) _ _ (visit false _ (storageMap readLeaves)) set_slots _ d3 Hs3 Hg4).
Qed.
End held.
End leaves.

(** ** The tree comes back *)

Context (paired : forall p, ask (p ++ [0]) = ask (p ++ [1])).

Lemma insertHashNodes_ok qs : forall db t, grafted Hash ask db t -> hollows ask [] t qs -> sound_grafts Hash ask t qs ->
  exists db', insertHashNodes Hash (map (stubHash 0 []) qs) db = Ok db' /\ grafted Hash ask db' (foldl graftOne t qs).
Proof.
  induction qs as [|[q s] qs IH]; intros db t Hg Hh Hs; [by exists db|]. destruct Hh as [Hh1 Hh], Hs as [Hs1 Hs]. cbn [map insertHashNodes foldl]. unfold stubHash at 1. cbn [fst snd app Nat.add].
  rewrite be_decode_encode_small by (change (256 ^ Z.of_nat 32) with (2 ^ 256); by apply Key_ToBigInt_range, th_ok).
  destruct (InsertHashNode_ok Hash Hash_range ask q s t db Hg Hh1 Hs1) as (db1 & -> & Hg1). rewrite bind_ok. cbn [snd]. cbv zeta.
  destruct Hg1 as [Hr1 Hg1]. rewrite Hr1, bind_ok. by apply IH.
Qed.

Section tree.
Context (t : tree) (Ht : tree_ok t).

Lemma kept_get k v : (k, v) ∈ kept ask [] t -> tget 0 k t = Some v.
Proof. intros Hk. by apply (kept_shown ask t 0 [] k v (proj1 Ht)) in Hk as [_ ?]. Qed.

Lemma kept_once k v v' : (k, v) ∈ kept ask [] t -> (k, v') ∈ kept ask [] t -> v = v'.
Proof. intros H1%kept_get H2%kept_get. congruence. Qed.

Lemma tput_set t' k v : tree_ok t' -> op_ok (k, v) -> is_zero v = false -> tput t' (k, v) = tins 0 k v t'.
Proof. intros _ _ Hz. unfold tput. cbn [fst snd]. by rewrite Hz. Qed.

(** The path of every leaf is open while the leaves are written. *)
Lemma run_open ops : Forall (fun kv => op_ok kv /\ is_zero (snd kv) = false /\ kv ∈ kept ask [] t) ops ->
  forall t', tree_ok t' -> (forall k, inT k t' -> inT k t) -> put_run (sound_put Hash) t' ops -> put_run (open_put Hash ask) t' ops.
Proof.
  induction 1 as [|[k v] ops (Hop & Hz & Hk) _ IH]; intros t' Ht' Hsub Hg; [done|]. destruct Hg as [Hg1 Hg]. cbn [fst snd put_run] in *. split.
  - split; [done|]. split; [|done]. apply (open_shown ask k t t' 0 []); [apply Ht|apply Ht'|apply Ht'|done|].
    by apply (kept_shown ask t 0 [] k v (proj1 Ht)) in Hk as [? _].
  - apply IH; [by apply tput_ok| |done]. intros k2. rewrite tput_set by done. intros Hi.
    destruct (tins_inT k v t' 0 k2 (proj1 Hop) (proj2 Hop) ltac:(lia) (proj1 Ht') (under_0 k t') Hi) as [->|?]; [|auto]. by eapply kept_inT.
Qed.

Lemma tputs_get ops : Forall (fun kv => op_ok kv /\ is_zero (snd kv) = false /\ kv ∈ kept ask [] t) ops ->
  forall t' k2, tree_ok t' -> tget 0 k2 (foldl tput t' ops) = if decide (k2 ∈ map fst ops) then tget 0 k2 t else tget 0 k2 t'.
Proof.
  induction 1 as [|[k v] ops (Hop & Hz & Hk) _ IH]; intros t' k2 Ht'; [done|]. cbn [foldl map fst snd] in *. rewrite IH by (by apply tput_ok).
  rewrite tput_set, (tins_get k v t' 0 k2) by (done || lia || apply Hop || apply Ht' || apply under_0). pose proof (kept_get k v Hk) as Hg.
  destruct (decide (k2 ∈ map fst ops)) as [Hin|Hin]; [rewrite decide_True by (by right); done|].
  destruct (decide (k2 = k)) as [->|Hne]; [by rewrite decide_True by left|]. rewrite decide_False; [done|]. by intros [?|?]%elem_of_cons.
Qed.

Lemma rebuilt ops : Forall (fun kv => op_ok kv /\ is_zero (snd kv) = false) ops -> (forall kv, kv ∈ ops <-> kv ∈ kept ask [] t) -> foldl tput (cut ask [] t) ops = t.
Proof.
  intros Hops Hsame. assert (Forall (fun kv => op_ok kv /\ is_zero (snd kv) = false /\ kv ∈ kept ask [] t) ops) as Hall.
  { rewrite Forall_forall in Hops |- *. intros kv Hin. destruct (Hops kv Hin). by rewrite <- Hsame. }
  pose proof (cut_tree_ok ask paired t Ht) as Hc. assert (tree_ok (foldl tput (cut ask [] t) ops)) as [Hp1 Hc1].
  { apply tputs_tree_ok; [|done]. eapply Forall_impl; [exact Hops|]. by intros kv [? _]. }
  apply (tree_ext _ t 0 Hp1 (proj1 Ht) Hc1 (proj2 Ht)). intros k. rewrite tputs_get by done. case_decide as Hk; [done|]. rewrite cut_get.
  destruct (shown ask 0 [] k t) eqn:Hs; [|done]. destruct (tget 0 k t) as [v|] eqn:Hg; [|done]. destruct Hk.
  assert ((k, v) ∈ ops) as Hin by (apply Hsame; by apply (kept_shown ask t 0 [] k v (proj1 Ht))). by apply (list_elem_of_fmap_2 fst _ _ Hin).
Qed.
End tree.

Section rebuild_ok.
Context (cpuNum : nat) (Hcpu : (0 < cpuNum)%nat).
Context (visit : bool -> forall A, gmap string A -> list string) (visit_ok : forall b A (m : gmap string A), visit b A m ≡ₚ map fst (map_to_list m)).

(** The entries in the order in which they are written. *)
Definition rebuildOps (t : tree) : list (NodeKey * list Z) := map (written Hash) (decodedNamed visit (readLeaves (kept ask [] t))).

(** Along the way there and back no two different nodes have the same hash, and none has the hash zero. *)
Definition sound_rebuild (t : tree) : Prop := sound_grafts Hash ask E (stubs ask [] t) /\ put_run (sound_put Hash) (cut ask [] t) (rebuildOps t).

Lemma canonical_branching t : canonical t -> branching t.
Proof.
  induction t as [|k v|l IHl r IHr]; [done..|]. intros (Cl & Cr & Hm). split; [|auto]. by destruct l, r.
Qed.

Lemma writeDecoded_maps D D' db : balanceMap D = balanceMap D' -> nonceMap D = nonceMap D' -> contractMap D = contractMap D' -> storageMap D = storageMap D' ->
  writeDecoded Hash cpuNum visit D db = writeDecoded Hash cpuNum visit D' db.
Proof. unfold writeDecoded. by intros -> -> -> ->. Qed.

Lemma rebuildOps_ok t : Forall leaf_state (kept ask [] t) -> (forall kv, kv ∈ rebuildOps t -> kv ∈ kept ask [] t) ->
  Forall (fun kv => op_ok kv /\ is_zero (snd kv) = false) (rebuildOps t).
Proof.
  intros HL Hops. apply Forall_forall. intros kv Hin. split; [unfold rebuildOps in Hin; apply list_elem_of_fmap in Hin as (ez & -> & _); by apply written_ok|].
  apply leaf_nonzero. rewrite Forall_forall in HL. auto.
Qed.

(** Whatever is written of the leaves, it is written in the tree that the hashes leave. *)
Lemma BuildSMTfromWitness_writes l r : let t := B l r in tree_ok t -> ask [] = true -> Forall leaf_state (kept ask [] t) -> sound_rebuild t ->
  (forall kv, kv ∈ rebuildOps t -> kv ∈ kept ask [] t) ->
  exists db, BuildSMTfromWitness keccak Hash BytesToHex HexToBytes cpuNum visit (witnessOps Hash entryAt codeAt ask 0 [] t) = Ok db /\
    startsIn Hash (partial Hash ask) db (foldl tput (cut ask [] t) (rebuildOps t)).
Proof.
  intros t Ht Ha HL [Hsg Hrun] Hops. pose proof (kept_once t Ht) as Hone. pose proof (canonical_branching t (proj2 Ht)) as (Hch & Bl & Br).
  assert (readable entryAt codeAt ask 0 [] t) as Hread.
  { apply kept_on. eapply Forall_impl; [exact HL|]. intros kv. apply leaf_state_readable. }
  unfold BuildSMTfromWitness.
  destruct (decode_tree keccak keccak_length Hash BytesToHex HexToBytes BytesToHex_digits HexToBytes_inv entryAt codeAt ask l r Hch Bl Br Hread Ha) as (c' & Hd & _).
  fold t in Hd. rewrite Hd, bind_ok, absorb_parts. cbn [nodeHashes setCursor setHashes w_db startDecoding app]. fold (readLeaves (kept ask [] t)).
  destruct (adds_store (kept ask [] t) startDecoding) as (G1 & G2 & G3). fold (readLeaves (kept ask [] t)) in G1, G2, G3.
  destruct (grafts_cut ask t []) as [Hh Hcut].
  destruct (insertHashNodes_ok (stubs ask [] t) (w_db (readLeaves (kept ask [] t))) E) as (db1 & -> & Hr1 & Hn1 & Hs1 & Hd1); [|done|done|].
  { split; [by rewrite G2|]. split; [done|]. split; [rewrite seen_E; by apply Forall_nil|by apply G3]. }
  rewrite Hcut in *. rewrite bind_ok. pose proof (cut_tree_ok ask paired t Ht) as Hct. pose proof (partial_store Hash Hash_range ask) as Hstore.
  assert (put_run (open_put Hash ask) (cut ask [] t) (rebuildOps t)) as Hopen.
  { apply (run_open t Ht); [|done|by intros k; apply cut_inT|done]. pose proof (rebuildOps_ok t HL Hops) as Hok.
    rewrite Forall_forall in Hok |- *. intros kv Hin. destruct (Hok kv Hin). auto. }
  destruct (writeDecoded_held (kept ask [] t) HL Hone visit visit_ok cpuNum Hcpu (partial Hash ask) (open_put Hash ask) (cut ask [] t) db1) as (db2 & Hw & Hs2);
    [split; [done|by split_and!]|exact Hopen|].
  fold (rebuildOps t) in Hs2. exists db2. split; [|done]. rewrite <- Hw. by apply writeDecoded_maps.
Qed.

Lemma BuildSMTfromWitness_ok l r : let t := B l r in tree_ok t -> ask [] = true -> Forall leaf_state (kept ask [] t) -> codes_paired (kept ask [] t) -> sound_rebuild t ->
  exists db, BuildSMTfromWitness keccak Hash BytesToHex HexToBytes cpuNum visit (witnessOps Hash entryAt codeAt ask 0 [] t) = Ok db /\ startsIn Hash (partial Hash ask) db t.
Proof.
  intros t Ht Ha HL Hcodes Hs. pose proof (decoded_written (kept ask [] t) HL (kept_once t Ht) visit visit_ok Hcodes) as Hops. fold (rebuildOps t) in Hops.
  destruct (BuildSMTfromWitness_writes l r Ht Ha HL Hs) as (db & He & Hst); [intros kv; apply Hops|]. exists db. split; [exact He|]. fold t in Hst.
  rewrite (rebuilt t Ht (rebuildOps t)) in Hst; [done| |done]. apply rebuildOps_ok; [done|]. intros kv. apply Hops.
Qed.
End rebuild_ok.
End write.

(** ** Witnesses for a list of retained keys *)

Definition parentOf (p : list Z) : list Z := take (length p - 1) p.

(** The node is asked for its parent. *)
Definition asked (rd : option RetainList) (p : list Z) : bool := match rd with None => true | Some rl => keeps rl (parentOf p) end.

Lemma asked_paired rd p : asked rd (p ++ [0]) = asked rd (p ++ [1]).
Proof.
  assert (forall b, parentOf (p ++ [b]) = p) as Hp; [|destruct rd; cbn [asked]; by rewrite ?Hp].
  intros b. unfold parentOf. rewrite length_app. cbn [length]. rewrite Nat.add_sub. by apply take_app_length.
Qed.

Section retained.
Context (Sort : list (list Z) -> list bool -> outcome (list (list Z) * list bool)).
Context (Sort_ok : forall hs ms, length ms = length hs -> exists hs' ms', Sort hs ms = Ok (hs', ms') /\
  length ms' = length hs' /\ zip hs' ms' ≡ₚ zip hs ms /\ IsSorted hs' = true).

(** The list that the decider has become after some questions. *)
Definition still (rd rd' : option RetainList) : Prop :=
  match rd, rd' with None, None => True | Some rl, Some rl' => valid rl' /\ same_list rl rl' | _, _ => False end.

Lemma asked_ok rd p rd1 : still rd rd1 -> exists rd2, retainNode (Retain Sort) p rd1 = Ok (asked rd p, rd2) /\ still rd rd2.
Proof.
  destruct rd as [rl|], rd1 as [rl1|]; try done; [|by exists None]. intros [Hv Hs]. unfold retainNode. cbv zeta.
  assert ((if 0 <? Z.of_nat (length p) then q ← slice p 0 (Z.of_nat (length p) - 1); Retain Sort q rl1 else Retain Sort p rl1) = Retain Sort (parentOf p) rl1) as ->.
  { destruct p as [|b q _] using rev_ind; [done|]. rewrite (proj2 (Z.ltb_lt _ _)) by (rewrite length_app; cbn; lia). rewrite slice_parent, bind_ok.
    unfold parentOf. rewrite length_app. cbn [length]. rewrite Nat.add_sub. by rewrite take_app_length. }
  destruct (Retain_ok Sort Sort_ok rl1 (parentOf p) Hv) as (rl2 & -> & Hv2 & Hs2). rewrite bind_ok. cbn [fst snd asked].
  exists (Some rl2). rewrite (keeps_same _ _ (parentOf p) Hs). split; [done|]. split; [done|]. by etrans.
Qed.

Context {D : Type} `{SmtDb D} `{CodeDb D} `{WitnessDb D}.
Context (keccak : list Z -> list Z) (keccak_length : forall b, length (keccak b) = 32%nat).
Context (Hash : list Z -> NodeKey -> NodeKey) (Hash_range : forall i c, key_ok (Hash i c)).
Context (BytesToHex : list Z -> string) (HexToBytes : string -> list Z).
Context (BytesToHex_digits : forall b, bytes_ok b -> same_digits (EncodeToString b) (BytesToHex b)).
Context (HexToBytes_inv : forall b, bytes_ok b -> HexToBytes (BytesToHex b) = b).
Context (entryAt : NodeKey -> stateEntry) (codeAt : list Z -> list Z).

(** A store with a tree of the state, of which it knows the keys that are in a witness. *)
Record state_store (rd : option RetainList) (db : D) (t : tree) : Prop := {
  state_tree : tree_ok t /\ nonzero Hash 0 t /\ keeps_tree Hash db t;
  state_known : leaves_known Hash entryAt codeAt (asked rd) db 0 [] t;
  state_leaves : Forall (leaf_state Hash entryAt codeAt) (kept (asked rd) [] t);
  state_decider : match rd with Some rl => valid rl | None => True end;
}.

Lemma state_witness rd db t fuel : (256 < fuel)%nat -> state_store rd db t -> BuildWitness (Retain Sort) fuel db rd = Ok (witnessOps Hash entryAt codeAt (asked rd) 0 [] t).
Proof.
  intros Hf [(Ht & Hn & Hk) Hl _ Hrd]. apply (BuildWitness_ok Hash Hash_range entryAt codeAt (asked rd) (Retain Sort) (still rd) (asked_ok rd)); [done..|]. by destruct rd.
Qed.

(** C8: a witness holds the tree.  On a store that holds a tree of the state with a branch at the
    root, [BuildWitness] returns, and [BuildSMTfromWitness] makes of its operators a tree with
    the same root, in a store with every node that the list retains: in whatever order the
    maps are visited, and on any number of goroutines; the cursor finds the path of every
    hash, and no leaf is written below one.  This holds for every list of keys that retains the
    root and for which the witness holds the hash of a code if and only if it holds its length
    ([codes_paired]); otherwise the length is lost, or the rebuilding panics.  The hash does not
    collide along the way. *)
Theorem witness_round_trip fuel cpuNum visit rd db l r : let t := B l r in
  (256 < fuel)%nat -> (0 < cpuNum)%nat -> (forall b A (m : gmap string A), visit b A m ≡ₚ map fst (map_to_list m)) ->
  state_store rd db t -> asked rd [] = true -> codes_paired entryAt codeAt (kept (asked rd) [] t) ->
  sound_rebuild keccak Hash BytesToHex entryAt codeAt (asked rd) visit t ->
  exists w db', BuildWitness (Retain Sort) fuel db rd = Ok w /\ BuildSMTfromWitness keccak Hash BytesToHex HexToBytes cpuNum visit w = Ok db' /\
    db_GetLastRoot db' = db_GetLastRoot db /\ Forall (has Hash db') (seen Hash (asked rd) 0 [] t).
Proof.
  intros t Hf Hcpu Hv Hst Ha Hcodes Hs. rewrite (state_witness rd db t fuel Hf Hst). destruct Hst as [(Ht & _ & Hk) _ HL _].
  destruct (BuildSMTfromWitness_ok keccak keccak_length Hash Hash_range BytesToHex HexToBytes BytesToHex_digits HexToBytes_inv entryAt codeAt (asked rd) (asked_paired rd)
    cpuNum Hcpu visit Hv l r Ht Ha HL Hcodes Hs) as (db' & He & Hr & _ & _ & Hseen & _).
  eexists _, db'. split; [done|]. split; [exact He|]. split; [|done]. destruct Hk as [Hroot _]. by rewrite Hroot, Hr.
Qed.

(** C40: a witness needs a branch.  If the tree is a single leaf, or its root is not retained, the
    witness begins with a leaf or a hash, and [BuildSMTfromWitness] panics on it:
    it shortens the empty path. *)
Theorem witness_needs_branch fuel cpuNum visit rd db t : (256 < fuel)%nat -> state_store rd db t -> t <> E -> (forall l r, t = B l r -> asked rd [] = false) ->
  exists w, BuildWitness (Retain Sort) fuel db rd = Ok w /\ BuildSMTfromWitness keccak Hash BytesToHex HexToBytes cpuNum visit w = Panic.
Proof.
  intros Hf Hst Hne Hb. rewrite (state_witness rd db t fuel Hf Hst). destruct Hst as [_ _ HL _]. eexists. split; [done|]. unfold BuildSMTfromWitness.
  rewrite (decode_no_branch keccak keccak_length Hash BytesToHex HexToBytes HexToBytes_inv entryAt codeAt (asked rd) t Hb Hne); [done|].
  apply kept_on. eapply Forall_impl; [exact HL|]. intros kv. apply leaf_state_readable.
Qed.

(** C39: the length of a code does not come back alone.  A witness may hold the length of a code
    without its hash, because the sibling of a retained node is in it too.  If the witness has
    no leaf with the hash of a code at all, [BuildSMTfromWitness] passes over such a leaf
    without an error: the root of the tree that it builds is another one. *)
Theorem lone_length_lost fuel cpuNum visit rd db l r kv : let t := B l r in let t' := foldl tput (cut (asked rd) [] t) (rebuildOps keccak Hash BytesToHex entryAt codeAt (asked rd) visit t) in
  (256 < fuel)%nat -> (0 < cpuNum)%nat -> (forall b A (m : gmap string A), visit b A m ≡ₚ map fst (map_to_list m)) ->
  state_store rd db t -> asked rd [] = true -> sound_rebuild keccak Hash BytesToHex entryAt codeAt (asked rd) visit t ->
  Forall (fun kv => kindOf (entryAt (fst kv)) <> SC_CODE) (kept (asked rd) [] t) ->
  kv ∈ kept (asked rd) [] t -> kindOf (entryAt (fst kv)) = SC_LENGTH -> collision_free Hash (nodes Hash 0 t' ++ nodes Hash 0 t) ->
  exists w db', BuildWitness (Retain Sort) fuel db rd = Ok w /\ BuildSMTfromWitness keccak Hash BytesToHex HexToBytes cpuNum visit w = Ok db' /\
    db_GetLastRoot db' <> db_GetLastRoot db.
Proof.
  intros t t' Hf Hcpu Hv Hst Ha Hs Hno Hin Hkind Hcf. rewrite (state_witness rd db t fuel Hf Hst). destruct Hst as [(Ht & Hn & Hk) _ HL _]. rewrite Forall_forall in Hno.
  pose proof (fun kv => lone_written keccak keccak_length Hash BytesToHex BytesToHex_digits entryAt codeAt (kept (asked rd) [] t) HL (kept_once (asked rd) t Ht) visit Hv kv Hno) as Hops.
  destruct (BuildSMTfromWitness_writes keccak keccak_length Hash Hash_range BytesToHex HexToBytes BytesToHex_digits HexToBytes_inv entryAt codeAt (asked rd) (asked_paired rd)
    cpuNum Hcpu visit Hv l r Ht Ha HL Hs) as (db' & He & Hr & Ht' & Hn' & _); [intros kv' Hk'; by apply Hops|].
  eexists _, db'. split; [done|]. split; [exact He|]. destruct Hk as [Hroot _]. fold t in Hr, Ht', Hn'. fold t' in Hr, Ht', Hn'. rewrite Hroot, Hr. intros Heq.
  assert (th Hash 0 t' = th Hash 0 t) as Heq' by (apply Key_ToBigInt_inj; [by apply th_ok|by apply th_ok|congruence]). clear Heq. rename Heq' into Heq. apply (th_inj Hash Hash_range t' t 0) in Heq; [|apply Ht'|apply Ht|by intros ? ? _ _ ? ?; lia|lia|done..].
  destruct kv as [k v]. pose proof (kept_get (asked rd) t Ht k v Hin) as Hg. rewrite <- Heq in Hg. unfold t' in Hg.
  rewrite (tputs_get entryAt codeAt (asked rd) t Ht) in Hg; [|apply Forall_forall; intros kv' Hk'|by apply cut_tree_ok; [apply asked_paired|]].
  - rewrite decide_False, cut_get in Hg.
    + apply (kept_shown (asked rd) t 0 [] k v (proj1 Ht)) in Hin as [Hsh _]. by rewrite Hsh in Hg.
    + intros ([k' v'] & Ek & Hk')%list_elem_of_fmap. cbn [fst] in Ek. subst k'. destruct (Hops _ Hk') as [_ Hl]. by apply Hl.
  - destruct (Hops _ Hk') as [Hk1 _]. split; [unfold rebuildOps in Hk'; apply list_elem_of_fmap in Hk' as (ez & -> & _); by apply written_ok|]. split; [|done].
    rewrite Forall_forall in HL. by apply (leaf_nonzero Hash entryAt codeAt), HL.
Qed.
End retained.

(** ** Examples *)

Fixpoint decodeHex (s : string) : list Z :=
  match s with
  | String a (String b s) => (default 0 (hexVal a) * 16 + default 0 (hexVal b)) :: decodeHex s
  | _ => []
  end.

Lemma decodeHex_Encode b : bytes_ok b -> decodeHex (EncodeToString b) = b.
Proof.
  induction 1 as [|x b Hx _ IH]; [done|]. cbn [EncodeToString hexDigits]. rewrite !str_app_cons, str_app_nil. cbn [decodeHex].
  rewrite !hexVal_hexDigit by (apply Z.mod_pos_bound; lia). cbn [default from_option id]. rewrite IH. f_equal. unfold byte_ok in Hx.
  change (16 ^ Z.of_nat 1) with 16. change (16 ^ Z.of_nat 0) with 1. rewrite Z.div_1_r, (Z.mod_small (x / 16)) by (split; [apply Z.div_pos|apply Z.div_lt_upper_bound]; lia).
  pose proof (Z.div_mod x 16 ltac:(lia)). lia.
Qed.

Lemma same_digits_Encode b : bytes_ok b -> same_digits (EncodeToString b) (EncodeToString b).
Proof.
  intros _. pose proof (lower_Encode b) as Hl. induction (EncodeToString b) as [|c s IH]; [done|]. destruct Hl as [(d & Hd & ->) Hl].
  split; [done|]. split; [by rewrite hexVal_hexDigit|by apply IH].
Qed.

Section booleans.
Context (Hash : list Z -> NodeKey -> NodeKey) (ask : list Z -> bool).

Definition sound_graftb (q : list Z) (s t : tree) : bool :=
  let t' := graft q s t in
  nonzerob Hash 0 t' && collision_freeb Hash (seen Hash ask 0 [] t') && forallb (fun x => negb (bool_decide (Hash (fst x) (snd x) = th Hash (length q) s))) (seen Hash ask 0 [] t').

Fixpoint sound_graftsb (t : tree) (qs : list (list Z * tree)) : bool :=
  match qs with [] => true | x :: qs => sound_graftb (fst x) (snd x) t && sound_graftsb (graftOne t x) qs end.

Lemma sound_graftsb_ok qs : forall t, sound_graftsb t qs = true -> sound_grafts Hash ask t qs.
Proof.
  induction qs as [|x qs IH]; intros t Hb; [done|]. apply andb_true_iff in Hb as [Hb Hr]. split; [|by apply IH].
  apply andb_true_iff in Hb as [[Hn Hc]%andb_true_iff Hf]. split; [by apply nonzerob_ok|]. split; [by apply collision_freeb_ok|].
  apply Forall_forall. intros y Hy. rewrite forallb_forall in Hf. specialize (Hf y ltac:(by apply list_elem_of_In)). by apply negb_true_iff, bool_decide_eq_false in Hf.
Qed.
End booleans.

Definition visitAll (_ : bool) (A : Type) (m : gmap string A) : list string := map fst (map_to_list m).

(** The balance, the nonce and a slot of an account. *)
Definition example_entries : list (stateEntry * Z) := [(AccountEntry 1 KEY_BALANCE, 5); (AccountEntry 1 KEY_NONCE, 6); (SlotEntry 1 2, 7)].

(** The hash and the length of a code, and the nonce of another account. *)
Definition lone_entries : list (stateEntry * Z) := [(AccountEntry 1 SC_CODE, 5); (AccountEntry 1 SC_LENGTH, 6); (AccountEntry 6 KEY_NONCE, 7)].

Definition treeOf (es : list (stateEntry * Z)) : tree := foldl tput E (map (written toyHash) es).

Definition addSource (d : MemDb) (ez : stateEntry * Z) : MemDb :=
  match db_InsertKeySource (entryKey toyHash (fst ez)) (keySourceOf (fst ez)) d with Ok d => d | _ => d end.

(** The store after the entries are written, with the sources of their keys. *)
Definition storeOf (es : list (stateEntry * Z)) : MemDb :=
  match Inserts toyHash (map (written toyHash) es) NewMemDb with
  | Ok d => foldl addSource d es
  | _ => NewMemDb
  end.

Definition entryIn (es : list (stateEntry * Z)) (k : NodeKey) : stateEntry :=
  match find (fun ez => bool_decide (entryKey toyHash (fst ez) = k)) es with Some ez => fst ez | None => AccountEntry 0 0 end.

Definition leftOf (t : tree) : tree := match t with B l _ => l | _ => E end.
Definition rightOf (t : tree) : tree := match t with B _ r => r | _ => E end.

Definition example_keep : RetainList := AddHex [0] (NewRetainList 0).
Definition lone_keep : RetainList := AddHex [0; 0; 0; 1; 1] (NewRetainList 0).

Lemma treeOf_ok es : tree_ok (treeOf es).
Proof. apply tputs_tree_ok; [|apply E_ok]. apply Forall_map, Forall_forall. intros ev _. by apply written_ok, toyHash_range. Qed.

Lemma storeOf_keeps es : good_runb toyHash E (map (written toyHash) es) = true -> nonzero toyHash 0 (treeOf es) /\ keeps_tree toyHash (storeOf es) (treeOf es).
Proof.
  intros Hg%good_runb_ok. split; [by apply good_run_nonzero|]. destruct E_ok as [HE _].
  destruct (Inserts_ok toyHash toyHash_range (map (written toyHash) es) E NewMemDb) as (db & Hi & Hr); [|done|done| |done|].
  { apply Forall_map, Forall_forall. intros ev _. by apply written_ok, toyHash_range. }
  { split; [done|]. split; [by apply Forall_nil|done]. }
  unfold storeOf. rewrite Hi. fold (treeOf es) in Hr.
  assert (forall l d, represents toyHash d (treeOf es) -> represents toyHash (foldl addSource d l) (treeOf es)) as Hl.
  { induction l as [|ez l IH]; intros d Hd; [done|]. cbn [foldl]. apply IH. unfold addSource.
    destruct (InsertKeySource_same (entryKey toyHash (fst ez)) (keySourceOf (fst ez)) d) as (d' & -> & Hs). by eapply same_tree_represents. }
  destruct (Hl es db Hr) as (H1 & H2 & _). by split.
Qed.

Lemma entryIn_leaf es e z : entryIn es (entryKey toyHash e) = e -> entry_known e -> 0 < z < 2 ^ 256 -> kindOf e <> SC_CODE ->
  leaf_state toyHash (entryIn es) (fun _ => []) (written toyHash (e, z)).
Proof.
  intros He Hk Hz Hc. split; cbn [written fst snd]; rewrite ?He; try done. rewrite ArrayBigToScalar_ScalarToArrayBig by lia. done.
Qed.

(** A leaf that the store knows. *)
Lemma storeOf_leaf es d e v : entryIn es (entryKey toyHash e) = e -> entry_known e -> kindOf e <> SC_CODE ->
  db_GetHashKey (storeOf es) (th toyHash d (Leaf (entryKey toyHash e) v)) = Ok (entryKey toyHash e) ->
  db_GetKeySource (storeOf es) (entryKey toyHash e) = Ok (keySourceOf e) ->
  leaf_known toyHash (entryIn es) (fun _ => []) (storeOf es) d (entryKey toyHash e) v.
Proof. intros He Hk Hc Hh Hs. split; rewrite ?He; done. Qed.

(** What is not asked for is left out. *)
Ltac not_asked := let Ha := fresh in intros Ha; vm_compute in Ha; discriminate Ha.

Lemma example_state : state_store toyHash (entryIn example_entries) (fun _ => []) (Some example_keep) (storeOf example_entries) (treeOf example_entries).
Proof.
  destruct (storeOf_keeps example_entries) as [Hn Hk]; [vm_compute; reflexivity|]. split; [exact (conj (treeOf_ok _) (conj Hn Hk))|..].
  - unfold leaves_known. let t := eval vm_compute in (treeOf example_entries) in assert (treeOf example_entries = t) as -> by (vm_compute; reflexivity).
    cbn [on_kept app]. intros _. split; [intros _|intros _; split; [not_asked|exact I]].
    apply (storeOf_leaf example_entries 1 (AccountEntry 1 KEY_BALANCE)); [vm_compute; reflexivity|split; [lia|left]|discriminate|vm_compute; reflexivity|vm_compute; reflexivity].
  - assert (kept (asked (Some example_keep)) [] (treeOf example_entries) = [written toyHash (AccountEntry 1 KEY_BALANCE, 5)]) as -> by (vm_compute; reflexivity).
    apply Forall_singleton, entryIn_leaf; [vm_compute; reflexivity|split; [lia|left]|lia|discriminate].
  - split; [right; split; reflexivity|discriminate|discriminate|apply NoDup_singleton].
Qed.

Lemma lone_state : state_store toyHash (entryIn lone_entries) (fun _ => []) (Some lone_keep) (storeOf lone_entries) (treeOf lone_entries).
Proof.
  destruct (storeOf_keeps lone_entries) as [Hn Hk]; [vm_compute; reflexivity|]. split; [exact (conj (treeOf_ok _) (conj Hn Hk))|..].
  - unfold leaves_known. let t := eval vm_compute in (treeOf lone_entries) in assert (treeOf lone_entries = t) as -> by (vm_compute; reflexivity).
    cbn [on_kept app]. do 3 (intros _; split; [|exact I]). intros _. split; [exact I|]. intros _. split; [intros _; split; [not_asked|exact I]|intros _].
    apply (storeOf_leaf lone_entries 5 (AccountEntry 1 SC_LENGTH)); [vm_compute; reflexivity|split; [lia|do 3 right; left]|discriminate|vm_compute; reflexivity|vm_compute; reflexivity].
  - assert (kept (asked (Some lone_keep)) [] (treeOf lone_entries) = [written toyHash (AccountEntry 1 SC_LENGTH, 6)]) as -> by (vm_compute; reflexivity).
    apply Forall_singleton, entryIn_leaf; [vm_compute; reflexivity|split; [lia|do 3 right; left]|lia|discriminate].
  - split; [right; split; reflexivity|discriminate|discriminate|apply NoDup_singleton].
Qed.

Lemma sound_rebuildb (es : list (stateEntry * Z)) ask t :
  sound_graftsb toyHash ask E (stubs ask [] t) && good_runb toyHash (cut ask [] t) (rebuildOps example_keccak toyHash EncodeToString (entryIn es) (fun _ => []) ask visitAll t) = true ->
  sound_rebuild example_keccak toyHash EncodeToString (entryIn es) (fun _ => []) ask visitAll t.
Proof. intros [Hg Hr]%andb_true_iff. split; [by apply sound_graftsb_ok|by apply good_run_puts, good_runb_ok]. Qed.

(** The nonce and the slot are left out: their hash is in the witness. *)
Lemma witness_round_trip_witness : exists w db',
  BuildWitness (Retain example_sort) 257 (storeOf example_entries) (Some example_keep) = Ok w /\
  BuildSMTfromWitness example_keccak toyHash EncodeToString decodeHex 1 visitAll w = Ok db' /\
  db_GetLastRoot db' = db_GetLastRoot (storeOf example_entries).
Proof.
  pose proof example_state as Hst. assert (treeOf example_entries = B (leftOf (treeOf example_entries)) (rightOf (treeOf example_entries))) as Ht by (vm_compute; reflexivity).
  rewrite Ht in Hst.
  destruct (witness_round_trip example_sort example_sort_ok example_keccak (fun _ => eq_refl) toyHash toyHash_range EncodeToString decodeHex same_digits_Encode decodeHex_Encode
    (entryIn example_entries) (fun _ => []) 257 1 visitAll (Some example_keep) (storeOf example_entries) _ _ ltac:(lia) ltac:(lia) (fun b A m => reflexivity _) Hst eq_refl)
    as (w & db' & Hw & Hb & Hr & _); rewrite <- ?Ht.
  - assert (kept (asked (Some example_keep)) [] (treeOf example_entries) = [written toyHash (AccountEntry 1 KEY_BALANCE, 5)]) as -> by (vm_compute; reflexivity).
    split; intros kv account ->%list_elem_of_singleton He; vm_compute in He; discriminate He.
  - apply sound_rebuildb. vm_compute. reflexivity.
  - exists w, db'. exact (conj Hw (conj Hb Hr)).
Defined.

(** The length of a code is beside the branch that leads to its hash. *)
Lemma lone_length_lost_witness : exists w db',
  BuildWitness (Retain example_sort) 257 (storeOf lone_entries) (Some lone_keep) = Ok w /\
  BuildSMTfromWitness example_keccak toyHash EncodeToString decodeHex 1 visitAll w = Ok db' /\
  db_GetLastRoot db' <> db_GetLastRoot (storeOf lone_entries).
Proof.
  pose proof lone_state as Hst. assert (treeOf lone_entries = B (leftOf (treeOf lone_entries)) (rightOf (treeOf lone_entries))) as Ht by (vm_compute; reflexivity).
  rewrite Ht in Hst.
  assert (kept (asked (Some lone_keep)) [] (treeOf lone_entries) = [written toyHash (AccountEntry 1 SC_LENGTH, 6)]) as Hkept by (vm_compute; reflexivity).
  apply (lone_length_lost example_sort example_sort_ok example_keccak (fun _ => eq_refl) toyHash toyHash_range EncodeToString decodeHex same_digits_Encode decodeHex_Encode
    (entryIn lone_entries) (fun _ => []) 257 1 visitAll (Some lone_keep) (storeOf lone_entries) _ _ (written toyHash (AccountEntry 1 SC_LENGTH, 6)) ltac:(lia) ltac:(lia)
    (fun b A m => reflexivity _) Hst eq_refl); rewrite <- ?Ht.
  - apply sound_rebuildb. vm_compute. reflexivity.
  - rewrite Hkept. apply Forall_singleton. vm_compute. discriminate.
  - rewrite Hkept. left.
  - vm_compute. reflexivity.
  - apply collision_freeb_ok. vm_compute. reflexivity.
Defined.

(** A tree with one leaf. *)
Definition single_entries : list (stateEntry * Z) := [(AccountEntry 1 KEY_BALANCE, 5)].

Lemma witness_needs_branch_witness : exists w,
  BuildWitness (Retain example_sort) 257 (storeOf single_entries) None = Ok w /\
  BuildSMTfromWitness example_keccak toyHash EncodeToString decodeHex 1 visitAll w = Panic.
Proof.
  assert (treeOf single_entries = Leaf (entryKey toyHash (AccountEntry 1 KEY_BALANCE)) (ScalarToArrayBig 5)) as Ht by (vm_compute; reflexivity).
  destruct (storeOf_keeps single_entries) as [Hn Hk]; [vm_compute; reflexivity|].
  apply (witness_needs_branch example_sort example_sort_ok example_keccak (fun _ => eq_refl) toyHash toyHash_range EncodeToString decodeHex decodeHex_Encode
    (entryIn single_entries) (fun _ => []) 257 1 visitAll None (storeOf single_entries) (treeOf single_entries)); [lia| |rewrite Ht; discriminate|rewrite Ht; discriminate].
  split; [exact (conj (treeOf_ok _) (conj Hn Hk))|rewrite Ht..|exact I].
  - intros _. apply (storeOf_leaf single_entries 0 (AccountEntry 1 KEY_BALANCE)); [vm_compute; reflexivity|split; [lia|left]|discriminate|vm_compute; reflexivity|vm_compute; reflexivity].
  - apply Forall_singleton. apply (entryIn_leaf single_entries (AccountEntry 1 KEY_BALANCE) 5); [vm_compute; reflexivity|split; [lia|left]|lia|discriminate].
Defined.
